(* ===== verification/_CoqProject ===== *)
-Q . S2P
Prelude.v
Wire.v
Crypto.v
Loro.v
Lifecycle.v
Registers.v
Projection.v
ProjectionFacts.v
ProjectionOps.v
Notes.v
Events.v
DocCore.v
DocFocus.v
DocItems.v
DocIndex.v
IndexBuild.v
ItemFacts.v
MoveFacts.v
LifeFacts.v
DeleteFacts.v
RegisterFacts.v
DocLists.v
ListFacts.v
Export.v
IterFacts.v
ExportFacts.v
PortFacts.v
Translate.v
TranslateIndex.v
Mirror.v
TranslateEvents.v
TranslateFacts.v
TranslateConverges.v
ResyncFacts.v
RepairPlan.v
RepairFacts.v
Tables.v
Storage.v
Sqlite.v
SyncDoc.v
Instances.v
Engine.v
EngineFacts.v
Recovery.v
AuthDb.v
ServerDb.v
Coordinator.v
Sessions.v
SessionFacts.v
Ws.v
AuthFacts.v
AccountFacts.v
StreamFacts.v
SnapshotFacts.v
CompactFacts.v
Routes.v
Server.v
ServerFacts.v
RouteFacts.v
RevokeFacts.v
CatchUp.v
Ordering.v
Search.v
SearchFacts.v
SearchRuns.v
Places.v
PlacesFacts.v
Agenda.v
AgendaFacts.v
Fingerprint.v
FingerprintFacts.v
HostStore.v
HostSession.v
Host.v
HostFacts.v
HostInstances.v
HostLink.v
Desk.v
DeskFacts.v
DeskConverges.v
