(* ===== verification/Prelude.v ===== *)
(** Monoplan: a verification library of its synchronised task documents.

    The program keeps a person's lists and items in Loro documents, end-to-end
    encrypted, on every device; a server stores the encrypted updates and
    relays them. The library models the document with its mutations, the sync
    engine with its storage, and the server, and proves them against the
    contracts between them. This first file holds the vocabulary all share.

    ** The document (core/src/doc.rs, core/src/events.rs)

    [Loro]: what the containers hold; the library's local operations are the
    class [Loro] with laws [LoroOk]. [Lifecycle]: the workflow ladder, the
    bin, the transition table, default views. [Registers]: the string codecs
    (locations, order entries, focus refs, dates, durations) and the views
    read from an item or a list. [Projection]: the in-memory index of which
    open items a list shows, in order, with its specification
    [open_projection] and the step of every mutation; [ProjectionFacts] and
    [ProjectionOps] prove that each step keeps [index_wf]. [Notes]: editor
    deltas in UTF-16. [Events]: the events and the state diffs. [DocCore]: the
    state [Doc] (containers, index, event queue, commits) and its monad [M].
    [DocItems], [DocFocus], [DocLists]: the mutations, each the whole function
    of the same name, with its guards and events. [DocIndex] is the document
    invariant [doc_ok] and the calculus the proofs run mutations with;
    [IndexBuild], [ItemFacts], [MoveFacts], [LifeFacts], [DeleteFacts],
    [RegisterFacts], [ListFacts], [RepairPlan], [RepairFacts] are the
    theorems: no mutation fails once its guards pass, each keeps [doc_ok],
    lands what it moves where it says, and emits events that carry a
    consumer's list to the new projection; an index kept incrementally serves
    what a rebuilt one does; order repair changes nothing anyone sees.
    [Export]: export_json and import_json; [IterFacts], [ExportFacts]: an
    import only adds, and the second time does nothing; [PortFacts]: an
    export imported into an empty document restores it. [Translate]: what
    remote updates, undo and redo do to the index and the event queue; Loro's
    part is the argument [Applied] and the class [Containers], its promise the
    record [remote_step]. [Mirror] is the consumer (js/web/src/sync/store.ts).
    [TranslateIndex]: a committed plan leaves an exact index;
    [TranslateEvents], [TranslateFacts]: the moves the walk verified are what
    the consumer replays, and its state while the events are told; [TranslateConverges]: after an import or an undo step the
    consumer is in step or resynced; [ResyncFacts]: a snapshot puts a fresh
    one in step.

    ** Reading the document (core/src/search.rs, core/src/places.rs,
       cli/src/commands/agenda.rs)

    [Ordering]: comparisons and the stable sort. [Search]: the tokenizer over
    the class [Unicode], the index and the query, and [Doc::search].
    [SearchFacts]: the index stays consistent and a query is a scan of every
    document; [SearchRuns]: an index told of every change
    answers from the document as it is. [Places]: suggestions of places;
    [PlacesFacts]: they account for every use, whatever order the hash map
    yields. [Agenda]: dated items by day; [AgendaFacts]: planned dates as
    ranking keys, and every dated item on its day, once. [Fingerprint]: what of a
    document is hashed; [FingerprintFacts]: the encoding determines it.

    ** Replication (core/src/sync.rs, core/src/storage.rs, core/src/crypto,
       crates/storage-sqlite, crates/protocol)

    [Wire]: the frames. [Crypto]: the envelope encryption of keys and blobs
    over the class [Cipher]. [Storage]: the trait [LocalStorage] as a class,
    its law [StorageOk] and the in-memory store; [Sqlite]: the same over SQL
    tables ([Tables]), proved to keep the law for every document at once.
    [SyncDoc]: export, import, capture and boot over the class [Oplog].
    [Engine]: the protocol state machine, a monad [E] over [Engine], branch by
    branch. [EngineFacts]: cursors and acks under any input on any storage;
    [Recovery]: a crash at any moment loses nothing captured or acknowledged.
    [Instances]: executable instances of the third-party classes for the
    witnesses.

    ** The server (server/src, server/migrations)

    [AuthDb]: accounts, documents, members, devices, links, recovery sessions
    and their queries, with the keys and checks of the schema. [ServerDb]: the
    update stream, frontiers, snapshots, compaction and the deletions across
    tables. [Coordinator]: the snapshot lease. [Sessions]: the subscriber
    registry with its bounded channels and presence. [Ws]: the frame handlers
    of a connection, a monad [W] over the shared state and the connection.
    [Routes]: the HTTP handlers. [Server]: all of it as a transition system,
    one event per request, frame, delivery, hang-up, compaction and tick.
    [AuthFacts], [AccountFacts]: the invariant [auth_ok], password resets and
    links once each, deletion leaves no row. [StreamFacts]: pushes stored
    once, pulls complete. [SnapshotFacts]: what a bootstrap is served.
    [CompactFacts]: compaction is invisible and its floor spares every member.
    [SessionFacts]: presence. [ServerFacts], [RouteFacts]: the invariant of
    every run, whatever the clients do. [RevokeFacts]: revocation. [CatchUp]
    puts an engine and the server together.

    ** The resident host and its windows (cli/src/daemon.rs, cli/src/sync.rs,
       cli/src/storage.rs, cli/src/peer.rs, core/web/src/lib.rs)

    [HostStore]: the command line's database, an instance of [LocalStorage]
    by forwarding, and the lease of a peer slot. [HostSession]: one engine per
    document on one storage, what the host asks of all of them, the routing
    of frames, opening, creating, deleting and forgetting a document. [Host]:
    the daemon, one function per arm of its loop and the runs [reaches].
    [HostFacts], [HostLink]: the engines agree with the socket
    in every run. [HostInstances]: a profile to run it on. [Desk]: a window's
    mirror engine and the host with its windows as a transition system.
    [DeskFacts], [DeskConverges]: nothing a mirror or the host
    sends is lost, and both end at one version.

    ** Conventions

    A fallible function returns [result]; a stateful one is a function of its
    state in the monad of its component, an error leaving what was written
    before it. Integers keep their width where the code's casts matter:
    [as_i64] and [as_u64] are the casts of a u64 to a signed column and back,
    [is_i63] says a number survives them, [seq_room] that a document's counter
    does. Bytes are lists of N below 256, ids of rows are N, ids of items are
    strings. What the program draws (ids, nonces, the clock) is an argument or
    a class.

    Loops run by structural recursion or by fuel that is proved enough:
    [pull_frames] runs once per row and once more ([pull_fuel]), the
    composition of deltas once per operation of both.

    ** Simplifications

    A server handler is one atomic step: interleavings at its awaits are not
    steps of [Server] ([RevokeFacts.open_race_outlives_removal] shows one that
    matters). The server's sends succeed (the host's may fail), SQL fails only on the schema's
    constraints, encoding a frame cannot fail; hashes are a parameter
    [sha256] of the routes. Subscriber counters and lease ids do not wrap.
    Text of error events keeps its fixed part.

    ** Not modelled

    The interior of Loro, of the ciphers, of HKDF and of sqlite (third-party:
    classes with their documented laws). The file form of a document, key
    derivation from a passphrase (core/src/crypto). The bindings
    (core/web, core/ffi) beyond the mirror engine, the command line's text,
    login and local socket, the daemon's watch stream and the one-shot
    exchange (cli/), the clients in TypeScript and Swift, HTTP routing and
    cookies, configuration, logging and backups: glue around the modelled
    parts. *)
From Stdlib Require Export List ZArith Lia Ascii String.
From stdpp Require Export base tactics numbers option list list_numbers
  strings gmap sets fin_maps sorting.
Export ListNotations.

#[global] Open Scope Z_scope.
#[global] Open Scope string_scope.
#[global] Open Scope list_scope.
#[global] Open Scope nat_scope.

#[global] Arguments String.append !_ _ / : simpl nomatch.

(** ** Fallible code *)

Inductive result (E A : Type) : Type :=
  | Ok (a : A)
  | Err (e : E).
Arguments Ok {E A} a.
Arguments Err {E A} e.

Declare Scope result_scope.
Delimit Scope result_scope with result.
Notation "'let?' x ':=' c 'in' k" :=
  (match c with Ok x => k | Err e => Err e end)
  (at level 10, x pattern, c at level 100, k at level 200) : result_scope.
#[global] Open Scope result_scope.

Definition ok_or {E A} (o : option A) (e : E) : result E A :=
  match o with Some a => Ok a | None => Err e end.

Definition result_ok {E A} (r : result E A) : option A :=
  match r with Ok a => Some a | Err _ => None end.

Definition is_ok {E A} (r : result E A) : bool :=
  match r with Ok _ => true | Err _ => false end.

(** [lia] with division and modulo by constants. *)
Ltac dlia := try lia; zify; Z.to_euclidean_division_equations; lia.

(** ** Machine integers *)

(** [usize] indices that callers choose are [N] (so that [usize::MAX] can be
    computed with); positions bounded by a container's length are [nat]. *)
Definition usize_max : N := (2 ^ 64 - 1)%N.
Definition usize_saturating_add (a b : N) : N := N.min (a + b) usize_max.

(** [slice::get] at a [usize] index. *)
Definition get_usize {A} (l : list A) (i : N) : option A :=
  if (i <? N.of_nat (length l))%N then l !! N.to_nat i else None.

Definition u64_max : Z := (2 ^ 64 - 1)%Z.
Definition u32_max : Z := (2 ^ 32 - 1)%Z.

(** ** Bytes of a string *)

Definition bytes (s : string) : list N := N_of_ascii <$> list_ascii_of_string s.
Definition of_bytes (bs : list N) : string :=
  string_of_list_ascii (ascii_of_N <$> bs).

Lemma of_bytes_bytes s : of_bytes (bytes s) = s.
Proof.
  unfold of_bytes, bytes. rewrite <- list_fmap_compose.
  rewrite (list_fmap_ext _ id).
  - rewrite list_fmap_id. apply string_of_list_ascii_of_string.
  - intros i c _. cbn. apply ascii_N_embedding.
Qed.

Lemma bytes_app s t : bytes (s ++ t) = bytes s ++ bytes t.
Proof.
  unfold bytes. induction s as [|c s IH]; cbn; [done|]. f_equal. exact IH.
Qed.

Lemma bytes_length s : length (bytes s) = String.length s.
Proof.
  unfold bytes. rewrite length_fmap.
  induction s as [|c s IH]; cbn; [done|]. by rewrite IH.
Qed.

Lemma bytes_inj s t : bytes s = bytes t -> s = t.
Proof. intros H. by rewrite <- (of_bytes_bytes s), H, of_bytes_bytes. Qed.

(** The bytes of a string are bytes, which makes [of_bytes] a right inverse
    on any list of them. *)
Lemma bytes_of_bytes bs :
  Forall (fun b => (b < 256)%N) bs -> bytes (of_bytes bs) = bs.
Proof.
  unfold bytes, of_bytes. intros H.
  rewrite list_ascii_of_string_of_list_ascii, <- list_fmap_compose.
  induction H as [|b bs Hb _ IH]; cbn; [done|].
  f_equal; [|done]. by apply N_ascii_embedding.
Qed.

Lemma bytes_range s : Forall (fun b => (b < 256)%N) (bytes s).
Proof.
  unfold bytes. apply Forall_fmap, Forall_forall. intros c _. cbn.
  destruct c as [[] [] [] [] [] [] [] []]; cbn; lia.
Qed.

(** ** [str::split_once], [str::strip_prefix], [str::split], [slice::join] *)

(** Split at the first occurrence of [d]; [d] itself is dropped. *)
Fixpoint split_once (d : ascii) (s : string) : option (string * string) :=
  match s with
  | EmptyString => None
  | String c s' =>
      if decide (c = d) then Some ("", s')
      else match split_once d s' with
           | Some (a, b) => Some (String c a, b)
           | None => None
           end
  end.

Fixpoint contains_char (d : ascii) (s : string) : bool :=
  match s with
  | EmptyString => false
  | String c s' => bool_decide (c = d) || contains_char d s'
  end.

Fixpoint strip_prefix (p s : string) : option string :=
  match p, s with
  | EmptyString, _ => Some s
  | String a p', String b s' => if decide (a = b) then strip_prefix p' s' else None
  | String _ _, EmptyString => None
  end.

(** [str::split(d)]: one piece more than there are separators. *)
Fixpoint split_char (d : ascii) (s : string) : list string :=
  match s with
  | EmptyString => [""]
  | String c s' =>
      if decide (c = d) then "" :: split_char d s'
      else match split_char d s' with
           | p :: ps => String c p :: ps
           | [] => [String c ""]
           end
  end.

Fixpoint join_with (d : string) (l : list string) : string :=
  match l with
  | [] => ""
  | [x] => x
  | x :: l' => x +:+ d +:+ join_with d l'
  end.

Lemma split_once_app d a b :
  contains_char d a = false -> split_once d (a +:+ String d b) = Some (a, b).
Proof.
  induction a as [|c a IH]; cbn.
  - intros _. by rewrite decide_True.
  - intros [Hc Ha]%orb_false_iff. apply bool_decide_eq_false in Hc.
    rewrite decide_False by done. by rewrite (IH Ha).
Qed.

Lemma split_once_Some d s a b :
  split_once d s = Some (a, b) -> s = a +:+ String d b /\ contains_char d a = false.
Proof.
  revert a. induction s as [|c s IH]; cbn; intros a H; [done|].
  case_decide as Hc.
  - simplify_eq. by cbn.
  - destruct (split_once d s) as [[a' b']|]; simplify_eq.
    destruct (IH a' eq_refl) as [-> Ha]. split; [done|].
    cbn. rewrite Ha, orb_false_r. by apply bool_decide_eq_false.
Qed.

Lemma split_once_None d s :
  split_once d s = None <-> contains_char d s = false.
Proof.
  induction s as [|c s IH]; cbn; [done|].
  case_decide as Hc.
  - rewrite bool_decide_eq_true_2 by done. done.
  - rewrite bool_decide_eq_false_2 by done. cbn. rewrite <- IH.
    by destruct (split_once d s) as [[??]|].
Qed.

Lemma strip_prefix_app p s : strip_prefix p (p +:+ s) = Some s.
Proof.
  induction p as [|c p IH]; cbn; [by destruct s|].
  by rewrite decide_True.
Qed.

Lemma strip_prefix_Some p s r : strip_prefix p s = Some r -> s = p +:+ r.
Proof.
  revert s. induction p as [|c p IH]; intros [|d s]; cbn; intros H; simplify_eq; try done.
  case_decide; [|done]. subst. by rewrite (IH s H).
Qed.

Lemma split_char_nodelim d s : contains_char d s = false -> split_char d s = [s].
Proof.
  induction s as [|c s IH]; cbn; [done|].
  intros [Hc Hs]%orb_false_iff. apply bool_decide_eq_false in Hc.
  rewrite decide_False by done. by rewrite (IH Hs).
Qed.

Lemma split_char_app d a s :
  contains_char d a = false -> split_char d (a +:+ String d s) = a :: split_char d s.
Proof.
  induction a as [|c a IH]; cbn.
  - intros _. by rewrite decide_True.
  - intros [Hc Ha]%orb_false_iff. apply bool_decide_eq_false in Hc.
    rewrite decide_False by done. by rewrite (IH Ha).
Qed.

(** Splitting undoes joining pieces that do not contain the separator. *)
Lemma split_char_join d l :
  l <> [] -> Forall (fun x => contains_char d x = false) l ->
  split_char d (join_with (String d "") l) = l.
Proof.
  intros Hne Hl. induction Hl as [|x l Hx Hl IH]; [done|].
  destruct l as [|y l].
  - by apply split_char_nodelim.
  - change (join_with (String d "") (x :: y :: l))
      with (x +:+ String d (join_with (String d "") (y :: l))).
    rewrite split_char_app by done. by rewrite IH.
Qed.

(** ** [str::trim]: the Unicode White_Space scalars, as UTF-8 bytes *)

Definition ws1 (b : N) : bool := ((9 <=? b) && (b <=? 13))%N || (b =? 32)%N.
Definition ws2 (a b : N) : bool := (a =? 0xC2)%N && ((b =? 0x85) || (b =? 0xA0))%N.
Definition ws3 (a b c : N) : bool :=
  ((a =? 0xE1) && (b =? 0x9A) && (c =? 0x80))%N
  || ((a =? 0xE2) && (b =? 0x80) && (((0x80 <=? c) && (c <=? 0x8A)) || (c =? 0xA8)
                                   || (c =? 0xA9) || (c =? 0xAF)))%N
  || ((a =? 0xE2) && (b =? 0x81) && (c =? 0x9F))%N
  || ((a =? 0xE3) && (b =? 0x80) && (c =? 0x80))%N.

#[global] Arguments ws1 : simpl never.
#[global] Arguments ws2 : simpl never.
#[global] Arguments ws3 : simpl never.

Fixpoint trim_start_bytes (l : list N) : list N :=
  match l with
  | b1 :: r1 =>
      if ws1 b1 then trim_start_bytes r1 else
      match r1 with
      | b2 :: r2 =>
          if ws2 b1 b2 then trim_start_bytes r2 else
          match r2 with
          | b3 :: r3 => if ws3 b1 b2 b3 then trim_start_bytes r3 else l
          | [] => l
          end
      | [] => l
      end
  | [] => []
  end.

(** The same from the other end, on the reversed bytes. *)
Fixpoint trim_end_rev (l : list N) : list N :=
  match l with
  | b1 :: r1 =>
      if ws1 b1 then trim_end_rev r1 else
      match r1 with
      | b2 :: r2 =>
          if ws2 b2 b1 then trim_end_rev r2 else
          match r2 with
          | b3 :: r3 => if ws3 b3 b2 b1 then trim_end_rev r3 else l
          | [] => l
          end
      | [] => l
      end
  | [] => []
  end.

Definition trim_bytes (l : list N) : list N :=
  rev (trim_end_rev (rev (trim_start_bytes l))).

Definition trim (s : string) : string := of_bytes (trim_bytes (bytes s)).

Example trim_spaces : trim "  a b	 " = "a b".
Proof. reflexivity. Qed.

Lemma trim_start_bytes_prefix l y z :
  trim_start_bytes l = l -> l = y ++ z -> trim_start_bytes y = y.
Proof.
  intros H ->. destruct y as [|a y]; [done|].
  assert (Hlen : forall l, (length (trim_start_bytes l) <= length l)%nat).
  { fix IH 1. intros [|b1 r1]; cbn; [lia|].
    destruct (ws1 b1); [specialize (IH r1); lia|].
    destruct r1 as [|b2 r2]; cbn; [lia|].
    destruct (ws2 b1 b2); [specialize (IH r2); lia|].
    destruct r2 as [|b3 r3]; cbn; [lia|].
    destruct (ws3 b1 b2 b3); [specialize (IH r3); lia|]. cbn; lia. }
  assert (Hne : forall l (x : N) m, trim_start_bytes l <> x :: m ++ l).
  { intros l x m E. specialize (Hlen l). rewrite E in Hlen.
    cbn in Hlen. rewrite length_app in Hlen. lia. }
  cbn in H |- *. destruct (ws1 a) eqn:E1; [by edestruct (Hne (y ++ z) a [])|].
  destruct y as [|b y]; [done|]. cbn in H.
  destruct (ws2 a b) eqn:E2; [by edestruct (Hne (y ++ z) a [b])|].
  destruct y as [|c y]; [done|]. cbn in H.
  destruct (ws3 a b c) eqn:E3; [by edestruct (Hne (y ++ z) a [b; c])|]. done.
Qed.

Lemma trim_start_bytes_idemp l : trim_start_bytes (trim_start_bytes l) = trim_start_bytes l.
Proof.
  revert l. fix IH 1. intros [|b1 r1]; cbn; [done|].
  destruct (ws1 b1) eqn:E1; [apply IH|].
  destruct r1 as [|b2 r2]; cbn; [by rewrite E1|].
  destruct (ws2 b1 b2) eqn:E2; [apply IH|].
  destruct r2 as [|b3 r3]; cbn; [by rewrite E1, E2|].
  destruct (ws3 b1 b2 b3) eqn:E3; [apply IH|]. cbn. by rewrite E1, E2, E3.
Qed.

Lemma trim_end_rev_idemp l : trim_end_rev (trim_end_rev l) = trim_end_rev l.
Proof.
  revert l. fix IH 1. intros [|b1 r1]; cbn; [done|].
  destruct (ws1 b1) eqn:E1; [apply IH|].
  destruct r1 as [|b2 r2]; cbn; [by rewrite E1|].
  destruct (ws2 b2 b1) eqn:E2; [apply IH|].
  destruct r2 as [|b3 r3]; cbn; [by rewrite E1, E2|].
  destruct (ws3 b3 b2 b1) eqn:E3; [apply IH|]. cbn. by rewrite E1, E2, E3.
Qed.

Lemma trim_start_bytes_suffix l : exists p, l = p ++ trim_start_bytes l.
Proof.
  revert l. fix IH 1. intros [|b1 r1]; cbn; [by exists []|].
  destruct (ws1 b1).
  { destruct (IH r1) as [p Hp]. exists (b1 :: p). cbn. by rewrite <- Hp. }
  destruct r1 as [|b2 r2]; [by exists []|]. destruct (ws2 b1 b2).
  { destruct (IH r2) as [p Hp]. exists (b1 :: b2 :: p). cbn. by rewrite <- Hp. }
  destruct r2 as [|b3 r3]; [by exists []|]. destruct (ws3 b1 b2 b3).
  { destruct (IH r3) as [p Hp]. exists (b1 :: b2 :: b3 :: p). cbn. by rewrite <- Hp. }
  by exists [].
Qed.

Lemma trim_end_rev_suffix l : exists p, l = p ++ trim_end_rev l.
Proof.
  revert l. fix IH 1. intros [|b1 r1]; cbn; [by exists []|].
  destruct (ws1 b1).
  { destruct (IH r1) as [p Hp]. exists (b1 :: p). cbn. by rewrite <- Hp. }
  destruct r1 as [|b2 r2]; [by exists []|]. destruct (ws2 b2 b1).
  { destruct (IH r2) as [p Hp]. exists (b1 :: b2 :: p). cbn. by rewrite <- Hp. }
  destruct r2 as [|b3 r3]; [by exists []|]. destruct (ws3 b3 b2 b1).
  { destruct (IH r3) as [p Hp]. exists (b1 :: b2 :: b3 :: p). cbn. by rewrite <- Hp. }
  by exists [].
Qed.

Lemma trim_bytes_idemp l : trim_bytes (trim_bytes l) = trim_bytes l.
Proof.
  unfold trim_bytes. set (m := trim_start_bytes l).
  destruct (trim_end_rev_suffix (rev m)) as [p Hp].
  rewrite (trim_start_bytes_prefix m _ (rev p)).
  - by rewrite rev_involutive, trim_end_rev_idemp.
  - apply trim_start_bytes_idemp.
  - rewrite <- (rev_involutive m) at 1. rewrite Hp at 1. by rewrite rev_app_distr.
Qed.

Lemma trim_bytes_Forall (P : N -> Prop) l : Forall P l -> Forall P (trim_bytes l).
Proof.
  unfold trim_bytes. intros H.
  destruct (trim_start_bytes_suffix l) as [p Hp].
  destruct (trim_end_rev_suffix (rev (trim_start_bytes l))) as [q Hq].
  rewrite Hp in H. apply Forall_app in H as [_ H].
  apply Forall_rev in H. rewrite Hq in H. apply Forall_app in H as [_ H].
  by apply Forall_rev.
Qed.

Lemma bytes_trim s : bytes (trim s) = trim_bytes (bytes s).
Proof. apply bytes_of_bytes, trim_bytes_Forall, bytes_range. Qed.

(** Trimming twice is trimming once. *)
Lemma trim_idemp s : trim (trim s) = trim s.
Proof. unfold trim at 1. rewrite bytes_trim, trim_bytes_idemp. done. Qed.

(** ** ASCII digits *)

Definition is_digit (b : N) : bool := ((48 <=? b) && (b <=? 57))%N.

(** [str::parse::<u32>] on a run of ASCII digits. *)
Fixpoint parse_digits (acc : Z) (l : list N) : Z :=
  match l with
  | [] => acc
  | b :: l' => parse_digits (acc * 10 + (Z.of_N b - 48))%Z l'
  end.

(** ** [HashSet] guards: keep the first occurrence *)

Section dedup.
Context `{Countable A}.
Implicit Types (l : list A) (S : gset A).

(** Walk [l], keeping an element iff [seen.insert(x)] returns true. *)
Fixpoint dedup_seen (S : gset A) l : list A :=
  match l with
  | [] => []
  | x :: l' => if decide (x ∈ S) then dedup_seen S l'
               else x :: dedup_seen ({[x]} ∪ S) l'
  end.

Definition dedup l : list A := dedup_seen ∅ l.

Lemma elem_of_dedup_seen S l x : x ∈ dedup_seen S l <-> x ∈ l /\ x ∉ S.
Proof.
  revert S. induction l as [|y l IH]; intros S; cbn; [set_solver|].
  case_decide as Hy; rewrite ?elem_of_cons, ?IH.
  - split; [set_solver|]. intros [[->|]?]; [done|set_solver].
  - destruct (decide (x = y)) as [->|]; set_solver.
Qed.

Lemma elem_of_dedup l x : x ∈ dedup l <-> x ∈ l.
Proof. unfold dedup. rewrite elem_of_dedup_seen. set_solver. Qed.

Lemma NoDup_dedup_seen S l : NoDup (dedup_seen S l).
Proof.
  revert S. induction l as [|y l IH]; intros S; cbn; [constructor|].
  case_decide; [done|]. constructor; [|done].
  rewrite elem_of_dedup_seen. set_solver.
Qed.

Lemma NoDup_dedup l : NoDup (dedup l).
Proof. apply NoDup_dedup_seen. Qed.

Lemma dedup_seen_app S l k :
  dedup_seen S (l ++ k) = dedup_seen S l ++ dedup_seen (list_to_set l ∪ S) k.
Proof.
  revert S. induction l as [|y l IH]; intros S; cbn.
  - by replace (∅ ∪ S) with S by set_solver.
  - case_decide as Hy; rewrite IH.
    + by replace ({[y]} ∪ list_to_set l ∪ S) with (list_to_set l ∪ S : gset A)
        by set_solver.
    + by replace ({[y]} ∪ list_to_set l ∪ S) with (list_to_set l ∪ ({[y]} ∪ S) : gset A)
        by set_solver.
Qed.

Lemma dedup_seen_filter S T l :
  dedup_seen (T ∪ S) l = filter (fun x => x ∉ T) (dedup_seen S l).
Proof.
  revert S. induction l as [|y l IH]; intros S; cbn; [done|].
  destruct (decide (y ∈ S)) as [HS|HS].
  - rewrite decide_True by set_solver. by rewrite IH.
  - destruct (decide (y ∈ T)) as [HT|HT].
    + rewrite decide_True by set_solver.
      rewrite filter_cons_False by tauto. rewrite <- IH. f_equal. set_solver.
    + rewrite decide_False by set_solver.
      rewrite filter_cons_True by done. f_equal.
      replace ({[y]} ∪ (T ∪ S)) with (T ∪ ({[y]} ∪ S)) by set_solver. by rewrite IH.
Qed.

Lemma dedup_app l k :
  dedup (l ++ k) = dedup l ++ filter (fun x => x ∉ l) (dedup k).
Proof.
  unfold dedup. rewrite dedup_seen_app. f_equal.
  rewrite dedup_seen_filter. apply list_filter_iff.
  intros x. by rewrite elem_of_list_to_set.
Qed.

Lemma dedup_id l : NoDup l -> dedup l = l.
Proof.
  unfold dedup. intros Hl.
  assert (Hd : forall S, (forall x, x ∈ l -> x ∉ S) -> dedup_seen S l = l).
  { induction Hl as [|y l Hy Hl IH]; intros S HS; cbn; [done|].
    rewrite decide_False by set_solver. f_equal. apply IH. set_solver. }
  apply Hd. set_solver.
Qed.
End dedup.

#[global] Arguments bytes : simpl never.

(** ** String order: [Ord for str], bytewise lexicographic *)

Fixpoint bytes_lt (l k : list N) : bool :=
  match l, k with
  | [], _ :: _ => true
  | a :: l', b :: k' => (a <? b)%N || ((a =? b)%N && bytes_lt l' k')
  | _, [] => false
  end.

Definition str_le (s t : string) : bool := negb (bytes_lt (bytes t) (bytes s)).

Lemma bytes_lt_irrefl l : bytes_lt l l = false.
Proof.
  induction l as [|a l IH]; cbn; [done|]. by rewrite N.ltb_irrefl, N.eqb_refl, IH.
Qed.

Lemma bytes_lt_trans l k j :
  bytes_lt l k = true -> bytes_lt k j = true -> bytes_lt l j = true.
Proof.
  revert k j. induction l as [|a l IH]; intros [|b k] [|c j]; cbn; try done.
  rewrite !orb_true_iff, !andb_true_iff, !N.ltb_lt, !N.eqb_eq.
  intros [H1|[-> H1]] [H2|[-> H2]]; [left; lia|left; lia|left; lia|eauto].
Qed.

Lemma bytes_lt_total l k : bytes_lt l k = true \/ l = k \/ bytes_lt k l = true.
Proof.
  revert k. induction l as [|a l IH]; intros [|b k]; cbn; auto.
  rewrite !orb_true_iff, !andb_true_iff, !N.ltb_lt, !N.eqb_eq.
  destruct (N.lt_total a b) as [?|[->|?]]; [by auto| |by auto].
  destruct (IH k) as [?|[->|?]]; auto.
Qed.

(** The order of [(created_at, id)] pairs the fallback tails are sorted by. *)
Definition key_le (x y : Z * string) : Prop :=
  (x.1 < y.1)%Z \/ (x.1 = y.1 /\ bytes_lt (bytes y.2) (bytes x.2) = false).

#[export] Instance key_le_dec : RelDecision key_le.
Proof. intros x y. unfold key_le. apply _. Defined.

#[export] Instance key_le_total : Total key_le.
Proof.
  intros [a s] [b t]. unfold key_le. cbn.
  destruct (Z.lt_total a b) as [?|[->|?]]; [by auto| |by auto].
  destruct (bytes_lt (bytes t) (bytes s)) eqn:E1; [|auto].
  destruct (bytes_lt (bytes s) (bytes t)) eqn:E2; [|auto].
  pose proof (bytes_lt_trans _ _ _ E2 E1) as E. by rewrite bytes_lt_irrefl in E.
Qed.

#[export] Instance key_le_trans : Transitive key_le.
Proof.
  intros [a s] [b t] [c u]. unfold key_le. cbn. intros [?|[-> H1]] [?|[-> H2]];
    [left; lia|left; lia|left; lia|right; split; [done|]].
  destruct (bytes_lt_total (bytes t) (bytes s)) as [E|[E|E]]; [congruence| |].
  - by rewrite <- E.
  - destruct (bytes_lt (bytes u) (bytes s)) eqn:E'; [|done].
    by rewrite (bytes_lt_trans _ _ _ E' E) in H2.
Qed.

#[export] Instance key_le_antisymm : AntiSymm (=) key_le.
Proof.
  intros [a s] [b t]. unfold key_le. cbn. intros [?|[E1 H1]] [?|[E2 H2]]; try lia.
  destruct (bytes_lt_total (bytes s) (bytes t)) as [E|[E|E]]; try congruence.
  apply bytes_inj in E. by subst.
Qed.

(** Sorting by a total order commutes with filtering. *)
Lemma merge_sort_filter {A} (R : relation A) `{!RelDecision R, !Total R, !Transitive R,
    !AntiSymm (=) R} (P : A -> Prop) `{!forall x, Decision (P x)} (l : list A) :
  filter P (merge_sort R l) = merge_sort R (filter P l).
Proof.
  apply (StronglySorted_unique R).
  - assert (HS : StronglySorted R (merge_sort R l)) by by apply StronglySorted_merge_sort.
    induction HS as [|x k HS IH Hx]; [constructor|].
    rewrite filter_cons. case_decide; [|done].
    constructor; [done|]. rewrite Forall_forall in Hx |- *.
    intros y [_ ?]%list_elem_of_filter. auto.
  - by apply StronglySorted_merge_sort.
  - rewrite !merge_sort_Permutation. done.
Qed.

(** [Vec::insert] within bounds. *)
Definition insert_at {A} (i : nat) (x : A) (l : list A) : list A :=
  take i l ++ x :: drop i l.

(** [Vec::remove] within bounds. *)
Definition remove_at {A} (i : nat) (l : list A) : list A :=
  take i l ++ drop (S i) l.

(** [Iterator::position]. *)
Definition position {A} (p : A -> bool) (l : list A) : option nat :=
  fst <$> list_find (fun x => Is_true (p x)) l.

Definition position_of (x : string) (l : list string) : option nat :=
  position (fun y => bool_decide (y = x)) l.

(** ** List lemmas shared by the components *)

Lemma list_filter_ext_in {A} (P Q : A -> Prop) `{!forall x, Decision (P x)}
    `{!forall x, Decision (Q x)} (l : list A) :
  (forall x, x ∈ l -> P x <-> Q x) -> base.filter P l = base.filter Q l.
Proof.
  induction l as [|x l IH]; intros HPQ; [done|].
  rewrite !filter_cons, IH by set_solver.
  pose proof (HPQ x (list_elem_of_here _ _)) as Hx.
  do 2 case_decide; tauto.
Qed.

Lemma list_filter_all {A} (P : A -> Prop) `{!forall x, Decision (P x)} (l : list A) :
  (forall x, x ∈ l -> P x) -> base.filter P l = l.
Proof.
  induction l as [|x l IH]; intros HP; [done|].
  rewrite filter_cons_True by set_solver. f_equal. apply IH. set_solver.
Qed.

Section dedup_more.
Context `{Countable A}.
Implicit Types (l : list A) (S : gset A).

Lemma filter_dedup (P : A -> Prop) `{!forall x, Decision (P x)} l :
  base.filter P (dedup l) = dedup (base.filter P l).
Proof.
  unfold dedup. generalize (∅ : gset A). induction l as [|x l IH]; intros S; [done|].
  cbn [dedup_seen]. rewrite (filter_cons P x l).
  destruct (decide (x ∈ S)) as [HS|HS]; destruct (decide (P x)) as [HP|HP]; cbn [dedup_seen].
  - by rewrite decide_True.
  - done.
  - by rewrite decide_False, filter_cons_True, IH.
  - rewrite filter_cons_False, IH by done. rewrite dedup_seen_filter.
    apply list_filter_all. intros y. rewrite elem_of_dedup_seen, list_elem_of_filter.
    set_solver.
Qed.

Lemma dedup_insert l x k :
  x ∉ l -> x ∉ k ->
  dedup (l ++ x :: k) = insert_at (length (dedup l)) x (dedup (l ++ k)).
Proof.
  intros Hl Hk. rewrite !dedup_app. unfold insert_at.
  rewrite take_app_length, drop_app_length. f_equal.
  unfold dedup at 1. cbn [dedup_seen]. rewrite decide_False by set_solver.
  rewrite dedup_seen_filter, filter_cons_True by done. f_equal. f_equal.
  apply list_filter_all. intros y. rewrite elem_of_dedup. set_solver.
Qed.
End dedup_more.

Lemma length_insert_at {A} i (x : A) l : length (insert_at i x l) = S (length l).
Proof.
  unfold insert_at. rewrite length_app, length_take, length_cons, length_drop. lia.
Qed.

Lemma insert_remove_at {A} i (x : A) l : l !! i = Some x -> insert_at i x (remove_at i l) = l.
Proof.
  intros Hi. pose proof (lookup_lt_Some _ _ _ Hi) as Hlt. unfold insert_at, remove_at.
  assert (Ht : i = length (take i l)) by (rewrite length_take; lia).
  rewrite (take_app_length' _ _ _ Ht), (drop_app_length' _ _ _ Ht).
  by apply take_drop_middle.
Qed.

Lemma elem_of_insert_at {A} i (x y : A) l : y ∈ insert_at i x l <-> y = x \/ y ∈ l.
Proof.
  unfold insert_at. rewrite <- (take_drop i l) at 3.
  rewrite !elem_of_app, elem_of_cons. tauto.
Qed.

(** [insert_at] at the end of the prefix of an append. *)
Lemma insert_at_app {A} i (x : A) l k :
  i <= length l -> insert_at i x (l ++ k) = insert_at i x l ++ k.
Proof.
  intros Hi. unfold insert_at. rewrite take_app_le, drop_app_le by done.
  by rewrite <- app_assoc.
Qed.

Lemma insert_at_length {A} (x : A) l : insert_at (length l) x l = l ++ [x].
Proof. unfold insert_at. by rewrite take_ge, drop_ge. Qed.

Lemma lookup_insert_at {A} i (x : A) l : i <= length l -> insert_at i x l !! i = Some x.
Proof.
  intros Hi. unfold insert_at. rewrite lookup_app_r; rewrite length_take_le by done; [|done].
  by rewrite Nat.sub_diag.
Qed.

Lemma position_Some {A} (p : A -> bool) l i :
  position p l = Some i <->
  exists x, l !! i = Some x /\ p x = true /\ forall y, y ∈ take i l -> p y = false.
Proof.
  unfold position. rewrite fmap_Some. split.
  - intros ([j x] & (Hx & Hp & Hlt)%list_find_Some & ->). exists x. cbn.
    split_and!; [done|by apply Is_true_true|].
    intros y (k & Hk)%list_elem_of_lookup. rewrite lookup_take_Some in Hk.
    destruct Hk as [Hk Hlt']. apply not_true_is_false. rewrite <- Is_true_true. eauto.
  - intros (x & Hx & Hp & Hlt). exists (i, x). split; [|done].
    apply list_find_Some. split_and!; [done|by apply Is_true_true|].
    intros k y Hy Hk. rewrite Is_true_true. rewrite (Hlt y); [done|].
    apply list_elem_of_lookup. exists k. by rewrite lookup_take_lt.
Qed.

Lemma position_None {A} (p : A -> bool) l :
  position p l = None <-> forall x, x ∈ l -> p x = false.
Proof.
  unfold position. rewrite fmap_None, list_find_None, Forall_forall.
  split; intros H x Hx; specialize (H x Hx); destruct (p x); naive_solver.
Qed.

Lemma position_of_Some x l i :
  NoDup l -> position_of x l = Some i <-> l !! i = Some x.
Proof.
  intros Hnd. unfold position_of. rewrite position_Some. split.
  - intros (y & Hy & ->%bool_decide_eq_true & _). done.
  - intros Hx. exists x. split_and!; [done|by rewrite bool_decide_eq_true|].
    intros y Hy. apply bool_decide_eq_false. intros ->.
    apply list_elem_of_lookup in Hy as (k & Hk). apply lookup_take_Some in Hk as [Hk Hlt].
    pose proof (NoDup_lookup _ _ _ _ Hnd Hk Hx). lia.
Qed.

Lemma get_usize_Some {A} (l : list A) i x :
  get_usize l i = Some x <-> l !! N.to_nat i = Some x.
Proof.
  unfold get_usize. case_match eqn:E; [done|].
  split; [done|]. intros Hx%lookup_lt_Some. apply N.ltb_ge in E. lia.
Qed.

Lemma get_usize_None {A} (l : list A) i :
  get_usize l i = None <-> length l <= N.to_nat i.
Proof.
  unfold get_usize. case_match eqn:E; rewrite ?lookup_ge_None.
  - done.
  - apply N.ltb_ge in E. split; [lia|done].
Qed.

(** ** Removing a set of positions, highest first *)

(** [for p in ps.iter().rev() { if p < v.len() { v.remove(p) } }]. *)
Definition remove_all {A} (ps : list nat) (l : list A) : list A :=
  foldl (fun l p => if decide (p < length l) then remove_at p l else l) l (rev ps).

(** Strictly ascending positions of a list of length [n]. *)
Definition ascending (n : nat) (ps : list nat) : Prop :=
  StronglySorted lt ps /\ Forall (fun p => p < n) ps.

Lemma length_remove_at {A} i (l : list A) : i < length l -> length (remove_at i l) = length l - 1.
Proof. intros Hi. unfold remove_at. rewrite length_app, length_take, length_drop. lia. Qed.

Lemma remove_at_app {A} i (l k : list A) :
  i < length l -> remove_at i (l ++ k) = remove_at i l ++ k.
Proof.
  intros Hi. unfold remove_at. rewrite take_app_le, drop_app_le by lia. by rewrite <- app_assoc.
Qed.

Lemma fmap_remove_at {A B} (f : A -> B) i l : f <$> remove_at i l = remove_at i (f <$> l).
Proof. unfold remove_at. by rewrite fmap_app, fmap_take, fmap_drop. Qed.

Lemma fmap_insert_at {A B} (f : A -> B) i x l : f <$> insert_at i x l = insert_at i (f x) (f <$> l).
Proof. unfold insert_at. by rewrite fmap_app, fmap_cons, fmap_take, fmap_drop. Qed.

Lemma remove_all_snoc {A} ps p (l : list A) :
  remove_all (ps ++ [p]) l = remove_all ps (if decide (p < length l) then remove_at p l else l).
Proof. unfold remove_all. by rewrite rev_app_distr. Qed.

Lemma fmap_remove_all {A B} (f : A -> B) ps l : f <$> remove_all ps l = remove_all ps (f <$> l).
Proof.
  revert l. induction ps as [|p ps IH] using rev_ind; intros l; [done|].
  rewrite !remove_all_snoc, IH, length_fmap. case_decide; by rewrite ?fmap_remove_at.
Qed.

Lemma ascending_snoc n ps p : ascending n (ps ++ [p]) -> p < n /\ ascending p ps.
Proof.
  intros [Hs Hf]. apply Forall_app in Hf as [Hf Hp]. apply Forall_inv in Hp. split; [done|].
  assert (H : StronglySorted lt ps /\ Forall (fun q => q < p) ps); [|exact H]. clear Hf.
  induction ps as [|q ps IH]; [split; constructor|].
  apply StronglySorted_inv in Hs as [Hs Hq]. destruct (IH Hs) as [H1 H2].
  apply Forall_app in Hq as [Hq1 Hq2]. apply Forall_inv in Hq2.
  split; constructor; done.
Qed.

Lemma elem_of_remove_at_ne {A} i (x : A) l : x ∈ remove_at i l -> exists k, k <> i /\ l !! k = Some x.
Proof.
  unfold remove_at. rewrite elem_of_app. intros [(k & Hk & Hlt)%elem_of_take|Hx].
  - exists k. split; [lia|done].
  - apply list_elem_of_lookup in Hx as (k & Hk). rewrite lookup_drop in Hk.
    exists (S i + k). split; [lia|done].
Qed.

Lemma ascending_mono n m ps : ascending n ps -> n <= m -> ascending m ps.
Proof. intros [Hs Hf] Hm. split; [done|]. eapply Forall_impl; [exact Hf|]. cbn. lia. Qed.

Lemma remove_all_app {A} ps (l k : list A) :
  ascending (length l) ps -> remove_all ps (l ++ k) = remove_all ps l ++ k.
Proof.
  revert l. induction ps as [|p ps IH] using rev_ind; intros l Hps; [done|].
  apply ascending_snoc in Hps as [Hp [Hs Hf]].
  rewrite !remove_all_snoc, length_app, !decide_True by lia.
  rewrite remove_at_app by done. apply IH. split; [done|].
  rewrite length_remove_at by done. eapply Forall_impl; [done|]. cbn. lia.
Qed.

(** Removing the positions of the elements satisfying [P] filters them out. *)
Definition positions_of {A} (P : A -> bool) (l : list A) : list nat :=
  omap (fun '(i, x) => if P x then Some i else None) (imap pair l).

Lemma positions_of_cons {A} (P : A -> bool) x l :
  positions_of P (x :: l) = (if P x then [0] else []) ++ (S <$> positions_of P l).
Proof.
  assert (H : forall f : nat -> nat,
    omap (fun '(i, x) => if P x then Some i else None) (imap (fun n => pair (f n)) l)
    = f <$> omap (fun '(i, x) => if P x then Some i else None) (imap pair l)).
  { induction l as [|y l IH]; intros f; [done|]. rewrite !imap_cons. cbn [omap list_omap].
    pose proof (IH (f ∘ S)) as H1. pose proof (IH S) as H2.
    change (imap ((fun n => pair (f n)) ∘ S) l) with (imap (fun n => pair ((f ∘ S) n)) l).
    change (imap (pair ∘ S) l) with (imap (fun n => pair (S n)) l).
    destruct (P y); cbn [fmap list_fmap]; [f_equal|]; etrans; try exact H1;
      rewrite list_fmap_compose; f_equal; by symmetry. }
  unfold positions_of. rewrite imap_cons. cbn [omap list_omap].
  change (imap (pair ∘ S) l) with (imap (fun n => pair (S n)) l).
  destruct (P x); cbn [app]; [f_equal|]; apply (H S).
Qed.

Lemma positions_of_ascending {A} (P : A -> bool) (l : list A) :
  ascending (length l) (positions_of P l).
Proof.
  induction l as [|x l [IH1 IH2]]; [split; constructor|]. rewrite positions_of_cons.
  assert (H : ascending (S (length l)) (S <$> positions_of P l)).
  { split; [|rewrite Forall_fmap; eapply Forall_impl; [exact IH2|]; cbn; lia].
    clear IH2. induction IH1 as [|q ps Hs IH Hq]; [constructor|]. cbn. constructor; [done|].
    rewrite Forall_fmap. eapply Forall_impl; [exact Hq|]. cbn. lia. }
  destruct (P x); cbn [app]; [|exact H]. destruct H as [H1 H2].
  split; constructor; [done| |cbn; lia|done].
  rewrite Forall_fmap. apply Forall_true. cbn. lia.
Qed.

Lemma elem_of_positions_of {A} (P : A -> bool) (l : list A) i :
  i ∈ positions_of P l <-> exists x, l !! i = Some x /\ P x = true.
Proof.
  revert i. induction l as [|x l IH]; intros i.
  - split; [by intros ?%not_elem_of_nil|]. intros (? & Hx & _). by rewrite lookup_nil in Hx.
  - rewrite positions_of_cons, elem_of_app, list_elem_of_fmap. destruct i as [|i]; cbn.
    + split.
      * intros [H|(? & ? & _)]; [|done]. destruct (P x) eqn:E; [eauto|].
        by apply not_elem_of_nil in H.
      * intros (? & [= <-] & ->). left. by left.
    + split.
      * intros [H|(? & [= <-] & ?)]; [|by apply IH].
        destruct (P x); [apply list_elem_of_singleton in H|apply not_elem_of_nil in H]; done.
      * intros H. right. exists i. by rewrite IH.
Qed.

Lemma remove_all_S {A} ps (x : A) l : remove_all (S <$> ps) (x :: l) = x :: remove_all ps l.
Proof.
  revert l. induction ps as [|p ps IH] using rev_ind; intros l; [done|].
  rewrite fmap_app. cbn [fmap list_fmap]. rewrite !remove_all_snoc. cbn [length].
  destruct (decide (p < length l)) as [Hp|Hp].
  - rewrite decide_True by lia. apply IH.
  - rewrite decide_False by lia. apply IH.
Qed.

Lemma remove_all_cons {A} p ps (l : list A) :
  remove_all (p :: ps) l =
    (let l' := remove_all ps l in if decide (p < length l') then remove_at p l' else l').
Proof. unfold remove_all. cbn [rev]. by rewrite foldl_app. Qed.

Lemma remove_positions {A} (P : A -> bool) (l : list A) :
  remove_all (positions_of P l) l = base.filter (fun x => P x = false) l.
Proof.
  induction l as [|x l IH]; [done|]. rewrite positions_of_cons, filter_cons.
  destruct (P x); cbn [app].
  - rewrite decide_False by done. rewrite remove_all_cons, remove_all_S. cbn.
    by rewrite IH.
  - rewrite decide_True by done. by rewrite remove_all_S, IH.
Qed.

(** ** Sorted, deduplicated positions *)

Lemma StronglySorted_lt_dedup (l : list nat) :
  StronglySorted Nat.le l -> StronglySorted lt (dedup l).
Proof.
  intros Hs. unfold dedup. generalize (∅ : gset nat).
  induction Hs as [|x l Hs IH Hx]; intros S; cbn; [constructor|].
  case_decide; [done|]. constructor; [done|]. rewrite Forall_forall in *.
  intros y [Hy Hn]%elem_of_dedup_seen. specialize (Hx y Hy).
  assert (y <> x) by set_solver. lia.
Qed.

Lemma ascending_unique n ps qs :
  ascending n ps -> ascending n qs -> (forall i, i ∈ ps <-> i ∈ qs) -> ps = qs.
Proof.
  intros [H1 _] [H2 _] He.
  assert (Hnd : forall l, StronglySorted lt l -> NoDup l).
  { induction 1 as [|x l Hs IH Hx]; constructor; [|done].
    intros Hi. rewrite Forall_forall in Hx. specialize (Hx x Hi). lia. }
  assert (Hle : forall l, StronglySorted lt l -> StronglySorted le l).
  { induction 1 as [|x l Hs IH Hx]; constructor; [done|].
    eapply Forall_impl; [exact Hx|]. cbn. lia. }
  apply (StronglySorted_unique le); auto. apply NoDup_Permutation; auto.
Qed.
