(* ===== verification/Wire.v ===== *)
(** The wire types of the sync protocol (crates/protocol/src/sync.rs): opaque
    blobs, pushes and their acks, and the frames of the two directions, each
    naming its document. A decoded frame is a value of these types; the
    MessagePack codec is not modelled. *)
From S2P Require Import Prelude.

(** Byte vectors are lists of bytes; a [Uuid] is the number of its 16 bytes;
    sequence numbers are [u64]. *)
Abbreviation octets := (list N).
Abbreviation Uuid := N.

Record EncryptedBlob : Type := mkBlob { eb_nonce : octets; eb_ciphertext : octets }.
Record StoredBlob : Type := mkStored { sb_seq : N; sb_blob : EncryptedBlob }.
Record PushBlob : Type := mkPush { pb_push_id : Uuid; pb_blob : EncryptedBlob }.
Record PushAck : Type := mkAck { pa_push_id : Uuid; pa_seq : N }.
Record SnapshotBase : Type := mkBase { base_seq : N; base_vv : EncryptedBlob }.
Record PresentAccount : Type := mkPresent { pr_account_id : Uuid; pr_email : string }.

#[export] Instance EncryptedBlob_eq_dec : EqDecision EncryptedBlob.
Proof. solve_decision. Defined.
#[export] Instance StoredBlob_eq_dec : EqDecision StoredBlob.
Proof. solve_decision. Defined.
#[export] Instance PushBlob_eq_dec : EqDecision PushBlob.
Proof. solve_decision. Defined.
#[export] Instance PushAck_eq_dec : EqDecision PushAck.
Proof. solve_decision. Defined.
#[export] Instance SnapshotBase_eq_dec : EqDecision SnapshotBase.
Proof. solve_decision. Defined.
#[export] Instance PresentAccount_eq_dec : EqDecision PresentAccount.
Proof. solve_decision. Defined.

(** ** Client to server *)

Inductive ClientFrame : Type :=
  | OpenDoc (doc_id : Uuid)
  | PushUpdates (doc_id : Uuid) (updates : list PushBlob)
  | PullUpdates (doc_id : Uuid) (since_seq : N)
  | Ack (doc_id : Uuid) (last_acked_seq : N)
  | PushSnapshot (doc_id : Uuid) (up_to_seq compaction_floor_seq : N) (from_seq : option N)
      (up_to_vv blob : EncryptedBlob)
  | PullSnapshot (doc_id : Uuid).

#[export] Instance ClientFrame_eq_dec : EqDecision ClientFrame.
Proof. solve_decision. Defined.

Definition client_frame_doc_id (f : ClientFrame) : Uuid :=
  match f with
  | OpenDoc doc_id | PushUpdates doc_id _ | PullUpdates doc_id _ | Ack doc_id _
  | PushSnapshot doc_id _ _ _ _ _ | PullSnapshot doc_id => doc_id
  end.

(** ** Server to client *)

Inductive ServerFrame : Type :=
  | DocOpened (doc_id : Uuid) (epoch : N)
  | DocRejected (doc_id : Uuid) (reason : string)
  | DocClosed (doc_id : Uuid) (reason : string)
  | UpdatesAck (doc_id : Uuid) (acks : list PushAck)
  | UpdatesBatch (doc_id : Uuid) (updates : list StoredBlob) (complete : bool)
  | UpdatesBroadcast (doc_id : Uuid) (updates : list StoredBlob)
  | SnapshotRequest (doc_id : Uuid) (up_to_seq compaction_floor_seq : N)
      (base : option SnapshotBase)
  | Snapshot (doc_id : Uuid) (up_to_seq : N) (blob : EncryptedBlob) (complete : bool)
  | SnapshotRequired (doc_id : Uuid) (up_to_seq : N)
  | Presence (doc_id : Uuid) (accounts : list PresentAccount).

#[export] Instance ServerFrame_eq_dec : EqDecision ServerFrame.
Proof. solve_decision. Defined.

Definition server_frame_doc_id (f : ServerFrame) : Uuid :=
  match f with
  | DocOpened doc_id _ | DocRejected doc_id _ | DocClosed doc_id _ | UpdatesAck doc_id _
  | UpdatesBatch doc_id _ _ | UpdatesBroadcast doc_id _ | SnapshotRequest doc_id _ _ _
  | Snapshot doc_id _ _ _ | SnapshotRequired doc_id _ | Presence doc_id _ => doc_id
  end.

(** [(blob.ciphertext.len() + blob.nonce.len()) as u64]. *)
Definition blob_len (b : EncryptedBlob) : N :=
  N.of_nat (length (eb_ciphertext b) + length (eb_nonce b)).
