(* ===== verification/Crypto.v ===== *)
(** Envelope encryption (core/src/crypto): keys of 32 bytes, wrapping one key
    under another and sealing blobs with XChaCha20-Poly1305 under a fresh random
    nonce, and the invite secret's two subkeys. The cipher, HKDF and the
    random source are third-party: the cipher and HKDF are parameters, the
    random bytes an operation draws are an argument of it. *)
From S2P Require Import Prelude.
From S2P Require Import Wire.

Inductive CryptoError : Type :=
  | Argon2 (e : string)
  | Hkdf
  | Aead
  | InvalidRecoveryCode (e : string)
  | InvalidKeyLength (expected actual : nat)
  | InvalidNonceLength (expected actual : nat).

#[export] Instance CryptoError_eq_dec : EqDecision CryptoError.
Proof. solve_decision. Defined.

Definition AEAD_NONCE_LEN : nat := 24.
Definition KEY_LEN : nat := 32.
Definition INVITE_SECRET_LEN : nat := 32.

(** The [&'static [u8]] info strings of the subkeys. *)
Definition INVITE_KEK_INFO : octets := bytes "monoplan/invite_kek/v1".
Definition INVITE_ID_INFO : octets := bytes "monoplan/invite_id/v1".

(** Keys are byte vectors of length [KEY_LEN]; the newtypes keep them apart. *)
Record Dek : Type := mkDek { dek_bytes : octets }.
Record Kek : Type := mkKek { kek_bytes : octets }.
Record InviteSecret : Type := mkInvite { invite_bytes : octets }.
Record WrappedDek : Type := mkWrapped { wd_ciphertext : octets; wd_nonce : octets }.

(** XChaCha20-Poly1305 and HKDF-SHA256 expansion to 32 bytes. *)
Class Cipher : Type := {
  encrypt : octets -> octets -> octets -> option octets;
  decrypt : octets -> octets -> octets -> option octets;
  hkdf_expand : octets -> octets -> result CryptoError octets;
}.

(** Documented behaviour: decryption under the same key and nonce inverts
    encryption; under another key it does not open (idealised); the expansion has the
    length asked for. *)
Class CipherOk `{Cipher} : Prop := {
  decrypt_encrypt k n p c : encrypt k n p = Some c -> decrypt k n c = Some p;
  decrypt_other k k' n p c : encrypt k n p = Some c -> k <> k' -> decrypt k' n c = None;
  hkdf_length ikm info k : hkdf_expand ikm info = Ok k -> length k = KEY_LEN;
}.

Definition dek_from_bytes (b : octets) : result CryptoError Dek :=
  if decide (length b = KEY_LEN) then Ok (mkDek b) else Err (InvalidKeyLength KEY_LEN (length b)).
Definition kek_from_bytes (b : octets) : result CryptoError Kek :=
  if decide (length b = KEY_LEN) then Ok (mkKek b) else Err (InvalidKeyLength KEY_LEN (length b)).
Definition invite_from_bytes (b : octets) : result CryptoError InviteSecret :=
  if decide (length b = INVITE_SECRET_LEN) then Ok (mkInvite b)
  else Err (InvalidKeyLength INVITE_SECRET_LEN (length b)).

Section cipher.
Context `{Cipher}.

(** [nonce] is what [random_bytes] draws. *)
Definition kek_wrap (k : Kek) (dek : Dek) (nonce : octets) : result CryptoError WrappedDek :=
  let? c := ok_or (encrypt (kek_bytes k) nonce (dek_bytes dek)) Aead in Ok (mkWrapped c nonce).

Definition kek_unwrap (k : Kek) (w : WrappedDek) : result CryptoError Dek :=
  if decide (length (wd_nonce w) = AEAD_NONCE_LEN) then
    let? p := ok_or (decrypt (kek_bytes k) (wd_nonce w) (wd_ciphertext w)) Aead in dek_from_bytes p
  else Err (InvalidNonceLength AEAD_NONCE_LEN (length (wd_nonce w))).

Definition seal (d : Dek) (plaintext nonce : octets) : result CryptoError (octets * octets) :=
  let? c := ok_or (encrypt (dek_bytes d) nonce plaintext) Aead in Ok (c, nonce).

Definition open_ (d : Dek) (ciphertext nonce : octets) : result CryptoError octets :=
  if decide (length nonce = AEAD_NONCE_LEN) then ok_or (decrypt (dek_bytes d) nonce ciphertext) Aead
  else Err (InvalidNonceLength AEAD_NONCE_LEN (length nonce)).

Definition wrap_dek (d other : Dek) (nonce : octets) : result CryptoError WrappedDek :=
  let? r := seal d (dek_bytes other) nonce in Ok (mkWrapped r.1 r.2).

Definition unwrap_dek (d : Dek) (w : WrappedDek) : result CryptoError Dek :=
  let? p := open_ d (wd_ciphertext w) (wd_nonce w) in dek_from_bytes p.

Definition invite_id (s : InviteSecret) : result CryptoError octets :=
  hkdf_expand (invite_bytes s) INVITE_ID_INFO.
Definition invite_kek (s : InviteSecret) : result CryptoError Kek :=
  let? k := hkdf_expand (invite_bytes s) INVITE_KEK_INFO in Ok (mkKek k).
Definition invite_wrap (s : InviteSecret) (dek : Dek) (nonce : octets)
    : result CryptoError WrappedDek :=
  let? k := invite_kek s in kek_wrap k dek nonce.
Definition invite_unwrap (s : InviteSecret) (w : WrappedDek) : result CryptoError Dek :=
  let? k := invite_kek s in kek_unwrap k w.
End cipher.

(** ** What one side seals the other opens, and nobody else *)

Section laws.
Context `{CipherOk}.

Lemma open_seal d p nonce c n :
  length nonce = AEAD_NONCE_LEN -> seal d p nonce = Ok (c, n) -> n = nonce /\ open_ d c n = Ok p.
Proof.
  intros Hn. unfold seal, open_. destruct (encrypt (dek_bytes d) nonce p) as [c'|] eqn:E; [|done].
  cbn. intros [= -> <-]. split; [done|]. rewrite decide_True by done.
  by rewrite (decrypt_encrypt _ _ _ _ E).
Qed.

Lemma dek_from_bytes_ok d : length (dek_bytes d) = KEY_LEN -> dek_from_bytes (dek_bytes d) = Ok d.
Proof. intros Hl. unfold dek_from_bytes. rewrite decide_True by done. by destruct d. Qed.

End laws.

(** ** A concrete cipher for the witnesses: the key and the nonce in front of
    the text *)

Definition plain_cipher : Cipher := {|
  encrypt k n p := Some (N.of_nat (length k) :: k ++ n ++ p);
  decrypt k n c :=
    match c with
    | l :: c' =>
        if decide (l = N.of_nat (length k) /\ take (length k + length n) c' = k ++ n)
        then Some (drop (length k + length n) c') else None
    | [] => None
    end;
  hkdf_expand ikm info := Ok (take KEY_LEN (ikm ++ info ++ replicate KEY_LEN 0%N));
|}.

Lemma plain_cipher_ok : @CipherOk plain_cipher.
Proof.
  split; cbn [encrypt decrypt hkdf_expand plain_cipher].
  - intros k n p c [= <-]. rewrite app_assoc, <- length_app, take_app_length, drop_app_length.
    by rewrite decide_True.
  - intros k k' n p c [= <-] Hne. rewrite decide_False; [done|]. intros [Hl Ht].
    apply Nat2N.inj in Hl. apply Hne.
    assert (Hk : take (length k') (k ++ n ++ p) = k) by (rewrite <- Hl; apply take_app_length).
    assert (Hk' : take (length k') (take (length k' + length n) (k ++ n ++ p)) = k')
      by (rewrite Ht; apply take_app_length).
    rewrite take_take, Nat.min_l in Hk' by lia. congruence.
  - intros ikm info k [= <-]. rewrite length_take, !length_app. cbn [length]. unfold KEY_LEN. lia.
Qed.

