(* ===== verification/Loro.v ===== *)
(** The Loro containers as the program sees them.

    Loro is a library the program calls; what its containers *hold* is plain
    data (a map, a list, a text), and what its local operations *do* to that
    data is the parameter [Loro] of the model, with the documented laws of
    those operations in [LoroOk]. The readers [read_string], [read_i64], ...
    of core/src/doc.rs are ordinary functions on the held data.
    [value_loro] is the concrete instance the witnesses run on. *)
From S2P Require Import Prelude.
From Stdlib Require Import SpecFloat.

(** A [LoroValue]; [f64] is the binary64 of the standard library's
    [SpecFloat]. A value map is an association list, read at the first
    matching key. *)
Inductive LoroValue : Type :=
  | LNull
  | LBool (b : bool)
  | LI64 (n : Z)
  | LDouble (d : spec_float)
  | LString (s : string)
  | LList (l : list LoroValue)
  | LMap (m : list (string * LoroValue)).

(** What an item map, a ListMeta row or the settings map holds at a key: a
    plain value, a text container, or some other container. *)
Inductive leaf : Type :=
  | Val (v : LoroValue)
  | TextC (t : string)
  | OtherC.

(** A child map: an item, a ListMeta row, or the settings root. *)
Abbreviation lmap := (gmap string leaf).

(** What a root container holds in one slot: a child map, a plain value, or
    some other container. *)
Inductive slot : Type :=
  | MapC (m : lmap)
  | ScalarV (v : LoroValue)
  | OtherSlot.

(** Local operations of [LoroMap] and [LoroMovableList] on the held data. *)
Class Loro : Type := {
  map_insert : forall {V : Type}, string -> V -> gmap string V -> gmap string V;
  map_delete : forall {V : Type}, string -> gmap string V -> gmap string V;
  list_push : forall {V : Type}, V -> list V -> list V;
  list_insert : forall {V : Type}, nat -> V -> list V -> result string (list V);
  list_delete : forall {V : Type}, nat -> nat -> list V -> result string (list V);
  list_mov : forall {V : Type}, nat -> nat -> list V -> result string (list V);
}.

(** The documented behaviour the program relies on: map writes are last
    writer wins on one key, list positions address the current elements and
    an out-of-bound position is an error that leaves the list alone. *)
Class LoroOk `{Loro} : Prop := {
  map_insert_spec V k (v : V) m : map_insert k v m = <[k := v]> m;
  map_delete_spec V k (m : gmap string V) : map_delete k m = delete k m;
  list_push_spec V (x : V) l : list_push x l = l ++ [x];
  list_insert_spec V i (x : V) l :
    i <= length l -> list_insert i x l = Ok (take i l ++ x :: drop i l);
  list_delete_spec V i n (l : list V) :
    i + n <= length l -> list_delete i n l = Ok (take i l ++ drop (i + n) l);
  list_mov_spec V from to (l : list V) x :
    l !! from = Some x -> to < length l ->
    list_mov from to l =
      Ok (take to (take from l ++ drop (S from) l)
          ++ x :: drop to (take from l ++ drop (S from) l));
}.

(** ** Readers (core/src/doc.rs) *)

Definition read_string (map : lmap) (key : string) : option string :=
  match map !! key with
  | Some (Val (LString s)) => Some s
  | _ => None
  end.

Definition read_text (map : lmap) (key : string) : option string :=
  match map !! key with
  | Some (TextC t) => Some t
  | _ => None
  end.

Definition read_i64 (map : lmap) (key : string) : option Z :=
  match map !! key with
  | Some (Val (LI64 n)) => Some n
  | _ => None
  end.

Definition read_bool (map : lmap) (key : string) : option bool :=
  match map !! key with
  | Some (Val (LBool b)) => Some b
  | _ => None
  end.

(** Strings of a plain list value, empties skipped, first occurrence kept. *)
Definition read_string_list (map : lmap) (key : string) : list string :=
  match map !! key with
  | Some (Val (LList l)) =>
      foldl (fun out member =>
               match member with
               | LString s =>
                   if bool_decide (s <> "") && bool_decide (s ∉ out)
                   then out ++ [s] else out
               | _ => out
               end) [] l
  | _ => []
  end.

Definition item_map_of (items : gmap string slot) (item_id : string) : option lmap :=
  match items !! item_id with
  | Some (MapC m) => Some m
  | _ => None
  end.

Definition list_map_at (lists : list slot) (idx : nat) : option lmap :=
  match lists !! idx with
  | Some (MapC m) => Some m
  | _ => None
  end.

(** Reading back a register just written, and the registers left alone. *)
Section readers.
Context `{LoroOk}.
Implicit Types (m : lmap) (k j : string).

Lemma read_string_insert m k j v :
  read_string (map_insert k v m) j =
    if decide (k = j) then match v with Val (LString s) => Some s | _ => None end
    else read_string m j.
Proof.
  unfold read_string. rewrite map_insert_spec, lookup_insert.
  by case_decide.
Qed.

Lemma read_i64_insert m k j v :
  read_i64 (map_insert k v m) j =
    if decide (k = j) then match v with Val (LI64 n) => Some n | _ => None end
    else read_i64 m j.
Proof.
  unfold read_i64. rewrite map_insert_spec, lookup_insert. by case_decide.
Qed.

Lemma read_string_delete m k j :
  read_string (map_delete k m) j = if decide (k = j) then None else read_string m j.
Proof.
  unfold read_string. rewrite map_delete_spec, lookup_delete. by case_decide.
Qed.

Lemma read_i64_delete m k j :
  read_i64 (map_delete k m) j = if decide (k = j) then None else read_i64 m j.
Proof.
  unfold read_i64. rewrite map_delete_spec, lookup_delete. by case_decide.
Qed.
End readers.

(** ** A concrete instance for the witnesses *)

Definition value_list_insert {V} (i : nat) (x : V) (l : list V) : result string (list V) :=
  if decide (i <= length l) then Ok (take i l ++ x :: drop i l) else Err "out of bound".
Definition value_list_delete {V} (i n : nat) (l : list V) : result string (list V) :=
  if decide (i + n <= length l) then Ok (take i l ++ drop (i + n) l)
  else Err "out of bound".
Definition value_list_mov {V} (from to : nat) (l : list V) : result string (list V) :=
  match l !! from with
  | Some x =>
      if decide (to < length l) then
        Ok (take to (take from l ++ drop (S from) l)
            ++ x :: drop to (take from l ++ drop (S from) l))
      else Err "out of bound"
  | None => Err "out of bound"
  end.

Definition value_loro : Loro := {|
  map_insert V k v m := <[k := v]> m;
  map_delete V k m := delete k m;
  list_push V x l := l ++ [x];
  list_insert V := value_list_insert;
  list_delete V := value_list_delete;
  list_mov V := value_list_mov;
|}.

Lemma value_loro_ok : @LoroOk value_loro.
Proof.
  split; try done; cbn.
  - intros V i x l Hi. unfold value_list_insert. by rewrite decide_True.
  - intros V i n l Hi. unfold value_list_delete. by rewrite decide_True.
  - intros V from to l x Hx Hto. unfold value_list_mov. rewrite Hx.
    by rewrite decide_True.
Qed.
