(* ===== verification/Lifecycle.v ===== *)
(** Item lifecycle (core/src/doc.rs): the workflow ladder, the bin mask, the
    atomic workflow register with its fallback, the transition table behind
    every lifecycle mutation, the board lane set and a list's saved default
    view with its string encoding. *)
From S2P Require Import Prelude.
From S2P Require Import Loro.

(** ** Keys of the item map this file reads and writes *)
Definition KEY_LIFECYCLE := "lifecycle".
Definition KEY_STARTED_AT := "started_at".
Definition KEY_CREATED_AT := "created_at".
Definition KEY_DONE_AT := "done_at".
Definition KEY_BINNED_AT := "binned_at".

(** ** Workflow states *)

Inductive WorkflowState : Type :=
  | Backlog | Todo | InProgress | Review | Done | Cancelled.

#[export] Instance WorkflowState_eq_dec : EqDecision WorkflowState.
Proof. solve_decision. Defined.

Definition code (s : WorkflowState) : Z :=
  match s with
  | Backlog => 0 | Todo => 1 | InProgress => 2 | Review => 3 | Done => 4 | Cancelled => 5
  end.

Definition from_code (c : Z) : option WorkflowState :=
  match c with
  | 0%Z => Some Backlog
  | 1%Z => Some Todo
  | 2%Z => Some InProgress
  | 3%Z => Some Review
  | 4%Z => Some Done
  | 5%Z => Some Cancelled
  | _ => None
  end.

Definition name (s : WorkflowState) : string :=
  match s with
  | Backlog => "backlog"
  | Todo => "todo"
  | InProgress => "in_progress"
  | Review => "review"
  | Done => "done"
  | Cancelled => "cancelled"
  end.

Definition parse_name (s : string) : option WorkflowState :=
  if decide (s = "backlog") then Some Backlog
  else if decide (s = "todo") then Some Todo
  else if decide (s = "in_progress") then Some InProgress
  else if decide (s = "review") then Some Review
  else if decide (s = "done") then Some Done
  else if decide (s = "cancelled") then Some Cancelled
  else None.

(** [self <= WorkflowState::Review] in declaration order. *)
Definition is_open (s : WorkflowState) : bool := (code s <=? code Review)%Z.
Definition is_closed (s : WorkflowState) : bool := negb (is_open s).

(** ** Resolved lifecycle: the register's state, or the bin mask *)

Inductive ItemLifecycle : Type :=
  | LBacklog | LTodo | LInProgress | LReview | LDone | LCancelled | LBinned.

#[export] Instance ItemLifecycle_eq_dec : EqDecision ItemLifecycle.
Proof. solve_decision. Defined.

Definition lifecycle_of_workflow (s : WorkflowState) : ItemLifecycle :=
  match s with
  | Backlog => LBacklog
  | Todo => LTodo
  | InProgress => LInProgress
  | Review => LReview
  | Done => LDone
  | Cancelled => LCancelled
  end.

Definition workflow_state (l : ItemLifecycle) : option WorkflowState :=
  match l with
  | LBacklog => Some Backlog
  | LTodo => Some Todo
  | LInProgress => Some InProgress
  | LReview => Some Review
  | LDone => Some Done
  | LCancelled => Some Cancelled
  | LBinned => None
  end.

Definition lifecycle_name (l : ItemLifecycle) : string :=
  match workflow_state l with
  | Some s => name s
  | None => "binned"
  end.

(** ** Lane sets: a bitmask over [code], held in a [u8] *)

Definition ALL_LANES : list WorkflowState := [Backlog; Todo; InProgress; Review; Done].

Definition LaneSet := N.
Definition LANES_ALL : LaneSet := 31%N.
Definition LANES_NONE : LaneSet := 0%N.

Definition bit (state : WorkflowState) : N := N.shiftl 1 (Z.to_N (code state)).
Definition lanes_contains (s : LaneSet) (state : WorkflowState) : bool :=
  negb (N.land s (bit state) =? 0)%N.
(** [!bit] is the complement within the eight bits of the mask. *)
Definition lanes_with (s : LaneSet) (state : WorkflowState) (visible : bool) : LaneSet :=
  if visible then N.lor s (bit state) else N.land s (N.lxor 255 (bit state)).
Definition lanes_is_empty (s : LaneSet) : bool := (s =? 0)%N.
Definition lanes_iter (s : LaneSet) : list WorkflowState :=
  base.filter (fun st => Is_true (lanes_contains s st)) ALL_LANES.
Definition lanes_from_iter (l : list WorkflowState) : LaneSet :=
  foldl (fun set s => lanes_with set s true) LANES_NONE l.

(** ** Saved default views *)

Record DefaultView : Type := { board : bool; lanes : LaneSet }.

#[export] Instance DefaultView_eq_dec : EqDecision DefaultView.
Proof. solve_decision. Defined.

Definition VIEW_LIST : DefaultView := {| board := false; lanes := LANES_ALL |}.
Definition VIEW_BOARD : DefaultView := {| board := true; lanes := LANES_ALL |}.

Definition view_encode (v : DefaultView) : string :=
  if negb (board v) then "list"
  else if bool_decide (lanes v = LANES_ALL) || lanes_is_empty (lanes v) then "board"
  else "board:" +:+ join_with "," (name <$> lanes_iter (lanes v)).

Definition view_parse (s : string) : option DefaultView :=
  if decide (s = "list") then Some VIEW_LIST
  else if decide (s = "board") then Some VIEW_BOARD
  else
    match strip_prefix "board:" s with
    | None => None
    | Some "" => None
    | Some ls =>
        match mapM parse_name (split_char "," ls) with
        | Some states => Some {| board := true; lanes := lanes_from_iter states |}
        | None => None
        end
    end.

(** ** The workflow register *)

(** [[state, at]] as one plain list value; any other shape, or a code this
    build does not know, reads as [None]. *)
Definition read_workflow (map : lmap) : option (WorkflowState * Z) :=
  match map !! KEY_LIFECYCLE with
  | Some (Val (LList [LI64 state; LI64 at_])) =>
      match from_code state with
      | Some s => Some (s, at_)
      | None => None
      end
  | _ => None
  end.

Definition workflow_of (map : lmap) : WorkflowState * Z :=
  match read_workflow map with
  | Some w => w
  | None => (Backlog, default 0%Z (read_i64 map KEY_CREATED_AT))
  end.

(** Openness of an item map: not binned and in an open workflow state. *)
Definition map_is_open (map : lmap) : bool :=
  match read_i64 map KEY_BINNED_AT with
  | Some _ => false
  | None => is_open (workflow_of map).1
  end.

(** The resolved lifecycle of an item map ([ItemView::lifecycle]). *)
Definition map_lifecycle (map : lmap) : ItemLifecycle :=
  match read_i64 map KEY_BINNED_AT with
  | Some _ => LBinned
  | None => lifecycle_of_workflow (workflow_of map).1
  end.

(** ** Lifecycle writes *)

Inductive LifecycleWrite : Type :=
  | SetLifecycle (l : ItemLifecycle)
  | Restore
  | UnDone.

#[export] Instance LifecycleWrite_eq_dec : EqDecision LifecycleWrite.
Proof. solve_decision. Defined.

Section writes.
Context `{Loro}.

Definition write_workflow (map : lmap) (state : WorkflowState) (at_ : Z) : lmap :=
  map_insert KEY_LIFECYCLE (Val (LList [LI64 (code state); LI64 at_])) map.

(** The transition table. Returns the map and whether it was written. *)
Definition apply_lifecycle (map : lmap) (lifecycle : ItemLifecycle) (now : Z)
    : lmap * bool :=
  let binned := bool_decide (is_Some (read_i64 map KEY_BINNED_AT)) in
  match workflow_state lifecycle with
  | None =>
      if binned then (map, false)
      else (map_insert KEY_BINNED_AT (Val (LI64 now)) map, true)
  | Some want =>
      let cur := (workflow_of map).1 in
      if negb binned && bool_decide (cur = want) then (map, false)
      else
        let map := if binned then map_delete KEY_BINNED_AT map else map in
        let map := write_workflow map want now in
        let map := if bool_decide (want = InProgress)
                      && bool_decide (read_i64 map KEY_STARTED_AT = None)
                   then map_insert KEY_STARTED_AT (Val (LI64 now)) map else map in
        let map := if bool_decide (want = Done)
                   then map_insert KEY_DONE_AT (Val (LI64 now)) map else map in
        (map, true)
  end.

Definition apply_lifecycle_write (map : lmap) (write : LifecycleWrite) (now : Z)
    : lmap * bool :=
  match write with
  | SetLifecycle lifecycle => apply_lifecycle map lifecycle now
  | Restore =>
      match read_i64 map KEY_BINNED_AT with
      | None => (map, false)
      | Some _ => (map_delete KEY_BINNED_AT map, true)
      end
  | UnDone =>
      let binned := bool_decide (is_Some (read_i64 map KEY_BINNED_AT)) in
      if binned || negb (is_closed (workflow_of map).1) then (map, false)
      else apply_lifecycle map LBacklog now
  end.
End writes.
#[global] Arguments apply_lifecycle : simpl never.

(** ** Codes, names and the open/closed split *)

Lemma from_code_code s : from_code (code s) = Some s.
Proof. by destruct s. Qed.

Lemma from_code_Some c s : from_code c = Some s -> code s = c.
Proof.
  unfold from_code. intros H.
  repeat (case_match; simplify_eq; try done).
Qed.

Lemma parse_name_name s : parse_name (name s) = Some s.
Proof. by destruct s. Qed.

Lemma parse_name_Some t s : parse_name t = Some s -> t = name s.
Proof. unfold parse_name. intros H. by repeat case_decide; simplify_eq. Qed.

Lemma name_no_comma s : contains_char "," (name s) = false.
Proof. by destruct s. Qed.

Lemma workflow_state_of s : workflow_state (lifecycle_of_workflow s) = Some s.
Proof. by destruct s. Qed.

Lemma lifecycle_of_workflow_state l s :
  workflow_state l = Some s -> l = lifecycle_of_workflow s.
Proof. destruct l; cbn; intros; by simplify_eq. Qed.

Lemma workflow_state_None l : workflow_state l = None -> l = LBinned.
Proof. by destruct l. Qed.

(** ** Lane sets *)

(** A mask over the five lanes is below 32. *)
Lemma lanes_bounded_ind (P : N -> Prop) :
  Forall (fun n => P (N.of_nat n)) (seq 0 32) -> forall s, (s <= LANES_ALL)%N -> P s.
Proof.
  rewrite Forall_forall. intros H s Hs. rewrite <- (N2Nat.id s). apply H.
  apply elem_of_seq. unfold LANES_ALL in Hs. lia.
Qed.

(** The lanes a mask shows, collected again, are the mask. *)
Lemma lanes_from_iter_iter s : (s <= LANES_ALL)%N -> lanes_from_iter (lanes_iter s) = s.
Proof.
  revert s. apply lanes_bounded_ind. repeat (constructor; [reflexivity|]). constructor.
Qed.

Lemma lanes_iter_ne_nil s : (s <= LANES_ALL)%N -> s <> 0%N -> lanes_iter s <> [].
Proof.
  intros Hs Hne E. apply Hne. by rewrite <- (lanes_from_iter_iter s Hs), E.
Qed.

Lemma lanes_contains_with s st st' v :
  st <> Cancelled -> st' <> Cancelled -> (s <= LANES_ALL)%N ->
  lanes_contains (lanes_with s st v) st' =
    if decide (st = st') then v else lanes_contains s st'.
Proof.
  intros Hst Hst'. revert s. apply lanes_bounded_ind.
  destruct st, st', v; try done;
    (repeat (constructor; [reflexivity|])); constructor.
Qed.

Lemma mapM_parse_names l : mapM parse_name (name <$> l) = Some l.
Proof.
  induction l as [|s l IH]; [done|]. rewrite fmap_cons. cbn -[parse_name name].
  rewrite parse_name_name. cbn. by rewrite IH.
Qed.

(** ** Saved default views *)

(** The canonical form of a view: the list lens and an empty lane set carry
    every lane. *)
Definition view_canonical (v : DefaultView) : DefaultView :=
  if negb (board v) then VIEW_LIST
  else if lanes_is_empty (lanes v) then VIEW_BOARD else v.

(** A view string naming lanes parses to the set of those lanes. *)
Lemma view_parse_board_names l :
  l <> [] ->
  view_parse ("board:" +:+ join_with "," (name <$> l)) =
    Some {| board := true; lanes := lanes_from_iter l |}.
Proof.
  intros Hl. unfold view_parse. rewrite !decide_False by done.
  rewrite strip_prefix_app.
  assert (Hne : name <$> l <> []) by by destruct l.
  assert (Hsplit : split_char "," (join_with "," (name <$> l)) = name <$> l).
  { apply split_char_join; [done|]. apply Forall_fmap, Forall_true. apply name_no_comma. }
  destruct (join_with "," (name <$> l)) as [|c s] eqn:E.
  - destruct l as [|[] [|[] ?]]; done.
  - by rewrite Hsplit, mapM_parse_names.
Qed.

Lemma view_parse_encode v :
  (lanes v <= LANES_ALL)%N -> view_parse (view_encode v) = Some (view_canonical v).
Proof.
  destruct v as [b s]. cbn [lanes]. intros Hs.
  unfold view_encode, view_canonical. cbn [board lanes].
  destruct b; cbn [negb]; [|done].
  destruct (lanes_is_empty s) eqn:Eempty; [by rewrite orb_true_r|].
  rewrite orb_false_r. case_bool_decide as Hall; [by subst|].
  rewrite view_parse_board_names.
  - by rewrite lanes_from_iter_iter.
  - apply lanes_iter_ne_nil; [done|]. by apply N.eqb_neq.
Qed.

(** Writing a list's default view and reading it back gives its canonical
    form, for every lens and every subset of the five lanes. *)
Theorem view_roundtrip v :
  (lanes v <= LANES_ALL)%N -> view_parse (view_encode v) = Some (view_canonical v).
Proof. apply view_parse_encode. Qed.

Lemma view_roundtrip_witness :
  view_parse (view_encode {| board := true; lanes := 5%N |}) =
    Some {| board := true; lanes := 5%N |}.
Proof. apply (view_roundtrip {| board := true; lanes := 5%N |}). by vm_compute. Defined.

(** A lane name the board does not have slips through the parser. *)
Theorem view_parse_cancelled_unreadable :
  exists v, view_parse "board:cancelled" = Some v
            /\ lanes_iter (lanes v) = []
            /\ view_encode v = "board:"
            /\ view_parse (view_encode v) = None.
Proof. eexists. split; [reflexivity|]. vm_compute. done. Qed.

(** ** The transition table *)

(** What a lifecycle write makes of an item's resolved lifecycle. *)
Definition lifecycle_after (map : lmap) (write : LifecycleWrite) : ItemLifecycle :=
  match write with
  | SetLifecycle l => l
  | Restore => lifecycle_of_workflow (workflow_of map).1
  | UnDone =>
      match map_lifecycle map with
      | LDone | LCancelled => LBacklog
      | l => l
      end
  end.

Section transitions.
Context `{LoroOk}.
Implicit Types (m : lmap) (w : LifecycleWrite).

Lemma read_i64_write_workflow m s t k :
  k <> KEY_LIFECYCLE -> read_i64 (write_workflow m s t) k = read_i64 m k.
Proof. intros Hk. unfold write_workflow. rewrite read_i64_insert. by case_decide. Qed.

Lemma workflow_of_write m s t : workflow_of (write_workflow m s t) = (s, t).
Proof.
  unfold workflow_of, read_workflow, write_workflow.
  rewrite map_insert_spec, lookup_insert_eq. by rewrite from_code_code.
Qed.

Lemma workflow_of_frame m k v :
  k <> KEY_LIFECYCLE -> k <> KEY_CREATED_AT ->
  workflow_of (map_insert k v m) = workflow_of m.
Proof.
  intros H1 H2. unfold workflow_of, read_workflow, read_i64. rewrite map_insert_spec.
  by rewrite !lookup_insert_ne.
Qed.

Lemma workflow_of_delete m k :
  k <> KEY_LIFECYCLE -> k <> KEY_CREATED_AT ->
  workflow_of (map_delete k m) = workflow_of m.
Proof.
  intros H1 H2. unfold workflow_of, read_workflow, read_i64. rewrite map_delete_spec.
  by rewrite !lookup_delete_ne.
Qed.

(** The register branch of the table, in closed form. *)
Lemma apply_lifecycle_workflow m s now :
  map_lifecycle m <> lifecycle_of_workflow s ->
  exists m', apply_lifecycle m (lifecycle_of_workflow s) now = (m', true)
    /\ workflow_of m' = (s, now) /\ read_i64 m' KEY_BINNED_AT = None
    /\ read_i64 m' KEY_STARTED_AT =
         (if bool_decide (s = InProgress) then
            match read_i64 m KEY_STARTED_AT with Some t => Some t | None => Some now end
          else read_i64 m KEY_STARTED_AT)
    /\ read_i64 m' KEY_DONE_AT =
         (if bool_decide (s = Done) then Some now else read_i64 m KEY_DONE_AT).
Proof.
  intros Hne. unfold apply_lifecycle. rewrite workflow_state_of.
  assert (Hguard : negb (bool_decide (is_Some (read_i64 m KEY_BINNED_AT)))
                   && bool_decide ((workflow_of m).1 = s) = false).
  { unfold map_lifecycle in Hne. destruct (read_i64 m KEY_BINNED_AT).
    - by rewrite bool_decide_eq_true_2.
    - rewrite andb_false_iff. right. apply bool_decide_eq_false. congruence. }
  rewrite Hguard. eexists. split; [reflexivity|].
  set (m1 := if bool_decide (is_Some _) then _ else m).
  assert (H1 : read_i64 m1 KEY_BINNED_AT = None
               /\ read_i64 m1 KEY_STARTED_AT = read_i64 m KEY_STARTED_AT
               /\ read_i64 m1 KEY_DONE_AT = read_i64 m KEY_DONE_AT).
  { unfold m1. case_bool_decide as Hb; [by rewrite !read_i64_delete|].
    split_and!; try done. by apply eq_None_not_Some. }
  destruct H1 as (Hb & Hs & Hd). clearbody m1. clear Hguard Hne.
  set (m2 := write_workflow m1 s now).
  assert (Hw : workflow_of m2 = (s, now)) by apply workflow_of_write.
  rewrite <- (read_i64_write_workflow m1 s now) in Hb, Hs, Hd by done.
  fold m2 in Hb, Hs, Hd. rewrite <- Hs, <- Hd. clear Hs Hd. clearbody m2. clear m1.
  destruct (decide (s = InProgress)) as [->|Hip].
  - rewrite (bool_decide_eq_true_2 (InProgress = InProgress)) by done. cbn [andb].
    rewrite (bool_decide_eq_false_2 (InProgress = Done)) by done.
    destruct (read_i64 m2 KEY_STARTED_AT) eqn:Es; cbn.
    + done.
    + rewrite !read_i64_insert, workflow_of_frame by done. by cbn.
  - rewrite (bool_decide_eq_false_2 (s = InProgress)) by done. cbn [andb].
    case_bool_decide as Hdone; [|done].
    rewrite !read_i64_insert, workflow_of_frame by done. by cbn.
Qed.

Lemma map_lifecycle_binned m : map_lifecycle m = LBinned <-> is_Some (read_i64 m KEY_BINNED_AT).
Proof.
  unfold map_lifecycle. destruct (read_i64 m KEY_BINNED_AT); [by split|].
  destruct (workflow_of m) as [[]?]; cbn; split; (discriminate || by intros [? ?]).
Qed.

Lemma apply_lifecycle_binned m now :
  apply_lifecycle m LBinned now =
    if bool_decide (map_lifecycle m = LBinned) then (m, false)
    else (map_insert KEY_BINNED_AT (Val (LI64 now)) m, true).
Proof.
  unfold apply_lifecycle. cbn [workflow_state].
  rewrite (bool_decide_ext _ _ (map_lifecycle_binned m)). by case_bool_decide.
Qed.

(** Re-applying the resolved lifecycle writes nothing. *)
Lemma apply_lifecycle_noop m l now :
  map_lifecycle m = l -> apply_lifecycle m l now = (m, false).
Proof.
  intros <-. unfold apply_lifecycle, map_lifecycle.
  destruct (read_i64 m KEY_BINNED_AT) eqn:Eb; cbn [workflow_state].
  - by rewrite bool_decide_eq_true_2.
  - rewrite workflow_state_of. rewrite (bool_decide_eq_false_2 (is_Some None)) by by intros [].
    by rewrite bool_decide_eq_true_2.
Qed.

Lemma map_lifecycle_of m s t :
  workflow_of m = (s, t) -> read_i64 m KEY_BINNED_AT = None ->
  map_lifecycle m = lifecycle_of_workflow s.
Proof. intros Hw Hb. unfold map_lifecycle. by rewrite Hb, Hw. Qed.

Lemma apply_lifecycle_resolves m l now :
  map_lifecycle (apply_lifecycle m l now).1 = l
  /\ ((apply_lifecycle m l now).2 = false <-> map_lifecycle m = l).
Proof.
  destruct (decide (map_lifecycle m = l)) as [E|E].
  { by rewrite apply_lifecycle_noop. }
  destruct (workflow_state l) as [s|] eqn:El.
  - apply lifecycle_of_workflow_state in El as ->.
    destruct (apply_lifecycle_workflow m s now E) as (m' & -> & Hw & Hb & _).
    cbn. split; [by eapply map_lifecycle_of|]. by split.
  - apply workflow_state_None in El as ->. rewrite apply_lifecycle_binned.
    rewrite bool_decide_eq_false_2 by done. cbn. split; [|by split].
    apply map_lifecycle_binned. rewrite read_i64_insert. by case_decide.
Qed.

(** Every lifecycle write leaves the item in the lifecycle the transition
    table names, and reports no write exactly when it was there already. *)
Theorem lifecycle_write_resolves m w now :
  map_lifecycle (apply_lifecycle_write m w now).1 = lifecycle_after m w
  /\ ((apply_lifecycle_write m w now).2 = false <-> map_lifecycle m = lifecycle_after m w)
  /\ ((apply_lifecycle_write m w now).2 = false -> (apply_lifecycle_write m w now).1 = m).
Proof.
  assert (Hsame : forall l, (apply_lifecycle m l now).2 = false ->
                            (apply_lifecycle m l now).1 = m).
  { intros l E. apply apply_lifecycle_resolves in E. by rewrite apply_lifecycle_noop. }
  destruct w as [l| |]; cbn.
  - destruct (apply_lifecycle_resolves m l now). auto.
  - unfold map_lifecycle at 2. destruct (read_i64 m KEY_BINNED_AT) eqn:Eb; cbn.
    + split; [|split; [|done]].
      * apply (map_lifecycle_of _ _ (workflow_of m).2).
        -- rewrite workflow_of_delete by done. by destruct (workflow_of m).
        -- rewrite read_i64_delete. by case_decide.
      * split; [done|]. by destruct (workflow_of m) as [[]?].
    + unfold map_lifecycle. by rewrite Eb.
  - unfold map_lifecycle at 2 3. destruct (read_i64 m KEY_BINNED_AT) as [z|] eqn:Eb; cbn.
    + unfold map_lifecycle. by rewrite Eb.
    + unfold is_closed. rewrite negb_involutive.
      destruct (workflow_of m) as [[] t] eqn:Ew; cbn;
        try (unfold map_lifecycle; rewrite Eb, Ew; by split_and!);
        destruct (apply_lifecycle_resolves m LBacklog now) as [H1 H2];
        (split; [done|]; split; [|by auto]); rewrite H2; unfold map_lifecycle;
        rewrite Eb, Ew; by split_and!.
Qed.

(** Binning keeps the workflow register, so restoring brings back exactly
    the state the item had. *)
Theorem bin_then_restore m now :
  m !! KEY_BINNED_AT = None ->
  let binned := (apply_lifecycle_write m (SetLifecycle LBinned) now).1 in
  map_lifecycle binned = LBinned
  /\ (apply_lifecycle_write binned Restore now).1 = m.
Proof.
  intros Hnone. cbn. rewrite apply_lifecycle_binned.
  rewrite bool_decide_eq_false_2.
  2: { rewrite map_lifecycle_binned. unfold read_i64. rewrite Hnone. by intros []. }
  cbn. split.
  - apply map_lifecycle_binned. rewrite read_i64_insert. by case_decide.
  - rewrite read_i64_insert. rewrite decide_True by done. cbn.
    rewrite map_insert_spec, map_delete_spec. by apply delete_insert_id.
Qed.

(** The reflection stamps: [started_at] is written once, on the first
    entry into In Progress; [done_at] moves only on an entry into Done and
    is never cleared; Cancelled stamps nothing. *)
Theorem lifecycle_stamps m w now :
  let m' := (apply_lifecycle_write m w now).1 in
  (read_i64 m' KEY_STARTED_AT = read_i64 m KEY_STARTED_AT
   \/ (read_i64 m KEY_STARTED_AT = None /\ read_i64 m' KEY_STARTED_AT = Some now
       /\ map_lifecycle m' = LInProgress))
  /\ (read_i64 m' KEY_DONE_AT = read_i64 m KEY_DONE_AT
      \/ (read_i64 m' KEY_DONE_AT = Some now /\ map_lifecycle m' = LDone)).
Proof.
  assert (Hset : forall l, let m' := (apply_lifecycle m l now).1 in
    (read_i64 m' KEY_STARTED_AT = read_i64 m KEY_STARTED_AT
     \/ (read_i64 m KEY_STARTED_AT = None /\ read_i64 m' KEY_STARTED_AT = Some now
         /\ map_lifecycle m' = LInProgress))
    /\ (read_i64 m' KEY_DONE_AT = read_i64 m KEY_DONE_AT
        \/ (read_i64 m' KEY_DONE_AT = Some now /\ map_lifecycle m' = LDone))).
  { intros l m'. pose proof (proj1 (apply_lifecycle_resolves m l now)) as Hl. fold m' in Hl.
    rewrite Hl. subst m'.
    destruct (decide (map_lifecycle m = l)) as [E|E].
    { rewrite apply_lifecycle_noop by done. auto. }
    destruct (workflow_state l) as [s|] eqn:El.
    - apply lifecycle_of_workflow_state in El as ->.
      destruct (apply_lifecycle_workflow m s now E) as (m' & E' & _ & _ & Hs & Hd).
      rewrite E'. cbn. rewrite Hs, Hd.
      destruct s, (read_i64 m KEY_STARTED_AT); cbn; auto.
    - apply workflow_state_None in El as ->. rewrite apply_lifecycle_binned.
      rewrite bool_decide_eq_false_2 by done. cbn. rewrite !read_i64_insert. auto. }
  destruct w as [l| |]; cbn; [apply Hset| |].
  - destruct (read_i64 m KEY_BINNED_AT); cbn; [|auto]. rewrite !read_i64_delete. auto.
  - case_match; [by auto|]. apply (Hset LBacklog).
Qed.
End transitions.

(** ** Witnesses *)

#[local] Existing Instances value_loro value_loro_ok.

Lemma lifecycle_write_resolves_witness :
  map_lifecycle (apply_lifecycle_write ∅ (SetLifecycle LDone) 7).1 = LDone
  /\ (apply_lifecycle_write ∅ (SetLifecycle LDone) 7).2 = true.
Proof.
  destruct (lifecycle_write_resolves ∅ (SetLifecycle LDone) 7) as (H1 & _).
  split; [exact H1|reflexivity].
Defined.

Lemma bin_then_restore_witness :
  (apply_lifecycle_write (apply_lifecycle_write ∅ (SetLifecycle LBinned) 7).1 Restore 8).1 = ∅
  /\ map_lifecycle (apply_lifecycle_write ∅ (SetLifecycle LBinned) 7).1 = LBinned.
Proof.
  destruct (bin_then_restore ∅ 7 (lookup_empty _)) as [H1 H2]. split; [reflexivity|exact H1].
Defined.

Lemma lifecycle_stamps_witness :
  read_i64 (apply_lifecycle_write ∅ (SetLifecycle LDone) 7).1 KEY_DONE_AT = Some 7%Z.
Proof.
  destruct (lifecycle_stamps ∅ (SetLifecycle LDone) 7) as [_ [H|[H _]]]; [|exact H].
  vm_compute in H. discriminate H.
Defined.
