(* ===== verification/Registers.v ===== *)
(** The scalar registers of a document (core/src/doc.rs): the error type, the
    location / order-entry / focus-ref string codecs, well-formed ids, dates
    and durations, places, and the views read from an item map, a ListMeta
    row and the settings map. *)
From S2P Require Import Prelude.
From S2P Require Import Wire.
From S2P Require Import Crypto.
From S2P Require Import Loro.
From S2P Require Import Lifecycle.
From Stdlib Require Import SpecFloat.

(** ** Errors *)

Inductive DocError : Type :=
  | ELoro (msg : string)
  | ItemNotFound (id : string)
  | ListNotFound (id : string)
  | CannotDeleteBuiltin (id : string)
  | CannotMoveBuiltin (id : string)
  | CannotRenameBuiltin (id : string)
  | NotBinned
  | Invalid (msg : string)
  | ECrypto (e : CryptoError).

#[export] Instance DocError_eq_dec : EqDecision DocError.
Proof. solve_decision. Defined.

(** ** Reserved lists and keys *)

Definition LIST_INBOX := "inbox".
Definition LIST_EVENTS := "events".
Definition ORDER_PREFIX := "order/".
Definition KEY_ID := "id".
Definition KEY_TEXT := "text".
Definition KEY_NOTES := "notes".
Definition KEY_LOCATION := "location".
Definition KEY_DEADLINE := "deadline".
Definition KEY_WHEN := "when".
Definition KEY_DURATION := "duration".
Definition KEY_PLACE := "place".
Definition KEY_NAME := "name".
Definition KEY_ICON := "icon".
Definition KEY_VIEW := "view".
Definition KEY_CREATED_BY := "created_by".
Definition KEY_ARCHIVED_AT := "archived_at".
Definition KEY_SHOW_LIST_COUNTS := "show_list_counts".
Definition KEY_INBOX_VIEW := "inbox_view".
Definition KEY_DOC_NAME := "doc_name".
Definition KEY_CALENDAR_HIDDEN_DOCS := "calendar_hidden_docs".
Definition KEY_DONE_AMALGAMATE := "done_amalgamate".

Definition MAX_DURATION_MINUTES : Z := 365 * 24 * 60.
Definition DEFAULT_DURATION_MINUTES : Z := 60.
Definition MAX_PLACE_LABEL_CHARS : nat := 200.
Definition MAX_PLACE_DETAIL_CHARS : nat := 500.

Definition is_reserved_list (list_id : string) : bool :=
  bool_decide (list_id = LIST_INBOX) || bool_decide (list_id = LIST_EVENTS).

(** ** Encoded scalars *)

Record Location : Type := mkLocation { loc_list_id : string; loc_placement_id : string }.
Record OrderEntry : Type := mkEntry { entry_item_id : string; entry_placement_id : string }.
(** [ref_doc_id = None] is an item of this document. *)
Record FocusRef : Type := mkRef { ref_doc_id : option string; ref_item_id : string }.

#[export] Instance Location_eq_dec : EqDecision Location.
Proof. solve_decision. Defined.
#[export] Instance OrderEntry_eq_dec : EqDecision OrderEntry.
Proof. solve_decision. Defined.
#[export] Instance FocusRef_eq_dec : EqDecision FocusRef.
Proof. solve_decision. Defined.

Definition location_encode (l : Location) : string :=
  loc_list_id l +:+ ":" +:+ loc_placement_id l.

Definition location_parse (s : string) : option Location :=
  match split_once ":" s with
  | Some (list_id, placement_id) =>
      if decide (list_id = "") then None else Some (mkLocation list_id placement_id)
  | None => None
  end.

Definition entry_encode (e : OrderEntry) : string :=
  entry_item_id e +:+ ":" +:+ entry_placement_id e.

Definition entry_parse (s : string) : option OrderEntry :=
  match split_once ":" s with
  | Some (item_id, placement_id) =>
      if decide (item_id = "") then None else Some (mkEntry item_id placement_id)
  | None => None
  end.

Definition order_root_name (list_id : string) : string := ORDER_PREFIX +:+ list_id.

Definition ref_local (item_id : string) : FocusRef := mkRef None item_id.
Definition ref_foreign (doc_id item_id : string) : FocusRef := mkRef (Some doc_id) item_id.

Definition ref_encode (r : FocusRef) : string :=
  match ref_doc_id r with
  | Some d => d +:+ ":" +:+ ref_item_id r
  | None => ref_item_id r
  end.

Definition ref_parse (s : string) : option FocusRef :=
  if decide (s = "") then None
  else match split_once ":" s with
       | Some (doc_id, item_id) =>
           if decide (doc_id = "") then None
           else if decide (item_id = "") then None
           else Some (mkRef (Some doc_id) item_id)
       | None => Some (mkRef None s)
       end.

Definition ref_is_local (r : FocusRef) : bool :=
  match ref_doc_id r with None => true | Some _ => false end.

(** An entry of an order container; anything but a parseable string is
    [None]. *)
Definition scalar_entry (s : slot) : option OrderEntry :=
  match s with
  | ScalarV (LString t) => entry_parse t
  | _ => None
  end.

(** 32 lowercase hex digits, the grammar of a minted id. *)
Definition is_well_formed_id (s : string) : bool :=
  (String.length s =? 32)%nat
  && forallb (fun b => is_digit b || ((97 <=? b) && (b <=? 102))%N) (bytes s).

(** ** Dates *)

Definition dash : N := 45.
Definition byte_at (bs : list N) (i : nat) (b : N) : bool :=
  bool_decide (bs !! i = Some b).

(** The digits of [s[from..to]] as a number, [None] on a non-digit. *)
Definition digits (bs : list N) (from to : nat) : option Z :=
  let part := take (to - from) (drop from bs) in
  if forallb is_digit part then Some (parse_digits 0 part) else None.

Definition leap (year : Z) : bool :=
  ((year mod 4 =? 0) && (negb (year mod 100 =? 0) || (year mod 400 =? 0)))%Z.

Definition days_in_month (year month : Z) : Z :=
  match month with
  | 1 | 3 | 5 | 7 | 8 | 10 | 12 => 31
  | 4 | 6 | 9 | 11 => 30
  | _ => if leap year then 29 else 28
  end%Z.

Definition deadline_error : DocError := Invalid "deadline must be YYYY-MM-DD".
Definition when_error : DocError := Invalid "when must be YYYY-MM-DD or YYYY-MM-DDTHH:MM".

Definition parse_deadline (raw : string) : result DocError string :=
  let s := trim raw in
  let bs := bytes s in
  if negb (length bs =? 10)%nat || negb (byte_at bs 4 dash) || negb (byte_at bs 7 dash)
  then Err deadline_error
  else
    match digits bs 0 4, digits bs 5 7, digits bs 8 10 with
    | Some year, Some month, Some day =>
        if negb ((1 <=? month) && (month <=? 12))%Z || (day <? 1)%Z then Err deadline_error
        else if (days_in_month year month <? day)%Z then Err deadline_error
        else Ok s
    | _, _, _ => Err deadline_error
    end.

Definition when_is_timed (normalized : string) : bool :=
  (String.length normalized =? 16)%nat.

Definition parse_when (raw : string) : result DocError string :=
  let s := trim raw in
  let bs := bytes s in
  if (length bs =? 10)%nat then
    match parse_deadline s with Ok d => Ok d | Err _ => Err when_error end
  else if (length bs =? 16)%nat then
    if negb (byte_at bs 10 84) || negb (byte_at bs 13 58) then Err when_error
    else
      match parse_deadline (of_bytes (take 10 bs)) with
      | Err _ => Err when_error
      | Ok _ =>
          match digits bs 11 13, digits bs 14 16 with
          | Some h, Some m => if (h <=? 23)%Z && (m <=? 59)%Z then Ok s else Err when_error
          | _, _ => Err when_error
          end
      end
  else Err when_error.

(** [duration] as minutes; out of range (or outside [u32]) reads as unset. *)
Definition read_duration (map : lmap) : option Z :=
  match read_i64 map KEY_DURATION with
  | Some n => if ((1 <=? n) && (n <=? MAX_DURATION_MINUTES))%Z then Some n else None
  | None => None
  end.

(** ** Places *)

Record Place : Type := mkPlace {
  place_label : string;
  place_lat : option spec_float;
  place_lon : option spec_float;
  place_address : option string;
  place_reference : option string;
}.

(** [char]s of a UTF-8 text: its bytes less the continuation bytes. *)
Definition chars_count (s : string) : nat :=
  length (base.filter (fun b => N.land b 0xC0 <> 0x80)%N (bytes s)).

Definition f64_of_Z (n : Z) : spec_float := binary_normalize 53 1024 n 0 false.
Definition f64_is_finite (d : spec_float) : bool :=
  match d with S754_zero _ | S754_finite _ _ _ => true | _ => false end.
Definition f64_in_range (lo hi : Z) (d : spec_float) : bool :=
  SFleb (f64_of_Z lo) d && SFleb d (f64_of_Z hi).

(** The [detail] closure of [Place::normalized]. *)
Definition place_detail (v : option string) : result DocError (option string) :=
  match v with
  | None => Ok None
  | Some s =>
      let s := trim s in
      if decide (s = "") then Ok None
      else if (MAX_PLACE_DETAIL_CHARS <? chars_count s)%nat
      then Err (Invalid "place detail too long")
      else Ok (Some s)
  end.

Definition place_normalized (p : Place) : result DocError Place :=
  let label := trim (place_label p) in
  if decide (label = "") then Err (Invalid "place label must not be empty")
  else if (MAX_PLACE_LABEL_CHARS <? chars_count label)%nat
  then Err (Invalid "place label too long")
  else
    let? (lat, lon) :=
      match place_lat p, place_lon p with
      | None, None => Ok (None, None)
      | Some lat, Some lon =>
          if negb (f64_is_finite lat) || negb (f64_in_range (-90) 90 lat)
          then Err (Invalid "place lat out of range")
          else if negb (f64_is_finite lon) || negb (f64_in_range (-180) 180 lon)
          then Err (Invalid "place lon out of range")
          else Ok (Some lat, Some lon)
      | _, _ => Err (Invalid "place lat and lon must be set together")
      end in
    let? address := place_detail (place_address p) in
    let? reference := place_detail (place_reference p) in
    Ok (mkPlace label lat lon address reference).

Definition place_to_loro_value (p : Place) : LoroValue :=
  LMap ([("label", LString (place_label p))]
        ++ match place_lat p, place_lon p with
           | Some lat, Some lon => [("lat", LDouble lat); ("lon", LDouble lon)]
           | _, _ => []
           end
        ++ match place_address p with Some a => [("address", LString a)] | None => [] end
        ++ match place_reference p with Some r => [("ref", LString r)] | None => [] end).

Fixpoint value_get (k : string) (m : list (string * LoroValue)) : option LoroValue :=
  match m with
  | [] => None
  | (j, v) :: m' => if decide (j = k) then Some v else value_get k m'
  end.

Definition value_str (m : list (string * LoroValue)) (k : string) : option string :=
  match value_get k m with Some (LString s) => Some s | _ => None end.

Definition value_num (m : list (string * LoroValue)) (k : string) : option spec_float :=
  match value_get k m with
  | Some (LDouble d) => Some d
  | Some (LI64 n) => Some (f64_of_Z n)
  | _ => None
  end.

Definition place_from_loro_value (v : LoroValue) : option Place :=
  match v with
  | LMap m =>
      match value_str m "label" with
      | Some label =>
          result_ok (place_normalized
            (mkPlace label (value_num m "lat") (value_num m "lon")
                     (value_str m "address") (value_str m "ref")))
      | None => None
      end
  | _ => None
  end.

Definition read_place (map : lmap) : option Place :=
  match map !! KEY_PLACE with
  | Some (Val v) => place_from_loro_value v
  | _ => None
  end.

(** ** Views *)

Definition non_empty (o : option string) : option string :=
  match o with
  | Some s => if decide (s = "") then None else Some s
  | None => None
  end.

Definition read_default_view (map : lmap) (key : string) : option DefaultView :=
  match read_string map key with Some s => view_parse s | None => None end.

(** The located list and placement of an item map; a missing or unparseable
    register projects into the inbox with no placement. *)
Definition map_location (map : lmap) : Location :=
  match read_string map KEY_LOCATION with
  | Some s => match location_parse s with Some l => l | None => mkLocation LIST_INBOX "" end
  | None => mkLocation LIST_INBOX ""
  end.

Record ItemView : Type := mkItemView {
  iv_id : string;
  iv_text : string;
  iv_notes : string;
  iv_list_id : string;
  iv_state : WorkflowState;
  iv_lifecycle_at : Z;
  iv_deadline : option string;
  iv_when : option string;
  iv_duration : option Z;
  iv_place : option Place;
  iv_created_at : Z;
  iv_created_by : option string;
  iv_started_at : option Z;
  iv_done_at : option Z;
  iv_binned_at : option Z;
}.

Definition iv_is_binned (i : ItemView) : bool := bool_decide (is_Some (iv_binned_at i)).
Definition iv_is_closed (i : ItemView) : bool := is_closed (iv_state i).
Definition iv_is_open (i : ItemView) : bool := negb (iv_is_binned i) && is_open (iv_state i).
Definition iv_lifecycle (i : ItemView) : ItemLifecycle :=
  if iv_is_binned i then LBinned else lifecycle_of_workflow (iv_state i).

Definition item_view (map : lmap) : option ItemView :=
  match read_string map KEY_ID, read_string map KEY_TEXT, read_i64 map KEY_CREATED_AT with
  | Some id, Some text, Some created_at =>
      Some {|
        iv_id := id;
        iv_text := text;
        iv_notes := default "" (read_text map KEY_NOTES);
        iv_list_id := loc_list_id (map_location map);
        iv_state := (workflow_of map).1;
        iv_lifecycle_at := (workflow_of map).2;
        iv_deadline := non_empty (read_string map KEY_DEADLINE);
        iv_when := non_empty (read_string map KEY_WHEN);
        iv_duration := read_duration map;
        iv_place := read_place map;
        iv_created_at := created_at;
        iv_created_by := non_empty (read_string map KEY_CREATED_BY);
        iv_started_at := read_i64 map KEY_STARTED_AT;
        iv_done_at := read_i64 map KEY_DONE_AT;
        iv_binned_at := read_i64 map KEY_BINNED_AT;
      |}
  | _, _, _ => None
  end.

Record ListView : Type := mkListView {
  lv_id : string;
  lv_name : string;
  lv_icon : option string;
  lv_default_view : option DefaultView;
  lv_archived_at : option Z;
  lv_created_at : Z;
}.

Definition list_view (map : lmap) : option ListView :=
  match read_string map KEY_ID, read_string map KEY_NAME, read_i64 map KEY_CREATED_AT with
  | Some id, Some name, Some created_at =>
      Some {|
        lv_id := id;
        lv_name := name;
        lv_icon := non_empty (read_string map KEY_ICON);
        lv_default_view := read_default_view map KEY_VIEW;
        lv_archived_at := read_i64 map KEY_ARCHIVED_AT;
        lv_created_at := created_at;
      |}
  | _, _, _ => None
  end.

Record SettingsView : Type := mkSettingsView {
  sv_show_list_counts : bool;
  sv_inbox_view : option DefaultView;
  sv_doc_name : option string;
  sv_calendar_hidden_docs : list string;
  sv_done_amalgamate : bool;
}.

#[export] Instance SettingsView_eq_dec : EqDecision SettingsView.
Proof. solve_decision. Defined.

Definition settings_view (map : lmap) : SettingsView := {|
  sv_show_list_counts := default true (read_bool map KEY_SHOW_LIST_COUNTS);
  sv_inbox_view := read_default_view map KEY_INBOX_VIEW;
  sv_doc_name := non_empty (trim <$> read_string map KEY_DOC_NAME);
  sv_calendar_hidden_docs := read_string_list map KEY_CALENDAR_HIDDEN_DOCS;
  sv_done_amalgamate := default false (read_bool map KEY_DONE_AMALGAMATE);
|}.

(** The slice of an item the projection index mirrors. *)
Record ItemMeta : Type := mkMeta {
  m_list_id : string;
  m_placement_id : string;
  m_open : bool;
  m_created_at : Z;
}.

Definition item_meta (map : lmap) : ItemMeta := {|
  m_list_id := loc_list_id (map_location map);
  m_placement_id := loc_placement_id (map_location map);
  m_open := map_is_open map;
  m_created_at := default 0%Z (read_i64 map KEY_CREATED_AT);
|}.

(** ** The codecs round-trip *)

Abbreviation no_colon s := (contains_char ":" s = false).

Lemma location_roundtrip list_id placement_id :
  no_colon list_id -> list_id <> "" ->
  location_parse (location_encode (mkLocation list_id placement_id)) =
    Some (mkLocation list_id placement_id).
Proof.
  intros Hc Hne. unfold location_parse, location_encode. cbn.
  rewrite (split_once_app ":" list_id placement_id) by done. by rewrite decide_False.
Qed.

Lemma entry_roundtrip item_id placement_id :
  no_colon item_id -> item_id <> "" ->
  entry_parse (entry_encode (mkEntry item_id placement_id)) =
    Some (mkEntry item_id placement_id).
Proof.
  intros Hc Hne. unfold entry_parse, entry_encode. cbn.
  rewrite (split_once_app ":" item_id placement_id) by done. by rewrite decide_False.
Qed.

Lemma ref_local_roundtrip item_id :
  no_colon item_id -> item_id <> "" ->
  ref_parse (ref_encode (ref_local item_id)) = Some (ref_local item_id).
Proof.
  intros Hc Hne. unfold ref_parse, ref_encode. cbn.
  rewrite decide_False by done. by rewrite (proj2 (split_once_None ":" item_id) Hc).
Qed.

Lemma ref_foreign_roundtrip doc_id item_id :
  no_colon doc_id -> doc_id <> "" -> item_id <> "" ->
  ref_parse (ref_encode (ref_foreign doc_id item_id)) = Some (ref_foreign doc_id item_id).
Proof.
  intros Hc Hd Hi. unfold ref_parse, ref_encode. cbn.
  rewrite decide_False by (by destruct doc_id).
  rewrite (split_once_app ":" doc_id item_id) by done. by rewrite !decide_False.
Qed.

Lemma ref_reencode s r : ref_parse s = Some r -> ref_encode r = s /\ ref_item_id r <> "".
Proof.
  unfold ref_parse. intros H. case_decide; [done|].
  destruct (split_once ":" s) as [[a b]|] eqn:E; [|by simplify_eq].
  apply split_once_Some in E as [-> _]. repeat case_decide; by simplify_eq.
Qed.

(** Encoding what a parse returned gives the parsed string back, for the
    three codecs: nothing the program reads is lost when it is rewritten. *)
Theorem codecs_reencode s :
  (forall l, location_parse s = Some l -> location_encode l = s /\ loc_list_id l <> "")
  /\ (forall e, entry_parse s = Some e -> entry_encode e = s /\ entry_item_id e <> "")
  /\ (forall r, ref_parse s = Some r -> ref_encode r = s /\ ref_item_id r <> "").
Proof.
  unfold location_parse, entry_parse, ref_parse.
  split_and!; intros x H; repeat case_decide; try done;
    destruct (split_once ":" s) as [[a b]|] eqn:E; repeat case_decide; simplify_eq; try done;
    apply split_once_Some in E as [-> _]; by cbn.
Qed.

Lemma well_formed_no_colon s : is_well_formed_id s = true -> no_colon s /\ s <> "".
Proof.
  unfold is_well_formed_id. intros [Hl Hb]%andb_true_iff. split.
  - clear Hl. unfold bytes in Hb. induction s as [|c s IH]; [done|].
    cbn in Hb. apply andb_true_iff in Hb as [Hc Hb]. cbn. rewrite (IH Hb), orb_false_r.
    apply bool_decide_eq_false. intros ->. by vm_compute in Hc.
  - intros ->. done.
Qed.

(** ** Dates: the parsers accept exactly the printed calendar dates *)

(** A day of the proleptic Gregorian calendar with a four-digit year. *)
Definition real_date (y m d : Z) : Prop :=
  (0 <= y <= 9999 /\ 1 <= m <= 12 /\ 1 <= d <= days_in_month y m)%Z.

Definition digit_byte (k : Z) : N := Z.to_N (48 + k).
Definition pad2 (n : Z) : list N := [digit_byte (n / 10); digit_byte (n mod 10)].
Definition pad4 (n : Z) : list N := pad2 (n / 100) ++ pad2 (n mod 100).

Definition date_bytes (y m d : Z) : list N := pad4 y ++ dash :: pad2 m ++ dash :: pad2 d.
Definition time_bytes (h mi : Z) : list N := pad2 h ++ 58%N :: pad2 mi.

Lemma is_digit_byte k : (0 <= k <= 9)%Z -> is_digit (digit_byte k) = true.
Proof.
  intros Hk. unfold is_digit, digit_byte. apply andb_true_iff.
  split; apply N.leb_le; lia.
Qed.

Lemma digit_byte_val k : (0 <= k <= 9)%Z -> (Z.of_N (digit_byte k) - 48 = k)%Z.
Proof. unfold digit_byte. lia. Qed.

Lemma is_digit_inv b : is_digit b = true -> (48 <= b <= 57)%N.
Proof.
  unfold is_digit. intros [H1 H2]%andb_true_iff. apply N.leb_le in H1, H2. lia.
Qed.

Lemma byte_at_true bs i b : byte_at bs i b = true <-> bs !! i = Some b.
Proof. unfold byte_at. apply bool_decide_eq_true. Qed.

Lemma digits2_pad bs i n :
  (0 <= n <= 99)%Z -> take 2 (drop i bs) = pad2 n -> digits bs i (i + 2) = Some n.
Proof.
  intros Hn E. unfold digits. replace (i + 2 - i) with 2 by lia. rewrite E. cbn.
  rewrite !is_digit_byte by dlia. cbn. rewrite !digit_byte_val by dlia.
  f_equal. dlia.
Qed.

Lemma digits2_inv bs i n :
  i + 2 <= length bs -> digits bs i (i + 2) = Some n ->
  (0 <= n <= 99)%Z /\ take 2 (drop i bs) = pad2 n.
Proof.
  intros Hlen. unfold digits. replace (i + 2 - i) with 2 by lia.
  destruct (drop i bs) as [|a [|b l]] eqn:E.
  1, 2: apply (f_equal length) in E; rewrite length_drop in E; cbn in E; lia.
  cbn. rewrite take_0. cbn. rewrite andb_true_r.
  destruct (is_digit a) eqn:Ea, (is_digit b) eqn:Eb; cbn; intros H; simplify_eq.
  apply is_digit_inv in Ea, Eb. unfold pad2, digit_byte.
  split; [lia|]. repeat (f_equal; try dlia).
Qed.

Lemma digits4_pad bs n :
  (0 <= n <= 9999)%Z -> take 4 bs = pad4 n -> digits bs 0 4 = Some n.
Proof.
  intros Hn E. unfold digits. rewrite drop_0. cbn [Nat.sub]. rewrite E. cbn.
  rewrite !is_digit_byte by dlia. cbn. rewrite !digit_byte_val by dlia. f_equal. dlia.
Qed.

Lemma digits4_inv bs n :
  4 <= length bs -> digits bs 0 4 = Some n -> (0 <= n <= 9999)%Z /\ take 4 bs = pad4 n.
Proof.
  intros Hlen. unfold digits. rewrite drop_0. cbn [Nat.sub].
  destruct bs as [|a [|b [|c [|d l]]]]; cbn in Hlen; try lia.
  cbn. rewrite take_0. cbn. rewrite andb_true_r.
  destruct (is_digit a) eqn:Ea, (is_digit b) eqn:Eb, (is_digit c) eqn:Ec,
    (is_digit d) eqn:Ed; cbn; intros H; simplify_eq.
  apply is_digit_inv in Ea, Eb, Ec, Ed. unfold pad4, pad2, digit_byte.
  split; [lia|]. repeat (f_equal; try dlia).
Qed.

Lemma days_in_month_le y m : (days_in_month y m <= 31)%Z.
Proof. unfold days_in_month. repeat case_match; lia. Qed.

(** A list cut at the positions the date parser looks at. *)
Lemma date_cut bs :
  length bs = 10 -> bs !! 4 = Some dash -> bs !! 7 = Some dash ->
  bs = take 4 bs ++ dash :: take 2 (drop 5 bs) ++ dash :: take 2 (drop 8 bs).
Proof.
  intros Hl H4 H7. do 10 (destruct bs as [|? bs]; [done|]).
  destruct bs; [|done]. cbn in *. by simplify_eq.
Qed.

(** The checks [parse_deadline] makes on ten bytes hold exactly of the
    printed dates. *)
Lemma deadline_checks bs :
  (length bs = 10 /\ bs !! 4 = Some dash /\ bs !! 7 = Some dash
   /\ exists y m d, digits bs 0 4 = Some y /\ digits bs 5 7 = Some m
      /\ digits bs 8 10 = Some d /\ (1 <= m <= 12)%Z /\ (1 <= d <= days_in_month y m)%Z)
  <-> exists y m d, real_date y m d /\ bs = date_bytes y m d.
Proof.
  split.
  - intros (Hl & H4 & H7 & y & m & d & Hy & Hm & Hd & Hmr & Hdr).
    apply digits4_inv in Hy as [Hyr Hy]; [|lia].
    apply (digits2_inv bs 5) in Hm as [Hm2 Hm]; [|lia].
    apply (digits2_inv bs 8) in Hd as [Hd2 Hd]; [|lia].
    exists y, m, d. split; [unfold real_date; lia|].
    rewrite (date_cut bs) by done. unfold date_bytes. by rewrite Hy, Hm, Hd.
  - intros (y & m & d & (Hy & Hm & Hd) & ->).
    pose proof (days_in_month_le y m). split_and!; try done.
    exists y, m, d. split_and!; try lia.
    + by apply digits4_pad.
    + apply (digits2_pad _ 5); [lia|done].
    + apply (digits2_pad _ 8); [lia|done].
Qed.

(** [parse_deadline] accepts, up to surrounding whitespace, exactly the
    printed dates of real calendar days, leap years included, and returns
    the trimmed text; everything else is the one error. *)
Theorem parse_deadline_spec raw d :
  (parse_deadline raw = Ok d <->
     d = trim raw /\ exists y m day, real_date y m day /\ bytes d = date_bytes y m day)
  /\ (forall e, parse_deadline raw = Err e -> e = deadline_error).
Proof.
  split.
  2: { unfold parse_deadline. intros e. repeat case_match; intros; by simplify_eq. }
  assert (Hd : parse_deadline raw = Ok d <-> d = trim raw /\
    (length (bytes d) = 10 /\ bytes d !! 4 = Some dash /\ bytes d !! 7 = Some dash
     /\ exists y m day, digits (bytes d) 0 4 = Some y /\ digits (bytes d) 5 7 = Some m
        /\ digits (bytes d) 8 10 = Some day /\ (1 <= m <= 12)%Z
        /\ (1 <= day <= days_in_month y m)%Z)).
  { unfold parse_deadline. split.
    - repeat case_match; intros; simplify_eq.
      rewrite !orb_false_iff, !negb_false_iff, ?andb_true_iff in *.
      rewrite !byte_at_true, Nat.eqb_eq in *. destruct_and!.
      rewrite !Z.leb_le, !Z.ltb_ge in *.
      split; [done|]. split_and!; try done. eexists _, _, _. split_and!; try done; lia.
    - intros (-> & Hl & H4 & H7 & y & m & day & Ey & Em & Ed & Hm & Hday).
      rewrite Hl. rewrite (proj2 (byte_at_true _ _ _) H4), (proj2 (byte_at_true _ _ _) H7).
      rewrite Ey, Em, Ed. cbn [Nat.eqb negb orb].
      replace (1 <=? m)%Z with true by lia. replace (m <=? 12)%Z with true by lia.
      replace (day <? 1)%Z with false by lia. cbn.
      by replace (days_in_month y m <? day)%Z with false by lia. }
  rewrite Hd. by setoid_rewrite deadline_checks.
Qed.

(** An accepted deadline parses to itself. *)
Lemma parse_deadline_idemp raw d : parse_deadline raw = Ok d -> parse_deadline d = Ok d.
Proof.
  intros [-> H]%parse_deadline_spec. apply parse_deadline_spec. by rewrite trim_idemp.
Qed.

(** Calendar order of dates. *)
Definition date_lt (y m d y' m' d' : Z) : Prop :=
  (y < y' \/ (y = y' /\ (m < m' \/ (m = m' /\ d < d'))))%Z.

Lemma bytes_lt_cons_eq a l k : bytes_lt (a :: l) (a :: k) = bytes_lt l k.
Proof. cbn. by rewrite N.ltb_irrefl, N.eqb_refl. Qed.

Lemma bytes_lt_pad2 n n' l k :
  (0 <= n <= 99)%Z -> (0 <= n' <= 99)%Z ->
  bytes_lt (pad2 n ++ l) (pad2 n' ++ k) = true <->
  (n < n')%Z \/ (n = n' /\ bytes_lt l k = true).
Proof.
  intros Hn Hn'. unfold pad2, digit_byte. cbn.
  rewrite !orb_true_iff, !andb_true_iff, orb_true_iff, andb_true_iff,
    !N.ltb_lt, !N.eqb_eq.
  assert (n / 10 = n' / 10 /\ n mod 10 = n' mod 10 <-> n = n')%Z by dlia.
  split; intros Hc.
  - destruct Hc as [Hc|[Hc [Hc'|[Hc' Hl]]]]; [left; dlia|left; dlia|right; split; [dlia|done]].
  - destruct Hc as [Hc|[-> Hl]]; [|tauto].
    destruct (decide (n / 10 < n' / 10)%Z); [left; dlia|]. right. split; [dlia|]. left. dlia.
Qed.

(** Valid dates sort as strings in calendar order: the registers need no
    parsing to be compared. *)
Theorem date_string_order y m d y' m' d' :
  real_date y m d -> real_date y' m' d' ->
  bytes_lt (date_bytes y m d) (date_bytes y' m' d') = true <-> date_lt y m d y' m' d'.
Proof.
  intros (Hy & Hm & Hd) (Hy' & Hm' & Hd').
  pose proof (days_in_month_le y m). pose proof (days_in_month_le y' m').
  unfold date_bytes, pad4, date_lt. rewrite <- !app_assoc.
  rewrite !bytes_lt_pad2, bytes_lt_cons_eq, bytes_lt_pad2, bytes_lt_cons_eq by dlia.
  rewrite <- (app_nil_r (pad2 d)), <- (app_nil_r (pad2 d')), bytes_lt_pad2 by dlia.
  assert (Hlt : (y / 100 < y' / 100 \/ (y / 100 = y' / 100 /\ y mod 100 < y' mod 100)
                 <-> y < y')%Z).
  { split; [intros [?|[??]]; dlia|]. intros.
    destruct (decide (y / 100 = y' / 100)%Z); [right|left]; dlia. }
  assert (Heq : (y / 100 = y' / 100 /\ y mod 100 = y' mod 100 <-> y = y')%Z) by dlia.
  cbn [bytes_lt]. rewrite <- Hlt, <- Heq. intuition done.
Qed.

Lemma date_string_order_witness :
  bytes_lt (date_bytes 2024 2 29) (date_bytes 2024 12 1) = true.
Proof.
  apply (date_string_order 2024 2 29 2024 12 1).
  - vm_compute. by split_and!.
  - vm_compute. by split_and!.
  - right. split; [done|]. left. done.
Defined.

(** ** Planned dates *)

Lemma when_cut bs :
  length bs = 16 -> bs !! 10 = Some 84%N -> bs !! 13 = Some 58%N ->
  bs = take 10 bs ++ 84%N :: take 2 (drop 11 bs) ++ 58%N :: take 2 (drop 14 bs).
Proof.
  intros Hl H1 H2. do 16 (destruct bs as [|? bs]; [done|]).
  destruct bs; [|done]. cbn in *. by simplify_eq.
Qed.

(** The bytes of an accepted planned date: a date, or a date, [T] and a time
    of the 24-hour clock. *)
Inductive when_bytes : list N -> Prop :=
  | when_all_day y m d : real_date y m d -> when_bytes (date_bytes y m d)
  | when_timed y m d h mi :
      real_date y m d -> (0 <= h <= 23)%Z -> (0 <= mi <= 59)%Z ->
      when_bytes (date_bytes y m d ++ 84%N :: time_bytes h mi).

(** A text that starts and ends with an ASCII digit is already trimmed. *)
Lemma trim_digits_id bs a z l :
  Forall (fun b => b < 256)%N bs -> bs = a :: l -> last bs = Some z ->
  is_digit a = true -> is_digit z = true -> trim (of_bytes bs) = of_bytes bs.
Proof.
  intros Hb Ha Hz Da Dz. unfold trim. rewrite bytes_of_bytes by done. f_equal.
  apply is_digit_inv in Da, Dz.
  assert (Hws : forall b c d, (48 <= b <= 57)%N ->
            ws1 b = false /\ ws2 b c = false /\ ws2 c b = false
            /\ ws3 b c d = false /\ ws3 d c b = false).
  { intros b c d Hr. unfold ws1, ws2, ws3.
    repeat match goal with
    | |- context [(b =? ?k)%N] => replace (b =? k)%N with false by (symmetry; apply N.eqb_neq; lia)
    | |- context [(?k <=? b)%N] =>
        first [replace (k <=? b)%N with false by (symmetry; apply N.leb_gt; lia)
              |replace (k <=? b)%N with true by (symmetry; apply N.leb_le; lia)]
    | |- context [(b <=? ?k)%N] =>
        first [replace (b <=? k)%N with false by (symmetry; apply N.leb_gt; lia)
              |replace (b <=? k)%N with true by (symmetry; apply N.leb_le; lia)]
    end.
    by rewrite ?andb_false_r, ?andb_false_l, ?orb_false_r. }
  assert (Hs : forall b k, (48 <= b <= 57)%N -> trim_start_bytes (b :: k) = b :: k).
  { intros b k Hr. cbn. destruct (Hws b 0%N 0%N Hr) as [-> _].
    destruct k as [|c k]; [done|]. destruct (Hws b c 0%N Hr) as (_ & -> & _).
    destruct k as [|d k]; [done|]. by destruct (Hws b c d Hr) as (_ & _ & _ & -> & _). }
  assert (He : forall b k, (48 <= b <= 57)%N -> trim_end_rev (b :: k) = b :: k).
  { intros b k Hr. cbn. destruct (Hws b 0%N 0%N Hr) as [-> _].
    destruct k as [|c k]; [done|]. destruct (Hws b c 0%N Hr) as (_ & _ & -> & _).
    destruct k as [|d k]; [done|]. by destruct (Hws b c d Hr) as (_ & _ & _ & _ & ->). }
  unfold trim_bytes. rewrite Ha, Hs, <- Ha by done.
  apply last_Some in Hz as [k ->]. rewrite rev_app_distr. cbn [rev app].
  rewrite He by done. cbn. by rewrite rev_involutive.
Qed.

Lemma trim_bytes_length_id l : length (trim_bytes l) = length l -> trim_bytes l = l.
Proof.
  unfold trim_bytes. intros Hl.
  destruct (trim_start_bytes_suffix l) as [p Hp].
  destruct (trim_end_rev_suffix (rev (trim_start_bytes l))) as [q Hq].
  rewrite length_rev in Hl. apply (f_equal length) in Hp as Hp', Hq as Hq'.
  rewrite length_app in Hp', Hq'. rewrite length_rev in Hq'.
  destruct p; [|cbn in Hp'; lia]. destruct q; [|cbn in Hq'; lia].
  cbn in Hp, Hq. by rewrite <- Hq, rev_involutive, <- Hp.
Qed.

Lemma date_bytes_range y m d : real_date y m d -> Forall (fun b => b < 256)%N (date_bytes y m d).
Proof.
  intros (Hy & Hm & Hd). pose proof (days_in_month_le y m).
  unfold date_bytes, pad4, pad2, digit_byte, dash. cbn.
  repeat (constructor; [dlia|]). constructor.
Qed.

Lemma trim_date y m d : real_date y m d -> trim (of_bytes (date_bytes y m d)) = of_bytes (date_bytes y m d).
Proof.
  intros H. pose proof H as (Hy & Hm & Hd). pose proof (days_in_month_le y m).
  eapply trim_digits_id; [by apply date_bytes_range|reflexivity|reflexivity| |];
    apply is_digit_byte; dlia.
Qed.

Lemma parse_deadline_date y m d :
  real_date y m d -> parse_deadline (of_bytes (date_bytes y m d)) = Ok (of_bytes (date_bytes y m d)).
Proof.
  intros H. apply parse_deadline_spec. split; [by rewrite trim_date|].
  exists y, m, d. split; [done|]. by apply bytes_of_bytes, date_bytes_range.
Qed.

(** [parse_deadline] on a ten-byte slice: the slice is the date. *)
Lemma parse_deadline_slice bs :
  Forall (fun b => b < 256)%N bs -> length bs = 10 ->
  is_ok (parse_deadline (of_bytes bs)) = true <->
  exists y m d, real_date y m d /\ bs = date_bytes y m d.
Proof.
  intros Hb Hl. split.
  - destruct (parse_deadline _) as [s|] eqn:E; [|done]. intros _.
    apply parse_deadline_spec in E as [-> (y & m & d & Hr & Hbs)].
    exists y, m, d. split; [done|]. rewrite bytes_trim, bytes_of_bytes in Hbs by done.
    rewrite <- Hbs. symmetry. apply trim_bytes_length_id. by rewrite Hbs, Hl.
  - intros (y & m & d & Hr & ->). by rewrite parse_deadline_date.
Qed.

Lemma when_bytes_inv l :
  when_bytes l ->
  (exists y m d, real_date y m d /\ l = date_bytes y m d)
  \/ (exists y m d h mi, real_date y m d /\ (0 <= h <= 23)%Z /\ (0 <= mi <= 59)%Z
      /\ l = date_bytes y m d ++ 84%N :: time_bytes h mi).
Proof. destruct 1; [left|right]; eauto 9. Qed.

(** [parse_when] accepts, up to surrounding whitespace, exactly the dates and
    the dates with a 24-hour time; everything else is the one error. *)
Theorem parse_when_spec raw w :
  (parse_when raw = Ok w <-> w = trim raw /\ when_bytes (bytes w))
  /\ (forall e, parse_when raw = Err e -> e = when_error).
Proof.
  split.
  2: { unfold parse_when. intros e. repeat case_match; intros; by simplify_eq. }
  unfold parse_when. pose proof (bytes_range (trim raw)) as Hb.
  set (bs := bytes (trim raw)) in *.
  destruct (length bs =? 10)%nat eqn:E10; [apply Nat.eqb_eq in E10|apply Nat.eqb_neq in E10].
  - split.
    + destruct (parse_deadline (trim raw)) as [d|] eqn:E; intros; simplify_eq.
      apply parse_deadline_spec in E as [Hw (y & m & d & Hr & E)]. rewrite trim_idemp in Hw.
      split; [done|]. rewrite E. by constructor.
    + intros [-> Hw]. fold bs in Hw.
      rewrite (proj2 (proj1 (parse_deadline_spec (trim raw) (trim raw)))); [done|].
      rewrite trim_idemp. split; [done|]. fold bs.
      apply when_bytes_inv in Hw as [?|(y & m & d & h & mi & _ & _ & _ & E)]; [done|].
      rewrite E in E10. done.
  - destruct (length bs =? 16)%nat eqn:E16; [apply Nat.eqb_eq in E16|apply Nat.eqb_neq in E16].
    2: { split; [done|]. intros [-> Hw]. fold bs in Hw.
         apply when_bytes_inv in Hw as [(y & m & d & _ & E)|(y & m & d & h & mi & _ & _ & _ & E)];
           rewrite E in *; done. }
    assert (H10 : length (take 10 bs) = 10) by (rewrite length_take; lia).
    assert (Hb10 : Forall (fun b => b < 256)%N (take 10 bs)) by by apply Forall_take.
    pose proof (parse_deadline_slice _ Hb10 H10) as Hslice.
    split.
    + destruct (negb _ || negb _) eqn:Eb; [done|].
      apply orb_false_iff in Eb as [HT Hc]. rewrite negb_false_iff, byte_at_true in HT, Hc.
      destruct (parse_deadline (of_bytes (take 10 bs))) as [d|]; [|done].
      destruct (proj1 Hslice eq_refl) as (y & m & dd & Hr & Hd).
      destruct (digits bs 11 13) as [h|] eqn:Eh; [|done].
      destruct (digits bs 14 16) as [mi|] eqn:Em; [|done].
      destruct ((h <=? 23)%Z && (mi <=? 59)%Z) eqn:Er; [|done]. intros [= <-].
      apply andb_true_iff in Er as [Eh23 Em59]. apply Z.leb_le in Eh23, Em59.
      apply (digits2_inv bs 11) in Eh as [Hh Ehb]; [|lia].
      apply (digits2_inv bs 14) in Em as [Hmi Emb]; [|lia].
      split; [done|]. fold bs. rewrite (when_cut bs) by done. rewrite Hd, Ehb, Emb.
      constructor; [done|lia|lia].
    + intros [-> Hw]. fold bs in Hw.
      apply when_bytes_inv in Hw as
        [(y & m & d & _ & E)|(y & m & d & h & mi & Hr & Hh & Hmi & E)];
        [by rewrite E in E16|].
      clearbody bs. clear Hslice H10 Hb Hb10 E10 E16. subst bs.
      change (take 10 _) with (date_bytes y m d).
      rewrite parse_deadline_date by done.
      rewrite (digits2_pad _ 11 h), (digits2_pad _ 14 mi) by (lia || done).
      rewrite !(proj2 (byte_at_true _ _ _)) by done. cbn.
      by replace ((h <=? 23)%Z && (mi <=? 59)%Z) with true by lia.
Qed.

(** ** Places *)

Lemma place_detail_idemp v o : place_detail v = Ok o -> place_detail o = Ok o.
Proof.
  unfold place_detail. destruct v as [s|]; [|intros; by simplify_eq].
  repeat case_decide; intros; simplify_eq; [done|].
  destruct (_ <? _)%nat eqn:E; intros; simplify_eq. rewrite trim_idemp.
  rewrite decide_False by done. by rewrite E.
Qed.

Lemma place_normalized_idemp p q : place_normalized p = Ok q -> place_normalized q = Ok q.
Proof.
  unfold place_normalized. case_decide as Hl; [done|].
  destruct (_ <? _)%nat eqn:El; [done|].
  destruct (place_lat p) as [lat|] eqn:Elat, (place_lon p) as [lon|] eqn:Elon; try done.
  - destruct (negb (f64_is_finite lat) || _) eqn:E1; [done|].
    destruct (negb (f64_is_finite lon) || _) eqn:E2; [done|].
    destruct (place_detail (place_address p)) as [a|] eqn:Ea; [|done].
    destruct (place_detail (place_reference p)) as [r|] eqn:Er; [|done].
    intros [= <-]. cbn [place_label place_lat place_lon place_address place_reference].
    rewrite trim_idemp. rewrite decide_False by done. rewrite El, E1, E2.
    by rewrite (place_detail_idemp _ _ Ea), (place_detail_idemp _ _ Er).
  - destruct (place_detail (place_address p)) as [a|] eqn:Ea; [|done].
    destruct (place_detail (place_reference p)) as [r|] eqn:Er; [|done].
    intros [= <-]. cbn [place_label place_lat place_lon place_address place_reference].
    rewrite trim_idemp. rewrite decide_False by done. rewrite El.
    by rewrite (place_detail_idemp _ _ Ea), (place_detail_idemp _ _ Er).
Qed.

Lemma place_normalized_paired p q :
  place_normalized p = Ok q -> is_Some (place_lat q) <-> is_Some (place_lon q).
Proof.
  unfold place_normalized. intros H. repeat case_match; simplify_eq; cbn; try done;
    split; eauto.
Qed.

(** A place that passed validation is a fixed point of it, and the value
    written to the [place] register reads back as exactly that place. *)
Theorem place_register_roundtrip p q :
  place_normalized p = Ok q ->
  place_normalized q = Ok q
  /\ place_from_loro_value (place_to_loro_value q) = Some q.
Proof.
  intros H. pose proof (place_normalized_idemp p q H) as Hq. split; [done|].
  pose proof (place_normalized_paired p q H) as Hp.
  unfold place_from_loro_value, place_to_loro_value.
  destruct q as [label [lat|] [lon|] [a|] [r|]]; cbn in Hp;
    try (exfalso; destruct Hp as [H1 H2]; (destruct (H1 (mk_is_Some _ _ eq_refl)) ||
           destruct (H2 (mk_is_Some _ _ eq_refl))); done);
    cbn [place_label place_lat place_lon place_address place_reference app];
    unfold value_str, value_num; cbn [value_get];
    repeat first [rewrite decide_True by done | rewrite decide_False by done];
    by rewrite Hq.
Qed.

Lemma place_register_roundtrip_witness :
  place_from_loro_value (place_to_loro_value
    (mkPlace "Cafe" (Some (f64_of_Z 51)) (Some (f64_of_Z (-1))) None (Some "osm:1")))
  = Some (mkPlace "Cafe" (Some (f64_of_Z 51)) (Some (f64_of_Z (-1))) None (Some "osm:1")).
Proof.
  apply (place_register_roundtrip
    (mkPlace " Cafe " (Some (f64_of_Z 51)) (Some (f64_of_Z (-1))) (Some "  ") (Some "osm:1"))).
  vm_compute. reflexivity.
Defined.
