(* ===== verification/Projection.v ===== *)
(** The disposable projection index (core/src/doc.rs, [ProjectionIndex]): an
    in-memory mirror of item locations and order containers, maintained
    incrementally by every mutation. This file gives the index and its
    operations, a pure specification [open_projection] of the order the index
    is supposed to hold, the well-formedness [index_wf] relating the two, and
    the lemmas that each incremental step keeps them in agreement. *)
From S2P Require Import Prelude.
From S2P Require Import Loro.
From S2P Require Import Lifecycle.
From S2P Require Import Registers.

Record ProjectionIndex : Type := mkIndex {
  ix_meta : gmap string ItemMeta;
  ix_members : gmap string (gset string);
  ix_open_members : gmap string (gset string);
  ix_raw_orders : gmap string (list (option OrderEntry));
  ix_open_by_list : gmap string (list string);
  ix_open_visible_counts : gmap string nat;
}.

Definition index_default : ProjectionIndex := mkIndex ∅ ∅ ∅ ∅ ∅ ∅.

(** [map.get(k).copied().unwrap_or_default()] of the index's maps. *)
Definition set_at (sets : gmap string (gset string)) (k : string) : gset string :=
  default ∅ (sets !! k).
Definition raw_at (idx : ProjectionIndex) (list_id : string) : list (option OrderEntry) :=
  default [] (ix_raw_orders idx !! list_id).
Definition open_at (idx : ProjectionIndex) (list_id : string) : list string :=
  default [] (ix_open_by_list idx !! list_id).
Definition count_at (idx : ProjectionIndex) (list_id : string) : nat :=
  default 0 (ix_open_visible_counts idx !! list_id).

(** ** Reading the projection *)

(** The loop of [visible_ids] over the entries, [seen] being its HashSet. *)
Fixpoint visible_walk (meta : gmap string ItemMeta) (list_id : string)
    (entries : list (option OrderEntry)) (seen : gset string)
    : list string * gset string :=
  match entries with
  | [] => ([], seen)
  | None :: entries => visible_walk meta list_id entries seen
  | Some e :: entries =>
      match meta !! entry_item_id e with
      | None => visible_walk meta list_id entries seen
      | Some m =>
          if bool_decide (m_list_id m = list_id)
             && bool_decide (m_placement_id m = entry_placement_id e)
             && bool_decide (entry_item_id e ∉ seen)
          then
            let '(out, seen') :=
              visible_walk meta list_id entries ({[entry_item_id e]} ∪ seen) in
            (entry_item_id e :: out, seen')
          else visible_walk meta list_id entries seen
      end
  end.

Definition visible_ids (idx : ProjectionIndex) (list_id : string)
    : list string * gset string :=
  visible_walk (ix_meta idx) list_id (raw_at idx list_id) ∅.

(** Sort ids by [(created_at, id)]. *)
Definition sort_by_created (meta : gmap string ItemMeta) (ids : list string)
    : list string :=
  snd <$> merge_sort key_le
    ((fun id => (default 0%Z (m_created_at <$> meta !! id), id)) <$> ids).

Definition tail_of (meta : gmap string ItemMeta) (set seen : gset string) : list string :=
  sort_by_created meta (elements (base.filter (fun id => id ∉ seen) set)).

Definition tail (idx : ProjectionIndex) (list_id : string) (seen : gset string) : list string :=
  tail_of (ix_meta idx) (set_at (ix_members idx) list_id) seen.

Definition open_tail (idx : ProjectionIndex) (list_id : string) (seen : gset string)
    : list string :=
  tail_of (ix_meta idx) (set_at (ix_open_members idx) list_id) seen.

Definition resolved (idx : ProjectionIndex) (list_id : string) : list string :=
  let '(ids, seen) := visible_ids idx list_id in
  ids ++ tail idx list_id seen.

Definition meta_open (meta : gmap string ItemMeta) (id : string) : bool :=
  match meta !! id with Some m => m_open m | None => false end.

(** Insert unless empty, else remove: the maps never hold an empty entry. *)
Definition put_list (k : string) (v : list string) (m : gmap string (list string)) :=
  if decide (v = []) then delete k m else <[k := v]> m.
Definition put_count (k : string) (v : nat) (m : gmap string nat) :=
  if decide (v = 0) then delete k m else <[k := v]> m.

Definition refresh_open (idx : ProjectionIndex) (list_id : string)
    : ProjectionIndex * list string :=
  let '(ids, seen) := visible_ids idx list_id in
  let open_visible := base.filter (fun id => Is_true (meta_open (ix_meta idx) id)) ids in
  let visible := length open_visible in
  let open := open_visible ++ open_tail idx list_id seen in
  (mkIndex (ix_meta idx) (ix_members idx) (ix_open_members idx) (ix_raw_orders idx)
     (put_list list_id open (ix_open_by_list idx))
     (put_count list_id visible (ix_open_visible_counts idx)), open).

Definition tail_is_empty (idx : ProjectionIndex) (list_id : string) : bool :=
  (size (set_at (ix_open_members idx) list_id) =? count_at idx list_id)%nat.

(** ** Incremental steps *)

(** [delta] is an [isize]; the count never goes below zero. *)
Definition bump_visible (idx : ProjectionIndex) (list_id : string) (delta : Z)
    : ProjectionIndex :=
  let next := Z.to_nat (Z.max (Z.of_nat (count_at idx list_id) + delta) 0) in
  mkIndex (ix_meta idx) (ix_members idx) (ix_open_members idx) (ix_raw_orders idx)
    (ix_open_by_list idx) (put_count list_id next (ix_open_visible_counts idx)).

Definition splice_open_in (idx : ProjectionIndex) (list_id id : string) (at_ : N)
    : ProjectionIndex :=
  let arr := base.filter (fun x => x <> id) (open_at idx list_id) in
  let at_ := N.to_nat (N.min at_ (N.of_nat (length arr))) in
  mkIndex (ix_meta idx) (ix_members idx) (ix_open_members idx) (ix_raw_orders idx)
    (<[list_id := insert_at at_ id arr]> (ix_open_by_list idx))
    (ix_open_visible_counts idx).

Definition splice_open_out (idx : ProjectionIndex) (list_id id : string)
    : ProjectionIndex :=
  match ix_open_by_list idx !! list_id with
  | None => idx
  | Some arr =>
      mkIndex (ix_meta idx) (ix_members idx) (ix_open_members idx) (ix_raw_orders idx)
        (put_list list_id (base.filter (fun x => x <> id) arr) (ix_open_by_list idx))
        (ix_open_visible_counts idx)
  end.

(** Raw container position of the item's canonical (visible) entry. *)
Definition canonical_raw_pos (idx : ProjectionIndex) (list_id item_id : string)
    : option nat :=
  match ix_meta idx !! item_id with
  | None => None
  | Some m =>
      if decide (m_list_id m = list_id) then
        match ix_raw_orders idx !! list_id with
        | None => None
        | Some raw =>
            position (fun e => bool_decide (e = Some (mkEntry item_id (m_placement_id m)))) raw
        end
      else None
  end.

(** Every raw position holding an entry for the item, ascending. *)
Definition entry_positions (idx : ProjectionIndex) (list_id item_id : string) : list nat :=
  positions_of (fun e => bool_decide (entry_item_id <$> e = Some item_id)) (raw_at idx list_id).

Record TargetPlan : Type := mkPlan {
  raw_pos : nat;
  (** Exact open splice position; [None] asks for a refresh. *)
  open_pos : option N;
}.

(** The anchor index: the moving item is not counted against itself. *)
Definition anchor_index (seq : list string) (target_index : N) (exclude : option string) : N :=
  match (match exclude with Some e => position_of e seq | None => None end) with
  | Some c => if (N.of_nat c <=? target_index)%N then usize_saturating_add target_index 1
              else target_index
  | None => target_index
  end.

Definition plan_target (idx : ProjectionIndex) (list_id : string) (target_index : N)
    (is_open : bool) (exclude : option string) : TargetPlan :=
  let raw_len := length (raw_at idx list_id) in
  if negb is_open then
    let seq := resolved idx list_id in
    let raw_pos :=
      match get_usize seq (anchor_index seq target_index exclude) with
      | Some a => default raw_len (canonical_raw_pos idx list_id a)
      | None => raw_len
      end in
    mkPlan raw_pos (Some usize_max)
  else
    let seq := open_at idx list_id in
    match get_usize seq (anchor_index seq target_index exclude) with
    | Some anchor =>
        match canonical_raw_pos idx list_id anchor with
        | Some ap => mkPlan ap (Some target_index)
        | None => mkPlan raw_len None
        end
    | None =>
        mkPlan raw_len (if tail_is_empty idx list_id then Some usize_max else None)
    end.

(** ** Membership sets *)

Definition unset_member (sets : gmap string (gset string)) (list_id id : string)
    : gmap string (gset string) :=
  match sets !! list_id with
  | None => sets
  | Some s =>
      let s' := s ∖ {[id]} in
      if decide (s' = ∅) then delete list_id sets else <[list_id := s']> sets
  end.

(** [sets.entry(list_id).or_default().insert(id)]. *)
Definition add_member (sets : gmap string (gset string)) (list_id id : string)
    : gmap string (gset string) :=
  <[list_id := {[id]} ∪ set_at sets list_id]> sets.

Definition set_meta (idx : ProjectionIndex) (id : string) (meta : ItemMeta)
    : ProjectionIndex :=
  let '(mem, open) :=
    match ix_meta idx !! id with
    | None => (ix_members idx, ix_open_members idx)
    | Some old =>
        (if decide (m_list_id old <> m_list_id meta)
         then unset_member (ix_members idx) (m_list_id old) id else ix_members idx,
         if m_open old && (negb (m_open meta) || bool_decide (m_list_id old <> m_list_id meta))
         then unset_member (ix_open_members idx) (m_list_id old) id
         else ix_open_members idx)
    end in
  let mem := add_member mem (m_list_id meta) id in
  let open := if m_open meta then add_member open (m_list_id meta) id else open in
  mkIndex (<[id := meta]> (ix_meta idx)) mem open (ix_raw_orders idx)
    (ix_open_by_list idx) (ix_open_visible_counts idx).

(** Flip the open flag; returns [(list_id, was_open)]. *)
Definition set_open (idx : ProjectionIndex) (id : string) (open : bool)
    : ProjectionIndex * option (string * bool) :=
  match ix_meta idx !! id with
  | None => (idx, None)
  | Some m =>
      let list_id := m_list_id m in
      let was_open := m_open m in
      let meta := <[id := mkMeta list_id (m_placement_id m) open (m_created_at m)]>
                    (ix_meta idx) in
      let om :=
        if open && negb was_open then add_member (ix_open_members idx) list_id id
        else if negb open && was_open then unset_member (ix_open_members idx) list_id id
        else ix_open_members idx in
      (mkIndex meta (ix_members idx) om (ix_raw_orders idx) (ix_open_by_list idx)
         (ix_open_visible_counts idx), Some (list_id, was_open))
  end.

Definition remove_item (idx : ProjectionIndex) (id : string) : ProjectionIndex :=
  match ix_meta idx !! id with
  | None => idx
  | Some old =>
      mkIndex (delete id (ix_meta idx))
        (unset_member (ix_members idx) (m_list_id old) id)
        (if m_open old then unset_member (ix_open_members idx) (m_list_id old) id
         else ix_open_members idx)
        (ix_raw_orders idx) (ix_open_by_list idx) (ix_open_visible_counts idx)
  end.

(** Direct edits of the positional mirror. *)
Definition set_raw (idx : ProjectionIndex) (list_id : string)
    (raw : list (option OrderEntry)) : ProjectionIndex :=
  mkIndex (ix_meta idx) (ix_members idx) (ix_open_members idx)
    (<[list_id := raw]> (ix_raw_orders idx)) (ix_open_by_list idx)
    (ix_open_visible_counts idx).

(** [raw_orders.entry(list).or_default()] then [insert(at.min(len), e)]. *)
Definition raw_insert (idx : ProjectionIndex) (list_id : string) (at_ : nat)
    (e : OrderEntry) : ProjectionIndex :=
  let raw := raw_at idx list_id in
  set_raw idx list_id (insert_at (Nat.min at_ (length raw)) (Some e) raw).

(** [for p in positions.iter().rev() { if p < raw.len() { raw.remove(p) } }]. *)
Definition raw_remove_all (idx : ProjectionIndex) (list_id : string)
    (positions : list nat) : ProjectionIndex :=
  match ix_raw_orders idx !! list_id with
  | None => idx
  | Some raw => set_raw idx list_id (remove_all positions raw)
  end.

(** ** The index updates of the item mutations

    Each mutation of core/src/doc.rs ends with one block under the index
    lock; these are those blocks. *)

(** [(id, placement, created_at)] of the items just written. *)
Abbreviation pending := (list (string * string * Z)).
(** The id of a pending addition. *)
Definition pending_id (p : string * string * Z) : string := p.1.1.

Fixpoint add_metas (idx : ProjectionIndex) (list_id : string) (at_ : nat) (p : pending)
    : ProjectionIndex :=
  match p with
  | [] => idx
  | (id, placement, now) :: p =>
      let idx := set_meta idx id (mkMeta list_id placement true now) in
      let idx := raw_insert idx list_id at_ (mkEntry id placement) in
      add_metas (bump_visible idx list_id 1) list_id (S at_) p
  end.

Fixpoint splice_run (idx : ProjectionIndex) (list_id : string) (pos i : N) (p : pending)
    : ProjectionIndex :=
  match p with
  | [] => idx
  | (id, _, _) :: p =>
      splice_run (splice_open_in idx list_id id (usize_saturating_add pos i))
        list_id pos (i + 1) p
  end.

Definition add_update (idx : ProjectionIndex) (list_id : string) (plan : TargetPlan)
    (p : pending) : ProjectionIndex * list string :=
  let idx := add_metas idx list_id (raw_pos plan) p in
  match open_pos plan with
  | Some pos =>
      let idx := splice_run idx list_id pos 0 p in (idx, open_at idx list_id)
  | None => refresh_open idx list_id
  end.

(** The position of [id] in a list's open array, if it has one. *)
Definition open_index_of (idx : ProjectionIndex) (list_id id : string) : option nat :=
  match ix_open_by_list idx !! list_id with
  | Some arr => position_of id arr
  | None => None
  end.

(** [raw.remove(from)] then [raw.insert(to.min(len), e)]; [from] is a position
    [canonical_raw_pos] found in that very vector. *)
Definition raw_mov (idx : ProjectionIndex) (list_id : string) (from to : nat)
    : ProjectionIndex :=
  match ix_raw_orders idx !! list_id with
  | None => idx
  | Some raw =>
      match raw !! from with
      | None => idx
      | Some e =>
          let raw := remove_at from raw in
          set_raw idx list_id (insert_at (Nat.min to (length raw)) e raw)
      end
  end.

Definition reorder_update (idx : ProjectionIndex) (list_id id : string) (from to : nat)
    (is_open : bool) (open_plan : option N) : ProjectionIndex * option nat :=
  let idx := raw_mov idx list_id from to in
  if negb is_open then (idx, None)
  else match open_plan with
       | Some pos =>
           let idx := splice_open_in idx list_id id pos in
           (idx, open_index_of idx list_id id)
       | None =>
           let '(idx, open) := refresh_open idx list_id in (idx, position_of id open)
       end.

Definition set_placement (idx : ProjectionIndex) (id placement : string) : ProjectionIndex :=
  match ix_meta idx !! id with
  | None => idx
  | Some m =>
      mkIndex (<[id := mkMeta (m_list_id m) placement (m_open m) (m_created_at m)]> (ix_meta idx))
        (ix_members idx) (ix_open_members idx) (ix_raw_orders idx) (ix_open_by_list idx)
        (ix_open_visible_counts idx)
  end.

Definition replace_update (idx : ProjectionIndex) (list_id id placement : string)
    (raw_pos : nat) (is_open : bool) : ProjectionIndex * option nat :=
  let idx := set_placement idx id placement in
  let idx := raw_insert idx list_id raw_pos (mkEntry id placement) in
  let '(idx, open) := refresh_open idx list_id in
  (idx, if is_open then position_of id open else None).

Definition move_update (idx : ProjectionIndex) (cur_list target_list_id id placement : string)
    (created_at : Z) (plan : TargetPlan) (src_positions : list nat)
    (was_visible is_open : bool) : ProjectionIndex * option nat :=
  let idx := set_meta idx id (mkMeta target_list_id placement is_open created_at) in
  let idx := raw_remove_all idx cur_list src_positions in
  let idx := if was_visible && is_open then bump_visible idx cur_list (-1) else idx in
  let idx := raw_insert idx target_list_id (raw_pos plan) (mkEntry id placement) in
  let idx := if is_open then bump_visible idx target_list_id 1 else idx in
  if negb is_open then (idx, None)
  else
    let idx := splice_open_out idx cur_list id in
    match open_pos plan with
    | Some pos =>
        let idx := splice_open_in idx target_list_id id pos in
        (idx, open_index_of idx target_list_id id)
    | None =>
        let '(idx, open) := refresh_open idx target_list_id in (idx, position_of id open)
    end.

(** [sync_item_openness], given the item's present openness. *)
Definition openness_update (idx : ProjectionIndex) (id : string) (open_now : bool)
    : ProjectionIndex * option nat :=
  let '(idx, r) := set_open idx id open_now in
  match r with
  | None => (idx, None)
  | Some (list_id, was_open) =>
      if negb open_now then
        let idx :=
          if was_open && bool_decide (is_Some (canonical_raw_pos idx list_id id))
          then bump_visible idx list_id (-1) else idx in
        (splice_open_out idx list_id id, None)
      else if was_open then (idx, open_index_of idx list_id id)
      else let '(idx, open) := refresh_open idx list_id in (idx, position_of id open)
  end.

(** Hard delete: the rows [(item, list, was_visible)] and the positions of
    each list, gathered before any mutation. *)
Definition delete_row (idx : ProjectionIndex) (id : string) : option (string * string * bool) :=
  match ix_meta idx !! id with
  | None => None
  | Some m =>
      Some (id, m_list_id m,
            m_open m && bool_decide (is_Some (canonical_raw_pos idx (m_list_id m) id)))
  end.

(** The vector of one list of the per-list map: extended with the entry
    positions of each deleted item located there, sorted, deduplicated. *)
Definition delete_positions (idx : ProjectionIndex) (ids : list string) (list_id : string)
    : list nat :=
  dedup (merge_sort Nat.le
    (id ← ids;
     if decide (m_list_id <$> ix_meta idx !! id = Some list_id)
     then entry_positions idx list_id id else [])).

Definition delete_per_list (idx : ProjectionIndex) (ids : list string)
    : list (string * list nat) :=
  (fun l => (l, delete_positions idx ids l)) <$>
    dedup (omap (fun id => m_list_id <$> ix_meta idx !! id) ids).

Definition delete_update (idx : ProjectionIndex) (ids : list string)
    (per_list : list (string * list nat)) (per_item : list (string * string * bool))
    : ProjectionIndex :=
  let idx := foldl remove_item idx ids in
  let idx := foldl (fun idx '(l, ps) => raw_remove_all idx l ps) idx per_list in
  foldl (fun idx '(id, l, was_visible) =>
           let idx := splice_open_out idx l id in
           if (was_visible : bool) then bump_visible idx l (-1) else idx) idx per_item.

(** ** Specification: what the open projection of a list is *)

Section spec.
Implicit Types (meta : gmap string ItemMeta) (raw : list (option OrderEntry)).

(** The item an entry makes visible: its placement is the item's current
    one. *)
Definition canon meta (l : string) (e : option OrderEntry) : option string :=
  match e with
  | Some e =>
      match meta !! entry_item_id e with
      | Some m => if bool_decide (m_list_id m = l)
                     && bool_decide (m_placement_id m = entry_placement_id e)
                  then Some (entry_item_id e) else None
      | None => None
      end
  | None => None
  end.

Definition visible meta l raw : list string := dedup (omap (canon meta l) raw).
Definition open_visible meta l raw : list string :=
  base.filter (fun id => Is_true (meta_open meta id)) (visible meta l raw).

Definition located meta (l id : string) : Prop :=
  exists m, meta !! id = Some m /\ m_list_id m = l.
Definition located_open meta (l id : string) : Prop :=
  exists m, meta !! id = Some m /\ m_list_id m = l /\ m_open m = true.

Definition open_ids meta (l : string) : gset string :=
  dom (base.filter (fun kv : string * ItemMeta =>
                      m_list_id kv.2 = l /\ m_open kv.2 = true) meta).

(** Open entry-backed items in container order, then the open items without
    a visible entry by [(created_at, id)]. *)
Definition open_projection meta l raw : list string :=
  open_visible meta l raw
  ++ tail_of meta (open_ids meta l) (list_to_set (visible meta l raw)).
End spec.

(** The sets of [sets] are the fibres of [P], none stored empty. *)
Definition sets_ok (sets : gmap string (gset string)) (P : string -> string -> Prop) : Prop :=
  (forall l id, id ∈ set_at sets l <-> P l id) /\ (forall l, sets !! l <> Some ∅).

(** The index agrees with its own meta and raw mirrors. *)
Record index_wf (idx : ProjectionIndex) : Prop := {
  wf_members : sets_ok (ix_members idx) (located (ix_meta idx));
  wf_open_members : sets_ok (ix_open_members idx) (located_open (ix_meta idx));
  wf_open : forall l, open_at idx l = open_projection (ix_meta idx) l (raw_at idx l);
  wf_open_ne : forall l, ix_open_by_list idx !! l <> Some [];
  wf_counts : forall l,
    count_at idx l = length (open_visible (ix_meta idx) l (raw_at idx l));
  wf_counts_ne : forall l, ix_open_visible_counts idx !! l <> Some 0;
}.

(** ** The walk computes the specification *)

Lemma visible_walk_spec meta l entries seen :
  visible_walk meta l entries seen =
    (dedup_seen seen (omap (canon meta l) entries),
     list_to_set (omap (canon meta l) entries) ∪ seen).
Proof.
  revert seen. induction entries as [|[e|] entries IH]; intros seen; cbn.
  - f_equal. set_solver.
  - destruct (meta !! entry_item_id e) as [m|] eqn:Em; cbn; [|by rewrite IH].
    destruct (bool_decide (m_list_id m = l)); cbn; [|by rewrite IH].
    destruct (bool_decide (m_placement_id m = entry_placement_id e)); cbn; [|by rewrite IH].
    case_bool_decide as Hs; rewrite IH.
    + rewrite decide_False by done. f_equal. set_solver.
    + rewrite decide_True by done. f_equal. set_solver.
  - by rewrite IH.
Qed.

Lemma visible_ids_spec idx l :
  visible_ids idx l =
    (visible (ix_meta idx) l (raw_at idx l),
     list_to_set (omap (canon (ix_meta idx) l) (raw_at idx l))).
Proof.
  unfold visible_ids. rewrite visible_walk_spec. unfold visible, dedup. f_equal. set_solver.
Qed.

Lemma list_to_set_visible meta l raw :
  list_to_set (omap (canon meta l) raw) =@{gset string} list_to_set (visible meta l raw).
Proof.
  apply set_eq. intros x. rewrite !elem_of_list_to_set. unfold visible.
  by rewrite elem_of_dedup.
Qed.

Lemma canon_Some meta l e id :
  canon meta l e = Some id <->
  exists m, meta !! id = Some m /\ m_list_id m = l
            /\ e = Some (mkEntry id (m_placement_id m)).
Proof.
  unfold canon. destruct e as [[i p]|]; cbn; [|naive_solver].
  destruct (meta !! i) as [m|] eqn:Em; [|naive_solver].
  repeat case_bool_decide; cbn; split; intros; simplify_eq; try naive_solver.
Qed.

Lemma elem_of_visible meta l raw id :
  id ∈ visible meta l raw <->
  exists m, meta !! id = Some m /\ m_list_id m = l
            /\ Some (mkEntry id (m_placement_id m)) ∈ raw.
Proof.
  unfold visible. rewrite elem_of_dedup, list_elem_of_omap. setoid_rewrite canon_Some.
  naive_solver.
Qed.

Lemma elem_of_open_ids meta l id : id ∈ open_ids meta l <-> located_open meta l id.
Proof.
  unfold open_ids, located_open. rewrite elem_of_dom. unfold is_Some.
  setoid_rewrite map_lookup_filter_Some. cbn. naive_solver.
Qed.

Lemma open_ids_spec idx l :
  sets_ok (ix_open_members idx) (located_open (ix_meta idx)) ->
  set_at (ix_open_members idx) l = open_ids (ix_meta idx) l.
Proof.
  intros [Hs _]. apply set_eq. intros id. by rewrite Hs, elem_of_open_ids.
Qed.

Lemma lookup_put_list k v m j :
  default [] (put_list k v m !! j) = if decide (k = j) then v else default [] (m !! j).
Proof.
  unfold put_list. case_decide as Hv.
  - rewrite lookup_delete. by case_decide; subst.
  - rewrite lookup_insert. by case_decide.
Qed.

Lemma put_list_ne k v m :
  (forall j, m !! j <> Some []) -> forall j, put_list k v m !! j <> Some [].
Proof.
  intros H j. unfold put_list. case_decide.
  - rewrite lookup_delete. by case_decide.
  - rewrite lookup_insert. case_decide; [congruence|done].
Qed.

Lemma lookup_put_count k v m j :
  default 0 (put_count k v m !! j) = if decide (k = j) then v else default 0 (m !! j).
Proof.
  unfold put_count. case_decide as Hv.
  - rewrite lookup_delete. by case_decide; subst.
  - rewrite lookup_insert. by case_decide.
Qed.

Lemma put_count_ne k v m :
  (forall j, m !! j <> Some 0) -> forall j, put_count k v m !! j <> Some 0.
Proof.
  intros H j. unfold put_count. case_decide.
  - rewrite lookup_delete. by case_decide.
  - rewrite lookup_insert. case_decide; [congruence|done].
Qed.

(** [refresh_open] recomputes one list from the mirrors. *)
Lemma refresh_open_spec idx l :
  sets_ok (ix_open_members idx) (located_open (ix_meta idx)) ->
  refresh_open idx l =
    (mkIndex (ix_meta idx) (ix_members idx) (ix_open_members idx) (ix_raw_orders idx)
       (put_list l (open_projection (ix_meta idx) l (raw_at idx l)) (ix_open_by_list idx))
       (put_count l (length (open_visible (ix_meta idx) l (raw_at idx l)))
          (ix_open_visible_counts idx)),
     open_projection (ix_meta idx) l (raw_at idx l)).
Proof.
  intros Hs. unfold refresh_open. rewrite visible_ids_spec. unfold open_tail.
  rewrite (open_ids_spec _ _ Hs), list_to_set_visible. reflexivity.
Qed.

(** ** Facts about the projection *)

Section facts.
Implicit Types (meta : gmap string ItemMeta) (raw : list (option OrderEntry)).

Lemma meta_open_located meta l id :
  located_open meta l id <-> located meta l id /\ meta_open meta id = true.
Proof.
  unfold located_open, located, meta_open. split.
  - intros (m & E & Hl & Ho). rewrite E. eauto.
  - intros [(m & E & Hl) Ho]. rewrite E in Ho. eauto.
Qed.

Lemma sort_by_created_Permutation meta ids : sort_by_created meta ids ≡ₚ ids.
Proof.
  unfold sort_by_created. rewrite merge_sort_Permutation, <- list_fmap_compose.
  by rewrite list_fmap_id.
Qed.

Lemma elem_of_tail_of meta S seen id : id ∈ tail_of meta S seen <-> id ∈ S /\ id ∉ seen.
Proof.
  unfold tail_of. rewrite sort_by_created_Permutation, elem_of_elements, elem_of_filter.
  naive_solver.
Qed.

Lemma NoDup_tail_of meta S seen : NoDup (tail_of meta S seen).
Proof. unfold tail_of. rewrite sort_by_created_Permutation. apply NoDup_elements. Qed.

Lemma elem_of_open_visible meta l raw id :
  id ∈ open_visible meta l raw <->
  located_open meta l id /\ id ∈ visible meta l raw.
Proof.
  unfold open_visible. rewrite list_elem_of_filter, meta_open_located, elem_of_visible.
  rewrite Is_true_true. unfold located. naive_solver.
Qed.

Lemma NoDup_open_visible meta l raw : NoDup (open_visible meta l raw).
Proof. apply NoDup_filter, NoDup_dedup. Qed.

(** The projection lists every open item of the list, once. *)
Lemma elem_of_open_projection meta l raw id :
  id ∈ open_projection meta l raw <-> located_open meta l id.
Proof.
  unfold open_projection.
  rewrite elem_of_app, elem_of_open_visible, elem_of_tail_of, elem_of_open_ids,
    elem_of_list_to_set.
  destruct (decide (id ∈ visible meta l raw)); naive_solver.
Qed.

Lemma NoDup_open_projection meta l raw : NoDup (open_projection meta l raw).
Proof.
  unfold open_projection. apply NoDup_app.
  split_and!; [apply NoDup_open_visible| |apply NoDup_tail_of].
  intros id. rewrite elem_of_open_visible, elem_of_tail_of, elem_of_list_to_set. naive_solver.
Qed.

(** Only the items located in a list matter to its projection. *)
Definition agree_on (l : string) meta meta' : Prop :=
  forall id m, m_list_id m = l -> meta !! id = Some m <-> meta' !! id = Some m.

Lemma agree_on_canon l meta meta' e : agree_on l meta meta' -> canon meta l e = canon meta' l e.
Proof.
  intros Ha. apply option_eq. intros id. rewrite !canon_Some.
  split; intros (m & E & Hl & He); exists m; (split; [by apply (Ha id m Hl)|done]).
Qed.

Lemma agree_on_visible l meta meta' raw :
  agree_on l meta meta' -> visible meta l raw = visible meta' l raw.
Proof.
  intros Ha. unfold visible. f_equal. induction raw as [|e raw IH]; [done|].
  cbn. rewrite (agree_on_canon l meta meta' e Ha). by rewrite IH.
Qed.

Lemma agree_on_open l meta meta' id :
  agree_on l meta meta' -> located meta l id -> meta_open meta id = meta_open meta' id.
Proof.
  intros Ha (m & E & Hl). unfold meta_open. rewrite E. by rewrite (proj1 (Ha id m Hl) E).
Qed.

Lemma located_visible meta l raw id : id ∈ visible meta l raw -> located meta l id.
Proof. rewrite elem_of_visible. unfold located. naive_solver. Qed.

Lemma agree_on_open_visible l meta meta' raw :
  agree_on l meta meta' -> open_visible meta l raw = open_visible meta' l raw.
Proof.
  intros Ha. unfold open_visible. rewrite <- (agree_on_visible l meta meta' raw Ha).
  apply list_filter_ext_in. intros id Hid%located_visible.
  by rewrite (agree_on_open l meta meta' id Ha Hid).
Qed.

Lemma sort_by_created_ext meta meta' ids :
  (forall id, id ∈ ids -> m_created_at <$> meta !! id = m_created_at <$> meta' !! id) ->
  sort_by_created meta ids = sort_by_created meta' ids.
Proof.
  intros H. unfold sort_by_created. do 2 f_equal. apply list_fmap_ext.
  intros i id Hid. cbn. rewrite H; [done|]. by eapply list_elem_of_lookup_2.
Qed.

Lemma tail_of_ext meta meta' S S' seen seen' :
  base.filter (fun id => id ∉ seen) S = base.filter (fun id => id ∉ seen') S' ->
  (forall id, id ∈ S -> id ∉ seen ->
              m_created_at <$> meta !! id = m_created_at <$> meta' !! id) ->
  tail_of meta S seen = tail_of meta' S' seen'.
Proof.
  intros HS Hk. unfold tail_of. rewrite <- HS. apply sort_by_created_ext.
  intros id. rewrite elem_of_elements, elem_of_filter. naive_solver.
Qed.

Lemma agree_on_projection l meta meta' raw :
  agree_on l meta meta' -> open_projection meta l raw = open_projection meta' l raw.
Proof.
  intros Ha. unfold open_projection.
  rewrite (agree_on_open_visible l meta meta' raw Ha), (agree_on_visible l meta meta' raw Ha).
  f_equal. apply tail_of_ext.
  - f_equal. apply set_eq. intros id. rewrite !elem_of_open_ids. unfold located_open.
    split; intros (m & E & Hl & Ho); exists m; (split; [by apply (Ha id m Hl)|done]).
  - intros id (m & E & Hl & _)%elem_of_open_ids _. by rewrite E, (proj1 (Ha id m Hl) E).
Qed.
End facts.
