(* ===== verification/ProjectionFacts.v ===== *)
(** What one edit of the mirrors does to the open projection: dropping and
    re-placing an item's entries, the anchor a target index resolves to, the
    exactness of [plan_target], and the membership sets under [set_meta],
    [set_open] and [remove_item]. *)
From S2P Require Import Prelude.
From S2P Require Import Loro.
From S2P Require Import Lifecycle.
From S2P Require Import Registers.
From S2P Require Import Projection.

(** ** One item changes *)

Section steps.
Implicit Types (meta : gmap string ItemMeta) (raw : list (option OrderEntry)).

Definition canon_open meta (l : string) (e : option OrderEntry) : option string :=
  match canon meta l e with
  | Some id => if meta_open meta id then Some id else None
  | None => None
  end.

(** Container entries that are not about [id]. *)
Definition others (id : string) raw : list (option OrderEntry) :=
  base.filter (fun e => entry_item_id <$> e <> Some id) raw.

(** The metas agree except perhaps at [id]. *)
Definition same_but (id : string) meta meta' : Prop :=
  forall j, j <> id -> meta !! j = meta' !! j.

Definition without (id : string) (ids : list string) : list string :=
  base.filter (fun x => x <> id) ids.

Lemma open_visible_alt meta l raw :
  open_visible meta l raw = dedup (omap (canon_open meta l) raw).
Proof.
  unfold open_visible, visible. rewrite filter_dedup. f_equal.
  induction raw as [|e raw IH]; [done|]. cbn. unfold canon_open at 1.
  destruct (canon meta l e) as [id|]; [|done].
  rewrite filter_cons. destruct (meta_open meta id) eqn:Eo.
  - rewrite decide_True by done. by rewrite IH.
  - case_decide as Hd; [destruct Hd|done].
Qed.

Lemma canon_open_Some meta l e id :
  canon_open meta l e = Some id <->
  exists m, meta !! id = Some m /\ m_list_id m = l /\ m_open m = true
            /\ e = Some (mkEntry id (m_placement_id m)).
Proof.
  unfold canon_open. destruct (canon meta l e) as [j|] eqn:E.
  - apply canon_Some in E as (m & Em & Hl & ->). unfold meta_open. rewrite Em.
    destruct (m_open m) eqn:Eo; (split; [|intros (m' & E' & _ & Ho & [= -> _])]).
    + intros [= ->]. eauto 6.
    + done.
    + done.
    + congruence.
  - split; [done|]. intros (m & Em & Hl & Ho & ->).
    assert (canon meta l (Some (mkEntry id (m_placement_id m))) = Some id) as E'.
    { apply canon_Some. eauto. }
    congruence.
Qed.

Lemma elem_of_canon_open meta l raw id :
  id ∈ omap (canon_open meta l) raw <->
  exists m, meta !! id = Some m /\ m_list_id m = l /\ m_open m = true
            /\ Some (mkEntry id (m_placement_id m)) ∈ raw.
Proof.
  rewrite list_elem_of_omap. setoid_rewrite canon_open_Some. naive_solver.
Qed.

Lemma canon_open_others meta meta' l raw raw' id :
  same_but id meta meta' -> others id raw = others id raw' ->
  without id (omap (canon_open meta l) raw) = without id (omap (canon_open meta' l) raw').
Proof.
  intros Hs Ho.
  assert (Hm : forall meta raw, without id (omap (canon_open meta l) raw)
                                = omap (canon_open meta l) (others id raw)).
  { clear. intros meta raw. induction raw as [|e raw IH]; [done|].
    unfold others, without in *. rewrite filter_cons. cbn [omap list_omap].
    destruct (canon_open meta l e) as [j|] eqn:Ej.
    - pose proof Ej as (m & _ & _ & _ & ->)%canon_open_Some. cbn.
      case_decide; case_decide; try congruence; cbn [omap list_omap]; [|exact IH].
      rewrite Ej. f_equal. exact IH.
    - case_decide; [|exact IH]. cbn [omap list_omap]. rewrite Ej. exact IH. }
  rewrite !Hm, <- Ho.
  assert (Hne : forall e, e ∈ others id raw -> canon_open meta l e = canon_open meta' l e).
  { intros e [He _]%list_elem_of_filter. apply option_eq. intros j. rewrite !canon_open_Some.
    split; intros (m & Em & Hl & Hop & ->); cbn in He; exists m;
      (split; [by first [rewrite <- Hs|rewrite Hs]; [|congruence] |done]). }
  clear -Hne. induction (others id raw) as [|e k IH]; [done|]. cbn.
  rewrite Hne by set_solver. rewrite IH by set_solver. done.
Qed.

Lemma open_visible_others meta meta' l raw raw' id :
  same_but id meta meta' -> others id raw = others id raw' ->
  without id (open_visible meta l raw) = without id (open_visible meta' l raw').
Proof.
  intros Hs Ho. rewrite !open_visible_alt. unfold without. rewrite !filter_dedup.
  f_equal. by apply canon_open_others.
Qed.

Lemma visible_others meta meta' l raw raw' id j :
  same_but id meta meta' -> others id raw = others id raw' -> j <> id ->
  j ∈ visible meta l raw <-> j ∈ visible meta' l raw'.
Proof.
  intros Hs Ho Hj. rewrite !elem_of_visible. rewrite (Hs j Hj).
  assert (Hr : forall p, Some (mkEntry j p) ∈ raw <-> Some (mkEntry j p) ∈ raw').
  { intros p.
    assert (Hi : forall raw, Some (mkEntry j p) ∈ raw <-> Some (mkEntry j p) ∈ others id raw).
    { intros r. unfold others. rewrite list_elem_of_filter. cbn. naive_solver. }
    by rewrite (Hi raw), (Hi raw'), Ho. }
  split; intros (m & Em & Hl & Hin); exists m; split_and!; try done; by apply Hr.
Qed.

Lemma sort_by_created_filter meta (P : string -> Prop) `{!forall x, Decision (P x)} ids :
  base.filter P (sort_by_created meta ids) = sort_by_created meta (base.filter P ids).
Proof.
  unfold sort_by_created.
  assert (Hf : forall k : list (Z * string),
             base.filter P (snd <$> k) = snd <$> base.filter (fun x => P x.2) k).
  { intros k. induction k as [|x k IH]; [done|]. rewrite fmap_cons, !filter_cons.
    case_decide; [by rewrite fmap_cons, IH|done]. }
  rewrite Hf, merge_sort_filter by apply _. do 2 f_equal.
  induction ids as [|x ids IH]; [done|]. rewrite fmap_cons, !filter_cons. cbn.
  case_decide; [by rewrite fmap_cons, IH|done].
Qed.

Lemma sort_by_created_Permutation_eq meta ids ids' :
  ids ≡ₚ ids' -> sort_by_created meta ids = sort_by_created meta ids'.
Proof.
  intros Hp. unfold sort_by_created. f_equal.
  apply (StronglySorted_unique key_le); [(apply StronglySorted_merge_sort; apply _)..|].
  by rewrite !merge_sort_Permutation, Hp.
Qed.

Lemma without_app id ids ids' : without id (ids ++ ids') = without id ids ++ without id ids'.
Proof. apply filter_app. Qed.

Lemma tail_of_without meta S seen id :
  without id (tail_of meta S seen) = tail_of meta (S ∖ {[id]}) seen.
Proof.
  unfold tail_of, without. rewrite sort_by_created_filter.
  apply sort_by_created_Permutation_eq. apply NoDup_Permutation.
  - apply NoDup_filter, NoDup_elements.
  - apply NoDup_elements.
  - intros x. rewrite list_elem_of_filter, !elem_of_elements, !elem_of_filter. set_solver.
Qed.

(** An edit of [id]'s meta and entries leaves the order of the others. *)
Lemma projection_others meta meta' l raw raw' id :
  same_but id meta meta' -> others id raw = others id raw' ->
  without id (open_projection meta l raw) = without id (open_projection meta' l raw').
Proof.
  intros Hs Ho. unfold open_projection. rewrite !without_app.
  f_equal; [by apply open_visible_others|].
  rewrite !tail_of_without. apply tail_of_ext.
  - apply set_eq. intros j. rewrite !elem_of_filter, !elem_of_difference, !elem_of_open_ids,
      !elem_of_list_to_set, elem_of_singleton.
    destruct (decide (j = id)) as [->|Hj]; [naive_solver|].
    rewrite (visible_others _ _ _ _ _ _ _ Hs Ho Hj). unfold located_open. by rewrite (Hs j Hj).
  - intros j [_ Hj]%elem_of_difference _. rewrite elem_of_singleton in Hj. by rewrite (Hs j Hj).
Qed.

Lemma without_id id ids : id ∉ ids -> without id ids = ids.
Proof. intros Hid. apply list_filter_all. intros x Hx ->. done. Qed.

Lemma elem_of_without id ids x : x ∈ without id ids <-> x <> id /\ x ∈ ids.
Proof. unfold without. by rewrite list_elem_of_filter. Qed.

Lemma NoDup_without id ids : NoDup ids -> NoDup (without id ids).
Proof. apply NoDup_filter. Qed.
End steps.

(** ** Placing an item and resolving an anchor *)

Section placing.
Implicit Types (meta : gmap string ItemMeta) (raw : list (option OrderEntry)).

(** The first canonical entry of an open item splits the visible order. *)
Lemma open_visible_split meta l m id raw p :
  meta !! id = Some m -> m_list_id m = l -> m_open m = true ->
  raw !! p = Some (Some (mkEntry id (m_placement_id m))) ->
  Some (mkEntry id (m_placement_id m)) ∉ take p raw ->
  exists W, open_visible meta l raw = open_visible meta l (take p raw) ++ id :: W
            /\ id ∉ open_visible meta l (take p raw) ++ W.
Proof.
  intros Em Hl Ho Hp Hnp. pose proof (NoDup_open_visible meta l raw) as Hnd.
  assert (Hid : id ∉ omap (canon_open meta l) (take p raw)).
  { rewrite elem_of_canon_open. naive_solver. }
  assert (Hc : canon_open meta l (Some (mkEntry id (m_placement_id m))) = Some id).
  { apply canon_open_Some. eauto 6. }
  rewrite !open_visible_alt in *. revert Hnd Hid. clear Hnp.
  pose proof (eq_sym (take_drop_middle raw p _ Hp)) as Hraw. clear Hp. revert Hraw.
  generalize (take p raw) (drop (S p) raw). intros X Y -> Hnd Hid. revert Hnd.
  rewrite omap_app, dedup_app. cbn [omap list_omap]. rewrite Hc.
  unfold dedup at 2 4. cbn [dedup_seen]. rewrite decide_False by set_solver.
  rewrite filter_cons_True by done. intros Hnd. eexists. split; [reflexivity|].
  apply NoDup_app in Hnd as (_ & H1 & H2). apply NoDup_cons in H2 as [H2 _].
  rewrite elem_of_app, elem_of_dedup. naive_solver.
Qed.

Lemma insert_at_without id ids V W :
  ids = V ++ id :: W -> id ∉ V ++ W -> ids = insert_at (length V) id (without id ids).
Proof.
  intros -> Hid. rewrite without_app. unfold without at 2. rewrite filter_cons_False by tauto.
  fold (without id W). rewrite <- without_app, without_id by done.
  unfold insert_at. by rewrite take_app_length, drop_app_length.
Qed.

Lemma open_visible_entry_backed meta l m id raw p :
  meta !! id = Some m -> m_list_id m = l -> m_open m = true ->
  raw !! p = Some (Some (mkEntry id (m_placement_id m))) ->
  Some (mkEntry id (m_placement_id m)) ∉ take p raw ->
  open_visible meta l raw =
    insert_at (length (open_visible meta l (take p raw))) id
      (without id (open_visible meta l raw)) /\
  open_projection meta l raw =
    insert_at (length (open_visible meta l (take p raw))) id
      (without id (open_projection meta l raw)).
Proof.
  intros Em Hl Ho Hp Hnp.
  destruct (open_visible_split meta l m id raw p) as (W & HW & Hid); try done.
  split; [by eapply insert_at_without|].
  unfold open_projection.
  eapply (insert_at_without _ _ _ (W ++ _)).
  - rewrite HW, <- app_assoc. reflexivity.
  - rewrite app_assoc, elem_of_app. intros [?|Ht]; [done|].
    apply elem_of_tail_of in Ht as [_ Ht]. apply Ht. rewrite elem_of_list_to_set.
    assert (id ∈ open_visible meta l raw) as Hv%elem_of_open_visible; [|tauto].
    rewrite HW. set_solver.
Qed.

(** [anchor_index] is the target among the entries less the moving one. *)
Lemma anchor_index_Some seq target (exclude : option string) id a :
  NoDup seq -> (N.of_nat (length seq) <= usize_max)%N ->
  (exclude = Some id \/ exclude = None /\ id ∉ seq) ->
  get_usize seq (anchor_index seq target exclude) = Some a ->
  a <> id /\ without id seq !! N.to_nat target = Some a.
Proof.
  intros Hnd Hfit Hex. rewrite get_usize_Some. unfold anchor_index.
  destruct (match exclude with Some e => position_of e seq | None => None end)
    as [c|] eqn:Ec.
  - destruct Hex as [->|[-> _]]; [|done]. apply position_of_Some in Ec; [|done].
    pose proof (lookup_lt_Some _ _ _ Ec) as Hc.
    assert (Hs : seq = take c seq ++ id :: drop (S c) seq) by (by rewrite take_drop_middle).
    assert (Hid : id ∉ take c seq ++ drop (S c) seq).
    { rewrite Hs in Hnd. apply NoDup_app in Hnd as (_ & H1 & H2%NoDup_cons).
      rewrite elem_of_app. set_solver. }
    assert (Hw : without id seq = take c seq ++ drop (S c) seq).
    { rewrite Hs at 1. rewrite without_app. unfold without at 2.
      rewrite filter_cons_False by tauto. fold (without id (drop (S c) seq)).
      by rewrite <- without_app, without_id. }
    case_match eqn:Ecmp; intros Ha.
    + apply N.leb_le in Ecmp.
      assert (Hi : N.to_nat (usize_saturating_add target 1) = S (N.to_nat target)).
      { pose proof (lookup_lt_Some _ _ _ Ha). unfold usize_saturating_add in *. lia. }
      rewrite Hi in Ha. split.
      * intros ->. pose proof (NoDup_lookup _ _ _ _ Hnd Ec Ha). lia.
      * rewrite Hw, lookup_app_r; rewrite length_take_le by lia; [|lia].
        rewrite lookup_drop. replace (S c + (N.to_nat target - c)) with (S (N.to_nat target))
          by lia. done.
    + apply N.leb_gt in Ecmp. split.
      * intros ->. pose proof (NoDup_lookup _ _ _ _ Hnd Ec Ha). lia.
      * rewrite Hw, lookup_app_l by (rewrite length_take_le; lia).
        by rewrite lookup_take_lt by lia.
  - intros Ha.
    assert (Hid : id ∉ seq).
    { destruct Hex as [->|[_ ?]]; [|done]. intros Hi.
      apply list_elem_of_lookup in Hi as (k & Hk).
      apply position_of_Some in Hk; congruence. }
    rewrite without_id by done. split; [|done]. intros ->.
    apply Hid. by eapply list_elem_of_lookup_2.
Qed.

Lemma canonical_raw_pos_Some idx l a p :
  canonical_raw_pos idx l a = Some p <->
  exists m, ix_meta idx !! a = Some m /\ m_list_id m = l
            /\ raw_at idx l !! p = Some (Some (mkEntry a (m_placement_id m)))
            /\ Some (mkEntry a (m_placement_id m)) ∉ take p (raw_at idx l).
Proof.
  unfold canonical_raw_pos, raw_at.
  destruct (ix_meta idx !! a) as [m|]; [|naive_solver].
  case_decide as Hl; [|naive_solver].
  destruct (ix_raw_orders idx !! l) as [raw|]; cbn.
  - rewrite position_Some. split.
    + intros (x & Hx & ->%bool_decide_eq_true & Hn). exists m. split_and!; try done.
      intros Hi. by apply Hn, bool_decide_eq_false in Hi.
    + intros (m' & [= <-] & _ & Hx & Hn). eexists. split_and!; [exact Hx| |].
      * by apply bool_decide_eq_true.
      * intros y Hy. apply bool_decide_eq_false. by intros ->.
  - split; [done|]. intros (? & _ & _ & Hx & _). by rewrite lookup_nil in Hx.
Qed.

(** An open anchor's place among the entries less [id]. *)
Lemma anchor_position idx l id a p :
  located_open (ix_meta idx) l a -> a <> id -> canonical_raw_pos idx l a = Some p ->
  without id (open_projection (ix_meta idx) l (raw_at idx l))
    !! length (without id (open_visible (ix_meta idx) l (take p (raw_at idx l)))) = Some a.
Proof.
  intros (m' & Em' & Hl & Ho) Ha (m & Em & _ & Hp & Hn)%canonical_raw_pos_Some.
  assert (m' = m) as -> by congruence. subst l.
  destruct (open_visible_split (ix_meta idx) (m_list_id m) m a (raw_at idx (m_list_id m)) p)
    as (W & HW & _); try done.
  unfold open_projection. rewrite HW, !without_app, <- app_assoc.
  rewrite lookup_app_r by done. rewrite Nat.sub_diag. unfold without at 1.
  by rewrite filter_cons_True.
Qed.
End placing.

(** ** [plan_target] is exact *)

Definition fits (idx : ProjectionIndex) (l : string) : Prop :=
  (N.of_nat (length (open_at idx l)) < usize_max)%N.

(** The splice position promised by a plan for [id] is the number of open
    entry-backed items before the raw position. *)
Definition plan_ok (idx : ProjectionIndex) (l id : string) (plan : TargetPlan) : Prop :=
  raw_pos plan <= length (raw_at idx l) /\
  forall pos, open_pos plan = Some pos ->
    N.to_nat (N.min pos (N.of_nat (length (without id (open_at idx l))))) =
    length (without id (open_visible (ix_meta idx) l (take (raw_pos plan) (raw_at idx l)))).

Lemma tail_is_empty_spec idx l :
  index_wf idx -> tail_is_empty idx l = true ->
  open_projection (ix_meta idx) l (raw_at idx l)
  = open_visible (ix_meta idx) l (raw_at idx l).
Proof.
  intros Hwf. unfold tail_is_empty. rewrite Nat.eqb_eq, (wf_counts _ Hwf).
  rewrite (open_ids_spec _ _ (wf_open_members _ Hwf)). intros Hsz.
  assert (Hl : length (open_projection (ix_meta idx) l (raw_at idx l))
               = size (open_ids (ix_meta idx) l)).
  { rewrite <- (size_list_to_set (C:=gset string)) by apply NoDup_open_projection.
    f_equal. apply set_eq. intros x.
    by rewrite elem_of_list_to_set, elem_of_open_projection, elem_of_open_ids. }
  rewrite Hsz in Hl. unfold open_projection in *. rewrite length_app in Hl.
  destruct (tail_of _ _ _); cbn in Hl; [by rewrite app_nil_r|lia].
Qed.

Lemma plan_target_ok idx l target id exclude :
  index_wf idx -> fits idx l ->
  (exclude = Some id \/ exclude = None /\ id ∉ open_at idx l) ->
  plan_ok idx l id (plan_target idx l target true exclude).
Proof.
  intros Hwf Hfit Hex. unfold plan_target. cbn [negb].
  pose proof (wf_open _ Hwf l) as Hopen. unfold fits in Hfit.
  assert (Hnd : NoDup (open_at idx l)) by (rewrite Hopen; apply NoDup_open_projection).
  assert (Hnw : length (without id (open_at idx l)) <= length (open_at idx l))
    by apply length_filter.
  destruct (get_usize _ _) as [a|] eqn:Ea.
  - apply (anchor_index_Some _ _ _ id) in Ea as [Hai Ha]; [|done|lia|done].
    destruct (canonical_raw_pos idx l a) as [p|] eqn:Ep; [|split; cbn; [lia|done]].
    pose proof Ep as (m & _ & _ & Hp%lookup_lt_Some & _)%canonical_raw_pos_Some.
    split; cbn; [lia|]. intros pos [= <-].
    pose proof (lookup_lt_Some _ _ _ Ha) as Hlt.
    rewrite N.min_l by lia.
    assert (Hloc : located_open (ix_meta idx) l a).
    { rewrite <- (elem_of_open_projection _ _ (raw_at idx l)), <- Hopen.
      apply list_elem_of_lookup_2 in Ha. by apply elem_of_without in Ha as [_ ?]. }
    pose proof (anchor_position idx l id a p Hloc Hai Ep) as Ha'. rewrite <- Hopen in Ha'.
    by eapply NoDup_lookup; [apply NoDup_without| |].
  - split; cbn; [lia|]. intros pos. destruct (tail_is_empty idx l) eqn:Et; [|done].
    intros [= <-]. rewrite N.min_r by lia. rewrite Nat2N.id.
    rewrite firstn_all, Hopen. by rewrite tail_is_empty_spec.
Qed.

(** ** Membership sets *)

Lemma sets_ok_iff sets P Q : (forall l id, P l id <-> Q l id) -> sets_ok sets P -> sets_ok sets Q.
Proof. intros H [Hs Hn]. split; [|done]. intros l id. by rewrite Hs. Qed.

Lemma sets_ok_unset sets P l id :
  sets_ok sets P ->
  sets_ok (unset_member sets l id) (fun l' j => P l' j /\ ~ (l' = l /\ j = id)).
Proof.
  intros [Hs Hn]. unfold unset_member. destruct (sets !! l) as [s|] eqn:E.
  - assert (Hl : forall j, j ∈ s <-> P l j) by (intros j; rewrite <- Hs; unfold set_at; by rewrite E).
    case_decide as He; split; intros l'.
    + intros j. unfold set_at. rewrite lookup_delete. case_decide as Hll; cbn.
      * subst l'. rewrite <- Hl. set_solver.
      * fold (set_at sets l'). rewrite Hs. naive_solver.
    + rewrite lookup_delete. by case_decide.
    + intros j. unfold set_at. rewrite lookup_insert. case_decide as Hll; cbn.
      * subst l'. rewrite <- Hl. set_solver.
      * fold (set_at sets l'). rewrite Hs. naive_solver.
    + rewrite lookup_insert. case_decide; [congruence|done].
  - split; [|done]. intros l' j. rewrite Hs. split; [|tauto]. intros Hp. split; [done|].
    intros [-> ->]. apply Hs in Hp. unfold set_at in Hp. rewrite E in Hp. set_solver.
Qed.

Lemma sets_ok_add sets P l id :
  sets_ok sets P -> sets_ok (add_member sets l id) (fun l' j => P l' j \/ (l' = l /\ j = id)).
Proof.
  intros [Hs Hn]. unfold add_member. split; intros l'.
  - intros j. unfold set_at at 1. rewrite lookup_insert. case_decide as Hl; cbn.
    + subst l'. rewrite <- Hs. set_solver.
    + fold (set_at sets l'). rewrite Hs. naive_solver.
  - rewrite lookup_insert. case_decide; [|done]. intros [= Hx].
    assert (id ∈ ({[id]} ∪ set_at sets l)) as Hi by set_solver. rewrite Hx in Hi. set_solver.
Qed.

Definition index_sets (idx : ProjectionIndex) : Prop :=
  sets_ok (ix_members idx) (located (ix_meta idx))
  /\ sets_ok (ix_open_members idx) (located_open (ix_meta idx)).

Lemma set_meta_frame idx id m :
  ix_meta (set_meta idx id m) = <[id := m]> (ix_meta idx)
  /\ ix_raw_orders (set_meta idx id m) = ix_raw_orders idx
  /\ ix_open_by_list (set_meta idx id m) = ix_open_by_list idx
  /\ ix_open_visible_counts (set_meta idx id m) = ix_open_visible_counts idx.
Proof. unfold set_meta. by destruct (ix_meta idx !! id). Qed.

Lemma located_insert meta id m l j :
  located (<[id := m]> meta) l j <->
  (j <> id /\ located meta l j) \/ (j = id /\ l = m_list_id m).
Proof.
  unfold located. setoid_rewrite lookup_insert_Some.
  destruct (decide (j = id)) as [->|]; naive_solver.
Qed.

Lemma located_open_insert meta id m l j :
  located_open (<[id := m]> meta) l j <->
  (j <> id /\ located_open meta l j) \/ (j = id /\ l = m_list_id m /\ m_open m = true).
Proof.
  unfold located_open. setoid_rewrite lookup_insert_Some.
  destruct (decide (j = id)) as [->|]; naive_solver.
Qed.

Lemma located_at meta id old l : meta !! id = Some old -> located meta l id <-> l = m_list_id old.
Proof. intros E. unfold located. rewrite E. naive_solver. Qed.

Lemma located_open_at meta id old l :
  meta !! id = Some old -> located_open meta l id <-> l = m_list_id old /\ m_open old = true.
Proof. intros E. unfold located_open. rewrite E. naive_solver. Qed.

Lemma not_located meta id l : meta !! id = None -> ~ located meta l id.
Proof. intros E (m & Em & _). congruence. Qed.

Lemma located_open_located meta id l : located_open meta l id -> located meta l id.
Proof. intros (m & Em & Hl & _). exists m. done. Qed.

(** Case analysis on which of two ids and lists coincide. *)
Ltac by_ids j id :=
  destruct (decide (j = id)) as [->|]; [|naive_solver].

(** Follow the membership edits of the goal back to the sets of [H]. *)
Ltac sets_step H :=
  eapply sets_ok_iff;
  [|repeat first [exact H | eapply sets_ok_add | eapply sets_ok_unset]];
  cbn.

Lemma set_meta_sets idx id m : index_sets idx -> index_sets (set_meta idx id m).
Proof.
  intros [Hm Ho]. unfold index_sets. destruct (set_meta_frame idx id m) as (-> & _ & _ & _).
  unfold set_meta. destruct (ix_meta idx !! id) as [old|] eqn:E; cbn.
  - pose proof (fun l => located_at _ _ _ l E) as Hloc.
    pose proof (fun l => located_open_at _ _ _ l E) as Hlop. split.
    + case_decide as Hl; sets_step Hm; intros l j; rewrite located_insert;
        by_ids j id; rewrite ?Hloc; naive_solver.
    + destruct (decide (m_list_id old = m_list_id m)) as [Hl|Hl];
        [rewrite bool_decide_eq_false_2 by tauto|rewrite bool_decide_eq_true_2 by done];
        destruct (m_open old) eqn:Eo, (m_open m) eqn:Em; cbn; sets_step Ho;
        intros l j; rewrite located_open_insert, Em;
        (destruct (decide (j = id)) as [->|]; [rewrite ?Hlop, ?Hl|]); intuition congruence.
  - pose proof (fun l => not_located _ _ l E) as Hloc. split.
    + sets_step Hm. intros l j. rewrite located_insert. by_ids j id. naive_solver.
    + assert (Hlop : forall l, ~ located_open (ix_meta idx) l id).
      { intros l ?%located_open_located. by eapply Hloc. }
      destruct (m_open m) eqn:Em; sets_step Ho; intros l j; rewrite located_open_insert, Em;
        by_ids j id; naive_solver.
Qed.

Lemma set_open_spec idx id open m :
  ix_meta idx !! id = Some m ->
  exists om, set_open idx id open =
    (mkIndex (<[id := mkMeta (m_list_id m) (m_placement_id m) open (m_created_at m)]> (ix_meta idx))
       (ix_members idx) om (ix_raw_orders idx) (ix_open_by_list idx)
       (ix_open_visible_counts idx), Some (m_list_id m, m_open m)).
Proof. intros E. unfold set_open. rewrite E. eauto. Qed.

Lemma set_open_sets idx id open : index_sets idx -> index_sets (set_open idx id open).1.
Proof.
  intros [Hm Ho]. unfold set_open, index_sets.
  destruct (ix_meta idx !! id) as [m|] eqn:E; [|done]. cbn.
  pose proof (fun l => located_at _ _ _ l E) as Hloc.
  pose proof (fun l => located_open_at _ _ _ l E) as Hlop. split.
  - eapply sets_ok_iff; [|exact Hm]. intros l j. rewrite located_insert. by_ids j id.
    rewrite Hloc. cbn. naive_solver.
  - destruct open, (m_open m) eqn:Em; cbn; sets_step Ho; intros l j;
      rewrite located_open_insert; by_ids j id; rewrite ?Hlop; cbn; intuition congruence.
Qed.

Lemma remove_item_frame idx id :
  ix_meta (remove_item idx id) = delete id (ix_meta idx)
  /\ ix_raw_orders (remove_item idx id) = ix_raw_orders idx
  /\ ix_open_by_list (remove_item idx id) = ix_open_by_list idx
  /\ ix_open_visible_counts (remove_item idx id) = ix_open_visible_counts idx.
Proof.
  unfold remove_item. destruct (ix_meta idx !! id) eqn:E; [done|].
  by rewrite delete_id.
Qed.

Lemma located_delete meta id l j : located (delete id meta) l j <-> j <> id /\ located meta l j.
Proof. unfold located. setoid_rewrite lookup_delete_Some. naive_solver. Qed.

Lemma located_open_delete meta id l j :
  located_open (delete id meta) l j <-> j <> id /\ located_open meta l j.
Proof. unfold located_open. setoid_rewrite lookup_delete_Some. naive_solver. Qed.

Lemma remove_item_sets idx id : index_sets idx -> index_sets (remove_item idx id).
Proof.
  intros [Hm Ho]. unfold index_sets. destruct (remove_item_frame idx id) as (-> & _ & _ & _).
  unfold remove_item. destruct (ix_meta idx !! id) as [old|] eqn:E; cbn.
  - pose proof (fun l => located_at _ _ _ l E) as Hloc.
    pose proof (fun l => located_open_at _ _ _ l E) as Hlop. split.
    + sets_step Hm. intros l j. rewrite located_delete.
      by_ids j id. rewrite Hloc. naive_solver.
    + destruct (m_open old) eqn:Eo; sets_step Ho; intros l j; rewrite located_open_delete;
        by_ids j id; rewrite Hlop; intuition congruence.
  - by rewrite delete_id.
Qed.
