(* ===== verification/ProjectionOps.v ===== *)
(** Every index update keeps the projection index well formed: after each
    mutation's block the incremental arrays are again the open projection of
    the mirrors. *)
From S2P Require Import Prelude.
From S2P Require Import Loro.
From S2P Require Import Lifecycle.
From S2P Require Import Registers.
From S2P Require Import Projection.
From S2P Require Import ProjectionFacts.

(** The index agrees with its mirrors on the visible counts of the lists of
    [okc] and the open arrays of the lists of [oko]. *)
Record wf_on (okc oko : string -> Prop) (idx : ProjectionIndex) : Prop := {
  on_sets : index_sets idx;
  on_open : forall l, oko l -> open_at idx l = open_projection (ix_meta idx) l (raw_at idx l);
  on_open_ne : forall l, ix_open_by_list idx !! l <> Some [];
  on_counts : forall l, okc l ->
    count_at idx l = length (open_visible (ix_meta idx) l (raw_at idx l));
  on_counts_ne : forall l, ix_open_visible_counts idx !! l <> Some 0;
}.

Definition every (l : string) : Prop := True.

Lemma index_wf_on idx : index_wf idx <-> wf_on every every idx.
Proof.
  split.
  - intros [? ? ? ? ? ?]. split; try done; intros; auto.
  - intros [[? ?] ? ? ? ?]. split; try done; intros; auto using I.
    + by apply on_open0.
    + by apply on_counts0.
Qed.

(** The readers of an index look at one field each. *)
Lemma open_at_ext idx idx' l :
  ix_open_by_list idx = ix_open_by_list idx' -> open_at idx l = open_at idx' l.
Proof. unfold open_at. by intros ->. Qed.
Lemma raw_at_ext idx idx' l :
  ix_raw_orders idx = ix_raw_orders idx' -> raw_at idx l = raw_at idx' l.
Proof. unfold raw_at. by intros ->. Qed.
Lemma count_at_ext idx idx' l :
  ix_open_visible_counts idx = ix_open_visible_counts idx' -> count_at idx l = count_at idx' l.
Proof. unfold count_at. by intros ->. Qed.
Lemma index_sets_ext idx idx' :
  ix_meta idx = ix_meta idx' -> ix_members idx = ix_members idx' ->
  ix_open_members idx = ix_open_members idx' -> index_sets idx' -> index_sets idx.
Proof. unfold index_sets. by intros -> -> ->. Qed.

(** ** The elementary edits *)

Lemma refresh_open_on okc oko idx l :
  wf_on okc oko idx ->
  wf_on (fun j => j = l \/ okc j) (fun j => j = l \/ oko j) (refresh_open idx l).1.
Proof.
  intros [Hs Ho Hone Hc Hcne]. destruct Hs as [Hm Hop]. rewrite refresh_open_spec by done.
  split; cbn.
  - done.
  - intros j Hj. unfold open_at, raw_at; cbn. rewrite lookup_put_list.
    case_decide as E; [by subst|]. destruct Hj as [->|Hj]; [done|]. by apply Ho.
  - by apply put_list_ne.
  - intros j Hj. unfold count_at, raw_at; cbn. rewrite lookup_put_count.
    case_decide as E; [by subst|]. destruct Hj as [->|Hj]; [done|]. by apply Hc.
  - by apply put_count_ne.
Qed.

Lemma refresh_open_wf idx l :
  wf_on (fun j => j <> l) (fun j => j <> l) idx ->
  index_wf (refresh_open idx l).1
  /\ (refresh_open idx l).2 = open_at (refresh_open idx l).1 l
  /\ ix_meta (refresh_open idx l).1 = ix_meta idx
  /\ ix_raw_orders (refresh_open idx l).1 = ix_raw_orders idx.
Proof.
  intros Hwf. split_and!.
  - apply index_wf_on. pose proof (refresh_open_on _ _ _ l Hwf) as [? Ho ? Hc ?].
    split; try done; intros j _; [apply Ho|apply Hc]; destruct (decide (j = l)); auto.
  - destruct Hwf as [[Hm Hop] _ _ _ _]. rewrite refresh_open_spec by done.
    unfold open_at; cbn. rewrite lookup_put_list. by rewrite decide_True.
  - destruct Hwf as [[Hm Hop] _ _ _ _]. by rewrite refresh_open_spec.
  - destruct Hwf as [[Hm Hop] _ _ _ _]. by rewrite refresh_open_spec.
Qed.

Lemma count_at_bump idx l d j :
  count_at (bump_visible idx l d) j =
    if decide (l = j) then Z.to_nat (Z.max (Z.of_nat (count_at idx l) + d) 0)
    else count_at idx j.
Proof. unfold count_at at 1, bump_visible. cbn. by rewrite lookup_put_count. Qed.

Lemma open_at_splice_in idx l id at_ j :
  open_at (splice_open_in idx l id at_) j =
    if decide (l = j) then
      insert_at (N.to_nat (N.min at_ (N.of_nat (length (without id (open_at idx l))))))
        id (without id (open_at idx l))
    else open_at idx j.
Proof.
  unfold open_at at 1, splice_open_in. cbn. rewrite lookup_insert. by case_decide.
Qed.

Lemma open_at_splice_out idx l id j :
  open_at (splice_open_out idx l id) j =
    if decide (l = j) then without id (open_at idx l) else open_at idx j.
Proof.
  unfold splice_open_out. destruct (ix_open_by_list idx !! l) as [arr|] eqn:E.
  - unfold open_at at 1. cbn. rewrite lookup_put_list. case_decide; [|done].
    unfold open_at. by rewrite E.
  - case_decide; [|done]. subst. unfold open_at. by rewrite E.
Qed.

Lemma splice_in_ne idx l id at_ :
  (forall j, ix_open_by_list idx !! j <> Some []) ->
  forall j, ix_open_by_list (splice_open_in idx l id at_) !! j <> Some [].
Proof.
  intros H j. unfold splice_open_in. cbn. rewrite lookup_insert. case_decide; [|done].
  intros [= Hx]. unfold insert_at in Hx. by destruct (take _ _).
Qed.

Lemma splice_out_ne idx l id :
  (forall j, ix_open_by_list idx !! j <> Some []) ->
  forall j, ix_open_by_list (splice_open_out idx l id) !! j <> Some [].
Proof.
  intros H. unfold splice_open_out. destruct (ix_open_by_list idx !! l); [|done].
  by apply put_list_ne.
Qed.

Lemma splice_out_frame idx l id :
  ix_meta (splice_open_out idx l id) = ix_meta idx
  /\ ix_members (splice_open_out idx l id) = ix_members idx
  /\ ix_open_members (splice_open_out idx l id) = ix_open_members idx
  /\ ix_raw_orders (splice_open_out idx l id) = ix_raw_orders idx
  /\ ix_open_visible_counts (splice_open_out idx l id) = ix_open_visible_counts idx.
Proof. unfold splice_open_out. by destruct (ix_open_by_list idx !! l). Qed.

Lemma raw_at_set_raw idx l raw j :
  raw_at (set_raw idx l raw) j = if decide (l = j) then raw else raw_at idx j.
Proof. unfold raw_at at 1, set_raw. cbn. rewrite lookup_insert. by case_decide. Qed.

Lemma raw_at_insert idx l p e j :
  raw_at (raw_insert idx l p e) j =
    if decide (l = j) then insert_at (Nat.min p (length (raw_at idx l))) (Some e) (raw_at idx l)
    else raw_at idx j.
Proof. unfold raw_insert. by rewrite raw_at_set_raw. Qed.

(** ** Facts about [without] and the visible order *)

Lemma length_without id ids :
  NoDup ids -> length (without id ids) = length ids - (if decide (id ∈ ids) then 1 else 0).
Proof.
  induction 1 as [|x ids Hx Hnd IH]; [done|]. unfold without in *. rewrite filter_cons.
  destruct (decide (x = id)) as [->|Hne].
  - rewrite decide_False by tauto. rewrite decide_True by set_solver.
    fold (without id ids). rewrite without_id by done. cbn. lia.
  - rewrite decide_True by done. cbn. rewrite IH.
    destruct (decide (id ∈ ids)) as [Hi|Hi].
    + rewrite decide_True by set_solver. destruct ids; [set_solver|cbn; lia].
    + rewrite decide_False by set_solver. lia.
Qed.

Lemma canonical_visible idx l id :
  is_Some (canonical_raw_pos idx l id) <-> id ∈ visible (ix_meta idx) l (raw_at idx l).
Proof.
  rewrite elem_of_visible. split.
  - intros [p (m & Em & Hl & Hp & _)%canonical_raw_pos_Some]. exists m. split_and!; try done.
    by eapply list_elem_of_lookup_2.
  - intros (m & Em & Hl & Hin). unfold canonical_raw_pos. rewrite Em, decide_True by done.
    unfold raw_at in Hin. destruct (ix_raw_orders idx !! l) as [raw|] eqn:Er; cbn in Hin;
      [|set_solver]. unfold position.
    destruct (list_find_elem_of
                (fun e => Is_true (bool_decide (e = Some (mkEntry id (m_placement_id m)))))
                raw _ Hin) as [? ->]; [by apply bool_decide_spec|]. cbn. eauto.
Qed.

Lemma others_insert_at id i e raw :
  entry_item_id e = id -> others id (insert_at i (Some e) raw) = others id raw.
Proof.
  intros He. unfold others, insert_at. rewrite <- (take_drop i raw) at 3.
  rewrite !filter_app, filter_cons_False; [done|]. cbn. naive_solver.
Qed.

Lemma others_remove_at id i e raw :
  raw !! i = Some (Some e) -> entry_item_id e = id -> others id (remove_at i raw) = others id raw.
Proof.
  intros Hi He. unfold others, remove_at. rewrite <- (take_drop_middle raw i _ Hi) at 3.
  rewrite !filter_app, filter_cons_False; [done|]. cbn. naive_solver.
Qed.

Lemma others_idemp id raw : others id (others id raw) = others id raw.
Proof. unfold others. rewrite list_filter_filter. apply list_filter_iff. tauto. Qed.

Lemma agree_insert_other l id m m' meta :
  meta !! id = Some m \/ meta !! id = None /\ m = m' ->
  m_list_id m <> l -> m_list_id m' <> l -> agree_on l meta (<[id := m']> meta).
Proof.
  intros Hm Hl Hl' j x Hx. rewrite lookup_insert_Some.
  destruct (decide (id = j)) as [->|]; [|naive_solver].
  destruct Hm as [Hm|[Hm ->]]; naive_solver.
Qed.

Lemma same_but_insert id m meta : same_but id meta (<[id := m]> meta).
Proof. intros j Hj. by rewrite lookup_insert_ne. Qed.

Lemma same_but_delete id meta : same_but id meta (delete id meta).
Proof. intros j Hj. by rewrite lookup_delete_ne. Qed.

Lemma position_of_notin id ids : id ∉ ids -> position_of id ids = None.
Proof.
  intros Hid. apply position_None. intros x Hx. apply bool_decide_eq_false. congruence.
Qed.

Lemma open_index_of_at idx l id : open_index_of idx l id = position_of id (open_at idx l).
Proof. unfold open_index_of, open_at. by destruct (ix_open_by_list idx !! l). Qed.

(** An item no longer open in [l] leaves its projection and visible order. *)
Lemma item_leaves meta meta' l raw raw' id :
  same_but id meta meta' -> others id raw = others id raw' -> ~ located_open meta' l id ->
  open_projection meta' l raw' = without id (open_projection meta l raw)
  /\ open_visible meta' l raw' = without id (open_visible meta l raw).
Proof.
  intros Hs Ho Hn.
  rewrite (projection_others meta meta' l raw raw' id), (open_visible_others meta meta' l raw raw' id)
    by done.
  rewrite !without_id; [done| |]; rewrite ?elem_of_open_projection, ?elem_of_open_visible; tauto.
Qed.

(** [bump_visible] by -1 under a condition. *)
Definition bump_if (b : bool) (idx : ProjectionIndex) (l : string) : ProjectionIndex :=
  if b then bump_visible idx l (-1) else idx.

Lemma bump_if_frame b idx l :
  ix_meta (bump_if b idx l) = ix_meta idx
  /\ ix_members (bump_if b idx l) = ix_members idx
  /\ ix_open_members (bump_if b idx l) = ix_open_members idx
  /\ ix_raw_orders (bump_if b idx l) = ix_raw_orders idx
  /\ ix_open_by_list (bump_if b idx l) = ix_open_by_list idx.
Proof. by destruct b. Qed.

Lemma bump_if_ne b idx l :
  (forall j, ix_open_visible_counts idx !! j <> Some 0) ->
  forall j, ix_open_visible_counts (bump_if b idx l) !! j <> Some 0.
Proof. intros H. destruct b; [by apply put_count_ne|done]. Qed.

(** The count drops exactly when the leaving item was counted. *)
Lemma count_at_bump_if b idx l j V id :
  NoDup V -> count_at idx l = length V -> (b = true <-> id ∈ V) ->
  count_at (bump_if b idx l) j = if decide (l = j) then length (without id V) else count_at idx j.
Proof.
  intros Hnd Hc Hb. rewrite length_without by done. destruct b; cbn [bump_if].
  - rewrite count_at_bump, Hc. case_decide; [|done]. rewrite decide_True by (by apply Hb). lia.
  - case_decide; [subst|done]. rewrite decide_False; [lia|]. rewrite <- Hb. done.
Qed.

Lemma was_visible_spec idx l id m :
  ix_meta idx !! id = Some m -> m_list_id m = l ->
  m_open m && bool_decide (is_Some (canonical_raw_pos idx l id)) = true <->
  id ∈ open_visible (ix_meta idx) l (raw_at idx l).
Proof.
  intros Em Hl. rewrite andb_true_iff, bool_decide_eq_true, elem_of_open_visible, canonical_visible.
  rewrite (located_open_at _ _ _ _ Em). naive_solver.
Qed.

(** ** Lifecycle changes *)

(** Lists other than the item's own see neither its meta nor its entries. *)
Lemma far_lists idx id m m' l :
  index_wf idx -> ix_meta idx !! id = Some m -> l <> m_list_id m -> l <> m_list_id m' ->
  open_at idx l = open_projection (<[id := m']> (ix_meta idx)) l (raw_at idx l)
  /\ count_at idx l = length (open_visible (<[id := m']> (ix_meta idx)) l (raw_at idx l)).
Proof.
  intros Hwf Em Hl Hl'.
  assert (Ha : agree_on l (ix_meta idx) (<[id := m']> (ix_meta idx))).
  { eapply agree_insert_other; [left; exact Em|done..]. }
  rewrite (wf_open _ Hwf), (wf_counts _ Hwf).
  by rewrite (agree_on_projection _ _ _ _ Ha), (agree_on_open_visible _ _ _ _ Ha).
Qed.

Lemma close_wf idx id m om b :
  index_wf idx -> ix_meta idx !! id = Some m ->
  let m' := mkMeta (m_list_id m) (m_placement_id m) false (m_created_at m) in
  let idx1 := mkIndex (<[id := m']> (ix_meta idx)) (ix_members idx) om (ix_raw_orders idx)
                (ix_open_by_list idx) (ix_open_visible_counts idx) in
  index_sets idx1 ->
  (b = true <-> id ∈ open_visible (ix_meta idx) (m_list_id m) (raw_at idx (m_list_id m))) ->
  index_wf (splice_open_out (bump_if b idx1 (m_list_id m)) (m_list_id m) id).
Proof.
  intros Hwf Em m' idx1 Hs Hb. pose proof Hwf as [_ Ho Hone Hc Hcne]%index_wf_on.
  assert (Hn : ~ located_open (ix_meta idx1) (m_list_id m) id).
  { cbn. rewrite located_open_insert. naive_solver. }
  destruct (item_leaves (ix_meta idx) (ix_meta idx1) (m_list_id m)
              (raw_at idx (m_list_id m)) (raw_at idx (m_list_id m)) id) as [Hp Hv];
    [apply same_but_insert|done..|].
  destruct (bump_if_frame b idx1 (m_list_id m)) as (Hb1 & Hb2 & Hb3 & Hb4 & Hb5).
  destruct (splice_out_frame (bump_if b idx1 (m_list_id m)) (m_list_id m) id)
    as (Hf1 & Hf2 & Hf3 & Hf4 & Hf5).
  apply index_wf_on. split.
  - apply (index_sets_ext _ idx1); congruence.
  - intros l _. rewrite open_at_splice_out, Hf1, Hb1, (raw_at_ext _ idx) by (by rewrite Hf4, Hb4).
    rewrite !(open_at_ext (bump_if b idx1 (m_list_id m)) idx) by done.
    case_decide as Hl; [subst; by rewrite Hp, Ho|].
    apply (far_lists idx id m m' l Hwf Em); by apply not_eq_sym.
  - apply splice_out_ne. by rewrite Hb5.
  - intros l _. rewrite (count_at_ext _ (bump_if b idx1 (m_list_id m))) by done.
    rewrite Hf1, Hb1, (raw_at_ext _ idx) by (by rewrite Hf4, Hb4).
    erewrite count_at_bump_if; [|apply NoDup_open_visible|by apply Hc|exact Hb].
    case_decide as Hl; [subst; by rewrite Hv|].
    apply (far_lists idx id m m' l Hwf Em); by apply not_eq_sym.
  - rewrite Hf5. by apply bump_if_ne.
Qed.

Lemma openness_update_wf idx id open_now :
  index_wf idx ->
  let r := openness_update idx id open_now in
  index_wf r.1
  /\ ix_raw_orders r.1 = ix_raw_orders idx
  /\ ix_meta r.1 = (match ix_meta idx !! id with
                    | Some m => <[id := mkMeta (m_list_id m) (m_placement_id m) open_now
                                          (m_created_at m)]> (ix_meta idx)
                    | None => ix_meta idx
                    end)
  /\ forall m, ix_meta idx !! id = Some m -> r.2 = position_of id (open_at r.1 (m_list_id m)).
Proof.
  intros Hwf. pose proof Hwf as [Hs Ho Hone Hc Hcne]%index_wf_on. cbn zeta.
  unfold openness_update.
  destruct (ix_meta idx !! id) as [m|] eqn:Em;
    [|unfold set_open; rewrite Em; cbn; split_and!; try done].
  pose proof (set_open_sets idx id open_now Hs) as Hs'.
  destruct (set_open_spec idx id open_now m Em) as [om Hset]. rewrite Hset in *. cbn [fst snd] in *.
  set (idx1 := mkIndex _ _ _ _ _ _) in *.
  destruct open_now; cbn [negb]; [destruct (m_open m) eqn:Emo|].
  - assert (Hmeta : ix_meta idx1 = ix_meta idx).
    { apply insert_id. rewrite Em. destruct m; cbn in *. by subst. }
    cbn. split_and!; [|done|done|].
    + apply index_wf_on. split; try done; intros l _; rewrite Hmeta; [by apply Ho|by apply Hc].
    + intros m' [= <-]. apply open_index_of_at.
  - assert (Hon : wf_on (fun j => j <> m_list_id m) (fun j => j <> m_list_id m) idx1).
    { split; try done; intros l Hl; by apply (far_lists idx id m). }
    destruct (refresh_open_wf idx1 (m_list_id m) Hon) as (Hwf' & Ho' & Hm' & Hr').
    destruct (refresh_open idx1 (m_list_id m)) as [idx2 open]. cbn in *. subst open.
    split_and!; try done. by intros m' [= <-].
  - set (b := m_open m && _).
    assert (Hwf2 : index_wf (splice_open_out (bump_if b idx1 (m_list_id m)) (m_list_id m) id)).
    { apply (close_wf idx id m om b); [done..|].
      rewrite <- (was_visible_spec idx _ id m) by done. unfold b.
      rewrite !andb_true_iff, !bool_decide_eq_true, !canonical_visible, !elem_of_visible. cbn.
      setoid_rewrite lookup_insert. rewrite decide_True by done. naive_solver. }
    change (if b then bump_visible idx1 (m_list_id m) (-1) else idx1)
      with (bump_if b idx1 (m_list_id m)).
    cbn [fst snd].
    destruct (bump_if_frame b idx1 (m_list_id m)) as (Hb1 & _ & _ & Hb4 & _).
    destruct (splice_out_frame (bump_if b idx1 (m_list_id m)) (m_list_id m) id)
      as (Hf1 & _ & _ & Hf4 & _).
    split_and!; [done|by rewrite Hf4, Hb4|by rewrite Hf1, Hb1|].
    intros m' [= <-]. rewrite (wf_open _ Hwf2). symmetry. apply position_of_notin.
    rewrite elem_of_open_projection, Hf1, Hb1. cbn. rewrite located_open_insert. naive_solver.
Qed.

(** ** Adding a run of items *)

(** [ids] inserted one after the other from position [t]. *)
Definition insert_run {A} (t : nat) (xs l : list A) : list A := take t l ++ xs ++ drop t l.

Lemma insert_run_nil {A} t (l : list A) : insert_run t [] l = l.
Proof. apply take_drop. Qed.

Lemma insert_run_cons {A} t (x : A) xs l :
  t <= length l -> insert_run t (x :: xs) l = insert_run (S t) xs (insert_at t x l).
Proof.
  intros Ht. unfold insert_run, insert_at.
  rewrite (cons_middle x (take t l) (drop t l)), (app_assoc (take t l) [x]).
  assert (Hl : length (take t l ++ [x]) = S t) by (rewrite length_app, length_take; cbn; lia).
  rewrite <- Hl at 1 2. rewrite take_app_length, drop_app_length. by rewrite <- app_assoc.
Qed.

Definition pending_meta (l : string) (p : string * string * Z) : string * ItemMeta :=
  let '(id, placement, now) := p in (id, mkMeta l placement true now).
Definition pending_entry (p : string * string * Z) : option OrderEntry :=
  let '(id, placement, _) := p in Some (mkEntry id placement).

Definition metas_of (meta : gmap string ItemMeta) (l : string) (p : pending) :=
  foldl (fun meta x => <[(pending_meta l x).1 := (pending_meta l x).2]> meta) meta p.

(** The new ids are unknown to the index and to the mirror. *)
Definition pending_fresh (idx : ProjectionIndex) (l : string) (p : pending) : Prop :=
  NoDup (pending_id <$> p)
  /\ forall id, id ∈ pending_id <$> p ->
       ix_meta idx !! id = None /\ forall e, Some e ∈ raw_at idx l -> entry_item_id e <> id.

Lemma open_visible_snoc meta l raw m id :
  meta !! id = Some m -> m_list_id m = l -> m_open m = true ->
  Some (mkEntry id (m_placement_id m)) ∉ raw ->
  open_visible meta l (raw ++ [Some (mkEntry id (m_placement_id m))])
  = open_visible meta l raw ++ [id].
Proof.
  intros Em Hl Ho Hn. rewrite !open_visible_alt, omap_app.
  assert (Hc : canon_open meta l (Some (mkEntry id (m_placement_id m))) = Some id).
  { apply canon_open_Some. eauto 6. }
  cbn [omap list_omap]. rewrite Hc, dedup_app. f_equal.
  rewrite dedup_id by apply NoDup_singleton.
  apply list_filter_all. intros x ->%list_elem_of_singleton.
  rewrite elem_of_canon_open. naive_solver.
Qed.

Lemma open_visible_take_le meta l n raw :
  length (open_visible meta l (take n raw)) <= length (open_projection meta l raw).
Proof.
  unfold open_projection. rewrite length_app, !open_visible_alt.
  pose proof (take_drop n raw) as E. revert E. generalize (take n raw) (drop n raw).
  intros X Y <-. rewrite omap_app, dedup_app, length_app. lia.
Qed.

(** One new open item written at raw position [at_]. *)
Lemma insert_item meta l raw at_ id pl now :
  meta !! id = None -> (forall e, Some e ∈ raw -> entry_item_id e <> id) -> at_ <= length raw ->
  let meta' := <[id := mkMeta l pl true now]> meta in
  let raw' := insert_at at_ (Some (mkEntry id pl)) raw in
  let t := length (open_visible meta l (take at_ raw)) in
  open_projection meta' l raw' = insert_at t id (open_projection meta l raw)
  /\ open_visible meta' l raw' = insert_at t id (open_visible meta l raw)
  /\ length (open_visible meta' l (take (S at_) raw')) = S t
  /\ (forall j, j <> l -> agree_on j meta meta').
Proof.
  intros Em Hn Hat meta' raw' t.
  assert (Em' : meta' !! id = Some (mkMeta l pl true now)) by apply lookup_insert_eq.
  assert (Hsb : same_but id meta meta') by apply same_but_insert.
  assert (Htake : take at_ raw' = take at_ raw).
  { unfold raw', insert_at. rewrite take_app_le by (rewrite length_take; lia).
    by rewrite take_idemp. }
  assert (Hno : Some (mkEntry id pl) ∉ take at_ raw).
  { intros Hi. eapply (Hn (mkEntry id pl)); [|done]. eapply elem_of_take in Hi as (? & Hi & _).
    by eapply list_elem_of_lookup_2. }
  assert (Hnloc : ~ located_open meta l id).
  { intros ?%located_open_located. by eapply not_located. }
  assert (Hlen : length (open_visible meta' l (take at_ raw)) = t).
  { unfold t. rewrite <- (without_id id (open_visible meta l (take at_ raw)));
      [|rewrite elem_of_open_visible; tauto].
    rewrite <- (without_id id (open_visible meta' l (take at_ raw))).
    - f_equal. symmetry. by apply open_visible_others.
    - rewrite elem_of_open_visible, elem_of_visible. rewrite Em'.
      by intros [_ (m & [= <-] & _ & Hi)]. }
  destruct (open_visible_entry_backed meta' l (mkMeta l pl true now) id raw' at_) as [Hv Hp];
    try done.
  { by apply lookup_insert_at. }
  { by rewrite Htake. }
  rewrite Htake, Hlen in Hv, Hp.
  assert (Ho : others id raw = others id raw') by (symmetry; by apply others_insert_at).
  rewrite <- (open_visible_others meta meta' l raw raw' id), without_id in Hv by
    (done || (rewrite elem_of_open_visible; tauto)).
  rewrite <- (projection_others meta meta' l raw raw' id), without_id in Hp by
    (done || (by rewrite elem_of_open_projection)).
  split_and!; [done|done| |].
  - unfold raw' at 1. rewrite (take_S_r _ _ _ (lookup_insert_at at_ _ raw Hat)).
    fold raw'. rewrite Htake.
    rewrite (open_visible_snoc meta' l _ (mkMeta l pl true now)) by done.
    rewrite length_app, Hlen. cbn. lia.
  - intros j Hj. eapply agree_insert_other; [right; done|cbn; congruence..].
Qed.

Lemma add_metas_spec l p : forall idx at_,
  index_wf idx \/ wf_on every (fun _ => False) idx ->
  at_ <= length (raw_at idx l) -> pending_fresh idx l p ->
  let idx' := add_metas idx l at_ p in
  let t := length (open_visible (ix_meta idx) l (take at_ (raw_at idx l))) in
  wf_on every (fun _ => False) idx'
  /\ ix_meta idx' = metas_of (ix_meta idx) l p
  /\ ix_open_by_list idx' = ix_open_by_list idx
  /\ raw_at idx' l = insert_run at_ (pending_entry <$> p) (raw_at idx l)
  /\ (forall j, j <> l -> raw_at idx' j = raw_at idx j)
  /\ open_projection (ix_meta idx') l (raw_at idx' l)
     = insert_run t (pending_id <$> p) (open_projection (ix_meta idx) l (raw_at idx l))
  /\ (forall j, j <> l -> open_projection (ix_meta idx') j (raw_at idx j)
                          = open_projection (ix_meta idx) j (raw_at idx j)).
Proof.
  induction p as [|[[id pl] now] p IH]; intros idx at_ Hwf Hat Hfr; cbn zeta.
  - cbn [add_metas metas_of foldl fmap list_fmap]. rewrite !insert_run_nil.
    split_and!; try done. destruct Hwf as [Hwf%index_wf_on|]; [|done].
    destruct Hwf. by split.
  - assert (Hon : wf_on every (fun _ => False) idx).
    { destruct Hwf as [Hwf%index_wf_on|]; [|done]. destruct Hwf. by split. }
    destruct Hfr as [[Hid Hnd]%NoDup_cons Hfr].
    destruct (Hfr id) as [Em Hn]; [by left|].
    destruct (insert_item (ix_meta idx) l (raw_at idx l) at_ id pl now Em Hn Hat)
      as (Hp & Hv & Hl & Hag).
    cbn [add_metas]. set (idx1 := bump_visible _ _ _).
    destruct (set_meta_frame idx id (mkMeta l pl true now)) as (Hf1 & Hf2 & Hf3 & Hf4).
    assert (Hm1 : ix_meta idx1 = <[id := mkMeta l pl true now]> (ix_meta idx)) by exact Hf1.
    assert (Ho1 : ix_open_by_list idx1 = ix_open_by_list idx) by exact Hf3.
    assert (Hr1 : forall j, raw_at idx1 j = if decide (l = j)
                  then insert_at at_ (Some (mkEntry id pl)) (raw_at idx l) else raw_at idx j).
    { intros j. unfold idx1. rewrite (raw_at_ext _ (raw_insert (set_meta idx id (mkMeta l pl true now))
        l at_ (mkEntry id pl))) by done. rewrite raw_at_insert, !(raw_at_ext _ idx _ Hf2).
      by rewrite Nat.min_l. }
    assert (Hon1 : wf_on every (fun _ => False) idx1).
    { destruct Hon as [Hs _ Hone Hc Hcne]. split; [|done|by rewrite Ho1| |].
      - apply (index_sets_ext _ (set_meta idx id (mkMeta l pl true now))); [done..|].
        by apply set_meta_sets.
      - intros j _. unfold idx1. rewrite count_at_bump. fold idx1. rewrite Hm1, Hr1.
        rewrite !(count_at_ext (raw_insert (set_meta idx id (mkMeta l pl true now))
          l at_ (mkEntry id pl)) idx) by exact Hf4.
        case_decide as Hj.
        + subst j. rewrite Hv, length_insert_at, Hc by done. lia.
        + rewrite Hc by done. by rewrite (agree_on_open_visible j _ _ _ (Hag j ltac:(congruence))).
      - apply put_count_ne. cbn. by rewrite Hf4. }
    assert (Hr1l : raw_at idx1 l = insert_at at_ (Some (mkEntry id pl)) (raw_at idx l)).
    { rewrite Hr1. by rewrite decide_True. }
    destruct (IH idx1 (S at_)) as (H1 & H2 & H3 & H4 & H5 & H6 & H7).
    { by right. }
    { rewrite Hr1l, length_insert_at. lia. }
    { split; [done|]. intros id' Hid'. destruct (Hfr id') as [Em' Hn']; [by right|].
      assert (id' <> id) by (intros ->; by apply Hid).
      rewrite Hm1, lookup_insert_ne, Hr1l by done. split; [done|].
      intros e [[= ->]|?]%elem_of_insert_at; cbn; [congruence|auto]. }
    cbn [metas_of foldl pending_meta fst snd fmap list_fmap].
    split_and!; [done|by rewrite H2, Hm1|congruence| | | |].
    + rewrite H4, Hr1l. cbn [pending_entry]. by rewrite <- insert_run_cons.
    + intros j Hj. rewrite H5, Hr1 by done. by rewrite decide_False by congruence.
    + rewrite H6, Hr1l, Hm1, Hl, Hp. unfold pending_id at 2. cbn [fst].
      rewrite <- insert_run_cons; [done|]. apply open_visible_take_le.
    + intros j Hj. specialize (H7 j Hj). rewrite Hr1, decide_False in H7 by congruence.
      rewrite H7, Hm1. symmetry. by apply agree_on_projection, Hag.
Qed.

(** ** Where a plan lands *)

Lemma anchor_index_None seq target (exclude : option string) id :
  NoDup seq -> (N.of_nat (length seq) < usize_max)%N ->
  (exclude = Some id \/ exclude = None /\ id ∉ seq) ->
  get_usize seq (anchor_index seq target exclude) = None ->
  length (without id seq) <= N.to_nat target.
Proof.
  intros Hnd Hfit Hex. rewrite get_usize_None, length_without by done. unfold anchor_index.
  destruct (match exclude with Some e => position_of e seq | None => None end) as [c|] eqn:Ec.
  - destruct Hex as [->|[-> _]]; [|done]. apply position_of_Some in Ec; [|done].
    rewrite decide_True by (by eapply list_elem_of_lookup_2).
    apply lookup_lt_Some in Ec. case_match eqn:E; [apply N.leb_le in E|apply N.leb_gt in E];
      unfold usize_saturating_add; lia.
  - case_decide; lia.
Qed.

(** The raw position is right after the first [target] open entry-backed items
    other than the moving one. *)
Lemma plan_target_lands idx l target id exclude :
  index_wf idx -> fits idx l -> (exclude = Some id \/ exclude = None /\ id ∉ open_at idx l) ->
  length (without id (open_visible (ix_meta idx) l
    (take (raw_pos (plan_target idx l target true exclude)) (raw_at idx l)))) =
  Nat.min (N.to_nat target)
    (length (without id (open_visible (ix_meta idx) l (raw_at idx l)))).
Proof.
  intros Hwf Hfit Hex. pose proof (wf_open _ Hwf l) as Hopen.
  assert (Hnd : NoDup (open_at idx l)) by (rewrite Hopen; apply NoDup_open_projection).
  assert (Hpl : length (without id (open_visible (ix_meta idx) l (raw_at idx l)))
                <= length (without id (open_at idx l))).
  { rewrite Hopen. unfold open_projection. rewrite without_app, length_app. lia. }
  unfold plan_target. cbn [negb]. destruct (get_usize _ _) as [a|] eqn:Ea.
  - apply (anchor_index_Some _ _ _ id) in Ea as [Hai Ha]; [|done|unfold fits in *; lia|done].
    pose proof Ha as Ha'. rewrite Hopen in Ha'.
    assert (Hloc : located_open (ix_meta idx) l a).
    { apply list_elem_of_lookup_2, elem_of_without in Ha' as [_ ?].
      by rewrite elem_of_open_projection in *. }
    destruct (canonical_raw_pos idx l a) as [p|] eqn:Ep; cbn [raw_pos].
    + pose proof (anchor_position idx l id a p Hloc Hai Ep) as Hp.
      assert (Ht : length (without id (open_visible (ix_meta idx) l (take p (raw_at idx l))))
                   = N.to_nat target).
      { by eapply NoDup_lookup; [apply NoDup_without, NoDup_open_projection| |]. }
      rewrite Ht. symmetry. apply Nat.min_l. rewrite <- Ht.
      apply canonical_raw_pos_Some in Ep as (m & Em & Hl & Hlk & Hn).
      destruct Hloc as (m' & Em' & _ & Hom). assert (m' = m) as -> by congruence.
      destruct (open_visible_split (ix_meta idx) l m a (raw_at idx l) p) as (W & HW & _);
        [done..|].
      rewrite HW, without_app, length_app. lia.
    + rewrite firstn_all. symmetry. apply Nat.min_r.
      destruct (le_lt_dec (length (without id (open_visible (ix_meta idx) l (raw_at idx l))))
                  (N.to_nat target)) as [?|Hlt]; [done|exfalso].
      unfold open_projection in Ha'. rewrite without_app, lookup_app_l in Ha' by done.
      apply list_elem_of_lookup_2, elem_of_without in Ha' as [_ [_ Hv]%elem_of_open_visible].
      apply canonical_visible in Hv as [? ?]. congruence.
  - cbn [raw_pos]. rewrite firstn_all. symmetry. apply Nat.min_r. etrans; [exact Hpl|].
    by eapply anchor_index_None.
Qed.

(** ** The add block *)

Lemma splice_run_spec l pos p : forall idx i t,
  NoDup (pending_id <$> p) -> (forall id, id ∈ pending_id <$> p -> id ∉ open_at idx l) ->
  (forall j, ix_open_by_list idx !! j <> Some []) ->
  (N.to_nat (pos + i) = t /\ t <= length (open_at idx l)
   \/ t = length (open_at idx l) /\ length (open_at idx l) <= N.to_nat (pos + i)) ->
  (N.of_nat (length (open_at idx l) + length p) < usize_max)%N ->
  let idx' := splice_run idx l pos i p in
  open_at idx' l = insert_run t (pending_id <$> p) (open_at idx l)
  /\ (forall j, j <> l -> open_at idx' j = open_at idx j)
  /\ (forall j, ix_open_by_list idx' !! j <> Some [])
  /\ ix_meta idx' = ix_meta idx /\ ix_members idx' = ix_members idx
  /\ ix_open_members idx' = ix_open_members idx /\ ix_raw_orders idx' = ix_raw_orders idx
  /\ ix_open_visible_counts idx' = ix_open_visible_counts idx.
Proof.
  induction p as [|[[id pl] now] p IH]; intros idx i t Hnd Hdis Hne Ht Hfit; cbn zeta.
  - cbn. by rewrite insert_run_nil.
  - apply NoDup_cons in Hnd as [Hid Hnd]. cbn [splice_run].
    set (idx1 := splice_open_in _ _ _ _).
    assert (Hw : without id (open_at idx l) = open_at idx l).
    { apply without_id, Hdis. by left. }
    assert (Htl : t <= length (open_at idx l)) by lia.
    assert (H1 : open_at idx1 l = insert_at t id (open_at idx l)).
    { unfold idx1. rewrite open_at_splice_in, decide_True, Hw by done. f_equal.
      cbn [length] in Hfit. unfold usize_saturating_add. lia. }
    assert (H1j : forall j, j <> l -> open_at idx1 j = open_at idx j).
    { intros j Hj. unfold idx1. rewrite open_at_splice_in. by rewrite decide_False by congruence. }
    cbn [length] in Hfit.
    destruct (IH idx1 (i + 1)%N (S t)) as (E1 & E2 & E3 & E4 & E5 & E6 & E7 & E8).
    { done. }
    { intros id' Hid'. rewrite H1, elem_of_insert_at. intros [->|Hin]; [done|].
      eapply Hdis; [|exact Hin]. by right. }
    { by apply splice_in_ne. }
    { rewrite H1, length_insert_at. lia. }
    { rewrite H1, length_insert_at. lia. }
    split_and!; try done.
    + rewrite E1, H1. unfold pending_id at 2. cbn [fmap list_fmap fst].
      by rewrite <- insert_run_cons.
    + intros j Hj. rewrite E2 by done. by apply H1j.
Qed.

Lemma add_update_wf idx l target p :
  index_wf idx -> pending_fresh idx l p -> p <> [] ->
  (N.of_nat (length (open_at idx l) + length p) < usize_max)%N ->
  let plan := plan_target idx l target true None in
  let r := add_update idx l plan p in
  let t := Nat.min (N.to_nat target)
             (length (open_visible (ix_meta idx) l (raw_at idx l))) in
  index_wf r.1 /\ r.2 = open_at r.1 l
  /\ ix_meta r.1 = metas_of (ix_meta idx) l p
  /\ raw_at r.1 l = insert_run (raw_pos plan) (pending_entry <$> p) (raw_at idx l)
  /\ (forall j, j <> l -> raw_at r.1 j = raw_at idx j)
  /\ open_at r.1 l = insert_run t (pending_id <$> p) (open_at idx l)
  /\ (forall j, j <> l -> open_at r.1 j = open_at idx j).
Proof.
  intros Hwf Hfr Hp Hfit. cbn zeta. set (plan := plan_target _ _ _ _ _).
  pose proof (wf_open _ Hwf) as Hopen.
  assert (Hids : forall id, id ∈ pending_id <$> p -> id ∉ open_at idx l).
  { intros id [Em _]%(proj2 Hfr). rewrite Hopen, elem_of_open_projection.
    intros ?%located_open_located. by eapply not_located. }
  destruct p as [|x p']; [done|]. set (p := x :: p') in *.
  assert (Hx : pending_id x ∉ open_at idx l) by (apply Hids; by left).
  assert (Hf : fits idx l) by (unfold fits; cbn [length] in Hfit; lia).
  pose proof (plan_target_ok idx l target (pending_id x) None Hwf Hf (or_intror (conj eq_refl Hx)))
    as [Hraw Hpos].
  pose proof (plan_target_lands idx l target (pending_id x) None Hwf Hf
                (or_intror (conj eq_refl Hx))) as Ht.
  fold plan in Hraw, Hpos, Ht.
  assert (Hwx : forall raw, without (pending_id x) (open_visible (ix_meta idx) l raw)
                            = open_visible (ix_meta idx) l raw).
  { intros raw. apply without_id. intros [Hl _]%elem_of_open_visible.
    by rewrite <- (elem_of_open_projection _ _ (raw_at idx l)), <- Hopen in Hl. }
  rewrite !Hwx in Ht. rewrite (without_id _ _ Hx) in Hpos.
  destruct (add_metas_spec l p idx (raw_pos plan)) as (Hon & Hm & Ho & Hr & Hrj & Hproj & Hprojj);
    [by left|done..|].
  rewrite Ht, <- Hopen in Hproj. unfold add_update.
  set (idx1 := add_metas _ _ _ _) in *. destruct (open_pos plan) as [pos|] eqn:Epos.
  - specialize (Hpos pos eq_refl). rewrite Hwx, Ht in Hpos.
    destruct (splice_run_spec l pos p idx1 0
                (Nat.min (N.to_nat target) (length (open_visible (ix_meta idx) l (raw_at idx l)))))
      as (E1 & E2 & E3 & E4 & E5 & E6 & E7 & E8).
    { apply Hfr. }
    { intros id Hid. rewrite (open_at_ext _ _ _ Ho). by apply Hids. }
    { apply (on_open_ne _ _ _ Hon). }
    { rewrite (open_at_ext _ _ _ Ho). rewrite N.add_0_r. lia. }
    { by rewrite (open_at_ext _ _ _ Ho). }
    rewrite !(open_at_ext idx1 idx _ Ho) in E1. cbn [fst snd]. split_and!.
    + apply index_wf_on. destruct Hon as [Hs _ _ Hc Hcne]. split; [|intros j _| done|intros j _|].
      * by apply (index_sets_ext _ idx1).
      * rewrite E4, (raw_at_ext _ idx1) by done. destruct (decide (j = l)) as [->|Hj].
        -- by rewrite E1, Hproj.
        -- by rewrite E2, Hrj, Hprojj, (open_at_ext idx1 idx _ Ho), Hopen.
      * rewrite E4, (raw_at_ext _ idx1), (count_at_ext _ idx1) by done. by apply Hc.
      * by rewrite E8.
    + done.
    + by rewrite E4.
    + by rewrite (raw_at_ext _ idx1).
    + intros j Hj. rewrite (raw_at_ext _ idx1) by done. by apply Hrj.
    + done.
    + intros j Hj. by rewrite E2, (open_at_ext idx1 idx _ Ho).
  - assert (Hon' : wf_on (fun j => j <> l) (fun j => j <> l) idx1).
    { destruct Hon as [Hs _ Hone Hc Hcne]. split; try done; intros j Hj; [|by apply Hc].
      by rewrite Hrj, Hprojj, (open_at_ext idx1 idx _ Ho), Hopen. }
    destruct (refresh_open_wf idx1 l Hon') as (Hwf' & Hr2 & Hm' & Hr').
    split_and!; try done.
    + by rewrite Hm'.
    + by rewrite (raw_at_ext _ idx1 _ Hr').
    + intros j Hj. rewrite (raw_at_ext _ idx1 _ Hr'). by apply Hrj.
    + by rewrite (wf_open _ Hwf'), Hm', (raw_at_ext _ idx1 _ Hr').
    + intros j Hj. rewrite (wf_open _ Hwf'), Hm', (raw_at_ext _ idx1 _ Hr').
    by rewrite Hrj, Hprojj, Hopen.
Qed.

(** ** Re-placing an existing item *)

Lemma plan_raw_le idx l target b ex :
  raw_pos (plan_target idx l target b ex) <= length (raw_at idx l).
Proof.
  assert (H : forall a p, canonical_raw_pos idx l a = Some p -> p <= length (raw_at idx l)).
  { intros a p (m & _ & _ & Hp%lookup_lt_Some & _)%canonical_raw_pos_Some. lia. }
  unfold plan_target. destruct b; cbn [negb].
  - destruct (get_usize _ _) as [a|]; [|done].
    destruct (canonical_raw_pos idx l a) eqn:E; cbn; [by eapply H|done].
  - cbn. destruct (get_usize _ _) as [a|]; [|done].
    destruct (canonical_raw_pos idx l a) eqn:E; cbn; [by eapply H|done].
Qed.

(** The entry of the open item [id] sits at [p] in the new mirror of [l], with
    no other canonical entry before; the others kept their entries. *)
Lemma item_lands meta meta' l raw raw' id m p X :
  same_but id meta meta' -> others id raw = others id raw' ->
  meta' !! id = Some m -> m_list_id m = l -> m_open m = true ->
  raw' !! p = Some (Some (mkEntry id (m_placement_id m))) ->
  Some (mkEntry id (m_placement_id m)) ∉ take p raw' ->
  others id (take p raw') = others id X ->
  let t := length (without id (open_visible meta l X)) in
  open_projection meta' l raw' = insert_at t id (without id (open_projection meta l raw))
  /\ open_visible meta' l raw' = insert_at t id (without id (open_visible meta l raw)).
Proof.
  intros Hs Ho Em Hl Hop Hp Hn HX.
  destruct (open_visible_entry_backed meta' l m id raw' p) as [Hv Hpr]; try done.
  assert (Ht : length (open_visible meta' l (take p raw'))
               = length (without id (open_visible meta l X))).
  { rewrite <- (without_id id (open_visible meta' l (take p raw'))).
    - f_equal. symmetry. by apply open_visible_others.
    - rewrite elem_of_open_visible, elem_of_visible, Em. by intros [_ (x & [= <-] & _ & ?)]. }
  rewrite Ht in Hv, Hpr.
  rewrite <- (open_visible_others meta meta' l raw raw' id) in Hv by done.
  rewrite <- (projection_others meta meta' l raw raw' id) in Hpr by done. done.
Qed.

Lemma raw_mov_spec idx l from to e :
  raw_at idx l !! from = Some e -> to < length (raw_at idx l) ->
  (forall j, raw_at (raw_mov idx l from to) j =
     if decide (l = j) then insert_at to e (remove_at from (raw_at idx l)) else raw_at idx j)
  /\ ix_meta (raw_mov idx l from to) = ix_meta idx
  /\ ix_members (raw_mov idx l from to) = ix_members idx
  /\ ix_open_members (raw_mov idx l from to) = ix_open_members idx
  /\ ix_open_by_list (raw_mov idx l from to) = ix_open_by_list idx
  /\ ix_open_visible_counts (raw_mov idx l from to) = ix_open_visible_counts idx.
Proof.
  intros Hf Ht. unfold raw_mov, raw_at in *.
  destruct (ix_raw_orders idx !! l) as [raw|] eqn:Er; cbn in Hf, Ht; [|done].
  rewrite Hf. cbn. split_and!; try done. intros j. rewrite lookup_insert.
  case_decide; [|done]. cbn. rewrite Nat.min_l; [done|].
  apply lookup_lt_Some in Hf. unfold remove_at. rewrite length_app, length_take, length_drop. lia.
Qed.

(** An insert-before position survives the removal of an earlier entry,
    shifted by one. *)
Lemma others_shift id e raw from p :
  raw !! from = Some (Some e) -> entry_item_id e = id ->
  others id (take (if decide (from < p) then p - 1 else p) (remove_at from raw))
  = others id (take p raw).
Proof.
  intros Hf He. pose proof (lookup_lt_Some _ _ _ Hf) as Hlt.
  pose proof (take_drop_middle raw from _ Hf) as Hraw. unfold remove_at.
  assert (HA : length (take from raw) = from) by (rewrite length_take; lia).
  revert Hraw HA. generalize (take from raw) (drop (S from) raw). intros A B <- HA.
  rewrite !take_app, HA. case_decide as Hp.
  - rewrite (take_ge A (p - 1)), (take_ge A p) by lia. destruct (p - from) as [|k] eqn:Ek; [lia|]. cbn [take].
    unfold others. rewrite !filter_app, filter_cons_False by (cbn; naive_solver).
    replace (p - 1 - from) with k by lia. done.
  - by replace (p - from) with 0 by lia.
Qed.

Lemma elem_of_remove_at {A} i (x : A) l : x ∈ remove_at i l -> x ∈ l.
Proof.
  unfold remove_at. rewrite elem_of_app. intros [Hx|Hx].
  - rewrite <- (take_drop i l), elem_of_app. by left.
  - rewrite <- (take_drop (S i) l), elem_of_app. by right.
Qed.

Lemma reorder_update_wf idx l id m from target :
  index_wf idx -> fits idx l -> ix_meta idx !! id = Some m -> m_list_id m = l ->
  canonical_raw_pos idx l id = Some from ->
  Some (mkEntry id (m_placement_id m)) ∉ remove_at from (raw_at idx l) ->
  let plan := plan_target idx l target (m_open m) (Some id) in
  let to := if decide (from < raw_pos plan) then raw_pos plan - 1 else raw_pos plan in
  let r := reorder_update idx l id from to (m_open m) (open_pos plan) in
  let t := Nat.min (N.to_nat target)
             (length (without id (open_visible (ix_meta idx) l (raw_at idx l)))) in
  to < length (raw_at idx l)
  /\ index_wf r.1 /\ ix_meta r.1 = ix_meta idx
  /\ (forall j, raw_at r.1 j = if decide (l = j)
        then insert_at to (Some (mkEntry id (m_placement_id m))) (remove_at from (raw_at idx l))
        else raw_at idx j)
  /\ open_at r.1 l = (if m_open m then insert_at t id (without id (open_at idx l))
                      else open_at idx l)
  /\ (forall j, j <> l -> open_at r.1 j = open_at idx j)
  /\ r.2 = (if m_open m then position_of id (open_at r.1 l) else None).
Proof.
  intros Hwf Hfit Em Hl Hcan Hdup. cbn zeta.
  set (plan := plan_target _ _ _ _ _). set (to := if decide _ then _ else _).
  pose proof (wf_open _ Hwf) as Hopen. pose proof (wf_counts _ Hwf) as Hcount.
  apply canonical_raw_pos_Some in Hcan as (m' & Em' & _ & Hf & Hnf).
  assert (m' = m) as -> by congruence. clear Em'.
  set (e := Some (mkEntry id (m_placement_id m))) in *.
  pose proof (lookup_lt_Some _ _ _ Hf) as Hflt.
  pose proof (plan_raw_le idx l target (m_open m) (Some id)) as Hple. fold plan in Hple.
  assert (Hto : to < length (raw_at idx l)) by (unfold to; case_decide; lia).
  assert (Htole : to <= length (remove_at from (raw_at idx l))).
  { unfold remove_at. rewrite length_app, length_take, length_drop. lia. }
  destruct (raw_mov_spec idx l from to e Hf Hto) as (Hr & Hm & Hs1 & Hs2 & Ho & Hc).
  assert (Hoth : others id (raw_at idx l)
                 = others id (insert_at to e (remove_at from (raw_at idx l)))).
  { unfold e. rewrite others_insert_at by done. symmetry. by eapply others_remove_at. }
  unfold reorder_update. set (idx1 := raw_mov _ _ _ _) in *.
  assert (Hsets : index_sets idx1).
  { apply (index_sets_ext _ idx); [done..|]. by apply index_wf_on in Hwf as [? _ _ _ _]. }
  assert (Hfar : forall j, j <> l -> open_at idx j = open_projection (ix_meta idx1) j (raw_at idx1 j)
                   /\ count_at idx1 j = length (open_visible (ix_meta idx1) j (raw_at idx1 j))).
  { intros j Hj. rewrite Hr, decide_False, Hm by congruence.
    by rewrite (count_at_ext _ idx), Hcount by done. }
  destruct (m_open m) eqn:Emo; cbn [negb].
  - pose proof (item_lands (ix_meta idx) (ix_meta idx) l (raw_at idx l)
      (insert_at to e (remove_at from (raw_at idx l))) id m to (take (raw_pos plan) (raw_at idx l)))
      as Hland.
    destruct Hland as [Hproj Hvis]; try done.
    { by apply lookup_insert_at. }
    { unfold insert_at. rewrite take_app_le by (rewrite length_take; lia). rewrite take_idemp.
      intros (? & Hi%list_elem_of_lookup_2 & _)%elem_of_take. by apply Hdup. }
    { unfold insert_at. rewrite take_app_le by (rewrite length_take; lia). rewrite take_idemp.
      unfold to. by eapply others_shift. }
    pose proof (plan_target_ok idx l target id (Some id) Hwf Hfit (or_introl eq_refl)) as [_ Hpos].
    pose proof (plan_target_lands idx l target id (Some id) Hwf Hfit (or_introl eq_refl)) as Hlands.
    fold plan in Hpos, Hlands. rewrite Hlands, <- Hopen in Hproj. rewrite Hlands in Hvis.
    assert (Hin : id ∈ open_visible (ix_meta idx) l (raw_at idx l)).
    { rewrite elem_of_open_visible, (located_open_at _ _ _ _ Em), elem_of_visible.
      split; [done|]. exists m. split_and!; try done. by eapply list_elem_of_lookup_2. }
    assert (Hcl : count_at idx1 l = length (open_visible (ix_meta idx1) l (raw_at idx1 l))).
    { rewrite Hr, decide_True, Hm, Hvis, length_insert_at, (count_at_ext _ idx), Hcount by done.
      rewrite length_without, decide_True by (done || apply NoDup_open_visible).
      destruct (open_visible _ _ _); [set_solver|cbn; lia]. }
    destruct (open_pos plan) as [pos|] eqn:Epos.
    + specialize (Hpos pos eq_refl). rewrite Hlands in Hpos. cbn [fst snd].
      split_and!; [done| |exact Hm|exact Hr| | |by rewrite open_index_of_at].
      * apply index_wf_on. split; try done.
        -- intros j _. rewrite open_at_splice_in, !(open_at_ext idx1 idx _ Ho), Hpos.
           rewrite (raw_at_ext (splice_open_in idx1 l id pos) idx1) by done. cbn [ix_meta splice_open_in].
           case_decide as Hj; [|by apply Hfar; congruence]. subst j.
           by rewrite Hm, Hr, decide_True, Hproj.
        -- apply splice_in_ne. rewrite Ho. apply (wf_open_ne _ Hwf).
        -- intros j _. rewrite (raw_at_ext (splice_open_in idx1 l id pos) idx1),
             (count_at_ext (splice_open_in idx1 l id pos) idx1) by done.
           cbn [ix_meta splice_open_in]. destruct (decide (j = l)) as [->|]; [done|by apply Hfar].
        -- cbn. rewrite Hc. apply (wf_counts_ne _ Hwf).
      * by rewrite open_at_splice_in, decide_True, !(open_at_ext idx1 idx _ Ho), Hpos.
      * intros j Hj. by rewrite open_at_splice_in, decide_False, (open_at_ext idx1 idx _ Ho)
          by congruence.
    + assert (Hon : wf_on (fun j => j <> l) (fun j => j <> l) idx1).
      { split; [done| | | |]; try (intros j Hj; rewrite ?(open_at_ext idx1 idx _ Ho); by apply Hfar).
        - rewrite Ho. apply (wf_open_ne _ Hwf).
        - rewrite Hc. apply (wf_counts_ne _ Hwf). }
      destruct (refresh_open_wf idx1 l Hon) as (Hwf' & Hr2 & Hm' & Hr').
      destruct (refresh_open idx1 l) as [idx2 open]. cbn in *. subst open.
      split_and!; [done|done|by rewrite Hm'| | | |done].
      * intros j. by rewrite (raw_at_ext _ idx1 _ Hr').
      * by rewrite (wf_open _ Hwf'), Hm', (raw_at_ext _ idx1 _ Hr'), Hm, Hr, decide_True, Hproj.
      * intros j Hj. rewrite (wf_open _ Hwf'), Hm', (raw_at_ext _ idx1 _ Hr'). symmetry.
        by apply Hfar.
  - cbn [fst snd].
    assert (Hn : ~ located_open (ix_meta idx) l id).
    { rewrite (located_open_at _ _ _ _ Em). intros [_ ?]. congruence. }
    destruct (item_leaves (ix_meta idx) (ix_meta idx) l (raw_at idx l)
      (insert_at to e (remove_at from (raw_at idx l))) id) as [Hproj Hvis]; try done.
    rewrite without_id in Hproj by (by rewrite elem_of_open_projection).
    rewrite without_id in Hvis by (rewrite elem_of_open_visible; tauto).
    split_and!; try done; [|by apply open_at_ext|intros; by apply open_at_ext].
    apply index_wf_on. split; try done.
    + intros j _. rewrite (open_at_ext idx1 idx _ Ho). destruct (decide (j = l)) as [->|];
        [|by apply Hfar]. by rewrite Hr, decide_True, Hm, Hproj, Hopen.
    + rewrite Ho. apply (wf_open_ne _ Hwf).
    + intros j _. destruct (decide (j = l)) as [->|]; [|by apply Hfar].
      by rewrite Hr, decide_True, Hm, Hvis, (count_at_ext _ idx), Hcount.
    + rewrite Hc. apply (wf_counts_ne _ Hwf).
Qed.

(** ** Moves to another list *)

Lemma remove_entries id raw :
  remove_all (positions_of (fun e => bool_decide (entry_item_id <$> e = Some id)) raw) raw
  = others id raw.
Proof.
  rewrite remove_positions. apply list_filter_iff. intros e. by rewrite bool_decide_eq_false.
Qed.

Lemma raw_at_remove_all idx l ps j :
  raw_at (raw_remove_all idx l ps) j =
    if decide (l = j) then remove_all ps (raw_at idx l) else raw_at idx j.
Proof.
  unfold raw_remove_all. destruct (ix_raw_orders idx !! l) as [raw|] eqn:E.
  - rewrite raw_at_set_raw. unfold raw_at. by rewrite E.
  - case_decide; [subst|done]. unfold raw_at. rewrite E. cbn.
    induction ps as [|p ps IH] using rev_ind; [done|]. by rewrite remove_all_snoc.
Qed.

Lemma raw_remove_all_frame idx l ps :
  ix_meta (raw_remove_all idx l ps) = ix_meta idx
  /\ ix_members (raw_remove_all idx l ps) = ix_members idx
  /\ ix_open_members (raw_remove_all idx l ps) = ix_open_members idx
  /\ ix_open_by_list (raw_remove_all idx l ps) = ix_open_by_list idx
  /\ ix_open_visible_counts (raw_remove_all idx l ps) = ix_open_visible_counts idx.
Proof. unfold raw_remove_all. by destruct (ix_raw_orders idx !! l). Qed.

(** The mirrors and counts of [move_update], before the open arrays. *)
Definition move_mirrors (idx : ProjectionIndex) (cur target id placement : string)
    (created_at : Z) (rp : nat) (src : list nat) (was_visible is_open : bool) :=
  let idx := set_meta idx id (mkMeta target placement is_open created_at) in
  let idx := raw_remove_all idx cur src in
  let idx := bump_if (was_visible && is_open) idx cur in
  let idx := raw_insert idx target rp (mkEntry id placement) in
  if is_open then bump_visible idx target 1 else idx.

Section move.
Context (idx : ProjectionIndex) (cur target id placement : string) (m : ItemMeta)
  (created_at : Z) (ti : N).
Hypothesis Hwf : index_wf idx.
Hypothesis Em : ix_meta idx !! id = Some m.
Hypothesis Hcur : m_list_id m = cur.
Hypothesis Hne : cur <> target.
Hypothesis Hfresh : Some (mkEntry id placement) ∉ raw_at idx target.
Hypothesis Hfit : fits idx target.

Let m' := mkMeta target placement (m_open m) created_at.
Let meta' := <[id := m']> (ix_meta idx).
Let plan := plan_target idx target ti (m_open m) None.
Let e := mkEntry id placement.
Let raw' := insert_at (raw_pos plan) (Some e) (raw_at idx target).
Let t := Nat.min (N.to_nat ti)
           (length (open_visible (ix_meta idx) target (raw_at idx target))).
Let wv := bool_decide (is_Some (canonical_raw_pos idx cur id)).
Let idx1 := move_mirrors idx cur target id placement created_at (raw_pos plan)
              (entry_positions idx cur id) wv (m_open m).

Lemma move_not_target : ~ located_open (ix_meta idx) target id.
Proof. rewrite (located_open_at _ _ _ _ Em). intros [? _]. congruence. Qed.

Lemma move_cur :
  open_projection meta' cur (others id (raw_at idx cur)) = without id (open_at idx cur)
  /\ open_visible meta' cur (others id (raw_at idx cur))
     = without id (open_visible (ix_meta idx) cur (raw_at idx cur)).
Proof.
  rewrite (wf_open _ Hwf). apply item_leaves; [apply same_but_insert|by rewrite others_idemp|].
  unfold meta'. rewrite located_open_insert. naive_solver.
Qed.

Lemma move_target :
  open_projection meta' target raw' =
    (if m_open m then insert_at t id (open_at idx target) else open_at idx target)
  /\ open_visible meta' target raw' =
    (if m_open m then insert_at t id (open_visible (ix_meta idx) target (raw_at idx target))
     else open_visible (ix_meta idx) target (raw_at idx target)).
Proof.
  pose proof move_not_target as Hnt.
  assert (Hsb : same_but id (ix_meta idx) meta') by apply same_but_insert.
  assert (Ho : others id (raw_at idx target) = others id raw').
  { unfold raw'. by rewrite others_insert_at. }
  assert (Hw : without id (open_at idx target) = open_at idx target).
  { apply without_id. by rewrite (wf_open _ Hwf), elem_of_open_projection. }
  assert (Hwv : forall raw, without id (open_visible (ix_meta idx) target raw)
                            = open_visible (ix_meta idx) target raw).
  { intros raw. apply without_id. rewrite elem_of_open_visible. tauto. }
  pose proof (plan_raw_le idx target ti (m_open m) None) as Hle. fold plan in Hle.
  destruct (m_open m) eqn:Emo.
  - assert (Htk : take (raw_pos plan) raw' = take (raw_pos plan) (raw_at idx target)).
    { unfold raw', insert_at. rewrite take_app_le by (rewrite length_take; lia).
      by rewrite take_idemp. }
    destruct (item_lands (ix_meta idx) meta' target (raw_at idx target) raw' id m' (raw_pos plan)
      (take (raw_pos plan) (raw_at idx target))) as [Hp Hv]; try done.
    { apply lookup_insert_eq. }
    { by apply lookup_insert_at. }
    { rewrite Htk. by intros (? & Hi%list_elem_of_lookup_2 & _)%elem_of_take. }
    { by rewrite Htk. }
    assert (Hx : id ∉ open_at idx target) by (by rewrite (wf_open _ Hwf), elem_of_open_projection).
    pose proof (plan_target_lands idx target ti id None Hwf Hfit (or_intror (conj eq_refl Hx)))
      as Hl.
    fold plan in Hl. rewrite Hl, <- (wf_open _ Hwf), Hw, Hwv in Hp. by rewrite Hl, Hwv in Hv.
  - destruct (item_leaves (ix_meta idx) meta' target (raw_at idx target) raw' id) as [Hp Hv]; try done.
    { unfold meta'. rewrite located_open_insert. cbn. intros [[]|(_ & _ & ?)]; congruence. }
    rewrite <- (wf_open _ Hwf), Hw in Hp. by rewrite Hwv in Hv.
Qed.

Lemma move_mirrors_frame :
  ix_meta idx1 = meta' /\ index_sets idx1
  /\ ix_open_by_list idx1 = ix_open_by_list idx
  /\ (forall j, raw_at idx1 j = if decide (target = j) then raw'
                else if decide (cur = j) then others id (raw_at idx cur) else raw_at idx j).
Proof.
  destruct (set_meta_frame idx id m') as (F1 & F2 & F3 & F4).
  set (i1 := raw_remove_all (set_meta idx id m') cur (entry_positions idx cur id)).
  destruct (raw_remove_all_frame (set_meta idx id m') cur (entry_positions idx cur id))
    as (G1 & G2 & G3 & G4 & G5). fold i1 in G1, G2, G3, G4, G5.
  destruct (bump_if_frame (wv && m_open m) i1 cur) as (B1 & B2 & B3 & B4 & B5).
  set (i2 := bump_if (wv && m_open m) i1 cur) in *.
  assert (Hi : forall j, raw_at i2 j = if decide (cur = j) then others id (raw_at idx cur)
                                       else raw_at idx j).
  { intros j. rewrite (raw_at_ext _ _ _ B4). unfold i1. rewrite raw_at_remove_all.
    rewrite !(raw_at_ext _ _ _ F2). unfold entry_positions. by rewrite remove_entries. }
  assert (Hr : forall j, raw_at (raw_insert i2 target (raw_pos plan) e) j =
    if decide (target = j) then raw' else raw_at i2 j).
  { intros j. assert (Hit : raw_at i2 target = raw_at idx target) by (by rewrite Hi, decide_False).
    rewrite raw_at_insert, Hit, Nat.min_l by apply plan_raw_le. done. }
  assert (Hidx1 : ix_meta idx1 = ix_meta i2 /\ ix_members idx1 = ix_members i2
    /\ ix_open_members idx1 = ix_open_members i2 /\ ix_open_by_list idx1 = ix_open_by_list i2
    /\ ix_raw_orders idx1 = ix_raw_orders (raw_insert i2 target (raw_pos plan) e)).
  { unfold idx1, move_mirrors. fold m' i1 i2 e. by destruct (m_open m). }
  destruct Hidx1 as (H1 & H2 & H3 & H4 & H5). split_and!.
  - by rewrite H1, B1, G1.
  - apply (index_sets_ext _ (set_meta idx id m')); [congruence..|].
    apply set_meta_sets. by apply index_wf_on in Hwf as [? _ _ _ _].
  - congruence.
  - intros j. rewrite (raw_at_ext _ _ _ H5), Hr, Hi. by case_decide.
Qed.

Lemma move_far j : j <> cur -> j <> target ->
  open_at idx j = open_projection meta' j (raw_at idx j)
  /\ count_at idx j = length (open_visible meta' j (raw_at idx j)).
Proof. intros H1 H2. apply (far_lists idx id m m'); cbn; congruence. Qed.

Lemma move_counts :
  (forall j, count_at idx1 j = length (open_visible meta' j (raw_at idx1 j)))
  /\ forall j, ix_open_visible_counts idx1 !! j <> Some 0.
Proof.
  destruct (set_meta_frame idx id m') as (F1 & F2 & F3 & F4).
  set (i1 := raw_remove_all (set_meta idx id m') cur (entry_positions idx cur id)).
  destruct (raw_remove_all_frame (set_meta idx id m') cur (entry_positions idx cur id))
    as (_ & _ & _ & _ & G5). fold i1 in G5.
  assert (Hi1 : ix_open_visible_counts i1 = ix_open_visible_counts idx) by congruence.
  set (i2 := bump_if (wv && m_open m) i1 cur).
  assert (Hi2 : forall j, count_at i2 j = if decide (cur = j)
    then length (without id (open_visible (ix_meta idx) cur (raw_at idx cur)))
    else count_at idx j).
  { intros j. unfold i2. rewrite <- (count_at_ext i1 idx) by done.
    apply count_at_bump_if; [apply NoDup_open_visible| |].
    - rewrite (count_at_ext i1 idx) by done. apply (wf_counts _ Hwf).
    - rewrite andb_comm. by apply was_visible_spec. }
  assert (Hne2 : forall j, ix_open_visible_counts i2 !! j <> Some 0).
  { apply bump_if_ne. rewrite Hi1. apply (wf_counts_ne _ Hwf). }
  assert (Hidx1 : (forall j, count_at idx1 j = if decide (target = j)
      then count_at i2 target + (if m_open m then 1 else 0) else count_at i2 j)
    /\ forall j, ix_open_visible_counts idx1 !! j <> Some 0).
  { unfold idx1, move_mirrors. fold m' i1 i2. destruct (m_open m).
    - split; [|by apply put_count_ne]. intros j. rewrite count_at_bump.
      change (count_at (raw_insert i2 target (raw_pos plan) (mkEntry id placement)))
        with (count_at i2). case_decide; [lia|done].
    - split; [|done]. intros j. case_decide; [subst; by rewrite Nat.add_0_r|done]. }
  destruct Hidx1 as [Hc Hcne]. split; [|done]. intros j.
  destruct move_mirrors_frame as (_ & _ & _ & Hr). rewrite Hc, Hr, !Hi2.
  destruct move_cur as [_ Hvc]. destruct move_target as [_ Hvt].
  destruct (decide (target = j)) as [<-|Hj].
  - rewrite decide_False, Hvt, (wf_counts _ Hwf) by done.
    destruct (m_open m); rewrite ?length_insert_at; lia.
  - destruct (decide (cur = j)) as [<-|Hj']; [by rewrite Hvc|]. by apply move_far.
Qed.

Lemma move_update_mirrors :
  move_update idx cur target id placement created_at plan (entry_positions idx cur id) wv (m_open m)
  = if negb (m_open m) then (idx1, None)
    else let idx := splice_open_out idx1 cur id in
         match open_pos plan with
         | Some pos => (splice_open_in idx target id pos,
                        open_index_of (splice_open_in idx target id pos) target id)
         | None => let '(idx, open) := refresh_open idx target in (idx, position_of id open)
         end.
Proof. done. Qed.

Lemma move_update_wf :
  let r := move_update idx cur target id placement created_at plan
             (entry_positions idx cur id) wv (m_open m) in
  index_wf r.1 /\ ix_meta r.1 = meta'
  /\ (forall j, raw_at r.1 j = if decide (target = j) then raw'
        else if decide (cur = j) then others id (raw_at idx cur) else raw_at idx j)
  /\ open_at r.1 target =
       (if m_open m then insert_at t id (open_at idx target) else open_at idx target)
  /\ open_at r.1 cur = without id (open_at idx cur)
  /\ (forall j, j <> target -> j <> cur -> open_at r.1 j = open_at idx j)
  /\ r.2 = (if m_open m then position_of id (open_at r.1 target) else None).
Proof.
  cbn zeta. rewrite move_update_mirrors.
  destruct move_mirrors_frame as (Hm & Hs & Ho & Hr). destruct move_counts as [Hc Hcne].
  destruct move_cur as [Hpc _]. destruct move_target as [Hpt _].
  pose proof move_not_target as Hnt. pose proof (wf_open _ Hwf) as Hopen.
  assert (Hspec : forall idx2 : ProjectionIndex, index_wf idx2 -> ix_meta idx2 = meta' ->
    ix_raw_orders idx2 = ix_raw_orders idx1 ->
    open_at idx2 target =
       (if m_open m then insert_at t id (open_at idx target) else open_at idx target)
    /\ open_at idx2 cur = without id (open_at idx cur)
    /\ (forall j, j <> target -> j <> cur -> open_at idx2 j = open_at idx j)).
  { intros idx2 Hwf2 Hm2 Hr2. split_and!.
    - by rewrite (wf_open _ Hwf2), Hm2, (raw_at_ext _ _ _ Hr2), Hr, decide_True.
    - by rewrite (wf_open _ Hwf2), Hm2, (raw_at_ext _ _ _ Hr2), Hr, decide_False, decide_True by done.
    - intros j H1 H2. rewrite (wf_open _ Hwf2), Hm2, (raw_at_ext _ _ _ Hr2), Hr.
      rewrite !decide_False by done. symmetry. by apply move_far. }
  assert (Hdone : forall idx2 : ProjectionIndex, index_wf idx2 -> ix_meta idx2 = meta' ->
    ix_raw_orders idx2 = ix_raw_orders idx1 -> forall o : option nat,
    o = (if m_open m then position_of id (open_at idx2 target) else None) ->
    index_wf idx2 /\ ix_meta idx2 = meta'
    /\ (forall j, raw_at idx2 j = if decide (target = j) then raw'
        else if decide (cur = j) then others id (raw_at idx cur) else raw_at idx j)
    /\ open_at idx2 target =
       (if m_open m then insert_at t id (open_at idx target) else open_at idx target)
    /\ open_at idx2 cur = without id (open_at idx cur)
    /\ (forall j, j <> target -> j <> cur -> open_at idx2 j = open_at idx j)
    /\ o = (if m_open m then position_of id (open_at idx2 target) else None)).
  { intros idx2 Hwf2 Hm2 Hr2 o Hoi. destruct (Hspec idx2 Hwf2 Hm2 Hr2) as (? & ? & ?).
    split_and!; try done. intros j. by rewrite (raw_at_ext _ _ _ Hr2). }
  pose proof move_far as Hfar. pose proof (eq_refl plan) as Hplan. unfold plan at 2 in Hplan.
  clear Hspec. revert Hdone Hpt Hplan. destruct (m_open m) eqn:Emo; cbn [negb]; intros Hdone Hpt Hplan.
  - destruct (splice_out_frame idx1 cur id) as (S1 & S2 & S3 & S4 & S5).
    set (i3 := splice_open_out idx1 cur id) in *.
    assert (Ho3 : forall j, open_at i3 j = if decide (cur = j) then without id (open_at idx cur)
                                           else open_at idx j).
    { intros j. unfold i3. by rewrite open_at_splice_out, !(open_at_ext _ _ _ Ho). }
    assert (Hne3 : forall j, ix_open_by_list i3 !! j <> Some []).
    { apply splice_out_ne. rewrite Ho. apply (wf_open_ne _ Hwf). }
    assert (Hon : wf_on (fun j => j <> target) (fun j => j <> target) i3).
    { split; [apply (index_sets_ext _ idx1); congruence| |done| |by rewrite S5].
      - intros j Hj. rewrite Ho3, S1, Hm, (raw_at_ext _ _ _ S4), Hr, (decide_False (P := target = j))
          by congruence.
        case_decide as Hc'; [subst j; by rewrite Hpc|]. apply Hfar; congruence.
      - intros j Hj. rewrite (count_at_ext _ _ _ S5), S1, Hm, (raw_at_ext _ _ _ S4). apply Hc. }
    destruct (open_pos plan) as [pos|] eqn:Epos; cbn [fst snd].
    + apply Hdone; [|by cbn; rewrite S1|by cbn; rewrite S4|by rewrite open_index_of_at].
      assert (Hx : id ∉ open_at idx target) by (by rewrite Hopen, elem_of_open_projection).
      pose proof (plan_target_ok idx target ti id None Hwf Hfit (or_intror (conj eq_refl Hx)))
        as [_ Hpos].
      pose proof (plan_target_lands idx target ti id None Hwf Hfit (or_intror (conj eq_refl Hx)))
        as Hlands.
      rewrite <- Hplan in Hpos, Hlands. specialize (Hpos pos Epos). rewrite Hlands in Hpos.
      rewrite !without_id in Hpos by (done || (rewrite elem_of_open_visible; tauto)).
      assert (Ht3 : open_at i3 target = open_at idx target) by (by rewrite Ho3, decide_False).
      apply index_wf_on. destruct Hon as [Hs3 Hopen3 _ Hc3 Hcne3]. split; try done.
      * intros j _. rewrite open_at_splice_in, Ht3. cbn [ix_meta splice_open_in].
        rewrite (raw_at_ext (splice_open_in i3 target id pos) i3) by done.
        case_decide as Hj; [|by apply Hopen3; congruence]. subst j.
        rewrite without_id, Hpos, S1, Hm, (raw_at_ext _ _ _ S4), Hr, decide_True by done.
        by rewrite Hpt.
      * by apply splice_in_ne.
      * intros j _. cbn [ix_meta splice_open_in].
        rewrite (raw_at_ext (splice_open_in i3 target id pos) i3),
          (count_at_ext (splice_open_in i3 target id pos) i3) by done.
        rewrite (count_at_ext _ _ _ S5), S1, Hm, (raw_at_ext _ _ _ S4). apply Hc.
    + destruct (refresh_open_wf i3 target Hon) as (Hwf' & Hr2 & Hm' & Hr').
      destruct (refresh_open i3 target) as [i4 open]. cbn in *. subst open.
      apply Hdone; [done|congruence|congruence|done].
  - cbn [fst snd]. apply Hdone; try done. apply index_wf_on. split; try done.
    + intros j _. rewrite (open_at_ext _ _ _ Ho), Hm, Hr.
      destruct (decide (target = j)) as [<-|Hj]; [by rewrite Hpt|].
      destruct (decide (cur = j)) as [<-|Hj']; [|by apply Hfar].
      rewrite Hpc, without_id; [done|]. rewrite Hopen, elem_of_open_projection.
      rewrite (located_open_at _ _ _ _ Em). intros [_ ?]. congruence.
    + rewrite Ho. apply (wf_open_ne _ Hwf).
    + intros j _. rewrite Hm. apply Hc.
Qed.
End move.

(** ** Re-placing a tail item in its own list *)

Lemma replace_update_wf idx l id m placement rp :
  index_wf idx -> ix_meta idx !! id = Some m -> m_list_id m = l -> rp <= length (raw_at idx l) ->
  let m' := mkMeta l placement (m_open m) (m_created_at m) in
  let r := replace_update idx l id placement rp (m_open m) in
  index_wf r.1 /\ ix_meta r.1 = <[id := m']> (ix_meta idx)
  /\ (forall j, raw_at r.1 j = if decide (l = j)
        then insert_at rp (Some (mkEntry id placement)) (raw_at idx l) else raw_at idx j)
  /\ (forall j, j <> l -> open_at r.1 j = open_at idx j)
  /\ r.2 = (if m_open m then position_of id (open_at r.1 l) else None).
Proof.
  intros Hwf Em Hl Hrp m' r. subst r. unfold replace_update, set_placement. rewrite Em, Hl.
  fold m'. set (idx1 := mkIndex _ _ _ _ _ _).
  set (idx2 := raw_insert idx1 l rp (mkEntry id placement)).
  assert (Hr : forall j, raw_at idx2 j = if decide (l = j)
        then insert_at rp (Some (mkEntry id placement)) (raw_at idx l) else raw_at idx j).
  { intros j. unfold idx2. rewrite raw_at_insert. change (raw_at idx1) with (raw_at idx).
    by rewrite Nat.min_l. }
  assert (Hs : index_sets idx2).
  { pose proof Hwf as [[Hm Ho] _ _ _ _]%index_wf_on. split; cbn.
    - eapply sets_ok_iff; [|exact Hm]. intros k j. rewrite located_insert.
      destruct (decide (j = id)) as [->|]; [|naive_solver].
      rewrite (located_at _ _ _ _ Em). cbn. naive_solver.
    - eapply sets_ok_iff; [|exact Ho]. intros k j. rewrite located_open_insert.
      destruct (decide (j = id)) as [->|]; [|naive_solver].
      rewrite (located_open_at _ _ _ _ Em). cbn. naive_solver. }
  assert (Hfar : forall j, j <> l -> open_at idx j = open_projection (<[id:=m']> (ix_meta idx)) j (raw_at idx j)
      /\ count_at idx j = length (open_visible (<[id:=m']> (ix_meta idx)) j (raw_at idx j))).
  { intros j Hj. apply (far_lists idx id m m'); cbn; congruence. }
  assert (Hon : wf_on (fun j => j <> l) (fun j => j <> l) idx2).
  { split; [done| |apply (wf_open_ne _ Hwf)| |apply (wf_counts_ne _ Hwf)];
      intros j Hj; rewrite Hr, decide_False by congruence; cbn [ix_meta idx2];
      destruct (Hfar j Hj); done. }
  destruct (refresh_open_wf idx2 l Hon) as (Hwf' & Hr2 & Hm' & Hr').
  destruct (refresh_open idx2 l) as [idx3 open]. cbn [fst snd] in *. subst open.
  split_and!; [done|done| | |done].
  - intros j. by rewrite (raw_at_ext _ _ _ Hr').
  - intros j Hj. rewrite (wf_open _ Hwf'), Hm', (raw_at_ext _ _ _ Hr'), Hr, decide_False by congruence.
    symmetry. by apply Hfar.
Qed.

(** ** Hard deletes *)

Definition without_all (ids l : list string) : list string :=
  foldl (fun l id => without id l) l ids.

Definition delete_all (ids : list string) (meta : gmap string ItemMeta) : gmap string ItemMeta :=
  foldl (fun meta id => delete id meta) meta ids.

Lemma lookup_delete_all ids meta id :
  delete_all ids meta !! id = if decide (id ∈ ids) then None else meta !! id.
Proof.
  revert meta. induction ids as [|x ids IH]; intros meta; cbn; [done|].
  fold (delete_all ids (delete x meta)). rewrite IH.
  destruct (decide (id ∈ ids)) as [Hi|Hi].
  - by rewrite decide_True by (by right).
  - destruct (decide (id = x)) as [->|Hx].
    + rewrite decide_True by left. apply lookup_delete_eq.
    + rewrite decide_False by (by rewrite elem_of_cons; tauto). by rewrite lookup_delete_ne.
Qed.

Lemma remove_items_spec ids : forall idx,
  index_sets idx ->
  let idx' := foldl remove_item idx ids in
  index_sets idx' /\ ix_meta idx' = delete_all ids (ix_meta idx)
  /\ ix_raw_orders idx' = ix_raw_orders idx /\ ix_open_by_list idx' = ix_open_by_list idx
  /\ ix_open_visible_counts idx' = ix_open_visible_counts idx.
Proof.
  induction ids as [|id ids IH]; intros idx Hs; cbn; [done|].
  destruct (remove_item_frame idx id) as (F1 & F2 & F3 & F4).
  destruct (IH (remove_item idx id)) as (H1 & H2 & H3 & H4 & H5); [by apply remove_item_sets|].
  rewrite F1 in H2. split_and!; [done|done|congruence..].
Qed.

Lemma projection_delete_all ids l raw : forall meta,
  open_projection (delete_all ids meta) l raw = without_all ids (open_projection meta l raw)
  /\ open_visible (delete_all ids meta) l raw = without_all ids (open_visible meta l raw).
Proof.
  induction ids as [|id ids IH]; intros meta; cbn; [done|].
  destruct (item_leaves meta (delete id meta) l raw raw id) as [Hp Hv];
    [apply same_but_delete|done|rewrite located_open_delete; tauto|].
  rewrite <- Hp, <- Hv. apply IH.
Qed.

Lemma projection_canon meta l raw raw' :
  omap (canon meta l) raw = omap (canon meta l) raw' ->
  open_projection meta l raw = open_projection meta l raw'
  /\ open_visible meta l raw = open_visible meta l raw'.
Proof. intros H. unfold open_projection, open_visible, visible. by rewrite H. Qed.

Lemma omap_canon_filter meta l (P : option OrderEntry -> Prop) `{!forall e, Decision (P e)}
    (raw : list (option OrderEntry)) :
  (forall e, e ∈ raw -> ~ P e -> canon meta l e = None) ->
  omap (canon meta l) (base.filter P raw) = omap (canon meta l) raw.
Proof.
  induction raw as [|e raw IH]; intros Hn; [done|]. rewrite filter_cons.
  assert (IH' := IH (fun e He => Hn e (list_elem_of_further _ _ _ He))).
  case_decide as HP; cbn [omap list_omap].
  - destruct (canon meta l e); [f_equal|]; exact IH'.
  - rewrite (Hn e) by (left || done). exact IH'.
Qed.

(** An entry of an item being deleted from its own list. *)
Definition dead_entry (meta : gmap string ItemMeta) (ids : list string) (l : string)
    (e : option OrderEntry) : bool :=
  match e with
  | Some e => bool_decide (entry_item_id e ∈ ids)
              && bool_decide (m_list_id <$> meta !! entry_item_id e = Some l)
  | None => false
  end.

Lemma delete_positions_spec idx ids l :
  delete_positions idx ids l = positions_of (dead_entry (ix_meta idx) ids l) (raw_at idx l).
Proof.
  apply (ascending_unique (length (raw_at idx l))); [|apply positions_of_ascending|].
  - split.
    + apply StronglySorted_lt_dedup, StronglySorted_merge_sort;
        repeat intro; unfold Nat.le in *; lia.
    + apply Forall_forall. intros i. unfold delete_positions.
      rewrite elem_of_dedup, merge_sort_Permutation, list_elem_of_bind.
      intros (id & Hi & _). case_decide; [|by apply not_elem_of_nil in Hi].
      apply elem_of_positions_of in Hi as (x & Hx & _). by eapply lookup_lt_Some.
  - intros i. unfold delete_positions. rewrite elem_of_dedup, merge_sort_Permutation, list_elem_of_bind.
    rewrite elem_of_positions_of. split.
    + intros (id & Hi & Hid). case_decide as Hm; [|by apply not_elem_of_nil in Hi].
      apply elem_of_positions_of in Hi as (x & Hx & He%bool_decide_eq_true).
      exists x. split; [done|]. destruct x as [x|]; [|done]. cbn in He |- *.
      injection He as ->.
      apply andb_true_iff. by rewrite !bool_decide_eq_true.
    + intros ([x|] & Hx & Hd); [|done]. cbn in Hd.
      apply andb_true_iff in Hd as [H1%bool_decide_eq_true H2%bool_decide_eq_true].
      exists (entry_item_id x). split; [|done]. rewrite decide_True by done.
      apply elem_of_positions_of. exists (Some x). by rewrite bool_decide_eq_true.
Qed.

(** The rows of the deleted items, processed one after the other. *)
Lemma delete_rows_spec idx0 ids : forall idx (V : string -> list string),
  NoDup ids -> (forall j, NoDup (V j)) -> (forall j, count_at idx j = length (V j)) ->
  (forall id j, id ∈ ids ->
     id ∈ V j <-> id ∈ open_visible (ix_meta idx0) j (raw_at idx0 j)) ->
  (forall id j, id ∈ ids -> id ∈ open_at idx j -> located (ix_meta idx0) j id) ->
  (forall j, ix_open_by_list idx !! j <> Some []) ->
  (forall j, ix_open_visible_counts idx !! j <> Some 0) ->
  let idx' := foldl (fun idx '(id, l, was_visible) =>
           let idx := splice_open_out idx l id in
           if (was_visible : bool) then bump_visible idx l (-1) else idx) idx
           (omap (delete_row idx0) ids) in
  (forall j, open_at idx' j = without_all ids (open_at idx j))
  /\ (forall j, count_at idx' j = length (without_all ids (V j)))
  /\ (forall j, ix_open_by_list idx' !! j <> Some [])
  /\ (forall j, ix_open_visible_counts idx' !! j <> Some 0)
  /\ ix_meta idx' = ix_meta idx /\ ix_members idx' = ix_members idx
  /\ ix_open_members idx' = ix_open_members idx /\ ix_raw_orders idx' = ix_raw_orders idx.
Proof.
  induction ids as [|id ids IH]; intros idx V Hnd HV Hc Hvis Hop Hone Hcne; [done|].
  apply NoDup_cons in Hnd as [Hid Hnd]. cbn [omap list_omap without_all foldl].
  assert (Hin : id ∈ id :: ids) by left.
  destruct (delete_row idx0 id) as [[[id' l] b]|] eqn:Er; unfold delete_row in Er;
    destruct (ix_meta idx0 !! id) as [m|] eqn:Em; try done.
  - injection Er as <- Hl Hb. cbn [foldl]. set (i1 := splice_open_out idx l id).
    change (if b then bump_visible i1 l (-1) else i1) with (bump_if b i1 l).
    destruct (splice_out_frame idx l id) as (S1 & S2 & S3 & S4 & S5). fold i1 in S1, S2, S3, S4, S5.
    destruct (bump_if_frame b i1 l) as (B1 & B2 & B3 & B4 & B5).
    assert (Hout : forall j, l <> j -> (id ∉ V j) /\ (id ∉ open_at idx j)).
    { intros j Hj. rewrite Hvis, elem_of_open_visible, (located_open_at _ _ _ _ Em) by done.
      split; [intros [[? _] _]; congruence|]. intros Hi. apply Hop in Hi; [|done].
      apply (located_at _ _ _ _ Em) in Hi. congruence. }
    assert (Ho1 : forall j, open_at (bump_if b i1 l) j = without id (open_at idx j)).
    { intros j. rewrite (open_at_ext _ _ _ B5). unfold i1. rewrite open_at_splice_out.
      case_decide as Hj; [by subst|]. symmetry. by apply without_id, Hout. }
    destruct (IH (bump_if b i1 l) (fun j => without id (V j))) as (H1 & H2 & H3 & H4 & H5 & H6 & H7 & H8).
    + done.
    + intros j. by apply NoDup_without.
    + intros j. erewrite count_at_bump_if; [|apply (HV l)| |].
      * case_decide as Hj; [by subst|]. rewrite without_id by (by apply Hout).
        rewrite (count_at_ext _ _ _ S5). apply Hc.
      * rewrite (count_at_ext _ _ _ S5). apply Hc.
      * rewrite Hvis, <- Hb, <- Hl by done. by apply was_visible_spec.
    + intros x j Hx. rewrite elem_of_without, Hvis by (by right).
      split; [tauto|]. intros ?. split; [|done]. by intros ->.
    + intros x j Hx. rewrite Ho1, elem_of_without. intros [_ ?]. apply Hop; [by right|done].
    + rewrite B5. by apply splice_out_ne.
    + apply bump_if_ne. by rewrite S5.
    + split_and!; [intros j; by rewrite H1, Ho1|exact H2|exact H3|exact H4|..];
        (etrans; [first [exact H5|exact H6|exact H7|exact H8]|congruence]).
  - assert (Hno : forall j, (id ∉ V j) /\ (id ∉ open_at idx j)).
    { intros j. rewrite Hvis, elem_of_open_visible by done. split.
      - intros [?%located_open_located _]. by eapply not_located.
      - intros Hi%Hop; [|done]. by eapply not_located. }
    destruct (IH idx V) as (H1 & H2 & H3); try done.
    + intros x j Hx. apply Hvis. by right.
    + intros x j Hx. apply Hop. by right.
    + split; [|split; [|exact H3]].
      * intros j. rewrite (without_id id) by apply Hno. apply H1.
      * intros j. rewrite (without_id id) by apply Hno. apply H2.
Qed.

Lemma raw_remove_lists per_list : forall idx,
  NoDup (fst <$> per_list) ->
  let idx' := foldl (fun idx '(l, ps) => raw_remove_all idx l ps) idx per_list in
  (forall l ps, (l, ps) ∈ per_list -> raw_at idx' l = remove_all ps (raw_at idx l))
  /\ (forall l, l ∉ fst <$> per_list -> raw_at idx' l = raw_at idx l)
  /\ ix_meta idx' = ix_meta idx /\ ix_members idx' = ix_members idx
  /\ ix_open_members idx' = ix_open_members idx
  /\ ix_open_by_list idx' = ix_open_by_list idx
  /\ ix_open_visible_counts idx' = ix_open_visible_counts idx.
Proof.
  induction per_list as [|[l ps] pl IH]; intros idx Hnd.
  { split; [|done]. by intros l ps ?%not_elem_of_nil. }
  apply NoDup_cons in Hnd as [Hl Hnd]. cbn [fst] in Hl. cbn [foldl].
  destruct (raw_remove_all_frame idx l ps) as (F1 & F2 & F3 & F4 & F5).
  destruct (IH (raw_remove_all idx l ps) Hnd) as (H1 & H2 & H3 & H4 & H5 & H6 & H7).
  split_and!; [| |congruence..].
  - intros l' ps' [[= -> ->]|Hin]%elem_of_cons.
    + rewrite H2, raw_at_remove_all by done. by rewrite decide_True.
    + rewrite (H1 _ _ Hin), raw_at_remove_all. rewrite decide_False; [done|].
      intros ->. apply Hl. apply list_elem_of_fmap. by exists (l', ps').
  - intros l' Hl'. cbn [fmap list_fmap fst] in Hl'.
    rewrite H2, raw_at_remove_all by (intros ?; apply Hl'; by right).
    rewrite decide_False; [done|]. intros ->. apply Hl'. by left.
Qed.

Lemma delete_update_wf idx ids :
  index_wf idx -> NoDup ids ->
  let idx' := delete_update idx ids (delete_per_list idx ids) (omap (delete_row idx) ids) in
  index_wf idx' /\ ix_meta idx' = delete_all ids (ix_meta idx)
  /\ (forall l, raw_at idx' l =
        base.filter (fun e => dead_entry (ix_meta idx) ids l e = false) (raw_at idx l))
  /\ (forall l, open_at idx' l = without_all ids (open_at idx l)).
Proof.
  intros Hwf Hnd. cbn zeta. unfold delete_update.
  pose proof Hwf as [Hs Ho Hone Hc Hcne]%index_wf_on.
  destruct (remove_items_spec ids idx Hs) as (R1 & R2 & R3 & R4 & R5).
  set (i1 := foldl remove_item idx ids) in *.
  assert (Hkeys : fst <$> delete_per_list idx ids
                  = dedup (omap (fun id => m_list_id <$> ix_meta idx !! id) ids)).
  { unfold delete_per_list. rewrite <- list_fmap_compose. apply list_fmap_id. }
  destruct (raw_remove_lists (delete_per_list idx ids) i1) as (L1 & L2 & L3 & L4 & L5 & L6 & L7).
  { rewrite Hkeys. apply NoDup_dedup. }
  set (i2 := foldl _ i1 (delete_per_list idx ids)) in *.
  destruct (delete_rows_spec idx ids i2
              (fun j => open_visible (ix_meta idx) j (raw_at idx j)))
    as (H1 & H2 & H3 & H4 & H5 & H6 & H7 & H8); try done.
  { intros j. apply NoDup_open_visible. }
  { intros j. rewrite (count_at_ext i2 idx) by congruence. by apply Hc. }
  { intros id j Hid. rewrite (open_at_ext i2 idx), Ho by (done || congruence).
    rewrite elem_of_open_projection. apply located_open_located. }
  { by rewrite L6, R4. }
  { by rewrite L7, R5. }
  set (i3 := foldl _ i2 _) in *.
  assert (Hraw : forall l, raw_at i3 l =
      base.filter (fun e => dead_entry (ix_meta idx) ids l e = false) (raw_at idx l)).
  { intros l. rewrite (raw_at_ext _ _ _ H8).
    destruct (decide (l ∈ fst <$> delete_per_list idx ids)) as [Hl|Hl].
    - rewrite (L1 l (delete_positions idx ids l)).
      + rewrite (raw_at_ext _ _ _ R3), delete_positions_spec. apply remove_positions.
      + rewrite Hkeys in Hl. apply list_elem_of_fmap. by exists l.
    - rewrite L2, (raw_at_ext _ _ _ R3) by done. symmetry. apply list_filter_all.
      intros [e|] _; [|done]. cbn. apply andb_false_iff.
      destruct (decide (entry_item_id e ∈ ids)) as [Hi|Hi]; [right|left; by apply bool_decide_eq_false].
      apply bool_decide_eq_false. intros Hm. apply Hl. rewrite Hkeys, elem_of_dedup.
      apply list_elem_of_omap. by exists (entry_item_id e). }
  assert (Hmeta : ix_meta i3 = delete_all ids (ix_meta idx)) by congruence.
  assert (Hproj : forall l,
    open_projection (ix_meta i3) l (raw_at i3 l) = without_all ids (open_at idx l)
    /\ open_visible (ix_meta i3) l (raw_at i3 l)
       = without_all ids (open_visible (ix_meta idx) l (raw_at idx l))).
  { intros l. rewrite Hmeta, Hraw.
    destruct (projection_canon (delete_all ids (ix_meta idx)) l
      (base.filter (fun e => dead_entry (ix_meta idx) ids l e = false) (raw_at idx l)) (raw_at idx l))
      as [-> ->].
    - apply omap_canon_filter. intros [e|] _ Hd; [|done]. apply not_false_iff_true in Hd. cbn in Hd |- *.
      apply andb_true_iff in Hd as [Hi%bool_decide_eq_true _].
      by rewrite lookup_delete_all, decide_True.
    - rewrite Ho by done. apply projection_delete_all. }
  assert (Hopen : forall l, open_at i3 l = without_all ids (open_at idx l)).
  { intros l. by rewrite H1, (open_at_ext i2 idx) by congruence. }
  split_and!; [|done|done|done]. apply index_wf_on. split; try done.
  - apply (index_sets_ext _ i1); congruence.
  - intros l _. by rewrite Hopen, (proj1 (Hproj l)).
  - intros l _. by rewrite H2, (proj2 (Hproj l)).
Qed.
