(* ===== verification/Notes.v ===== *)
(** Editor deltas of item notes (core/src/doc.rs): validation of a UTF-16
    delta, conversion of a Loro scalar delta to UTF-16, full replaces, and
    composition of two UTF-16 deltas. A text is the list of its [char]s
    (Unicode scalar values). *)
From S2P Require Import Prelude.
From S2P Require Import Registers.

(** ** Texts *)

Definition len_utf16 (c : N) : nat := if (c <? 0x10000)%N then 1 else 2.

Definition encode_char (c : N) : list N :=
  if (c <? 0x10000)%N then [c]
  else [0xD800 + (c - 0x10000) / 0x400; 0xDC00 + (c - 0x10000) mod 0x400]%N.

(** [str::encode_utf16]. *)
Definition encode_utf16 (cs : list N) : list N := cs ≫= encode_char.

Definition is_high (u : N) : bool := ((0xD800 <=? u) && (u <? 0xDC00))%N.
Definition is_low (u : N) : bool := ((0xDC00 <=? u) && (u <? 0xE000))%N.

(** [String::from_utf16_lossy]: an unpaired surrogate becomes U+FFFD. *)
Fixpoint from_utf16_lossy (us : list N) : list N :=
  match us with
  | [] => []
  | u :: rest =>
      if is_high u then
        match rest with
        | v :: rest' =>
            if is_low v
            then (0x10000 + (u - 0xD800) * 0x400 + (v - 0xDC00))%N :: from_utf16_lossy rest'
            else 0xFFFD%N :: from_utf16_lossy rest
        | [] => [0xFFFD%N]
        end
      else if is_low u then 0xFFFD%N :: from_utf16_lossy rest
      else u :: from_utf16_lossy rest
  end.

(** A [char]: a scalar value, not a surrogate. *)
Definition is_char (c : N) : Prop := (c < 0xD800 \/ 0xE000 <= c < 0x110000)%N.

(** The [char]s of a UTF-8 string. *)
Fixpoint utf8_chars (bs : list N) : list N :=
  match bs with
  | [] => []
  | b :: r =>
      if (b <? 0x80)%N then b :: utf8_chars r
      else if (b <? 0xE0)%N then
        match r with
        | c :: r => ((b - 0xC0) * 64 + (c - 0x80))%N :: utf8_chars r
        | _ => []
        end
      else if (b <? 0xF0)%N then
        match r with
        | c :: d :: r => (((b - 0xE0) * 64 + (c - 0x80)) * 64 + (d - 0x80))%N :: utf8_chars r
        | _ => []
        end
      else
        match r with
        | c :: d :: e :: r =>
            ((((b - 0xF0) * 64 + (c - 0x80)) * 64 + (d - 0x80)) * 64 + (e - 0x80))%N
              :: utf8_chars r
        | _ => []
        end
  end.
Definition chars (s : string) : list N := utf8_chars (bytes s).

(** ** Deltas *)

(** One operation of an editor delta, in UTF-16 code units. *)
Inductive NotesDeltaOp : Type :=
  | Retain (retain : nat)
  | Insert (insert : list N)
  | Delete (delete : nat).

#[export] Instance NotesDeltaOp_eq_dec : EqDecision NotesDeltaOp.
Proof. solve_decision. Defined.

(** A Loro text delta, in Unicode scalars; its attributes are dropped. *)
Inductive TextDelta : Type :=
  | TRetain (retain : nat)
  | TInsert (insert : list N)
  | TDelete (delete : nat).

Definition bad (what : string) : DocError := Invalid ("notes delta: " +:+ what).

(** UTF-16 offsets that begin a scalar, from offset [off]. *)
Fixpoint scalar_offsets (off : nat) (cs : list N) : list nat :=
  match cs with
  | [] => []
  | c :: cs => off :: scalar_offsets (off + len_utf16 c) cs
  end.

Definition checked_add (a b : nat) : option nat :=
  if (N.of_nat (a + b) <=? usize_max)%N then Some (a + b) else None.

Fixpoint validate_loop (boundaries : gset nat) (total pos : nat) (delta : list NotesDeltaOp)
    : result DocError unit :=
  match delta with
  | [] => Ok tt
  | Retain n :: delta =>
      match checked_add pos n with
      | None => Err (bad "overflow")
      | Some pos =>
          if total <? pos then Err (bad "retain past end")
          else validate_loop boundaries total pos delta
      end
  | Delete n :: delta =>
      match checked_add pos n with
      | None => Err (bad "overflow")
      | Some end_ =>
          if total <? end_ then Err (bad "delete past end")
          else if bool_decide (pos ∉ boundaries) || bool_decide (end_ ∉ boundaries)
          then Err (bad "delete splits a surrogate pair")
          else
            let removed := end_ - pos in
            let boundaries :=
              list_to_set ((fun b => if end_ <=? b then b - removed else b) <$>
                 base.filter (fun b => b < pos \/ end_ <= b) (elements boundaries)) in
            validate_loop boundaries (total - removed) pos delta
      end
  | Insert s :: delta =>
      if bool_decide (pos ∉ boundaries) then Err (bad "insert splits a surrogate pair")
      else
        let len := length (encode_utf16 s) in
        let boundaries : gset nat :=
          list_to_set ((fun b => if pos <=? b then b + len else b) <$> elements boundaries) in
        let boundaries := list_to_set (scalar_offsets pos s) ∪ boundaries in
        validate_loop boundaries (total + len) (pos + len) delta
  end.

Definition validate_utf16_delta (current : list N) (delta : list NotesDeltaOp)
    : result DocError unit :=
  let total := length (encode_utf16 current) in
  validate_loop (list_to_set (scalar_offsets 0 current ++ [total])) total 0 delta.

(** Scalar delta to UTF-16 delta; [rest] is [chars[cursor..]]. *)
Fixpoint from_scalar_loop (rest : list N) (delta : list TextDelta)
    : option (list NotesDeltaOp * list N) :=
  match delta with
  | [] => Some ([], rest)
  | TRetain n :: delta =>
      if n <=? length rest then
        match from_scalar_loop (drop n rest) delta with
        | Some (out, post) =>
            Some (Retain (length (encode_utf16 (take n rest))) :: out, take n rest ++ post)
        | None => None
        end
      else None
  | TDelete n :: delta =>
      if n <=? length rest then
        match from_scalar_loop (drop n rest) delta with
        | Some (out, post) => Some (Delete (length (encode_utf16 (take n rest))) :: out, post)
        | None => None
        end
      else None
  | TInsert s :: delta =>
      match from_scalar_loop rest delta with
      | Some (out, post) => Some (Insert s :: out, s ++ post)
      | None => None
      end
  end.
Definition utf16_delta_from_scalar (pre : list N) (delta : list TextDelta)
    : option (list NotesDeltaOp * list N) := from_scalar_loop pre delta.

Definition replace_delta (pre post : list N) : list NotesDeltaOp :=
  if decide (pre = post) then []
  else
    let len := length (encode_utf16 pre) in
    (if 0 <? len then [Delete len] else [])
    ++ (if decide (post = []) then [] else [Insert post]).

(** ** Composition *)

Inductive Cur : Type :=
  | CRetain (n : nat)
  | CInsert (u : list N)
  | CDelete (n : nat).

Definition to_cur (op : NotesDeltaOp) : Cur :=
  match op with
  | Retain n => CRetain n
  | Insert s => CInsert (encode_utf16 s)
  | Delete n => CDelete n
  end.

Definition of_cur (c : Cur) : NotesDeltaOp :=
  match c with
  | CRetain n => Retain n
  | CDelete n => Delete n
  | CInsert u => Insert (from_utf16_lossy u)
  end.

(** [push] on the output, held in reverse. *)
Definition push_cur (out : list Cur) (c : Cur) : list Cur :=
  match out, c with
  | CRetain x :: out, CRetain y => CRetain (x + y) :: out
  | CDelete x :: out, CDelete y => CDelete (x + y) :: out
  | CInsert x :: out, CInsert y => CInsert (x ++ y) :: out
  | _, c => c :: out
  end.

(** The loop; the head of each list is its current operation. Every step
    consumes an operation or shortens one, so the sizes of the operations
    bound the steps. *)
Fixpoint compose_loop (fuel : nat) (out a b : list Cur) : option (list Cur) :=
  match fuel with
  | 0 => None
  | S fuel =>
      match a, b with
      | [], [] => Some out
      | x :: a, [] => compose_loop fuel (push_cur out x) a []
      | [], y :: b => compose_loop fuel (push_cur out y) [] b
      | CDelete n :: a, b => compose_loop fuel (push_cur out (CDelete n)) a b
      | a, CInsert s :: b => compose_loop fuel (push_cur out (CInsert s)) a b
      | CRetain n :: a, CRetain m :: b =>
          let k := Nat.min n m in
          compose_loop fuel (push_cur out (CRetain k))
            (if k <? n then CRetain (n - k) :: a else a)
            (if k <? m then CRetain (m - k) :: b else b)
      | CRetain n :: a, CDelete m :: b =>
          let k := Nat.min n m in
          compose_loop fuel (push_cur out (CDelete k))
            (if k <? n then CRetain (n - k) :: a else a)
            (if k <? m then CDelete (m - k) :: b else b)
      | CInsert s :: a, CRetain m :: b =>
          let k := Nat.min (length s) m in
          compose_loop fuel (push_cur out (CInsert (take k s)))
            (if k <? length s then CInsert (drop k s) :: a else a)
            (if k <? m then CRetain (m - k) :: b else b)
      | CInsert s :: a, CDelete m :: b =>
          let k := Nat.min (length s) m in
          compose_loop fuel out
            (if k <? length s then CInsert (drop k s) :: a else a)
            (if k <? m then CDelete (m - k) :: b else b)
      end
  end.

Definition cur_size (c : Cur) : nat :=
  match c with CRetain n => S n | CDelete n => S n | CInsert u => S (length u) end.
Definition compose_fuel (a b : list Cur) : nat :=
  S (sum_list_with cur_size a + sum_list_with cur_size b).

Definition is_retain (op : NotesDeltaOp) : bool :=
  match op with Retain _ => true | _ => false end.

(** [while matches!(ops.last(), Some(Retain)) { ops.pop() }]. *)
Fixpoint drop_retains (rev_ops : list NotesDeltaOp) : list NotesDeltaOp :=
  match rev_ops with
  | Retain _ :: ops => drop_retains ops
  | ops => ops
  end.
Definition trim_delta (ops : list NotesDeltaOp) : list NotesDeltaOp :=
  rev (drop_retains (rev ops)).

Definition compose_utf16_deltas (a b : list NotesDeltaOp) : list NotesDeltaOp :=
  if decide (a = []) then trim_delta b
  else if decide (b = []) then trim_delta a
  else
    let ca := to_cur <$> a in
    let cb := to_cur <$> b in
    match compose_loop (compose_fuel ca cb) [] ca cb with
    | Some out => trim_delta (of_cur <$> rev out)
    | None => []
    end.

(** ** The notes delta of one translated change *)

(** The conversion loop of [emit_notes_delta]. *)
Fixpoint convert_deltas (out : list NotesDeltaOp) (cur : list N) (deltas : list (list TextDelta))
    : option (list NotesDeltaOp * list N) :=
  match deltas with
  | [] => Some (out, cur)
  | d :: deltas =>
      match utf16_delta_from_scalar cur d with
      | Some (ops, next) => convert_deltas (compose_utf16_deltas out ops) next deltas
      | None => None
      end
  end.

(** The delta emitted for a subscribed item whose shadow is [shadow]; [[]]
    emits nothing. *)
Definition notes_delta_out (shadow : list N) (deltas : list (list TextDelta)) (post : list N)
    : list NotesDeltaOp :=
  if decide (deltas = []) then replace_delta shadow post
  else match convert_deltas [] shadow deltas with
       | Some (out, cur) => if decide (cur = post) then out else replace_delta shadow post
       | None => replace_delta shadow post
       end.

(** ** What a delta does to a text *)

(** Applying a delta to code units, [None] past the end. *)
Fixpoint apply_delta (d : list NotesDeltaOp) (us : list N) : option (list N) :=
  match d with
  | [] => Some us
  | Retain n :: d =>
      if n <=? length us then app (take n us) <$> apply_delta d (drop n us) else None
  | Insert s :: d => app (encode_utf16 s) <$> apply_delta d us
  | Delete n :: d => if n <=? length us then apply_delta d (drop n us) else None
  end.

(** The edits of [apply_notes_delta] as the text container performs them:
    [insert_utf16] and [delete_utf16] at scalar boundaries. *)
Fixpoint split_utf16 (n : nat) (cs : list N) : option (list N * list N) :=
  match n, cs with
  | 0, _ => Some ([], cs)
  | _, [] => None
  | _, c :: cs =>
      if len_utf16 c <=? n
      then prod_map (cons c) id <$> split_utf16 (n - len_utf16 c) cs
      else None
  end.

Fixpoint edit_text (cs : list N) (pos : nat) (delta : list NotesDeltaOp) : option (list N) :=
  match delta with
  | [] => Some cs
  | Retain n :: delta => edit_text cs (pos + n) delta
  | Delete n :: delta =>
      match split_utf16 pos cs with
      | Some (l, r) =>
          match split_utf16 n r with
          | Some (_, r) => edit_text (l ++ r) pos delta
          | None => None
          end
      | None => None
      end
  | Insert s :: delta =>
      match split_utf16 pos cs with
      | Some (l, r) => edit_text (l ++ s ++ r) (pos + length (encode_utf16 s)) delta
      | None => None
      end
  end.

(** Deltas that cut texts at scalar boundaries: what one operation reads,
    outputs and leaves. *)
Inductive cur_step : Cur -> list N -> list N -> list N -> Prop :=
  | step_retain c r : cur_step (CRetain (length (encode_utf16 c))) (c ++ r) c r
  | step_delete c r : cur_step (CDelete (length (encode_utf16 c))) (c ++ r) [] r
  | step_insert s r : Forall is_char s -> cur_step (CInsert (encode_utf16 s)) r s r.

Inductive cur_run : list Cur -> list N -> list N -> list N -> Prop :=
  | run_nil cs : cur_run [] cs [] cs
  | run_cons c d cs p r q t :
      cur_step c cs p r -> cur_run d r q t -> cur_run (c :: d) cs (p ++ q) t.

(** [d] turns the text [cs] into [ws], cutting only at scalar boundaries. *)
Definition cur_applies (d : list Cur) (cs ws : list N) : Prop :=
  exists p r, cur_run d cs p r /\ ws = p ++ r.

(** ** UTF-16 *)

Lemma encode_utf16_app s t : encode_utf16 (s ++ t) = encode_utf16 s ++ encode_utf16 t.
Proof. apply bind_app. Qed.

Lemma length_encode_char c : length (encode_char c) = len_utf16 c.
Proof. unfold encode_char, len_utf16. by destruct (c <? _)%N. Qed.

Lemma from_utf16_lossy_encode s : Forall is_char s -> from_utf16_lossy (encode_utf16 s) = s.
Proof.
  induction 1 as [|c s Hc Hs IH]; [done|]. cbn [encode_utf16 mbind list_bind].
  fold (encode_utf16 s). unfold encode_char. destruct (c <? 0x10000)%N eqn:E; cbn [app].
  - apply N.ltb_lt in E. cbn [from_utf16_lossy].
    assert (Hh : is_high c = false).
    { unfold is_high. apply andb_false_iff. rewrite N.leb_gt, N.ltb_ge.
      destruct Hc; lia. }
    assert (Hl : is_low c = false).
    { unfold is_low. apply andb_false_iff. rewrite N.leb_gt, N.ltb_ge. destruct Hc; lia. }
    by rewrite Hh, Hl, IH.
  - apply N.ltb_ge in E. destruct Hc as [Hc|[_ Hc]]; [lia|].
    assert (Hd : ((c - 0x10000) / 0x400 < 0x400)%N) by (apply N.Div0.div_lt_upper_bound; lia).
    assert (Hm : ((c - 0x10000) mod 0x400 < 0x400)%N) by (apply N.mod_lt; lia).
    pose proof (N.div_mod (c - 0x10000) 0x400 ltac:(lia)) as Hdm.
    revert Hd Hm Hdm. generalize ((c - 0x10000) / 0x400)%N ((c - 0x10000) mod 0x400)%N.
    intros q r Hq Hr Hqr. cbn [from_utf16_lossy].
    assert (Hh : is_high (0xD800 + q) = true).
    { unfold is_high. apply andb_true_iff. rewrite N.leb_le, N.ltb_lt. lia. }
    assert (Hl : is_low (0xDC00 + r) = true).
    { unfold is_low. apply andb_true_iff. rewrite N.leb_le, N.ltb_lt. lia. }
    rewrite Hh, Hl, IH. f_equal. lia.
Qed.

(** ** Runs *)

Lemma cur_run_app d1 d2 cs p r q t :
  cur_run d1 cs p r -> cur_run d2 r q t -> cur_run (d1 ++ d2) cs (p ++ q) t.
Proof.
  intros H1 H2. induction H1 as [|c d cs p r q' t' Hs Hr IH]; [done|].
  rewrite <- app_assoc. econstructor; [done|]. by apply IH.
Qed.

Lemma cur_run_app_inv d1 d2 cs p t :
  cur_run (d1 ++ d2) cs p t -> exists p1 p2 r, cur_run d1 cs p1 r /\ cur_run d2 r p2 t /\ p = p1 ++ p2.
Proof.
  revert cs p. induction d1 as [|c d1 IH]; intros cs p H; cbn in H.
  - exists [], p, cs. split_and!; [constructor|done|done].
  - inversion H as [|? ? ? p0 r q ? Hs Hr]; subst.
    destruct (IH _ _ Hr) as (p1 & p2 & r' & H1 & H2 & ->).
    exists (p0 ++ p1), p2, r'. split_and!; [by econstructor|done|by rewrite app_assoc].
Qed.

Lemma cur_run_one c cs p r : cur_step c cs p r -> cur_run [c] cs p r.
Proof. intros H. rewrite <- (app_nil_r p). econstructor; [done|constructor]. Qed.

Lemma cur_run_one_inv c cs p r : cur_run [c] cs p r -> cur_step c cs p r.
Proof.
  intros H. inversion H as [|? ? ? p0 r0 q ? Hs Hr]; subst. inversion Hr; subst.
  by rewrite app_nil_r.
Qed.

(** Merging equal neighbours does not change what the output does. *)
Lemma push_cur_run out c cs p r q t :
  cur_run (rev out) cs p r -> cur_step c r q t -> cur_run (rev (push_cur out c)) cs (p ++ q) t.
Proof.
  intros Ho Hc.
  assert (Hplain : cur_run (rev (c :: out)) cs (p ++ q) t).
  { cbn [rev]. eapply cur_run_app; [done|]. by apply cur_run_one. }
  destruct out as [|x out]; [done|].
  cbn [rev] in Ho, Hplain. apply cur_run_app_inv in Ho as (p1 & p2 & r' & H1 & H2 & ->).
  apply cur_run_one_inv in H2. rewrite <- app_assoc.
  destruct x, c; cbn [push_cur rev] in *; try (by rewrite app_assoc);
    (eapply cur_run_app; [exact H1|]); apply cur_run_one;
    inversion H2; subst; inversion Hc; subst.
  - rewrite <- length_app, <- encode_utf16_app, app_assoc. constructor.
  - rewrite <- encode_utf16_app. constructor. by apply Forall_app.
  - rewrite <- length_app, <- encode_utf16_app, app_assoc. constructor.
Qed.

Lemma encode_utf16_length_0 s : length (encode_utf16 s) = 0 -> s = [].
Proof.
  destruct s as [|c s]; [done|]. cbn [encode_utf16 mbind list_bind]. rewrite length_app.
  unfold encode_char. destruct (c <? _)%N; cbn; lia.
Qed.

(** Two prefixes of one text: one extends the other, as their lengths tell. *)
Lemma two_prefixes (c1 r1 c2 r2 : list N) :
  c1 ++ r1 = c2 ++ r2 ->
  (exists d, c2 = c1 ++ d /\ r1 = d ++ r2
     /\ length (encode_utf16 c2) = length (encode_utf16 c1) + length (encode_utf16 d))
  \/ (exists d, c1 = c2 ++ d /\ r2 = d ++ r1
     /\ length (encode_utf16 c1) = length (encode_utf16 c2) + length (encode_utf16 d)).
Proof.
  intros H. apply app_eq_app in H as [k [[-> ->]|[-> ->]]].
  - right. exists k. by rewrite encode_utf16_app, length_app.
  - left. exists k. by rewrite encode_utf16_app, length_app.
Qed.

Lemma cur_applies_nil cs ws : cur_applies [] cs ws <-> ws = cs.
Proof.
  split.
  - intros (p & r & H & ->). inversion H; by subst.
  - intros ->. exists [], cs. split; [constructor|done].
Qed.

Lemma cur_applies_cons c d cs ws :
  cur_applies (c :: d) cs ws <->
  exists p r ws', cur_step c cs p r /\ cur_applies d r ws' /\ ws = p ++ ws'.
Proof.
  split.
  - intros (p & r & H & ->). inversion H as [|? ? ? p0 r0 q ? Hs Hr]; subst.
    exists p0, r0, (q ++ r). split_and!; [done|by exists q, r|by rewrite app_assoc].
  - intros (p & r & ws' & Hs & (q & t & Hr & ->) & ->). exists (p ++ q), t.
    split; [by econstructor|by rewrite app_assoc].
Qed.

(** What is left of an operation cut after its prefix [c]. *)
Lemma retain_rest c e d r ws :
  cur_applies d r ws ->
  cur_applies
    (if length (encode_utf16 c) <? length (encode_utf16 (c ++ e))
     then CRetain (length (encode_utf16 (c ++ e)) - length (encode_utf16 c)) :: d else d)
    (e ++ r) (e ++ ws).
Proof.
  intros H. rewrite encode_utf16_app, length_app. case_match eqn:E.
  - rewrite Nat.add_comm, Nat.add_sub. apply cur_applies_cons. exists e, r, ws.
    split_and!; [constructor|done|done].
  - apply Nat.ltb_ge in E. by rewrite (encode_utf16_length_0 e) by lia.
Qed.

Lemma delete_rest c e d r ws :
  cur_applies d r ws ->
  cur_applies
    (if length (encode_utf16 c) <? length (encode_utf16 (c ++ e))
     then CDelete (length (encode_utf16 (c ++ e)) - length (encode_utf16 c)) :: d else d)
    (e ++ r) ws.
Proof.
  intros H. rewrite encode_utf16_app, length_app. case_match eqn:E.
  - rewrite Nat.add_comm, Nat.add_sub. apply cur_applies_cons. exists [], r, ws.
    split_and!; [constructor|done|done].
  - apply Nat.ltb_ge in E. by rewrite (encode_utf16_length_0 e) by lia.
Qed.

Lemma insert_rest c e d r ws :
  Forall is_char e -> cur_applies d r ws ->
  cur_applies
    (if length (encode_utf16 c) <? length (encode_utf16 (c ++ e))
     then CInsert (drop (length (encode_utf16 c)) (encode_utf16 (c ++ e))) :: d else d)
    r (e ++ ws).
Proof.
  intros He H. rewrite encode_utf16_app, length_app, drop_app_length. case_match eqn:E.
  - apply cur_applies_cons. exists e, r, ws. split_and!; [by constructor|done|done].
  - apply Nat.ltb_ge in E. by rewrite (encode_utf16_length_0 e) by lia.
Qed.

Definition sizes (d : list Cur) : nat := sum_list_with cur_size d.

(** The step of the loop on a given pair of heads, [IH] being the loop's
    correctness on less fuel. *)
Section compose.
Context (fuel : nat).
Definition compose_ok_at (fuel : nat) : Prop := forall out a b u0 p0 u vs ws,
  sizes a + sizes b < fuel ->
  cur_run (rev out) u0 p0 u -> cur_applies a u vs -> cur_applies b vs ws ->
  exists res, compose_loop fuel out a b = Some res
    /\ exists p r, cur_run (rev res) u0 p r /\ p ++ r = p0 ++ ws.
Hypothesis IH : compose_ok_at fuel.
Context (out a b : list Cur) (u0 p0 u vs ws : list N).
Hypothesis Hout : cur_run (rev out) u0 p0 u.

Lemma compose_delete y n :
  sizes (CDelete n :: a) + sizes (y :: b) < S fuel ->
  cur_applies (CDelete n :: a) u vs -> cur_applies (y :: b) vs ws ->
  exists res, compose_loop (S fuel) out (CDelete n :: a) (y :: b) = Some res
    /\ exists p r, cur_run (rev res) u0 p r /\ p ++ r = p0 ++ ws.
Proof.
  intros Hf (p & r & v & Hs & Ha & ->)%cur_applies_cons Hb.
  assert (E : compose_loop (S fuel) out (CDelete n :: a) (y :: b)
              = compose_loop fuel (push_cur out (CDelete n)) a (y :: b)) by (by destruct y).
  rewrite E. inversion Hs; subst. rewrite app_nil_l in Hb.
  eapply IH; [|rewrite <- (app_nil_r p0); by eapply push_cur_run|exact Ha|exact Hb].
  unfold sizes in *. cbn in *. lia.
Qed.

Lemma compose_insert x s :
  (forall n, x <> CDelete n) -> sizes (x :: a) + sizes (CInsert s :: b) < S fuel ->
  cur_applies (x :: a) u vs -> cur_applies (CInsert s :: b) vs ws ->
  exists res, compose_loop (S fuel) out (x :: a) (CInsert s :: b) = Some res
    /\ exists p r, cur_run (rev res) u0 p r /\ p ++ r = p0 ++ ws.
Proof.
  intros Hx Hf Ha (p & r & w & Hs & Hb & ->)%cur_applies_cons.
  assert (E : compose_loop (S fuel) out (x :: a) (CInsert s :: b)
              = compose_loop fuel (push_cur out (CInsert s)) (x :: a) b).
  { destruct x; try done. by destruct (Hx n). }
  rewrite E, app_assoc. inversion Hs; subst.
  eapply IH; [|eapply push_cur_run; [exact Hout|by constructor]|exact Ha|exact Hb].
  unfold sizes in *. cbn in *. lia.
Qed.

Lemma compose_retain_retain n m :
  sizes (CRetain n :: a) + sizes (CRetain m :: b) < S fuel ->
  cur_applies (CRetain n :: a) u vs -> cur_applies (CRetain m :: b) vs ws ->
  exists res, compose_loop (S fuel) out (CRetain n :: a) (CRetain m :: b) = Some res
    /\ exists p r, cur_run (rev res) u0 p r /\ p ++ r = p0 ++ ws.
Proof.
  intros Hf (p & r & v & Hs & Ha & ->)%cur_applies_cons (q & t & w & Ht & Hb & ->)%cur_applies_cons.
  inversion Hs; subst. inversion Ht as [? ? E Eq| |]; subst. cbn [compose_loop].
  destruct (two_prefixes _ _ _ _ (eq_sym Eq)) as [(e & -> & -> & Hl)|(e & -> & -> & Hl)].
  - rewrite Nat.min_l, Nat.ltb_irrefl by lia. rewrite <- (app_assoc p e w), app_assoc.
    eapply IH; [|eapply push_cur_run; [exact Hout|constructor]|exact Ha|by apply retain_rest].
    unfold sizes in *. cbn in *. case_match; cbn; lia.
  - rewrite Nat.min_r, Nat.ltb_irrefl by lia. rewrite app_assoc.
    eapply IH; [|eapply push_cur_run; [exact Hout|rewrite <- app_assoc; constructor]
               |by apply retain_rest|exact Hb].
    unfold sizes in *. cbn in *. case_match; cbn; lia.
Qed.

Lemma compose_retain_delete n m :
  sizes (CRetain n :: a) + sizes (CDelete m :: b) < S fuel ->
  cur_applies (CRetain n :: a) u vs -> cur_applies (CDelete m :: b) vs ws ->
  exists res, compose_loop (S fuel) out (CRetain n :: a) (CDelete m :: b) = Some res
    /\ exists p r, cur_run (rev res) u0 p r /\ p ++ r = p0 ++ ws.
Proof.
  intros Hf (p & r & v & Hs & Ha & ->)%cur_applies_cons (q & t & w & Ht & Hb & ->)%cur_applies_cons.
  inversion Hs; subst. inversion Ht as [|? ? E Eq|]; subst. cbn [compose_loop].
  destruct (two_prefixes _ _ _ _ (eq_sym Eq)) as [(e & -> & -> & Hl)|(e & -> & -> & Hl)].
  - rewrite Nat.min_l, Nat.ltb_irrefl by lia. rewrite <- (app_nil_r p0).
    eapply IH; [|eapply push_cur_run; [exact Hout|constructor]|exact Ha|by apply delete_rest].
    unfold sizes in *. cbn in *. case_match; cbn; lia.
  - rewrite Nat.min_r, Nat.ltb_irrefl by lia. rewrite <- (app_nil_r p0).
    eapply IH; [|eapply push_cur_run; [exact Hout|rewrite <- app_assoc; constructor]
               |by apply retain_rest|exact Hb].
    unfold sizes in *. cbn in *. case_match; cbn; lia.
Qed.

Lemma compose_insert_retain s m :
  sizes (CInsert s :: a) + sizes (CRetain m :: b) < S fuel ->
  cur_applies (CInsert s :: a) u vs -> cur_applies (CRetain m :: b) vs ws ->
  exists res, compose_loop (S fuel) out (CInsert s :: a) (CRetain m :: b) = Some res
    /\ exists p r, cur_run (rev res) u0 p r /\ p ++ r = p0 ++ ws.
Proof.
  intros Hf (p & r & v & Hs & Ha & ->)%cur_applies_cons (q & t & w & Ht & Hb & ->)%cur_applies_cons.
  inversion Hs as [| |? ? Hch]; subst. inversion Ht as [? ? E Eq| |]; subst. cbn [compose_loop].
  destruct (two_prefixes _ _ _ _ (eq_sym Eq)) as [(e & -> & -> & Hl)|(e & -> & -> & Hl)].
  - rewrite Nat.min_l, Nat.ltb_irrefl, take_ge by lia. rewrite <- (app_assoc p e w), app_assoc.
    eapply IH; [|eapply push_cur_run; [exact Hout|by constructor]|exact Ha|by apply retain_rest].
    unfold sizes in *. cbn in *. case_match; cbn; lia.
  - rewrite Nat.min_r, Nat.ltb_irrefl by lia. rewrite app_assoc.
    replace (take (length (encode_utf16 q)) (encode_utf16 (q ++ e))) with (encode_utf16 q)
      by (by rewrite encode_utf16_app, take_app_length).
    apply Forall_app in Hch as [Hq He].
    eapply IH; [|eapply push_cur_run; [exact Hout|by constructor]|by apply insert_rest|exact Hb].
    unfold sizes in *. cbn in *. case_match; cbn; rewrite ?length_drop; lia.
Qed.

Lemma compose_insert_delete s m :
  sizes (CInsert s :: a) + sizes (CDelete m :: b) < S fuel ->
  cur_applies (CInsert s :: a) u vs -> cur_applies (CDelete m :: b) vs ws ->
  exists res, compose_loop (S fuel) out (CInsert s :: a) (CDelete m :: b) = Some res
    /\ exists p r, cur_run (rev res) u0 p r /\ p ++ r = p0 ++ ws.
Proof.
  intros Hf (p & r & v & Hs & Ha & ->)%cur_applies_cons (q & t & w & Ht & Hb & ->)%cur_applies_cons.
  inversion Hs as [| |? ? Hch]; subst. inversion Ht as [|? ? E Eq|]; subst. cbn [compose_loop].
  destruct (two_prefixes _ _ _ _ (eq_sym Eq)) as [(e & -> & -> & Hl)|(e & -> & -> & Hl)].
  - rewrite Nat.min_l, Nat.ltb_irrefl by lia.
    eapply IH; [|exact Hout|exact Ha|by apply delete_rest].
    unfold sizes in *. cbn in *. case_match; cbn; lia.
  - rewrite Nat.min_r, Nat.ltb_irrefl by lia. apply Forall_app in Hch as [Hq He].
    eapply IH; [|exact Hout|by apply insert_rest|exact Hb].
    unfold sizes in *. cbn in *. case_match; cbn; rewrite ?length_drop; lia.
Qed.
End compose.

Lemma compose_loop_ok fuel : compose_ok_at fuel.
Proof.
  induction fuel as [|fuel IH]; intros out a b u0 p0 u vs ws Hf Hout Ha Hb; [lia|].
  destruct a as [|x a]; [|pose proof Ha as (pa & ra & va & Hsa & Haa & Hva)%cur_applies_cons].
  - apply cur_applies_nil in Ha as ->. destruct b as [|y b].
    + apply cur_applies_nil in Hb as ->. exists out. split; [done|]. by exists p0, u.
    + apply cur_applies_cons in Hb as (p & r & w & Hs & Hb & ->).
      assert (E : compose_loop (S fuel) out [] (y :: b)
                  = compose_loop fuel (push_cur out y) [] b) by (by destruct y).
      rewrite E, app_assoc. eapply IH; [|by eapply push_cur_run| |exact Hb].
      * unfold sizes in *. cbn in *. destruct y; cbn in *; lia.
      * by apply cur_applies_nil.
  - destruct b as [|y b].
    { apply cur_applies_nil in Hb as ->.
      assert (E : compose_loop (S fuel) out (x :: a) [] = compose_loop fuel (push_cur out x) a [])
        by (by destruct x).
      rewrite E, Hva, app_assoc. eapply IH; [|by eapply push_cur_run|exact Haa|by apply cur_applies_nil].
      unfold sizes in *. cbn in *. destruct x; cbn in *; lia. }
    destruct x as [n|s|n]; [| |by eapply compose_delete].
    + destruct y as [m|s|m]; [|by eapply compose_insert|].
      * by eapply compose_retain_retain.
      * by eapply compose_retain_delete.
    + destruct y as [m|t|m]; [|by eapply compose_insert|].
      * by eapply compose_insert_retain.
      * by eapply compose_insert_delete.
Qed.

(** Deltas over scalar boundaries, as the editor's operations. *)
Definition delta_applies (d : list NotesDeltaOp) (cs ws : list N) : Prop :=
  cur_applies (to_cur <$> d) cs ws.

Lemma apply_delta_applies d cs ws :
  delta_applies d cs ws -> apply_delta d (encode_utf16 cs) = Some (encode_utf16 ws).
Proof.
  unfold delta_applies. revert cs ws. induction d as [|op d IH]; intros cs ws H; cbn in H.
  - by apply cur_applies_nil in H as ->.
  - apply cur_applies_cons in H as (p & r & w & Hs & Hd & ->). specialize (IH _ _ Hd).
    destruct op as [n|s|n]; cbn [to_cur apply_delta] in *; inversion Hs; subst.
    + rewrite !encode_utf16_app, length_app. rewrite (proj2 (Nat.leb_le _ _)) by lia.
      by rewrite take_app_length, drop_app_length, IH.
    + rewrite IH. cbn. rewrite encode_utf16_app. by f_equal; f_equal.
    + rewrite !encode_utf16_app, length_app. rewrite (proj2 (Nat.leb_le _ _)) by lia.
      by rewrite drop_app_length, IH.
Qed.

Lemma trim_delta_applies d cs ws : delta_applies d cs ws -> delta_applies (trim_delta d) cs ws.
Proof.
  unfold delta_applies, trim_delta. rewrite <- (rev_involutive d) at 1.
  generalize (rev d). clear d. induction l as [|op d IH]; [done|]. intros H.
  destruct op as [n|s|n]; try exact H. cbn [drop_retains]. apply IH.
  cbn [rev] in H. rewrite fmap_app in H. destruct H as (p & r & H & ->).
  apply cur_run_app_inv in H as (p1 & p2 & r' & H1 & H2 & ->).
  apply cur_run_one_inv in H2. inversion H2; subst.
  exists p1, (p2 ++ r). split; [done|by rewrite app_assoc].
Qed.

(** What a run outputs can be written back as editor operations. *)
Lemma to_of_cur d cs p r : cur_run d cs p r -> to_cur <$> (of_cur <$> d) = d.
Proof.
  induction 1 as [|c d cs p r q t Hs Hr IH]; [done|]. cbn. rewrite IH. f_equal.
  inversion Hs; subst; try done. cbn. by rewrite from_utf16_lossy_encode.
Qed.

Lemma compose_applies a b cs vs ws :
  delta_applies a cs vs -> delta_applies b vs ws ->
  delta_applies (compose_utf16_deltas a b) cs ws.
Proof.
  intros Ha Hb. unfold compose_utf16_deltas.
  case_decide as Ea; [subst a; apply cur_applies_nil in Ha as ->; by apply trim_delta_applies|].
  case_decide as Eb; [subst b; apply cur_applies_nil in Hb as ->; by apply trim_delta_applies|].
  destruct (compose_loop_ok (compose_fuel (to_cur <$> a) (to_cur <$> b)) [] (to_cur <$> a)
    (to_cur <$> b) cs [] cs vs ws) as (res & -> & p & r & Hrun & Hpr).
  - unfold compose_fuel, sizes. lia.
  - constructor.
  - exact Ha.
  - exact Hb.
  - apply trim_delta_applies. unfold delta_applies. rewrite (to_of_cur _ _ _ _ Hrun).
    exists p, r. by rewrite Hpr.
Qed.

(** A scalar delta whose inserted texts are made of [char]s. *)
Definition delta_chars (d : list TextDelta) : Prop :=
  Forall (fun op => match op with TInsert s => Forall is_char s | _ => True end) d.

Lemma from_scalar_applies d : forall pre out post,
  delta_chars d -> utf16_delta_from_scalar pre d = Some (out, post) -> delta_applies out pre post.
Proof.
  unfold utf16_delta_from_scalar, delta_applies.
  induction d as [|op d IH]; intros pre out post Hch H; cbn in H.
  - simplify_eq. by apply cur_applies_nil.
  - apply Forall_cons in Hch as [Hop Hch].
    destruct op as [n|s|n].
    + destruct (n <=? length pre) eqn:En; [|done].
      destruct (from_scalar_loop _ d) as [[o q]|] eqn:E; [|done]. simplify_eq. cbn.
      apply cur_applies_cons. exists (take n pre), (drop n pre), q. split_and!; [|by eapply IH|done].
      rewrite <- (take_drop n pre) at 2. constructor.
    + destruct (from_scalar_loop _ d) as [[o q]|] eqn:E; [|done]. simplify_eq. cbn.
      apply cur_applies_cons. exists s, pre, q. split_and!; [by constructor|by eapply IH|done].
    + destruct (n <=? length pre) eqn:En; [|done].
      destruct (from_scalar_loop _ d) as [[o q]|] eqn:E; [|done]. simplify_eq. cbn.
      apply cur_applies_cons. exists [], (drop n pre), post. split_and!; [|by eapply IH|done].
      rewrite <- (take_drop n pre) at 2. constructor.
Qed.

Lemma replace_delta_applies pre post :
  Forall is_char post -> delta_applies (replace_delta pre post) pre post.
Proof.
  intros Hch. unfold replace_delta. case_decide as E; [subst; by apply cur_applies_nil|].
  unfold delta_applies. rewrite fmap_app.
  assert (Htail : forall r, cur_applies (to_cur <$> (if decide (post = []) then [] else [Insert post]))
                             r (post ++ r)).
  { intros r. case_decide as Ep; [subst; by apply cur_applies_nil|].
    apply cur_applies_cons. exists post, r, r. split_and!; [by constructor|by apply cur_applies_nil|done]. }
  pose proof (Htail []) as Hpost. rewrite app_nil_r in Hpost.
  destruct (0 <? length (encode_utf16 pre)) eqn:El; cbn [fmap list_fmap app].
  - apply cur_applies_cons. exists [], [], post. split_and!; [|exact Hpost|done].
    rewrite <- (app_nil_r pre) at 2. constructor.
  - apply Nat.ltb_ge in El. rewrite (encode_utf16_length_0 pre) by lia.
    exact Hpost.
Qed.

Lemma convert_deltas_applies ds : forall out pre cur res post,
  Forall delta_chars ds -> delta_applies out pre cur ->
  convert_deltas out cur ds = Some (res, post) -> delta_applies res pre post.
Proof.
  induction ds as [|d ds IH]; intros out pre cur res post Hch Hout H; cbn in H; [by simplify_eq|].
  apply Forall_cons in Hch as [Hd Hch].
  destruct (utf16_delta_from_scalar cur d) as [[ops next]|] eqn:E; [|done].
  eapply IH; [done| |exact H]. eapply compose_applies; [exact Hout|].
  by eapply from_scalar_applies.
Qed.

(** C38: The notes delta a subscribed editor receives for a translated change turns
    the text it held, in UTF-16 units, into the text after the change: through
    any number of captured scalar deltas, and through the full replace when
    they do not fit; an empty delta (nothing is emitted) means the text did not
    change. *)
Theorem notes_delta_converges shadow deltas post :
  Forall delta_chars deltas -> Forall is_char post ->
  apply_delta (notes_delta_out shadow deltas post) (encode_utf16 shadow)
  = Some (encode_utf16 post).
Proof.
  intros Hd Hp. apply apply_delta_applies. unfold notes_delta_out.
  case_decide; [by apply replace_delta_applies|].
  destruct (convert_deltas [] shadow deltas) as [[out cur]|] eqn:E;
    [|by apply replace_delta_applies].
  case_decide as Ec; [subst cur|by apply replace_delta_applies].
  eapply convert_deltas_applies; [exact Hd| |exact E]. by apply cur_applies_nil.
Qed.

(** Composing two deltas that cut at scalar boundaries equals applying the
    first and then the second. *)
Theorem compose_is_sequential a b cs vs ws :
  delta_applies a cs vs -> delta_applies b vs ws ->
  apply_delta (compose_utf16_deltas a b) (encode_utf16 cs)
  = apply_delta a (encode_utf16 cs) ≫= apply_delta b.
Proof.
  intros Ha Hb. rewrite (apply_delta_applies _ _ _ Ha). cbn.
  rewrite (apply_delta_applies _ _ _ Hb). by eapply apply_delta_applies, compose_applies.
Qed.

Definition witness_delta : list TextDelta := [TRetain 1; TDelete 1; TInsert [120%N]; TRetain 1].

Lemma notes_delta_converges_witness :
  notes_delta_out [97; 0x1F600; 98]%N [witness_delta; [TRetain 2; TInsert [0x1F601%N]]]
    [97; 120; 0x1F601; 98]%N
  = [Retain 1; Delete 2; Insert [120; 0x1F601]%N]
  /\ apply_delta (notes_delta_out [97; 0x1F600; 98]%N
        [witness_delta; [TRetain 2; TInsert [0x1F601%N]]] [97; 120; 0x1F601; 98]%N)
       (encode_utf16 [97; 0x1F600; 98]%N) = Some (encode_utf16 [97; 120; 0x1F601; 98]%N).
Proof.
  split; [vm_compute; reflexivity|].
  apply notes_delta_converges; repeat constructor; unfold is_char; lia.
Defined.

Lemma compose_is_sequential_witness :
  apply_delta (compose_utf16_deltas [Insert [120%N]] [Retain 1; Delete 1]) (encode_utf16 [97; 98]%N)
  = apply_delta [Insert [120%N]] (encode_utf16 [97; 98]%N) ≫= apply_delta [Retain 1; Delete 1].
Proof.
  apply (compose_is_sequential _ _ [97; 98]%N [120; 97; 98]%N [120; 98]%N).
  - apply cur_applies_cons. exists [120%N], [97; 98]%N, [97; 98]%N.
    split_and!; [constructor; repeat constructor; unfold is_char; lia|by apply cur_applies_nil|done].
  - apply cur_applies_cons. exists [120%N], [97; 98]%N, [98]%N.
    split_and!; [apply (step_retain [120%N])| |done].
    apply cur_applies_cons. exists [], [98]%N, [98]%N.
    split_and!; [apply (step_delete [97%N])|by apply cur_applies_nil|done].
Defined.

(** ** Validation *)

(** The scalar boundaries of a text, as UTF-16 offsets. *)
Definition boundary (cs : list N) (b : nat) : Prop :=
  exists l r, cs = l ++ r /\ b = length (encode_utf16 l).

Lemma split_utf16_spec l r : split_utf16 (length (encode_utf16 l)) (l ++ r) = Some (l, r).
Proof.
  induction l as [|c l IH]; [by destruct r|]. cbn [encode_utf16 mbind list_bind app].
  fold (encode_utf16 l). rewrite length_app, length_encode_char.
  assert (Hc : 1 <= len_utf16 c) by (unfold len_utf16; destruct (c <? _)%N; lia).
  destruct (len_utf16 c + length (encode_utf16 l)) as [|n] eqn:En; [lia|].
  cbn [split_utf16]. rewrite (proj2 (Nat.leb_le _ _)) by lia.
  replace (S n - len_utf16 c) with (length (encode_utf16 l)) by lia. by rewrite IH.
Qed.

Lemma scalar_offsets_spec cs : forall off b,
  b ∈ scalar_offsets off cs <->
  exists l c r, cs = l ++ c :: r /\ b = off + length (encode_utf16 l).
Proof.
  induction cs as [|c cs IH]; intros off b; cbn [scalar_offsets].
  - split; [by intros ?%not_elem_of_nil|]. intros (l & x & r & E & _). by destruct l.
  - rewrite elem_of_cons, IH. split.
    + intros [->|(l & x & r & -> & ->)]; [exists [], c, cs; split; [done|cbn; lia]|].
      exists (c :: l), x, r. split; [done|]. cbn [encode_utf16 mbind list_bind].
      fold (encode_utf16 l). rewrite length_app, length_encode_char. lia.
    + intros (l & x & r & E & ->). destruct l as [|y l]; simplify_eq/=; [left; lia|right].
      exists l, x, r. split; [done|]. fold (encode_utf16 l).
      rewrite length_app, length_encode_char. lia.
Qed.

Lemma boundary_offsets cs b :
  boundary cs b <-> b ∈ scalar_offsets 0 cs ++ [length (encode_utf16 cs)].
Proof.
  rewrite elem_of_app, list_elem_of_singleton, scalar_offsets_spec. split.
  - intros (l & r & -> & ->). destruct r as [|c r]; [right; by rewrite app_nil_r|left].
    by exists l, c, r.
  - intros [(l & c & r & -> & ->)| -> ]; [by exists l, (c :: r)|].
    exists cs, []. by rewrite app_nil_r.
Qed.

Lemma boundary_le cs b : boundary cs b -> b <= length (encode_utf16 cs).
Proof. intros (l & r & -> & ->). rewrite encode_utf16_app, length_app. lia. Qed.

Lemma boundary_0 cs : boundary cs 0.
Proof. by exists [], cs. Qed.

Lemma boundary_end cs : boundary cs (length (encode_utf16 cs)).
Proof. exists cs, []. by rewrite app_nil_r. Qed.

Lemma boundary_app l r b :
  boundary (l ++ r) b <->
  boundary l b \/ exists b', boundary r b' /\ b = length (encode_utf16 l) + b'.
Proof.
  split.
  - intros (x & y & E & ->). destruct (two_prefixes _ _ _ _ E) as [(d & -> & -> & Hl)|(d & -> & -> & Hl)].
    + right. exists (length (encode_utf16 d)). split; [by exists d, y|done].
    + left. by exists x, d.
  - intros [(x & y & -> & ->)|(b' & (x & y & -> & ->) & ->)].
    + exists x, (y ++ r). by rewrite app_assoc.
    + exists (l ++ x), y. by rewrite encode_utf16_app, length_app, app_assoc.
Qed.

(** A boundary strictly inside the left part, or at or after its end. *)
Lemma boundary_app_lt l r b :
  boundary (l ++ r) b -> b < length (encode_utf16 l) -> boundary l b.
Proof. intros [?|(b' & _ & ->)]%boundary_app Hb; [done|lia]. Qed.

Lemma boundary_app_ge l r b :
  boundary (l ++ r) b -> length (encode_utf16 l) <= b ->
  exists b', boundary r b' /\ b = length (encode_utf16 l) + b'.
Proof.
  intros [H|?]%boundary_app Hb; [|done]. apply boundary_le in H.
  exists 0. split; [apply boundary_0|lia].
Qed.

Lemma boundaries_insert (B : gset nat) l s r :
  (forall b, b ∈ B <-> boundary (l ++ r) b) ->
  let pos := length (encode_utf16 l) in
  let len := length (encode_utf16 s) in
  forall b, b ∈ (list_to_set (scalar_offsets pos s) ∪
      list_to_set ((fun b => if pos <=? b then b + len else b) <$> elements B) : gset nat)
    <-> boundary (l ++ s ++ r) b.
Proof.
  intros HB pos len b.
  rewrite elem_of_union, !elem_of_list_to_set, scalar_offsets_spec, list_elem_of_fmap.
  rewrite !boundary_app. setoid_rewrite elem_of_elements. setoid_rewrite HB. split.
  - intros [(x & c & y & -> & ->)|(b0 & -> & Hb0)].
    + right. exists (length (encode_utf16 x)). split; [|done]. apply boundary_app. left.
      by exists x, (c :: y).
    + case_match eqn:E.
      * apply Nat.leb_le in E. right.
        destruct (boundary_app_ge l r b0 Hb0 E) as (b' & Hb' & ->).
        exists (len + b'). split; [|unfold pos; lia]. apply boundary_app. right. by exists b'.
      * apply Nat.leb_gt in E. left. by eapply boundary_app_lt.
  - intros [Hb|(b' & Hb' & ->)].
    + pose proof (boundary_le _ _ Hb) as Hle. destruct (decide (b = pos)) as [->|Hne].
      * destruct s as [|c s'] eqn:Es.
        -- right. exists pos. unfold pos at 2. rewrite Nat.leb_refl. split; [unfold len; cbn; lia|].
           apply boundary_app. by left.
        -- left. exists [], c, s'. split; [done|cbn; lia].
      * right. exists b. rewrite (proj2 (Nat.leb_gt _ _)) by (unfold pos in *; lia).
        split; [done|]. apply boundary_app. by left.
    + apply boundary_app in Hb' as [(x & y & -> & ->)|(b0 & Hb0 & ->)].
      * destruct y as [|c y].
        -- right. exists pos. rewrite Nat.leb_refl.
           split; [unfold len, pos; rewrite app_nil_r; lia|]. apply boundary_app. left. apply boundary_end.
        -- left. by exists x, c, y.
      * right. exists (pos + b0). rewrite (proj2 (Nat.leb_le _ _)) by lia.
        split; [unfold pos, len; lia|]. apply boundary_app. right. by exists b0.
Qed.

Lemma boundaries_delete (B : gset nat) l m r :
  (forall b, b ∈ B <-> boundary (l ++ m ++ r) b) ->
  let pos := length (encode_utf16 l) in
  let end_ := pos + length (encode_utf16 m) in
  forall b, b ∈ (list_to_set ((fun b => if end_ <=? b then b - (end_ - pos) else b) <$>
      base.filter (fun b => b < pos \/ end_ <= b) (elements B)) : gset nat)
    <-> boundary (l ++ r) b.
Proof.
  intros HB pos end_ b. rewrite elem_of_list_to_set, list_elem_of_fmap.
  setoid_rewrite list_elem_of_filter. setoid_rewrite elem_of_elements. setoid_rewrite HB.
  split.
  - intros (b0 & -> & Hr & Hb0). case_match eqn:E.
    + apply Nat.leb_le in E. rewrite app_assoc in Hb0.
      assert (Hl : length (encode_utf16 (l ++ m)) = end_) by (by rewrite encode_utf16_app, length_app).
      destruct (boundary_app_ge (l ++ m) r b0 Hb0) as (b' & Hb' & ->); [lia|].
      apply boundary_app. right. exists b'. split; [done|]. unfold end_, pos in *. lia.
    + apply Nat.leb_gt in E. destruct Hr as [Hr|]; [|lia].
      apply boundary_app. left. by eapply boundary_app_lt.
  - intros Hb. destruct (decide (b < pos)) as [Hlt|Hge].
    + exists b. rewrite (proj2 (Nat.leb_gt _ _)) by (unfold end_; lia).
      split_and!; [done|by left|]. apply boundary_app. left. by eapply boundary_app_lt.
    + destruct (boundary_app_ge l r b Hb) as (b' & Hb' & ->); [unfold pos in *; lia|].
      exists (end_ + b'). rewrite (proj2 (Nat.leb_le _ _)) by lia.
      split_and!; [unfold end_, pos in *; lia|right; lia|].
      apply boundary_app. right. exists (length (encode_utf16 m) + b').
      split; [|unfold end_, pos; lia]. apply boundary_app. right. by exists b'.
Qed.

Lemma validate_loop_ok delta : forall (B : gset nat) cs pos,
  (forall b, b ∈ B <-> boundary cs b) ->
  validate_loop B (length (encode_utf16 cs)) pos delta = Ok tt ->
  exists ts, edit_text cs pos delta = Some ts.
Proof.
  induction delta as [|[n|s|n] delta IH]; intros B cs pos HB Hv; cbn [validate_loop edit_text] in *.
  - by exists cs.
  - destruct (checked_add pos n) as [p|] eqn:Ea; [|done]. unfold checked_add in Ea.
    destruct (_ <=? _)%N; [|done]. injection Ea as <-.
    destruct (_ <? _) eqn:Et in Hv; [done|]. by eapply IH.
  - case_bool_decide as Hp; [done|].
    apply HB in Hp as (l & r & -> & ->). rewrite split_utf16_spec.
    eapply IH; [by apply boundaries_insert|].
    replace (length (encode_utf16 (l ++ s ++ r))) with
      (length (encode_utf16 (l ++ r)) + length (encode_utf16 s))
      by (rewrite !encode_utf16_app, !length_app; lia).
    exact Hv.
  - destruct (checked_add pos n) as [e|] eqn:Ea; [|done]. unfold checked_add in Ea.
    destruct (_ <=? _)%N; [|done]. injection Ea as <-.
    destruct (_ <? _) eqn:Et in Hv; [done|]. apply Nat.ltb_ge in Et.
    case_bool_decide as Hp; [done|]. case_bool_decide as He; [done|]. cbn [orb] in Hv.
    apply HB in Hp as (l & r1 & -> & ->).
    apply HB in He as (l2 & r & E & Hl2).
    assert (Hm : exists m, l2 = l ++ m /\ r1 = m ++ r).
    { destruct (two_prefixes _ _ _ _ E) as [(d & -> & -> & Hl)|(d & -> & -> & Hl)]; [by exists d|].
      rewrite (encode_utf16_length_0 d) in * by lia. exists []. by rewrite !app_nil_r. }
    destruct Hm as (m & -> & ->). rewrite split_utf16_spec.
    rewrite encode_utf16_app, length_app in Hl2.
    assert (Hn : n = length (encode_utf16 m)) by lia. subst n. rewrite split_utf16_spec.
    eapply IH; [by apply (boundaries_delete B l m r)|].
    replace (length (encode_utf16 (l ++ r))) with
      (length (encode_utf16 (l ++ m ++ r))
       - (length (encode_utf16 l) + length (encode_utf16 m) - length (encode_utf16 l)))
      by (rewrite !encode_utf16_app, !length_app; lia).
    exact Hv.
Qed.

(** A delta that passes validation is applied in full: every insert and delete
    falls on a scalar boundary of the text as edited so far, so no half-applied
    delta and no split surrogate pair can result. *)
Theorem validated_delta_applies cs delta :
  validate_utf16_delta cs delta = Ok tt -> exists ts, edit_text cs 0 delta = Some ts.
Proof.
  intros Hv. eapply validate_loop_ok; [|exact Hv].
  intros b. by rewrite elem_of_list_to_set, boundary_offsets.
Qed.

Lemma validated_delta_applies_witness :
  validate_utf16_delta [97; 0x1F600; 98]%N [Retain 1; Delete 2; Insert [120%N]] = Ok tt
  /\ validate_utf16_delta [97; 0x1F600; 98]%N [Retain 2; Insert [120%N]]
     = Err (bad "insert splits a surrogate pair")
  /\ exists ts, edit_text [97; 0x1F600; 98]%N 0 [Retain 1; Delete 2; Insert [120%N]] = Some ts.
Proof.
  assert (H : validate_utf16_delta [97; 0x1F600; 98]%N [Retain 1; Delete 2; Insert [120%N]] = Ok tt)
    by (vm_compute; reflexivity).
  split; [exact H|]. split; [vm_compute; reflexivity|].
  exact (validated_delta_applies _ _ H).
Defined.
