(* ===== verification/Events.v ===== *)
(** Change events (core/src/events.rs) and the whole-state diffs that produce
    them (core/src/doc.rs, [diff_items], [diff_lists], [diff_settings]), with
    the consumer the events are meant for: a store mirroring each list's open
    items by remove-then-insert. *)
From S2P Require Import Prelude.
From S2P Require Import Lifecycle.
From S2P Require Import Registers.
From S2P Require Import Notes.

(** [ItemAdded] carries every register of the item, the fields of [ItemView],
    and the open index. *)
Inductive AppEvent : Type :=
  | FullResync
  | ItemAdded (item : ItemView) (open_index : option nat)
  | ItemRemoved (id : string)
  | ItemMoved (id : string) (open_index : option nat)
  | ItemTextChanged (id text : string)
  | ItemNotesChanged (id notes : string)
  | ItemNotesDelta (id : string) (delta : list NotesDeltaOp)
  | ItemDeadlineChanged (id : string) (deadline : option string)
  | ItemWhenChanged (id : string) (when : option string)
  | ItemDurationChanged (id : string) (duration : option Z)
  | ItemPlaceChanged (id : string) (place : option Place)
  | ItemLifecycleChanged (id : string) (state : WorkflowState) (lifecycle_at : Z)
      (started_at done_at binned_at : option Z) (open_index : option nat)
  | ItemListChanged (id list_id : string) (open_index : option nat)
  | ListAdded (id name : string) (created_at : Z) (archived_at : option Z) (index : nat)
  | ListRemoved (id : string)
  | ListMoved (id : string) (index : nat)
  | ListRenamed (id name : string)
  | ListIconChanged (id : string) (icon : option string)
  | ListDefaultViewChanged (id : string) (view : option DefaultView)
  | ListArchivedChanged (id : string) (archived_at : option Z)
  | FocusChanged
  | SettingsChanged (s : SettingsView).


(** ** Diffs *)

(** The position and view of an id in a slice; a later row of the same id
    shadows an earlier one, as in a collected HashMap. *)
Definition rows_by_id {V} (id_of : V -> string) (l : list V) : gmap string (nat * V) :=
  foldl (fun m '(i, v) => <[id_of v := (i, v)]> m) ∅ (imap pair l).

(** [open_pos]: the running open position of each open item in its list. *)
Fixpoint open_positions (counters : gmap string nat) (post : list ItemView)
    : gmap string nat :=
  match post with
  | [] => ∅
  | it :: post =>
      if iv_is_open it then
        let n := default 0 (counters !! iv_list_id it) in
        let later := open_positions (<[iv_list_id it := S n]> counters) post in
        (* a later row of the same id overwrites *)
        match later !! iv_id it with Some _ => later | None => <[iv_id it := n]> later end
      else open_positions counters post
  end.

Definition when {A} (b : bool) (x : A) : list A := if b then [x] else [].

#[export] Instance spec_float_eq_dec : EqDecision SpecFloat.spec_float.
Proof. solve_decision. Defined.
#[export] Instance Place_eq_dec : EqDecision Place.
Proof. solve_decision. Defined.

(** The events of one surviving item. *)
Definition diff_item (pre_idx post_idx : nat) (pre post : ItemView) (open_index : option nat)
    : list AppEvent :=
  let id := iv_id post in
  when (bool_decide (iv_text pre <> iv_text post)) (ItemTextChanged id (iv_text post))
  ++ when (bool_decide (iv_notes pre <> iv_notes post)) (ItemNotesChanged id (iv_notes post))
  ++ when (bool_decide (iv_deadline pre <> iv_deadline post))
       (ItemDeadlineChanged id (iv_deadline post))
  ++ when (bool_decide (iv_when pre <> iv_when post)) (ItemWhenChanged id (iv_when post))
  ++ when (bool_decide (iv_duration pre <> iv_duration post))
       (ItemDurationChanged id (iv_duration post))
  ++ when (bool_decide (iv_place pre <> iv_place post)) (ItemPlaceChanged id (iv_place post))
  ++ when (bool_decide (iv_state pre <> iv_state post)
           || bool_decide (iv_lifecycle_at pre <> iv_lifecycle_at post)
           || bool_decide (iv_started_at pre <> iv_started_at post)
           || bool_decide (iv_done_at pre <> iv_done_at post)
           || bool_decide (iv_binned_at pre <> iv_binned_at post))
       (ItemLifecycleChanged id (iv_state post) (iv_lifecycle_at post) (iv_started_at post)
          (iv_done_at post) (iv_binned_at post) open_index)
  ++ when (bool_decide (iv_list_id pre <> iv_list_id post))
       (ItemListChanged id (iv_list_id post) open_index)
  ++ when (bool_decide (pre_idx <> post_idx)) (ItemMoved id open_index).

Definition diff_items (pre post : list ItemView) : list AppEvent :=
  let pre_by_id := rows_by_id iv_id pre in
  let post_by_id := rows_by_id iv_id post in
  let open_pos := open_positions ∅ post in
  omap (fun it => match post_by_id !! iv_id it with
                  | None => Some (ItemRemoved (iv_id it))
                  | Some _ => None
                  end) pre
  ++ ('(post_idx, post_it) ← imap pair post;
      let open_index := open_pos !! iv_id post_it in
      match pre_by_id !! iv_id post_it with
      | None => [ItemAdded post_it open_index]
      | Some (pre_idx, pre_it) => diff_item pre_idx post_idx pre_it post_it open_index
      end).

Definition diff_list (pre_idx post_idx : nat) (pre post : ListView) : list AppEvent :=
  let id := lv_id post in
  when (bool_decide (lv_name pre <> lv_name post)) (ListRenamed id (lv_name post))
  ++ when (bool_decide (lv_icon pre <> lv_icon post)) (ListIconChanged id (lv_icon post))
  ++ when (bool_decide (lv_default_view pre <> lv_default_view post))
       (ListDefaultViewChanged id (lv_default_view post))
  ++ when (bool_decide (lv_archived_at pre <> lv_archived_at post))
       (ListArchivedChanged id (lv_archived_at post))
  ++ when (bool_decide (pre_idx <> post_idx)) (ListMoved id post_idx).

Definition diff_lists (pre post : list ListView) : list AppEvent :=
  let pre_by_id := rows_by_id lv_id pre in
  let post_by_id := rows_by_id lv_id post in
  omap (fun l => match post_by_id !! lv_id l with
                 | None => Some (ListRemoved (lv_id l))
                 | Some _ => None
                 end) pre
  ++ ('(post_idx, post_l) ← imap pair post;
      match pre_by_id !! lv_id post_l with
      | None => [ListAdded (lv_id post_l) (lv_name post_l) (lv_created_at post_l)
                   (lv_archived_at post_l) post_idx]
      | Some (pre_idx, pre_l) => diff_list pre_idx post_idx pre_l post_l
      end).

Definition settings_changed (s : SettingsView) : AppEvent := SettingsChanged s.

Definition diff_settings (pre post : SettingsView) : list AppEvent :=
  when (bool_decide (pre <> post)) (settings_changed post).

(** ** The consumer *)

(** A store of the open items of one list: every event that carries an open
    index removes the item and inserts it there. *)
Definition place_item (id : string) (open_index : option nat) (arr : list string) : list string :=
  let arr := base.filter (fun x => x <> id) arr in
  match open_index with
  | Some i => insert_at (Nat.min i (length arr)) id arr
  | None => arr
  end.

Definition consume (arr : list string) (e : AppEvent) : list string :=
  match e with
  | ItemAdded it i => place_item (iv_id it) i arr
  | ItemRemoved id => place_item id None arr
  | ItemMoved id i => place_item id i arr
  | ItemLifecycleChanged id _ _ _ _ _ i => place_item id i arr
  | ItemListChanged id _ i => place_item id i arr
  | _ => arr
  end.

(** The open items of a one-list walk. *)
Definition open_ids_of (l : list ItemView) : list string :=
  iv_id <$> base.filter (fun it => Is_true (iv_is_open it)) l.

(** ** Lookups *)

Lemma rows_by_id_Some {V} (id_of : V -> string) (l : list V) id i v :
  NoDup (id_of <$> l) -> rows_by_id id_of l !! id = Some (i, v) <-> l !! i = Some v /\ id_of v = id.
Proof.
  induction l as [|x l IH] using rev_ind; intros Hnd.
  - unfold rows_by_id. cbn. rewrite lookup_empty, lookup_nil. split; [done|]. by intros [? _].
  - rewrite fmap_app in Hnd. apply NoDup_app in Hnd as (Hnd & Hx & _).
    unfold rows_by_id in *. rewrite imap_app, foldl_app. cbn. rewrite lookup_insert, Nat.add_0_r.
    case_decide as Hid.
    + split.
      * intros [= <- <-]. split; [by apply list_lookup_middle|done].
      * intros [Hl Hv]. apply lookup_app_Some in Hl as [Hl|[Hge Hl]].
        -- exfalso. apply (Hx id); [|rewrite <- Hid; by left].
           apply list_elem_of_fmap. exists v. split; [done|]. by eapply list_elem_of_lookup_2.
        -- apply list_lookup_singleton_Some in Hl as [Hi <-]. do 2 f_equal. lia.
    + rewrite IH by done. split; intros [Hl Hv].
      * split; [|done]. by apply lookup_app_l_Some.
      * split; [|done]. apply lookup_app_Some in Hl as [Hl|[_ Hl]]; [done|].
        apply list_lookup_singleton_Some in Hl as [_ <-]. done.
Qed.

Lemma rows_by_id_None {V} (id_of : V -> string) (l : list V) id :
  NoDup (id_of <$> l) -> rows_by_id id_of l !! id = None <-> id ∉ id_of <$> l.
Proof.
  intros Hnd. rewrite eq_None_not_Some. split; intros H.
  - intros (v & -> & (i & Hi)%list_elem_of_lookup)%list_elem_of_fmap. apply H.
    exists (i, v). by apply rows_by_id_Some.
  - intros [[i v] [Hi <-]%rows_by_id_Some]; [|done]. apply H. apply list_elem_of_fmap.
    exists v. split; [done|]. by eapply list_elem_of_lookup_2.
Qed.

Lemma open_positions_notin post : forall c id, id ∉ iv_id <$> post -> open_positions c post !! id = None.
Proof.
  induction post as [|it post IH]; intros c id Hid; [done|]. cbn in Hid |- *.
  apply not_elem_of_cons in Hid as [H1 H2].
  destruct (iv_is_open it); [|by apply IH]. case_match; [by apply IH|].
  rewrite lookup_insert_ne by done. by apply IH.
Qed.

(** In a one-list walk the open index counts the open items before. *)
Lemma open_positions_spec l done_ it post : forall c,
  (forall x, x ∈ done_ ++ it :: post -> iv_list_id x = l) ->
  NoDup (iv_id <$> done_ ++ it :: post) ->
  open_positions c (done_ ++ it :: post) !! iv_id it =
    if iv_is_open it then Some (default 0 (c !! l) + length (open_ids_of done_)) else None.
Proof.
  induction done_ as [|x done_ IH]; intros c Hl Hnd; cbn [app open_positions].
  - cbn in Hnd. apply NoDup_cons in Hnd as [Hid Hnd].
    rewrite (Hl it) by (by left). destruct (iv_is_open it); [|by apply open_positions_notin].
    rewrite open_positions_notin by done. rewrite lookup_insert_eq. cbn. f_equal. lia.
  - cbn [app fmap list_fmap] in Hnd. apply NoDup_cons in Hnd as [Hx Hnd].
    assert (Hl' : forall y, y ∈ done_ ++ it :: post -> iv_list_id y = l)
      by (intros y Hy; apply Hl; by right).
    rewrite (Hl x) by (by left). unfold open_ids_of. rewrite filter_cons.
    destruct (iv_is_open x) eqn:Eo.
    + rewrite decide_True by done. cbn [fmap list_fmap length].
      assert (Hne : iv_id x <> iv_id it).
      { intros E. apply Hx. rewrite E, fmap_app. apply elem_of_app. right. by left. }
      assert (E : open_positions (<[l := S (default 0 (c !! l))]> c) (done_ ++ it :: post) !! iv_id it
                  = if iv_is_open it then Some (default 0 (c !! l) + S (length (open_ids_of done_)))
                    else None).
      { rewrite IH, lookup_insert_eq by done. cbn. destruct (iv_is_open it); [|done]. f_equal. lia. }
      destruct (open_positions _ (done_ ++ it :: post) !! iv_id x); [exact E|].
      rewrite lookup_insert_ne by done. exact E.
    + case_decide as Hd; [by destruct Hd|]. by apply IH.
Qed.

(** ** Convergence *)

Lemma place_item_at id i P R :
  id ∉ P ++ R -> length P = i -> place_item id (Some i) (P ++ R) = P ++ id :: R.
Proof.
  intros Hid <-. unfold place_item. rewrite list_filter_all by (by intros x Hx ->).
  rewrite Nat.min_l by (rewrite length_app; lia). unfold insert_at.
  by rewrite take_app_length, drop_app_length.
Qed.

Lemma filter_out_middle (id : string) P R :
  id ∉ P ++ R -> base.filter (fun x => x <> id) (P ++ id :: R) = P ++ R.
Proof.
  intros Hid. rewrite filter_app, filter_cons_False by tauto. rewrite <- filter_app.
  apply list_filter_all. by intros x Hx ->.
Qed.

Lemma place_item_again id i P R :
  id ∉ P ++ R -> length P = i -> place_item id (Some i) (P ++ id :: R) = P ++ id :: R.
Proof.
  intros Hid HP. unfold place_item. rewrite filter_out_middle by done.
  pose proof (place_item_at id i P R Hid HP) as H. unfold place_item in H.
  by rewrite list_filter_all in H by (by intros x Hx ->).
Qed.

Lemma place_item_None id P R : id ∉ P ++ R -> place_item id None (P ++ id :: R) = P ++ R.
Proof. intros Hid. unfold place_item. by apply filter_out_middle. Qed.

Lemma place_item_None_absent id arr : id ∉ arr -> place_item id None arr = arr.
Proof. intros Hid. unfold place_item. apply list_filter_all. by intros x Hx ->. Qed.

(** The events of a surviving item act as placements: at least one when its
    openness changed. *)
Lemma diff_item_consume i j pre post oi arr :
  iv_id pre = iv_id post ->
  foldl consume arr (diff_item i j pre post oi) = arr /\ iv_is_open pre = iv_is_open post
  \/ exists n, foldl consume arr (diff_item i j pre post oi)
               = Nat.iter (S n) (place_item (iv_id post) oi) arr.
Proof.
  intros Hid. unfold diff_item. rewrite !foldl_app.
  assert (Hnop : forall b e arr, (forall a, consume a e = a) -> foldl consume arr (when b e) = arr).
  { intros b e a He. destruct b; cbn; [apply He|done]. }
  rewrite !(Hnop _ (ItemTextChanged _ _)), !(Hnop _ (ItemNotesChanged _ _)),
    !(Hnop _ (ItemDeadlineChanged _ _)), !(Hnop _ (ItemWhenChanged _ _)),
    !(Hnop _ (ItemDurationChanged _ _)), !(Hnop _ (ItemPlaceChanged _ _)) by done.
  set (b1 := _ || _). set (b2 := bool_decide (iv_list_id pre <> _)).
  set (b3 := bool_decide (i <> j)).
  assert (Hb1 : b1 = false -> iv_is_open pre = iv_is_open post).
  { unfold b1. rewrite !orb_false_iff, !bool_decide_eq_false. intros ((((H1 & _) & _) & _) & H5).
    apply dec_stable in H1, H5. unfold iv_is_open, iv_is_binned. by rewrite H1, H5. }
  destruct b1, b2, b3; cbn [when foldl consume].
  1: right; by exists 2. 1: right; by exists 1. 1: right; by exists 1. 1: right; by exists 0.
  1: right; by exists 1. 1: right; by exists 0. 1: right; by exists 0. 
  left. auto.
Qed.

Definition pre_open (pre : list ItemView) (id : string) : bool :=
  match rows_by_id iv_id pre !! id with Some (_, v) => iv_is_open v | None => false end.

Lemma pre_open_row pre v : NoDup (iv_id <$> pre) -> v ∈ pre -> pre_open pre (iv_id v) = iv_is_open v.
Proof.
  intros Hnd [i Hi]%list_elem_of_lookup. unfold pre_open.
  by rewrite (proj2 (rows_by_id_Some iv_id pre (iv_id v) i v Hnd)).
Qed.

Lemma open_ids_of_filter pre l :
  NoDup (iv_id <$> pre) -> (forall v, v ∈ l -> v ∈ pre) ->
  open_ids_of l = base.filter (fun id => Is_true (pre_open pre id)) (iv_id <$> l).
Proof.
  intros Hnd Hl. unfold open_ids_of. induction l as [|v l IH]; [done|].
  rewrite fmap_cons, !filter_cons, (pre_open_row pre v) by (done || (apply Hl; by left)).
  assert (IH' := IH (fun x Hx => Hl x (list_elem_of_further _ _ _ Hx))).
  case_decide; cbn [fmap list_fmap]; [f_equal|]; exact IH'.
Qed.

Lemma consume_removed (gone : gmap string (nat * ItemView)) l : forall arr,
  foldl consume arr (omap (fun it => match gone !! iv_id it with
                                     | None => Some (ItemRemoved (iv_id it))
                                     | Some _ => None
                                     end) l)
  = base.filter (fun x => ~ (x ∈ iv_id <$> l /\ gone !! x = None)) arr.
Proof.
  induction l as [|it l IH]; intros arr.
  - cbn. symmetry. apply list_filter_all. intros x _ [Hx _]. by apply not_elem_of_nil in Hx.
  - cbn [omap list_omap]. destruct (gone !! iv_id it) as [r|] eqn:E.
    + rewrite IH. apply list_filter_iff. intros x. cbn [fmap list_fmap]. rewrite elem_of_cons.
      split; [|tauto]. intros Hn [[->|Hx] Hg]; [congruence|tauto].
    + cbn [foldl consume]. rewrite IH. unfold place_item. rewrite list_filter_filter.
      apply list_filter_iff. intros x. cbn [fmap list_fmap]. rewrite elem_of_cons.
      split; [|intros H; split; [tauto|intros ->; tauto]].
      intros [H1 H2] [[->|Hx] Hg]; tauto.
Qed.

Section converge.
Context (pre post : list ItemView) (l : string).
Hypothesis Hpre : NoDup (iv_id <$> pre).
Hypothesis Hpost : NoDup (iv_id <$> post).
Hypothesis Hl : forall it, it ∈ post -> iv_list_id it = l.

(** The open-before items still to be visited, in walk order. *)
Definition remaining (rest : list ItemView) : list string :=
  base.filter (fun id => Is_true (pre_open pre id)) (iv_id <$> rest).

Definition item_events (post_idx : nat) (it : ItemView) : list AppEvent :=
  let open_index := open_positions ∅ post !! iv_id it in
  match rows_by_id iv_id pre !! iv_id it with
  | None => [ItemAdded it open_index]
  | Some (pre_idx, pre_it) => diff_item pre_idx post_idx pre_it it open_index
  end.

Lemma item_events_step done_ it rest :
  post = done_ ++ it :: rest ->
  foldl consume (open_ids_of done_ ++ remaining (it :: rest)) (item_events (length done_) it)
  = open_ids_of (done_ ++ [it]) ++ remaining rest.
Proof.
  intros Hp. unfold item_events.
  assert (Hoi : open_positions ∅ post !! iv_id it
                = if iv_is_open it then Some (length (open_ids_of done_)) else None).
  { rewrite Hp, (open_positions_spec l) by (by rewrite <- Hp). done. }
  rewrite Hoi. set (P := open_ids_of done_). set (R := remaining rest).
  assert (Hnotin : iv_id it ∉ P ++ R).
  { rewrite Hp, fmap_app in Hpost. apply NoDup_app in Hpost as (_ & H1 & H2).
    cbn [fmap list_fmap] in H1, H2. apply NoDup_cons in H2 as [H2 _].
    rewrite elem_of_app. intros [H|H].
    - apply (H1 (iv_id it)); [|by left]. unfold P, open_ids_of in H.
      apply list_elem_of_fmap in H as (v & -> & [_ Hv]%list_elem_of_filter).
      apply list_elem_of_fmap. eauto.
    - apply list_elem_of_filter in H as [_ H]. done. }
  assert (Hdone : open_ids_of (done_ ++ [it])
                  = P ++ if iv_is_open it then [iv_id it] else []).
  { unfold P, open_ids_of. rewrite filter_app, fmap_app, filter_cons. f_equal.
    by destruct (iv_is_open it). }
  assert (Hrem : remaining (it :: rest)
                 = (if pre_open pre (iv_id it) then [iv_id it] else []) ++ R).
  { unfold R, remaining. rewrite fmap_cons, filter_cons.
    by destruct (pre_open pre (iv_id it)). }
  rewrite Hdone, Hrem, <- app_assoc. clear Hdone Hrem.
  destruct (rows_by_id iv_id pre !! iv_id it) as [[i v]|] eqn:Er.
  - apply rows_by_id_Some in Er as [Hi Hv]; [|done].
    assert (Hpo : pre_open pre (iv_id it) = iv_is_open v).
    { rewrite <- Hv. apply pre_open_row; [done|]. by eapply list_elem_of_lookup_2. }
    rewrite Hpo.
    destruct (diff_item_consume i (length done_) v it
      (if iv_is_open it then Some (length P) else None)
      (P ++ (if iv_is_open v then [iv_id it] else []) ++ R) Hv) as [[-> <-]|[n ->]]; [done|].
    assert (Hfix : place_item (iv_id it) (if iv_is_open it then Some (length P) else None)
                     (P ++ (if iv_is_open it then [iv_id it] else []) ++ R)
                   = P ++ (if iv_is_open it then [iv_id it] else []) ++ R).
    { destruct (iv_is_open it); [by apply place_item_again|by apply place_item_None_absent]. }
    assert (Hone : place_item (iv_id it) (if iv_is_open it then Some (length P) else None)
                     (P ++ (if iv_is_open v then [iv_id it] else []) ++ R)
                   = P ++ (if iv_is_open it then [iv_id it] else []) ++ R).
    { destruct (iv_is_open it), (iv_is_open v); cbn [app].
      - by apply place_item_again.
      - by apply place_item_at.
      - by apply place_item_None.
      - by apply place_item_None_absent. }
    rewrite Nat.iter_succ_r, Hone. induction n as [|n IH]; [done|].
    by rewrite Nat.iter_succ, IH.
  - unfold pre_open. rewrite Er. cbn [foldl consume app].
    destruct (iv_is_open it); [by apply place_item_at|by apply place_item_None_absent].
Qed.

Lemma item_events_all rest : forall done_,
  post = done_ ++ rest ->
  foldl consume (open_ids_of done_ ++ remaining rest)
    ('(j, it) ← imap (fun j it => (length done_ + j, it)) rest; item_events j it)
  = open_ids_of post.
Proof.
  induction rest as [|it rest IH]; intros done_ Hp.
  - cbn. rewrite app_nil_r. by rewrite Hp, app_nil_r.
  - rewrite imap_cons. cbn [mbind list_bind]. rewrite Nat.add_0_r, foldl_app.
    rewrite item_events_step by done.
    rewrite <- (IH (done_ ++ [it])) by (by rewrite <- app_assoc). f_equal.
    f_equal. apply imap_ext. intros j x _. cbn. rewrite length_app. cbn. f_equal. lia.
Qed.
End converge.

(** A consumer of [diff_items] that removes and re-inserts at the open index
    converges on the open projection of the new state, whatever was added,
    removed, closed, reopened or edited, when the surviving items of the list
    keep their relative order (as in every bulk lifecycle change and import). *)
Theorem diff_items_converges pre post l :
  NoDup (iv_id <$> pre) -> NoDup (iv_id <$> post) ->
  (forall it, it ∈ post -> iv_list_id it = l) ->
  base.filter (fun id => id ∈ iv_id <$> post) (iv_id <$> pre)
  = base.filter (fun id => id ∈ iv_id <$> pre) (iv_id <$> post) ->
  foldl consume (open_ids_of pre) (diff_items pre post) = open_ids_of post.
Proof.
  intros Hpre Hpost Hl Hord. unfold diff_items. rewrite foldl_app, consume_removed.
  assert (Hstart : base.filter (fun x => ~ (x ∈ iv_id <$> pre /\ rows_by_id iv_id post !! x = None))
            (open_ids_of pre) = remaining pre post).
  { rewrite (open_ids_of_filter pre pre) by done. unfold remaining.
    transitivity (base.filter (fun id => Is_true (pre_open pre id))
                    (base.filter (fun id => id ∈ iv_id <$> post) (iv_id <$> pre))).
    - rewrite !list_filter_filter. apply list_filter_ext_in. intros x Hx.
      rewrite rows_by_id_None by done. destruct (decide (x ∈ iv_id <$> post)); tauto.
    - rewrite Hord, list_filter_filter. apply list_filter_iff. intros x.
      split; [tauto|]. intros Ho. split; [done|]. unfold pre_open in Ho.
      destruct (rows_by_id iv_id pre !! x) as [[i v]|] eqn:E; [|done].
      apply rows_by_id_Some in E as [Hi <-]; [|done]. apply list_elem_of_fmap.
      exists v. split; [done|]. by eapply list_elem_of_lookup_2. }
  rewrite Hstart. exact (item_events_all pre post l Hpre Hpost Hl post [] eq_refl).
Qed.

(** An open backlog item of the inbox. *)
Definition plain_item (id : string) (binned : option Z) : ItemView :=
  mkItemView id id "" LIST_INBOX Backlog 0 None None None None 0 None None None binned.

Definition plain_items (ids : list string) : list ItemView := (fun id => plain_item id None) <$> ids.

(** Without that order hypothesis the events do not converge: an item whose walk
    position happens to be unchanged is never re-placed, and the items moved
    around it can leave it out of place. *)
Theorem diff_items_reorder_diverges :
  let pre := plain_items ["p"; "c"; "q"; "r"] in
  let post := plain_items ["q"; "c"; "r"; "p"] in
  foldl consume (open_ids_of pre) (diff_items pre post) = ["q"; "r"; "c"; "p"]
  /\ open_ids_of post = ["q"; "c"; "r"; "p"].
Proof. split; vm_compute; reflexivity. Qed.

Lemma diff_items_converges_witness :
  let pre := plain_items ["a"; "b"; "c"; "d"] in
  let post := [plain_item "n" None; plain_item "b" (Some 5%Z); plain_item "c" None; plain_item "d" None] in
  foldl consume (open_ids_of pre) (diff_items pre post) = open_ids_of post
  /\ open_ids_of post = ["n"; "c"; "d"].
Proof.
  assert (Hnd : forall l : list string, bool_decide (NoDup l) = true -> NoDup l)
    by (intros l; apply bool_decide_eq_true).
  split; [|vm_compute; reflexivity].
  apply (diff_items_converges _ _ LIST_INBOX).
  - apply Hnd. vm_compute. reflexivity.
  - apply Hnd. vm_compute. reflexivity.
  - intros it Hit. repeat (apply elem_of_cons in Hit as [->|Hit]; [reflexivity|]).
    by apply not_elem_of_nil in Hit.
  - vm_compute. reflexivity.
Defined.

(** The diff of a list that appears carries neither its icon nor its saved
    default view: rows that differ only there give the same events. *)
Theorem diff_lists_added_registers_lost pre l icon view :
  NoDup (lv_id <$> pre) -> lv_id l ∉ lv_id <$> pre ->
  let l' := mkListView (lv_id l) (lv_name l) icon view (lv_archived_at l) (lv_created_at l) in
  diff_lists pre (pre ++ [l']) = diff_lists pre (pre ++ [l]).
Proof.
  intros Hnd Hl l'. unfold diff_lists. rewrite !imap_app, !bind_app.
  assert (Hrow : forall x, lv_id x = lv_id l -> rows_by_id lv_id pre !! lv_id x = None).
  { intros x ->. by apply rows_by_id_None. }
  assert (Hsame : forall id, rows_by_id lv_id (pre ++ [l']) !! id = None
                             <-> rows_by_id lv_id (pre ++ [l]) !! id = None).
  { intros id. assert (Hn : forall y, lv_id y = lv_id l -> NoDup (lv_id <$> pre ++ [y])).
    { intros y Hy. rewrite fmap_app. apply NoDup_app. split_and!; [done| |apply NoDup_singleton].
      intros i Hi ->%list_elem_of_singleton. by rewrite Hy in Hi. }
    rewrite !rows_by_id_None by auto. by rewrite !fmap_app, !fmap_cons. }
  f_equal; [|f_equal; cbn; by rewrite !Hrow].
  revert Hsame. generalize (rows_by_id lv_id (pre ++ [l'])) (rows_by_id lv_id (pre ++ [l])).
  clear. intros A B Hsame. induction pre as [|x pre IH]; [done|]. cbn [omap list_omap].
  pose proof (Hsame (lv_id x)) as Hx.
  destruct (A !! lv_id x), (B !! lv_id x); [exact IH|naive_solver|naive_solver|].
  f_equal. exact IH.
Qed.

Lemma diff_lists_added_registers_lost_witness :
  let l := mkListView "id" "name" None None None 0 in
  let l' := mkListView "id" "name" (Some "icon") (Some VIEW_BOARD) None 0 in
  l' <> l /\ diff_lists [] ([] ++ [l']) = diff_lists [] ([] ++ [l])
  /\ diff_lists [] [l'] = [ListAdded "id" "name" 0 None 0].
Proof.
  split; [done|]. split; [|vm_compute; reflexivity].
  apply (diff_lists_added_registers_lost [] (mkListView "id" "name" None None None 0)
           (Some "icon") (Some VIEW_BOARD)); [constructor|].
  apply not_elem_of_nil.
Defined.
