(* ===== verification/DocCore.v ===== *)
(** The document state and the primitives its operations are written in
    (core/src/doc.rs, [Doc]): the held containers, the projection index, the
    event queue and the commit log, a state-and-error monad over them, the
    container operations of Loro lifted into it, and the reads every mutation
    starts from. *)
From S2P Require Import Prelude.
From S2P Require Import Loro.
From S2P Require Import Lifecycle.
From S2P Require Import Registers.
From S2P Require Import Projection.
From S2P Require Import Notes.
From S2P Require Import Events.

(** ** The document *)

(** What a [Doc] holds: its root containers (orders keyed by their root
    name), the projection index, the queued events, the origins of its commits
    in order ([None] is the default origin), how often the undo manager was
    re-armed, the notes shadows, and the author of local items. [d_minted] and
    [d_ticks] count the ids minted and the clock readings so far. *)
Record Doc : Type := mkDoc {
  d_items : gmap string slot;
  d_lists : list slot;
  d_settings : lmap;
  d_orders : gmap string (list slot);
  d_focus : list slot;
  d_index : ProjectionIndex;
  d_events : list AppEvent;
  d_commits : list (option string);
  d_rearmed : nat;
  d_shadows : gmap string (list N);
  d_author : option string;
  d_minted : nat;
  d_ticks : nat;
}.

Definition with_items (f : gmap string slot -> gmap string slot) (d : Doc) : Doc :=
  mkDoc (f (d_items d)) (d_lists d) (d_settings d) (d_orders d) (d_focus d) (d_index d)
    (d_events d) (d_commits d) (d_rearmed d) (d_shadows d) (d_author d) (d_minted d) (d_ticks d).
Definition with_lists (f : list slot -> list slot) (d : Doc) : Doc :=
  mkDoc (d_items d) (f (d_lists d)) (d_settings d) (d_orders d) (d_focus d) (d_index d)
    (d_events d) (d_commits d) (d_rearmed d) (d_shadows d) (d_author d) (d_minted d) (d_ticks d).
Definition with_settings (f : lmap -> lmap) (d : Doc) : Doc :=
  mkDoc (d_items d) (d_lists d) (f (d_settings d)) (d_orders d) (d_focus d) (d_index d)
    (d_events d) (d_commits d) (d_rearmed d) (d_shadows d) (d_author d) (d_minted d) (d_ticks d).
Definition with_orders (f : gmap string (list slot) -> gmap string (list slot)) (d : Doc) : Doc :=
  mkDoc (d_items d) (d_lists d) (d_settings d) (f (d_orders d)) (d_focus d) (d_index d)
    (d_events d) (d_commits d) (d_rearmed d) (d_shadows d) (d_author d) (d_minted d) (d_ticks d).
Definition with_focus (f : list slot -> list slot) (d : Doc) : Doc :=
  mkDoc (d_items d) (d_lists d) (d_settings d) (d_orders d) (f (d_focus d)) (d_index d)
    (d_events d) (d_commits d) (d_rearmed d) (d_shadows d) (d_author d) (d_minted d) (d_ticks d).
Definition with_index (f : ProjectionIndex -> ProjectionIndex) (d : Doc) : Doc :=
  mkDoc (d_items d) (d_lists d) (d_settings d) (d_orders d) (d_focus d) (f (d_index d))
    (d_events d) (d_commits d) (d_rearmed d) (d_shadows d) (d_author d) (d_minted d) (d_ticks d).
Definition with_events (f : list AppEvent -> list AppEvent) (d : Doc) : Doc :=
  mkDoc (d_items d) (d_lists d) (d_settings d) (d_orders d) (d_focus d) (d_index d)
    (f (d_events d)) (d_commits d) (d_rearmed d) (d_shadows d) (d_author d) (d_minted d) (d_ticks d).
Definition with_commits (f : list (option string) -> list (option string)) (d : Doc) : Doc :=
  mkDoc (d_items d) (d_lists d) (d_settings d) (d_orders d) (d_focus d) (d_index d)
    (d_events d) (f (d_commits d)) (d_rearmed d) (d_shadows d) (d_author d) (d_minted d) (d_ticks d).
Definition with_rearmed (f : nat -> nat) (d : Doc) : Doc :=
  mkDoc (d_items d) (d_lists d) (d_settings d) (d_orders d) (d_focus d) (d_index d)
    (d_events d) (d_commits d) (f (d_rearmed d)) (d_shadows d) (d_author d) (d_minted d) (d_ticks d).
Definition with_shadows (f : gmap string (list N) -> gmap string (list N)) (d : Doc) : Doc :=
  mkDoc (d_items d) (d_lists d) (d_settings d) (d_orders d) (d_focus d) (d_index d)
    (d_events d) (d_commits d) (d_rearmed d) (f (d_shadows d)) (d_author d) (d_minted d) (d_ticks d).
Definition with_minted (f : nat -> nat) (d : Doc) : Doc :=
  mkDoc (d_items d) (d_lists d) (d_settings d) (d_orders d) (d_focus d) (d_index d)
    (d_events d) (d_commits d) (d_rearmed d) (d_shadows d) (d_author d) (f (d_minted d)) (d_ticks d).
Definition with_ticks (f : nat -> nat) (d : Doc) : Doc :=
  mkDoc (d_items d) (d_lists d) (d_settings d) (d_orders d) (d_focus d) (d_index d)
    (d_events d) (d_commits d) (d_rearmed d) (d_shadows d) (d_author d) (d_minted d) (f (d_ticks d)).

(** A document with nothing in it ([Doc::empty]). *)
Definition doc_empty : Doc := mkDoc ∅ [] ∅ ∅ [] index_default [] [] 0 ∅ None 0 0.

(** The host: the [n]th id it mints ([Uuid::now_v7().simple()]) and the [n]th
    reading of its clock. *)
Class Host : Type := {
  nth_id : nat -> string;
  nth_millis : nat -> Z;
}.

(** ** The monad: a failing operation keeps the writes made before it failed *)

Definition M (A : Type) : Type := Doc -> result DocError A * Doc.

#[export] Instance M_ret : MRet M := fun A a d => (Ok a, d).
#[export] Instance M_bind : MBind M := fun A B f m d =>
  match m d with
  | (Ok a, d') => f a d'
  | (Err e, d') => (Err e, d')
  end.
#[export] Instance M_fmap : FMap M := fun A B f m => m ≫= (fun a => mret (f a)).

Definition fail {A} (e : DocError) : M A := fun d => (Err e, d).
Definition gets {A} (f : Doc -> A) : M A := fun d => (Ok (f d), d).
Definition modify (f : Doc -> Doc) : M unit := fun d => (Ok tt, f d).
Definition lift {A} (r : result DocError A) : M A := fun d => (r, d).
Definition guard_ (b : bool) (e : DocError) : M unit := if b then mret tt else fail e.

Fixpoint mfor {A} (l : list A) (f : A -> M unit) : M unit :=
  match l with
  | [] => mret tt
  | a :: l => f a ;; mfor l f
  end.

Fixpoint mmap {A B} (f : A -> M B) (l : list A) : M (list B) :=
  match l with
  | [] => mret []
  | a :: l => b ← f a; bs ← mmap f l; mret (b :: bs)
  end.

(** Run the index under its lock: an update with a result. *)
Definition on_index {A} (f : ProjectionIndex -> ProjectionIndex * A) : M A := fun d =>
  let '(idx, a) := f (d_index d) in (Ok a, with_index (fun _ => idx) d).

(** ** Containers *)

(** The movable lists of the document. *)
Inductive root : Type := ROrder (list_id : string) | RFocus | RLists.

Definition root_get (r : root) (d : Doc) : list slot :=
  match r with
  | ROrder l => default [] (d_orders d !! order_root_name l)
  | RFocus => d_focus d
  | RLists => d_lists d
  end.

Definition root_set (r : root) (v : list slot) (d : Doc) : Doc :=
  match r with
  | ROrder l => with_orders (fun o => <[order_root_name l := v]> o) d
  | RFocus => with_focus (fun _ => v) d
  | RLists => with_lists (fun _ => v) d
  end.

Definition order_list (l : string) (d : Doc) : list slot := root_get (ROrder l) d.
Definition str_slot (s : string) : slot := ScalarV (LString s).

Section ops.
Context `{Loro, Host}.

Definition on_root (r : root) (f : list slot -> result string (list slot)) : M unit := fun d =>
  match f (root_get r d) with
  | Ok v => (Ok tt, root_set r v d)
  | Err e => (Err (ELoro e), d)
  end.

Definition root_push (r : root) (x : slot) : M unit :=
  on_root r (fun l => Ok (list_push x l)).
Definition root_insert (r : root) (i : nat) (x : slot) : M unit :=
  on_root r (list_insert i x).
Definition root_delete (r : root) (i : nat) : M unit :=
  on_root r (list_delete i 1).
Definition root_mov (r : root) (from to : nat) : M unit :=
  on_root r (list_mov from to).

(** [if at >= list.len() { list.push(x) } else { list.insert(at, x) }]. *)
Definition root_put (r : root) (at_ : nat) (x : slot) : M unit :=
  len ← gets (fun d => length (root_get r d));
  if len <=? at_ then root_push r x else root_insert r at_ x.

(** [for p in positions.iter().rev() { list.delete(p, 1)? }]. *)
Definition root_delete_all (r : root) (positions : list nat) : M unit :=
  mfor (rev positions) (root_delete r).

(** A write through the handle of an item map; the handle stays attached to
    the item's container. *)
Definition item_write (id : string) (f : lmap -> lmap) : M unit :=
  modify (with_items (fun items =>
    match item_map_of items id with
    | Some m => <[id := MapC (f m)]> items
    | None => items
    end)).
Definition item_insert (id key : string) (v : LoroValue) : M unit :=
  item_write id (map_insert key (Val v)).
Definition item_delete (id key : string) : M unit := item_write id (map_delete key).
Definition item_get (id : string) : M lmap :=
  gets (fun d => default ∅ (item_map_of (d_items d) id)).

(** [items.insert_container(id, LoroMap::new())]. *)
Definition items_create (id : string) : M unit :=
  modify (with_items (map_insert id (MapC ∅))).
Definition items_delete (id : string) : M unit :=
  modify (with_items (map_delete id)).

(** A write through the handle of the [i]th ListMeta row. *)
Definition row_write (i : nat) (f : lmap -> lmap) : M unit :=
  modify (with_lists (fun lists =>
    match list_map_at lists i with
    | Some m => <[i := MapC (f m)]> lists
    | None => lists
    end)).

Definition commit : M unit := modify (with_commits (fun c => c ++ [None])).
Definition commit_with (origin : string) : M unit :=
  modify (with_commits (fun c => c ++ [Some origin])).
Definition push_event (e : AppEvent) : M unit := modify (with_events (fun q => q ++ [e])).
Definition rearm_undo : M unit := modify (with_rearmed S).

Definition new_id : M string := fun d =>
  (Ok (nth_id (d_minted d)), with_minted S d).
Definition now_millis : M Z := fun d =>
  (Ok (nth_millis (d_ticks d)), with_ticks S d).
End ops.

(** ** Reads *)

Definition ix (d : Doc) : ProjectionIndex := d_index d.

(** Item lookup, gated on the index. *)
Definition find_item (d : Doc) (item_id : string) : result DocError lmap :=
  match ix_meta (d_index d) !! item_id with
  | None => Err (ItemNotFound item_id)
  | Some _ => ok_or (item_map_of (d_items d) item_id) (ItemNotFound item_id)
  end.

Fixpoint find_list_from (lists : list slot) (i : nat) (list_id : string)
    : result DocError (nat * lmap) :=
  match lists with
  | [] => Err (ListNotFound list_id)
  | MapC m :: rest =>
      if decide (read_string m KEY_ID = Some list_id) then Ok (i, m)
      else find_list_from rest (S i) list_id
  | _ :: rest => find_list_from rest (S i) list_id
  end.

Definition find_list (d : Doc) (list_id : string) : result DocError (nat * lmap) :=
  find_list_from (d_lists d) 0 list_id.

Definition assert_list_exists (d : Doc) (list_id : string) : result DocError unit :=
  if is_reserved_list list_id then Ok tt
  else let? _ := find_list d list_id in Ok tt.

Fixpoint assert_unique_from (seen : gset string) (ids : list string) : result DocError unit :=
  match ids with
  | [] => Ok tt
  | id :: ids =>
      if decide (id ∈ seen) then Err (Invalid ("duplicate item id: " +:+ id))
      else assert_unique_from ({[id]} ∪ seen) ids
  end.
Definition assert_unique_item_ids (ids : list string) : result DocError unit :=
  assert_unique_from ∅ ids.

(** Every ListMeta row that reads as a list, the first row of each id. *)
Fixpoint all_lists_from (lists : list slot) (seen : gset string) : list ListView :=
  match lists with
  | [] => []
  | MapC m :: rest =>
      match list_view m with
      | Some v => if decide (lv_id v ∈ seen) then all_lists_from rest seen
                  else v :: all_lists_from rest ({[lv_id v]} ∪ seen)
      | None => all_lists_from rest seen
      end
  | _ :: rest => all_lists_from rest seen
  end.
Definition all_lists (d : Doc) : list ListView := all_lists_from (d_lists d) ∅.

Definition active_lists (d : Doc) : list ListView :=
  base.filter (fun l => lv_archived_at l = None) (all_lists d).

Definition get_settings (d : Doc) : SettingsView := settings_view (d_settings d).

Definition get_item (d : Doc) (item_id : string) : option ItemView :=
  match find_item d item_id with Ok m => item_view m | Err _ => None end.

Definition get_list_meta (d : Doc) (list_id : string) : option ListView :=
  match find_list d list_id with Ok (_, m) => list_view m | Err _ => None end.

Definition open_item_ids (d : Doc) (list_id : string) : list string :=
  open_at (d_index d) list_id.

Definition items_in_list (d : Doc) (list_id : string) (include_binned : bool) : list ItemView :=
  base.filter (fun i => include_binned || negb (iv_is_binned i))
    (omap (get_item d) (resolved (d_index d) list_id)).

(** Insertion in [str_le] order; [orphans.sort()] sorts distinct strings. *)
Definition sort_strings (l : list string) : list string :=
  snd <$> merge_sort key_le ((fun s => (0%Z, s)) <$> l).

Definition ordered_list_ids (d : Doc) : list string :=
  let known := dedup (LIST_INBOX :: (lv_id <$> all_lists d)) in
  let orphans := elements (dom (ix_members (d_index d)) ∖ list_to_set known) in
  known ++ sort_strings orphans.

Definition iter_items (d : Doc) : list ItemView :=
  omap (get_item d)
    (l ← ordered_list_ids d; resolved (d_index d) l).

Definition all_items (d : Doc) : list ItemView := iter_items d.

Definition binned_items (d : Doc) : list ItemView :=
  base.filter (fun i => Is_true (iv_is_binned i)) (iter_items d).

(** [sort_by] on a pair of keys: first descending, then id ascending; stable. *)
Definition sort_desc (key : ItemView -> Z) (l : list ItemView) : list ItemView :=
  merge_sort (fun a b => key_le (Z.opp (key a), iv_id a) (Z.opp (key b), iv_id b)) l.

Definition done_item_ids (d : Doc) : list string :=
  iv_id <$> sort_desc iv_lifecycle_at
    (base.filter (fun i => Is_true (iv_is_closed i && negb (iv_is_binned i))) (iter_items d)).

Definition binned_item_ids (d : Doc) : list string :=
  iv_id <$> sort_desc (fun i => default 0%Z (iv_binned_at i)) (binned_items d).

(** ** The index recomputed from the containers *)

(** The order container of a list, entry by entry. *)
Definition raw_order (d : Doc) (list_id : string) : list (option OrderEntry) :=
  scalar_entry <$> order_list list_id d.

Definition candidates (idx : ProjectionIndex) (d : Doc) : gset string :=
  dom (ix_members idx) ∪ {[LIST_INBOX]} ∪ list_to_set (lv_id <$> all_lists d).

Definition compute_index (d : Doc) : ProjectionIndex :=
  let idx := map_fold (fun id s idx =>
               match s with MapC m => set_meta idx id (item_meta m) | _ => idx end)
               index_default (d_items d) in
  let cands := elements (candidates idx d) in
  let idx := foldl (fun idx l => set_raw idx l (raw_order d l)) idx cands in
  foldl (fun idx l => (refresh_open idx l).1) idx cands.

Definition rebuild_index (d : Doc) : Doc := with_index (fun _ => compute_index d) d.

(** ** Container operations on valid positions *)

Lemma root_get_set r v d : root_get r (root_set r v d) = v.
Proof. destruct r; cbn; [|done..]. by rewrite lookup_insert_eq. Qed.

Lemma root_set_set r v w d : root_set r v (root_set r w d) = root_set r v d.
Proof.
  destruct r; [|done..]. unfold root_set, with_orders. cbn. f_equal. apply insert_insert_eq.
Qed.

Section container_lemmas.
Context `{LoroOk}.

Lemma root_push_ok r x d :
  root_push r x d = (Ok tt, root_set r (root_get r d ++ [x]) d).
Proof. unfold root_push, on_root. by rewrite list_push_spec. Qed.

Lemma root_insert_ok r i x d :
  i <= length (root_get r d) ->
  root_insert r i x d = (Ok tt, root_set r (insert_at i x (root_get r d)) d).
Proof. intros Hi. unfold root_insert, on_root. by rewrite list_insert_spec. Qed.

Lemma root_delete_ok r i d :
  i < length (root_get r d) ->
  root_delete r i d = (Ok tt, root_set r (remove_at i (root_get r d)) d).
Proof.
  intros Hi. unfold root_delete, on_root. rewrite list_delete_spec by lia.
  by rewrite Nat.add_1_r.
Qed.

Lemma root_mov_ok r from to x d :
  root_get r d !! from = Some x -> to < length (root_get r d) ->
  root_mov r from to d =
    (Ok tt, root_set r (insert_at to x (remove_at from (root_get r d))) d).
Proof. intros Hf Ht. unfold root_mov, on_root. by erewrite list_mov_spec. Qed.

(** [root_put] at any position not past the end. *)
Lemma root_put_ok r i x d :
  i <= length (root_get r d) ->
  root_put r i x d = (Ok tt, root_set r (insert_at i x (root_get r d)) d).
Proof.
  intros Hi.
  change (root_put r i x d) with
    ((if length (root_get r d) <=? i then root_push r x else root_insert r i x) d).
  destruct (length (root_get r d) <=? i) eqn:E.
  - apply Nat.leb_le in E. rewrite root_push_ok. replace i with (length (root_get r d)) by lia.
    by rewrite insert_at_length.
  - by rewrite root_insert_ok.
Qed.

Lemma root_delete_all_ok r ps d :
  ascending (length (root_get r d)) ps ->
  root_delete_all r ps d =
    (Ok tt, if decide (ps = []) then d else root_set r (remove_all ps (root_get r d)) d).
Proof.
  unfold root_delete_all. revert d. induction ps as [|p ps IH] using rev_ind; intros d Hps; [done|].
  pose proof (ascending_snoc _ _ _ Hps) as [Hp [Hs Hf]].
  rewrite rev_app_distr, decide_False by (by destruct ps). cbn [rev app mfor].
  unfold mbind, M_bind. rewrite root_delete_ok by done. cbn. rewrite IH.
  - rewrite remove_all_snoc, (decide_True (P := p < _)) by done. case_decide as E.
    + subst ps. done.
    + by rewrite root_get_set, root_set_set.
  - rewrite root_get_set. split; [done|]. rewrite length_remove_at by done.
    eapply Forall_impl; [exact Hf|]. cbn. lia.
Qed.
End container_lemmas.
