(* ===== verification/DocFocus.v ===== *)
(** The Focus lens (core/src/doc.rs, [scan_focus] and the focus mutations):
    classification of the raw container into live entries and dead garbage, the
    folded sweep, and the mutations, with their refinement to plain list
    operations on the live entries. *)
From S2P Require Import Prelude.
From S2P Require Import Loro.
From S2P Require Import Lifecycle.
From S2P Require Import Registers.
From S2P Require Import Projection.
From S2P Require Import Notes.
From S2P Require Import Events.
From S2P Require Import DocCore.

Record FocusScan : Type := mkScan {
  scan_raw : list string;
  scan_entries : list FocusRef;
  scan_dead : list nat;
}.

Definition focus_string (s : slot) : string :=
  match s with ScalarV (LString t) => t | _ => "" end.
Definition focus_raw (d : Doc) : list string := focus_string <$> d_focus d.

(** The filter of [scan_focus]: resolvable, and the first for its item. *)
Definition ref_resolvable (meta : gmap string ItemMeta) (r : FocusRef) : bool :=
  negb (ref_is_local r) || meta_open meta (ref_item_id r).

Fixpoint scan_from (meta : gmap string ItemMeta) (seen : gset string) (i : nat)
    (raw : list string) : list FocusRef * list nat :=
  match raw with
  | [] => ([], [])
  | s :: raw =>
      match ref_parse s with
      | Some r =>
          if ref_resolvable meta r && bool_decide (ref_item_id r ∉ seen) then
            let '(es, ds) := scan_from meta ({[ref_item_id r]} ∪ seen) (S i) raw in
            (r :: es, ds)
          else let '(es, ds) := scan_from meta seen (S i) raw in (es, i :: ds)
      | None => let '(es, ds) := scan_from meta seen (S i) raw in (es, i :: ds)
      end
  end.

Definition scan_focus (d : Doc) : FocusScan :=
  let raw := focus_raw d in
  let '(es, ds) := scan_from (ix_meta (d_index d)) ∅ 0 raw in
  mkScan raw es ds.

Definition scan_position (s : FocusScan) (item_id : string) : option nat :=
  position (fun r => bool_decide (ref_item_id r = item_id)) (scan_entries s).
Definition scan_contains (s : FocusScan) (item_id : string) : bool :=
  bool_decide (is_Some (scan_position s item_id)).
Definition visible_item_ids (s : FocusScan) : list string :=
  ref_item_id <$> base.filter (fun r => Is_true (ref_is_local r)) (scan_entries s).

Definition focus_entries (d : Doc) : list FocusRef := scan_entries (scan_focus d).
Definition focus_refs (d : Doc) : list string := visible_item_ids (scan_focus d).
Definition focus_view (d : Doc) : list ItemView := omap (get_item d) (focus_refs d).

Section ops.
Context `{Loro}.

(** Delete [to_delete], highest first, counting the slots that went. *)
Fixpoint delete_counted (ps : list nat) (removed : nat) : M nat :=
  match ps with
  | [] => mret removed
  | p :: ps => fun d =>
      match list_delete p 1 (d_focus d) with
      | Ok v => delete_counted ps (S removed) (with_focus (fun _ => v) d)
      | Err _ => delete_counted ps removed d
      end
  end.

Definition prune_focus_refs (remove_items : gset string) : M nat :=
  scan ← gets scan_focus;
  let matched :=
    positions_of (fun s => match ref_parse s with
                           | Some r => bool_decide (ref_item_id r ∈ remove_items)
                           | None => false
                           end) (scan_raw scan) in
  let to_delete := dedup (merge_sort Nat.le (scan_dead scan ++ matched)) in
  if decide (to_delete = []) then mret 0
  else delete_counted (rev to_delete) 0.

(** Sweep the dead refs, then insert [r] at entry position [index]. *)
Definition insert_focus_entry (scan : FocusScan) (r : FocusRef) (index : N) : M unit :=
  root_delete_all RFocus (scan_dead scan) ;;
  let new_len := length (scan_entries scan) in
  let at_ := N.to_nat (N.min index (N.of_nat new_len)) in
  (if new_len <=? at_ then root_push RFocus (str_slot (ref_encode r))
   else root_insert RFocus at_ (str_slot (ref_encode r))) ;;
  commit ;;
  push_event FocusChanged.

Definition add_to_focus (item_id : string) (index : N) : M unit :=
  meta ← gets (fun d => ix_meta (d_index d) !! item_id);
  match meta with
  | None => fail (ItemNotFound item_id)
  | Some m =>
      scan ← gets scan_focus;
      if scan_contains scan item_id then mret tt
      else if negb (m_open m) then mret tt
      else insert_focus_entry scan (ref_local item_id) index
  end.

Definition add_foreign_to_focus (doc_id item_id : string) (index : N) : M unit :=
  if bool_decide (doc_id = "") || contains_char ":" doc_id
  then fail (Invalid ("focus doc id `" +:+ doc_id +:+ "`"))
  else if bool_decide (item_id = "") || contains_char ":" item_id
  then fail (Invalid ("focus item id `" +:+ item_id +:+ "`"))
  else
    scan ← gets scan_focus;
    if scan_contains scan item_id then mret tt
    else insert_focus_entry scan (ref_foreign doc_id item_id) index.

(** The filter of [add_to_focus_many]; [present] grows with each kept id. *)
Fixpoint focus_to_add (meta : gmap string ItemMeta) (present : gset string)
    (ids : list string) : list string :=
  match ids with
  | [] => []
  | id :: ids =>
      if meta_open meta id && bool_decide (id ∉ present)
      then id :: focus_to_add meta ({[id]} ∪ present) ids
      else focus_to_add meta present ids
  end.

Fixpoint insert_from_top (offset : nat) (ids : list string) : M unit :=
  match ids with
  | [] => mret tt
  | id :: ids =>
      root_insert RFocus offset (str_slot (ref_encode (ref_local id))) ;;
      insert_from_top (S offset) ids
  end.

Definition add_to_focus_many (item_ids : list string) : M unit :=
  if decide (item_ids = []) then mret tt
  else
    scan ← gets scan_focus;
    meta ← gets (fun d => ix_meta (d_index d));
    let present := list_to_set (ref_item_id <$> scan_entries scan) in
    let to_add := focus_to_add meta present item_ids in
    if bool_decide (to_add = []) && bool_decide (scan_dead scan = []) then mret tt
    else
      root_delete_all RFocus (scan_dead scan) ;;
      insert_from_top 0 to_add ;;
      commit ;;
      push_event FocusChanged.

Definition remove_from_focus_many (item_ids : list string) : M unit :=
  if decide (item_ids = []) then mret tt
  else
    removed ← prune_focus_refs (list_to_set item_ids);
    if decide (removed = 0) then mret tt
    else commit ;; push_event FocusChanged.

Definition remove_from_focus (item_id : string) : M unit :=
  removed ← prune_focus_refs {[item_id]};
  if decide (removed = 0) then mret tt
  else commit ;; push_event FocusChanged.

(** The [commit_sweep] closure of [move_in_focus], under its [swept] test. *)
Definition commit_sweep (scan : FocusScan) : M unit :=
  if decide (scan_dead scan = []) then mret tt else commit ;; push_event FocusChanged.

Definition move_in_focus (item_id : string) (index : N) : M unit :=
  scan ← gets scan_focus;
  root_delete_all RFocus (scan_dead scan) ;;
  match scan_position scan item_id with
  | None => commit_sweep scan
  | Some from =>
      let to := N.to_nat (N.min index (N.of_nat (length (scan_entries scan) - 1))) in
      if decide (from = to) then commit_sweep scan
      else
        root_mov RFocus from to ;;
        commit ;;
        push_event FocusChanged
  end.
End ops.

(** ** The scan *)

(** Live entries: resolvable, encodable, one per item, none of [seen]. *)
Record entries_ok (meta : gmap string ItemMeta) (seen : gset string) (es : list FocusRef) : Prop := {
  eo_resolvable : Forall (fun r => ref_resolvable meta r = true) es;
  eo_parse : Forall (fun r => ref_parse (ref_encode r) = Some r) es;
  eo_nodup : NoDup (ref_item_id <$> es);
  eo_seen : forall r, r ∈ es -> ref_item_id r ∉ seen;
}.

Definition enc_focus (es : list FocusRef) : list slot := (fun r => str_slot (ref_encode r)) <$> es.

Lemma scan_shift meta raw : forall seen i,
  scan_from meta seen (S i) raw =
    (fst (scan_from meta seen i raw), S <$> snd (scan_from meta seen i raw)).
Proof.
  induction raw as [|s raw IH]; intros seen i; [done|]. cbn [scan_from].
  destruct (ref_parse s) as [r|]; [destruct (ref_resolvable meta r && _)|];
    rewrite (IH _ (S i)); destruct (scan_from _ _ (S i) raw) as [es ds]; done.
Qed.

Lemma entries_ok_cons meta seen r es :
  ref_resolvable meta r = true -> ref_parse (ref_encode r) = Some r -> ref_item_id r ∉ seen ->
  entries_ok meta ({[ref_item_id r]} ∪ seen) es -> entries_ok meta seen (r :: es).
Proof.
  intros H1 H2 H3 [E1 E2 E3 E4]. split; [by constructor..| |].
  - cbn. constructor; [|done]. intros (x & Hx & Hin)%list_elem_of_fmap.
    apply (E4 x Hin). rewrite <- Hx. set_solver.
  - intros x [->|Hx]%elem_of_cons; [done|]. specialize (E4 x Hx). set_solver.
Qed.

Lemma scan_entries_ok meta raw : forall seen i, entries_ok meta seen (scan_from meta seen i raw).1.
Proof.
  induction raw as [|s raw IH]; intros seen i; cbn [scan_from].
  - split; try constructor. by intros r ?%not_elem_of_nil.
  - destruct (ref_parse s) as [r|] eqn:Es.
    + destruct (ref_resolvable meta r && bool_decide (ref_item_id r ∉ seen)) eqn:El.
      * apply andb_true_iff in El as [Hr Hs%bool_decide_eq_true].
        specialize (IH ({[ref_item_id r]} ∪ seen) (S i)).
        destruct (scan_from _ _ (S i) raw) as [es ds]. cbn in *.
        apply entries_ok_cons; try done. apply ref_reencode in Es as E. by rewrite (proj1 E).
      * specialize (IH seen (S i)). by destruct (scan_from _ _ (S i) raw) as [es ds].
    + specialize (IH seen (S i)). by destruct (scan_from _ _ (S i) raw) as [es ds].
Qed.

Lemma scan_of_entries meta es : forall seen i,
  entries_ok meta seen es -> scan_from meta seen i (ref_encode <$> es) = (es, []).
Proof.
  induction es as [|r es IH]; intros seen i Hok; [done|]. cbn [fmap list_fmap scan_from].
  destruct Hok as [E1 E2 E3 E4]. inversion E1; subst. inversion E2 as [|? ? Hp ?]; subst.
  apply NoDup_cons in E3 as [Hn E3]. rewrite Hp.
  rewrite H1, bool_decide_true by (apply E4; by left). cbn [andb].
  rewrite IH; [done|]. split; try done. intros x Hx Hin%elem_of_union.
  destruct Hin as [Hin%elem_of_singleton|Hin].
  - apply Hn. apply list_elem_of_fmap. eauto.
  - eapply E4; [|exact Hin]. by right.
Qed.

(** Positions that a mutation removing the items of [R] deletes: the dead ones
    and the refs of [R]. With [R = ∅] these are the dead positions. *)
Fixpoint doomed (meta : gmap string ItemMeta) (R seen : gset string) (raw : list string)
    : list nat :=
  match raw with
  | [] => []
  | s :: raw =>
      match ref_parse s with
      | Some r =>
          if ref_resolvable meta r && bool_decide (ref_item_id r ∉ seen) then
            (if bool_decide (ref_item_id r ∈ R) then [0] else [])
            ++ (S <$> doomed meta R ({[ref_item_id r]} ∪ seen) raw)
          else 0 :: (S <$> doomed meta R seen raw)
      | None => 0 :: (S <$> doomed meta R seen raw)
      end
  end.

Lemma doomed_dead meta raw : forall seen, doomed meta ∅ seen raw = (scan_from meta seen 0 raw).2.
Proof.
  induction raw as [|s raw IH]; intros seen; [done|]. cbn [doomed scan_from].
  destruct (ref_parse s) as [r|]; [destruct (ref_resolvable meta r && _)|];
    rewrite IH, scan_shift; destruct (scan_from _ _ 0 raw) as [es ds]; cbn; [|done..].
  by rewrite bool_decide_false by set_solver.
Qed.

Lemma elem_of_doomed meta R raw : forall seen i,
  i ∈ doomed meta R seen raw <->
  i ∈ (scan_from meta seen 0 raw).2
  \/ i ∈ positions_of (fun s => match ref_parse s with
                                | Some r => bool_decide (ref_item_id r ∈ R)
                                | None => false end) raw.
Proof.
  induction raw as [|s raw IH]; intros seen i; [cbn; set_solver|].
  rewrite positions_of_cons. cbn [doomed scan_from].
  destruct (ref_parse s) as [r|]; [destruct (ref_resolvable meta r && _)|];
    rewrite scan_shift; destruct (scan_from _ _ 0 raw) as [es ds] eqn:Esc; cbn [snd fst];
    rewrite ?elem_of_app, ?elem_of_cons, !list_elem_of_fmap; setoid_rewrite IH;
    rewrite ?Esc; cbn [snd]; try (destruct (bool_decide (ref_item_id r ∈ R)));
    rewrite ?list_elem_of_singleton, ?elem_of_nil; naive_solver.
Qed.

Lemma ascending_S n ps : ascending n ps -> ascending (S n) (S <$> ps).
Proof.
  intros [Hs Hf]. split; [|rewrite Forall_fmap; eapply Forall_impl; [exact Hf|]; cbn; lia].
  clear Hf. induction Hs as [|q ps Hs IH Hq]; [constructor|]. cbn. constructor; [done|].
  rewrite Forall_fmap. eapply Forall_impl; [exact Hq|]. cbn. lia.
Qed.

Lemma ascending_0S n ps : ascending n ps -> ascending (S n) (0 :: (S <$> ps)).
Proof.
  intros H%ascending_S. destruct H as [Hs Hf]. split; constructor; [done| |lia|done].
  rewrite Forall_fmap. apply Forall_true. cbn. lia.
Qed.

Lemma doomed_ascending meta R raw : forall seen, ascending (length raw) (doomed meta R seen raw).
Proof.
  induction raw as [|s raw IH]; intros seen; [split; constructor|]. cbn [doomed length].
  destruct (ref_parse s) as [r|]; [destruct (ref_resolvable meta r && _)|];
    [|by apply ascending_0S..].
  case_bool_decide; cbn [app]; [by apply ascending_0S|by apply ascending_S].
Qed.

Lemma doomed_nil meta R raw : forall seen,
  doomed meta R seen raw = [] <->
  (scan_from meta seen 0 raw).2 = []
  /\ forall r, r ∈ (scan_from meta seen 0 raw).1 -> ref_item_id r ∉ R.
Proof.
  induction raw as [|s raw IH]; intros seen; cbn [doomed scan_from].
  - split; [|done]. intros _. split; [done|]. by intros r ?%not_elem_of_nil.
  - destruct (ref_parse s) as [r|]; [destruct (ref_resolvable meta r && _)|]; rewrite scan_shift;
      [|destruct (scan_from _ _ 0 raw); split; [done|by intros [? _]]..].
    specialize (IH ({[ref_item_id r]} ∪ seen)). destruct (scan_from _ _ 0 raw) as [es ds].
    cbn [fst snd] in *. case_bool_decide as HR.
    + split; [done|]. intros [_ H]. exfalso. apply (H r); [by left|done].
    + cbn [app]. split.
      * intros E%fmap_nil_inv. apply IH in E as [-> He]. split; [done|].
        by intros x [->|Hx]%elem_of_cons; [|apply He].
      * intros [E%fmap_nil_inv He]. rewrite (proj2 IH); [done|]. split; [done|].
        intros x Hx. apply He. by right.
Qed.

(** What is left of the container are the surviving entries. *)
Lemma remove_doomed meta R slots : forall seen,
  remove_all (doomed meta R seen (focus_string <$> slots)) slots
  = enc_focus (base.filter (fun r => ref_item_id r ∉ R)
                 (scan_from meta seen 0 (focus_string <$> slots)).1).
Proof.
  induction slots as [|x slots IH]; intros seen; [done|]. cbn [fmap list_fmap doomed scan_from].
  destruct (ref_parse (focus_string x)) as [r|] eqn:Ep;
    [destruct (ref_resolvable meta r && _)|]; rewrite scan_shift;
    [|rewrite remove_all_cons, remove_all_S; cbn;
      fold (focus_string <$> slots); rewrite IH; by destruct (scan_from _ _ 0 _)..].
  assert (Hx : x = str_slot (ref_encode r)).
  { apply ref_reencode in Ep as E. rewrite (proj1 E). destruct x as [m|v|]; try done.
    by destruct v. }
  fold (focus_string <$> slots). specialize (IH ({[ref_item_id r]} ∪ seen)).
  destruct (scan_from _ _ 0 _) as [es ds]. cbn [fst] in *.
  rewrite filter_cons. case_bool_decide as HR.
  - rewrite decide_False by tauto. cbn [app]. rewrite remove_all_cons, remove_all_S. cbn.
    by rewrite IH.
  - rewrite decide_True by done. cbn [app]. rewrite remove_all_S, IH, Hx. done.
Qed.

(** ** The mutations as list operations on the entries *)

Definition no_dead (d : Doc) : Prop := scan_dead (scan_focus d) = [].

(** The committed document whose container holds exactly [es]. *)
Definition focus_write (es : list FocusRef) (d : Doc) : Doc :=
  with_events (fun q => q ++ [FocusChanged])
    (with_commits (fun c => c ++ [None]) (with_focus (fun _ => enc_focus es) d)).

Lemma focus_raw_enc es d : d_focus d = enc_focus es -> focus_raw d = ref_encode <$> es.
Proof.
  intros E. unfold focus_raw. rewrite E. unfold enc_focus. rewrite <- list_fmap_compose. done.
Qed.

Lemma scan_focus_fields d :
  let s := scan_from (ix_meta (d_index d)) ∅ 0 (focus_raw d) in
  scan_focus d = mkScan (focus_raw d) s.1 s.2.
Proof. unfold scan_focus. by destruct (scan_from _ _ _ _). Qed.

Lemma focus_entries_ok d : entries_ok (ix_meta (d_index d)) ∅ (focus_entries d).
Proof. unfold focus_entries. rewrite scan_focus_fields. apply scan_entries_ok. Qed.

Lemma focus_entries_write es d :
  entries_ok (ix_meta (d_index d)) ∅ es ->
  focus_entries (focus_write es d) = es /\ no_dead (focus_write es d).
Proof.
  intros Hok. unfold focus_entries, no_dead. rewrite scan_focus_fields.
  rewrite (focus_raw_enc es) by done. cbn. by rewrite scan_of_entries.
Qed.

Lemma scan_contains_spec d id :
  scan_contains (scan_focus d) id = true <-> id ∈ ref_item_id <$> focus_entries d.
Proof.
  unfold scan_contains, scan_position, focus_entries. rewrite bool_decide_eq_true.
  rewrite list_elem_of_fmap. split.
  - intros [i (r & Hr & Hid%bool_decide_eq_true & _)%position_Some]. exists r.
    split; [done|]. by eapply list_elem_of_lookup_2.
  - intros (r & -> & Hr). apply not_eq_None_Some. rewrite position_None. intros H.
    specialize (H r Hr). by apply bool_decide_eq_false in H.
Qed.

Lemma entries_ok_insert meta es i r :
  entries_ok meta ∅ es -> ref_resolvable meta r = true -> ref_parse (ref_encode r) = Some r ->
  ref_item_id r ∉ ref_item_id <$> es -> entries_ok meta ∅ (insert_at i r es).
Proof.
  intros [E1 E2 E3 E4] Hr Hp Hn.
  assert (Hperm : insert_at i r es ≡ₚ r :: es).
  { unfold insert_at. by rewrite <- Permutation_middle, take_drop. }
  split; [by rewrite Hperm; constructor..| |intros x _; set_solver].
  rewrite Hperm. cbn. by constructor.
Qed.

Section refine.
Context `{LoroOk}.

(** The folded sweep leaves exactly the entries. *)
Lemma sweep_ok d :
  exists d', root_delete_all RFocus (scan_dead (scan_focus d)) d = (Ok tt, d')
    /\ d' = with_focus (fun _ => enc_focus (focus_entries d)) d.
Proof.
  assert (Hrm : remove_all (scan_dead (scan_focus d)) (d_focus d) = enc_focus (focus_entries d)).
  { unfold focus_entries. rewrite scan_focus_fields. cbn [scan_dead scan_entries].
    rewrite <- doomed_dead. unfold focus_raw. rewrite remove_doomed. f_equal.
    apply list_filter_all. set_solver. }
  rewrite root_delete_all_ok.
  - eexists. split; [reflexivity|]. rewrite <- Hrm. case_decide as E; [|done].
    rewrite E. by destruct d.
  - rewrite scan_focus_fields. cbn [scan_dead]. rewrite <- doomed_dead.
    replace (length (root_get RFocus d)) with (length (focus_raw d))
      by (unfold focus_raw; by rewrite length_fmap).
    apply doomed_ascending.
Qed.

Lemma insert_focus_entry_ok d r index :
  insert_focus_entry (scan_focus d) r index d =
    (Ok tt, focus_write (insert_at (Nat.min (N.to_nat index) (length (focus_entries d))) r
                           (focus_entries d)) d).
Proof.
  unfold insert_focus_entry. unfold mbind, M_bind.
  destruct (sweep_ok d) as (d' & -> & ->).
  set (d' := with_focus _ d). fold (focus_entries d).
  assert (Hlen : length (root_get RFocus d') = length (focus_entries d))
    by (cbn; unfold enc_focus; by rewrite length_fmap).
  set (at_ := N.to_nat _). assert (Hat : at_ = Nat.min (N.to_nat index) (length (focus_entries d)))
    by (unfold at_; lia).
  assert (Hput : (if length (focus_entries d) <=? at_
                  then root_push RFocus (str_slot (ref_encode r))
                  else root_insert RFocus at_ (str_slot (ref_encode r))) d'
                 = (Ok tt, with_focus (fun _ => enc_focus (insert_at at_ r (focus_entries d))) d)).
  { case_match eqn:E.
    - apply Nat.leb_le in E. rewrite root_push_ok. cbn. unfold with_focus; cbn. do 2 f_equal.
      replace at_ with (length (focus_entries d)) by lia. rewrite insert_at_length.
      unfold enc_focus. by rewrite fmap_app.
    - rewrite root_insert_ok by lia. cbn. unfold with_focus; cbn. do 2 f_equal.
      unfold enc_focus. by rewrite fmap_insert_at. }
  rewrite Hput, Hat. done.
Qed.

(** C39: What [add_to_focus] does, on every branch. *)
Theorem add_to_focus_refines d id index :
  no_colon id -> id <> "" ->
  let es := focus_entries d in
  match ix_meta (d_index d) !! id with
  | None => add_to_focus id index d = (Err (ItemNotFound id), d)
  | Some m =>
      if bool_decide (id ∈ ref_item_id <$> es) || negb (m_open m)
      then add_to_focus id index d = (Ok tt, d)
      else
        let es' := insert_at (Nat.min (N.to_nat index) (length es)) (ref_local id) es in
        add_to_focus id index d = (Ok tt, focus_write es' d)
        /\ focus_entries (focus_write es' d) = es' /\ no_dead (focus_write es' d)
  end.
Proof.
  intros Hc Hne es. unfold add_to_focus, gets, mbind, M_bind.
  destruct (ix_meta (d_index d) !! id) as [m|] eqn:Em; [|done].
  assert (Hb : bool_decide (id ∈ ref_item_id <$> es) = scan_contains (scan_focus d) id).
  { apply eq_bool_prop_intro. rewrite !Is_true_true, bool_decide_eq_true.
    by rewrite scan_contains_spec. }
  rewrite Hb. destruct (scan_contains (scan_focus d) id) eqn:Ec; [done|].
  cbn [orb]. destruct (m_open m) eqn:Eo; [|done]. cbn [negb].
  rewrite insert_focus_entry_ok. split; [done|]. apply focus_entries_write.
  apply entries_ok_insert; [apply focus_entries_ok| |by apply ref_local_roundtrip|].
  - unfold ref_resolvable, meta_open. cbn. by rewrite Em.
  - by apply bool_decide_eq_false in Hb.
Qed.

(** Removing refs: the entries of the other items stay, in order, and every
    dead ref goes with them; nothing is committed when there was nothing to
    remove. *)
Lemma delete_counted_ok ps : forall n d,
  ascending (length (d_focus d)) ps ->
  delete_counted (rev ps) n d =
    (Ok (n + length ps), with_focus (fun _ => remove_all ps (d_focus d)) d).
Proof.
  induction ps as [|p ps IH] using rev_ind; intros n d Hps.
  - cbn. rewrite Nat.add_0_r. by destruct d.
  - pose proof (ascending_snoc _ _ _ Hps) as [Hp [Hs Hf]].
    rewrite rev_app_distr. cbn [rev app delete_counted].
    rewrite list_delete_spec by lia. rewrite Nat.add_1_r. fold (remove_at p (d_focus d)).
    rewrite IH.
    + rewrite remove_all_snoc, decide_True, length_app by done. cbn.
      replace (S (n + length ps)) with (n + (length ps + 1)) by lia. done.
    + cbn. split; [done|]. rewrite length_remove_at by done.
      eapply Forall_impl; [exact Hf|]. cbn. lia.
Qed.

Lemma prune_ok d R :
  exists n, prune_focus_refs R d =
    (Ok n, with_focus (fun _ => if decide (n = 0) then d_focus d else
              enc_focus (base.filter (fun r => ref_item_id r ∉ R) (focus_entries d))) d)
  /\ (n = 0 <-> no_dead d /\ forall r, r ∈ focus_entries d -> ref_item_id r ∉ R).
Proof.
  unfold prune_focus_refs, gets, mbind, M_bind.
  set (matched := positions_of _ _).
  set (ps := doomed (ix_meta (d_index d)) R ∅ (focus_raw d)).
  assert (Hdel : dedup (merge_sort Nat.le (scan_dead (scan_focus d) ++ matched)) = ps).
  { apply (ascending_unique (length (focus_raw d))).
    - split; [apply StronglySorted_lt_dedup, StronglySorted_merge_sort; repeat intro;
              unfold Nat.le in *; lia|].
      apply Forall_forall. intros i. rewrite elem_of_dedup, merge_sort_Permutation, elem_of_app.
      unfold matched. rewrite scan_focus_fields. cbn [scan_dead scan_raw].
      rewrite <- doomed_dead. intros [Hi|(x & Hi & _)%elem_of_positions_of];
        [|by eapply lookup_lt_Some].
      pose proof (doomed_ascending (ix_meta (d_index d)) ∅ (focus_raw d) ∅) as [_ Hf].
      rewrite Forall_forall in Hf. by apply Hf.
    - apply doomed_ascending.
    - intros i. rewrite elem_of_dedup, merge_sort_Permutation, elem_of_app.
      unfold matched, ps. rewrite elem_of_doomed, scan_focus_fields. done. }
  rewrite Hdel. exists (length ps). split.
  - case_decide as E.
    + rewrite E. cbn. by destruct d.
    + rewrite delete_counted_ok.
      * cbn. rewrite decide_False by (by destruct ps). unfold ps, focus_raw.
        rewrite remove_doomed. unfold focus_entries. by rewrite scan_focus_fields.
      * replace (length (d_focus d)) with (length (focus_raw d))
          by (unfold focus_raw; by rewrite length_fmap).
        apply doomed_ascending.
  - rewrite length_zero_iff_nil. unfold no_dead, focus_entries. rewrite scan_focus_fields.
    apply doomed_nil.
Qed.

(** The refs of [ids] and every dead ref go, the other entries stay in order;
    nothing is committed when there was nothing to remove. *)
Theorem remove_from_focus_refines d ids :
  ids <> [] ->
  let es' := base.filter (fun r => ref_item_id r ∉ ids) (focus_entries d) in
  remove_from_focus_many ids d =
    (Ok tt, if bool_decide (no_dead d) && bool_decide (es' = focus_entries d) then d
            else focus_write es' d)
  /\ focus_entries (remove_from_focus_many ids d).2 = es'.
Proof.
  intros Hids es'. unfold remove_from_focus_many. rewrite decide_False by done.
  unfold mbind, M_bind. destruct (prune_ok d (list_to_set ids)) as (n & -> & Hn).
  assert (Hes : base.filter (fun r => ref_item_id r ∉ (list_to_set ids : gset string))
                  (focus_entries d) = es').
  { apply list_filter_iff. intros r. by rewrite elem_of_list_to_set. }
  assert (Hn' : n = 0 <-> no_dead d /\ es' = focus_entries d).
  { rewrite Hn. split; intros [Hd He]; (split; [done|]).
    - apply list_filter_all. intros r Hr. specialize (He r Hr).
      by rewrite elem_of_list_to_set in He.
    - intros r Hr. rewrite <- He in Hr. apply list_elem_of_filter in Hr as [Hr _].
      by rewrite elem_of_list_to_set. }
  rewrite Hes. destruct (decide (n = 0)) as [E|E].
  - destruct (proj1 Hn' E) as [Hd He]. rewrite !bool_decide_true by done.
    cbn. replace (with_focus (fun _ => d_focus d) d) with d by (by destruct d).
    by rewrite He.
  - assert (Hb : bool_decide (no_dead d) && bool_decide (es' = focus_entries d) = false).
    { apply not_true_is_false. rewrite andb_true_iff, !bool_decide_eq_true. tauto. }
    rewrite Hb. split; [done|]. apply focus_entries_write.
    destruct (focus_entries_ok d) as [E1 E2 E3 E4].
    split; [| | |intros r _; apply not_elem_of_empty].
    + apply Forall_forall. intros r [_ Hr]%list_elem_of_filter. rewrite Forall_forall in E1. by apply E1.
    + apply Forall_forall. intros r [_ Hr]%list_elem_of_filter. rewrite Forall_forall in E2. by apply E2.
    + eapply sublist_NoDup; [exact E3|]. apply fmap_sublist, sublist_filter.
Qed.
(** A move keeps the entries and puts the item's entry at the clamped index;
    a move to its own place, or of an item not focused, only sweeps. *)
Theorem move_in_focus_refines d id index :
  let es := focus_entries d in
  let to := Nat.min (N.to_nat index) (length es - 1) in
  let swept := if bool_decide (no_dead d) then d else focus_write es d in
  match scan_position (scan_focus d) id with
  | None => move_in_focus id index d = (Ok tt, swept)
  | Some from =>
      exists r, es !! from = Some r /\ ref_item_id r = id
      /\ let es' := insert_at to r (remove_at from es) in
         move_in_focus id index d = (Ok tt, if decide (from = to) then swept
                                            else focus_write es' d)
         /\ focus_entries (move_in_focus id index d).2 = es'
  end.
Proof.
  intros es to swept.
  assert (Hsweep : forall d', d' = with_focus (fun _ => enc_focus es) d ->
    commit_sweep (scan_focus d) d' = (Ok tt, swept)).
  { intros d' ->. unfold swept, no_dead, commit_sweep. case_decide as E.
    - rewrite bool_decide_true by done. unfold mret, M_ret. f_equal.
      destruct (sweep_ok d) as (d' & Hd & Hd'). fold es in Hd'. rewrite <- Hd'.
      rewrite E in Hd. unfold root_delete_all in Hd. cbn in Hd. by inversion Hd.
    - by rewrite bool_decide_false. }
  assert (Hswept : focus_entries swept = es).
  { unfold swept. case_bool_decide; [done|]. apply focus_entries_write, focus_entries_ok. }
  unfold move_in_focus, gets, mbind, M_bind. fold (focus_entries d). fold es.
  destruct (sweep_ok d) as (d' & -> & Hd'). fold es in Hd'.
  destruct (scan_position (scan_focus d) id) as [from|] eqn:Ep; [|by apply Hsweep].
  unfold scan_position in Ep. fold (focus_entries d) in Ep. fold es in Ep.
  apply position_Some in Ep as (r & Hr & Hid%bool_decide_eq_true & _).
  pose proof (lookup_lt_Some _ _ _ Hr) as Hlt.
  replace (N.to_nat (N.min index (N.of_nat (length es - 1)))) with to by (unfold to; lia).
  exists r. split; [done|]. split; [done|].
  assert (Hsame : from = to -> insert_at to r (remove_at from es) = es).
  { intros <-. by apply insert_remove_at. }
  destruct (decide (from = to)) as [E|E].
  - rewrite (Hsweep d' Hd'). split; [done|]. by rewrite Hsame.
  - rewrite (root_mov_ok RFocus from to (str_slot (ref_encode r))).
    + assert (Hw : forall v, v = enc_focus (insert_at to r (remove_at from es)) ->
        (commit ;; push_event FocusChanged) (root_set RFocus v d')
        = (Ok tt, focus_write (insert_at to r (remove_at from es)) d)).
      { intros v ->. by rewrite Hd'. }
      unfold mbind, M_bind in Hw. rewrite Hw.
      * split; [done|]. apply focus_entries_write.
        assert (Hperm : insert_at to r (remove_at from es) ≡ₚ es).
        { unfold insert_at. rewrite <- Permutation_middle, take_drop. unfold remove_at.
          rewrite Permutation_middle. by rewrite take_drop_middle. }
        destruct (focus_entries_ok d) as [E1 E2 E3 E4].
        split; [by rewrite Hperm..|intros x _; apply not_elem_of_empty].
      * rewrite Hd'. cbn. unfold enc_focus. by rewrite fmap_insert_at, fmap_remove_at.
    + rewrite Hd'. cbn. unfold enc_focus. by rewrite list_lookup_fmap, Hr.
    + rewrite Hd'. cbn. unfold enc_focus. rewrite length_fmap. unfold to. lia.
Qed.

Lemma insert_from_top_ok ids : forall (pre suf : list FocusRef) d,
  d_focus d = enc_focus (pre ++ suf) ->
  insert_from_top (length pre) ids d
  = (Ok tt, with_focus (fun _ => enc_focus (pre ++ (ref_local <$> ids) ++ suf)) d).
Proof.
  induction ids as [|id ids IH]; intros pre suf d Hd; cbn [insert_from_top].
  - cbn. rewrite <- Hd. by destruct d.
  - unfold mbind, M_bind. rewrite root_insert_ok.
    2:{ cbn. rewrite Hd. unfold enc_focus. rewrite length_fmap, length_app. lia. }
    set (d' := root_set _ _ d).
    assert (Hd' : d_focus d' = enc_focus ((pre ++ [ref_local id]) ++ suf)).
    { unfold d'. cbn. rewrite Hd. unfold enc_focus. rewrite <- (length_fmap (fun r => str_slot (ref_encode r)) pre).
      rewrite !fmap_app. unfold insert_at. rewrite take_app_length, drop_app_length.
      by rewrite <- app_assoc. }
    replace (S (length pre)) with (length (pre ++ [ref_local id])) by (rewrite length_app; cbn; lia).
    rewrite (IH _ _ _ Hd'). unfold d'. cbn. unfold with_focus. cbn. by rewrite <- !app_assoc.
Qed.

Lemma elem_of_focus_to_add meta ids : forall present id,
  id ∈ focus_to_add meta present ids <-> id ∈ ids /\ meta_open meta id = true /\ id ∉ present.
Proof.
  induction ids as [|x ids IH]; intros present id; cbn [focus_to_add].
  - split; [by intros ?%not_elem_of_nil|]. by intros [?%not_elem_of_nil _].
  - destruct (meta_open meta x && bool_decide (x ∉ present)) eqn:E.
    + apply andb_true_iff in E as [Eo En%bool_decide_eq_true].
      rewrite !elem_of_cons, IH. destruct (decide (id = x)) as [->|]; set_solver.
    + rewrite elem_of_cons, IH. split; [tauto|]. intros ([->|?] & Ho & Hn); [|tauto].
      rewrite Ho in E. cbn in E. apply bool_decide_eq_false in E. tauto.
Qed.

Lemma NoDup_focus_to_add meta ids : forall present, NoDup (focus_to_add meta present ids).
Proof.
  induction ids as [|x ids IH]; intros present; cbn [focus_to_add]; [constructor|].
  case_match; [|done]. constructor; [|done]. rewrite elem_of_focus_to_add. set_solver.
Qed.

(** A batch add prepends, in the given order and in one commit, the ids that
    are open, not focused yet and not repeated; the old entries follow. *)
Theorem add_to_focus_many_refines d ids :
  (forall id, id ∈ ids -> no_colon id /\ id <> "") -> ids <> [] ->
  let es := focus_entries d in
  let added := focus_to_add (ix_meta (d_index d)) (list_to_set (ref_item_id <$> es)) ids in
  let es' := (ref_local <$> added) ++ es in
  add_to_focus_many ids d =
    (Ok tt, if bool_decide (added = []) && bool_decide (no_dead d) then d
            else focus_write es' d)
  /\ focus_entries (add_to_focus_many ids d).2 = es'
  /\ NoDup added
  /\ (forall id, id ∈ added <->
        id ∈ ids /\ meta_open (ix_meta (d_index d)) id = true
        /\ id ∉ ref_item_id <$> es).
Proof.
  intros Hids Hne es added es'. split; [|split]; [|set (r := _ d)|].
  3:{ split; [apply NoDup_focus_to_add|]. intros id. unfold added.
      rewrite elem_of_focus_to_add. by rewrite elem_of_list_to_set. }
  all: assert (Hrun : add_to_focus_many ids d =
    (Ok tt, if bool_decide (added = []) && bool_decide (no_dead d) then d
            else focus_write es' d)).
  1,3: unfold add_to_focus_many; rewrite decide_False by done;
    unfold gets, mbind, M_bind; fold (focus_entries d); fold es; fold added;
    unfold no_dead; case_match; [done|];
    destruct (sweep_ok d) as (d' & -> & Hd'); fold es in Hd';
    pose proof (insert_from_top_ok added [] es d' ltac:(by rewrite Hd')) as Hi;
    cbn [length app] in Hi; rewrite Hi, Hd'; done.
  - exact Hrun.
  - unfold r. rewrite Hrun. cbn [snd]. case_match eqn:E.
    + apply andb_true_iff in E as [->%bool_decide_eq_true _]. done.
    + apply focus_entries_write. destruct (focus_entries_ok d) as [E1 E2 E3 E4].
      fold es in E1, E2, E3. split; [| | |intros x _; apply not_elem_of_empty].
      * apply Forall_app. split; [|done]. apply Forall_fmap, Forall_forall.
        intros id (_ & Ho & _)%elem_of_focus_to_add. unfold ref_resolvable. cbn. done.
      * apply Forall_app. split; [|done]. apply Forall_fmap, Forall_forall.
        intros id (Hi & _)%elem_of_focus_to_add. apply Hids in Hi as [? ?].
        by apply ref_local_roundtrip.
      * unfold es'. rewrite fmap_app, <- list_fmap_compose.
        assert (Hl : (ref_item_id ∘ ref_local) <$> added = added) by apply list_fmap_id.
        rewrite Hl. apply NoDup_app. split_and!; [apply NoDup_focus_to_add| |done].
        intros id (_ & _ & Hn)%elem_of_focus_to_add. by rewrite elem_of_list_to_set in Hn.
Qed.
End refine.
