(* ===== verification/DocItems.v ===== *)
(** Item mutations (core/src/doc.rs): adding, editing, registers, notes,
    moving, lifecycle, hard deletes. Each definition is the whole mutation:
    guards, container writes, commit, index update, events. *)
From S2P Require Import Prelude.
From S2P Require Import Loro.
From S2P Require Import Lifecycle.
From S2P Require Import Registers.
From S2P Require Import Projection.
From S2P Require Import Notes.
From S2P Require Import Events.
From S2P Require Import DocCore.
From S2P Require Import DocFocus.

Definition WELCOME_ITEM := "👋 Welcome to Monoplan".
Definition NOTES_ORIGIN_PREFIX := "notes:".
Definition BULK_LIFECYCLE_EVENT_THRESHOLD : nat := 64.

(** UTF-8 of a [char]. *)
Definition utf8_char (c : N) : list N :=
  (if c <? 0x80 then [c]
   else if c <? 0x800 then [0xC0 + c / 64; 0x80 + c mod 64]
   else if c <? 0x10000 then [0xE0 + c / 4096; 0x80 + c / 64 mod 64; 0x80 + c mod 64]
   else [0xF0 + c / 262144; 0x80 + c / 4096 mod 64; 0x80 + c / 64 mod 64; 0x80 + c mod 64])%N.
Definition of_chars (cs : list N) : string := of_bytes (cs ≫= utf8_char).

(** Local edits of a Loro text container, at UTF-16 offsets. *)
Class LoroText : Type := {
  text_insert_utf16 : nat -> list N -> list N -> result string (list N);
  text_delete_utf16 : nat -> nat -> list N -> result string (list N);
}.

(** The positions of a run of notes edits. *)
Fixpoint edit_notes `{LoroText} (text : list N) (pos : nat) (delta : list NotesDeltaOp)
    : result string (list N) :=
  match delta with
  | [] => Ok text
  | Retain n :: delta => edit_notes text (pos + n) delta
  | Delete n :: delta =>
      let? text := text_delete_utf16 pos n text in edit_notes text pos delta
  | Insert s :: delta =>
      let? text := text_insert_utf16 pos s text in
      edit_notes text (pos + length (encode_utf16 s)) delta
  end.

Section items.
Context `{Loro, Host, LoroText}.

(** The handle of a known item. *)
Definition find (item_id : string) : M unit := fun d =>
  match find_item d item_id with Ok _ => (Ok tt, d) | Err e => (Err e, d) end.

(** ** Adding *)

(** One iteration of the write loop: the item map, its order entry. *)
Definition add_one (list_id : string) (state : WorkflowState) (at_ : nat) (text : string)
    : M (string * string * Z) :=
  id ← new_id;
  placement ← new_id;
  now ← now_millis;
  author ← gets d_author;
  items_create id ;;
  item_insert id KEY_ID (LString id) ;;
  item_insert id KEY_TEXT (LString text) ;;
  item_insert id KEY_CREATED_AT (LI64 now) ;;
  (match author with
   | Some a => item_insert id KEY_CREATED_BY (LString a)
   | None => mret tt
   end) ;;
  item_insert id KEY_LOCATION (LString (location_encode (mkLocation list_id placement))) ;;
  (if decide (state = Backlog) then mret tt
   else
     item_write id (fun m => write_workflow m state now) ;;
     if decide (state = InProgress) then item_insert id KEY_STARTED_AT (LI64 now)
     else mret tt) ;;
  root_put (ROrder list_id) at_ (str_slot (entry_encode (mkEntry id placement))) ;;
  mret (id, placement, now).

Fixpoint add_loop (list_id : string) (state : WorkflowState) (at_ : nat) (texts : list string)
    : M (list (string * string * Z)) :=
  match texts with
  | [] => mret []
  | text :: texts =>
      p ← add_one list_id state at_ text;
      ps ← add_loop list_id state (S at_) texts;
      mret (p :: ps)
  end.

Definition added_event (list_id : string) (state : WorkflowState) (author : option string)
    (open : list string) (text : string) (p : string * string * Z) : AppEvent :=
  let '(id, _, now) := p in
  ItemAdded
    (mkItemView id text "" list_id state now None None None None now author
       (if decide (state = InProgress) then Some now else None) None None)
    (position_of id open).

Definition add_items_at_impl (list_id : string) (texts : list string) (target_index : N)
    (state : WorkflowState) : M (list string) :=
  let trimmed := trim <$> texts in
  if existsb (fun t => bool_decide (t = "")) trimmed then fail (Invalid "item text is empty")
  else
    (fun d => (assert_list_exists d list_id, d)) ;;
    if decide (trimmed = []) then mret []
    else
      plan ← gets (fun d => plan_target (d_index d) list_id target_index true None);
      pending ← add_loop list_id state (raw_pos plan) trimmed;
      commit ;;
      open ← on_index (fun idx => add_update idx list_id plan pending);
      author ← gets d_author;
      mfor (zip trimmed pending)
        (fun '(text, p) => push_event (added_event list_id state author open text p)) ;;
      mret (pending_id <$> pending).

Definition add_items_at (list_id : string) (texts : list string) (target_index : N) :=
  add_items_at_impl list_id texts target_index Backlog.

(** [ids.into_iter().next().expect(..)]. *)
Definition first_id (ids : list string) : string :=
  match ids with id :: _ => id | [] => "" end.

Definition add_item_at (list_id text : string) (target_index : N) : M string :=
  ids ← add_items_at list_id [text] target_index; mret (first_id ids).
Definition add_item (list_id text : string) : M string := add_item_at list_id text usize_max.
Definition seed_welcome : M string := add_item LIST_INBOX WELCOME_ITEM.

Definition add_item_in_state_at (list_id text : string) (state : WorkflowState)
    (target_index : N) : M string :=
  if negb (is_open state)
  then fail (Invalid "can only capture directly into an open workflow state")
  else ids ← add_items_at_impl list_id [text] target_index state; mret (first_id ids).
Definition add_item_in_state (list_id text : string) (state : WorkflowState) : M string :=
  add_item_in_state_at list_id text state usize_max.

(** ** Registers *)

Definition edit_item_text (item_id text : string) : M unit :=
  let text := trim text in
  if decide (text = "") then fail (Invalid "item text is empty")
  else
    find item_id ;;
    item_insert item_id KEY_TEXT (LString text) ;;
    commit ;;
    push_event (ItemTextChanged item_id text).

Definition set_item_deadline (item_id : string) (deadline : option string) : M unit :=
  normalized ← lift (match deadline with
                     | Some raw => let? d := parse_deadline raw in Ok (Some d)
                     | None => Ok None
                     end);
  find item_id ;;
  (match normalized with
   | Some date => item_insert item_id KEY_DEADLINE (LString date)
   | None => item_delete item_id KEY_DEADLINE
   end) ;;
  commit ;;
  push_event (ItemDeadlineChanged item_id normalized).

Definition set_item_when (item_id : string) (when_ : option string) : M unit :=
  normalized ← lift (match when_ with
                     | Some raw => let? w := parse_when raw in Ok (Some w)
                     | None => Ok None
                     end);
  find item_id ;;
  duration_change ←
    (match normalized with
     | Some value =>
         item_insert item_id KEY_WHEN (LString value) ;;
         map ← item_get item_id;
         if when_is_timed value && bool_decide (read_duration map = None) then
           item_insert item_id KEY_DURATION (LI64 DEFAULT_DURATION_MINUTES) ;;
           mret (Some (Some DEFAULT_DURATION_MINUTES))
         else mret None
     | None =>
         item_delete item_id KEY_WHEN ;;
         map ← item_get item_id;
         if bool_decide (is_Some (read_duration map)) then
           item_delete item_id KEY_DURATION ;; mret (Some None)
         else mret None
     end : M (option (option Z)));
  commit ;;
  push_event (ItemWhenChanged item_id normalized) ;;
  match duration_change with
  | Some duration => push_event (ItemDurationChanged item_id duration)
  | None => mret tt
  end.

(** [duration] is a [u32]. *)
Definition set_item_duration (item_id : string) (duration : option Z) : M unit :=
  if (match duration with
      | Some n => (n =? 0) || (MAX_DURATION_MINUTES <? n)
      | None => false
      end)%Z
  then fail (Invalid "duration must be 1..=525600 minutes")
  else
    find item_id ;;
    (match duration with
     | Some n => item_insert item_id KEY_DURATION (LI64 n)
     | None => item_delete item_id KEY_DURATION
     end) ;;
    commit ;;
    push_event (ItemDurationChanged item_id duration).

Definition set_item_place (item_id : string) (place : option Place) : M unit :=
  place ← lift (match place with
                | Some p => let? q := place_normalized p in Ok (Some q)
                | None => Ok None
                end);
  find item_id ;;
  (match place with
   | Some p => item_insert item_id KEY_PLACE (place_to_loro_value p)
   | None => item_delete item_id KEY_PLACE
   end) ;;
  commit ;;
  push_event (ItemPlaceChanged item_id place).

(** ** Notes *)

Definition notes_of (m : lmap) : list N := default [] (chars <$> read_text m KEY_NOTES).

Definition subscribe_notes (item_id : string) : M (list N) :=
  find item_id ;;
  map ← item_get item_id;
  modify (with_shadows (<[item_id := notes_of map]>)) ;;
  mret (notes_of map).

Definition unsubscribe_notes (item_id : string) : M unit :=
  modify (with_shadows (delete item_id)).

Definition refresh_notes_shadow (item_id : string) (notes : list N) : M unit :=
  modify (with_shadows (fun s => match s !! item_id with
                                 | Some _ => <[item_id := notes]> s
                                 | None => s
                                 end)).

(** [ensure_mergeable_text]: the text container at the key, created empty if
    there is none. *)
Definition ensure_text (item_id key : string) : M (list N) :=
  map ← item_get item_id;
  match read_text map key with
  | Some t => mret (chars t)
  | None => item_write item_id (map_insert key (TextC "")) ;; mret []
  end.

Definition apply_notes_delta (item_id : string) (delta : list NotesDeltaOp) : M unit :=
  find item_id ;;
  current ← ensure_text item_id KEY_NOTES;
  lift (validate_utf16_delta current delta) ;;
  match edit_notes current 0 delta with
  | Err e => fail (ELoro e)
  | Ok notes =>
      item_write item_id (fun m => <[KEY_NOTES := TextC (of_chars notes)]> m) ;;
      commit_with (NOTES_ORIGIN_PREFIX +:+ item_id) ;;
      if decide (notes = current) then mret tt
      else
        refresh_notes_shadow item_id notes ;;
        push_event (ItemNotesChanged item_id (of_chars notes))
  end.

Definition emit_notes_delta (item_id : string) (deltas : list (list TextDelta))
    (post : list N) : M unit :=
  shadows ← gets d_shadows;
  match shadows !! item_id with
  | None => mret tt
  | Some shadow =>
      let out := notes_delta_out shadow deltas post in
      modify (with_shadows (<[item_id := post]>)) ;;
      if decide (out = []) then mret tt else push_event (ItemNotesDelta item_id out)
  end.

Definition emit_notes_deltas_for (emitted : list AppEvent) : M unit :=
  mfor emitted (fun ev =>
    match ev with
    | ItemNotesChanged id notes => emit_notes_delta id [] (chars notes)
    | _ => mret tt
    end).

Definition emit_item_diffs (pre_items : list ItemView) : M unit :=
  post_items ← gets iter_items;
  let emitted := diff_items pre_items post_items in
  emit_notes_deltas_for emitted ;;
  mfor emitted push_event.

Definition emit_state_diff (pre_items : list ItemView) (pre_lists : list ListView)
    (pre_settings : SettingsView) : M unit :=
  post_items ← gets iter_items;
  post_lists ← gets all_lists;
  post_settings ← gets get_settings;
  let emitted := diff_settings pre_settings post_settings
                 ++ diff_lists pre_lists post_lists ++ diff_items pre_items post_items in
  emit_notes_deltas_for emitted ;;
  mfor emitted push_event.

(** ** Moving *)

Definition write_location (item_id list_id placement : string) : M unit :=
  item_insert item_id KEY_LOCATION (LString (location_encode (mkLocation list_id placement))).

Definition replace_entry (item_id list_id : string) (target_index : N) (is_open : bool)
    : M unit :=
  placement ← new_id;
  write_location item_id list_id placement ;;
  rp ← gets (fun d => raw_pos (plan_target (d_index d) list_id target_index is_open (Some item_id)));
  root_put (ROrder list_id) rp (str_slot (entry_encode (mkEntry item_id placement))) ;;
  commit ;;
  open_index ← on_index (fun idx => replace_update idx list_id item_id placement rp is_open);
  push_event (ItemMoved item_id open_index).

Definition reorder_in_list (item_id list_id : string) (target_index : N) (is_open : bool)
    : M unit :=
  idx ← gets d_index;
  match canonical_raw_pos idx list_id item_id with
  | None => replace_entry item_id list_id target_index is_open
  | Some from =>
      let plan := plan_target idx list_id target_index is_open (Some item_id) in
      let to := if decide (from < raw_pos plan) then raw_pos plan - 1 else raw_pos plan in
      if decide (from = to) then mret tt
      else
        root_mov (ROrder list_id) from to ;;
        commit ;;
        open_index ←
          on_index (fun idx => reorder_update idx list_id item_id from to is_open (open_pos plan));
        push_event (ItemMoved item_id open_index)
  end.

Definition move_across_lists (item_id cur_list target_list_id : string) (target_index : N)
    (is_open : bool) : M unit :=
  placement ← new_id;
  map ← item_get item_id;
  let created_at := default 0%Z (read_i64 map KEY_CREATED_AT) in
  write_location item_id target_list_id placement ;;
  idx ← gets d_index;
  let plan := plan_target idx target_list_id target_index is_open None in
  let src_positions := entry_positions idx cur_list item_id in
  let was_visible := bool_decide (is_Some (canonical_raw_pos idx cur_list item_id)) in
  root_put (ROrder target_list_id) (raw_pos plan)
    (str_slot (entry_encode (mkEntry item_id placement))) ;;
  root_delete_all (ROrder cur_list) src_positions ;;
  commit ;;
  open_index ← on_index (fun idx =>
    move_update idx cur_list target_list_id item_id placement created_at plan src_positions
      was_visible is_open);
  push_event (ItemListChanged item_id target_list_id open_index).

Definition move_item (item_id target_list_id : string) (target_index : N) : M unit :=
  (fun d => (assert_list_exists d target_list_id, d)) ;;
  find item_id ;;
  meta ← gets (fun d => ix_meta (d_index d) !! item_id);
  match meta with
  | None => fail (ItemNotFound item_id)
  | Some m =>
      if decide (m_list_id m = target_list_id)
      then reorder_in_list item_id target_list_id target_index (m_open m)
      else move_across_lists item_id (m_list_id m) target_list_id target_index (m_open m)
  end.

(** ** Lifecycle *)

(** The write loop; returns the ids whose map changed. *)
Fixpoint apply_writes (ids : list string) (write : LifecycleWrite) (now : Z)
    : M (list string) :=
  match ids with
  | [] => mret []
  | id :: ids =>
      map ← item_get id;
      let '(map', changed) := apply_lifecycle_write map write now in
      item_write id (fun _ => map') ;;
      rest ← apply_writes ids write now;
      mret (if changed : bool then id :: rest else rest)
  end.

Definition sync_item_openness (item_id : string) : M (option nat) :=
  map ← item_get item_id;
  on_index (fun idx => openness_update idx item_id (map_is_open map)).

Definition lifecycle_event (id : string) (map : lmap) (open_index : option nat) : AppEvent :=
  ItemLifecycleChanged id (workflow_of map).1 (workflow_of map).2
    (read_i64 map KEY_STARTED_AT) (read_i64 map KEY_DONE_AT) (read_i64 map KEY_BINNED_AT)
    open_index.

(** One iteration of the closing loop over the changed items. *)
Definition sync_changed (id : string) : M unit :=
  open_index ← sync_item_openness id;
  map ← item_get id;
  push_event (lifecycle_event id map open_index).

Definition closes (write : LifecycleWrite) : bool :=
  match write with
  | SetLifecycle LDone | SetLifecycle LCancelled => true
  | _ => false
  end.

Definition set_items_lifecycle_impl (item_ids : list string) (write : LifecycleWrite)
    : M unit :=
  if decide (item_ids = []) then mret tt
  else
    lift (assert_unique_item_ids item_ids) ;;
    pre_items ← gets (fun d => if BULK_LIFECYCLE_EVENT_THRESHOLD <=? length item_ids
                               then Some (iter_items d) else None);
    mfor item_ids find ;;
    now ← now_millis;
    changed ← apply_writes item_ids write now;
    if decide (changed = []) then mret tt
    else
      focus_removed ←
        (if closes write then prune_focus_refs (list_to_set changed) else mret 0);
      commit ;;
      (if 0 <? focus_removed then push_event FocusChanged else mret tt) ;;
      match pre_items with
      | Some pre => modify rebuild_index ;; emit_item_diffs pre
      | None =>
          mfor changed sync_changed
      end.

Definition set_items_lifecycle (ids : list string) (l : ItemLifecycle) : M unit :=
  set_items_lifecycle_impl ids (SetLifecycle l).
Definition set_items_done (ids : list string) (done : bool) : M unit :=
  set_items_lifecycle_impl ids (if done then SetLifecycle LDone else UnDone).
Definition set_items_binned (ids : list string) (binned : bool) : M unit :=
  set_items_lifecycle_impl ids (if binned then SetLifecycle LBinned else Restore).
Definition set_item_lifecycle (id : string) (l : ItemLifecycle) := set_items_lifecycle [id] l.
Definition set_item_done (id : string) (done : bool) := set_items_done [id] done.
Definition set_item_binned (id : string) (binned : bool) := set_items_binned [id] binned.

(** ** Hard deletes *)

Definition hard_delete_items (item_ids : list string) : M unit :=
  idx ← gets d_index;
  let per_list := delete_per_list idx item_ids in
  let per_item := omap (delete_row idx) item_ids in
  mfor item_ids items_delete ;;
  mfor per_list (fun '(l, positions) => root_delete_all (ROrder l) positions) ;;
  commit ;;
  rearm_undo ;;
  modify (with_index (fun idx => delete_update idx item_ids per_list per_item)) ;;
  mfor item_ids (fun id => push_event (ItemRemoved id)).

Definition delete_binned_items (item_ids : list string) : M unit :=
  if decide (item_ids = []) then mret tt
  else
    lift (assert_unique_item_ids item_ids) ;;
    mfor item_ids (fun id =>
      find id ;;
      map ← item_get id;
      match read_i64 map KEY_BINNED_AT with Some _ => mret tt | None => fail NotBinned end) ;;
    hard_delete_items item_ids.
Definition delete_binned (item_id : string) : M unit := delete_binned_items [item_id].

Definition empty_bin : M nat :=
  binned ← gets (fun d => iv_id <$> binned_items d);
  if decide (binned = []) then mret 0
  else hard_delete_items binned ;; mret (length binned).
End items.
