(* ===== verification/DocIndex.v ===== *)
(** The document invariant: the projection index is exactly the projection of
    the containers, ids not yet minted are unused, and the names in the
    document survive their encodings. With it, a small calculus for running
    the mutations of the document to completion. *)
From S2P Require Import Prelude.
From S2P Require Import Loro.
From S2P Require Import Lifecycle.
From S2P Require Import Registers.
From S2P Require Import Projection.
From S2P Require Import ProjectionFacts.
From S2P Require Import ProjectionOps.
From S2P Require Import Notes.
From S2P Require Import Events.
From S2P Require Import DocCore.

(** ** What the containers project *)

Definition slot_meta (s : slot) : option ItemMeta :=
  match s with MapC m => Some (item_meta m) | _ => None end.

(** The item metadata the containers hold. *)
Definition doc_metas (items : gmap string slot) : gmap string ItemMeta := omap slot_meta items.

(** The open items of a list, read off the containers alone. *)
Definition doc_open (d : Doc) (l : string) : list string :=
  open_projection (doc_metas (d_items d)) l (raw_order d l).

#[global] Arguments doc_metas : simpl never.
#[global] Arguments doc_open : simpl never.
#[global] Arguments raw_order : simpl never.
#[global] Arguments order_list : simpl never.

(** The mirror of an order container is a prefix of it; what is left out makes
    nothing visible (an order container without items is not mirrored). *)
Definition mirror_of (meta : gmap string ItemMeta) (l : string)
    (order raw : list (option OrderEntry)) : Prop :=
  exists rest, order = raw ++ rest /\ omap (canon meta l) rest = [].

Record index_ok (d : Doc) : Prop := {
  ok_wf : index_wf (d_index d);
  ok_meta : ix_meta (d_index d) = doc_metas (d_items d);
  ok_raw : forall l, mirror_of (ix_meta (d_index d)) l (raw_order d l) (raw_at (d_index d) l);
}.

(** A name that survives the [a:b] encodings as their first part. *)
Definition plain (s : string) : Prop := no_colon s /\ s <> "".

(** The documented behaviour of the host's ids: UUIDs in simple form never
    repeat and hold hex digits only. *)
Class HostOk `{Host} : Prop := {
  nth_id_inj i j : nth_id i = nth_id j -> i = j;
  nth_id_plain i : plain (nth_id i);
}.

Section ok.
Context `{Host}.

(** Ids still to be minted are in use nowhere. *)
Definition unseen (d : Doc) : Prop := forall i, d_minted d <= i ->
  d_items d !! nth_id i = None
  /\ forall l e, Some e ∈ raw_order d l ->
       entry_item_id e <> nth_id i /\ entry_placement_id e <> nth_id i.

(** Item and list ids are plain. *)
Record named (d : Doc) : Prop := {
  named_items : forall id s, d_items d !! id = Some s -> plain id;
  named_lists : forall i m l, list_map_at (d_lists d) i = Some m ->
    read_string m KEY_ID = Some l -> plain l;
}.

Record doc_ok (d : Doc) : Prop := {
  ok_index : index_ok d;
  ok_unseen : unseen d;
  ok_named : named d;
}.
End ok.

Lemma projection_mirror meta l order raw :
  mirror_of meta l order raw -> open_projection meta l order = open_projection meta l raw.
Proof.
  intros (rest & -> & Hr). apply projection_canon. by rewrite omap_app, Hr, app_nil_r.
Qed.

(** What the index serves is what the containers project. *)
Lemma index_ok_open d l : index_ok d -> open_item_ids d l = doc_open d l.
Proof.
  intros [Hwf Hm Hr]. unfold open_item_ids, doc_open. rewrite (wf_open _ Hwf), <- Hm.
  symmetry. by apply projection_mirror.
Qed.

(** ** Containers and what they project *)

Lemma order_root_name_inj : Inj (=) (=) order_root_name.
Proof.
  intros a b E. unfold order_root_name, ORDER_PREFIX in E. cbn in E. by simplify_eq.
Qed.
#[export] Existing Instance order_root_name_inj.

Lemma order_list_set l v d j :
  order_list j (root_set (ROrder l) v d) = if decide (l = j) then v else order_list j d.
Proof.
  unfold order_list. cbn. rewrite lookup_insert. case_decide as E1; case_decide as E2; subst.
  - done.
  - by apply order_root_name_inj in E1.
  - done.
  - done.
Qed.

Lemma raw_order_set l v d j :
  raw_order (root_set (ROrder l) v d) j
  = if decide (l = j) then scalar_entry <$> v else raw_order d j.
Proof. unfold raw_order. rewrite order_list_set. by case_decide. Qed.

Lemma lookup_doc_metas items id :
  doc_metas items !! id = match items !! id with Some s => slot_meta s | None => None end.
Proof. unfold doc_metas. rewrite lookup_omap. by destruct (items !! id). Qed.

Lemma doc_metas_item items id :
  doc_metas items !! id = item_meta <$> item_map_of items id.
Proof. rewrite lookup_doc_metas. unfold item_map_of. by destruct (items !! id) as [[]|]. Qed.

Lemma doc_metas_insert items id m :
  doc_metas (<[id := MapC m]> items) = <[id := item_meta m]> (doc_metas items).
Proof. apply omap_insert_Some. done. Qed.

Lemma doc_metas_delete items id : doc_metas (delete id items) = delete id (doc_metas items).
Proof. apply omap_delete. Qed.

(** Metadata that make fewer entries canonical keep a mirror a mirror. *)
Lemma mirror_mono meta meta' l order raw :
  (forall x, Some x ∈ order -> canon meta' l (Some x) = canon meta l (Some x)
                               \/ canon meta' l (Some x) = None) ->
  mirror_of meta l order raw -> mirror_of meta' l order raw.
Proof.
  intros Hc (rest & -> & Hr). exists rest. split; [done|].
  assert (Hc' := fun x H => Hc x (proj2 (elem_of_app _ _ _) (or_intror H))). clear Hc.
  induction rest as [|x rest IH]; [done|].
  cbn [omap list_omap] in Hr |- *.
  destruct (canon meta l x) eqn:E; [done|].
  rewrite (IH Hr (fun y Hy => Hc' y (list_elem_of_further _ _ _ Hy))).
  destruct x as [x|]; [|done].
  by destruct (Hc' x (list_elem_of_here _ _)) as [-> | ->]; [rewrite E|].
Qed.

(** An insertion in the mirrored part. *)
Lemma mirror_insert meta l order raw i e :
  i <= length raw -> mirror_of meta l order raw ->
  mirror_of meta l (insert_at i e order) (insert_at i e raw).
Proof. intros Hi (rest & -> & Hr). exists rest. split; [by apply insert_at_app|done]. Qed.

(** Changing one item's metadata to a placement no entry carries. *)
Lemma canon_insert_fresh meta l id m x :
  x <> mkEntry id (m_placement_id m) ->
  canon (<[id := m]> meta) l (Some x) = canon meta l (Some x)
  \/ canon (<[id := m]> meta) l (Some x) = None.
Proof.
  intros Hx. cbn. destruct (decide (entry_item_id x = id)) as [E|E].
  - right. rewrite E, lookup_insert_eq. rewrite (bool_decide_eq_false_2 (m_placement_id m = _)).
    + by rewrite andb_false_r.
    + intros E2. apply Hx. destruct x; cbn in *. by rewrite E, E2.
  - left. by rewrite lookup_insert_ne.
Qed.

Lemma canon_delete meta l id x :
  canon (delete id meta) l x = canon meta l x \/ canon (delete id meta) l x = None.
Proof.
  destruct x as [x|]; [|by left]. cbn. destruct (decide (entry_item_id x = id)) as [E|E].
  - right. by rewrite E, lookup_delete_eq.
  - left. by rewrite lookup_delete_ne.
Qed.

(** ** Names *)

Lemma location_parse_plain s l : location_parse s = Some l -> plain (loc_list_id l).
Proof.
  unfold location_parse. intros Hp. destruct (split_once ":" s) as [[a b]|] eqn:E; [|done].
  apply split_once_Some in E as [_ Hc]. case_decide; simplify_eq. by split.
Qed.

Lemma map_location_plain m : plain (loc_list_id (map_location m)).
Proof.
  unfold map_location. destruct (read_string m KEY_LOCATION) as [s|]; [|done].
  destruct (location_parse s) eqn:E; [by eapply location_parse_plain|done].
Qed.

Lemma well_formed_plain s : is_well_formed_id s = true -> plain s.
Proof.
  unfold is_well_formed_id. rewrite andb_true_iff. intros [Hl Hf].
  split; [|by intros ->]. clear Hl. induction s as [|c s IH]; [done|].
  cbn in Hf |- *. apply andb_true_iff in Hf as [Hc Hs]. rewrite (IH Hs), orb_false_r.
  apply bool_decide_eq_false. intros ->. by vm_compute in Hc.
Qed.

(** ** Running a mutation to completion *)

(** The mutation returns, and does not fail. *)
Definition runs {A} (m : M A) (d : Doc) (Q : A -> Doc -> Prop) : Prop :=
  match m d with (Ok a, d') => Q a d' | (Err _, _) => False end.

Lemma runs_bind {A B} (m : M A) (f : A -> M B) d Q :
  runs m d (fun a d' => runs (f a) d' Q) -> runs (m ≫= f) d Q.
Proof. unfold runs, mbind, M_bind. by destruct (m d) as [[a|e] d']. Qed.

Lemma runs_mono {A} (m : M A) d (Q Q' : A -> Doc -> Prop) :
  runs m d Q -> (forall a d', Q a d' -> Q' a d') -> runs m d Q'.
Proof. unfold runs. destruct (m d) as [[a|e] d']; auto. Qed.

Lemma runs_eq {A} (m : M A) d a d' (Q : A -> Doc -> Prop) :
  m d = (Ok a, d') -> Q a d' -> runs m d Q.
Proof. unfold runs. by intros ->. Qed.

Lemma runs_bind_eq {A B} (m : M A) (f : A -> M B) d a d' Q :
  m d = (Ok a, d') -> runs (f a) d' Q -> runs (m ≫= f) d Q.
Proof. intros E HQ. apply runs_bind. by eapply runs_eq. Qed.

Lemma runs_inv {A} (m : M A) d Q : runs m d Q -> exists a d', m d = (Ok a, d') /\ Q a d'.
Proof. unfold runs. destruct (m d) as [[a|e] d']; [eauto|done]. Qed.

(** The steps that only log: commits, events, clock readings. *)
Definition same_core (d d' : Doc) : Prop :=
  d_items d' = d_items d /\ d_lists d' = d_lists d /\ d_orders d' = d_orders d
  /\ d_index d' = d_index d /\ d_minted d' = d_minted d.

Lemma same_core_raw d d' l : same_core d d' -> raw_order d' l = raw_order d l.
Proof. intros (_ & _ & Ho & _). unfold raw_order, order_list. cbn. by rewrite Ho. Qed.

Lemma same_core_ok `{Host} d d' : same_core d d' -> doc_ok d -> doc_ok d'.
Proof.
  intros Hs [[Hwf Hm Hr] Hu [Hi Hl]].
  assert (Ho := fun l => same_core_raw d d' l Hs). destruct Hs as (E1 & E2 & E3 & E4 & E5).
  split; [split|..|split]; rewrite ?E4, ?E1, ?E2; try done.
  - intros l. rewrite Ho. apply Hr.
  - intros i Hle. rewrite E5 in Hle. destruct (Hu i Hle) as [H1 H2]. rewrite E1.
    split; [done|]. intros l e. rewrite Ho. apply H2.
Qed.

(** Events pushed one by one. *)
Lemma mfor_push_events {A} (f : A -> AppEvent) l d :
  mfor l (fun a => push_event (f a)) d = (Ok tt, with_events (fun q => q ++ (f <$> l)) d).
Proof.
  revert d. induction l as [|a l IH]; intros d.
  - cbn. unfold mret, M_ret, with_events. rewrite app_nil_r. by destruct d.
  - cbn [mfor]. unfold mbind, M_bind. cbn. rewrite IH. unfold with_events. cbn.
    by rewrite <- app_assoc.
Qed.

Lemma mfor_ext {A} (f g : A -> M unit) l d : (forall a, f a = g a) -> mfor l f d = mfor l g d.
Proof.
  intros Hfg. revert d. induction l as [|a l IH]; intros d; [done|]. cbn [mfor].
  unfold mbind, M_bind. rewrite Hfg. destruct (g a d) as [[[]|e] d']; [apply IH|done].
Qed.

(** The index gates exactly the items the document holds. *)
Lemma find_item_ok d id :
  index_ok d -> find_item d id = ok_or (item_map_of (d_items d) id) (ItemNotFound id).
Proof.
  intros [_ Hm _]. unfold find_item. rewrite Hm, doc_metas_item.
  by destruct (item_map_of (d_items d) id).
Qed.

(** ** Clearing positions of an order container *)

Definition cleared (l : string) (ps : list nat) (d : Doc) : Doc :=
  if decide (ps = []) then d else root_set (ROrder l) (remove_all ps (order_list l d)) d.

Lemma raw_order_cleared l ps d j :
  raw_order (cleared l ps d) j
  = if decide (l = j) then remove_all ps (raw_order d j) else raw_order d j.
Proof.
  unfold cleared. destruct (decide (ps = [])) as [->|Hps]; [by case_decide|].
  rewrite raw_order_set. case_decide as E; [subst j|done]. by rewrite fmap_remove_all.
Qed.

Lemma cleared_frame l ps d :
  d_items (cleared l ps d) = d_items d /\ d_lists (cleared l ps d) = d_lists d
  /\ d_index (cleared l ps d) = d_index d /\ d_minted (cleared l ps d) = d_minted d
  /\ d_events (cleared l ps d) = d_events d /\ d_commits (cleared l ps d) = d_commits d
  /\ d_ticks (cleared l ps d) = d_ticks d.
Proof. unfold cleared. by case_decide. Qed.

Lemma elem_of_remove_all {A} ps (l : list A) x : x ∈ remove_all ps l -> x ∈ l.
Proof.
  induction ps as [|p ps IH] using rev_ind in l |- *; [done|].
  rewrite remove_all_snoc. case_decide; [|apply IH].
  intros Hx%IH. by eapply elem_of_remove_at.
Qed.

(** A mirror stays one when the same positions of it are removed. *)
Lemma mirror_cleared meta l order raw ps :
  ascending (length raw) ps -> mirror_of meta l order raw ->
  mirror_of meta l (remove_all ps order) (remove_all ps raw).
Proof. intros Hps (rest & -> & Hr). exists rest. split; [by apply remove_all_app|done]. Qed.

Lemma cleared_ok `{LoroOk} l ps d :
  ascending (length (order_list l d)) ps ->
  root_delete_all (ROrder l) ps d = (Ok tt, cleared l ps d).
Proof. intros Hps. by apply root_delete_all_ok. Qed.

(** ** A concrete host for the witnesses: unary ids, a clock ticking seconds *)

Fixpoint unary (n : nat) : string :=
  match n with 0 => "a" | S n => String "a" (unary n) end.

Definition unary_host : Host := {| nth_id := unary; nth_millis n := (1000 * Z.of_nat n)%Z |}.

Lemma unary_host_ok : @HostOk unary_host.
Proof.
  split; cbn.
  - intros i. induction i as [|i IH]; intros [|j] E; cbn in E; try done.
    + injection E as E. by destruct j.
    + injection E as E. by destruct i.
    + injection E as E. f_equal. by apply IH.
  - intros i. split; [|by destruct i]. induction i as [|i IH]; [done|]. cbn. by rewrite IH.
Qed.

(** The empty document satisfies the invariant. *)
Lemma doc_empty_ok `{Host} : doc_ok doc_empty.
Proof.
  split; [split| |split].
  - split; cbn; try (intros l; by rewrite lookup_empty).
    + split; [|intros l; by rewrite lookup_empty]. intros l id. unfold set_at. rewrite lookup_empty.
      unfold located. split; [by intros ?%elem_of_empty|]. intros (m & E & _). by rewrite lookup_empty in E.
    + split; [|intros l; by rewrite lookup_empty]. intros l id. unfold set_at. rewrite lookup_empty.
      unfold located_open. split; [by intros ?%elem_of_empty|]. intros (m & E & _). by rewrite lookup_empty in E.
    + intros l. unfold open_at, raw_at. cbn. rewrite !lookup_empty. done.
    + intros l. unfold count_at, raw_at. cbn. rewrite !lookup_empty. done.
  - cbn. unfold doc_metas. by rewrite omap_empty.
  - intros l. exists []. unfold raw_order, order_list, raw_at. cbn. rewrite !lookup_empty. done.
  - intros i _. split; [apply lookup_empty|]. intros l e. unfold raw_order, order_list. cbn.
    rewrite lookup_empty. by intros ?%elem_of_nil.
  - intros id s Hs. cbn in Hs. by rewrite lookup_empty in Hs.
  - intros i m l Hi. unfold list_map_at in Hi. cbn in Hi. by rewrite lookup_nil in Hi.
Qed.
