(* ===== verification/IndexBuild.v ===== *)
(** Rebuilding the projection index from the containers
    (core/src/doc.rs, [compute_index]): the result satisfies the index
    invariant whatever the containers hold, and an index kept incrementally
    serves the same projections as a rebuilt one. *)
From S2P Require Import Prelude.
From S2P Require Import Loro.
From S2P Require Import Lifecycle.
From S2P Require Import Registers.
From S2P Require Import Projection.
From S2P Require Import ProjectionFacts.
From S2P Require Import ProjectionOps.
From S2P Require Import Notes.
From S2P Require Import Events.
From S2P Require Import DocCore.
From S2P Require Import DocFocus.
From S2P Require Import DocIndex.

(** The first loop: the metadata and the membership sets. *)
Definition load_metas (items : gmap string slot) : ProjectionIndex :=
  map_fold (fun id s idx => match s with MapC m => set_meta idx id (item_meta m) | _ => idx end)
    index_default items.

Lemma load_metas_ok items :
  index_sets (load_metas items) /\ ix_meta (load_metas items) = doc_metas items
  /\ ix_raw_orders (load_metas items) = ∅ /\ ix_open_by_list (load_metas items) = ∅
  /\ ix_open_visible_counts (load_metas items) = ∅.
Proof.
  unfold load_metas. apply (map_fold_weak_ind (fun idx items => index_sets idx
    /\ ix_meta idx = doc_metas items /\ ix_raw_orders idx = ∅ /\ ix_open_by_list idx = ∅
    /\ ix_open_visible_counts idx = ∅)).
  - split_and!; try done. split; split; unfold located, located_open, set_at; cbn;
      intros l; try by rewrite lookup_empty.
    + intros id. rewrite lookup_empty. cbn. split; [by intros ?%elem_of_empty|]. by intros (? & ? & _).
    + intros id. rewrite lookup_empty. cbn. split; [by intros ?%elem_of_empty|]. by intros (? & ? & _).
  - intros id s m idx Hn (Hs & Hm & Hr & Ho & Hc).
    assert (Hskip : slot_meta s = None -> doc_metas (<[id:=s]> m) = doc_metas m).
    { intros E. unfold doc_metas. rewrite (omap_insert_None slot_meta m id s) by done.
      apply delete_id. by rewrite lookup_omap, Hn. }
    destruct s as [map|v|]; [|by rewrite Hskip..].
    destruct (set_meta_frame idx id (item_meta map)) as (-> & -> & -> & ->).
    split; [by apply set_meta_sets|]. by rewrite doc_metas_insert, Hm.
Qed.

(** The second loop: the mirrors. *)
Lemma set_raws_ok (raws : string -> list (option OrderEntry)) ls : forall idx,
  let idx' := foldl (fun idx l => set_raw idx l (raws l)) idx ls in
  (forall l, raw_at idx' l = if decide (l ∈ ls) then raws l else raw_at idx l)
  /\ ix_meta idx' = ix_meta idx /\ ix_members idx' = ix_members idx
  /\ ix_open_members idx' = ix_open_members idx /\ ix_open_by_list idx' = ix_open_by_list idx
  /\ ix_open_visible_counts idx' = ix_open_visible_counts idx.
Proof.
  induction ls as [|l ls IH]; intros idx; cbn [foldl].
  - by split_and!.
  - destruct (IH (set_raw idx l (raws l))) as (H1 & H2 & H3 & H4 & H5 & H6).
    split_and!; try done. intros j. rewrite H1, raw_at_set_raw.
    destruct (decide (j ∈ ls)) as [Hj|Hj].
    + rewrite decide_True; [done|]. by right.
    + destruct (decide (l = j)) as [->|Hlj].
      * rewrite decide_True; [done|]. by left.
      * rewrite decide_False; [done|]. rewrite elem_of_cons. intros [?|?]; congruence.
Qed.

(** The third loop: the open arrays and the counts. *)
Lemma refresh_all_ok ls : forall okc idx,
  wf_on okc okc idx ->
  let idx' := foldl (fun idx l => (refresh_open idx l).1) idx ls in
  wf_on (fun l => l ∈ ls \/ okc l) (fun l => l ∈ ls \/ okc l) idx'
  /\ ix_meta idx' = ix_meta idx /\ ix_raw_orders idx' = ix_raw_orders idx.
Proof.
  induction ls as [|l ls IH]; intros okc idx Hwf; cbn [foldl].
  - split_and!; try done. destruct Hwf as [? Ho ? Hc ?].
    split; try done; intros l [[]%not_elem_of_nil|Hl]; auto.
  - pose proof (refresh_open_on _ _ _ l Hwf) as Hwf'.
    destruct (IH _ _ Hwf') as ([? Ho ? Hc ?] & Hm & Hr).
    assert (Hf : ix_meta (refresh_open idx l).1 = ix_meta idx
                 /\ ix_raw_orders (refresh_open idx l).1 = ix_raw_orders idx).
    { destruct Hwf as [[Hs1 Hs2] _ _ _ _]. by rewrite refresh_open_spec. }
    destruct Hf as [Hf1 Hf2]. split_and!; [|by rewrite Hm|by rewrite Hr].
    split; try done; intros j [[->|Hj]%elem_of_cons|Hj]; (apply Ho || apply Hc); auto.
Qed.

(** A list without items projects nothing, whatever its container holds. *)
Lemma no_items_nothing meta l raw :
  (forall id, ~ located meta l id) -> omap (canon meta l) raw = [].
Proof.
  intros Hn. induction raw as [|e raw IH]; [done|]. cbn [omap list_omap].
  destruct (canon meta l e) as [id|] eqn:E; [|done]. exfalso. apply (Hn id).
  destruct e as [e|]; [|done]. cbn in E. destruct (meta !! entry_item_id e) as [m|] eqn:Em; [|done].
  destruct (bool_decide (m_list_id m = l)) eqn:El; [|done]. apply bool_decide_eq_true in El.
  destruct (bool_decide _); [|done]. simplify_eq/=. by exists m.
Qed.

Lemma no_items_projection meta l :
  (forall id, ~ located meta l id) -> open_projection meta l [] = [].
Proof.
  intros Hn. destruct (open_projection meta l []) as [|id ids] eqn:E; [done|].
  exfalso. apply (Hn id), located_open_located, (elem_of_open_projection meta l []).
  rewrite E. by left.
Qed.

Lemma rebuild_ok d : index_ok (rebuild_index d).
Proof.
  unfold rebuild_index, compute_index. fold (load_metas (d_items d)).
  destruct (load_metas_ok (d_items d)) as (Hs & Hm & Hr & Ho & Hc).
  set (idx0 := load_metas (d_items d)) in *. set (ls := elements (candidates idx0 d)).
  destruct (set_raws_ok (raw_order d) ls idx0) as (R1 & R2 & R3 & R4 & R5 & R6).
  set (idx1 := foldl (fun idx l => set_raw idx l (raw_order d l)) idx0 ls) in *.
  assert (Hout : forall l, l ∉ ls -> forall id, ~ located (doc_metas (d_items d)) l id).
  { intros l Hl id Hloc. apply Hl. unfold ls, candidates. rewrite elem_of_elements, !elem_of_union.
    left. left. rewrite <- Hm in Hloc. destruct Hs as [[Hmem _] _]. apply Hmem in Hloc.
    unfold set_at in Hloc. apply elem_of_dom. destruct (ix_members idx0 !! l); [done|].
    by apply elem_of_empty in Hloc. }
  assert (Hon : wf_on (fun l => l ∉ ls) (fun l => l ∉ ls) idx1).
  { split.
    - by apply (index_sets_ext _ idx0).
    - intros l Hl. rewrite R1, decide_False, (open_at_ext _ _ _ R5), R2, Hm by done.
      unfold open_at, raw_at. rewrite Ho, Hr, !lookup_empty. symmetry.
      by apply no_items_projection, Hout.
    - intros l. by rewrite R5, Ho, lookup_empty.
    - intros l Hl. rewrite R1, decide_False, (count_at_ext _ _ _ R6) by done.
      unfold count_at, raw_at. by rewrite Hc, Hr, !lookup_empty.
    - intros l. by rewrite R6, Hc, lookup_empty. }
  destruct (refresh_all_ok ls _ _ Hon) as ([? Wo ? Wc ?] & Wm & Wr).
  set (idx2 := foldl _ idx1 ls) in *.
  split.
  - apply index_wf_on. split; try done; intros l _; [apply Wo|apply Wc];
      destruct (decide (l ∈ ls)); auto.
  - change (ix_meta idx2 = doc_metas (d_items d)). by rewrite Wm, R2.
  - intros l. change (mirror_of (ix_meta idx2) l (raw_order d l) (raw_at idx2 l)).
    rewrite (raw_at_ext _ _ _ Wr), R1, Wm, R2, Hm. case_decide as Hl.
    + exists []. by rewrite app_nil_r.
    + exists (raw_order d l). unfold raw_at. rewrite Hr, lookup_empty.
      split; [done|]. by apply no_items_nothing, Hout.
Qed.

(** An index rebuilt from the containers, whatever they hold, satisfies the
    index invariant: its metadata are the items', its mirrors the order
    containers (of every list that shows anything), its membership sets the
    fibres of the metadata; so it serves for every list the open items the
    containers project. *)
Theorem rebuild_index_serves_projection d :
  index_ok (rebuild_index d) /\ forall l, open_item_ids (rebuild_index d) l = doc_open d l.
Proof. split; [apply rebuild_ok|]. intros l. by rewrite (index_ok_open _ l (rebuild_ok d)). Qed.


(** ** A concrete document for the witnesses

    Three inbox items: two open, one in the bin, each with its entry. *)
Definition sample_item (id text placement : string) (created : Z) : lmap :=
  <[KEY_ID := Val (LString id)]> (<[KEY_TEXT := Val (LString text)]>
    (<[KEY_CREATED_AT := Val (LI64 created)]>
      (<[KEY_LOCATION := Val (LString (location_encode (mkLocation LIST_INBOX placement)))]> ∅))).

Definition sample_doc : Doc := rebuild_index
  (mkDoc
     (<["x1" := MapC (sample_item "x1" "milk" "p1" 1)]>
       (<["x2" := MapC (sample_item "x2" "eggs" "p2" 2)]>
         (<["x3" := MapC (<[KEY_BINNED_AT := Val (LI64 9)]> (sample_item "x3" "jam" "p3" 3))]> ∅)))
     [] ∅
     (<[order_root_name LIST_INBOX := str_slot <$> ["x1:p1"; "x2:p2"; "x3:p3"]]> ∅)
     [] index_default [] [] 0 ∅ None 0 0).

Lemma sample_raw_order l :
  raw_order sample_doc l =
    if decide (l = LIST_INBOX)
    then [Some (mkEntry "x1" "p1"); Some (mkEntry "x2" "p2"); Some (mkEntry "x3" "p3")] else [].
Proof.
  unfold raw_order, order_list. cbn. rewrite lookup_insert.
  case_decide as E1; case_decide as E2; try done.
  - apply (order_root_name_inj LIST_INBOX) in E1. congruence.
  - by subst.
Qed.

Lemma sample_items id s : d_items sample_doc !! id = Some s -> id ∈ ["x1"; "x2"; "x3"].
Proof.
  cbn. rewrite !lookup_insert_Some, lookup_empty, !elem_of_cons. naive_solver.
Qed.

Lemma sample_doc_ok : @doc_ok unary_host sample_doc.
Proof.
  split; [apply rebuild_ok| |split].
  - intros i _. split.
    + apply eq_None_not_Some. intros [s Hs%sample_items].
      rewrite !elem_of_cons, elem_of_nil in Hs. by destruct i; destruct Hs as [|[|[|[]]]].
    + intros l e. rewrite sample_raw_order. case_decide; [|by intros ?%elem_of_nil].
      rewrite !elem_of_cons, elem_of_nil. by intros [[= ->]|[[= ->]|[[= ->]|[]]]]; destruct i.
  - intros id s Hs%sample_items. rewrite !elem_of_cons, elem_of_nil in Hs.
    by destruct Hs as [->|[->|[->|[]]]].
  - intros i m l Hi. unfold list_map_at in Hi. cbn in Hi. by rewrite lookup_nil in Hi.
Qed.


#[local] Existing Instances value_loro value_loro_ok.

Lemma add_to_focus_refines_witness :
  add_to_focus "x2" 0 sample_doc = (Ok tt, focus_write [ref_local "x2"] sample_doc).
Proof.
  pose proof (add_to_focus_refines sample_doc "x2" 0 eq_refl ltac:(discriminate)) as H.
  cbv zeta in H. destruct (ix_meta (d_index sample_doc) !! "x2") as [m|] eqn:E;
    [|vm_compute in E; discriminate E].
  assert (Em : m = mkMeta LIST_INBOX "p2" true 2)
    by (apply (inj Some); rewrite <- E; vm_compute; reflexivity).
  rewrite Em in H. destruct H as [H _]. exact H.
Defined.

(** The sample with the first item, an unknown one and a foreign one focused. *)
Definition sample_focused : Doc :=
  with_focus (fun _ => str_slot <$> ["x1"; "gone"; "d9:y1"; "x2"]) sample_doc.

Lemma remove_from_focus_refines_witness :
  focus_entries (remove_from_focus_many ["x1"] sample_focused).2 = [ref_foreign "d9" "y1"; ref_local "x2"].
Proof.
  destruct (remove_from_focus_refines sample_focused ["x1"] ltac:(discriminate)) as [_ H].
  rewrite H. vm_compute. reflexivity.
Defined.

Lemma move_in_focus_refines_witness :
  focus_entries (move_in_focus "x2" 0 sample_focused).2
  = [ref_local "x2"; ref_local "x1"; ref_foreign "d9" "y1"].
Proof.
  pose proof (move_in_focus_refines sample_focused "x2" 0) as H. cbv zeta in H.
  destruct (scan_position (scan_focus sample_focused) "x2") as [from|] eqn:E;
    [|vm_compute in E; discriminate E].
  assert (Ef : from = 2) by (apply (inj Some); rewrite <- E; vm_compute; reflexivity).
  rewrite Ef in H. destruct H as (r & Hr & _ & _ & H). rewrite H.
  assert (Er : r = ref_local "x2") by (apply (inj Some); rewrite <- Hr; vm_compute; reflexivity).
  rewrite Er. vm_compute. reflexivity.
Defined.

Lemma add_to_focus_many_refines_witness :
  focus_entries (add_to_focus_many ["x3"; "x2"; "x2"; "x1"]
                   (with_focus (fun _ => str_slot <$> ["x1"]) sample_doc)).2
  = [ref_local "x2"; ref_local "x1"].
Proof.
  destruct (add_to_focus_many_refines (with_focus (fun _ => str_slot <$> ["x1"]) sample_doc)
              ["x3"; "x2"; "x2"; "x1"]) as (_ & H & _).
  - intros id Hid. rewrite !elem_of_cons, elem_of_nil in Hid.
    destruct Hid as [->|[->|[->|[->|[]]]]]; (split; [reflexivity|discriminate]).
  - discriminate.
  - rewrite H. vm_compute. reflexivity.
Defined.
