(* ===== verification/ItemFacts.v ===== *)
(** The item mutations keep the document invariant, never fail once their
    guards have passed, and land items where they say. *)
From S2P Require Import Prelude.
From S2P Require Import Loro.
From S2P Require Import Lifecycle.
From S2P Require Import Registers.
From S2P Require Import Projection.
From S2P Require Import ProjectionFacts.
From S2P Require Import ProjectionOps.
From S2P Require Import Notes.
From S2P Require Import Events.
From S2P Require Import DocCore.
From S2P Require Import DocFocus.
From S2P Require Import DocItems.
From S2P Require Import DocIndex.
From S2P Require Import IndexBuild.

(** ** Writes to one item map *)

Definition set_item (id : string) (m : lmap) (d : Doc) : Doc := with_items <[id := MapC m]> d.

Lemma set_item_set_item id m m' d : set_item id m (set_item id m' d) = set_item id m d.
Proof. unfold set_item, with_items. cbn. by rewrite insert_insert_eq. Qed.

Lemma set_item_map id m d : item_map_of (d_items (set_item id m d)) id = Some m.
Proof. unfold item_map_of. cbn. by rewrite lookup_insert_eq. Qed.

Section item_writes.
Context `{LoroOk}.

Lemma item_write_ok id f m d :
  item_map_of (d_items d) id = Some m ->
  item_write id f d = (Ok tt, set_item id (f m) d).
Proof.
  intros E. unfold item_write, modify, set_item, with_items. cbn. by rewrite E.
Qed.

Lemma item_write_set id f m d :
  item_write id f (set_item id m d) = (Ok tt, set_item id (f m) d).
Proof. erewrite item_write_ok by apply set_item_map. by rewrite set_item_set_item. Qed.

Lemma item_insert_set id k v m d :
  item_insert id k v (set_item id m d) = (Ok tt, set_item id (map_insert k (Val v) m) d).
Proof. apply item_write_set. Qed.

Lemma item_create_ok id d : items_create id d = (Ok tt, set_item id ∅ d).
Proof. unfold items_create, modify, set_item, with_items. cbn. by rewrite map_insert_spec. Qed.

Lemma item_get_ok id m d : item_map_of (d_items d) id = Some m -> item_get id d = (Ok m, d).
Proof. intros E. unfold item_get, gets. by rewrite E. Qed.

(** Writing registers the index does not mirror. *)
Lemma item_meta_insert k v m :
  k ∉ [KEY_LOCATION; KEY_LIFECYCLE; KEY_CREATED_AT; KEY_BINNED_AT] ->
  item_meta (map_insert k v m) = item_meta m.
Proof.
  rewrite !not_elem_of_cons. intros (H1 & H2 & H3 & H4 & _).
  unfold item_meta, map_location, map_is_open.
  rewrite read_string_insert, !read_i64_insert, workflow_of_frame by done.
  by rewrite !decide_False.
Qed.

Lemma item_meta_delete k m :
  k ∉ [KEY_LOCATION; KEY_LIFECYCLE; KEY_CREATED_AT; KEY_BINNED_AT] ->
  item_meta (map_delete k m) = item_meta m.
Proof.
  rewrite !not_elem_of_cons. intros (H1 & H2 & H3 & H4 & _).
  unfold item_meta, map_location, map_is_open.
  rewrite read_string_delete, !read_i64_delete, workflow_of_delete by done.
  by rewrite !decide_False.
Qed.

(** Writing the location register. *)
Lemma item_meta_location l p m :
  plain l ->
  item_meta (map_insert KEY_LOCATION (Val (LString (location_encode (mkLocation l p)))) m)
  = mkMeta l p (map_is_open m) (default 0%Z (read_i64 m KEY_CREATED_AT)).
Proof.
  intros [Hc Hne]. unfold item_meta, map_location, map_is_open.
  rewrite read_string_insert, !read_i64_insert, workflow_of_frame by done.
  rewrite decide_True by done. rewrite !decide_False by done.
  by rewrite location_roundtrip.
Qed.
End item_writes.

(** ** Adding *)

Section adding.
Context `{LoroOk} `{HostOk}.

(** The map of a new item, and of one captured into a state. *)
Definition captured (id text : string) (now : Z) (author : option string)
    (l placement : string) : lmap :=
  let m := map_insert KEY_ID (Val (LString id)) ∅ in
  let m := map_insert KEY_TEXT (Val (LString text)) m in
  let m := map_insert KEY_CREATED_AT (Val (LI64 now)) m in
  let m := match author with
           | Some a => map_insert KEY_CREATED_BY (Val (LString a)) m
           | None => m
           end in
  map_insert KEY_LOCATION (Val (LString (location_encode (mkLocation l placement)))) m.

Definition new_item (id text : string) (now : Z) (author : option string) (l placement : string)
    (state : WorkflowState) : lmap :=
  let m := captured id text now author l placement in
  if decide (state = Backlog) then m
  else
    let m := write_workflow m state now in
    if decide (state = InProgress) then map_insert KEY_STARTED_AT (Val (LI64 now)) m else m.

Lemma new_item_read_i64 id text now author l placement state k :
  k ∈ [KEY_CREATED_AT; KEY_BINNED_AT] ->
  read_i64 (new_item id text now author l placement state) k
  = if decide (KEY_CREATED_AT = k) then Some now else None.
Proof.
  rewrite !elem_of_cons, elem_of_nil. intros Hk.
  unfold new_item, captured, write_workflow.
  destruct Hk as [-> |[-> |[]]]; destruct author; repeat case_decide;
    by rewrite !read_i64_insert.
Qed.

Lemma new_item_text id text now author l placement state :
  read_string (new_item id text now author l placement state) KEY_TEXT = Some text.
Proof.
  unfold new_item, captured, write_workflow.
  destruct author; repeat case_decide; by rewrite !read_string_insert.
Qed.

Lemma new_item_location id text now author l placement state :
  read_string (new_item id text now author l placement state) KEY_LOCATION
  = Some (location_encode (mkLocation l placement)).
Proof.
  unfold new_item, captured, write_workflow.
  destruct author; repeat case_decide; by rewrite !read_string_insert.
Qed.

Lemma new_item_state id text now author l placement state :
  workflow_of (new_item id text now author l placement state) = (state, now).
Proof.
  unfold new_item. case_decide as E; [subst state|case_decide].
  - unfold captured. rewrite workflow_of_frame by done.
    destruct author; [rewrite workflow_of_frame by done|];
      unfold workflow_of, read_workflow, read_i64; rewrite !map_insert_spec;
      repeat rewrite lookup_insert_ne by done; rewrite lookup_empty; by rewrite lookup_insert_eq.
  - rewrite workflow_of_frame by done. apply workflow_of_write.
  - apply workflow_of_write.
Qed.

Lemma new_item_meta id text now author l placement state :
  plain l -> is_open state = true ->
  item_meta (new_item id text now author l placement state) = mkMeta l placement true now.
Proof.
  intros [Hc Hne] Hs. unfold item_meta, map_location, map_is_open.
  rewrite new_item_location, location_roundtrip, new_item_state, !new_item_read_i64
    by (done || by repeat constructor).
  rewrite (decide_False (P := _ = KEY_BINNED_AT)) by done. cbn [fst]. by rewrite Hs.
Qed.

Definition minted (n : nat) (d : Doc) : Doc := with_minted (fun k => n + k) d.

(** One iteration of the write loop. *)
Lemma add_one_eq l state at_ text d :
  at_ <= length (order_list l d) ->
  let id := nth_id (d_minted d) in
  let placement := nth_id (S (d_minted d)) in
  let now := nth_millis (d_ticks d) in
  add_one l state at_ text d =
    (Ok (id, placement, now),
     root_set (ROrder l)
       (insert_at at_ (str_slot (entry_encode (mkEntry id placement))) (order_list l d))
       (set_item id (new_item id text now (d_author d) l placement state)
          (with_ticks S (minted 2 d)))).
Proof.
  intros Hat id placement now. unfold add_one, mbind, M_bind. cbn [new_id now_millis gets].
  fold id. rewrite item_create_ok, !item_insert_set.
  set (d0 := with_ticks S (with_minted S (with_minted S d))).
  assert (Ha : (match d_author d0 with
           | Some a => item_insert id KEY_CREATED_BY (LString a)
           | None => mret tt
           end) (set_item id (map_insert KEY_CREATED_AT (Val (LI64 now))
              (map_insert KEY_TEXT (Val (LString text))
                (map_insert KEY_ID (Val (LString id)) ∅))) d0)
      = (Ok tt, set_item id (match d_author d with
           | Some a => map_insert KEY_CREATED_BY (Val (LString a))
           | None => fun m => m
           end (map_insert KEY_CREATED_AT (Val (LI64 now))
              (map_insert KEY_TEXT (Val (LString text))
                (map_insert KEY_ID (Val (LString id)) ∅)))) d0)).
  { change (d_author d0) with (d_author d). destruct (d_author d); [apply item_insert_set|done]. }
  change (nth_millis (d_ticks (with_minted S (with_minted S d)))) with now.
  change (nth_id (d_minted (with_minted S d))) with placement.
  rewrite Ha. clear Ha. rewrite item_insert_set.
  match goal with |- context [set_item id ?m d0] =>
    replace m with (captured id text now (d_author d) l placement)
      by (unfold captured; by destruct (d_author d)) end.
  assert (Hs : (if decide (state = Backlog) then mret tt
            else item_write id (fun m => write_workflow m state now) ;;
                 (if decide (state = InProgress) then item_insert id KEY_STARTED_AT (LI64 now)
                  else mret tt))
           (set_item id (captured id text now (d_author d) l placement) d0)
           = (Ok tt, set_item id (new_item id text now (d_author d) l placement state) d0)).
  { unfold new_item. case_decide; [done|]. unfold mbind, M_bind. rewrite item_write_set.
    case_decide; [apply item_insert_set|done]. }
  unfold mbind, M_bind in Hs. rewrite Hs. clear Hs.
  by rewrite root_put_ok.
Qed.

(** The run of ids, placements and stamps [n] iterations mint. *)
Fixpoint mint_run (m t n : nat) : pending :=
  match n with
  | 0 => []
  | S n => (nth_id m, nth_id (S m), nth_millis t) :: mint_run (S (S m)) (S t) n
  end.

Lemma mint_run_bounds m t n p :
  p ∈ mint_run m t n ->
  exists i j now, p = (nth_id i, nth_id j, now) /\ m <= i < m + 2 * n /\ m <= j < m + 2 * n.
Proof.
  revert m t. induction n as [|n IH]; intros m t; cbn; [by rewrite elem_of_nil|].
  rewrite elem_of_cons. intros [-> | (i & j & now & -> & Hi & Hj)%IH].
  - exists m, (S m), (nth_millis t). split; [done|lia].
  - exists i, j, now. split; [done|lia].
Qed.

Lemma mint_run_ids m t n id :
  id ∈ pending_id <$> mint_run m t n -> exists i, m <= i < m + 2 * n /\ id = nth_id i.
Proof.
  intros (p & -> & (i & j & now & -> & Hi & _)%mint_run_bounds)%list_elem_of_fmap. by exists i.
Qed.

Lemma mint_run_NoDup m t n : NoDup (pending_id <$> mint_run m t n).
Proof.
  revert m t. induction n as [|n IH]; intros m t; cbn; constructor; [|apply IH].
  intros (i & Hi & E)%mint_run_ids. apply nth_id_inj in E. lia.
Qed.

Lemma mint_run_length m t n : length (mint_run m t n) = n.
Proof. revert m t. induction n as [|n IH]; intros m t; cbn; [done|by rewrite IH]. Qed.

Definition entry_slot (p : string * string * Z) : slot :=
  let '(id, placement, _) := p in str_slot (entry_encode (mkEntry id placement)).

Lemma scalar_entry_slot p : plain (pending_id p) -> scalar_entry (entry_slot p) = pending_entry p.
Proof. destruct p as [[id pl] t]. intros [Hc Hne]. by apply entry_roundtrip. Qed.

Record added (l : string) (state : WorkflowState) (at_ : nat) (texts : list string)
    (ps : pending) (d d' : Doc) : Prop := {
  added_metas : doc_metas (d_items d') = metas_of (doc_metas (d_items d)) l ps;
  added_maps : forall i text id pl now, texts !! i = Some text -> ps !! i = Some (id, pl, now) ->
    item_map_of (d_items d') id = Some (new_item id text now (d_author d) l pl state);
  added_others : forall id, id ∉ pending_id <$> ps -> d_items d' !! id = d_items d !! id;
  added_order : order_list l d' = insert_run at_ (entry_slot <$> ps) (order_list l d);
  added_orders : forall j, j <> l -> order_list j d' = order_list j d;
  added_minted : d_minted d' = d_minted d + 2 * length ps;
  added_frame : d_lists d' = d_lists d /\ d_index d' = d_index d /\ d_events d' = d_events d
    /\ d_author d' = d_author d /\ d_focus d' = d_focus d /\ d_commits d' = d_commits d;
}.

Lemma add_loop_runs l state texts : forall at_ d,
  at_ <= length (order_list l d) -> plain l -> is_open state = true ->
  runs (add_loop l state at_ texts) d (fun ps d' =>
    ps = mint_run (d_minted d) (d_ticks d) (length texts) /\ added l state at_ texts ps d d').
Proof.
  induction texts as [|text texts IH]; intros at_ d Hat Hl Hs.
  - split; [done|]. split; try done; try (cbn; lia). symmetry. apply insert_run_nil.
  - cbn [add_loop]. eapply runs_bind_eq; [by apply add_one_eq|].
    set (id := nth_id (d_minted d)). set (pl := nth_id (S (d_minted d))).
    set (now := nth_millis (d_ticks d)).
    match goal with |- runs _ ?x _ => set (d1 := x) end.
    apply runs_bind. eapply runs_mono; [apply (IH (S at_) d1); [|done..]|].
    { unfold d1. rewrite order_list_set, decide_True, length_insert_at by done. lia. }
    intros ps d' [-> Ha]. cbn [length mint_run]. split; [done|].
    fold id pl now. destruct Ha as [Hm Hp Ho Hord Hords Hmint Hfr].
    assert (Hid : id ∉ pending_id <$> mint_run (d_minted d1) (d_ticks d1) (length texts)).
    { intros (i & Hi & E)%mint_run_ids. apply nth_id_inj in E. unfold d1 in Hi. cbn in Hi. lia. }
    change (d_minted d1) with (S (S (d_minted d))) in *.
    change (d_ticks d1) with (S (d_ticks d)) in *.
    split.
    + rewrite Hm. unfold d1. cbn -[doc_metas]. rewrite doc_metas_insert.
      by rewrite new_item_meta by done.
    + intros [|i] text' id' pl' now' Ht Hps; cbn in Ht, Hps; simplify_eq.
      * unfold item_map_of. rewrite (Ho _ Hid). unfold d1. cbn. by rewrite lookup_insert_eq.
      * rewrite (Hp _ _ _ _ _ Ht Hps). done.
    + intros id' Hid'. cbn in Hid'. apply not_elem_of_cons in Hid' as [H3 H4].
      rewrite (Ho _ H4). unfold d1. cbn. by rewrite lookup_insert_ne.
    + rewrite Hord. unfold d1 at 1. rewrite order_list_set, decide_True by done.
      cbn [fmap list_fmap entry_slot]. by rewrite insert_run_cons.
    + intros j Hj. rewrite (Hords j Hj). unfold d1. by rewrite order_list_set, decide_False.
    + rewrite Hmint. cbn. lia.
    + done.
Qed.
Lemma lookup_metas_of l ps meta id :
  id ∉ pending_id <$> ps -> metas_of meta l ps !! id = meta !! id.
Proof.
  unfold metas_of. revert meta. induction ps as [|[[i pl] now] ps IH]; intros meta Hid; [done|].
  cbn in Hid. apply not_elem_of_cons in Hid as [H3 H4]. cbn. rewrite IH by done.
  by rewrite lookup_insert_ne.
Qed.

Lemma elem_of_insert_run {A} t (x : A) xs l : x ∈ insert_run t xs l <-> x ∈ xs \/ x ∈ l.
Proof.
  unfold insert_run. rewrite !elem_of_app.
  assert (Hl : x ∈ l <-> x ∈ take t l \/ x ∈ drop t l) by (by rewrite <- elem_of_app, take_drop).
  tauto.
Qed.

Lemma fmap_insert_run {A B} (f : A -> B) t xs l :
  f <$> insert_run t xs l = insert_run t (f <$> xs) (f <$> l).
Proof. unfold insert_run. by rewrite !fmap_app, fmap_take, fmap_drop. Qed.

Lemma insert_run_app {A} t (xs l k : list A) :
  t <= length l -> insert_run t xs (l ++ k) = insert_run t xs l ++ k.
Proof.
  intros Ht. unfold insert_run. rewrite take_app_le, drop_app_le by done.
  by rewrite <- !app_assoc.
Qed.

(** The order container the loop leaves, entry by entry. *)
Lemma added_raw_order l state at_ texts d d' :
  added l state at_ texts (mint_run (d_minted d) (d_ticks d) (length texts)) d d' ->
  raw_order d' l = insert_run at_
    (pending_entry <$> mint_run (d_minted d) (d_ticks d) (length texts)) (raw_order d l)
  /\ forall j, j <> l -> raw_order d' j = raw_order d j.
Proof.
  intros [_ _ _ Hord Hords _ _]. unfold raw_order. split; [|intros j Hj; by rewrite Hords].
  rewrite Hord, fmap_insert_run, <- list_fmap_compose. f_equal.
  apply list_fmap_ext. intros i p Hp. apply scalar_entry_slot.
  apply list_elem_of_lookup_2, mint_run_bounds in Hp as (k & j & now & -> & _).
  apply nth_id_plain.
Qed.

Lemma mirror_agree meta meta' l order raw :
  (forall x, Some x ∈ order -> meta' !! entry_item_id x = meta !! entry_item_id x) ->
  mirror_of meta l order raw -> mirror_of meta' l order raw.
Proof.
  intros Hx (rest & -> & Hr). exists rest. split; [done|]. rewrite <- Hr.
  assert (Hx' := fun x H => Hx x (proj2 (elem_of_app _ _ _) (or_intror H))). clear Hx Hr.
  induction rest as [|[x|] rest IH]; [done|..]; cbn.
  - rewrite (Hx' x) by by left. rewrite IH; [done|]. intros y Hy. apply Hx'. by right.
  - apply IH. intros y Hy. apply Hx'. by right.
Qed.

Lemma assert_list_plain d l : named d -> assert_list_exists d l = Ok tt -> plain l.
Proof.
  intros Hn. unfold assert_list_exists, is_reserved_list, find_list.
  destruct (_ || _) eqn:E.
  - intros _. apply orb_true_iff in E as [E|E]; apply bool_decide_eq_true in E as ->; done.
  - intros Hf. assert (Hrows : forall i m, d_lists d !! i = Some (MapC m) ->
      read_string m KEY_ID = Some l -> plain l).
    { intros i m Hi. apply (named_lists _ Hn i). unfold list_map_at. by rewrite Hi. }
    clear Hn E. revert Hf Hrows. generalize 0. induction (d_lists d) as [|x rest IH]; intros n Hf Hrows;
      [done|]. cbn in Hf.
    assert (Hrest : forall i m, rest !! i = Some (MapC m) ->
      read_string m KEY_ID = Some l -> plain l) by (intros i; apply (Hrows (S i))).
    destruct x as [m|v|]; [|by eapply IH..]. case_decide as E; [by apply (Hrows 0 m)|by eapply IH].
Qed.
Lemma pending_fresh_run d l n :
  doc_ok d -> pending_fresh (d_index d) l (mint_run (d_minted d) (d_ticks d) n).
Proof.
  intros [[_ Hm Hr] Hu _]. split; [apply mint_run_NoDup|].
  intros id (i & [Hi _] & ->)%mint_run_ids. destruct (Hu i Hi) as [H3 H4]. split.
  - by rewrite Hm, lookup_doc_metas, H3.
  - intros e He. apply (H4 l e). destruct (Hr l) as (rest & -> & _). rewrite elem_of_app. by left.
Qed.

Lemma pending_entry_Some (ps : pending) e :
  Some e ∈ pending_entry <$> ps ->
  exists p, p ∈ ps /\ entry_item_id e = pending_id p /\ entry_placement_id e = p.1.2.
Proof.
  intros (p & E & Hp)%list_elem_of_fmap. exists p. destruct p as [[id pl] now]. cbn in E.
  by simplify_eq.
Qed.

Section added_ok.
Context (l : string) (state : WorkflowState) (target : N) (texts : list string) (d d' : Doc).
Hypothesis Hok : doc_ok d.
Hypothesis Hl : plain l.
Let plan := plan_target (d_index d) l target true None.
Let ps := mint_run (d_minted d) (d_ticks d) (length texts).
Hypothesis Ha : added l state (raw_pos plan) texts ps d d'.

Lemma added_unseen : unseen d'.
Proof.
  intros i Hi. rewrite (added_minted _ _ _ _ _ _ _ Ha) in Hi.
  destruct Hok as [_ Hu _]. destruct (Hu i ltac:(lia)) as [H3 H4].
  assert (Hps : length ps = length texts) by apply mint_run_length.
  split.
  - rewrite (added_others _ _ _ _ _ _ _ Ha); [done|].
    intros (k & Hk & E)%mint_run_ids. apply nth_id_inj in E. lia.
  - destruct (added_raw_order _ _ _ _ _ _ Ha) as [Hrl Hrj]. intros j e He.
    destruct (decide (j = l)) as [-> |Hj]; [|rewrite (Hrj j Hj) in He; by apply (H4 j)].
    rewrite Hrl in He. apply elem_of_insert_run in He as [He|He]; [|by apply (H4 l)].
    apply pending_entry_Some in He as (p & Hp & -> & ->).
    apply mint_run_bounds in Hp as (k & k' & now & -> & Hk & Hk'). cbn.
    split; intros E; apply nth_id_inj in E; lia.
Qed.

Lemma added_named : named d'.
Proof.
  destruct Hok as [_ _ [Hi Hrows]]. split.
  - intros id s Hs. destruct (decide (id ∈ pending_id <$> ps)) as [(i & _ & ->)%mint_run_ids|Hn].
    + apply nth_id_plain.
    + rewrite (added_others _ _ _ _ _ _ _ Ha) in Hs by done. by eapply Hi.
  - destruct (added_frame _ _ _ _ _ _ _ Ha) as [E _]. rewrite E. done.
Qed.

Hypothesis Hne : texts <> [].
Hypothesis Hroom : (N.of_nat (length (doc_open d l) + length texts) < usize_max)%N.
Let r := add_update (d_index d) l plan ps.
Let d2 := with_index (fun _ => r.1) d'.

Lemma added_ok :
  doc_ok d2 /\ r.2 = doc_open d2 l
  /\ doc_open d2 l = insert_run
       (Nat.min (N.to_nat target)
          (length (open_visible (doc_metas (d_items d)) l (raw_order d l))))
       (pending_id <$> ps) (doc_open d l)
  /\ forall j, j <> l -> doc_open d2 j = doc_open d j.
Proof.
  assert (Hlen : length ps = length texts) by apply mint_run_length.
  pose proof (ok_index _ Hok) as [Hwf Hm Hr].
  assert (Hopen := fun j => index_ok_open d j (ok_index _ Hok)). unfold open_item_ids in Hopen.
  destruct (add_update_wf (d_index d) l target ps Hwf) as (Wwf & W2 & Wm & Wr & Wrj & Wo & Woj).
  { by apply pending_fresh_run. }
  { intros E. rewrite E in Hlen. by destruct texts. }
  { by rewrite Hopen, Hlen. }
  fold plan in Wwf, W2, Wm, Wr, Wrj, Wo, Woj. fold r in Wwf, W2, Wm, Wr, Wrj, Wo, Woj.
  destruct (added_raw_order _ _ _ _ _ _ Ha) as [Hrl Hrj].
  assert (Hmir : forall j, mirror_of (ix_meta r.1) j (raw_order d j) (raw_at (d_index d) j)).
  { intros j. eapply mirror_agree; [|apply Hr]. intros x Hx. rewrite Wm. apply lookup_metas_of.
    intros (i & [Hi _] & E)%mint_run_ids. by apply (proj1 (proj2 (ok_unseen _ Hok i Hi) j x Hx)). }
  assert (Hix : index_ok d2).
  { split; [done|..].
    - change (ix_meta r.1 = doc_metas (d_items d')).
      by rewrite Wm, Hm, (added_metas _ _ _ _ _ _ _ Ha).
    - intros j. change (mirror_of (ix_meta r.1) j (raw_order d' j) (raw_at r.1 j)).
      destruct (decide (j = l)) as [-> |Hj]; [|by rewrite Hrj, Wrj].
      rewrite Hrl, Wr. destruct (Hmir l) as (rest & -> & Hrest). exists rest.
      split; [|done]. apply insert_run_app, plan_raw_le. }
  assert (Hopen2 := fun j => index_ok_open d2 j Hix). 
  change (forall j, open_at r.1 j = doc_open d2 j) in Hopen2.
  split_and!.
  - split; [done|..].
    + exact added_unseen.
    + by destruct added_named.
  - by rewrite W2, Hopen2.
  - rewrite <- Hopen2, Wo, Hopen. f_equal. f_equal. f_equal.
    rewrite <- Hm. destruct (Hr l) as (rest & -> & Hrest). unfold open_visible, visible.
    by rewrite omap_app, Hrest, app_nil_r.
  - intros j Hj. by rewrite <- Hopen2, <- Hopen, Woj.
Qed.
End added_ok.
Lemma new_item_id id text now author l placement state :
  read_string (new_item id text now author l placement state) KEY_ID = Some id.
Proof.
  unfold new_item, captured, write_workflow.
  destruct author; repeat case_decide; by rewrite !read_string_insert.
Qed.

(** The view of an item just captured. *)
Lemma new_item_view id text now author l placement state :
  plain l ->
  exists v, item_view (new_item id text now author l placement state) = Some v
    /\ iv_id v = id /\ iv_text v = text /\ iv_list_id v = l /\ iv_state v = state
    /\ iv_created_at v = now /\ iv_binned_at v = None.
Proof.
  intros [Hc Hne]. unfold item_view, map_location.
  rewrite new_item_id, new_item_text, new_item_location, location_roundtrip, new_item_state by done.
  rewrite (new_item_read_i64 _ _ _ _ _ _ _ KEY_CREATED_AT) by repeat constructor.
  eexists. split; [done|]. cbn. repeat split. rewrite new_item_read_i64; [done|repeat constructor].
Qed.

Lemma consume_added l state author final ps : forall texts P R,
  length texts = length ps -> NoDup (pending_id <$> ps) ->
  (forall id, id ∈ pending_id <$> ps -> id ∉ P ++ R) ->
  (forall k id, (pending_id <$> ps) !! k = Some id -> position_of id final = Some (length P + k)) ->
  foldl consume (P ++ R)
    ((fun '(text, p) => added_event l state author final text p) <$> zip texts ps)
  = P ++ (pending_id <$> ps) ++ R.
Proof.
  induction ps as [|[[id pl] now] ps IH]; intros [|text texts] P R Hlen Hnd Hd Hpos; try done.
  cbn [fmap list_fmap zip zip_with foldl added_event consume iv_id].
  cbn in Hlen, Hnd, Hd, Hpos. apply NoDup_cons in Hnd as [Hid Hnd].
  rewrite (Hpos 0 id eq_refl), place_item_at; [|apply Hd; by constructor|lia].
  rewrite (cons_middle id P R), (app_assoc P [id] R), IH.
  - by rewrite <- app_assoc.
  - lia.
  - done.
  - intros x Hx. specialize (Hd x (list_elem_of_further _ _ _ Hx)). revert Hd.
    rewrite !elem_of_app, list_elem_of_singleton. intros Hd [[H3| ->]|H3]; tauto.
  - intros k x Hk. rewrite (Hpos (S k) x Hk), length_app. cbn. f_equal. lia.
Qed.

Lemma add_events_consume l state author texts ps t arr :
  length texts = length ps -> NoDup (pending_id <$> ps) -> NoDup (insert_run t (pending_id <$> ps) arr) ->
  t <= length arr ->
  foldl consume arr ((fun '(text, p) =>
      added_event l state author (insert_run t (pending_id <$> ps) arr) text p) <$> zip texts ps)
  = insert_run t (pending_id <$> ps) arr.
Proof.
  intros Hlen Hnd Hnd2 Ht. rewrite <- (take_drop t arr) at 1. apply consume_added; try done.
  - intros id Hid. unfold insert_run in Hnd2. rewrite app_assoc in Hnd2.
    apply NoDup_app in Hnd2 as (Hnd2 & H3 & _). apply NoDup_app in Hnd2 as (_ & H4 & _).
    rewrite elem_of_app. intros [Hx|Hx]; [by apply (H4 id Hx)|].
    apply (H3 id); [|done]. rewrite elem_of_app. by right.
  - intros k id Hk. apply position_of_Some; [done|]. unfold insert_run.
    rewrite lookup_app_r by lia. rewrite Nat.add_comm, Nat.add_sub.
    by rewrite lookup_app_l by (by eapply lookup_lt_Some).
Qed.

Lemma existsb_blank texts :
  Forall (fun t => trim t <> "") texts ->
  existsb (fun t => bool_decide (t = "")) (trim <$> texts) = false.
Proof.
  induction 1 as [|t texts Ht _ IH]; [done|]. cbn. by rewrite bool_decide_eq_false_2, IH.
Qed.

(** The run of a batch whose guards pass. *)
Lemma add_items_at_impl_eq l texts target state d ps d1 :
  assert_list_exists d l = Ok tt -> texts <> [] -> Forall (fun t => trim t <> "") texts ->
  let plan := plan_target (d_index d) l target true None in
  add_loop l state (raw_pos plan) (trim <$> texts) d = (Ok ps, d1) ->
  d_index d1 = d_index d -> d_author d1 = d_author d ->
  let r := add_update (d_index d) l plan ps in
  add_items_at_impl l texts target state d =
    (Ok (pending_id <$> ps),
     with_events (fun q => q ++ ((fun '(text, p) => added_event l state (d_author d) r.2 text p)
                                   <$> zip (trim <$> texts) ps))
       (with_index (fun _ => r.1) (with_commits (fun c => c ++ [None]) d1))).
Proof.
  intros Hlist Hne Ht plan E Hix Hau r. unfold add_items_at_impl.
  rewrite existsb_blank by done. unfold mbind, M_bind. rewrite Hlist. cbn -[plan_target].
  rewrite decide_False by (by destruct texts). unfold mbind, M_bind. cbn -[plan_target].
  fold plan. clearbody plan. rewrite E. unfold on_index. cbn -[add_update].
  rewrite Hix. fold r. destruct r as [idx open]. cbn. rewrite Hau.
  pose proof (mfor_push_events (fun '(text, p) => added_event l state (d_author d) open text p)
    (zip (trim <$> texts) ps) (with_index (fun _ => idx) (with_commits (fun c => c ++ [None]) d1))) as Hm.
  erewrite (mfor_ext _ (fun a => push_event _)); [rewrite Hm; done|].
  by intros [].
Qed.

(** C22: Adding a batch of items to an existing list never fails once the
    texts are non-blank. The new items land together at the target index
    (clamped to the entry-backed open items), in order, with their trimmed
    texts and the state asked for; every other open projection is
    unchanged; and a consumer that applies the emitted events to its copy of
    the list's open items ends with the new projection. *)
Theorem add_items_at_lands l texts target state d :
  doc_ok d -> assert_list_exists d l = Ok tt -> is_open state = true ->
  texts <> [] -> Forall (fun t => trim t <> "") texts ->
  (N.of_nat (length (doc_open d l) + length texts) < usize_max)%N ->
  exists ids d' evs, add_items_at_impl l texts target state d = (Ok ids, d')
    /\ doc_ok d'
    /\ doc_open d' l = insert_run
         (Nat.min (N.to_nat target)
            (length (open_visible (doc_metas (d_items d)) l (raw_order d l)))) ids (doc_open d l)
    /\ (forall j, j <> l -> doc_open d' j = doc_open d j)
    /\ Forall2 (fun text id => exists v, get_item d' id = Some v /\ iv_text v = trim text
         /\ iv_list_id v = l /\ iv_state v = state) texts ids
    /\ d_events d' = d_events d ++ evs
    /\ foldl consume (doc_open d l) evs = doc_open d' l.
Proof.
  intros Hok Hlist Hs Hne Htexts Hroom.
  assert (Hl : plain l) by (eapply assert_list_plain; [apply Hok|done]).
  set (trimmed := trim <$> texts).
  assert (Hlen : length trimmed = length texts) by apply length_fmap.
  set (plan := plan_target (d_index d) l target true None).
  assert (Hat : raw_pos plan <= length (order_list l d)).
  { destruct (ok_raw _ (ok_index _ Hok) l) as (rest & E & _).
    rewrite <- (length_fmap scalar_entry). change (scalar_entry <$> order_list l d) with (raw_order d l).
    rewrite E, length_app. pose proof (plan_raw_le (d_index d) l target true None). fold plan in H3. lia. }
  destruct (runs_inv _ _ _ (add_loop_runs l state trimmed (raw_pos plan) d Hat Hl Hs))
    as (ps & d1 & E1 & -> & Ha).
  pose proof (added_frame _ _ _ _ _ _ _ Ha) as (_ & Hix & Hev & Hau & _).
  set (ps := mint_run _ _ _) in *.
  assert (Hpl : length ps = length trimmed) by apply mint_run_length.
  destruct (added_ok l state target trimmed d d1 Hok Ha) as (Hok2 & Hr2 & Hl2 & Hj2).
  { unfold trimmed. by destruct texts. }
  { by rewrite Hlen. }
  fold plan in Hok2, Hr2, Hl2, Hj2. fold ps in Hok2, Hr2, Hl2, Hj2.
  set (r := add_update (d_index d) l plan ps) in *.
  set (d2 := with_index (fun _ => r.1) d1) in *.
  set (d3 := with_events (fun q => q ++ ((fun '(text, p) =>
                added_event l state (d_author d) r.2 text p) <$> zip trimmed ps))
              (with_index (fun _ => r.1) (with_commits (fun c => c ++ [None]) d1))).
  assert (Hsame : same_core d2 d3) by done.
  assert (Ho3 : forall j, doc_open d3 j = doc_open d2 j) by done.
  eexists _, d3, _. split; [by apply add_items_at_impl_eq|].
  rewrite !Ho3. split; [by eapply same_core_ok|]. split; [exact Hl2|].
  split; [intros j Hj; rewrite Ho3; by apply Hj2|].
  assert (Hrun : NoDup (doc_open d2 l)) by apply NoDup_open_projection.
  split; [|split].
  - apply Forall2_same_length_lookup_2; [by rewrite length_fmap, Hpl|].
    intros i text id Ht Hid.
    rewrite list_lookup_fmap in Hid. destruct (ps !! i) as [[[id' pl] now]|] eqn:Hps; [|done].
    cbn in Hid. apply (inj Some) in Hid as <-.
    assert (Hm := added_maps _ _ _ _ _ _ _ Ha i (trim text) id' pl now).
    destruct (new_item_view id' (trim text) now (d_author d) l pl state Hl)
      as (v & Hv & _ & H4 & H5 & H6 & _).
    exists v. split; [|done]. unfold get_item. rewrite find_item_ok by (by eapply same_core_ok).
    change (d_items d3) with (d_items d1). rewrite Hm; [done| |done].
    unfold trimmed. by rewrite list_lookup_fmap, Ht.
  - change (d_events d3) with (d_events d1 ++ ((fun '(text, p) =>
                added_event l state (d_author d) r.2 text p) <$> zip trimmed ps)).
    by rewrite Hev.
  - rewrite Hr2, Hl2. apply add_events_consume.
    + done.
    + apply mint_run_NoDup.
    + by rewrite <- Hl2.
    + unfold doc_open, open_projection. rewrite length_app. lia.
Qed.
End adding.

(** ** Witnesses *)

#[local] Existing Instances value_loro value_loro_ok unary_host unary_host_ok.

Lemma add_items_at_lands_witness :
  exists ids d', add_items_at_impl LIST_INBOX [" tea "; "rice"] 1 InProgress sample_doc = (Ok ids, d')
    /\ doc_open d' LIST_INBOX = insert_run 1 ids ["x1"; "x2"].
Proof.
  destruct (add_items_at_lands LIST_INBOX [" tea "; "rice"] 1%N InProgress sample_doc)
    as (ids & d' & evs & E & _ & Ho & _).
  - exact sample_doc_ok.
  - reflexivity.
  - reflexivity.
  - discriminate.
  - repeat constructor; vm_compute; discriminate.
  - vm_compute. reflexivity.
  - exists ids, d'. split; [exact E|]. exact Ho.
Defined.
