(* ===== verification/MoveFacts.v ===== *)
(** Moving items (core/src/doc.rs, [move_item] and its three
    implementations): every move keeps the document invariant and lands the
    item at the index asked for. *)
From S2P Require Import Prelude.
From S2P Require Import Loro.
From S2P Require Import Lifecycle.
From S2P Require Import Registers.
From S2P Require Import Projection.
From S2P Require Import ProjectionFacts.
From S2P Require Import ProjectionOps.
From S2P Require Import Notes.
From S2P Require Import Events.
From S2P Require Import DocCore.
From S2P Require Import DocFocus.
From S2P Require Import DocItems.
From S2P Require Import DocIndex.
From S2P Require Import IndexBuild.
From S2P Require Import ItemFacts.

(** ** Landing *)

(** A fresh placement written at the planned position of the item's own list. *)
Lemma replace_lands idx l id m placement target :
  index_wf idx -> fits idx l -> ix_meta idx !! id = Some m -> m_list_id m = l ->
  Some (mkEntry id placement) ∉ raw_at idx l ->
  let rp := raw_pos (plan_target idx l target (m_open m) (Some id)) in
  open_projection (<[id := mkMeta l placement (m_open m) (m_created_at m)]> (ix_meta idx)) l
    (insert_at rp (Some (mkEntry id placement)) (raw_at idx l))
  = if m_open m
    then insert_at (Nat.min (N.to_nat target)
                      (length (without id (open_visible (ix_meta idx) l (raw_at idx l)))))
           id (without id (open_at idx l))
    else open_at idx l.
Proof.
  intros Hwf Hfit Em Hl Hfresh rp.
  assert (Hrp : rp <= length (raw_at idx l)) by apply plan_raw_le.
  set (m' := mkMeta l placement (m_open m) (m_created_at m)).
  rewrite (wf_open _ Hwf). destruct (m_open m) eqn:Eo.
  - rewrite <- (plan_target_lands idx l target id (Some id)) by (by auto || by left).
    refine (proj1 (item_lands (ix_meta idx) _ l (raw_at idx l) _ id m' rp
              (take rp (raw_at idx l)) _ _ _ _ _ _ _ _)).
    + apply same_but_insert.
    + symmetry. by apply others_insert_at.
    + by rewrite lookup_insert_eq.
    + done.
    + done.
    + by apply lookup_insert_at.
    + unfold insert_at. rewrite take_app_le, take_take by (rewrite length_take; lia).
      rewrite Nat.min_id. intros (i & Hi & _)%elem_of_take. apply Hfresh.
      by eapply list_elem_of_lookup_2.
    + unfold insert_at. rewrite take_app_le, take_take by (rewrite length_take; lia).
      by rewrite Nat.min_id.
  - assert (Hn : forall raw, id ∉ open_projection (ix_meta idx) l raw).
    { intros raw. rewrite elem_of_open_projection, (located_open_at _ _ _ _ Em), Eo. by intros []. }
    rewrite <- (without_id id (open_projection (ix_meta idx) l (raw_at idx l))) by done.
    rewrite <- (without_id id (open_projection (<[id:=m']> _) _ _)).
    + symmetry. apply projection_others; [apply same_but_insert|].
      symmetry. by apply others_insert_at.
    + rewrite elem_of_open_projection, located_open_insert. unfold m'. intros [[? _]|(_ & _ & ?)]; done.
Qed.

Section steps.
Context `{HostOk}.

Lemma unseen_step d d' :
  unseen d -> d_minted d <= d_minted d' ->
  (forall id, d_items d !! id = None -> d_items d' !! id = None) ->
  (forall l e, Some e ∈ raw_order d' l -> Some e ∈ raw_order d l
     \/ is_Some (d_items d !! entry_item_id e)
        /\ exists i, i < d_minted d' /\ entry_placement_id e = nth_id i) ->
  unseen d'.
Proof.
  intros Hu Hm Hi Ho i Hle. destruct (Hu i ltac:(lia)) as [H1 H2]. split; [by apply Hi|].
  intros l e [He|[[s Hs] (k & Hk & E)]]%Ho; [by eapply H2|]. rewrite E. split.
  - intros E2. congruence.
  - intros E2%nth_id_inj. lia.
Qed.

Lemma named_step d d' :
  named d -> (forall id, d_items d !! id = None -> d_items d' !! id = None) ->
  d_lists d' = d_lists d -> named d'.
Proof.
  intros [Hi Hl] Hn El. split.
  - intros id s Hs. destruct (d_items d !! id) as [s'|] eqn:E; [by eapply Hi|].
    rewrite Hn in Hs; done.
  - by rewrite El.
Qed.
End steps.

(** ** The state a move starts from *)

(** An item of the document, with its metadata. *)
Definition doc_item (d : Doc) (id : string) (m : ItemMeta) : Prop :=
  doc_metas (d_items d) !! id = Some m.

(** At most one entry of a list carries the item's placement. *)
Definition single_entry (d : Doc) (l id : string) : Prop :=
  forall m i j, doc_item d id m ->
    raw_order d l !! i = Some (Some (mkEntry id (m_placement_id m))) ->
    raw_order d l !! j = Some (Some (mkEntry id (m_placement_id m))) -> i = j.

Definition room (d : Doc) (l : string) : Prop :=
  (N.of_nat (length (doc_open d l)) < usize_max)%N.

(** Open items of a list backed by an entry. *)
Definition backed (d : Doc) (l : string) : list string :=
  open_visible (doc_metas (d_items d)) l (raw_order d l).

Lemma backed_mirror d l :
  index_ok d -> backed d l = open_visible (ix_meta (d_index d)) l (raw_at (d_index d) l).
Proof.
  intros [_ Hm Hr]. unfold backed. rewrite <- Hm.
  destruct (Hr l) as (rest & -> & Hrest). unfold open_visible, visible.
  by rewrite omap_app, Hrest, app_nil_r.
Qed.

Lemma doc_item_map d id m :
  doc_item d id m -> exists map, item_map_of (d_items d) id = Some map /\ item_meta map = m.
Proof. unfold doc_item. rewrite doc_metas_item. intros (map & E & ->)%fmap_Some. by exists map. Qed.

Lemma item_map_slot items id map :
  item_map_of items id = Some map -> items !! id = Some (MapC map).
Proof. unfold item_map_of. by destruct (items !! id) as [[]|]; intros [= ->]. Qed.

Section move.
Context `{LoroOk} `{HostOk}.

Lemma doc_item_plain d id m : doc_ok d -> doc_item d id m -> plain id.
Proof.
  intros Hok (map & E%item_map_slot & _)%doc_item_map. by apply (named_items _ (ok_named _ Hok) id _ E).
Qed.

Lemma doc_item_index d id m : doc_ok d -> doc_item d id m -> ix_meta (d_index d) !! id = Some m.
Proof. intros Hok Hm. by rewrite (ok_meta _ (ok_index _ Hok)). Qed.

Lemma doc_room_fits d l : doc_ok d -> room d l -> fits (d_index d) l.
Proof. intros Hok. unfold room, fits. by rewrite <- (index_ok_open d l) by apply Hok. Qed.

(** A placement about to be minted is carried by no entry. *)
Lemma fresh_placement d l id :
  doc_ok d -> Some (mkEntry id (nth_id (d_minted d))) ∉ raw_order d l.
Proof.
  intros Hok Hx. destruct (ok_unseen _ Hok (d_minted d) (le_n _)) as [_ Hf].
  by destruct (Hf _ _ Hx) as [_ ?].
Qed.

Lemma mirror_sub d l x : index_ok d -> x ∈ raw_at (d_index d) l -> x ∈ raw_order d l.
Proof. intros Hok Hx. destruct (ok_raw _ Hok l) as (rest & -> & _). rewrite elem_of_app. by left. Qed.

Lemma mirror_length d l : index_ok d -> length (raw_at (d_index d) l) <= length (order_list l d).
Proof.
  intros Hok. destruct (ok_raw _ Hok l) as (rest & E & _).
  rewrite <- (length_fmap scalar_entry). change (scalar_entry <$> order_list l d) with (raw_order d l).
  rewrite E, length_app. lia.
Qed.

(** The location register of an item rewritten, its metadata follows. *)
Definition relocated (l placement : string) (map : lmap) : lmap :=
  map_insert KEY_LOCATION (Val (LString (location_encode (mkLocation l placement)))) map.

Lemma relocated_meta l placement map :
  plain l -> item_meta (relocated l placement map)
             = mkMeta l placement (m_open (item_meta map)) (m_created_at (item_meta map)).
Proof. intros Hl. unfold relocated. by rewrite item_meta_location. Qed.

Lemma write_location_ok id l placement map d :
  item_map_of (d_items d) id = Some map ->
  write_location id l placement d = (Ok tt, set_item id (relocated l placement map) d).
Proof. apply item_write_ok. Qed.

(** *** A fresh placement in the item's own list *)

(** The document an index update leaves, with its one event. *)
Definition indexed (idx : ProjectionIndex) (ev : AppEvent) (d : Doc) : Doc :=
  with_events (fun q => q ++ [ev])
    (with_index (fun _ => idx) (with_commits (fun c => c ++ [None]) d)).

(** The item relocated to [l] under a fresh placement, its entry put at [i]. *)
Definition placed (d : Doc) (id : string) (map : lmap) (i : nat) (l : string) : Doc :=
  let pl := nth_id (d_minted d) in
  root_set (ROrder l) (insert_at i (str_slot (entry_encode (mkEntry id pl))) (order_list l d))
    (set_item id (relocated l pl map) (minted 1 d)).

Lemma replace_entry_eq d id l map target b :
  item_map_of (d_items d) id = Some map ->
  let pl := nth_id (d_minted d) in
  let rp := raw_pos (plan_target (d_index d) l target b (Some id)) in
  let r := replace_update (d_index d) l id pl rp b in
  rp <= length (order_list l d) ->
  replace_entry id l target b d = (Ok tt, indexed r.1 (ItemMoved id r.2) (placed d id map rp l)).
Proof.
  intros Emap pl rp r Hrp. unfold replace_entry, mbind, M_bind. cbn [new_id].
  fold pl. rewrite (write_location_ok _ _ _ map) by done. cbn [gets].
  change (d_index (set_item _ _ _)) with (d_index d). fold rp. rewrite root_put_ok by done.
  unfold on_index. cbn -[replace_update]. fold r. by destruct r.
Qed.

Lemma indexed_ok idx ev d :
  doc_ok (with_index (fun _ => idx) d) -> doc_ok (indexed idx ev d).
Proof. by apply same_core_ok. Qed.

Lemma raw_insert_slot l i e d :
  plain (entry_item_id e) ->
  scalar_entry <$> insert_at i (str_slot (entry_encode e)) (order_list l d)
  = insert_at i (Some e) (raw_order d l).
Proof.
  destruct e as [id pl]. intros [Hc Hne]. rewrite fmap_insert_at.
  change (scalar_entry (str_slot ?s)) with (entry_parse s). by rewrite entry_roundtrip.
Qed.

Section replace.
Context (d : Doc) (id : string) (map : lmap) (i : nat) (l : string) (idx : ProjectionIndex).
Hypothesis Hok : doc_ok d.
Hypothesis Emap : item_map_of (d_items d) id = Some map.
Hypothesis Hl : plain l.
Let pl := nth_id (d_minted d).
Let m' := mkMeta l pl (m_open (item_meta map)) (m_created_at (item_meta map)).
Let d1 := placed d id map i l.

Lemma placed_metas : doc_metas (d_items d1) = <[id := m']> (doc_metas (d_items d)).
Proof.
  change (d_items d1) with (<[id := MapC (relocated l pl map)]> (d_items d)).
  by rewrite doc_metas_insert, relocated_meta.
Qed.

Lemma placed_id : plain id.
Proof. apply (named_items _ (ok_named _ Hok) id _ (item_map_slot _ _ _ Emap)). Qed.

Lemma placed_order j : raw_order d1 j =
  if decide (l = j) then insert_at i (Some (mkEntry id pl)) (raw_order d j) else raw_order d j.
Proof.
  unfold d1, placed. rewrite raw_order_set. case_decide as E; [|done]. subst j.
  by rewrite (raw_insert_slot l i (mkEntry id pl)) by apply placed_id.
Qed.

Lemma placed_unseen : unseen (with_index (fun _ => idx) d1).
Proof.
  apply (unseen_step d); [apply Hok|cbn; lia|..].
  - intros id' Hn. cbn. rewrite lookup_insert_ne; [done|]. intros <-.
    by rewrite (item_map_slot _ _ _ Emap) in Hn.
  - intros j e. change (raw_order (with_index _ d1) j) with (raw_order d1 j). rewrite placed_order.
    case_decide as E; [|by left]. rewrite elem_of_insert_at. intros [[= ->]|He]; [|by left].
    right. cbn. split; [by rewrite (item_map_slot _ _ _ Emap)|]. exists (d_minted d). split; [lia|done].
Qed.

Lemma placed_named : named (with_index (fun _ => idx) d1).
Proof.
  apply (named_step d); [apply Hok| |done].
  intros id' Hn. cbn. rewrite lookup_insert_ne; [done|]. intros <-.
  by rewrite (item_map_slot _ _ _ Emap) in Hn.
Qed.

(** Mirrors that followed the insertion are still mirrors. *)
Lemma placed_mirror j raw :
  mirror_of (doc_metas (d_items d)) j (raw_order d j) raw -> (l = j -> i <= length raw) ->
  mirror_of (<[id := m']> (doc_metas (d_items d))) j (raw_order d1 j)
    (if decide (l = j) then insert_at i (Some (mkEntry id pl)) raw else raw).
Proof.
  intros Hmir Hi. rewrite placed_order.
  assert (Hmir' : mirror_of (<[id := m']> (doc_metas (d_items d))) j (raw_order d j) raw).
  { eapply mirror_mono; [|exact Hmir]. intros x Hx. apply canon_insert_fresh. intros ->.
    by eapply fresh_placement. }
  case_decide; [|done]. apply mirror_insert; auto.
Qed.
End replace.

Lemma replace_entry_lands d id l m target :
  doc_ok d -> doc_item d id m -> m_list_id m = l -> room d l ->
  exists d', replace_entry id l target (m_open m) d = (Ok tt, d')
    /\ doc_ok d'
    /\ doc_open d' l = (if m_open m
         then insert_at (Nat.min (N.to_nat target) (length (without id (backed d l)))) id
                (without id (doc_open d l))
         else doc_open d l)
    /\ (forall j, j <> l -> doc_open d' j = doc_open d j)
    /\ d_events d' = d_events d
         ++ [ItemMoved id (if m_open m then position_of id (doc_open d' l) else None)].
Proof.
  intros Hok Hm Hl Hroom. destruct (doc_item_map _ _ _ Hm) as (map & Emap & Hmm).
  assert (Hplain : plain l) by (subst l m; apply map_location_plain).
  pose proof (doc_item_index _ _ _ Hok Hm) as Em.
  pose proof (ok_index _ Hok) as Hix. pose proof Hix as [Hwf Hmeta Hraw].
  set (pl := nth_id (d_minted d)).
  set (rp := raw_pos (plan_target (d_index d) l target (m_open m) (Some id))).
  assert (Hrp : rp <= length (raw_at (d_index d) l)) by apply plan_raw_le.
  pose proof (mirror_length d l Hix) as Hlen.
  destruct (replace_update_wf (d_index d) l id m pl rp Hwf Em Hl Hrp) as (Rwf & Rm & Rr & Rj & R2).
  pose proof (replace_lands (d_index d) l id m pl target Hwf (doc_room_fits _ _ Hok Hroom) Em Hl) as Rl.
  fold rp in Rl.
  set (r := replace_update (d_index d) l id pl rp (m_open m)) in *.
  eexists. split; [by apply replace_entry_eq, Nat.le_trans with (2 := Hlen)|].
  fold pl rp r. set (d1 := placed d id map rp l).
  assert (Hix2 : index_ok (with_index (fun _ => r.1) d1)).
  { split; [done|..].
    - change (ix_meta r.1 = doc_metas (d_items d1)). unfold d1.
      rewrite Rm, Hmeta, placed_metas by done. by rewrite Hmm.
    - intros j. change (mirror_of (ix_meta r.1) j (raw_order d1 j) (raw_at r.1 j)).
      rewrite Rm, Rr, Hmeta, <- Hmm. unfold d1.
      assert (Hj := placed_mirror d id map rp l Hok Emap j (raw_at (d_index d) j)).
      rewrite <- Hmeta in Hj. specialize (Hj (Hraw j)). rewrite Hmeta in Hj.
      destruct (decide (l = j)) as [<-|]; by apply Hj. }
  assert (Hok2 : doc_ok (with_index (fun _ => r.1) d1)).
  { split; [done|by apply placed_unseen|by apply placed_named]. }
  assert (Ho : forall j, doc_open (indexed r.1 (ItemMoved id r.2) d1) j = open_at r.1 j)
    by (intros j; symmetry; apply (index_ok_open _ j Hix2)).
  assert (Hd : forall j, doc_open d j = open_at (d_index d) j)
    by (intros j; symmetry; apply (index_ok_open _ j Hix)).
  rewrite !Ho, !Hd, backed_mirror by done. split_and!.
  - by apply indexed_ok.
  - rewrite (wf_open _ Rwf), Rm, Rr, decide_True by done. apply Rl.
    intros Hx. eapply fresh_placement; [exact Hok|]. by eapply mirror_sub.
  - intros j Hj. rewrite Ho, Hd. by apply Rj.
  - by rewrite <- R2.
Qed.

(** *** To another list *)

Lemma move_across_lists_eq d id cur target map ti b :
  item_map_of (d_items d) id = Some map -> cur <> target ->
  let pl := nth_id (d_minted d) in
  let idx := d_index d in
  let plan := plan_target idx target ti b None in
  let src := entry_positions idx cur id in
  let r := move_update idx cur target id pl (default 0%Z (read_i64 map KEY_CREATED_AT)) plan src
             (bool_decide (is_Some (canonical_raw_pos idx cur id))) b in
  raw_pos plan <= length (order_list target d) ->
  ascending (length (order_list cur d)) src ->
  move_across_lists id cur target ti b d =
    (Ok tt, indexed r.1 (ItemListChanged id target r.2)
              (cleared cur src (placed d id map (raw_pos plan) target))).
Proof.
  intros Emap Hne pl idx plan src r Hrp Hsrc. unfold move_across_lists, mbind, M_bind. cbn [new_id].
  fold pl. rewrite (item_get_ok id map) by done. rewrite (write_location_ok _ _ _ map) by done.
  cbn [gets]. change (d_index (set_item _ _ _)) with idx. fold plan src. rewrite root_put_ok by done.
  rewrite cleared_ok.
  2: { rewrite order_list_set, decide_False by congruence. exact Hsrc. }
  change (root_set _ _ _) with (placed d id map (raw_pos plan) target).
  set (d1 := cleared _ _ _).
  assert (Hi : d_index d1 = idx) by apply cleared_frame.
  unfold on_index. cbn -[move_update]. rewrite Hi. fold r. by destruct r.
Qed.

Lemma entry_positions_ascending idx l id :
  ascending (length (raw_at idx l)) (entry_positions idx l id).
Proof. apply positions_of_ascending. Qed.

Lemma cleared_unseen l ps idx d :
  unseen (with_index (fun _ => idx) d) -> unseen (with_index (fun _ => idx) (cleared l ps d)).
Proof.
  intros Hu. destruct (cleared_frame l ps d) as (C1 & _ & _ & C4 & _).
  apply (unseen_step _ _ Hu); cbn; [lia|by rewrite C1|].
  intros j e He. left. change (Some e ∈ raw_order (cleared l ps d) j) in He.
  rewrite raw_order_cleared in He. case_decide; [by eapply elem_of_remove_all|done].
Qed.

Lemma cleared_named l ps idx d :
  named (with_index (fun _ => idx) d) -> named (with_index (fun _ => idx) (cleared l ps d)).
Proof.
  intros Hn. destruct (cleared_frame l ps d) as (C1 & C2 & _).
  apply (named_step _ _ Hn); cbn; [by rewrite C1|done].
Qed.

Lemma move_across_lands d id m target ti :
  doc_ok d -> doc_item d id m -> m_list_id m <> target -> plain target -> room d target ->
  exists d', move_across_lists id (m_list_id m) target ti (m_open m) d = (Ok tt, d')
    /\ doc_ok d'
    /\ doc_open d' target = (if m_open m
         then insert_at (Nat.min (N.to_nat ti) (length (backed d target))) id (doc_open d target)
         else doc_open d target)
    /\ doc_open d' (m_list_id m) = without id (doc_open d (m_list_id m))
    /\ (forall j, j <> target -> j <> m_list_id m -> doc_open d' j = doc_open d j)
    /\ d_events d' = d_events d ++ [ItemListChanged id target
         (if m_open m then position_of id (doc_open d' target) else None)].
Proof.
  intros Hok Hm Hne Hplain Hroom. destruct (doc_item_map _ _ _ Hm) as (map & Emap & Hmm).
  pose proof (doc_item_index _ _ _ Hok Hm) as Em. set (cur := m_list_id m) in *.
  pose proof (ok_index _ Hok) as Hix. pose proof Hix as [Hwf Hmeta Hraw].
  set (pl := nth_id (d_minted d)).
  set (plan := plan_target (d_index d) target ti (m_open m) None).
  set (rp := raw_pos plan). set (src := entry_positions (d_index d) cur id).
  assert (Hrp : rp <= length (raw_at (d_index d) target)) by apply plan_raw_le.
  assert (Hsrc : ascending (length (raw_at (d_index d) cur)) src) by apply positions_of_ascending.
  assert (Hct : default 0%Z (read_i64 map KEY_CREATED_AT) = m_created_at m) by (by rewrite <- Hmm).
  assert (Hfresh : Some (mkEntry id pl) ∉ raw_at (d_index d) target).
  { intros Hx. eapply fresh_placement; [exact Hok|]. by eapply mirror_sub. }
  destruct (move_update_wf (d_index d) cur target id pl m (m_created_at m) ti Hwf Em eq_refl Hne
              Hfresh (doc_room_fits _ _ Hok Hroom)) as (Rwf & Rm & Rr & Rt & Rc & Rj & R2).
  eexists. split.
  { apply move_across_lists_eq; [done|done|..].
    - pose proof (mirror_length d target Hix). fold plan rp. lia.
    - eapply ascending_mono; [exact Hsrc|by apply mirror_length]. }
  fold pl plan rp src. rewrite Hct. fold plan src in Rwf, Rm, Rr, Rt, Rc, Rj, R2.
  set (r := move_update _ _ _ _ _ _ _ _ _ _) in *.
  set (d1 := placed d id map rp target). set (d2 := cleared cur src d1).
  destruct (cleared_frame cur src d1) as (C1 & C2 & C3 & C4 & C5 & _). fold d2 in C1, C2, C3, C4, C5.
  assert (Hix2 : index_ok (with_index (fun _ => r.1) d2)).
  { split; [done|..].
    - change (ix_meta r.1 = doc_metas (d_items d2)). rewrite C1. unfold d1.
      rewrite Rm, Hmeta, placed_metas by done. by rewrite Hmm.
    - intros j. change (mirror_of (ix_meta r.1) j (raw_order d2 j) (raw_at r.1 j)).
      unfold d2. rewrite Rm, Rr, Hmeta, raw_order_cleared, <- Hmm. unfold d1.
      assert (Hj := placed_mirror d id map rp target Hok Emap j (raw_at (d_index d) j)).
      rewrite <- Hmeta in Hj. specialize (Hj (Hraw j)). rewrite Hmeta in Hj.
      destruct (decide (cur = j)) as [<-|Hcj].
      + rewrite decide_False in Hj |- * by congruence. rewrite <- remove_entries.
        apply mirror_cleared; [done|]. apply Hj. by intros ->.
      + destruct (decide (target = j)) as [<-|]; by apply Hj. }
  assert (Hok2 : doc_ok (with_index (fun _ => r.1) d2)).
  { split; [done|apply cleared_unseen; by apply placed_unseen|].
    apply cleared_named. by apply placed_named. }
  set (ev := ItemListChanged id target r.2).
  assert (Ho : forall j, doc_open (indexed r.1 ev d2) j = open_at r.1 j)
    by (intros j; symmetry; apply (index_ok_open _ j Hix2)).
  assert (Hd : forall j, doc_open d j = open_at (d_index d) j)
    by (intros j; symmetry; apply (index_ok_open _ j Hix)).
  rewrite !Ho, !Hd, backed_mirror by done. split_and!; [by apply indexed_ok|done|done|..].
  - intros j H3 H4. rewrite Ho, Hd. by apply Rj.
  - change (d_events (indexed r.1 ev d2)) with (d_events d2 ++ [ev]). unfold ev. by rewrite C5, R2.
Qed.

(** *** Within the list, entry in hand *)

Definition moved (l : string) (from to : nat) (x : slot) (d : Doc) : Doc :=
  root_set (ROrder l) (insert_at to x (remove_at from (order_list l d))) d.

Lemma reorder_in_list_eq d id l target b from x :
  canonical_raw_pos (d_index d) l id = Some from ->
  order_list l d !! from = Some x ->
  let plan := plan_target (d_index d) l target b (Some id) in
  let to := if decide (from < raw_pos plan) then raw_pos plan - 1 else raw_pos plan in
  let r := reorder_update (d_index d) l id from to b (open_pos plan) in
  to < length (order_list l d) ->
  reorder_in_list id l target b d =
    (Ok tt, if decide (from = to) then d
            else indexed r.1 (ItemMoved id r.2) (moved l from to x d)).
Proof.
  intros Hc Hx plan to r Hto. unfold reorder_in_list, mbind, M_bind. cbn [gets]. rewrite Hc.
  fold plan to. case_decide; [done|]. rewrite (root_mov_ok _ _ _ x) by done.
  unfold on_index. cbn -[reorder_update]. fold r. by destruct r.
Qed.

Lemma moved_order l from to x e d j :
  order_list l d !! from = Some x -> scalar_entry x = e ->
  raw_order (moved l from to x d) j
  = if decide (l = j) then insert_at to e (remove_at from (raw_order d j)) else raw_order d j.
Proof.
  intros Hx <-. unfold moved. rewrite raw_order_set. case_decide as E; [subst j|done].
  by rewrite fmap_insert_at, fmap_remove_at.
Qed.

(** The slot behind a mirrored entry. *)
Lemma mirrored_slot d l i e :
  index_ok d -> raw_at (d_index d) l !! i = Some e ->
  exists x, order_list l d !! i = Some x /\ scalar_entry x = e.
Proof.
  intros Hix Hi. destruct (ok_raw _ Hix l) as (rest & E & _).
  assert (Hr : raw_order d l !! i = Some e).
  { rewrite E. apply lookup_app_l_Some. done. }
  unfold raw_order in Hr. rewrite list_lookup_fmap in Hr.
  destruct (order_list l d !! i) as [x|]; [|done]. exists x. by simplify_eq/=.
Qed.

Lemma single_entry_mirror d l id m from :
  index_ok d -> doc_item d id m -> single_entry d l id ->
  raw_at (d_index d) l !! from = Some (Some (mkEntry id (m_placement_id m))) ->
  Some (mkEntry id (m_placement_id m)) ∉ remove_at from (raw_at (d_index d) l).
Proof.
  intros Hix Hm Hs Hf (k & Hk & Hkx)%elem_of_remove_at_ne.
  destruct (ok_raw _ Hix l) as (rest & E & _). apply Hk, (Hs m); [done|..];
    rewrite E; by apply lookup_app_l_Some.
Qed.

Lemma reorder_in_list_lands d id l m target from :
  doc_ok d -> doc_item d id m -> m_list_id m = l -> room d l -> single_entry d l id ->
  canonical_raw_pos (d_index d) l id = Some from ->
  exists d' evs, reorder_in_list id l target (m_open m) d = (Ok tt, d')
    /\ doc_ok d'
    /\ doc_open d' l = (if m_open m
         then insert_at (Nat.min (N.to_nat target) (length (without id (backed d l)))) id
                (without id (doc_open d l))
         else doc_open d l)
    /\ (forall j, j <> l -> doc_open d' j = doc_open d j)
    /\ d_events d' = d_events d ++ evs
    /\ (evs = [] \/ evs = [ItemMoved id (if m_open m then position_of id (doc_open d' l) else None)]).
Proof.
  intros Hok Hm Hl Hroom Hs Hc.
  pose proof (doc_item_index _ _ _ Hok Hm) as Em.
  pose proof (ok_index _ Hok) as Hix. pose proof Hix as [Hwf Hmeta Hraw].
  destruct (proj1 (canonical_raw_pos_Some _ _ _ _) Hc) as (m0 & Em0 & _ & Hf & _).
  rewrite Em in Em0. apply (inj Some) in Em0 as <-.
  assert (Hnot := single_entry_mirror _ _ _ _ _ Hix Hm Hs Hf).
  destruct (mirrored_slot _ _ _ _ Hix Hf) as (x & Hx & Hxe).
  destruct (reorder_update_wf (d_index d) l id m from target Hwf (doc_room_fits _ _ Hok Hroom) Em Hl
              Hc Hnot) as (Hto & Rwf & Rm & Rr & Ro & Rj & R2).
  set (plan := plan_target _ _ _ _ _) in *.
  set (to := if decide _ then _ else _) in *.
  set (r := reorder_update _ _ _ _ _ _ _) in *.
  pose proof (mirror_length d l Hix) as Hlen.
  assert (Hd : forall j, doc_open d j = open_at (d_index d) j)
    by (intros j; symmetry; apply (index_ok_open _ j Hix)).
  rewrite (backed_mirror d l), Hd by done.
  exists (if decide (from = to) then d
          else indexed r.1 (ItemMoved id r.2) (moved l from to x d)).
  exists (if decide (from = to) then [] else [ItemMoved id r.2]).
  split; [by apply (reorder_in_list_eq d id l target (m_open m) from x Hc Hx), Nat.lt_le_trans with (2 := Hlen)|].
  case_decide as Eft.
  { split_and!; [done| |done|by rewrite app_nil_r|by left].
    rewrite Hd, <- Ro. rewrite (wf_open _ Rwf), (wf_open _ Hwf), Rm, Rr, decide_True, <- Eft by done.
    by rewrite insert_remove_at. }
  set (d1 := moved l from to x d).
  assert (Hix2 : index_ok (with_index (fun _ => r.1) d1)).
  { split; [done| |].
    - change (ix_meta r.1 = doc_metas (d_items d)). by rewrite Rm.
    - intros j. change (mirror_of (ix_meta r.1) j (raw_order d1 j) (raw_at r.1 j)).
      unfold d1. rewrite Rm, Rr, (moved_order _ _ _ _ _ _ _ Hx Hxe).
      pose proof (Hraw j) as Hj. case_decide as E; [subst j|done].
      apply mirror_insert; [rewrite length_remove_at by (by eapply lookup_lt_Some); lia|].
      destruct Hj as (rest & -> & Hr). exists rest.
      split; [apply remove_at_app; by eapply lookup_lt_Some|done]. }
  assert (Hok2 : doc_ok (with_index (fun _ => r.1) d1)).
  { split; [done| |apply (named_step d); [apply Hok|done|done]].
    apply (unseen_step d); [apply Hok|done|done|].
    intros j e He. change (Some e ∈ raw_order d1 j) in He. left. revert He. unfold d1.
    rewrite (moved_order _ _ _ _ _ _ _ Hx Hxe). case_decide as E; [subst j|done].
    rewrite elem_of_insert_at. intros [-> |He]; [|by eapply elem_of_remove_at].
    apply (mirror_sub _ _ _ Hix). by eapply list_elem_of_lookup_2. }
  assert (Ho : forall j, doc_open (indexed r.1 (ItemMoved id r.2) d1) j = open_at r.1 j)
    by (intros j; symmetry; apply (index_ok_open _ j Hix2)).
  rewrite !Ho. split_and!; [by apply indexed_ok|done| |done|right; by rewrite <- R2].
  intros j Hj. rewrite Ho, Hd. by apply Rj.
Qed.

(** ** The whole operation *)


(** C23: Moving an item to another list never fails, keeps the index exact,
    takes the item out of its list's open items and puts it, if open, at the
    target index among the entry-backed open items of the other list; no
    third list changes; the one event carries the item's new position. *)
Theorem move_item_to_other_list d id m target ti :
  doc_ok d -> doc_item d id m -> assert_list_exists d target = Ok tt ->
  m_list_id m <> target -> room d target ->
  exists d', move_item id target ti d = (Ok tt, d')
    /\ doc_ok d'
    /\ doc_open d' target = (if m_open m
         then insert_at (Nat.min (N.to_nat ti) (length (backed d target))) id (doc_open d target)
         else doc_open d target)
    /\ doc_open d' (m_list_id m) = without id (doc_open d (m_list_id m))
    /\ (forall j, j <> target -> j <> m_list_id m -> doc_open d' j = doc_open d j)
    /\ d_events d' = d_events d ++ [ItemListChanged id target
         (if m_open m then position_of id (doc_open d' target) else None)].
Proof.
  intros Hok Hm Hlist Hne Hroom.
  assert (Hmove : move_item id target ti d
                  = move_across_lists id (m_list_id m) target ti (m_open m) d).
  { unfold move_item, mbind, M_bind, find. rewrite Hlist.
    rewrite find_item_ok by apply Hok. destruct (doc_item_map _ _ _ Hm) as (map & -> & _). cbn.
    rewrite (doc_item_index _ _ _ Hok Hm). cbn. by rewrite decide_False. }
  rewrite Hmove. apply move_across_lands; try done. eapply assert_list_plain; [apply Hok|done].
Qed.
End move.

(** ** Witnesses *)

#[local] Existing Instances value_loro value_loro_ok unary_host unary_host_ok.

Lemma sample_meta : doc_item sample_doc "x1" (mkMeta LIST_INBOX "p1" true 1).
Proof. reflexivity. Qed.

Lemma sample_single : single_entry sample_doc LIST_INBOX "x1".
Proof.
  intros m i j Hm. unfold doc_item in Hm. rewrite sample_meta in Hm. injection Hm as <-.
  rewrite sample_raw_order, decide_True by done.
  destruct i as [|[|[|i]]], j as [|[|[|j]]]; cbn; intros; by simplify_eq.
Qed.


Lemma move_item_to_other_list_witness :
  exists d', move_item "x1" LIST_EVENTS 0 sample_doc = (Ok tt, d')
    /\ doc_open d' LIST_EVENTS = ["x1"] /\ doc_open d' LIST_INBOX = ["x2"].
Proof.
  destruct (move_item_to_other_list sample_doc "x1" (mkMeta LIST_INBOX "p1" true 1) LIST_EVENTS 0%N)
    as (d' & E & _ & Ho & Hc & _).
  - exact sample_doc_ok.
  - exact sample_meta.
  - reflexivity.
  - discriminate.
  - vm_compute. reflexivity.
  - exists d'. split; [exact E|]. split; [exact Ho|exact Hc].
Defined.
