(* ===== verification/LifeFacts.v ===== *)
(** Lifecycle changes and hard deletes (core/src/doc.rs,
    [set_items_lifecycle_impl], [hard_delete_items]): the document invariant
    is kept, and the events carry a consumer's open items to the new
    projection. *)
From S2P Require Import Prelude.
From S2P Require Import Loro.
From S2P Require Import Lifecycle.
From S2P Require Import Registers.
From S2P Require Import Projection.
From S2P Require Import ProjectionFacts.
From S2P Require Import ProjectionOps.
From S2P Require Import Notes.
From S2P Require Import Events.
From S2P Require Import DocCore.
From S2P Require Import DocFocus.
From S2P Require Import DocItems.
From S2P Require Import DocIndex.
From S2P Require Import ItemFacts.
From S2P Require Import MoveFacts.
From S2P Require Import IndexBuild.

(** ** One event, one list *)

(** An event that names where an item now stands brings a copy of the old open
    items up to date, if the other items kept their order. *)
Lemma place_item_sync id arr arr' :
  NoDup arr' -> without id arr' = without id arr ->
  place_item id (position_of id arr') arr = arr'.
Proof.
  intros Hnd Hw. unfold place_item. change (base.filter (fun x => x <> id) arr) with (without id arr).
  rewrite <- Hw. destruct (position_of id arr') as [p|] eqn:E.
  - apply position_of_Some in E; [|done].
    pose proof (take_drop_middle _ _ _ E) as Hsplit.
    assert (Hp : length (take p arr') = p)
      by (rewrite length_take; apply lookup_lt_Some in E; lia).
    rewrite <- Hsplit in Hnd. apply NoDup_app in Hnd as (H1 & H2 & H3).
    apply NoDup_cons in H3 as [H3 H4].
    assert (Hwo : without id arr' = take p arr' ++ drop (S p) arr').
    { rewrite <- Hsplit at 1. rewrite without_app. unfold without at 2. rewrite filter_cons_False by tauto.
      fold (without id (drop (S p) arr')). rewrite !without_id; [done|done|].
      intros Hx. apply (H2 id Hx). by left. }
    rewrite Hwo, Nat.min_l by (rewrite length_app; lia).
    unfold insert_at. rewrite take_app_length', drop_app_length' by done. exact Hsplit.
  - apply without_id. intros Hx. unfold position_of in E.
    apply (proj1 (position_None _ _) E) in Hx. by apply bool_decide_eq_false in Hx.
Qed.

Section life.
Context `{LoroOk}.

Lemma apply_lifecycle_frame m l now :
  read_string (apply_lifecycle m l now).1 KEY_LOCATION = read_string m KEY_LOCATION
  /\ read_i64 (apply_lifecycle m l now).1 KEY_CREATED_AT = read_i64 m KEY_CREATED_AT.
Proof.
  unfold apply_lifecycle, write_workflow. destruct (workflow_state l) as [s|].
  - destruct (_ && bool_decide ((workflow_of m).1 = s)); [done|].
    set (m1 := if bool_decide _ then map_delete _ _ else m).
    assert (Hm1 : read_string m1 KEY_LOCATION = read_string m KEY_LOCATION
                  /\ read_i64 m1 KEY_CREATED_AT = read_i64 m KEY_CREATED_AT).
    { unfold m1. destruct (bool_decide _); [|done]. by rewrite read_string_delete, read_i64_delete. }
    destruct Hm1 as [<- <-]. clearbody m1. cbn [fst].
    destruct (bool_decide (s = InProgress)), (bool_decide (s = Done)); cbn [andb];
      repeat destruct (bool_decide _); by rewrite ?read_string_insert, ?read_i64_insert.
  - destruct (bool_decide _); [done|]. cbn [fst]. by rewrite read_string_insert, read_i64_insert.
Qed.

(** A lifecycle write changes no more of the mirrored metadata than the
    openness. *)
Lemma lifecycle_meta m w now :
  item_meta (apply_lifecycle_write m w now).1
  = mkMeta (m_list_id (item_meta m)) (m_placement_id (item_meta m))
      (map_is_open (apply_lifecycle_write m w now).1) (m_created_at (item_meta m)).
Proof.
  assert (Hf : read_string (apply_lifecycle_write m w now).1 KEY_LOCATION = read_string m KEY_LOCATION
    /\ read_i64 (apply_lifecycle_write m w now).1 KEY_CREATED_AT = read_i64 m KEY_CREATED_AT).
  { destruct w as [l| |]; cbn; [apply apply_lifecycle_frame| |].
    - destruct (read_i64 m KEY_BINNED_AT); [|done]. cbn.
      by rewrite read_string_delete, read_i64_delete.
    - destruct (_ || _); [done|apply apply_lifecycle_frame]. }
  destruct Hf as [Hl Hc]. unfold item_meta, map_location. by rewrite Hl, Hc.
Qed.

(** ** The write loop *)

(** What the batch makes of the item maps. *)
Record written (ids : list string) (w : LifecycleWrite) (now : Z) (d d' : Doc) : Prop := {
  written_in : forall id map, id ∈ ids -> item_map_of (d_items d) id = Some map ->
    item_map_of (d_items d') id = Some (apply_lifecycle_write map w now).1;
  written_out : forall id, id ∉ ids -> d_items d' !! id = d_items d !! id;
  written_frame : d' = with_items (fun _ => d_items d') d;
}.

Definition writes (w : LifecycleWrite) (now : Z) (d : Doc) (id : string) : bool :=
  match item_map_of (d_items d) id with
  | Some map => (apply_lifecycle_write map w now).2
  | None => false
  end.

Lemma item_write_other id f id' d :
  id <> id' -> item_map_of (d_items (set_item id f d)) id' = item_map_of (d_items d) id'.
Proof. intros Hne. unfold item_map_of. cbn. by rewrite lookup_insert_ne. Qed.

Lemma apply_writes_runs w now ids : forall d,
  NoDup ids -> (forall id, id ∈ ids -> is_Some (item_map_of (d_items d) id)) ->
  exists d', apply_writes ids w now d
             = (Ok (base.filter (fun id => Is_true (writes w now d id)) ids), d')
             /\ written ids w now d d'.
Proof.
  induction ids as [|id ids IH]; intros d Hnd Hin.
  - exists d. split; [done|]. split; [by intros ? ? ?%elem_of_nil|done|by destruct d].
  - apply NoDup_cons in Hnd as [Hid Hnd].
    destruct (Hin id) as [map Emap]; [by left|].
    set (m' := (apply_lifecycle_write map w now).1). set (d1 := set_item id m' d).
    destruct (IH d1 Hnd) as (d' & E & [W1 W2 W3]).
    { intros j Hj. unfold d1. rewrite item_write_other by (by intros ->).
      apply Hin. by right. }
    exists d'. split.
    + cbn [apply_writes]. unfold mbind, M_bind. rewrite (item_get_ok id map) by done.
      destruct (apply_lifecycle_write map w now) as [m0 changed] eqn:Ew.
      rewrite (item_write_ok id _ map) by done. change (set_item id m0 d) with d1. rewrite E.
      assert (Hw : writes w now d id = changed) by (unfold writes; by rewrite Emap, Ew).
      assert (Hf : base.filter (fun j => Is_true (writes w now d1 j)) ids
                   = base.filter (fun j => Is_true (writes w now d j)) ids).
      { apply list_filter_ext_in. intros j Hj. unfold writes, d1.
        by rewrite item_write_other by (by intros ->). }
      rewrite Hf, filter_cons. destruct changed.
      * by rewrite decide_True by (by rewrite Hw).
      * rewrite decide_False by (rewrite Hw; by intros []). done.
    + split.
      * intros j mj [-> |Hj]%elem_of_cons Ej.
        -- simplify_eq. unfold item_map_of. rewrite (W2 id Hid). unfold d1. cbn.
           by rewrite lookup_insert_eq.
        -- apply W1; [done|]. unfold d1. by rewrite item_write_other by (by intros ->).
      * intros j Hj. apply not_elem_of_cons in Hj as [Hj1 Hj2]. rewrite W2 by done.
        unfold d1. cbn. by rewrite lookup_insert_ne.
      * by rewrite W3.
Qed.

(** The metadata a batch of writes leaves: only the openness moved. *)
Lemma written_metas ids w now d d' id m :
  written ids w now d d' -> doc_metas (d_items d) !! id = Some m ->
  exists b, doc_metas (d_items d') !! id
            = Some (mkMeta (m_list_id m) (m_placement_id m) b (m_created_at m))
    /\ (forall map, item_map_of (d_items d') id = Some map -> b = map_is_open map)
    /\ (id ∉ ids -> b = m_open m).
Proof.
  intros [W1 W2 _] Hm. destruct (doc_item_map d id m Hm) as (map & E & Hmm).
  destruct (decide (id ∈ ids)) as [Hid|Hid].
  - specialize (W1 id map Hid E). exists (map_is_open (apply_lifecycle_write map w now).1).
    rewrite doc_metas_item, W1. cbn. rewrite lifecycle_meta, Hmm.
    split_and!; [done|by intros ? [= <-]|done].
  - exists (m_open m).
    assert (E' : item_map_of (d_items d') id = Some map) by (unfold item_map_of; by rewrite W2).
    rewrite doc_metas_item, E'. cbn. rewrite Hmm. destruct m. split_and!; [done| |done].
    intros ? [= <-]. by rewrite <- Hmm.
Qed.

Lemma written_none ids w now d d' id :
  written ids w now d d' -> (forall j, j ∈ ids -> is_Some (item_map_of (d_items d) j)) ->
  d_items d !! id = None -> d_items d' !! id = None.
Proof.
  intros [_ W2 _] Hin Hn. rewrite W2; [done|]. intros Hid.
  destruct (Hin id Hid) as [map E%item_map_slot]. congruence.
Qed.

(** ** The closing loop: openness synced item by item *)

(** The index is exact but for the openness of the items still to sync. *)
Definition near (d : Doc) (todo : list string) : Prop :=
  index_wf (d_index d) /\ forall id,
    if decide (id ∈ todo) then
      exists m b, ix_meta (d_index d) !! id = Some m
        /\ doc_metas (d_items d) !! id = Some (mkMeta (m_list_id m) (m_placement_id m) b (m_created_at m))
    else ix_meta (d_index d) !! id = doc_metas (d_items d) !! id.

(** The events about items of one list. *)
Definition about (d : Doc) (l : string) (e : AppEvent) : Prop :=
  match e with
  | ItemLifecycleChanged id _ _ _ _ _ _ => m_list_id <$> doc_metas (d_items d) !! id = Some l
  | _ => False
  end.
#[export] Instance about_dec d l e : Decision (about d l e).
Proof. destruct e; unfold about; apply _. Defined.

Lemma openness_update_open idx id m b l :
  index_wf idx -> ix_meta idx !! id = Some m ->
  let r := openness_update idx id b in
  (l <> m_list_id m -> open_at r.1 l = open_at idx l)
  /\ place_item id r.2 (open_at idx (m_list_id m)) = open_at r.1 (m_list_id m).
Proof.
  intros Hwf Em r. destruct (openness_update_wf idx id b Hwf) as (Rwf & Rr & Rm & R2).
  fold r in Rwf, Rr, Rm, R2. rewrite Em in Rm. split.
  - intros Hl. rewrite (wf_open _ Rwf), Rm, (raw_at_ext _ _ _ Rr). symmetry.
    by eapply far_lists.
  - rewrite (R2 m Em). apply place_item_sync; rewrite (wf_open _ Rwf), Rm, (raw_at_ext _ _ _ Rr).
    + apply NoDup_open_projection.
    + rewrite (wf_open _ Hwf). symmetry. apply projection_others; [apply same_but_insert|done].
Qed.

Lemma sync_changed_eq d id m map :
  ix_meta (d_index d) !! id = Some m -> item_map_of (d_items d) id = Some map ->
  let r := openness_update (d_index d) id (map_is_open map) in
  sync_changed id d =
    (Ok tt, with_events (fun q => q ++ [lifecycle_event id map r.2]) (with_index (fun _ => r.1) d)).
Proof.
  intros Em E r. unfold sync_changed, sync_item_openness, mbind, M_bind.
  rewrite (item_get_ok id map) by done. unfold on_index. fold r. destruct r as [idx o].
  by rewrite (item_get_ok id map).
Qed.

Lemma sync_loop todo : forall d,
  NoDup todo -> near d todo ->
  exists idx evs, mfor todo sync_changed d
      = (Ok tt, with_events (fun q => q ++ evs) (with_index (fun _ => idx) d))
    /\ index_wf idx /\ ix_meta idx = doc_metas (d_items d)
    /\ ix_raw_orders idx = ix_raw_orders (d_index d)
    /\ forall l, foldl consume (open_at (d_index d) l) (base.filter (about d l) evs) = open_at idx l.
Proof.
  induction todo as [|id todo IH]; intros d Hnd [Hwf Hn].
  - exists (d_index d), []. split; [|split_and!; try done].
    + cbn. unfold mret, M_ret, with_events, with_index. cbn. rewrite app_nil_r. by destruct d.
    + apply map_eq. intros id. specialize (Hn id). by rewrite decide_False in Hn by by intros ?%elem_of_nil.
  - apply NoDup_cons in Hnd as [Hid Hnd].
    pose proof (Hn id) as Hni. rewrite decide_True in Hni by by left.
    destruct Hni as (m & b & Em & Ed).
    destruct (doc_item_map d id _ Ed) as (map & E & Hmm).
    assert (Hb : map_is_open map = b) by (by apply (f_equal m_open) in Hmm).
    set (r := openness_update (d_index d) id (map_is_open map)).
    destruct (openness_update_wf (d_index d) id (map_is_open map) Hwf) as (Rwf & Rr & Rm & _).
    fold r in Rwf, Rr, Rm. rewrite Em, Hb in Rm.
    set (ev := lifecycle_event id map r.2).
    set (d1 := with_events (fun q => q ++ [ev]) (with_index (fun _ => r.1) d)).
    destruct (IH d1 Hnd) as (idx & evs & E1 & H3 & H4 & H5 & H6).
    { split; [done|]. intros j. change (d_index d1) with r.1. change (d_items d1) with (d_items d).
      rewrite Rm. specialize (Hn j). destruct (decide (j = id)) as [->|Hj].
      - rewrite decide_False by done. by rewrite lookup_insert_eq.
      - rewrite lookup_insert_ne by done. destruct (decide (j ∈ todo)) as [Hjt|Hjt].
        + by rewrite decide_True in Hn by by right.
        + rewrite decide_False in Hn; [done|]. by apply not_elem_of_cons. }
    exists idx, (ev :: evs). split; [|split_and!; [done|done|by rewrite H5|]].
    + cbn [mfor]. unfold mbind, M_bind. rewrite (sync_changed_eq d id m map Em E). fold r ev d1.
      rewrite E1. unfold d1, with_events, with_index. cbn. by rewrite <- app_assoc.
    + intros l. rewrite <- H6. change (d_index d1) with r.1.
      destruct (openness_update_open (d_index d) id m (map_is_open map) l Hwf Em) as [Hfar Hat].
      fold r in Hfar, Hat. change (about d1 l) with (about d l).
      assert (Habout : about d l ev <-> m_list_id m = l).
      { cbn. rewrite Ed. cbn. split; [by intros [= ->]|by intros ->]. }
      rewrite filter_cons. destruct (decide (about d l ev)) as [Ha|Ha].
      * apply Habout in Ha as <-. cbn [foldl consume]. by rewrite <- Hat.
      * rewrite Hfar; [done|]. intros ->. by apply Ha, Habout.
Qed.

Lemma lifecycle_noop m w now :
  (apply_lifecycle_write m w now).2 = false -> (apply_lifecycle_write m w now).1 = m.
Proof.
  assert (Hl : forall l, (apply_lifecycle m l now).2 = false -> (apply_lifecycle m l now).1 = m).
  { intros l. unfold apply_lifecycle. destruct (workflow_state l); by destruct (_ && _) || destruct (bool_decide _). }
  destruct w as [l| |]; cbn; [apply Hl| |].
  - by destruct (read_i64 m KEY_BINNED_AT).
  - destruct (_ || _); [done|apply Hl].
Qed.

Lemma mfor_find ids d :
  index_ok d -> (forall id, id ∈ ids -> is_Some (item_map_of (d_items d) id)) ->
  mfor ids find d = (Ok tt, d).
Proof.
  intros Hix. induction ids as [|id ids IH]; intros Hin; [done|].
  cbn [mfor]. unfold mbind, M_bind, find. rewrite find_item_ok by done.
  destruct (Hin id) as [map ->]; [by left|]. apply IH. intros j Hj. apply Hin. by right.
Qed.

Lemma assert_unique_ok ids seen :
  NoDup ids -> (forall id, id ∈ ids -> id ∉ seen) -> assert_unique_from seen ids = Ok tt.
Proof.
  revert seen. induction ids as [|id ids IH]; intros seen Hnd Hs; [done|].
  apply NoDup_cons in Hnd as [Hid Hnd]. cbn. rewrite decide_False by (apply Hs; by left).
  apply IH; [done|]. intros j Hj. rewrite elem_of_union, elem_of_singleton.
  intros [-> |Hjs]; [done|]. by apply (Hs j); [right|].
Qed.

(** Metadata that differ in openness alone have the same canonical entries. *)
Lemma written_canon ids w now d d' l x :
  written ids w now d d' -> (forall j, j ∈ ids -> is_Some (item_map_of (d_items d) j)) ->
  canon (doc_metas (d_items d')) l x = canon (doc_metas (d_items d)) l x.
Proof.
  intros Hw Hin. destruct x as [x|]; [|done]. cbn.
  destruct (doc_metas (d_items d) !! entry_item_id x) as [m|] eqn:Em.
  - destruct (written_metas _ _ _ _ _ _ _ Hw Em) as (b & -> & _). done.
  - assert (Hn : item_map_of (d_items d) (entry_item_id x) = None).
    { rewrite doc_metas_item in Em. by destruct (item_map_of _ _). }
    assert (Hni : entry_item_id x ∉ ids) by (intros Hx; destruct (Hin _ Hx); congruence).
    rewrite doc_metas_item. unfold item_map_of. rewrite (written_out _ _ _ _ _ Hw) by done.
    fold (item_map_of (d_items d) (entry_item_id x)). by rewrite Hn.
Qed.

Lemma written_near ids w now d d' :
  index_ok d -> written ids w now d d' ->
  (forall j, j ∈ ids -> is_Some (item_map_of (d_items d) j)) ->
  near d' (base.filter (fun id => Is_true (writes w now d id)) ids).
Proof.
  intros [Hwf Hm _] Hw Hin0. pose proof (written_frame _ _ _ _ _ Hw) as Hf.
  assert (Hi : d_index d' = d_index d) by (rewrite Hf; done).
  split; rewrite Hi; [done|]. intros id. rewrite Hm. case_decide as Hid.
  - apply list_elem_of_filter in Hid as [Hch Hid]. unfold writes in Hch.
    destruct (item_map_of (d_items d) id) as [map|] eqn:E; [|done].
    assert (Em : doc_metas (d_items d) !! id = Some (item_meta map)) by (by rewrite doc_metas_item, E).
    destruct (written_metas _ _ _ _ _ _ _ Hw Em) as (b & E' & _). eauto.
  - destruct (decide (id ∈ ids)) as [Hin|Hin].
    + rewrite !doc_metas_item. destruct (item_map_of (d_items d) id) as [map|] eqn:E.
      * rewrite (written_in _ _ _ _ _ Hw id map Hin E). cbn. rewrite lifecycle_noop; [done|].
        apply not_true_is_false. intros Ht. apply Hid, list_elem_of_filter. split; [|done].
        unfold writes. by rewrite E, Ht.
      * destruct (Hin0 id Hin). congruence.
    + by rewrite !doc_metas_item; unfold item_map_of; rewrite (written_out _ _ _ _ _ Hw).
Qed.

Context `{HostOk}.

(** The state between the writes and the closing loop: focus pruned,
    committed, the focus change reported. *)
Lemma set_items_lifecycle_impl_eq ids w d :
  index_ok d -> NoDup ids -> ids <> [] -> length ids < BULK_LIFECYCLE_EVENT_THRESHOLD ->
  (forall id, id ∈ ids -> is_Some (item_map_of (d_items d) id)) ->
  exists d1 changed fs evs, written ids w (nth_millis (d_ticks d)) (with_ticks S d) d1
    /\ changed = base.filter (fun id => Is_true (writes w (nth_millis (d_ticks d)) d id)) ids
    /\ (evs = [] \/ evs = [FocusChanged])
    /\ set_items_lifecycle_impl ids w d =
         (if decide (changed = []) then (Ok tt, d1)
          else mfor changed sync_changed
                 (with_events (fun q => q ++ evs) (with_commits (fun c => c ++ [None])
                    (with_focus (fun _ => fs) d1)))).
Proof.
  intros Hix Hnd Hne Hlen Hin. unfold set_items_lifecycle_impl.
  rewrite decide_False by done. unfold mbind, M_bind. unfold lift at 1.
  unfold assert_unique_item_ids. rewrite assert_unique_ok by (done || by intros).
  cbn [gets]. rewrite (proj2 (Nat.leb_gt _ _)) by done.
  rewrite mfor_find by done. cbn [now_millis].
  destruct (apply_writes_runs w (nth_millis (d_ticks d)) ids (with_ticks S d) Hnd Hin) as (d1 & E & Hw).
  rewrite E. change (writes w (nth_millis (d_ticks d)) (with_ticks S d))
    with (writes w (nth_millis (d_ticks d)) d).
  set (changed := base.filter _ ids).
  assert (Hp : exists n fs,
    (if closes w then prune_focus_refs (list_to_set changed) else mret 0) d1
    = (Ok n, with_focus (fun _ => fs) d1)).
  { destruct (closes w).
    - destruct (prune_ok d1 (list_to_set changed)) as (n & Hp & _). eauto.
    - exists 0, (d_focus d1). by destruct d1. }
  destruct Hp as (n & fs & Hp).
  exists d1, changed, fs, (if 0 <? n then [FocusChanged] else []).
  split; [done|split; [done|split; [destruct (0 <? n); auto|]]].
  destruct (decide (changed = [])); [done|].
  match goal with |- ?lhs = _ => change lhs with
    (((if closes w then prune_focus_refs (list_to_set changed) else mret 0) ≫= (fun n =>
      commit ;; (if 0 <? n then push_event FocusChanged else mret tt) ;;
      mfor changed sync_changed)) d1) end.
  unfold mbind, M_bind. rewrite Hp. cbn [commit modify].
  destruct (0 <? n); [done|]. cbn. f_equal. unfold with_events. cbn. by rewrite app_nil_r.
Qed.

(** Any document with the written items and an index synced to them. *)
Lemma written_ok ids w now d d' :
  doc_ok d -> (forall j, j ∈ ids -> is_Some (item_map_of (d_items d) j)) ->
  written ids w now d (with_items (fun _ => d_items d') d) ->
  d_lists d' = d_lists d -> d_orders d' = d_orders d -> d_minted d' = d_minted d ->
  index_wf (d_index d') -> ix_meta (d_index d') = doc_metas (d_items d') ->
  ix_raw_orders (d_index d') = ix_raw_orders (d_index d) ->
  doc_ok d'.
Proof.
  intros [[Hwf Hm Hr] Hu Hn] Hin Hw El Eo Em Hwf' Hm' Hr'.
  assert (Hord : forall l, raw_order d' l = raw_order d l)
    by (intros l; unfold raw_order, order_list; cbn; by rewrite Eo).
  assert (Hnone : forall id, d_items d !! id = None -> d_items d' !! id = None)
    by (intros id; apply (written_none _ _ _ _ _ id Hw Hin)).
  split; [split; [done|done|]| |].
  - intros l. rewrite Hord, (raw_at_ext _ _ _ Hr'), Hm'. eapply mirror_mono; [|apply Hr].
    intros x _. left. rewrite Hm. exact (written_canon _ _ _ _ _ l (Some x) Hw Hin).
  - apply (unseen_step d); [done|lia|done|]. intros l e. rewrite Hord. by left.
  - by apply (named_step d).
Qed.

Lemma written_about ids w now d d' l e :
  written ids w now d d' -> (forall j, j ∈ ids -> is_Some (item_map_of (d_items d) j)) ->
  about d' l e <-> about d l e.
Proof.
  intros Hw Hin. destruct e; cbn; try done.
  destruct (doc_metas (d_items d) !! id) as [m|] eqn:Em.
  - destruct (written_metas _ _ _ _ _ _ _ Hw Em) as (b & -> & _). done.
  - assert (Hn : item_map_of (d_items d) id = None).
    { rewrite doc_metas_item in Em. by destruct (item_map_of _ _). }
    assert (Hni : id ∉ ids) by (intros Hx; destruct (Hin _ Hx); congruence).
    rewrite doc_metas_item. unfold item_map_of. rewrite (written_out _ _ _ _ _ Hw) by done.
    fold (item_map_of (d_items d) id). by rewrite Hn.
Qed.

End life.

(** ** Witnesses *)

#[local] Existing Instances value_loro value_loro_ok unary_host unary_host_ok.

