(* ===== verification/DeleteFacts.v ===== *)
(** Hard deletes (core/src/doc.rs, [hard_delete_items] and its callers):
    the items, their entries and their undo history go, nothing else moves,
    and the document invariant is kept. *)
From S2P Require Import Prelude.
From S2P Require Import Loro.
From S2P Require Import Lifecycle.
From S2P Require Import Registers.
From S2P Require Import Projection.
From S2P Require Import ProjectionFacts.
From S2P Require Import ProjectionOps.
From S2P Require Import Notes.
From S2P Require Import Events.
From S2P Require Import DocCore.
From S2P Require Import DocFocus.
From S2P Require Import DocItems.
From S2P Require Import DocIndex.
From S2P Require Import ItemFacts.
From S2P Require Import MoveFacts.
From S2P Require Import IndexBuild.
From S2P Require Import LifeFacts.

(** Positions cleared list after list. *)
Definition clear_lists (per_list : list (string * list nat)) (d : Doc) : Doc :=
  foldl (fun d '(l, ps) => cleared l ps d) d per_list.

Lemma clear_lists_frame per_list : forall d,
  let d' := clear_lists per_list d in
  d_items d' = d_items d /\ d_lists d' = d_lists d /\ d_index d' = d_index d
  /\ d_minted d' = d_minted d /\ d_events d' = d_events d /\ d_rearmed d' = d_rearmed d.
Proof.
  induction per_list as [|[l ps] per IH]; intros d; [done|]. cbn.
  destruct (cleared_frame l ps d) as (E1 & E2 & E3 & E4 & E5 & _).
  destruct (IH (cleared l ps d)) as (F1 & F2 & F3 & F4 & F5 & F6). cbn in F1, F2, F3, F4, F5, F6.
  assert (E6 : d_rearmed (cleared l ps d) = d_rearmed d) by (unfold cleared; by case_decide).
  unfold clear_lists in *. split_and!; congruence.
Qed.

Lemma raw_order_clear_lists (f : string -> list nat) ls : forall d l,
  NoDup ls ->
  raw_order (clear_lists ((fun l => (l, f l)) <$> ls) d) l
  = if decide (l ∈ ls) then remove_all (f l) (raw_order d l) else raw_order d l.
Proof.
  induction ls as [|x ls IH]; intros d l Hnd.
  - rewrite decide_False by by intros ?%elem_of_nil. done.
  - apply NoDup_cons in Hnd as [Hx Hnd].
    change (clear_lists _ d) with (clear_lists ((fun l => (l, f l)) <$> ls) (cleared x (f x) d)).
    rewrite IH, raw_order_cleared by done.
    destruct (decide (l ∈ ls)) as [Hl|Hl].
    + rewrite (decide_True (P := l ∈ x :: ls)) by by right.
      by rewrite decide_False by by intros ->.
    + destruct (decide (x = l)) as [->|Hxl].
      * by rewrite decide_True by by left.
      * rewrite decide_False; [done|]. rewrite elem_of_cons. intros [?|?]; congruence.
Qed.

Section delete.
Context `{LoroOk} `{HostOk}.

Lemma mfor_items_delete ids : forall d,
  mfor ids items_delete d = (Ok tt, with_items (fun items => foldl (fun m id => delete id m) items ids) d).
Proof.
  induction ids as [|id ids IH]; intros d; [by destruct d|].
  cbn [mfor]. unfold mbind, M_bind, items_delete at 1, modify. rewrite IH. unfold with_items. cbn.
  by rewrite map_delete_spec.
Qed.

Lemma doc_metas_delete_all ids : forall items,
  doc_metas (foldl (fun m id => delete id m) items ids) = delete_all ids (doc_metas items).
Proof.
  induction ids as [|id ids IH]; intros items; [done|]. cbn. rewrite IH. by rewrite doc_metas_delete.
Qed.

Lemma lookup_items_delete (ids : list string) : forall (items : gmap string slot) id,
  foldl (fun m id => delete id m) items ids !! id = if decide (id ∈ ids) then None else items !! id.
Proof.
  induction ids as [|x ids IH]; intros items id; cbn [foldl].
  - by rewrite decide_False by by intros ?%elem_of_nil.
  - rewrite IH, lookup_delete. destruct (decide (id ∈ ids)) as [Hi|Hi].
    + by rewrite decide_True by by right.
    + destruct (decide (x = id)) as [->|Hx]; [by rewrite decide_True by by left|].
      rewrite decide_False; [done|]. rewrite elem_of_cons. intros [?|?]; congruence.
Qed.

(** Positions found in the mirrors are valid in the containers, and stay so
    while other lists are cleared. *)
Lemma clear_lists_run (f : string -> list nat) ls : forall d,
  NoDup ls -> (forall l, l ∈ ls -> ascending (length (order_list l d)) (f l)) ->
  mfor ((fun l => (l, f l)) <$> ls) (fun '(l, ps) => root_delete_all (ROrder l) ps) d
  = (Ok tt, clear_lists ((fun l => (l, f l)) <$> ls) d).
Proof.
  induction ls as [|x ls IH]; intros d Hnd Ha; [done|].
  apply NoDup_cons in Hnd as [Hx Hnd]. cbn [fmap list_fmap mfor]. unfold mbind, M_bind.
  rewrite cleared_ok by (apply Ha; by left). rewrite IH; [done|done|].
  intros l Hl. assert (Hne : x <> l) by (by intros ->).
  unfold cleared. destruct (decide (f x = [])); [apply Ha; by right|].
  rewrite order_list_set, decide_False by done. apply Ha. by right.
Qed.

Lemma delete_per_list_keys idx ids :
  delete_per_list idx ids = (fun l => (l, delete_positions idx ids l)) <$>
    dedup (omap (fun id => m_list_id <$> ix_meta idx !! id) ids).
Proof. done. Qed.

Lemma delete_positions_ascending idx ids l :
  ascending (length (raw_at idx l)) (delete_positions idx ids l).
Proof. rewrite delete_positions_spec. apply positions_of_ascending. Qed.

(** A list no deleted item is located in has no entry to remove. *)
Lemma no_positions idx ids l :
  l ∉ dedup (omap (fun id => m_list_id <$> ix_meta idx !! id) ids) ->
  delete_positions idx ids l = [].
Proof.
  intros Hl. rewrite delete_positions_spec. apply elem_of_nil_inv. intros i.
  rewrite elem_of_positions_of. intros ([x|] & _ & Hd); [|done]. cbn in Hd.
  apply andb_true_iff in Hd as [H3%bool_decide_eq_true H4%bool_decide_eq_true].
  apply Hl. rewrite elem_of_dedup, list_elem_of_omap. eauto.
Qed.

Definition deleted (ids : list string) (d : Doc) : Doc :=
  let idx := d_index d in
  with_index (fun _ => delete_update idx ids (delete_per_list idx ids) (omap (delete_row idx) ids))
    (with_rearmed S (with_commits (fun c => c ++ [None])
      (clear_lists (delete_per_list idx ids)
        (with_items (fun items => foldl (fun m id => delete id m) items ids) d)))).

Lemma hard_delete_items_eq ids d :
  index_ok d ->
  hard_delete_items ids d
  = (Ok tt, with_events (fun q => q ++ (ItemRemoved <$> ids)) (deleted ids d)).
Proof.
  intros Hix. unfold hard_delete_items, mbind, M_bind. cbn [gets]. rewrite mfor_items_delete.
  set (d0 := with_items _ d). rewrite delete_per_list_keys, clear_lists_run.
  - rewrite <- delete_per_list_keys. cbn [commit modify rearm_undo].
    rewrite (mfor_push_events ItemRemoved). f_equal. f_equal. unfold deleted. cbn.
    destruct (clear_lists_frame (delete_per_list (d_index d) ids) d0) as (_ & _ & E & _).
    unfold with_index. cbn. by rewrite E.
  - apply NoDup_dedup.
  - intros l _. eapply ascending_mono; [apply delete_positions_ascending|].
    exact (mirror_length d l Hix).
Qed.

Lemma deleted_order ids d l :
  raw_order (deleted ids d) l
  = remove_all (delete_positions (d_index d) ids l) (raw_order d l).
Proof.
  change (raw_order (deleted ids d) l) with (raw_order (clear_lists (delete_per_list (d_index d) ids)
    (with_items (fun items => foldl (fun m id => delete id m) items ids) d)) l).
  rewrite delete_per_list_keys, raw_order_clear_lists by apply NoDup_dedup.
  case_decide as Hl; [done|]. by rewrite no_positions.
Qed.

Lemma deleted_ok ids d :
  doc_ok d -> NoDup ids ->
  doc_ok (deleted ids d)
  /\ forall l, doc_open (deleted ids d) l = without_all ids (doc_open d l).
Proof.
  intros [Hix Hu Hn] Hnd. pose proof Hix as [Hwf Hm Hr].
  destruct (delete_update_wf (d_index d) ids Hwf Hnd) as (Dwf & Dm & Dr & Do).
  set (idx := delete_update _ _ _ _) in *.
  destruct (clear_lists_frame (delete_per_list (d_index d) ids)
    (with_items (fun items => foldl (fun m id => delete id m) items ids) d))
    as (F1 & F2 & _ & F4 & _).
  assert (Hitems : d_items (deleted ids d) = foldl (fun m id => delete id m) (d_items d) ids) by exact F1.
  assert (Hix2 : index_ok (deleted ids d)).
  { split; [exact Dwf|..].
    - rewrite Hitems, doc_metas_delete_all, <- Hm. exact Dm.
    - intros l. change (d_index (deleted ids d)) with idx. rewrite deleted_order, Dr, Dm.
      replace (base.filter _ (raw_at (d_index d) l))
        with (remove_all (delete_positions (d_index d) ids l) (raw_at (d_index d) l))
        by (rewrite delete_positions_spec; apply remove_positions).
      apply mirror_cleared; [apply delete_positions_ascending|].
      eapply mirror_mono; [|apply Hr]. intros x _. cbn. rewrite lookup_delete_all.
      case_decide; [by right|by left]. }
  split.
  - split; [done|..].
    + apply (unseen_step d); [done|exact (Nat.eq_le_incl _ _ (eq_sym F4))|..].
      * intros id Hid. rewrite Hitems, lookup_items_delete. by case_decide.
      * intros l e. rewrite deleted_order. intros He%elem_of_remove_all. by left.
    + apply (named_step d); [done| |exact F2].
      intros id Hid. rewrite Hitems, lookup_items_delete. by case_decide.
  - intros l. rewrite <- (index_ok_open _ l Hix2), <- (index_ok_open _ l Hix). apply Do.
Qed.

Lemma consume_removals ids : forall arr,
  foldl consume arr (ItemRemoved <$> ids) = without_all ids arr.
Proof. induction ids as [|id ids IH]; intros arr; [done|]. apply IH. Qed.

(** The guard loop of [delete_binned_items]. *)
Definition is_binned_item (d : Doc) (id : string) : bool :=
  match item_map_of (d_items d) id with
  | Some map => bool_decide (is_Some (read_i64 map KEY_BINNED_AT))
  | None => false
  end.

Lemma assert_unique_inv ids : forall seen,
  assert_unique_from seen ids = Ok tt -> NoDup ids /\ forall id, id ∈ ids -> id ∉ seen.
Proof.
  induction ids as [|id ids IH]; intros seen E; cbn in E.
  - split; [constructor|by intros ? ?%elem_of_nil].
  - case_decide as Hs; [done|]. apply IH in E as [Hnd Hin]. split.
    + constructor; [|done]. intros Hid. apply (Hin id Hid). by apply elem_of_union_l, elem_of_singleton.
    + intros j [-> |Hj]%elem_of_cons; [done|]. intros Hjs. apply (Hin j Hj). by apply elem_of_union_r.
Qed.

Lemma binned_guard ids d :
  index_ok d ->
  let r := mfor ids (fun id =>
      find id ;;
      map ← item_get id;
      match read_i64 map KEY_BINNED_AT with Some _ => mret tt | None => fail NotBinned end) d in
  r.2 = d /\ (r.1 = Ok tt <-> forall id, id ∈ ids -> is_binned_item d id = true).
Proof.
  intros Hix. induction ids as [|id ids IH].
  - cbn. split; [done|]. split; [by intros _ ? ?%elem_of_nil|done].
  - cbn [mfor]. unfold mbind, M_bind, find. rewrite find_item_ok by done.
    destruct (item_map_of (d_items d) id) as [map|] eqn:E; cbn [ok_or].
    + rewrite (item_get_ok id map) by done.
      destruct (read_i64 map KEY_BINNED_AT) eqn:Eb; cbn [mret M_ret].
      * unfold mbind, M_bind, find in IH. destruct IH as [IH1 IH2]. split; [exact IH1|].
        rewrite IH2. setoid_rewrite elem_of_cons. split; [|auto].
        intros Ha j [-> |Hj]; [|auto]. unfold is_binned_item. rewrite E, Eb. done.
      * split; [done|]. split; [done|]. intros Ha.
        specialize (Ha id (list_elem_of_here _ _)). unfold is_binned_item in Ha.
        by rewrite E, Eb in Ha.
    + split; [done|]. split; [done|]. intros Ha.
      specialize (Ha id (list_elem_of_here _ _)). unfold is_binned_item in Ha. by rewrite E in Ha.
Qed.

(** C28: A hard delete of a batch either refuses and leaves the document
    alone (a repeated id, an unknown item, an item that is not binned), or
    removes exactly those items from the container and from every open
    projection, drops the undo history, keeps the index exact, and a
    consumer of its [ItemRemoved] events ends with the new projection. *)
Theorem delete_binned_items_spec d ids :
  doc_ok d ->
  let fine := NoDup ids /\ forall id, id ∈ ids -> is_binned_item d id = true in
  (~ fine -> exists e, delete_binned_items ids d = (Err e, d))
  /\ (fine -> ids <> [] -> exists d', delete_binned_items ids d = (Ok tt, d')
       /\ doc_ok d'
       /\ (forall id, d_items d' !! id = if decide (id ∈ ids) then None else d_items d !! id)
       /\ (forall l, doc_open d' l = without_all ids (doc_open d l))
       /\ d_rearmed d' = S (d_rearmed d)
       /\ d_events d' = d_events d ++ (ItemRemoved <$> ids)
       /\ forall l, foldl consume (doc_open d l) (ItemRemoved <$> ids) = doc_open d' l).
Proof.
  intros Hok fine. pose proof (ok_index _ Hok) as Hix.
  destruct (binned_guard ids d Hix) as [Hg1 Hg2].
  unfold delete_binned_items. split.
  - intros Hbad. rewrite decide_False.
    2: { intros ->. apply Hbad. split; [constructor|by intros ? ?%elem_of_nil]. }
    unfold mbind at 1, M_bind at 1, lift.
    destruct (assert_unique_item_ids ids) as [[]|e] eqn:Eu; [|by exists e].
    apply assert_unique_inv in Eu as [Hnd _].
    unfold mbind at 1, M_bind at 1.
    match type of Hg2 with context [mfor ids ?f d] => destruct (mfor ids f d) as [[[]|e] d0] eqn:Er end;
      cbn in Hg1, Hg2; subst d0; [|by exists e].
    exfalso. apply Hbad. split; [done|]. by apply Hg2.
  - intros [Hnd Hb] Hne. rewrite decide_False by done.
    unfold mbind at 1, M_bind at 1, lift. unfold assert_unique_item_ids.
    rewrite assert_unique_ok by (done || (intros; apply not_elem_of_empty)).
    unfold mbind at 1, M_bind at 1.
    match type of Hg2 with context [mfor ids ?f d] => destruct (mfor ids f d) as [r0 d0] eqn:Er end.
    cbn in Hg1, Hg2. subst d0. rewrite (proj2 Hg2 Hb), hard_delete_items_eq by done.
    destruct (deleted_ok ids d Hok Hnd) as [Hok2 Ho].
    destruct (clear_lists_frame (delete_per_list (d_index d) ids)
      (with_items (fun items => foldl (fun m id => delete id m) items ids) d))
      as (F1 & _ & _ & _ & F5 & F6).
    eexists. split; [done|]. split_and!.
    + by eapply same_core_ok; [|exact Hok2].
    + intros id. rewrite <- lookup_items_delete. exact (f_equal (lookup id) F1).
    + exact Ho.
    + exact (f_equal S F6).
    + exact (f_equal (fun q => q ++ _) F5).
    + intros l. rewrite consume_removals. symmetry. apply Ho.
Qed.
End delete.

(** ** Witnesses *)

#[local] Existing Instances value_loro value_loro_ok unary_host unary_host_ok.

Lemma delete_binned_items_spec_witness :
  exists d', delete_binned_items ["x3"] sample_doc = (Ok tt, d')
    /\ doc_open d' LIST_INBOX = ["x1"; "x2"] /\ d_events d' = [ItemRemoved "x3"].
Proof.
  destruct (delete_binned_items_spec sample_doc ["x3"] sample_doc_ok) as [_ Hf].
  destruct Hf as (d' & E & _ & _ & Ho & _ & Hev & _).
  - split; [apply (bool_decide_unpack _); vm_compute; exact I|].
    intros id Hid. rewrite elem_of_cons, elem_of_nil in Hid.
    destruct Hid as [->|[]]. vm_compute. reflexivity.
  - discriminate.
  - exists d'. split; [exact E|]. split; [exact (Ho LIST_INBOX)|exact Hev].
Defined.
