(* ===== verification/RegisterFacts.v ===== *)
(** The register setters of an item (core/src/doc.rs, [edit_item_text],
    [set_item_deadline], [set_item_when], [set_item_duration]): what is
    refused, what the register reads afterwards, and that no projection
    moves. *)
From S2P Require Import Prelude.
From S2P Require Import Loro.
From S2P Require Import Lifecycle.
From S2P Require Import Registers.
From S2P Require Import Projection.
From S2P Require Import ProjectionFacts.
From S2P Require Import ProjectionOps.
From S2P Require Import Notes.
From S2P Require Import Events.
From S2P Require Import DocCore.
From S2P Require Import DocFocus.
From S2P Require Import DocItems.
From S2P Require Import DocIndex.
From S2P Require Import IndexBuild.
From S2P Require Import ItemFacts.
From S2P Require Import MoveFacts.

Section registers.
Context `{LoroOk} `{HostOk}.

(** Rewriting an item map without touching its mirrored metadata. *)
Lemma register_write_ok d id map map' :
  doc_ok d -> item_map_of (d_items d) id = Some map -> item_meta map' = item_meta map ->
  doc_ok (set_item id map' d) /\ forall l, doc_open (set_item id map' d) l = doc_open d l.
Proof.
  intros [[Hwf Hm Hr] Hu Hn] E Hmeta.
  assert (Hsame : doc_metas (d_items (set_item id map' d)) = doc_metas (d_items d)).
  { change (d_items (set_item id map' d)) with (<[id := MapC map']> (d_items d)).
    rewrite doc_metas_insert, Hmeta. apply insert_id. by rewrite doc_metas_item, E. }
  assert (Hnone : forall j, d_items d !! j = None -> d_items (set_item id map' d) !! j = None).
  { intros j Hj. cbn. rewrite lookup_insert_ne; [done|]. intros <-.
    by rewrite (item_map_slot _ _ _ E) in Hj. }
  split.
  - split; [split; [done|by rewrite Hsame|done]| |].
    + apply (unseen_step d); [done|done|done|]. by left.
    + by apply (named_step d).
  - intros l. unfold doc_open. by rewrite Hsame.
Qed.

Lemma find_ok d id map :
  index_ok d -> item_map_of (d_items d) id = Some map -> find id d = (Ok tt, d).
Proof. intros Hix E. unfold find. by rewrite find_item_ok, E. Qed.

Lemma find_unknown d id :
  index_ok d -> item_map_of (d_items d) id = None -> find id d = (Err (ItemNotFound id), d).
Proof. intros Hix E. unfold find. by rewrite find_item_ok, E. Qed.

(** What a setter leaves: one register rewritten, committed, reported. *)
Definition set_register (id : string) (map : lmap) (evs : list AppEvent) (d : Doc) : Doc :=
  with_events (fun q => q ++ evs) (with_commits (fun c => c ++ [None]) (set_item id map d)).

Lemma set_register_two id map e1 e2 d :
  with_events (fun q => q ++ [e2]) (set_register id map [e1] d) = set_register id map [e1; e2] d.
Proof. unfold set_register, with_events. cbn. by rewrite <- app_assoc. Qed.

Definition settles (d : Doc) (id : string) (run : result DocError unit * Doc)
    (Q : lmap -> list AppEvent -> Prop) : Prop :=
  exists map evs, run = (Ok tt, set_register id map evs d)
    /\ doc_ok (set_register id map evs d)
    /\ (forall l, doc_open (set_register id map evs d) l = doc_open d l)
    /\ Q map evs.

Lemma settles_intro d id old map evs run (Q : lmap -> list AppEvent -> Prop) :
  doc_ok d -> item_map_of (d_items d) id = Some old -> item_meta map = item_meta old ->
  run = (Ok tt, set_register id map evs d) -> Q map evs -> settles d id run Q.
Proof.
  intros Hok E Hmeta Hrun HQ. destruct (register_write_ok d id old map Hok E Hmeta) as [Hok' Ho].
  exists map, evs. split_and!; [done| |exact Ho|done]. by eapply same_core_ok; [|exact Hok'].
Qed.

Lemma read_duration_insert m n :
  (1 <= n <= MAX_DURATION_MINUTES)%Z ->
  read_duration (map_insert KEY_DURATION (Val (LI64 n)) m) = Some n.
Proof.
  intros [Hlo Hhi]. unfold read_duration. rewrite read_i64_insert, decide_True by done.
  by rewrite (proj2 (Z.leb_le _ _) Hlo), (proj2 (Z.leb_le _ _) Hhi).
Qed.

Lemma read_duration_frame m k v :
  k <> KEY_DURATION -> read_duration (map_insert k v m) = read_duration m.
Proof. intros Hk. unfold read_duration. rewrite read_i64_insert. by rewrite decide_False. Qed.

Lemma read_duration_delete m :
  read_duration (map_delete KEY_DURATION m) = None.
Proof. unfold read_duration. by rewrite read_i64_delete, decide_True. Qed.

(** The normalised value of an optional argument. *)
Definition normalize (parse : string -> result DocError string) (v : option string)
    : result DocError (option string) :=
  match v with Some raw => let? w := parse raw in Ok (Some w) | None => Ok None end.

(** Setting the planned date of a known item: a malformed date is refused
    and changes nothing; otherwise the register reads the normalised date (or
    nothing), a timed date without a duration gets the default hour, clearing
    the date clears the duration, one event reports the date and a second the
    duration exactly when it changed, and no open projection moves. *)
Theorem set_item_when_spec d id old when_ :
  doc_ok d -> item_map_of (d_items d) id = Some old ->
  match normalize parse_when when_ with
  | Err e => set_item_when id when_ d = (Err e, d)
  | Ok n =>
      settles d id (set_item_when id when_ d) (fun map evs =>
        read_string map KEY_WHEN = n
        /\ read_duration map =
             match n with
             | None => None
             | Some v => if when_is_timed v && bool_decide (read_duration old = None)
                         then Some DEFAULT_DURATION_MINUTES else read_duration old
             end
        /\ evs = ItemWhenChanged id n ::
             (if decide (read_duration map = read_duration old) then []
              else [ItemDurationChanged id (read_duration map)]))
  end.
Proof.
  intros Hok E. pose proof (ok_index _ Hok) as Hix.
  unfold set_item_when. fold (normalize parse_when when_).
  unfold mbind at 1, M_bind at 1, lift.
  destruct (normalize parse_when when_) as [n|e]; [|done].
  unfold mbind at 1, M_bind at 1. rewrite (find_ok d id old) by done.
  destruct n as [v|].
  - unfold mbind, M_bind. unfold item_insert at 1. rewrite (item_write_ok id _ old) by done.
    set (m1 := map_insert KEY_WHEN (Val (LString v)) old).
    rewrite (item_get_ok id m1) by apply set_item_map.
    assert (Hd : read_duration m1 = read_duration old) by by apply read_duration_frame.
    assert (Hw : read_string m1 KEY_WHEN = Some v) by (unfold m1; by rewrite read_string_insert).
    assert (Hm : item_meta m1 = item_meta old).
    { apply item_meta_insert. rewrite !not_elem_of_cons. repeat split; try done. apply not_elem_of_nil. }
    rewrite Hd. destruct (when_is_timed v && bool_decide (read_duration old = None)) eqn:Et.
    + unfold item_insert. rewrite item_write_set.
      apply andb_true_iff in Et as [_ Hnone%bool_decide_eq_true].
      eapply (settles_intro d id old _ [_; _]); [done|done| |by rewrite <- set_register_two|].
      * rewrite item_meta_insert; [exact Hm|].
        rewrite !not_elem_of_cons. repeat split; try done. apply not_elem_of_nil.
      * rewrite read_duration_insert by done. rewrite read_string_insert, decide_False by done.
        split_and!; [done|done|]. rewrite Hnone. by rewrite decide_False.
    + eapply (settles_intro d id old m1 [_]); [done|done|done|done|].
      split_and!; [done|done|]. by rewrite Hd, decide_True.
  - unfold mbind, M_bind. unfold item_delete at 1. rewrite (item_write_ok id _ old) by done.
    set (m1 := map_delete KEY_WHEN old).
    rewrite (item_get_ok id m1) by apply set_item_map.
    assert (Hd : read_duration m1 = read_duration old).
    { unfold m1, read_duration. rewrite read_i64_delete. by rewrite decide_False. }
    assert (Hw : read_string m1 KEY_WHEN = None) by (unfold m1; by rewrite read_string_delete).
    assert (Hm : item_meta m1 = item_meta old).
    { apply item_meta_delete. rewrite !not_elem_of_cons. repeat split; try done. apply not_elem_of_nil. }
    rewrite Hd. destruct (read_duration old) as [k|] eqn:Ek.
    + rewrite bool_decide_eq_true_2 by done. unfold item_delete. rewrite item_write_set.
      eapply (settles_intro d id old _ [_; _]); [done|done| |by rewrite <- set_register_two|].
      * rewrite item_meta_delete; [exact Hm|].
        rewrite !not_elem_of_cons. repeat split; try done. apply not_elem_of_nil.
      * rewrite read_duration_delete, read_string_delete, decide_False by done. done.
    + rewrite bool_decide_eq_false_2 by by intros [].
      eapply (settles_intro d id old m1 [_]); [done|done|done|done|].
      split_and!; [done|done|]. by rewrite Hd.
Qed.

(** The other setters: blank text, a malformed deadline or an
    out-of-range duration is refused and changes nothing; otherwise the
    register reads the trimmed text, the normalised deadline, the duration,
    one event reports it, and no open projection moves. *)
Theorem register_setters_spec d id old :
  doc_ok d -> item_map_of (d_items d) id = Some old ->
  (forall text, if decide (trim text = "")
     then edit_item_text id text d = (Err (Invalid "item text is empty"), d)
     else settles d id (edit_item_text id text d) (fun map evs =>
            read_string map KEY_TEXT = Some (trim text) /\ evs = [ItemTextChanged id (trim text)]))
  /\ (forall deadline, match normalize parse_deadline deadline with
     | Err e => set_item_deadline id deadline d = (Err e, d)
     | Ok n => settles d id (set_item_deadline id deadline d) (fun map evs =>
            read_string map KEY_DEADLINE = n /\ evs = [ItemDeadlineChanged id n])
     end)
  /\ (forall duration, match duration with
     | Some n => if decide (1 <= n <= MAX_DURATION_MINUTES)%Z
         then settles d id (set_item_duration id duration d) (fun map evs =>
                read_duration map = duration /\ evs = [ItemDurationChanged id duration])
         else (0 <= n)%Z -> exists e, set_item_duration id duration d = (Err (Invalid e), d)
     | None => settles d id (set_item_duration id duration d) (fun map evs =>
                read_duration map = None /\ evs = [ItemDurationChanged id None])
     end).
Proof.
  intros Hok E. pose proof (ok_index _ Hok) as Hix.
  assert (Hins : forall k v, k ∉ [KEY_LOCATION; KEY_LIFECYCLE; KEY_CREATED_AT; KEY_BINNED_AT] ->
    item_insert id k v d = (Ok tt, set_item id (map_insert k (Val v) old) d)
    /\ item_meta (map_insert k (Val v) old) = item_meta old).
  { intros k v Hk. split; [by apply item_write_ok|by apply item_meta_insert]. }
  assert (Hdel : forall k, k ∉ [KEY_LOCATION; KEY_LIFECYCLE; KEY_CREATED_AT; KEY_BINNED_AT] ->
    item_delete id k d = (Ok tt, set_item id (map_delete k old) d)
    /\ item_meta (map_delete k old) = item_meta old).
  { intros k Hk. split; [by apply (item_write_ok id _ old)|by apply item_meta_delete]. }
  assert (Hk : forall k, k ∈ [KEY_TEXT; KEY_DEADLINE; KEY_DURATION] ->
    k ∉ [KEY_LOCATION; KEY_LIFECYCLE; KEY_CREATED_AT; KEY_BINNED_AT])
    by (intros k; rewrite !elem_of_cons; intros [->|[->|[->|[]%elem_of_nil]]]; refine (bool_decide_unpack _ _); vm_compute; exact I).
  split_and!.
  - intros text. unfold edit_item_text. case_decide as Et; [done|].
    unfold mbind, M_bind. rewrite (find_ok d id old) by done.
    destruct (Hins KEY_TEXT (LString (trim text)) (Hk KEY_TEXT ltac:(repeat constructor))) as [-> Hm].
    eapply (settles_intro d id old _ [_]); [done|done|exact Hm|done|]. by rewrite read_string_insert, decide_True.
  - intros deadline. unfold set_item_deadline. fold (normalize parse_deadline deadline).
    unfold mbind, M_bind, lift. destruct (normalize parse_deadline deadline) as [n|e]; [|done].
    rewrite (find_ok d id old) by done. destruct n as [v|].
    + destruct (Hins KEY_DEADLINE (LString v) (Hk KEY_DEADLINE ltac:(repeat constructor))) as [-> Hm].
      eapply (settles_intro d id old _ [_]); [done|done|exact Hm|done|]. by rewrite read_string_insert, decide_True.
    + destruct (Hdel KEY_DEADLINE (Hk KEY_DEADLINE ltac:(repeat constructor))) as [-> Hm].
      eapply (settles_intro d id old _ [_]); [done|done|exact Hm|done|]. by rewrite read_string_delete, decide_True.
  - intros duration. unfold set_item_duration, mbind, M_bind. destruct duration as [n|].
    + case_decide as Hn.
      * rewrite (proj2 (Z.eqb_neq n 0)) by lia. rewrite (proj2 (Z.ltb_ge _ _)) by lia. cbn [orb].
        rewrite (find_ok d id old) by done.
        destruct (Hins KEY_DURATION (LI64 n) (Hk KEY_DURATION ltac:(repeat constructor))) as [-> Hm].
        eapply (settles_intro d id old _ [_]); [done|done|exact Hm|done|]. by rewrite read_duration_insert.
      * intros H0n. exists "duration must be 1..=525600 minutes".
        destruct ((n =? 0) || (MAX_DURATION_MINUTES <? n))%Z eqn:Eg; [done|].
        apply orb_false_iff in Eg as [E1%Z.eqb_neq E2%Z.ltb_ge]. lia.
    + rewrite (find_ok d id old) by done.
      destruct (Hdel KEY_DURATION (Hk KEY_DURATION ltac:(repeat constructor))) as [-> Hm].
      eapply (settles_intro d id old _ [_]); [done|done|exact Hm|done|]. by rewrite read_duration_delete.
Qed.
End registers.

(** ** Witnesses *)

#[local] Existing Instances value_loro value_loro_ok unary_host unary_host_ok.

Lemma set_item_when_spec_witness :
  settles sample_doc "x1" (set_item_when "x1" (Some " 2024-02-29T09:30 ") sample_doc)
    (fun map evs => read_string map KEY_WHEN = Some "2024-02-29T09:30"
       /\ read_duration map = Some 60%Z
       /\ evs = [ItemWhenChanged "x1" (Some "2024-02-29T09:30"); ItemDurationChanged "x1" (Some 60%Z)]).
Proof.
  pose proof (set_item_when_spec sample_doc "x1" (sample_item "x1" "milk" "p1" 1)
    (Some " 2024-02-29T09:30 ") sample_doc_ok eq_refl) as Hs.
  assert (E : normalize parse_when (Some " 2024-02-29T09:30 ") = Ok (Some "2024-02-29T09:30"))
    by (vm_compute; reflexivity).
  rewrite E in Hs. destruct Hs as (map & evs & H1 & H2 & H3 & H4 & H5 & H6).
  exists map, evs. split; [exact H1|]. split; [exact H2|]. split; [exact H3|].
  split; [exact H4|]. rewrite H5 in H6 |- *. split; [reflexivity|]. rewrite H6. reflexivity.
Defined.

Lemma register_setters_spec_witness :
  settles sample_doc "x1" (set_item_duration "x1" (Some 45%Z) sample_doc)
    (fun map evs => read_duration map = Some 45%Z /\ evs = [ItemDurationChanged "x1" (Some 45%Z)]).
Proof.
  destruct (register_setters_spec sample_doc "x1" (sample_item "x1" "milk" "p1" 1)
    sample_doc_ok eq_refl) as (_ & _ & Hd).
  exact (Hd (Some 45%Z)).
Defined.
