(* ===== verification/DocLists.v ===== *)
(** List and settings mutations, and order repair (core/src/doc.rs, from
    [add_list] to [reconcile_with]). Each definition is the whole mutation. *)
From S2P Require Import Prelude.
From S2P Require Import Loro.
From S2P Require Import Lifecycle.
From S2P Require Import Registers.
From S2P Require Import Projection.
From S2P Require Import Notes.
From S2P Require Import Events.
From S2P Require Import DocCore.
From S2P Require Import DocFocus.
From S2P Require Import DocItems.

Definition SWEEP_ORIGIN := "sweep".

Definition visible_list_index (d : Doc) (list_id : string) : option nat :=
  position (fun l => bool_decide (lv_id l = list_id)) (all_lists d).

(** The active flag of each row but the mover's, in raw order. *)
Fixpoint active_rows (list_id : string) (lists : list slot) (seen : gset string) : list bool :=
  match lists with
  | [] => []
  | MapC m :: lists =>
      let id := read_string m KEY_ID in
      if decide (id = Some list_id) then active_rows list_id lists seen
      else
        let '(first_for_id, seen') :=
          match id with
          | Some id => (bool_decide (id ∉ seen), {[id]} ∪ seen)
          | None => (false, seen)
          end in
        (first_for_id && bool_decide (read_i64 m KEY_ARCHIVED_AT = None))
          :: active_rows list_id lists seen'
  | _ :: lists => false :: active_rows list_id lists seen
  end.

Fixpoint active_slot (rest : list bool) (pos active_seen after_last : nat) (target : N) : nat :=
  match rest with
  | [] => after_last
  | true :: rest =>
      if (N.of_nat active_seen =? target)%N then pos
      else active_slot rest (S pos) (S active_seen) (S pos) target
  | false :: rest => active_slot rest (S pos) active_seen after_last target
  end.

Definition resolve_active_move_target (d : Doc) (list_id : string) (target_index : N) : nat :=
  active_slot (active_rows list_id (d_lists d) ∅) 0 0 0 target_index.

(** Raw indices of rows that repeat an earlier row's id. *)
Fixpoint duplicate_rows_from (lists : list slot) (i : nat) (seen : gset string) : list nat :=
  match lists with
  | [] => []
  | MapC m :: lists =>
      match read_string m KEY_ID with
      | Some id =>
          if decide (id ∈ seen) then i :: duplicate_rows_from lists (S i) seen
          else duplicate_rows_from lists (S i) ({[id]} ∪ seen)
      | None => duplicate_rows_from lists (S i) seen
      end
  | _ :: lists => duplicate_rows_from lists (S i) seen
  end.
Definition duplicate_list_rows (d : Doc) : list nat := duplicate_rows_from (d_lists d) 0 ∅.

(** ** The repair plan of one list *)

(** The walk over one mirror: the positions to drop, and the items kept. *)
Fixpoint stale_walk (meta : gmap string ItemMeta) (sweep : gset string) (list_id : string)
    (raw : list (option OrderEntry)) (i : nat) (seen : gset string) : list nat * gset string :=
  match raw with
  | [] => ([], seen)
  | e :: raw =>
      let keep :=
        match e with
        | Some e =>
            match meta !! entry_item_id e with
            | Some m =>
                if bool_decide (m_list_id m = list_id)
                   && bool_decide (m_placement_id m = entry_placement_id e)
                   && bool_decide (entry_item_id e ∉ sweep)
                   && bool_decide (entry_item_id e ∉ seen)
                then Some (entry_item_id e) else None
            | None => None
            end
        | None => None
        end in
      match keep with
      | Some id => stale_walk meta sweep list_id raw (S i) ({[id]} ∪ seen)
      | None =>
          let '(stale, seen) := stale_walk meta sweep list_id raw (S i) seen in (i :: stale, seen)
      end
  end.

Record ListPlan : Type := mkListPlan { lp_stale : list nat; lp_append : list OrderEntry }.

(** The items a sweep at [cutoff] drops. *)
Definition sweep_set (d : Doc) (sweep_closed_before : option Z) : gset string :=
  match sweep_closed_before with
  | None => ∅
  | Some cutoff =>
      list_to_set (iv_id <$> base.filter (fun i => Is_true
        match (match iv_binned_at i with
               | Some at_ => Some at_
               | None => if iv_is_closed i then Some (iv_lifecycle_at i) else None
               end) with
        | Some at_ => (at_ <? cutoff)%Z
        | None => false
        end) (iter_items d))
  end.

Section lists.
Context `{Loro, Host, LoroText}.

(** ** Settings *)

Definition settings_insert (k : string) (v : LoroValue) : M unit :=
  modify (with_settings (map_insert k (Val v))).
Definition settings_delete (k : string) : M unit := modify (with_settings (map_delete k)).

Definition push_settings_changed : M unit :=
  s ← gets d_settings; push_event (SettingsChanged (settings_view s)).

Definition set_show_list_counts (show : bool) : M unit :=
  settings ← gets d_settings;
  if decide (default true (read_bool settings KEY_SHOW_LIST_COUNTS) = show) then mret tt
  else
    (if show then settings_delete KEY_SHOW_LIST_COUNTS
     else settings_insert KEY_SHOW_LIST_COUNTS (LBool false)) ;;
    commit ;; push_settings_changed.

Definition set_doc_name (name : option string) : M unit :=
  settings ← gets d_settings;
  let next := non_empty (trim <$> name) in
  if decide (read_string settings KEY_DOC_NAME = next) then mret tt
  else
    (match next with
     | Some n => settings_insert KEY_DOC_NAME (LString n)
     | None => settings_delete KEY_DOC_NAME
     end) ;;
    commit ;; push_settings_changed.

Definition set_calendar_doc_hidden (doc_id : string) (hidden : bool) : M unit :=
  let doc_id := trim doc_id in
  if decide (doc_id = "") then fail (Invalid "empty doc id")
  else
    settings ← gets d_settings;
    let ids := read_string_list settings KEY_CALENDAR_HIDDEN_DOCS in
    if decide (bool_decide (doc_id ∈ ids) = hidden) then mret tt
    else
      let ids := if hidden then ids ++ [doc_id] else base.filter (fun d => d <> doc_id) ids in
      (if decide (ids = []) then settings_delete KEY_CALENDAR_HIDDEN_DOCS
       else settings_insert KEY_CALENDAR_HIDDEN_DOCS (LList (LString <$> ids))) ;;
      commit ;; push_settings_changed.

Definition set_done_amalgamate (amalgamate : bool) : M unit :=
  settings ← gets d_settings;
  if decide (default false (read_bool settings KEY_DONE_AMALGAMATE) = amalgamate) then mret tt
  else
    (if amalgamate then settings_insert KEY_DONE_AMALGAMATE (LBool true)
     else settings_delete KEY_DONE_AMALGAMATE) ;;
    commit ;; push_settings_changed.

(** ** ListMeta rows *)

Definition row_insert (i : nat) (k : string) (v : LoroValue) : M unit :=
  row_write i (map_insert k (Val v)).
Definition row_delete (i : nat) (k : string) : M unit := row_write i (map_delete k).

Definition find_row (list_id : string) : M (nat * lmap) := fun d => (find_list d list_id, d).

Definition add_list (name : string) : M string :=
  let name := trim name in
  if decide (name = "") then fail (Invalid "list name is empty")
  else
    id ← new_id;
    i ← gets (fun d => length (d_lists d));
    root_push RLists (MapC ∅) ;;
    now ← now_millis;
    row_insert i KEY_ID (LString id) ;;
    row_insert i KEY_NAME (LString name) ;;
    row_insert i KEY_CREATED_AT (LI64 now) ;;
    commit ;;
    index ← gets (fun d => visible_list_index d id);
    index ← lift (ok_or index (ListNotFound id));
    push_event (ListAdded id name now None index) ;;
    mret id.

Definition rename_list (list_id name : string) : M unit :=
  if is_reserved_list list_id then fail (CannotRenameBuiltin list_id)
  else
    let name := trim name in
    '(i, _) ← find_row list_id;
    row_insert i KEY_NAME (LString name) ;;
    commit ;;
    push_event (ListRenamed list_id name).

Definition set_list_icon (list_id icon : string) : M unit :=
  if is_reserved_list list_id then fail (CannotRenameBuiltin list_id)
  else
    '(i, map) ← find_row list_id;
    let next := non_empty (Some (trim icon)) in
    if decide (non_empty (read_string map KEY_ICON) = next) then mret tt
    else
      (match next with
       | Some s => row_insert i KEY_ICON (LString s)
       | None => row_delete i KEY_ICON
       end) ;;
      commit ;;
      push_event (ListIconChanged list_id next).

Definition set_default_view (list_id : string) (view : option DefaultView) : M unit :=
  if decide (list_id = LIST_EVENTS) then fail (Invalid "the events list has no list or board view")
  else if decide (list_id = LIST_INBOX) then
    settings ← gets d_settings;
    if decide (read_default_view settings KEY_INBOX_VIEW = view) then mret tt
    else
      (match view with
       | Some v => settings_insert KEY_INBOX_VIEW (LString (view_encode v))
       | None => settings_delete KEY_INBOX_VIEW
       end) ;;
      commit ;; push_settings_changed
  else
    '(i, map) ← find_row list_id;
    if decide (read_default_view map KEY_VIEW = view) then mret tt
    else
      (match view with
       | Some v => row_insert i KEY_VIEW (LString (view_encode v))
       | None => row_delete i KEY_VIEW
       end) ;;
      commit ;;
      push_event (ListDefaultViewChanged list_id view).

Definition set_list_archived (list_id : string) (archived : bool) : M unit :=
  if is_reserved_list list_id then fail (CannotDeleteBuiltin list_id)
  else
    '(i, map) ← find_row list_id;
    if decide (bool_decide (is_Some (read_i64 map KEY_ARCHIVED_AT)) = archived) then mret tt
    else
      next ←
        (if archived then
           now ← now_millis;
           row_insert i KEY_ARCHIVED_AT (LI64 now) ;; mret (Some now)
         else row_delete i KEY_ARCHIVED_AT ;; mret None);
      commit ;;
      push_event (ListArchivedChanged list_id next).

Definition move_list (list_id : string) (target_index : N) : M unit :=
  if is_reserved_list list_id then fail (CannotMoveBuiltin list_id)
  else
    '(from, map) ← find_row list_id;
    len ← gets (fun d => length (d_lists d));
    to ← gets (fun d =>
      if decide (read_i64 map KEY_ARCHIVED_AT = None)
      then resolve_active_move_target d list_id target_index
      else N.to_nat (N.min target_index (N.of_nat (len - 1))));
    if decide (from = to) then mret tt
    else
      root_mov RLists from to ;;
      commit ;;
      index ← gets (fun d => visible_list_index d list_id);
      index ← lift (ok_or index (ListNotFound list_id));
      push_event (ListMoved list_id index).

(** One item of a deleted list: relocated to the inbox, binned. *)
Definition discard_item (binned_at : Z) (item_id : string) : M unit :=
  find item_id ;;
  placement ← new_id;
  write_location item_id LIST_INBOX placement ;;
  map ← item_get item_id;
  (if decide (read_i64 map KEY_BINNED_AT = None)
   then item_insert item_id KEY_BINNED_AT (LI64 binned_at) else mret tt) ;;
  root_push (ROrder LIST_INBOX) (str_slot (entry_encode (mkEntry item_id placement))).

Definition delete_list (list_id : string) : M unit :=
  if is_reserved_list list_id then fail (CannotDeleteBuiltin list_id)
  else
    '(idx, _) ← find_row list_id;
    res ← gets (fun d => resolved (d_index d) list_id);
    pre_items ← gets iter_items;
    pre_lists ← gets all_lists;
    pre_settings ← gets get_settings;
    binned_at ← now_millis;
    mfor res (discard_item binned_at) ;;
    root_delete RLists idx ;;
    commit ;;
    modify rebuild_index ;;
    emit_state_diff pre_items pre_lists pre_settings.

(** ** Order repair *)

(** The append entries of a tail: an item without a placement gets a fresh one
    and is remembered for a location write. *)
Fixpoint append_tail (meta : gmap string ItemMeta) (tail : list string)
    : M (list OrderEntry * list (string * string)) :=
  match tail with
  | [] => mret ([], [])
  | id :: tail =>
      let placement := default "" (m_placement_id <$> meta !! id) in
      if decide (placement = "") then
        p ← new_id;
        '(es, fix_) ← append_tail meta tail;
        mret (mkEntry id p :: es, (id, p) :: fix_)
      else
        '(es, fix_) ← append_tail meta tail;
        mret (mkEntry id placement :: es, fix_)
  end.

Definition plan_list (idx : ProjectionIndex) (sweep : gset string) (list_id : string)
    : M (ListPlan * list (string * string)) :=
  let '(stale, seen) := stale_walk (ix_meta idx) sweep list_id (raw_at idx list_id) 0 ∅ in
  let tail := sort_by_created (ix_meta idx)
    (base.filter (fun id => (id ∉ seen) /\ Is_true (meta_open (ix_meta idx) id))
       (elements (set_at (ix_members idx) list_id))) in
  '(append, fix_) ← append_tail (ix_meta idx) tail;
  mret (mkListPlan stale append, fix_).

(** The plans of all lists that need one; the hash iteration order of the
    lists only matters to which fresh placement goes where. *)
Fixpoint plan_lists (idx : ProjectionIndex) (sweep : gset string) (lists : list string)
    : M (list (string * ListPlan) * list (string * string)) :=
  match lists with
  | [] => mret ([], [])
  | l :: lists =>
      '(plan, fix1) ← plan_list idx sweep l;
      '(plans, fix2) ← plan_lists idx sweep lists;
      mret ((if bool_decide (lp_stale plan = []) && bool_decide (lp_append plan = [])
             then plans else (l, plan) :: plans), fix1 ++ fix2)
  end.

Definition apply_plan (list_id : string) (plan : ListPlan) : M unit :=
  root_delete_all (ROrder list_id) (lp_stale plan) ;;
  mfor (lp_append plan) (fun e => root_push (ROrder list_id) (str_slot (entry_encode e))).

Definition reconcile_with (sweep_closed_before : option Z) : M nat :=
  sweep ← gets (fun d => sweep_set d sweep_closed_before);
  idx ← gets d_index;
  '(plans, fix_location) ← plan_lists idx sweep
    (elements (dom (ix_raw_orders idx) ∪ dom (ix_members idx)));
  focus_dead ← gets (fun d => scan_dead (scan_focus d));
  list_dups ← gets duplicate_list_rows;
  if bool_decide (plans = []) && bool_decide (focus_dead = []) && bool_decide (list_dups = [])
  then mret 0
  else
    root_delete_all RLists list_dups ;;
    mfor fix_location (fun '(item_id, placement) =>
      find item_id ;; write_location item_id LIST_INBOX placement) ;;
    mfor plans (fun '(l, plan) => apply_plan l plan) ;;
    root_delete_all RFocus focus_dead ;;
    commit_with SWEEP_ORIGIN ;;
    modify rebuild_index ;;
    mret (length list_dups
          + sum_list_with (fun p => length (lp_stale p.2) + length (lp_append p.2)) plans
          + length focus_dead).

Definition reconcile : M nat := reconcile_with None.
End lists.
