(* ===== verification/ListFacts.v ===== *)
(** The list mutations (core/src/doc.rs, [add_list] to [delete_list]): where a
    moved or added list lands in the visible lists, what the list and settings
    setters leave, and that none of them moves an item. *)
From S2P Require Import Prelude.
From S2P Require Import Loro.
From S2P Require Import Lifecycle.
From S2P Require Import Registers.
From S2P Require Import Projection.
From S2P Require Import ProjectionFacts.
From S2P Require Import ProjectionOps.
From S2P Require Import Notes.
From S2P Require Import Events.
From S2P Require Import DocCore.
From S2P Require Import DocFocus.
From S2P Require Import DocItems.
From S2P Require Import DocIndex.
From S2P Require Import IndexBuild.
From S2P Require Import ItemFacts.
From S2P Require Import MoveFacts.
From S2P Require Import RegisterFacts.
From S2P Require Import DocLists.

(** ** Rows and the lists they show *)

(** The list id of a row, and what the row shows on its own. *)
Definition row_id (s : slot) : option string :=
  match s with MapC m => read_string m KEY_ID | _ => None end.
Definition row_view (s : slot) : option ListView :=
  match s with MapC m => list_view m | _ => None end.

(** Every row that names a list also reads as one (no half-written rows). *)
Definition rows_read (rows : list slot) : Prop :=
  forall s, s ∈ rows -> is_Some (row_id s) -> is_Some (row_view s).

(** What each row contributes to [all_lists]: nothing for an unreadable row
    and for one repeating an earlier id. *)
Fixpoint shown (rows : list slot) (seen : gset string) : list (option ListView) :=
  match rows with
  | [] => []
  | s :: rows =>
      match row_view s with
      | Some v => if decide (lv_id v ∈ seen) then None :: shown rows seen
                  else Some v :: shown rows ({[lv_id v]} ∪ seen)
      | None => None :: shown rows seen
      end
  end.

Lemma row_view_id s v : row_view s = Some v -> row_id s = Some (lv_id v).
Proof.
  destruct s as [m|v'|]; [|done..]. cbn. unfold list_view.
  destruct (read_string m KEY_ID), (read_string m KEY_NAME), (read_i64 m KEY_CREATED_AT);
    try done. by intros [= <-].
Qed.

Lemma all_lists_shown rows : forall seen, all_lists_from rows seen = omap id (shown rows seen).
Proof.
  induction rows as [|s rows IH]; intros seen; [done|]. cbn [all_lists_from shown].
  destruct s as [m|v|]; cbn [row_view]; [|by rewrite IH..].
  destruct (list_view m) as [v|]; [|by rewrite IH].
  case_decide; by rewrite IH.
Qed.

(** An id no row carries can be seen or not. *)
Lemma shown_seen rows j : forall seen,
  (forall s, s ∈ rows -> row_id s <> Some j) -> shown rows ({[j]} ∪ seen) = shown rows seen.
Proof.
  induction rows as [|s rows IH]; intros seen Hj; [done|]. cbn [shown].
  assert (IH' := fun seen => IH seen (fun s H => Hj s (list_elem_of_further _ _ _ H))).
  destruct (row_view s) as [v|] eqn:Ev; [|by rewrite IH'].
  assert (Hv : lv_id v <> j).
  { intros E. apply (Hj s (list_elem_of_here _ _)). by rewrite (row_view_id _ _ Ev), E. }
  destruct (decide (lv_id v ∈ seen)) as [Hs|Hs].
  - rewrite decide_True by (apply elem_of_union; by right). by rewrite IH'.
  - rewrite decide_False by (intros [?%elem_of_singleton|?]%elem_of_union; done).
    replace ({[lv_id v]} ∪ ({[j]} ∪ seen)) with ({[j]} ∪ ({[lv_id v]} ∪ seen)) by set_solver.
    by rewrite IH'.
Qed.

(** A row of a new id shows itself and nothing else changes. *)
Lemma shown_insert rows x v p : forall seen,
  row_view x = Some v -> lv_id v ∉ seen -> (forall s, s ∈ rows -> row_id s <> Some (lv_id v)) ->
  shown (insert_at p x rows) seen = insert_at p (Some v) (shown rows seen).
Proof.
  revert p. induction rows as [|s rows IH]; intros p seen Hx Hs Hn.
  - unfold insert_at. cbn [shown]. rewrite !take_nil, !drop_nil. cbn. by rewrite Hx, decide_False.
  - destruct p as [|p].
    + change (shown (x :: s :: rows) seen = Some v :: shown (s :: rows) seen).
      remember (s :: rows) as rows' eqn:Er. clear Er IH. cbn [shown].
      rewrite Hx, decide_False by done. f_equal. by apply shown_seen.
    + change (insert_at (S p) x (s :: rows)) with (s :: insert_at p x rows).
      assert (Hn' := fun s' H => Hn s' (list_elem_of_further _ _ _ H)).
      cbn [shown]. destruct (row_view s) as [w|] eqn:Ew; [|by rewrite IH].
      case_decide as Hw; [by rewrite IH|]. rewrite IH; [done|done| |done].
      intros [E%elem_of_singleton|?]%elem_of_union; [|done].
      apply (Hn s (list_elem_of_here _ _)). by rewrite (row_view_id _ _ Ew), E.
Qed.

Lemma length_shown rows : forall seen, length (shown rows seen) = length rows.
Proof.
  induction rows as [|s rows IH]; intros seen; [done|]. cbn [shown length].
  destruct (row_view s); [case_decide|]; cbn; by rewrite IH.
Qed.

(** ** The active slot *)

Definition lv_active (v : ListView) : bool := bool_decide (lv_archived_at v = None).
Definition active_flag (o : option ListView) : bool :=
  match o with Some v => lv_active v | None => false end.

(** The flags of [resolve_active_move_target] are those of the rows shown. *)
Lemma active_rows_shown id rows : forall seen,
  rows_read rows ->
  active_rows id rows seen
  = active_flag <$> shown (base.filter (fun s => row_id s <> Some id) rows) seen.
Proof.
  induction rows as [|s rows IH]; intros seen Hr; [done|].
  assert (IH' := fun seen => IH seen (fun s H => Hr s (list_elem_of_further _ _ _ H))).
  cbn [active_rows]. destruct s as [m|v|].
  2,3: rewrite filter_cons_True by done; cbn; by rewrite IH'.
  destruct (decide (read_string m KEY_ID = Some id)) as [E|E].
  - rewrite filter_cons_False by (cbn; tauto). apply IH'.
  - rewrite filter_cons_True by done. cbn [shown row_view].
    destruct (read_string m KEY_ID) as [j|] eqn:Ej.
    + destruct (Hr (MapC m) (list_elem_of_here _ _)) as [v Hv]; [by cbn; rewrite Ej|].
      cbn in Hv. rewrite Hv. assert (Hj : j = lv_id v).
      { apply (inj Some). rewrite <- Ej. by apply (row_view_id (MapC m)). }
      rewrite <- Hj. assert (Ha : read_i64 m KEY_ARCHIVED_AT = lv_archived_at v).
      { revert Hv. unfold list_view. rewrite Ej.
        destruct (read_string m KEY_NAME), (read_i64 m KEY_CREATED_AT); try done.
        by intros [= <-]. }
      rewrite Ha, IH'. destruct (decide (j ∈ seen)) as [Hs|Hs].
      * rewrite bool_decide_eq_false_2 by tauto. cbn. by replace ({[j]} ∪ seen) with seen by set_solver.
      * by rewrite bool_decide_eq_true_2.
    + assert (Hv : list_view m = None) by (unfold list_view; by rewrite Ej).
      rewrite Hv. cbn. by rewrite IH'.
Qed.

(** Where the walk stops: as many active rows before it as the target asks
    for, or all of them. *)
Lemma active_slot_spec rest : forall pos seen last target,
  last <= pos -> (N.of_nat seen <= target)%N ->
  let p := active_slot rest pos seen last target in
  (p = last /\ N.of_nat (seen + length (base.filter Is_true rest)) <= target /\
   (base.filter Is_true rest = []))%N
  \/ (pos <= p <= pos + length rest /\
      seen + length (base.filter Is_true (take (p - pos) rest))
      = Nat.min (N.to_nat (N.min target (N.of_nat (seen + length rest))))
          (seen + length (base.filter Is_true rest))).
Proof.
  induction rest as [|b rest IH]; intros pos seen last target Hl Ht; cbn zeta.
  - left. cbn. split_and!; [done|lia|done].
  - destruct b; cbn [active_slot].
    + destruct (N.of_nat seen =? target)%N eqn:E.
      * apply N.eqb_eq in E. right. rewrite Nat.sub_diag. cbn [take length].
        split; [lia|]. rewrite filter_cons_True by done. cbn. lia.
      * apply N.eqb_neq in E. right.
        destruct (IH (S pos) (S seen) (S pos) target) as [(Ep & Hle & Hnil)|(Hp & Hc)]; [lia|lia| |].
        -- rewrite Ep. replace (S pos - pos) with 1 by lia. cbn [take length].
           rewrite !filter_cons_True by done. rewrite take_0, Hnil in *. cbn in *. lia.
        -- set (p := active_slot rest _ _ _ _) in *.
           replace (p - pos) with (S (p - S pos)) by lia. cbn [take length].
           rewrite !filter_cons_True by done. cbn [length]. lia.
    + destruct (IH (S pos) seen last target) as [(Ep & Hle & Hnil)|(Hp & Hc)]; [lia|lia| |].
      * left. rewrite filter_cons_False by tauto. done.
      * right. set (p := active_slot rest _ _ _ _) in *.
        replace (p - pos) with (S (p - S pos)) by lia. cbn [take length].
        rewrite !filter_cons_False by tauto. cbn [length].
        pose proof (length_filter Is_true rest). lia.
Qed.

Lemma active_slot_count flags target :
  let p := active_slot flags 0 0 0 target in
  p <= length flags
  /\ length (base.filter Is_true (take p flags))
     = N.to_nat (N.min target (N.of_nat (length (base.filter Is_true flags)))).
Proof.
  pose proof (active_slot_spec flags 0 0 0 target ltac:(lia) ltac:(lia)) as H. cbn zeta in *.
  pose proof (length_filter Is_true flags).
  destruct H as [(-> & _ & Hn)|(Hp & Hc)].
  - rewrite Hn, take_0. cbn. lia.
  - rewrite Nat.sub_0_r in Hc. cbn [Nat.add] in *. split; [lia|]. rewrite Hc. lia.
Qed.

(** ** Moving a list *)

Lemma list_view_archived m v : list_view m = Some v -> lv_archived_at v = read_i64 m KEY_ARCHIVED_AT.
Proof.
  unfold list_view.
  destruct (read_string m KEY_ID), (read_string m KEY_NAME), (read_i64 m KEY_CREATED_AT); try done.
  by intros [= <-].
Qed.

Lemma filter_inserted (id : string) p l :
  id ∉ l -> base.filter (fun x => x <> id) (insert_at p id l) = l.
Proof.
  intros Hn. unfold insert_at. rewrite filter_app, filter_cons_False by tauto.
  rewrite <- filter_app, take_drop. apply list_filter_all. by intros x Hx ->.
Qed.

Lemma find_list_from_Some rows id : forall i j m,
  find_list_from rows i id = Ok (j, m) ->
  i <= j /\ rows !! (j - i) = Some (MapC m) /\ read_string m KEY_ID = Some id.
Proof.
  induction rows as [|s rows IH]; intros i j m; [done|]. cbn [find_list_from].
  assert (Hgo : find_list_from rows (S i) id = Ok (j, m) ->
    i <= j /\ (s :: rows) !! (j - i) = Some (MapC m) /\ read_string m KEY_ID = Some id).
  { intros (Hle & Hl & Hid)%IH. split; [lia|]. split; [|done].
    replace (j - i) with (S (j - S i)) by lia. done. }
  destruct s as [m'|v|]; [|done..]. case_decide as E; [|done].
  intros [= <- <-]. rewrite Nat.sub_diag. done.
Qed.

Lemma find_list_Some d id j m :
  find_list d id = Ok (j, m) -> d_lists d !! j = Some (MapC m) /\ read_string m KEY_ID = Some id.
Proof. intros (_ & H & Hid)%find_list_from_Some. by rewrite Nat.sub_0_r in H. Qed.

(** No other row names the list. *)
Definition sole_row (rows : list slot) (id : string) (at_ : nat) : Prop :=
  forall j s, rows !! j = Some s -> row_id s = Some id -> j = at_.

Lemma sole_row_rest rows id at_ s :
  sole_row rows id at_ -> s ∈ remove_at at_ rows -> row_id s <> Some id.
Proof.
  intros Hs (k & Hk & Hl)%elem_of_remove_at_ne E. by specialize (Hs _ _ Hl E).
Qed.

Lemma sole_row_filter rows id at_ x :
  sole_row rows id at_ -> rows !! at_ = Some x -> row_id x = Some id ->
  base.filter (fun s => row_id s <> Some id) rows = remove_at at_ rows.
Proof.
  intros Hs Hx Hid. rewrite <- (insert_remove_at _ _ _ Hx) at 1. unfold insert_at.
  assert (Hr := fun s => sole_row_rest rows id at_ s Hs).
  rewrite filter_app, filter_cons_False by tauto. rewrite <- filter_app, take_drop.
  by apply list_filter_all.
Qed.

(** The row's list among the visible ones: where it is, and the others. *)
Lemma shown_around rows id at_ x v :
  sole_row rows id at_ -> rows !! at_ = Some x -> row_view x = Some v -> lv_id v = id ->
  forall to, shown (insert_at to x (remove_at at_ rows)) ∅
             = insert_at to (Some v) (shown (remove_at at_ rows) ∅).
Proof.
  intros Hs Hx Hv Hid to. apply shown_insert; [done|set_solver|].
  rewrite Hid. intros s. by apply sole_row_rest.
Qed.

Definition active_ids (d : Doc) : list string := lv_id <$> active_lists d.

(** The active id a shown row contributes. *)
Definition active_id (o : option ListView) : option string :=
  match o with Some v => if lv_active v then Some (lv_id v) else None | None => None end.

Lemma active_ids_shown d : active_ids d = omap active_id (shown (d_lists d) ∅).
Proof.
  unfold active_ids, active_lists, all_lists. rewrite all_lists_shown.
  induction (shown (d_lists d) ∅) as [|[v|] os IH]; [done| |done].
  change (omap id (Some v :: os)) with (v :: omap id os).
  change (omap active_id (Some v :: os))
    with (match active_id (Some v) with Some j => j :: omap active_id os | None => omap active_id os end).
  cbn [active_id]. unfold lv_active. case_bool_decide as E.
  - rewrite filter_cons_True by done. cbn [fmap list_fmap]. by rewrite IH.
  - by rewrite filter_cons_False by done.
Qed.

Lemma omap_active_count os :
  length (omap active_id os) = length (base.filter Is_true (active_flag <$> os)).
Proof.
  induction os as [|[v|] os IH]; [done| |done].
  change (active_flag <$> Some v :: os) with (lv_active v :: (active_flag <$> os)).
  change (omap active_id (Some v :: os))
    with (match active_id (Some v) with Some j => j :: omap active_id os | None => omap active_id os end).
  cbn [active_id]. destruct (lv_active v) eqn:E.
  - rewrite filter_cons_True by done. cbn [length]. by rewrite IH.
  - by rewrite filter_cons_False by tauto.
Qed.

Lemma omap_insert_at {A B} (f : A -> option B) p x y l :
  f x = Some y -> omap f (insert_at p x l) = insert_at (length (omap f (take p l))) y (omap f l).
Proof.
  intros Hf. unfold insert_at. rewrite omap_app. cbn. rewrite Hf.
  assert (E : omap f l = omap f (take p l) ++ omap f (drop p l)) by by rewrite <- omap_app, take_drop.
  by rewrite E, take_app_length, drop_app_length.
Qed.

Lemma omap_shown_ids rows j : forall seen,
  j ∈ (lv_id <$> omap id (shown rows seen)) -> exists s, s ∈ rows /\ row_id s = Some j.
Proof.
  induction rows as [|s rows IH]; intros seen; [by intros ?%elem_of_nil|]. cbn [shown].
  assert (Hgo : forall seen, j ∈ (lv_id <$> omap id (shown rows seen)) ->
                exists s', s' ∈ s :: rows /\ row_id s' = Some j).
  { intros seen' (s' & Hs' & E)%IH. exists s'. split; [by right|done]. }
  destruct (row_view s) as [v|] eqn:Ev; [|apply Hgo].
  case_decide; [apply Hgo|]. cbn. intros [->|Hj]%elem_of_cons; [|by eapply Hgo].
  exists s. split; [by left|]. by apply row_view_id.
Qed.

Lemma active_id_shown rows j :
  j ∈ omap active_id (shown rows ∅) -> exists s, s ∈ rows /\ row_id s = Some j.
Proof.
  intros ([v|] & Ho & E)%list_elem_of_omap; [|done]. cbn in E.
  destruct (lv_active v); [|done]. simplify_eq. apply (omap_shown_ids rows (lv_id v) ∅).
  apply list_elem_of_fmap. exists v. split; [done|]. apply list_elem_of_omap. by exists (Some v).
Qed.

(** Rewriting the ListMeta rows, committed and reported: nothing else moves. *)
Definition rows_write (rows : list slot) (evs : list AppEvent) (d : Doc) : Doc :=
  with_events (fun q => q ++ evs)
    (with_commits (fun c => c ++ [None]) (with_lists (fun _ => rows) d)).

Lemma position_found {A} (p : A -> bool) l x :
  x ∈ l -> p x = true -> exists i y, position p l = Some i /\ l !! i = Some y /\ p y = true.
Proof.
  intros Hx Hp. destruct (position p l) as [i|] eqn:E.
  - apply position_Some in E as (y & Hy & Hpy & _). by exists i, y.
  - rewrite position_None in E. by rewrite (E x Hx) in Hp.
Qed.

Section lists.
Context `{LoroOk} `{HostOk} `{LoroText}.

Lemma move_list_run d id target from m v :
  is_reserved_list id = false -> find_list d id = Ok (from, m) -> list_view m = Some v ->
  lv_archived_at v = None -> sole_row (d_lists d) id from ->
  let to := resolve_active_move_target d id target in
  to < length (d_lists d) ->
  let rows := insert_at to (MapC m) (remove_at from (d_lists d)) in
  exists index w, all_lists_from rows ∅ !! index = Some w /\ lv_id w = id
  /\ move_list id target d =
       (Ok tt, if decide (from = to) then d else rows_write rows [ListMoved id index] d).
Proof.
  intros Hres Hf Hv Ha Hs to Hto rows. destruct (find_list_Some _ _ _ _ Hf) as [Hrow Hid].
  assert (Hvid : lv_id v = id).
  { apply (inj Some). rewrite <- Hid. symmetry. by apply (row_view_id (MapC m)). }
  assert (Harch : read_i64 m KEY_ARCHIVED_AT = None) by by rewrite <- (list_view_archived m v).
  destruct (position_found (fun l => bool_decide (lv_id l = id)) (all_lists_from rows ∅) v)
    as (index & w & Hp & Hw & Hwid).
  { rewrite all_lists_shown. apply list_elem_of_omap. exists (Some v). split; [|done].
    unfold rows. rewrite (shown_around _ id _ _ v) by done.
    apply elem_of_insert_at. by left. }
  { by apply bool_decide_eq_true. }
  apply bool_decide_eq_true in Hwid. exists index, w. split_and!; [done|done|].
  unfold move_list. rewrite Hres. unfold mbind, M_bind, find_row. rewrite Hf. cbn [gets].
  rewrite !(decide_True (P := read_i64 m KEY_ARCHIVED_AT = None)) by done. fold to.
  case_decide as E; [done|].
  rewrite (root_mov_ok RLists from to (MapC m)) by done.
  cbn [commit modify lift]. unfold visible_list_index.
  change (all_lists _) with (all_lists_from rows ∅). rewrite Hp. done.
Qed.

(** The resolved slot has the wanted number of active lists before it. *)
Lemma resolved_slot d id target from x :
  rows_read (d_lists d) -> sole_row (d_lists d) id from -> d_lists d !! from = Some x ->
  row_id x = Some id ->
  let others := omap active_id (shown (remove_at from (d_lists d)) ∅) in
  let to := resolve_active_move_target d id target in
  to < length (d_lists d)
  /\ length (omap active_id (take to (shown (remove_at from (d_lists d)) ∅)))
     = N.to_nat (N.min target (N.of_nat (length others))).
Proof.
  intros Hr Hs Hx Hid others to. unfold to, resolve_active_move_target.
  rewrite active_rows_shown, (sole_row_filter _ _ from x) by done.
  set (os := shown (remove_at from (d_lists d)) ∅).
  destruct (active_slot_count (active_flag <$> os) target) as [Hle Hc].
  rewrite omap_active_count, fmap_take, Hc. unfold others. rewrite omap_active_count. split; [|done].
  assert (El : length os = length (d_lists d) - 1).
  { unfold os. rewrite length_shown, length_remove_at; [done|by eapply lookup_lt_Some]. }
  rewrite length_fmap, El in Hle. apply lookup_lt_Some in Hx. lia.
Qed.

End lists.

(** ** Settings *)

Section readers_more.
Context `{LoroOk}.

Lemma read_bool_insert (m : lmap) k j v :
  read_bool (map_insert k v m) j =
    if decide (k = j) then match v with Val (LBool b) => Some b | _ => None end
    else read_bool m j.
Proof. unfold read_bool. rewrite map_insert_spec, lookup_insert. by case_decide. Qed.

Lemma read_bool_delete (m : lmap) k j :
  read_bool (map_delete k m) j = if decide (k = j) then None else read_bool m j.
Proof. unfold read_bool. rewrite map_delete_spec, lookup_delete. by case_decide. Qed.

Lemma read_string_list_insert_ne (m : lmap) k j v :
  k <> j -> read_string_list (map_insert k v m) j = read_string_list m j.
Proof. intros Hk. unfold read_string_list. by rewrite map_insert_spec, lookup_insert_ne. Qed.

Lemma read_string_list_delete_ne (m : lmap) k j :
  k <> j -> read_string_list (map_delete k m) j = read_string_list m j.
Proof. intros Hk. unfold read_string_list. by rewrite map_delete_spec, lookup_delete_ne. Qed.

(** The fold of [read_string_list]. *)
Definition keep_string (out : list string) (member : LoroValue) : list string :=
  match member with
  | LString s => if bool_decide (s <> "") && bool_decide (s ∉ out) then out ++ [s] else out
  | _ => out
  end.

Definition tidy_ids (ids : list string) : Prop := NoDup ids /\ "" ∉ ids.

Lemma keep_strings_tidy l : forall out, tidy_ids out -> tidy_ids (foldl keep_string out l).
Proof.
  induction l as [|v l IH]; intros out Hout; [done|]. cbn [foldl]. apply IH.
  destruct v as [| | | |s| |]; try done. cbn.
  destruct (bool_decide (s <> "")) eqn:E1, (bool_decide (s ∉ out)) eqn:E2; try done. cbn.
  apply bool_decide_eq_true in E1, E2. destruct Hout as [Hn He]. split.
  - apply NoDup_app. split_and!; [done| |apply NoDup_singleton].
    intros x Hx ->%list_elem_of_singleton. done.
  - rewrite elem_of_app, list_elem_of_singleton. intros [?|<-]; done.
Qed.

Lemma read_string_list_tidy m k : tidy_ids (read_string_list m k).
Proof.
  unfold read_string_list.
  assert (Hnil : tidy_ids []) by (split; [constructor|apply not_elem_of_nil]).
  destruct (m !! k) as [[[]| |]|]; try done. by apply keep_strings_tidy.
Qed.

Lemma keep_strings_id ids : forall out,
  tidy_ids (out ++ ids) -> foldl keep_string out (LString <$> ids) = out ++ ids.
Proof.
  induction ids as [|s ids IH]; intros out Ht; [by rewrite app_nil_r|].
  cbn [fmap list_fmap foldl keep_string]. replace (out ++ s :: ids) with ((out ++ [s]) ++ ids) in *
    by by rewrite <- app_assoc. rewrite bool_decide_eq_true_2, bool_decide_eq_true_2.
  - by apply IH.
  - destruct Ht as [(Hn & _ & _)%NoDup_app _]. apply NoDup_app in Hn as (_ & Hd & _).
    intros Hs. apply (Hd s Hs). by left.
  - destruct Ht as [_ He]. intros ->. apply He. set_solver.
Qed.

Lemma read_string_list_insert (m : lmap) k ids :
  tidy_ids ids ->
  read_string_list (map_insert k (Val (LList (LString <$> ids))) m) k = ids.
Proof.
  intros Ht. unfold read_string_list. rewrite map_insert_spec, lookup_insert_eq.
  by apply (keep_strings_id ids []).
Qed.

Lemma read_string_list_delete (m : lmap) k : read_string_list (map_delete k m) k = [].
Proof. unfold read_string_list. by rewrite map_delete_spec, lookup_delete_eq. Qed.
End readers_more.

(** New settings, committed and reported; nothing else moves. *)
Definition settings_write (s : lmap) (d : Doc) : Doc :=
  with_events (fun q => q ++ [SettingsChanged (settings_view s)])
    (with_commits (fun c => c ++ [None]) (with_settings (fun _ => s) d)).

(** The settings end as [sv]: either they already were and nothing happened,
    or they were written, committed and reported. *)
Definition settings_become (d : Doc) (run : result DocError unit * Doc) (sv : SettingsView) : Prop :=
  (run = (Ok tt, d) /\ get_settings d = sv)
  \/ (exists s, run = (Ok tt, settings_write s d) /\ settings_view s = sv).

(** Read the registers of a map just written at one key. *)
Ltac read_back :=
  rewrite ?read_string_insert, ?read_string_delete, ?read_bool_insert, ?read_bool_delete,
    ?read_i64_insert, ?read_i64_delete;
  rewrite ?read_string_list_insert_ne, ?read_string_list_delete_ne by done;
  repeat match goal with
  | |- context [decide (?a = ?b)] =>
      first [rewrite (decide_True (P := a = b)) by reflexivity
            |rewrite (decide_False (P := a = b)) by discriminate]
  end.

Section settings.
Context `{LoroOk} `{HostOk} `{LoroText}.

(** Hiding or showing one calendar. *)
Lemma calendar_hidden_spec d id (hidden : bool) :
  if decide (trim id = "")
  then set_calendar_doc_hidden id hidden d = (Err (Invalid "empty doc id"), d)
  else settings_become d (set_calendar_doc_hidden id hidden d)
    (let s := get_settings d in
     mkSettingsView (sv_show_list_counts s) (sv_inbox_view s) (sv_doc_name s)
       (let others := base.filter (fun x => x <> trim id) (sv_calendar_hidden_docs s) in
        if hidden then if decide (trim id ∈ sv_calendar_hidden_docs s)
                       then sv_calendar_hidden_docs s else sv_calendar_hidden_docs s ++ [trim id]
        else others) (sv_done_amalgamate s)).
Proof.
  unfold set_calendar_doc_hidden, mbind, M_bind, gets. destruct (decide (trim id = "")) as [|Hid]; [done|].
  set (ids := read_string_list (d_settings d) KEY_CALENDAR_HIDDEN_DOCS).
  pose proof (read_string_list_tidy (d_settings d) KEY_CALENDAR_HIDDEN_DOCS) as Ht. fold ids in Ht.
  change (sv_calendar_hidden_docs (get_settings d)) with ids. cbv zeta.
  case_decide as E.
  - left. split; [done|]. unfold get_settings, settings_view. fold ids. cbn. f_equal.
    destruct hidden; [apply bool_decide_eq_true in E; by rewrite decide_True|].
    symmetry. apply list_filter_all. apply bool_decide_eq_false in E. by intros x Hx ->.
  - right. set (ids' := if hidden then ids ++ [trim id] else base.filter (fun x => x <> trim id) ids).
    assert (Ht' : tidy_ids ids').
    { destruct Ht as [Hn He], hidden; unfold ids'; split.
      - apply NoDup_app. split_and!; [done| |apply NoDup_singleton].
        intros x Hx ->%list_elem_of_singleton. by rewrite bool_decide_eq_true_2 in E.
      - rewrite elem_of_app, list_elem_of_singleton. intros [?|?]; [done|congruence].
      - by apply NoDup_filter.
      - rewrite list_elem_of_filter. by intros [_ ?]. }
    assert (Eids : ids' = if hidden then if decide (trim id ∈ ids) then ids else ids ++ [trim id]
                          else base.filter (fun x => x <> trim id) ids).
    { unfold ids'. destruct hidden; [|done]. rewrite decide_False; [done|].
      intros Hin. by rewrite bool_decide_eq_true_2 in E. }
    rewrite <- Eids. destruct (decide (ids' = [])) as [En|En]; eexists; (split; [reflexivity|]);
      unfold settings_view, read_default_view; read_back.
    + by rewrite read_string_list_delete, En.
    + by rewrite read_string_list_insert.
Qed.

(** Each settings setter leaves the settings with its field as asked (the
    document name trimmed, blank meaning none; a hidden calendar added or
    removed once) and every other field as it was: either they already read
    so and nothing happens, or in one commit with one event. *)
Theorem settings_setters_spec d :
  let s := get_settings d in
  (forall show, settings_become d (set_show_list_counts show d)
     (mkSettingsView show (sv_inbox_view s) (sv_doc_name s) (sv_calendar_hidden_docs s) (sv_done_amalgamate s)))
  /\ (forall name, settings_become d (set_doc_name name d)
     (mkSettingsView (sv_show_list_counts s) (sv_inbox_view s) (non_empty (trim <$> name))
        (sv_calendar_hidden_docs s) (sv_done_amalgamate s)))
  /\ (forall amalgamate, settings_become d (set_done_amalgamate amalgamate d)
     (mkSettingsView (sv_show_list_counts s) (sv_inbox_view s) (sv_doc_name s)
        (sv_calendar_hidden_docs s) amalgamate))
  /\ (forall id hidden, if decide (trim id = "")
     then set_calendar_doc_hidden id hidden d = (Err (Invalid "empty doc id"), d)
     else settings_become d (set_calendar_doc_hidden id hidden d)
       (mkSettingsView (sv_show_list_counts s) (sv_inbox_view s) (sv_doc_name s)
          (let others := base.filter (fun x => x <> trim id) (sv_calendar_hidden_docs s) in
           if hidden then if decide (trim id ∈ sv_calendar_hidden_docs s)
                          then sv_calendar_hidden_docs s else sv_calendar_hidden_docs s ++ [trim id]
           else others) (sv_done_amalgamate s))).
Proof.
  intros s. split_and!.
  - intros show. unfold set_show_list_counts, mbind, M_bind, gets.
    case_decide as E; [left; split; [done|]; by rewrite <- E|right].
    destruct show; eexists; (split; [reflexivity|]);
      unfold settings_view, read_default_view; read_back; done.
  - intros name. unfold set_doc_name, mbind, M_bind, gets.
    assert (Htrim : forall n, non_empty (trim <$> name) = Some n -> trim n = n).
    { intros n. destruct name as [n'|]; [|done]. cbn. case_decide; [done|].
      intros [= <-]. apply trim_idemp. }
    assert (Hne : forall n, non_empty (trim <$> name) = Some n -> n <> "").
    { intros n. destruct name as [n'|]; [|done]. cbn. case_decide; [done|]. by intros [= <-]. }
    set (n := non_empty (trim <$> name)) in *. case_decide as E.
    + left. split; [done|]. unfold get_settings, settings_view. rewrite E. f_equal.
      destruct n as [n|]; [|done]. cbn. rewrite (Htrim n), decide_False by auto. done.
    + right. destruct n as [n|]; eexists; (split; [reflexivity|]);
        unfold settings_view, read_default_view; read_back; [|done].
      cbn. by rewrite (Htrim n), decide_False by auto.
  - intros a. unfold set_done_amalgamate, mbind, M_bind, gets.
    case_decide as E; [left; split; [done|]; by rewrite <- E|right].
    destruct a; eexists; (split; [reflexivity|]);
      unfold settings_view, read_default_view; read_back; done.
  - intros id hidden. apply calendar_hidden_spec.
Qed.
End settings.

(** ** The registers of a list *)

Section list_registers.
Context `{LoroOk} `{HostOk} `{LoroText}.

Lemma list_view_fields m v :
  list_view m = Some v <->
  read_string m KEY_ID = Some (lv_id v) /\ read_string m KEY_NAME = Some (lv_name v)
  /\ read_i64 m KEY_CREATED_AT = Some (lv_created_at v)
  /\ lv_icon v = non_empty (read_string m KEY_ICON)
  /\ lv_default_view v = read_default_view m KEY_VIEW
  /\ lv_archived_at v = read_i64 m KEY_ARCHIVED_AT.
Proof.
  unfold list_view.
  destruct (read_string m KEY_ID), (read_string m KEY_NAME), (read_i64 m KEY_CREATED_AT);
    try (split; [done|naive_solver]).
  split; [by intros [= <-]|]. destruct v. cbn. naive_solver.
Qed.

(** The row of the list ends as [v]: either it already was and nothing
    happened, or that row alone was rewritten, committed and reported. *)
Definition list_becomes (d : Doc) (at_ : nat) (run : result DocError unit * Doc)
    (v : ListView) (e : AppEvent) : Prop :=
  exists m, list_view m = Some v
  /\ (run = (Ok tt, d) /\ d_lists d !! at_ = Some (MapC m)
      \/ run = (Ok tt, rows_write (<[at_ := MapC m]> (d_lists d)) [e] d)).

Lemma row_write_found i f m d :
  d_lists d !! i = Some (MapC m) ->
  row_write i f d = (Ok tt, with_lists (fun _ => <[i := MapC (f m)]> (d_lists d)) d).
Proof. intros E. unfold row_write, modify, with_lists, list_map_at. by rewrite E. Qed.

Lemma find_row_run {B} id i m (f : nat * lmap -> M B) d :
  find_list d id = Ok (i, m) -> (find_row id ≫= f) d = f (i, m) d.
Proof. intros E. unfold mbind, M_bind, find_row. by rewrite E. Qed.

(** The two ways a list settles: untouched, or with its row rewritten. *)
Ltac row_same m := exists m; split; [|by left].
Ltac row_new := eexists; split; [|right; reflexivity].

(** Each setter of a list leaves exactly the named register as asked (the
    name and the icon trimmed, a blank icon cleared, the view in its canonical
    form, the archive stamp the clock's or gone), every other register of the
    row as it was, in one commit with one event; unchanged values do nothing. *)
Theorem list_registers_spec d id i m v :
  is_reserved_list id = false -> find_list d id = Ok (i, m) -> list_view m = Some v ->
  let '(mkListView lid name icon view archived created) := v in
  (forall n, list_becomes d i (rename_list id n d)
     (mkListView lid (trim n) icon view archived created) (ListRenamed id (trim n)))
  /\ (forall s, list_becomes d i (set_list_icon id s d)
     (mkListView lid name (non_empty (Some (trim s))) view archived created)
     (ListIconChanged id (non_empty (Some (trim s)))))
  /\ (forall w, (forall x, w = Some x -> (lanes x <= LANES_ALL)%N) ->
     exists w', (w' = w \/ w' = view_canonical <$> w) /\
       list_becomes d i (set_default_view id w d)
         (mkListView lid name icon w' archived created) (ListDefaultViewChanged id w))
  /\ (set_list_archived id (bool_decide (is_Some archived)) d = (Ok tt, d))
  /\ match archived with
     | Some _ => list_becomes d i (set_list_archived id false d)
         (mkListView lid name icon view None created) (ListArchivedChanged id None)
     | None => let now := nth_millis (d_ticks d) in
         list_becomes (with_ticks S d) i (set_list_archived id true d)
         (mkListView lid name icon view (Some now) created) (ListArchivedChanged id (Some now))
     end.
Proof.
  intros Hres Hf Hv. destruct v as [lid name icon view archived created].
  destruct (find_list_Some _ _ _ _ Hf) as [Hrow Hid].
  apply list_view_fields in Hv as (E1 & E2 & E3 & E4 & E5 & E6). cbn in E1, E2, E3, E4, E5, E6.
  assert (Hrk : forall k v, row_insert i k v d
            = (Ok tt, with_lists (fun _ => <[i := MapC (map_insert k (Val v) m)]> (d_lists d)) d)).
  { intros k w. by apply row_write_found. }
  assert (Hrd : forall k, row_delete i k d
            = (Ok tt, with_lists (fun _ => <[i := MapC (map_delete k m)]> (d_lists d)) d)).
  { intros k. by apply row_write_found. }
  split_and!.
  - intros n. unfold rename_list. rewrite Hres, (find_row_run id i m) by done.
    unfold mbind, M_bind. rewrite Hrk. row_new.
    apply list_view_fields. unfold read_default_view. read_back. by cbn.
  - intros t. unfold set_list_icon. rewrite Hres, (find_row_run id i m) by done.
    set (next := non_empty (Some (trim t))). rewrite <- E4. case_decide as E.
    + row_same m. apply list_view_fields. cbn [lv_id lv_name lv_created_at lv_icon lv_default_view lv_archived_at]. split_and!; congruence.
    + unfold mbind, M_bind. unfold next in *. cbn [non_empty].
      destruct (decide (trim t = "")) as [Et|Et]; rewrite ?Hrd, ?Hrk; row_new;
        apply list_view_fields; unfold read_default_view; read_back; cbn [non_empty];
        rewrite ?decide_False by done; by cbn.
  - intros w Hw. unfold set_default_view. apply orb_false_iff in Hres as [Hr1 Hr2].
    apply bool_decide_eq_false in Hr1, Hr2. rewrite !decide_False, (find_row_run id i m) by done.
    rewrite <- E5. case_decide as E.
    + exists w. split; [by left|]. row_same m. apply list_view_fields.
      cbn [lv_id lv_name lv_created_at lv_icon lv_default_view lv_archived_at]. split_and!; congruence.
    + exists (view_canonical <$> w). split; [by right|]. unfold mbind, M_bind.
      destruct w as [w|]; [rewrite Hrk|rewrite Hrd].
      * row_new. apply list_view_fields. unfold read_default_view. read_back.
        rewrite view_parse_encode by auto. by cbn.
      * row_new. apply list_view_fields. unfold read_default_view. read_back. by cbn.
  - unfold set_list_archived. rewrite Hres, (find_row_run id i m), <- E6 by done.
    by rewrite decide_True.
  - unfold set_list_archived. rewrite Hres. destruct archived as [t|];
      rewrite (find_row_run id i m), <- E6 by done.
    + rewrite decide_False by done. unfold mbind, M_bind. rewrite Hrd. row_new.
      apply list_view_fields. unfold read_default_view. read_back. by cbn.
    + rewrite decide_False by done. unfold mbind, M_bind, now_millis, row_insert.
      rewrite (row_write_found i _ m (with_ticks S d)) by done. row_new.
      apply list_view_fields. unfold read_default_view. read_back. by cbn.
Qed.
End list_registers.

(** ** Witnesses *)

#[local] Existing Instances value_loro value_loro_ok unary_host unary_host_ok.

Definition sample_row (id name : string) (created : Z) : lmap :=
  <[KEY_ID := Val (LString id)]> (<[KEY_NAME := Val (LString name)]>
    (<[KEY_CREATED_AT := Val (LI64 created)]> ∅)).

(** Three lists, the second archived. *)
Definition sample_lists : Doc := with_lists (fun _ =>
  [MapC (sample_row "work" "Work" 1);
   MapC (<[KEY_ARCHIVED_AT := Val (LI64 5)]> (sample_row "old" "Old" 2));
   MapC (sample_row "home" "Home" 3)]) sample_doc.

Lemma sample_rows_read : rows_read (d_lists sample_lists).
Proof.
  intros s Hs _. cbn in Hs. rewrite !elem_of_cons, elem_of_nil in Hs.
  destruct Hs as [->|[->|[->|[]]]]; vm_compute; by eexists.
Qed.

Lemma sample_sole_row : sole_row (d_lists sample_lists) "work" 0.
Proof.
  intros j s Hj Hid. destruct j as [|[|[|j]]]; cbn in Hj; by simplify_eq.
Qed.


Lemma settings_setters_spec_witness :
  settings_become sample_lists (set_doc_name (Some "  Plan ") sample_lists)
    (mkSettingsView true None (Some "Plan") [] false).
Proof. exact (proj1 (proj2 (settings_setters_spec sample_lists)) (Some "  Plan ")). Defined.

Lemma list_registers_spec_witness :
  list_becomes sample_lists 2 (rename_list "home" " House " sample_lists)
    (mkListView "home" "House" None None None 3) (ListRenamed "home" "House").
Proof.
  pose proof (list_registers_spec sample_lists "home" 2 (sample_row "home" "Home" 3)
    (mkListView "home" "Home" None None None 3) eq_refl eq_refl eq_refl) as [H _].
  exact (H " House ").
Defined.

(** ** A repeated row *)

(** The list [work] with its row repeated (two devices imported the same file
    while offline), before [home]. *)
Definition doubled_lists : Doc := with_lists (fun _ =>
  [MapC (sample_row "work" "Work" 1); MapC (sample_row "work" "Travail" 1);
   MapC (sample_row "home" "Home" 3)]) sample_doc.

(** While a list's row is repeated, moving the list past its neighbour
    reports success and changes the container, but the visible lists keep
    their order, because the repeated row stays in front; and the repeated
    row's registers take over the list. *)
Theorem move_list_repeated_row :
  exists d', move_list "work" 1 doubled_lists = (Ok tt, d')
  /\ d_lists d' <> d_lists doubled_lists
  /\ active_ids d' = active_ids doubled_lists /\ active_ids d' = ["work"; "home"]
  /\ lv_name <$> all_lists doubled_lists = ["Work"; "Home"]
  /\ lv_name <$> all_lists d' = ["Travail"; "Home"].
Proof.
  eexists. split; [vm_compute; reflexivity|].
  split_and!; try (vm_compute; reflexivity).
  vm_compute. intros H. injection H as H. discriminate H.
Qed.
