(* ===== verification/Export.v ===== *)
(** JSON export and import (core/src/doc.rs, [export_json], [import_json]): the
    export's rows as records, and the two operations. The JSON text itself is
    serde's; a parsed export is a value of [JsonExport]. *)
From S2P Require Import Prelude.
From S2P Require Import Loro.
From S2P Require Import Lifecycle.
From S2P Require Import Registers.
From S2P Require Import Projection.
From S2P Require Import Notes.
From S2P Require Import Events.
From S2P Require Import DocCore.
From S2P Require Import DocFocus.
From S2P Require Import DocItems.
From S2P Require Import DocLists.

Definition INBOX_NAME := "Inbox".
Definition EVENTS_NAME := "Calendar".

Record ExportSettings : Type := mkXSettings { xs_show_list_counts : bool; xs_inbox_view : option string }.

Record ExportList : Type := mkXList {
  xl_id : string;
  xl_name : string;
  xl_icon : option string;
  xl_view : option string;
  xl_archived_at : option Z;
  xl_created_at : option Z;
  xl_builtin : bool;
}.

Record ExportLifecycle : Type := mkXLife { xc_state : string; xc_at : Z }.

Record ExportItem : Type := mkXItem {
  xi_id : string;
  xi_text : string;
  xi_notes : string;
  xi_list_id : string;
  xi_lifecycle : ExportLifecycle;
  xi_deadline : option string;
  xi_when : option string;
  xi_duration : option Z;
  xi_place : option Place;
  xi_created_at : Z;
  xi_created_by : option string;
  xi_started_at : option Z;
  xi_done_at : option Z;
  xi_binned_at : option Z;
}.

Record JsonExport : Type := mkExport {
  x_version : N;
  x_settings : ExportSettings;
  x_lists : list ExportList;
  x_items : list ExportItem;
  x_focus : list string;
}.

Record ImportSummary : Type := mkSummary {
  is_lists_added : nat;
  is_items_added : nat;
  is_items_skipped : nat;
  is_focus_added : nat;
  is_lists_existing : nat;
  is_items_existing : nat;
}.

(** ** Export *)

Definition export_list (v : ListView) : ExportList :=
  mkXList (lv_id v) (lv_name v) (lv_icon v) (view_encode <$> lv_default_view v)
    (lv_archived_at v) (Some (lv_created_at v)) false.

Definition export_item (v : ItemView) : ExportItem :=
  mkXItem (iv_id v) (iv_text v) (iv_notes v) (iv_list_id v) (mkXLife (name (iv_state v)) (iv_lifecycle_at v))
    (iv_deadline v) (iv_when v) (iv_duration v) (iv_place v) (iv_created_at v) (iv_created_by v)
    (iv_started_at v) (iv_done_at v) (iv_binned_at v).

Definition builtin_row (id name : string) : ExportList := mkXList id name None None None None true.

Definition export_json (d : Doc) : JsonExport :=
  let s := get_settings d in
  let has_events := bool_decide (is_Some (ix_members (d_index d) !! LIST_EVENTS)) in
  mkExport 1
    (mkXSettings (sv_show_list_counts s) (view_encode <$> sv_inbox_view s))
    (builtin_row LIST_INBOX INBOX_NAME
     :: (if has_events then [builtin_row LIST_EVENTS EVENTS_NAME] else [])
     ++ (export_list <$> all_lists d))
    (export_item <$> iter_items d)
    (visible_item_ids (scan_focus d)).

(** ** Import *)

(** [LoroText::insert], at a scalar position. *)
Class ScalarText : Type := { text_insert : nat -> list N -> list N -> result string (list N) }.

(** The documented behaviour of an insert within the text. *)
Class ScalarTextOk `{ScalarText} : Prop := {
  text_insert_spec pos s text : pos <= length text -> text_insert pos s text = Ok (take pos text ++ s ++ drop pos text)
}.

(** A loop with an accumulator. *)
Fixpoint mfold {A S} (f : S -> A -> M S) (s : S) (l : list A) : M S :=
  match l with
  | [] => mret s
  | a :: l => s ← f s a; mfold f s l
  end.

Definition when_some {A} (o : option A) (f : A -> M unit) : M unit :=
  match o with Some a => f a | None => mret tt end.

Section import.
Context `{Loro, Host, ScalarText}.

(** The source list ids seen, each with the local id its items go to; the rows
    added and the rows found. *)
Record ListsAcc : Type := mkLists { la_ids : gmap string string; la_added : nat; la_existing : nat }.

Definition lists_start : ListsAcc := mkLists (<[LIST_EVENTS := LIST_EVENTS]> {[LIST_INBOX := LIST_INBOX]}) 0 0.

(** [if !id.is_empty() { id_map.insert(id, ..) }]. *)
Definition note_id {V} (id : string) (v : V) (m : gmap string V) : gmap string V :=
  if decide (id = "") then m else <[id := v]> m.

Definition import_list (acc : ListsAcc) (src : ExportList) : M ListsAcc :=
  let id := xl_id src in
  if decide (id = LIST_EVENTS) then mret acc
  else if xl_builtin src || bool_decide (id = LIST_INBOX) then
    mret (mkLists (note_id id LIST_INBOX (la_ids acc)) (la_added acc) (la_existing acc))
  else
    let name := trim (xl_name src) in
    if decide (name = "") then mret acc
    else
      let keep_id := is_well_formed_id id in
      here ← gets (fun d => is_ok (find_list d id));
      if keep_id && here then mret (mkLists (<[id := id]> (la_ids acc)) (la_added acc) (S (la_existing acc)))
      else
        new_list_id ← if keep_id then mret id else new_id;
        i ← gets (fun d => length (d_lists d));
        root_push RLists (MapC ∅) ;;
        created_at ← match xl_created_at src with Some t => mret t | None => now_millis end;
        row_insert i KEY_ID (LString new_list_id) ;;
        row_insert i KEY_NAME (LString name) ;;
        row_insert i KEY_CREATED_AT (LI64 created_at) ;;
        when_some (non_empty (trim <$> xl_icon src)) (fun icon => row_insert i KEY_ICON (LString icon)) ;;
        when_some (xl_view src ≫= view_parse) (fun view => row_insert i KEY_VIEW (LString (view_encode view))) ;;
        when_some (xl_archived_at src) (fun t => row_insert i KEY_ARCHIVED_AT (LI64 t)) ;;
        mret (mkLists (note_id id new_list_id (la_ids acc)) (S (la_added acc)) (la_existing acc)).

(** [it_ids]: the source ids added, with the local id and whether it is open. *)
Record ItemsAcc : Type := mkItems {
  it_ids : gmap string (string * bool);
  it_added : nat;
  it_skipped : nat;
  it_existing : nat;
}.

(** [.filter(|n| (1..=MAX_DURATION_MINUTES).contains(n))]. *)
Definition valid_duration (duration : option Z) : option Z :=
  match duration with
  | Some n => if ((1 <=? n) && (n <=? MAX_DURATION_MINUTES))%Z then Some n else None
  | None => None
  end.

(** The registers of a new item, in the order they are written. *)
Definition write_item (id list_id placement text : string) (state : WorkflowState) (src : ExportItem) : M unit :=
  items_create id ;;
  item_insert id KEY_ID (LString id) ;;
  item_insert id KEY_TEXT (LString text) ;;
  item_insert id KEY_LOCATION (LString (location_encode (mkLocation list_id placement))) ;;
  item_insert id KEY_CREATED_AT (LI64 (xi_created_at src)) ;;
  when_some (non_empty (trim <$> xi_created_by src)) (fun author => item_insert id KEY_CREATED_BY (LString author)) ;;
  let at_ := xc_at (xi_lifecycle src) in
  (if negb (bool_decide (state = Backlog)) || negb (bool_decide (at_ = xi_created_at src))
   then item_write id (fun m => write_workflow m state at_) else mret tt) ;;
  when_some (xi_started_at src) (fun t => item_insert id KEY_STARTED_AT (LI64 t)) ;;
  when_some (xi_deadline src ≫= (fun d => result_ok (parse_deadline d)))
    (fun date => item_insert id KEY_DEADLINE (LString date)) ;;
  when_some (xi_when src ≫= (fun w => result_ok (parse_when w))) (fun value => item_insert id KEY_WHEN (LString value)) ;;
  when_some (valid_duration (xi_duration src))
    (fun n => item_insert id KEY_DURATION (LI64 n)) ;;
  when_some (xi_place src ≫= (fun p => result_ok (place_normalized p)))
    (fun p => item_insert id KEY_PLACE (place_to_loro_value p)) ;;
  let notes := trim (xi_notes src) in
  (if decide (notes = "") then mret tt
   else
     text ← ensure_text id KEY_NOTES;
     match text_insert 0 (chars notes) text with
     | Ok text => item_write id (fun m => <[KEY_NOTES := TextC (of_chars text)]> m)
     | Err e => fail (ELoro e)
     end) ;;
  when_some (xi_done_at src) (fun t => item_insert id KEY_DONE_AT (LI64 t)) ;;
  when_some (xi_binned_at src) (fun t => item_insert id KEY_BINNED_AT (LI64 t)).

Definition import_item (ids : gmap string string) (acc : ItemsAcc) (src : ExportItem) : M ItemsAcc :=
  let text := trim (xi_text src) in
  if decide (text = "") then mret (mkItems (it_ids acc) (it_added acc) (S (it_skipped acc)) (it_existing acc))
  else
    let keep_id := is_well_formed_id (xi_id src) in
    here ← gets (fun d => is_ok (find_item d (xi_id src)));
    if keep_id && here then mret (mkItems (it_ids acc) (it_added acc) (it_skipped acc) (S (it_existing acc)))
    else
      let target_list_id := default LIST_INBOX (ids !! xi_list_id src) in
      new_item_id ← if keep_id then mret (xi_id src) else new_id;
      placement ← new_id;
      let state := default Backlog (parse_name (xc_state (xi_lifecycle src))) in
      write_item new_item_id target_list_id placement text state src ;;
      root_push (ROrder target_list_id) (str_slot (entry_encode (mkEntry new_item_id placement))) ;;
      let open := bool_decide (xi_binned_at src = None) && is_open state in
      mret (mkItems (note_id (xi_id src) (new_item_id, open) (it_ids acc)) (S (it_added acc)) (it_skipped acc) (it_existing acc)).

(** The refs re-established, and the items already in Focus. *)
Definition import_ref (ids : gmap string (string * bool)) (acc : gset string * nat) (raw : string)
    : M (gset string * nat) :=
  match ref_parse raw with
  | None => mret acc
  | Some r =>
      if negb (ref_is_local r) then mret acc
      else match ids !! ref_item_id r with
      | Some (new_item_id, true) =>
          if decide (new_item_id ∈ acc.1) then mret acc
          else
            root_push RFocus (str_slot (ref_encode (ref_local new_item_id))) ;;
            mret ({[new_item_id]} ∪ acc.1, S acc.2)
      | _ => mret acc
      end
  end.

Definition focus_seen (d : Doc) : gset string :=
  list_to_set (ref_item_id <$> base.filter (fun r => Is_true (ref_is_local r)) (omap ref_parse (focus_raw d))).

Definition import_json (export : JsonExport) : M ImportSummary :=
  if decide (x_version export <> 1%N) then fail (Invalid "unsupported export version")
  else
    pre_items ← gets iter_items;
    pre_lists ← gets all_lists;
    pre_settings ← gets get_settings;
    lists ← mfold import_list lists_start (x_lists export);
    items ← mfold (import_item (la_ids lists)) (mkItems ∅ 0 0 0) (x_items export);
    seen ← gets focus_seen;
    focus ← mfold (import_ref (it_ids items)) (seen, 0) (x_focus export);
    commit ;;
    modify rebuild_index ;;
    emit_state_diff pre_items pre_lists pre_settings ;;
    (if decide (0 < focus.2) then push_event FocusChanged else mret tt) ;;
    mret (mkSummary (la_added lists) (it_added items) (it_skipped items) focus.2 (la_existing lists) (it_existing items)).
End import.
