(* ===== verification/IterFacts.v ===== *)
(** Walking the items (core/src/doc.rs, [resolved], [ordered_list_ids],
    [iter_items]): every item of the index once, each list's in its resolved
    order, the open ones as the list shows them. *)
From S2P Require Import Prelude.
From S2P Require Import Loro.
From S2P Require Import Lifecycle.
From S2P Require Import Registers.
From S2P Require Import Projection.
From S2P Require Import ProjectionFacts.
From S2P Require Import Notes.
From S2P Require Import Events.
From S2P Require Import DocCore.
From S2P Require Import DocIndex.

Lemma resolved_spec idx l :
  resolved idx l = visible (ix_meta idx) l (raw_at idx l)
    ++ tail_of (ix_meta idx) (set_at (ix_members idx) l) (list_to_set (visible (ix_meta idx) l (raw_at idx l))).
Proof. unfold resolved. rewrite visible_ids_spec. unfold tail. by rewrite list_to_set_visible. Qed.

Lemma elem_of_resolved idx l id : index_wf idx -> id ∈ resolved idx l <-> located (ix_meta idx) l id.
Proof.
  intros Hwf. rewrite resolved_spec, elem_of_app, elem_of_tail_of, elem_of_list_to_set.
  rewrite (proj1 (wf_members _ Hwf)). pose proof (located_visible (ix_meta idx) l (raw_at idx l) id).
  destruct (decide (id ∈ visible (ix_meta idx) l (raw_at idx l))); tauto.
Qed.

Lemma NoDup_resolved idx l : NoDup (resolved idx l).
Proof.
  rewrite resolved_spec. apply NoDup_app. split_and!; [apply NoDup_dedup| |apply NoDup_tail_of].
  intros id Hid. rewrite elem_of_tail_of, elem_of_list_to_set. tauto.
Qed.

(** The open items of the walk are what the list shows. *)
Lemma resolved_open idx l : index_wf idx ->
  base.filter (fun id => Is_true (meta_open (ix_meta idx) id)) (resolved idx l) = open_at idx l.
Proof.
  intros Hwf. rewrite (wf_open _ Hwf), resolved_spec, filter_app. unfold open_projection. f_equal.
  unfold tail_of. rewrite sort_by_created_filter. apply sort_by_created_Permutation_eq, NoDup_Permutation.
  - apply NoDup_filter, NoDup_elements.
  - apply NoDup_elements.
  - intros id. rewrite list_elem_of_filter, !elem_of_elements, !elem_of_filter, elem_of_open_ids, meta_open_located, Is_true_true.
    rewrite (proj1 (wf_members _ Hwf)). tauto.
Qed.

(** What one source alone contributes to a filtered walk. *)
Lemma filter_bind_one {A} (P : A -> Prop) `{forall x, Decision (P x)} (f : string -> list A) b ls :
  NoDup ls -> (forall c x, x ∈ f c -> P x -> c = b) -> (b ∉ ls -> base.filter P (f b) = []) ->
  base.filter P (ls ≫= f) = base.filter P (f b).
Proof.
  intros Hn Hone. assert (Hother : forall c, c <> b -> base.filter P (f c) = []).
  { intros c Hc. apply elem_of_nil_inv. intros x [Hx Hin]%list_elem_of_filter. by apply Hc, (Hone c x). }
  assert (Hout : forall ls, b ∉ ls -> base.filter P (ls ≫= f) = []).
  { clear ls Hn. induction ls as [|c ls IH]; [done|]. intros [Hc Hb]%not_elem_of_cons. cbn.
    by rewrite filter_app, Hother, IH by congruence. }
  intros Hb. induction Hn as [|c ls Hc Hn IH]; [by rewrite Hb by apply not_elem_of_nil|]. cbn. rewrite filter_app.
  destruct (decide (c = b)) as [->|Hcb]; [by rewrite (Hout ls Hc), app_nil_r|].
  rewrite (Hother c Hcb). apply IH. intros Hin. apply Hb. intros [->|?]%elem_of_cons; done.
Qed.

Lemma elem_of_sort_strings l s : s ∈ sort_strings l <-> s ∈ l.
Proof.
  unfold sort_strings. rewrite merge_sort_Permutation, <- list_fmap_compose. by rewrite list_fmap_id.
Qed.
Lemma NoDup_sort_strings l : NoDup l -> NoDup (sort_strings l).
Proof.
  unfold sort_strings. by rewrite merge_sort_Permutation, <- list_fmap_compose, list_fmap_id.
Qed.

Lemma NoDup_ordered_list_ids d : NoDup (ordered_list_ids d).
Proof.
  unfold ordered_list_ids. apply NoDup_app. split_and!; [apply NoDup_dedup| |apply NoDup_sort_strings, NoDup_elements].
  intros l Hl. rewrite elem_of_sort_strings, elem_of_elements. set_solver.
Qed.

Lemma elem_of_ordered_list_ids d l :
  l ∈ ordered_list_ids d <-> l ∈ LIST_INBOX :: (lv_id <$> all_lists d) \/ l ∈ dom (ix_members (d_index d)).
Proof.
  unfold ordered_list_ids. rewrite elem_of_app, elem_of_dedup, elem_of_sort_strings, elem_of_elements, elem_of_difference,
    elem_of_list_to_set, elem_of_dedup. destruct (decide (l ∈ LIST_INBOX :: (lv_id <$> all_lists d))); tauto.
Qed.

Definition iter_ids (d : Doc) : list string := l ← ordered_list_ids d; resolved (d_index d) l.

Lemma located_one meta l l' id : located meta l id -> located meta l' id -> l = l'.
Proof. intros (m & E & <-) (m' & E' & <-). congruence. Qed.

Lemma NoDup_iter_ids d : index_wf (d_index d) -> NoDup (iter_ids d).
Proof.
  intros Hwf. unfold iter_ids. pose proof (NoDup_ordered_list_ids d) as Hn.
  induction Hn as [|l ls Hl Hn IH]; [constructor|]. cbn. apply NoDup_app. split_and!; [apply NoDup_resolved| |exact IH].
  intros id Hid%elem_of_resolved (l' & Hid' & Hl')%list_elem_of_bind; [|done].
  apply elem_of_resolved in Hid'; [|done]. apply Hl. by rewrite (located_one _ _ _ _ Hid Hid').
Qed.

Lemma elem_of_iter_ids d id : index_wf (d_index d) -> id ∈ iter_ids d <-> is_Some (ix_meta (d_index d) !! id).
Proof.
  intros Hwf. unfold iter_ids. rewrite list_elem_of_bind. split.
  - intros (l & (m & Hm & _)%elem_of_resolved & _); [by exists m|done].
  - intros [m Hm]. assert (Hloc : located (ix_meta (d_index d)) (m_list_id m) id) by (by exists m).
    exists (m_list_id m). split; [by apply elem_of_resolved|]. apply elem_of_ordered_list_ids. right.
    apply (proj1 (wf_members _ Hwf)) in Hloc. unfold set_at in Hloc. apply elem_of_dom.
    destruct (ix_members (d_index d) !! m_list_id m); [by eexists|by apply elem_of_empty in Hloc].
Qed.

(** A list the walk does not name has nothing. *)
Lemma resolved_unlisted d l : index_wf (d_index d) -> l ∉ ordered_list_ids d -> resolved (d_index d) l = [].
Proof.
  intros Hwf Hl. apply elem_of_nil_inv. intros x Hx. apply Hl, elem_of_ordered_list_ids. right.
  apply elem_of_resolved in Hx; [|done]. apply (proj1 (wf_members _ Hwf)) in Hx. unfold set_at in Hx. apply elem_of_dom.
  destruct (ix_members (d_index d) !! l); [by eexists|by apply elem_of_empty in Hx].
Qed.

(** Every item of the index has a view. *)
Definition viewable (d : Doc) : Prop := forall id, is_Some (ix_meta (d_index d) !! id) -> is_Some (get_item d id).

(** Items that carry their own id. *)
Definition self_named (d : Doc) : Prop :=
  forall id m, item_map_of (d_items d) id = Some m -> read_string m KEY_ID = Some id.

Lemma get_item_id d id v : self_named d -> get_item d id = Some v -> iv_id v = id.
Proof.
  intros Hs. unfold get_item, find_item. destruct (ix_meta (d_index d) !! id); [|done].
  destruct (item_map_of (d_items d) id) as [m|] eqn:Em; [|done]. cbn. unfold item_view. rewrite (Hs _ _ Em).
  destruct (read_string m KEY_TEXT), (read_i64 m KEY_CREATED_AT); try done. by intros [= <-].
Qed.

Lemma NoDup_iter_items d : index_wf (d_index d) -> self_named d -> NoDup (iv_id <$> iter_items d).
Proof.
  intros Hwf Hs. change (iter_items d) with (omap (get_item d) (iter_ids d)).
  pose proof (NoDup_iter_ids d Hwf) as Hn. induction Hn as [|id ids Hid Hn IH]; [constructor|]. cbn.
  destruct (get_item d id) as [v|] eqn:E; [|exact IH]. cbn. constructor; [|exact IH].
  rewrite (get_item_id _ _ _ Hs E). intros (v' & E' & (id' & Hid' & Eg)%list_elem_of_omap)%list_elem_of_fmap.
  rewrite (get_item_id _ _ _ Hs Eg) in E'. by subst.
Qed.

(** The rows of the lists are one per id. *)
Lemma all_lists_seen ls : forall seen, NoDup (lv_id <$> all_lists_from ls seen)
  /\ forall id, id ∈ lv_id <$> all_lists_from ls seen -> id ∉ seen.
Proof.
  induction ls as [|s ls IH]; intros seen; [split; [constructor|by intros ? ?%not_elem_of_nil]|]. cbn.
  destruct s as [m| |]; try apply IH. destruct (list_view m) as [v|]; [|apply IH]. case_decide as Hin; [apply IH|].
  destruct (IH ({[lv_id v]} ∪ seen)) as [Hn Hs]. cbn. split.
  - constructor; [|done]. intros Hi%Hs. set_solver.
  - intros id [->|Hi%Hs]%elem_of_cons; [done|set_solver].
Qed.
Lemma NoDup_all_lists d : NoDup (lv_id <$> all_lists d).
Proof. apply all_lists_seen. Qed.

(** ** Nothing changed, nothing said *)

Lemma bind_nothing {A B} (f : A -> list B) l : (forall a, a ∈ l -> f a = []) -> l ≫= f = [].
Proof.
  intros Hf. induction l as [|a l IH]; [done|]. cbn. rewrite (Hf a) by (by left). apply IH. intros b Hb. apply Hf. by right.
Qed.
Lemma omap_nothing {A B} (f : A -> option B) l : (forall a, a ∈ l -> f a = None) -> omap f l = [].
Proof.
  intros Hf. induction l as [|a l IH]; [done|]. cbn. rewrite (Hf a) by (by left). apply IH. intros b Hb. apply Hf. by right.
Qed.

Lemma diff_items_same l : NoDup (iv_id <$> l) -> diff_items l l = [].
Proof.
  intros Hn. unfold diff_items. rewrite omap_nothing, bind_nothing; [done|..].
  - intros [i it] (j & it' & [= <- <-] & Hi)%elem_of_lookup_imap.
    rewrite (proj2 (rows_by_id_Some iv_id l (iv_id it) i it Hn)) by done.
    unfold diff_item. by rewrite !(bool_decide_eq_false_2 (_ <> _)) by (intros Hx; by apply Hx).
  - intros it (i & Hi)%list_elem_of_lookup. by rewrite (proj2 (rows_by_id_Some iv_id l (iv_id it) i it Hn)).
Qed.

Lemma diff_lists_same l : NoDup (lv_id <$> l) -> diff_lists l l = [].
Proof.
  intros Hn. unfold diff_lists. rewrite omap_nothing, bind_nothing; [done|..].
  - intros [i it] (j & it' & [= <- <-] & Hi)%elem_of_lookup_imap.
    rewrite (proj2 (rows_by_id_Some lv_id l (lv_id it) i it Hn)) by done.
    unfold diff_list. by rewrite !(bool_decide_eq_false_2 (_ <> _)) by (intros Hx; by apply Hx).
  - intros it (i & Hi)%list_elem_of_lookup. by rewrite (proj2 (rows_by_id_Some lv_id l (lv_id it) i it Hn)).
Qed.

Lemma diff_settings_same s : diff_settings s s = [].
Proof. unfold diff_settings. by rewrite (bool_decide_eq_false_2 (s <> s)) by (intros Hx; by apply Hx). Qed.
