(* ===== verification/ExportFacts.v ===== *)
(** JSON import and export: an import never fails, touches nothing the
    document already had, and does nothing the second time; importing an
    export into an empty document restores what it shows. *)
From S2P Require Import Prelude.
From S2P Require Import Loro.
From S2P Require Import Lifecycle.
From S2P Require Import Registers.
From S2P Require Import Projection.
From S2P Require Import ProjectionFacts.
From S2P Require Import Notes.
From S2P Require Import Events.
From S2P Require Import DocCore.
From S2P Require Import DocFocus.
From S2P Require Import DocItems.
From S2P Require Import DocIndex.
From S2P Require Import IndexBuild.
From S2P Require Import DocLists.
From S2P Require Import Export.
From S2P Require Import IterFacts.

(** ** The item map an import writes *)

Definition opt_put (k : string) (o : option leaf) (m : lmap) : lmap :=
  match o with Some v => <[k := v]> m | None => m end.

Lemma lookup_opt_put k o m j :
  opt_put k o m !! j = if decide (k = j) then match o with Some v => Some v | None => m !! j end else m !! j.
Proof. destruct o; cbn; [|by case_decide]. rewrite lookup_insert. by case_decide. Qed.

Definition str (s : string) : leaf := Val (LString s).
Definition num (n : Z) : leaf := Val (LI64 n).

Definition imported_state (src : ExportItem) : WorkflowState := default Backlog (parse_name (xc_state (xi_lifecycle src))).
Definition imported_workflow (src : ExportItem) : option leaf :=
  let at_ := xc_at (xi_lifecycle src) in
  if negb (bool_decide (imported_state src = Backlog)) || negb (bool_decide (at_ = xi_created_at src))
  then Some (Val (LList [LI64 (code (imported_state src)); LI64 at_])) else None.

Definition imported_notes (src : ExportItem) : option leaf :=
  let notes := trim (xi_notes src) in
  if decide (notes = "") then None else Some (TextC (of_chars (chars notes))).

(** In the order of the writes, the last one outermost. *)
Definition fresh_item (id list_id placement : string) (src : ExportItem) : lmap :=
  opt_put KEY_BINNED_AT (num <$> xi_binned_at src) (
  opt_put KEY_DONE_AT (num <$> xi_done_at src) (
  opt_put KEY_NOTES (imported_notes src) (
  opt_put KEY_PLACE ((fun p => Val (place_to_loro_value p)) <$> (xi_place src ≫= (fun p => result_ok (place_normalized p)))) (
  opt_put KEY_DURATION (num <$> valid_duration (xi_duration src)) (
  opt_put KEY_WHEN (str <$> (xi_when src ≫= (fun w => result_ok (parse_when w)))) (
  opt_put KEY_DEADLINE (str <$> (xi_deadline src ≫= (fun d => result_ok (parse_deadline d)))) (
  opt_put KEY_STARTED_AT (num <$> xi_started_at src) (
  opt_put KEY_LIFECYCLE (imported_workflow src) (
  opt_put KEY_CREATED_BY (str <$> non_empty (trim <$> xi_created_by src)) (
  <[KEY_CREATED_AT := num (xi_created_at src)]> (
  <[KEY_LOCATION := str (location_encode (mkLocation list_id placement))]> (
  <[KEY_TEXT := str (trim (xi_text src))]> (
  <[KEY_ID := str id]> ∅))))))))))))).

Definition holding (id : string) (m : lmap) (d : Doc) : Doc := with_items (fun items => <[id := MapC m]> items) d.

Section writes.
Context `{LoroOk, Host, ScalarTextOk}.

Lemma items_create_holding id d : items_create id d = (Ok tt, holding id ∅ d).
Proof. unfold items_create, modify, holding, with_items. by rewrite map_insert_spec. Qed.

Lemma item_write_holding id f m d : item_write id f (holding id m d) = (Ok tt, holding id (f m) d).
Proof.
  unfold item_write, modify, holding, with_items, item_map_of. cbn. rewrite lookup_insert_eq.
  by rewrite insert_insert_eq.
Qed.

Lemma item_insert_holding id k v m d : item_insert id k v (holding id m d) = (Ok tt, holding id (<[k := Val v]> m) d).
Proof. unfold item_insert. by rewrite item_write_holding, map_insert_spec. Qed.

Lemma when_some_holding {A} (o : option A) id k (f : A -> LoroValue) m d :
  when_some o (fun a => item_insert id k (f a)) (holding id m d)
  = (Ok tt, holding id (opt_put k ((fun a => Val (f a)) <$> o) m) d).
Proof. destruct o; [|done]. apply item_insert_holding. Qed.

Lemma M_bind_eq {A B} (m : M A) (f : A -> M B) d a d' : m d = (Ok a, d') -> (m ≫= f) d = f a d'.
Proof. intros E. unfold mbind, M_bind. by rewrite E. Qed.

Lemma write_notes_holding id src m d : m !! KEY_NOTES = None ->
  (let notes := trim (xi_notes src) in
   if decide (notes = "") then mret tt
   else
     text ← ensure_text id KEY_NOTES;
     match text_insert 0 (chars notes) text with
     | Ok text => item_write id (fun m => <[KEY_NOTES := TextC (of_chars text)]> m)
     | Err e => fail (ELoro e)
     end) (holding id m d)
  = (Ok tt, holding id (opt_put KEY_NOTES (imported_notes src) m) d).
Proof.
  intros Hm. unfold imported_notes. cbn zeta. case_decide as Hn; [done|].
  assert (Ht : ensure_text id KEY_NOTES (holding id m d) = (Ok [], holding id (<[KEY_NOTES := TextC ""]> m) d)).
  { unfold ensure_text. assert (Hg : item_get id (holding id m d) = (Ok m, holding id m d)).
    { unfold item_get, gets, item_map_of. cbn. by rewrite lookup_insert_eq. }
    rewrite (M_bind_eq _ _ _ _ _ Hg). unfold read_text. rewrite Hm.
    erewrite M_bind_eq; [|apply item_write_holding]. by rewrite map_insert_spec. }
  rewrite (M_bind_eq _ _ _ _ _ Ht), text_insert_spec by (cbn; lia). cbn [take drop app]. rewrite app_nil_r, item_write_holding.
  cbn. by rewrite insert_insert_eq.
Qed.

Lemma write_item_ok id list_id placement src d :
  write_item id list_id placement (trim (xi_text src)) (imported_state src) src d
  = (Ok tt, holding id (fresh_item id list_id placement src) d).
Proof.
  unfold write_item, fresh_item.
  rewrite (M_bind_eq _ _ _ _ _ (items_create_holding id d)). do 4 (erewrite M_bind_eq; [|apply item_insert_holding]).
  erewrite M_bind_eq; [|apply when_some_holding].
  assert (Hw : forall m, (if negb (bool_decide (imported_state src = Backlog))
        || negb (bool_decide (xc_at (xi_lifecycle src) = xi_created_at src))
      then item_write id (fun m => write_workflow m (imported_state src) (xc_at (xi_lifecycle src))) else mret tt) (holding id m d)
    = (Ok tt, holding id (opt_put KEY_LIFECYCLE (imported_workflow src) m) d)).
  { intros m. unfold imported_workflow. cbn zeta. destruct (negb _ || negb _); [|done].
    rewrite item_write_holding. unfold write_workflow. by rewrite map_insert_spec. }
  cbn zeta. rewrite (M_bind_eq _ _ _ _ _ (Hw _)).
  do 5 (erewrite M_bind_eq; [|apply when_some_holding]).
  erewrite M_bind_eq; [|apply write_notes_holding].
  - erewrite M_bind_eq; [|apply when_some_holding]. apply when_some_holding.
  - rewrite !lookup_opt_put, !lookup_insert. done.
Qed.
(** ** The row an import writes *)

Definition fresh_row (id : string) (created_at : Z) (src : ExportList) : lmap :=
  opt_put KEY_ARCHIVED_AT (num <$> xl_archived_at src) (
  opt_put KEY_VIEW ((fun v => str (view_encode v)) <$> (xl_view src ≫= view_parse)) (
  opt_put KEY_ICON (str <$> non_empty (trim <$> xl_icon src)) (
  <[KEY_CREATED_AT := num created_at]> (<[KEY_NAME := str (trim (xl_name src))]> (<[KEY_ID := str id]> ∅))))).

Definition with_row (m : lmap) (d : Doc) : Doc := with_lists (fun ls => ls ++ [MapC m]) d.

Lemma row_insert_with_row k v m d :
  row_insert (length (d_lists d)) k v (with_row m d) = (Ok tt, with_row (<[k := Val v]> m) d).
Proof.
  unfold row_insert, row_write, modify, with_row, with_lists, list_map_at. cbn.
  rewrite lookup_app_r, Nat.sub_diag by lia. cbn. rewrite map_insert_spec.
  rewrite insert_app_r_alt, Nat.sub_diag by lia. done.
Qed.

Lemma when_some_row {A} (o : option A) k (f : A -> LoroValue) m d :
  when_some o (fun a => row_insert (length (d_lists d)) k (f a)) (with_row m d)
  = (Ok tt, with_row (opt_put k ((fun a => Val (f a)) <$> o) m) d).
Proof. destruct o; [|done]. apply row_insert_with_row. Qed.

(** Ids minted and the clock read, nothing else. *)
Definition drawn (n t : nat) (d : Doc) : Doc := with_minted (fun m => m + n) (with_ticks (fun m => m + t) d).

Lemma drawn_0 d : drawn 0 0 d = d.
Proof. unfold drawn, with_minted, with_ticks. rewrite !Nat.add_0_r. by destruct d. Qed.

Definition named_list (src : ExportList) : Prop :=
  xl_id src <> LIST_EVENTS /\ xl_builtin src = false /\ xl_id src <> LIST_INBOX /\ trim (xl_name src) <> "".

Lemma import_list_named acc src : named_list src ->
  import_list acc src =
    (here ← gets (fun d => is_ok (find_list d (xl_id src)));
     if is_well_formed_id (xl_id src) && here
     then mret (mkLists (<[xl_id src := xl_id src]> (la_ids acc)) (la_added acc) (S (la_existing acc)))
     else
        new_list_id ← if is_well_formed_id (xl_id src) then mret (xl_id src) else new_id;
        i ← gets (fun d => length (d_lists d));
        root_push RLists (MapC ∅) ;;
        created_at ← match xl_created_at src with Some t => mret t | None => now_millis end;
        row_insert i KEY_ID (LString new_list_id) ;;
        row_insert i KEY_NAME (LString (trim (xl_name src))) ;;
        row_insert i KEY_CREATED_AT (LI64 created_at) ;;
        when_some (non_empty (trim <$> xl_icon src)) (fun icon => row_insert i KEY_ICON (LString icon)) ;;
        when_some (xl_view src ≫= view_parse) (fun view => row_insert i KEY_VIEW (LString (view_encode view))) ;;
        when_some (xl_archived_at src) (fun t => row_insert i KEY_ARCHIVED_AT (LI64 t)) ;;
        mret (mkLists (note_id (xl_id src) new_list_id (la_ids acc)) (S (la_added acc)) (la_existing acc))).
Proof.
  intros (N1 & N2 & N3 & N4). unfold import_list. rewrite decide_False by done. rewrite N2, bool_decide_false by done.
  cbn [orb]. by rewrite decide_False.
Qed.

Lemma import_list_new acc src d : named_list src ->
  is_well_formed_id (xl_id src) && is_ok (find_list d (xl_id src)) = false ->
  exists nid created n t,
    import_list acc src d
    = (Ok (mkLists (note_id (xl_id src) nid (la_ids acc)) (S (la_added acc)) (la_existing acc)),
       with_row (fresh_row nid created src) (drawn n t d))
    /\ (if is_well_formed_id (xl_id src) then nid = xl_id src else nid = nth_id (d_minted d) /\ n = 1)
    /\ (forall c, xl_created_at src = Some c -> created = c /\ t = 0 /\ (is_well_formed_id (xl_id src) = true -> n = 0)).
Proof.
  intros Hn Hh. rewrite import_list_named by done.
  set (keep := is_well_formed_id (xl_id src)) in *.
  set (nid := if keep then xl_id src else nth_id (d_minted d)). set (n := if keep then 0 else 1).
  set (created := match xl_created_at src with Some c => c | None => nth_millis (d_ticks d) end).
  set (t := match xl_created_at src with Some _ => 0 | None => 1 end).
  exists nid, created, n, t. split_and!.
  2: { unfold nid, n. by destruct keep. }
  2: { intros c Ec. unfold created, t, n. rewrite Ec. split_and!; [done|done|]. by destruct keep. }
  erewrite M_bind_eq; [|reflexivity]. cbn beta. rewrite Hh.
  assert (Hid : (if keep then mret (xl_id src) else new_id) d = (Ok nid, drawn n 0 d)).
  { unfold nid, n. destruct keep; [by rewrite drawn_0|]. unfold new_id, drawn, with_minted, with_ticks. cbn.
    by rewrite Nat.add_0_r, Nat.add_1_r. }
  rewrite (M_bind_eq _ _ _ _ _ Hid). erewrite M_bind_eq; [|reflexivity]. cbn beta.
  erewrite M_bind_eq; [|apply root_push_ok]. cbn [root_set root_get].
  change (with_lists (fun _ => d_lists (drawn n 0 d) ++ [MapC ∅]) (drawn n 0 d)) with (with_row ∅ (drawn n 0 d)).
  assert (Hc : (match xl_created_at src with Some c => mret c | None => now_millis end) (with_row ∅ (drawn n 0 d))
    = (Ok created, with_row ∅ (drawn n t d))).
  { unfold created, t. destruct (xl_created_at src); [done|].
    unfold now_millis, with_row, drawn, with_lists, with_minted, with_ticks. cbn. by rewrite !Nat.add_0_r, Nat.add_1_r. }
  rewrite (M_bind_eq _ _ _ _ _ Hc). change (length (d_lists (drawn n 0 d))) with (length (d_lists (drawn n t d))).
  do 3 (erewrite M_bind_eq; [|apply row_insert_with_row]). do 3 (erewrite M_bind_eq; [|apply when_some_row]).
  unfold fresh_row. by destruct (xl_view src ≫= view_parse).
Qed.
End writes.

(** ** The two loops *)

Section loops.
Context `{LoroOk, Host, ScalarTextOk}.

Definition listed (rows : list lmap) (n t : nat) (d : Doc) : Doc :=
  with_lists (fun ls => ls ++ (MapC <$> rows)) (drawn n t d).

Lemma listed_nil d : listed [] 0 0 d = d.
Proof. unfold listed. rewrite drawn_0. unfold with_lists. cbn. rewrite app_nil_r. by destruct d. Qed.

Lemma listed_listed rows n t rows' n' t' d :
  listed rows' n' t' (listed rows n t d) = listed (rows ++ rows') (n + n') (t + t') d.
Proof.
  unfold listed, drawn, with_lists, with_minted, with_ticks. cbn.
  by rewrite fmap_app, <- app_assoc, !Nat.add_assoc.
Qed.

Lemma find_list_app ls ls' id : forall i, is_ok (find_list_from ls i id) = true ->
  is_ok (find_list_from (ls ++ ls') i id) = true.
Proof.
  induction ls as [|s ls IH]; intros i; [done|]. cbn. destruct s as [m| |]; try apply IH.
  case_decide; [done|apply IH].
Qed.

Lemma find_list_listed rows n t d id : is_ok (find_list d id) = true -> is_ok (find_list (listed rows n t d) id) = true.
Proof. apply find_list_app. Qed.

Lemma find_list_row id created src rows : forall ls i,
  is_ok (find_list_from (ls ++ MapC (fresh_row id created src) :: rows) i id) = true.
Proof.
  induction ls as [|s ls IH]; intros i; cbn.
  - rewrite decide_True; [done|]. unfold read_string, fresh_row. by rewrite !lookup_opt_put, !lookup_insert.
  - destruct s as [m| |]; try apply IH. case_decide; [done|apply IH].
Qed.

(** Ids kept from the file, or minted. *)
Definition ids_plain (acc : ListsAcc) : Prop := map_Forall (fun _ v => plain v) (la_ids acc).

Lemma note_plain id v (m : gmap string string) : plain v -> map_Forall (fun _ v => plain v) m ->
  map_Forall (fun _ v => plain v) (note_id id v m).
Proof. intros Hv Hm. unfold note_id. case_decide; [done|]. by apply map_Forall_insert_2. Qed.

Definition row_plain (m : lmap) : Prop := forall id, read_string m KEY_ID = Some id -> plain id.

Lemma fresh_row_plain id created src : plain id -> row_plain (fresh_row id created src).
Proof.
  intros Hp j. unfold read_string, fresh_row. rewrite !lookup_opt_put, !lookup_insert. cbn. by intros [= <-].
Qed.

(** A list row the document has, or that makes no list. *)
Definition list_settled (d : Doc) (src : ExportList) : Prop :=
  ~ named_list src \/ (is_well_formed_id (xl_id src) = true /\ is_ok (find_list d (xl_id src)) = true).

#[global] Instance named_list_dec src : base.Decision (named_list src).
Proof. unfold named_list. apply _. Defined.

Lemma import_list_settled acc src d : list_settled d src -> ids_plain acc ->
  exists ids, import_list acc src d
    = (Ok (mkLists ids (la_added acc) (la_existing acc + if decide (named_list src) then 1 else 0)), d)
  /\ map_Forall (fun _ v => plain v) ids.
Proof.
  intros Hs Hp. destruct (decide (named_list src)) as [Hn|Hn].
  - destruct Hs as [?|[Hw Hf]]; [done|]. rewrite import_list_named by done. eexists. split.
    + erewrite M_bind_eq; [|reflexivity]. cbn beta. rewrite Hw, Hf, Nat.add_1_r. reflexivity.
    + apply map_Forall_insert_2; [by apply well_formed_plain|done].
  - rewrite Nat.add_0_r. unfold import_list, named_list in *. case_decide as E1; [exists (la_ids acc); by destruct acc|].
    destruct (xl_builtin src) eqn:E2; cbn [orb]; [|destruct (bool_decide (xl_id src = LIST_INBOX)) eqn:E3].
    + eexists. split; [reflexivity|]. by apply note_plain.
    + eexists. split; [reflexivity|]. by apply note_plain.
    + apply bool_decide_eq_false in E3. case_decide as E4; [exists (la_ids acc); by destruct acc|]. exfalso. by apply Hn.
Qed.

Lemma import_lists_settled ls : forall acc d, Forall (list_settled d) ls -> ids_plain acc ->
  exists ids, mfold import_list acc ls d
    = (Ok (mkLists ids (la_added acc) (la_existing acc + length (base.filter named_list ls))), d)
  /\ map_Forall (fun _ v => plain v) ids.
Proof.
  induction ls as [|src ls IH]; intros acc d Hs Hp.
  - exists (la_ids acc). cbn. rewrite Nat.add_0_r. by destruct acc.
  - inversion Hs as [|? ? Hs1 Hs2]; subst. destruct (import_list_settled acc src d Hs1 Hp) as (ids & E & Hids).
    cbn [mfold]. rewrite (M_bind_eq _ _ _ _ _ E). destruct (IH (mkLists ids (la_added acc) (la_existing acc + if decide (named_list src) then 1 else 0)) d Hs2 Hids) as (ids' & E' & Hids').
    exists ids'. split; [|done]. rewrite E'. cbn [la_added la_existing]. do 3 f_equal.
    rewrite filter_cons. case_decide; cbn [length]; lia.
Qed.

(** The loop over the lists appends rows and finds the rest; afterwards every
    list row with a well-formed id is there. *)
Lemma import_lists_run `{!HostOk} ls : forall acc d, ids_plain acc -> exists acc' rows n t,
  mfold import_list acc ls d = (Ok acc', listed rows n t d)
  /\ la_added acc' = la_added acc + length rows /\ ids_plain acc' /\ Forall row_plain rows
  /\ forall src, src ∈ ls -> named_list src -> is_well_formed_id (xl_id src) = true ->
       is_ok (find_list (listed rows n t d) (xl_id src)) = true.
Proof.
  induction ls as [|src ls IH]; intros acc d Hp.
  - exists acc, [], 0, 0. rewrite listed_nil. split_and!; [done|cbn; lia|done|constructor|by intros ? ?%not_elem_of_nil].
  - cbn [mfold]. destruct (decide (list_settled d src)) as [Hs|Hs].
    + destruct (import_list_settled acc src d Hs Hp) as (ids & E & Hids). rewrite (M_bind_eq _ _ _ _ _ E).
      destruct (IH (mkLists ids (la_added acc) (la_existing acc + if decide (named_list src) then 1 else 0)) d Hids) as (acc' & rows & n & t & E' & Ha & Hp' & Hr & Hf). exists acc', rows, n, t. split_and!; try done.
      intros src' [->|Hin]%elem_of_cons Hn Hw; [|by apply Hf]. apply find_list_listed. by destruct Hs as [?|[_ ?]].
    + assert (Hn : named_list src) by (destruct (decide (named_list src)); [done|by destruct Hs; left]).
      assert (Hh : is_well_formed_id (xl_id src) && is_ok (find_list d (xl_id src)) = false).
      { destruct (_ && _) eqn:Eh; [|done]. apply andb_true_iff in Eh. destruct Hs. by right. }
      destruct (import_list_new acc src d Hn Hh) as (nid & created & n & t & E & Hid & _).
      rewrite (M_bind_eq _ _ _ _ _ E). assert (Hplain : plain nid).
      { destruct (is_well_formed_id (xl_id src)) eqn:Ew; [subst; by apply well_formed_plain|]. destruct Hid as [-> _]. apply nth_id_plain. }
      change (with_row (fresh_row nid created src) (drawn n t d)) with (listed [fresh_row nid created src] n t d).
      destruct (IH (mkLists (note_id (xl_id src) nid (la_ids acc)) (S (la_added acc)) (la_existing acc))
        (listed [fresh_row nid created src] n t d)) as (acc' & rows & n' & t' & E' & Ha & Hp' & Hr & Hf);
        [by apply note_plain|].
      rewrite E', listed_listed. cbn [app la_added] in *. eexists _, _, _, _. split; [reflexivity|]. split_and!.
      * rewrite Ha. cbn. lia.
      * done.
      * constructor; [by apply fresh_row_plain|done].
      * intros src' [->|Hin]%elem_of_cons Hn' Hw; [|rewrite listed_listed in Hf; by apply Hf].
        rewrite Hw in Hid. subst nid. apply find_list_row.
Qed.

(** ** One item *)

Definition entry_slot (e : OrderEntry) : slot := str_slot (entry_encode e).

(** An imported item in place: its map and the entry at the end of its list. *)
Definition put_item (id list_id placement : string) (src : ExportItem) (d : Doc) : Doc :=
  root_set (ROrder list_id) (order_list list_id d ++ [entry_slot (mkEntry id placement)])
    (holding id (fresh_item id list_id placement src) d).

Definition blank (src : ExportItem) : Prop := trim (xi_text src) = "".
#[global] Instance blank_dec src : base.Decision (blank src).
Proof. unfold blank. apply _. Defined.

Definition item_list (ids : gmap string string) (src : ExportItem) : string := default LIST_INBOX (ids !! xi_list_id src).
Definition imported_open (src : ExportItem) : bool := bool_decide (xi_binned_at src = None) && is_open (imported_state src).

Definition kept (src : ExportItem) : bool := is_well_formed_id (xi_id src).

Lemma import_item_skip ids acc src d :
  (blank src \/ (kept src = true /\ is_ok (find_item d (xi_id src)) = true)) ->
  import_item ids acc src d
  = (Ok (mkItems (it_ids acc) (it_added acc)
           (it_skipped acc + if decide (blank src) then 1 else 0)
           (it_existing acc + if decide (blank src) then 0 else 1)), d).
Proof.
  intros Hs. unfold import_item. destruct (decide (blank src)) as [Hb|Hb].
  { unfold blank in Hb. by rewrite decide_True, Nat.add_1_r, Nat.add_0_r. }
  destruct Hs as [?|[Hw Hf]]; [done|]. unfold blank, kept in *. rewrite decide_False by done. erewrite M_bind_eq; [|reflexivity]. cbn beta. rewrite Hw, Hf. cbn [andb].
  by rewrite Nat.add_1_r, Nat.add_0_r.
Qed.

Lemma import_item_new ids acc src d :
  ~ blank src -> kept src && is_ok (find_item d (xi_id src)) = false ->
  exists nid n,
    let p := nth_id (d_minted d + n) in
    import_item ids acc src d
    = (Ok (mkItems (note_id (xi_id src) (nid, imported_open src) (it_ids acc)) (S (it_added acc)) (it_skipped acc) (it_existing acc)),
       put_item nid (item_list ids src) p src (drawn (S n) 0 d))
    /\ (if kept src then nid = xi_id src /\ n = 0 else nid = nth_id (d_minted d) /\ n = 1).
Proof.
  intros Hb Hh. unfold import_item, blank in *. rewrite decide_False by done. fold (kept src).
  set (nid := if kept src then xi_id src else nth_id (d_minted d)). set (n := if kept src then 0 else 1).
  exists nid, n. split; [|unfold nid, n; by destruct (kept src)]. cbn zeta.
  erewrite M_bind_eq; [|reflexivity]. cbn beta. rewrite Hh.
  assert (Hid : (if kept src then mret (xi_id src) else new_id) d = (Ok nid, drawn n 0 d)).
  { unfold nid, n. destruct (kept src); [by rewrite drawn_0|]. unfold new_id, drawn, with_minted, with_ticks. cbn.
    by rewrite Nat.add_0_r, Nat.add_1_r. }
  rewrite (M_bind_eq _ _ _ _ _ Hid).
  assert (Hp : new_id (drawn n 0 d) = (Ok (nth_id (d_minted d + n)), drawn (S n) 0 d)).
  { unfold new_id, drawn, with_minted, with_ticks. cbn. by rewrite Nat.add_succ_r. }
  rewrite (M_bind_eq _ _ _ _ _ Hp). fold (imported_state src). erewrite M_bind_eq; [|apply write_item_ok].
  erewrite M_bind_eq; [|apply root_push_ok]. reflexivity.
Qed.
End loops.

(** ** What an import adds leaves the order of the rest *)

Lemma projection_kept (meta meta' : gmap string ItemMeta) l (raw new : list (option OrderEntry)) :
  (forall id, is_Some (meta !! id) -> meta' !! id = meta !! id) ->
  (forall e, Some e ∈ new -> meta !! entry_item_id e = None) ->
  base.filter (fun id => is_Some (meta !! id)) (open_projection meta' l (raw ++ new)) = open_projection meta l raw.
Proof.
  intros Hsame Hnew.
  assert (Hcanon : base.filter (fun id => is_Some (meta !! id)) (omap (canon_open meta' l) (raw ++ new)) = omap (canon_open meta l) raw).
  { rewrite omap_app, filter_app.
    assert (Hn : base.filter (fun id => is_Some (meta !! id)) (omap (canon_open meta' l) new) = []).
    { apply elem_of_nil_inv. intros id [[? Hm] (e & He & (m & _ & _ & _ & ->)%canon_open_Some)%list_elem_of_omap]%list_elem_of_filter.
      apply Hnew in He. cbn in He. congruence. }
    rewrite Hn, app_nil_r. clear Hn Hnew. induction raw as [|e raw IH]; [done|]. cbn [omap list_omap].
    assert (He : forall id, canon_open meta l e = Some id <-> is_Some (meta !! id) /\ canon_open meta' l e = Some id).
    { intros id. rewrite !canon_open_Some. split.
      - intros (m & Em & ?). split; [by eexists|]. exists m. rewrite Hsame by (by eexists). done.
      - intros ([m Em] & m' & Em' & ?). rewrite Hsame in Em' by (by eexists). by exists m'. }
    destruct (canon_open meta' l e) as [j|] eqn:E'.
    - rewrite filter_cons. case_decide as Hj.
      + destruct (canon_open meta l e) as [k|] eqn:E; [|by pose proof (proj2 (He j) (conj Hj eq_refl))].
        destruct (proj1 (He k) eq_refl) as [_ [= ->]]. by rewrite IH.
      + destruct (canon_open meta l e) as [k|] eqn:E; [|exact IH]. destruct (proj1 (He k) eq_refl) as [Hk [= ->]]. done.
    - destruct (canon_open meta l e) as [k|] eqn:E; [|exact IH]. by destruct (proj1 (He k) eq_refl) as [_ ?]. }
  unfold open_projection. rewrite filter_app. f_equal.
  - rewrite !open_visible_alt, filter_dedup. by rewrite Hcanon.
  - unfold tail_of. rewrite sort_by_created_filter.
    rewrite (sort_by_created_ext meta' meta).
    2: { intros id [Hid _]%list_elem_of_filter. by rewrite Hsame. }
    apply sort_by_created_Permutation_eq, NoDup_Permutation; [apply NoDup_filter, NoDup_elements|apply NoDup_elements|].
    intros id. rewrite list_elem_of_filter, !elem_of_elements, !elem_of_filter, !elem_of_list_to_set, !elem_of_open_ids, !elem_of_visible.
    unfold located_open. split.
    + intros ([m Em] & Hv & m' & Em' & ?). rewrite Hsame in Em' by (by eexists). split; [|by exists m'].
      intros (m0 & E0 & Hl & Hin). apply Hv. exists m0. rewrite Hsame by (by eexists). split_and!; [done|done|].
      apply elem_of_app. by left.
    + intros (Hv & m & Em & ?). split; [by eexists|]. split; [|exists m; by rewrite Hsame by (by eexists)].
      intros (m0 & E0 & Hl & Hin). apply Hv. rewrite Hsame in E0 by (by eexists). exists m0. split_and!; [done|done|].
      apply elem_of_app in Hin as [Hin|Hin]; [done|]. apply Hnew in Hin. cbn in Hin. congruence.
Qed.

Section items_loop.
Context `{LoroOk, Host, HostOk0 : !HostOk, ScalarTextOk}.

Definition minted_in (d d' : Doc) (s : string) : Prop := exists j, d_minted d <= j < d_minted d' /\ s = nth_id j.
Definition made (file : list string) (d d' : Doc) (id : string) : Prop :=
  (is_well_formed_id id = true /\ id ∈ file) \/ minted_in d d' id.

(** What the loop over the items does to a document: new items and entries at
    the ends of the order containers; the items the index knows stay. *)
Record items_grown (file : list string) (d d' : Doc) : Prop := {
  ig_minted : d_minted d <= d_minted d';
  ig_lists : d_lists d' = d_lists d;
  ig_settings : d_settings d' = d_settings d;
  ig_focus : d_focus d' = d_focus d;
  ig_index : d_index d' = d_index d;
  ig_events : d_events d' = d_events d;
  ig_kept id m : is_Some (ix_meta (d_index d) !! id) -> item_map_of (d_items d) id = Some m ->
    item_map_of (d_items d') id = Some m;
  ig_dom id : is_Some (item_map_of (d_items d) id) -> is_Some (item_map_of (d_items d') id);
  ig_new id s : d_items d' !! id = Some s ->
    d_items d !! id = Some s \/ (made file d d' id /\ exists l p src, s = MapC (fresh_item id l p src));
  ig_orders l : exists es, order_list l d' = order_list l d ++ (entry_slot <$> es)
    /\ Forall (fun e => ix_meta (d_index d) !! entry_item_id e = None
                 /\ made file d d' (entry_item_id e) /\ minted_in d d' (entry_placement_id e)) es;
}.

Lemma minted_in_weaken d0 d d' d1 s : d_minted d0 <= d_minted d -> d_minted d' <= d_minted d1 ->
  minted_in d d' s -> minted_in d0 d1 s.
Proof. intros Ha Hb (j & Hj & ->). exists j. split; [lia|done]. Qed.
Lemma made_weaken file d0 d d' d1 s : d_minted d0 <= d_minted d -> d_minted d' <= d_minted d1 ->
  made file d d' s -> made file d0 d1 s.
Proof. intros Ha Hb [?|?]; [by left|right]. by eapply minted_in_weaken. Qed.

Lemma items_grown_refl file d : items_grown file d d.
Proof. split; try done; [by left|]. intros l. exists []. by rewrite app_nil_r. Qed.

Lemma items_grown_trans file d d' d'' : items_grown file d d' -> items_grown file d' d'' -> items_grown file d d''.
Proof.
  intros [A1 A2 A3 A4 A5 A6 A7 A8 A9 A10] [B1 B2 B3 B4 B5 B6 B7 B8 B9 B10]. split; try congruence.
  - lia.
  - intros id m Hi Hm. apply B7; [by rewrite A5|]. by apply A7.
  - intros id Hi. by apply B8, A8.
  - intros id s Hs. destruct (B9 _ _ Hs) as [Hs'|[Hm Hf]]; [|right; split; [eapply made_weaken; [| |exact Hm]; lia|done]].
    destruct (A9 _ _ Hs') as [?|[Hm Hf]]; [by left|right; split; [eapply made_weaken; [| |exact Hm]; lia|done]].
  - intros l. destruct (A10 l) as (es & Ea & Fa), (B10 l) as (es' & Eb & Fb). exists (es ++ es').
    rewrite Eb, Ea, fmap_app, app_assoc. split; [done|]. apply Forall_app. split.
    + eapply Forall_impl; [exact Fa|]. intros e (Hix & H1' & H2'). split_and!; [done|eapply made_weaken|eapply minted_in_weaken]; [| |exact H1'| | |exact H2']; lia.
    + eapply Forall_impl; [exact Fb|]. intros e (Hix & H1' & H2'). rewrite A5 in Hix. split_and!; [done|eapply made_weaken|eapply minted_in_weaken]; [| |exact H1'| | |exact H2']; lia.
Qed.

(** The ids still to be minted name no item of the index. *)
Definition index_unminted (d : Doc) : Prop := forall i, d_minted d <= i -> ix_meta (d_index d) !! nth_id i = None.

(** Every item of the index is in the document. *)
Definition index_backed (d : Doc) : Prop :=
  forall id, is_Some (ix_meta (d_index d) !! id) -> is_Some (item_map_of (d_items d) id).

Lemma put_item_grown file d nid n l src :
  index_unminted d -> index_backed d ->
  (if kept src then nid = xi_id src /\ n = 0 else nid = nth_id (d_minted d) /\ n = 1) ->
  kept src && is_ok (find_item d (xi_id src)) = false -> xi_id src ∈ file ->
  items_grown file d (put_item nid l (nth_id (d_minted d + n)) src (drawn (S n) 0 d)).
Proof.
  intros Hun Hback Hid Hh Hin. assert (Hnew : ix_meta (d_index d) !! nid = None).
  { destruct (kept src); destruct Hid as [-> ->]; [|by apply Hun]. cbn [andb] in Hh. unfold find_item in Hh.
    destruct (ix_meta (d_index d) !! xi_id src) eqn:E; [|done]. destruct (Hback (xi_id src)) as [m Hm]; [by eexists|].
    by rewrite Hm in Hh. }
  assert (Hmade : forall d', d_minted d' = d_minted d + S n -> made file d d' nid).
  { intros d' Hd'. unfold kept in *. destruct (is_well_formed_id (xi_id src)) eqn:Ew.
    - destruct Hid as [-> _]. by left.
    - destruct Hid as [-> ->]. right. exists (d_minted d). split; [lia|done]. }
  set (d' := put_item nid l (nth_id (d_minted d + n)) src (drawn (S n) 0 d)).
  assert (Em : d_minted d' = d_minted d + S n) by done.
  assert (Ei : d_items d' = <[nid := MapC (fresh_item nid l (nth_id (d_minted d + n)) src)]> (d_items d)) by done.
  split; try done.
  - lia.
  - intros id m Hidx Hm. rewrite Ei. unfold item_map_of. rewrite lookup_insert_ne; [done|]. intros <-.
    rewrite Hnew in Hidx. by destruct Hidx.
  - intros id Hi. rewrite Ei. unfold item_map_of. destruct (decide (nid = id)) as [<-|Hne];
      [rewrite lookup_insert_eq; by eexists|by rewrite lookup_insert_ne].
  - intros id s. rewrite Ei. destruct (decide (nid = id)) as [<-|Hne]; [|rewrite lookup_insert_ne by done; by left].
    rewrite lookup_insert_eq. intros [= <-]. right. split; [by apply Hmade|]. by do 3 eexists.
  - intros j. unfold d', put_item. rewrite order_list_set. case_decide as Hj.
    + subst j. exists [mkEntry nid (nth_id (d_minted d + n))]. split; [done|]. constructor; [|done]. split_and!; [done|by apply Hmade|].
      exists (d_minted d + n). split; [cbn; lia|done].
    + exists []. rewrite app_nil_r. by split.
Qed.

(** An item row that is blank or in the document. *)
Definition item_settled (d : Doc) (src : ExportItem) : Prop :=
  blank src \/ (kept src = true /\ is_Some (item_map_of (d_items d) (xi_id src))).

Lemma import_items_run ids file srcs : forall acc d, index_unminted d -> index_backed d -> (xi_id <$> srcs) ⊆ file -> exists acc' d',
  mfold (import_item ids) acc srcs d = (Ok acc', d') /\ items_grown file d d'
  /\ it_added acc' + it_skipped acc' + it_existing acc' = it_added acc + it_skipped acc + it_existing acc + length srcs
  /\ forall src, src ∈ srcs -> kept src = true -> item_settled d' src.
Proof.
  induction srcs as [|src srcs IH]; intros acc d Hun Hback Hin.
  - exists acc, d. split_and!; [done|apply items_grown_refl|cbn; lia|by intros ? ?%not_elem_of_nil].
  - cbn [mfold]. assert (Hrec : (xi_id <$> srcs) ⊆ file) by (cbn in Hin; set_solver).
    destruct (decide (blank src \/ (kept src = true /\ is_ok (find_item d (xi_id src)) = true))) as [Hs|Hs].
    + rewrite (M_bind_eq _ _ _ _ _ (import_item_skip ids acc src d Hs)).
      edestruct (IH (mkItems (it_ids acc) (it_added acc) (it_skipped acc + if decide (blank src) then 1 else 0)
        (it_existing acc + if decide (blank src) then 0 else 1)) d Hun Hback Hrec) as (acc' & d' & E & Hg & Hc & Hset).
      exists acc', d'. split_and!; [done|done| |].
      * rewrite Hc. cbn [it_added it_skipped it_existing length]. case_decide; lia.
      * intros src' [->|Hin']%elem_of_cons Hk; [|by apply Hset]. destruct Hs as [?|[_ Hf]]; [by left|right].
        split; [done|]. apply (ig_dom _ _ _ Hg). unfold find_item in Hf.
        destruct (ix_meta (d_index d) !! xi_id src); [|done]. by destruct (item_map_of (d_items d) (xi_id src)).
    + assert (Hb : ~ blank src) by tauto.
      assert (Hh : kept src && is_ok (find_item d (xi_id src)) = false).
      { destruct (_ && _) eqn:Eh; [|done]. apply andb_true_iff in Eh. tauto. }
      destruct (import_item_new ids acc src d Hb Hh) as (nid & n & E & Hid). cbn zeta in E. rewrite (M_bind_eq _ _ _ _ _ E).
      assert (Hg1 := put_item_grown file d nid n (item_list ids src) src Hun Hback Hid Hh ltac:(cbn in Hin; set_solver)).
      set (d1 := put_item _ _ _ _ _) in *. set (acc1 := mkItems _ _ _ _).
      destruct (IH acc1 d1) as (acc' & d' & E' & Hg & Hc & Hset); [| |done|].
      { intros i Hi. rewrite (ig_index _ _ _ Hg1). apply Hun. pose proof (ig_minted _ _ _ Hg1). lia. }
      { intros id. rewrite (ig_index _ _ _ Hg1). intros Hid'%Hback. by apply (ig_dom _ _ _ Hg1). }
      exists acc', d'. split_and!; [done|by eapply items_grown_trans|rewrite Hc; unfold acc1; cbn; lia|].
      intros src' [->|Hin']%elem_of_cons Hk; [|by apply Hset]. right. split; [done|]. apply (ig_dom _ _ _ Hg).
      rewrite Hk in Hid. destruct Hid as [-> _]. unfold d1, item_map_of. cbn. rewrite lookup_insert_eq. by eexists.
Qed.
End items_loop.

(** ** The Focus refs, the events, and the whole import *)

Section whole.
Context `{LoroOk, Host, HostOk0 : !HostOk, ScalarTextOk}.

Definition ref_slot (id : string) : slot := str_slot (ref_encode (ref_local id)).

Lemma import_refs_run ids raws : forall acc d, exists rs,
  mfold (import_ref ids) acc raws d
  = (Ok (list_to_set rs ∪ acc.1, acc.2 + length rs), with_focus (fun f => f ++ (ref_slot <$> rs)) d)
  /\ NoDup rs /\ Forall (fun r => (r ∉ acc.1) /\ (exists k, ids !! k = Some (r, true))) rs.
Proof.
  induction raws as [|raw raws IH]; intros [seen k] d.
  - exists []. cbn. rewrite Nat.add_0_r, union_empty_l_L. unfold with_focus. rewrite app_nil_r.
    split_and!; [by destruct d|constructor|constructor].
  - cbn [mfold]. assert (Hskip : forall acc', import_ref ids (seen, k) raw d = (Ok acc', d) -> acc' = (seen, k) ->
      exists rs, (import_ref ids (seen, k) raw ≫= (fun s => mfold (import_ref ids) s raws)) d
      = (Ok (list_to_set rs ∪ seen, k + length rs), with_focus (fun f => f ++ (ref_slot <$> rs)) d)
      /\ NoDup rs /\ Forall (fun r => (r ∉ seen) /\ (exists k, ids !! k = Some (r, true))) rs).
    { intros acc' E ->. rewrite (M_bind_eq _ _ _ _ _ E). apply (IH (seen, k)). }
    unfold import_ref in *. destruct (ref_parse raw) as [r|]; [|by eapply Hskip].
    destruct (negb (ref_is_local r)); [by eapply Hskip|].
    destruct (ids !! ref_item_id r) as [[nid []]|] eqn:Er; [|by eapply Hskip..]. cbn [fst snd] in *.
    case_decide as Hin; [by eapply Hskip|]. clear Hskip.
    erewrite M_bind_eq.
    2: { erewrite M_bind_eq; [|apply root_push_ok]. reflexivity. }
    destruct (IH ({[nid]} ∪ seen, S k) (root_set RFocus (root_get RFocus d ++ [ref_slot nid]) d)) as (rs & E & Hn & Hf).
    exists (nid :: rs). cbn [fst snd] in *. split_and!.
    + etrans; [exact E|]. cbn [list_to_set foldr length fmap list_fmap]. unfold with_focus. cbn.
      rewrite <- app_assoc. f_equal. f_equal. f_equal; [set_solver|lia].
    + constructor; [|done]. intros Hr. rewrite Forall_forall in Hf. apply Hf in Hr as [Hr _]. set_solver.
    + constructor; [split; [done|by exists (ref_item_id r)]|]. eapply Forall_impl; [exact Hf|]. set_solver.
Qed.

(** Everything but the events, the commits and the notes shadows. *)
Definition same_data (d d' : Doc) : Prop :=
  d_items d' = d_items d /\ d_lists d' = d_lists d /\ d_settings d' = d_settings d /\ d_orders d' = d_orders d
  /\ d_focus d' = d_focus d /\ d_index d' = d_index d /\ d_minted d' = d_minted d.

Lemma same_data_trans d d' d'' : same_data d d' -> same_data d' d'' -> same_data d d''.
Proof. unfold same_data. intuition congruence. Qed.

Lemma mfor_same {A} (f : A -> M unit) l : (forall a d, exists d', f a d = (Ok tt, d') /\ same_data d d') ->
  forall d, exists d', mfor l f d = (Ok tt, d') /\ same_data d d'.
Proof.
  intros Hf. induction l as [|a l IH]; intros d; [by exists d|]. cbn [mfor]. destruct (Hf a d) as (d1 & E & H1').
  rewrite (M_bind_eq _ _ _ _ _ E). destruct (IH d1) as (d2 & E' & H2'). exists d2. split; [done|by eapply same_data_trans].
Qed.

Lemma emit_notes_delta_same id deltas post d : exists d', emit_notes_delta id deltas post d = (Ok tt, d') /\ same_data d d'.
Proof.
  unfold emit_notes_delta. erewrite M_bind_eq; [|reflexivity]. destruct (d_shadows d !! id); [|by exists d].
  erewrite M_bind_eq; [|reflexivity]. case_decide; eexists; (split; [reflexivity|done]).
Qed.

Lemma emit_state_diff_same items lists settings d : exists d', emit_state_diff items lists settings d = (Ok tt, d') /\ same_data d d'.
Proof.
  unfold emit_state_diff. do 3 (erewrite M_bind_eq; [|reflexivity]). cbn zeta beta.
  set (evs := _ ++ _ ++ _). destruct (mfor_same (fun ev => match ev with
    | ItemNotesChanged id notes => emit_notes_delta id [] (chars notes) | _ => mret tt end) evs) with (d := d) as (d1 & E1 & H1').
  { intros ev d1. destruct ev; try (by exists d1). apply emit_notes_delta_same. }
  unfold emit_notes_deltas_for. rewrite (M_bind_eq _ _ _ _ _ E1).
  destruct (mfor_same push_event evs) with (d := d1) as (d2 & E2 & H2').
  { intros ev d2. eexists. split; [reflexivity|done]. }
  exists d2. split; [done|by eapply same_data_trans].
Qed.

(** The import as its three loops and the index rebuilt. *)
Lemma import_json_loops ex d lists items focus d1 d2 d3 :
  x_version ex = 1%N ->
  mfold import_list lists_start (x_lists ex) d = (Ok lists, d1) ->
  mfold (import_item (la_ids lists)) (mkItems ∅ 0 0 0) (x_items ex) d1 = (Ok items, d2) ->
  mfold (import_ref (it_ids items)) (focus_seen d2, 0) (x_focus ex) d2 = (Ok focus, d3) ->
  exists d', import_json ex d
    = (Ok (mkSummary (la_added lists) (it_added items) (it_skipped items) focus.2 (la_existing lists) (it_existing items)), d')
    /\ same_data (rebuild_index d3) d'.
Proof.
  intros Hv E1 E2 E3. unfold import_json. rewrite Hv, decide_False by (intros Hn; by apply Hn).
  do 3 (erewrite M_bind_eq; [|reflexivity]). rewrite (M_bind_eq _ _ _ _ _ E1), (M_bind_eq _ _ _ _ _ E2).
  erewrite M_bind_eq; [|reflexivity]. rewrite (M_bind_eq _ _ _ _ _ E3).
  do 2 (erewrite M_bind_eq; [|reflexivity]).
  destruct (emit_state_diff_same (iter_items d) (all_lists d) (get_settings d)
    (rebuild_index (with_commits (fun c => c ++ [None]) d3))) as (d4 & E4 & H4').
  rewrite (M_bind_eq _ _ _ _ _ E4). exists (if decide (0 < focus.2) then with_events (fun q => q ++ [FocusChanged]) d4 else d4).
  split.
  - erewrite M_bind_eq; [reflexivity|]. by case_decide.
  - case_decide; exact H4'.
Qed.

Lemma lists_start_plain : ids_plain lists_start.
Proof.
  intros k v. unfold lists_start. cbn [la_ids].
  intros [[_ <-]|[_ [_ <-]%lookup_singleton_Some]]%lookup_insert_Some; done.
Qed.

Lemma entry_slot_scalar e : plain (entry_item_id e) -> scalar_entry (entry_slot e) = Some e.
Proof. intros [Hc Hne]. destruct e as [i p]. exact (entry_roundtrip i p Hc Hne). Qed.

Lemma made_plain file d d' id : made file d d' id -> plain id.
Proof. intros [[Hw _]|(j & _ & ->)]; [by apply well_formed_plain|apply nth_id_plain]. Qed.

(** The file names no id the host is still to mint. *)
Definition unminted (ex : JsonExport) (d : Doc) : Prop := forall i, d_minted d <= i -> nth_id i ∉ xi_id <$> x_items ex.

Lemma index_ok_metas d : doc_ok d -> index_unminted d /\ index_backed d.
Proof.
  intros [[_ Hm _] Hu _]. split.
  - intros i Hi. rewrite Hm, lookup_doc_metas. by rewrite (proj1 (Hu i Hi)).
  - intros id. rewrite Hm, doc_metas_item. by rewrite fmap_is_Some.
Qed.

(** New items and rows leave the document well formed once its index is
    rebuilt. *)
Lemma grown_ok file d d' d'' rows : doc_ok d -> (forall i, d_minted d' <= i -> nth_id i ∉ file) ->
  d_minted d <= d_minted d' -> d_items d' = d_items d -> d_orders d' = d_orders d ->
  d_lists d' = d_lists d ++ (MapC <$> rows) -> Forall row_plain rows ->
  items_grown file d' d'' -> doc_ok (rebuild_index d'').
Proof.
  intros Hok Hfile Hm Ei Eo El Hrows Hg. assert (Hraw : forall l, raw_order d' l = raw_order d l).
  { intros l. unfold raw_order, order_list. cbn. by rewrite Eo. }
  pose proof (ig_minted _ _ _ Hg) as Hm'. destruct Hok as [_ Hu [Hn1 Hn2]].
  assert (Hmade : forall i s, d_minted d'' <= i -> made file d' d'' s -> s <> nth_id i).
  { intros i s Hi [[_ Hin]|(j & Hj & ->)] E; [apply (Hfile i); [lia|by rewrite <- E]|]. apply nth_id_inj in E. lia. }
  split; [apply rebuild_ok| |].
  - intros i Hi. cbn [rebuild_index with_index d_minted] in Hi. destruct (Hu i ltac:(lia)) as [Hu1 Hu2]. split.
    + destruct (d_items d'' !! nth_id i) as [s|] eqn:Es; [|done]. exfalso.
      apply (ig_new _ _ _ Hg) in Es as [Es|[Hmd _]]; [rewrite Ei in Es; congruence|by apply (Hmade i _ Hi Hmd)].
    + intros l e He. destruct (ig_orders _ _ _ Hg l) as (es & Eo' & Hes).
      unfold raw_order in He. change (order_list l (rebuild_index d'')) with (order_list l d'') in He. rewrite Eo' in He.
      rewrite fmap_app in He. apply elem_of_app in He as [He|He].
      * apply Hu2 with (l := l). by rewrite <- Hraw.
      * rewrite <- list_fmap_compose in He. apply list_elem_of_fmap in He as (e' & He & Hin).
        rewrite Forall_forall in Hes. destruct (Hes _ Hin) as (_ & Hmd & Hp). change (Some e = scalar_entry (entry_slot e')) in He.
        rewrite entry_slot_scalar in He by (by eapply made_plain). injection He as ->.
        split; [by apply Hmade|]. apply (Hmade i _ Hi). by right.
  - split.
    + intros id s Hs. apply (ig_new _ _ _ Hg) in Hs as [Hs|[Hs _]]; [rewrite Ei in Hs; by eapply Hn1|by eapply made_plain].
    + intros i m l Hi Hid. cbn [rebuild_index with_index d_lists] in Hi. rewrite (ig_lists _ _ _ Hg), El in Hi.
      unfold list_map_at in Hi. destruct ((d_lists d ++ (MapC <$> rows)) !! i) as [[m'| |]|] eqn:E; try done. injection Hi as ->.
      apply lookup_app_Some in E as [E|[_ E]].
      * eapply (Hn2 i); [|exact Hid]. unfold list_map_at. by rewrite E.
      * rewrite list_lookup_fmap in E. destruct (rows !! (i - length (d_lists d))) as [r|] eqn:Er; [|done]. injection E as ->.
        rewrite Forall_forall in Hrows. apply (Hrows m); [by eapply list_elem_of_lookup_2|done].
Qed.
(** ** The second time *)

(** An item row that the loop passes over. *)
Definition item_found (d : Doc) (src : ExportItem) : Prop :=
  blank src \/ (kept src = true /\ is_ok (find_item d (xi_id src)) = true).

Lemma import_items_found ids srcs d : forall acc, Forall (item_found d) srcs ->
  mfold (import_item ids) acc srcs d
  = (Ok (mkItems (it_ids acc) (it_added acc) (it_skipped acc + length (base.filter blank srcs))
           (it_existing acc + length (base.filter (fun src => ~ blank src) srcs))), d).
Proof.
  induction srcs as [|src srcs IH]; intros acc Hs; [cbn; rewrite !Nat.add_0_r; by destruct acc|].
  inversion Hs; subst. cbn [mfold]. rewrite (M_bind_eq _ _ _ _ _ (import_item_skip ids acc src d ltac:(done))), IH by done.
  cbn [it_ids it_added it_skipped it_existing]. rewrite !filter_cons. do 3 f_equal; repeat case_decide; cbn [length]; try done; lia.
Qed.

(** The index is the containers'. *)
Lemma compute_index_same d d' : d_items d = d_items d' -> d_lists d = d_lists d' -> d_orders d = d_orders d' ->
  compute_index d = compute_index d'.
Proof. intros E1 E2 E3. destruct d, d'. cbn in E1, E2, E3. subst. reflexivity. Qed.

Lemma rebuilt_is_fixed d d' : same_data (rebuild_index d) d' ->
  rebuild_index (with_commits (fun c => c ++ [None]) d') = with_commits (fun c => c ++ [None]) d'.
Proof.
  intros (S1 & S2 & S3 & S4 & S5 & S6 & S7). unfold rebuild_index at 1.
  rewrite (compute_index_same _ d) by done. change (compute_index d) with (d_index (rebuild_index d)). rewrite <- S6.
  by destruct d'.
Qed.

(** Nothing changed, nothing emitted. *)
Lemma emit_state_diff_nothing d c : index_wf (d_index d) -> self_named d ->
  emit_state_diff (iter_items d) (all_lists d) (get_settings d) (with_commits c d) = (Ok tt, with_commits c d).
Proof.
  intros Hwf Hs. unfold emit_state_diff. do 3 (erewrite M_bind_eq; [|reflexivity]). cbn beta zeta.
  change (iter_items (with_commits c d)) with (iter_items d). change (all_lists (with_commits c d)) with (all_lists d).
  change (get_settings (with_commits c d)) with (get_settings d).
  by rewrite diff_settings_same, (diff_lists_same _ (NoDup_all_lists d)), (diff_items_same _ (NoDup_iter_items d Hwf Hs)).
Qed.

Lemma fresh_item_id id l p src : read_string (fresh_item id l p src) KEY_ID = Some id.
Proof. unfold read_string, fresh_item. by rewrite !lookup_opt_put, !lookup_insert. Qed.

Lemma grown_self_named file d d' : items_grown file d d' -> self_named d -> self_named d'.
Proof.
  intros Hg Hs id m Hm. unfold item_map_of in Hm. destruct (d_items d' !! id) as [s|] eqn:Es; [|done].
  destruct s as [m'| |]; try done. injection Hm as ->.
  apply (ig_new _ _ _ Hg) in Es as [Es|[_ (l & p & src & [= ->])]]; [|apply fresh_item_id].
  apply Hs. unfold item_map_of. by rewrite Es.
Qed.

Lemma import_refs_nothing raws acc d : mfold (import_ref ∅) acc raws d = (Ok acc, d).
Proof.
  destruct (import_refs_run ∅ raws acc d) as (rs & E & _ & Hrs). destruct rs as [|r rs].
  - rewrite E. destruct acc, d. unfold with_focus. cbn. by rewrite app_nil_r, Nat.add_0_r, union_empty_l_L.
  - inversion Hrs as [|? ? [_ [k Hk]] _]; subst. by rewrite lookup_empty in Hk.
Qed.
End whole.

Section theorems.
Context `{LoroOk, Host, HostOk0 : !HostOk, ScalarTextOk}.


(** C25: Importing a file whose rows all have well-formed ids, then importing it
    again: the second import finds every row there, adds nothing, and changes
    nothing of the document and tells no listener anything; only an empty
    commit is left. *)
Theorem import_json_idempotent ex d :
  doc_ok d -> self_named d -> x_version ex = 1%N ->
  (forall src, src ∈ x_lists ex -> named_list src -> is_well_formed_id (xl_id src) = true) ->
  (forall src, src ∈ x_items ex -> blank src \/ kept src = true) ->
  exists sum d', import_json ex d = (Ok sum, d')
  /\ import_json ex d'
     = (Ok (mkSummary 0 0 (length (base.filter blank (x_items ex))) 0 (length (base.filter named_list (x_lists ex)))
              (length (base.filter (fun src => ~ blank src) (x_items ex)))),
        with_commits (fun c => c ++ [None]) d').
Proof.
  intros Hok Hself Hv Hlists Hitems. destruct (index_ok_metas d Hok) as [Hiu Hib].
  destruct (import_lists_run (x_lists ex) lists_start d lists_start_plain) as (lists & rows & n & t & E1 & _ & _ & _ & Hfound).
  set (d1 := listed rows n t d) in *. set (file := xi_id <$> x_items ex).
  destruct (import_items_run (la_ids lists) file (x_items ex) (mkItems ∅ 0 0 0) d1) as (items & d2 & E2 & Hg & _ & Hset);
    [intros i Hi; apply Hiu; unfold d1, listed, drawn in Hi; cbn in Hi; lia|done|done|].
  destruct (import_refs_run (it_ids items) (x_focus ex) (focus_seen d2, 0) d2) as (rs & E3 & _ & _).
  destruct (import_json_loops ex d lists items _ d1 d2 _ Hv E1 E2 E3) as (d' & E & S).
  set (d3 := with_focus (fun f => f ++ (ref_slot <$> rs)) d2) in *.
  eexists _, d'. split; [exact E|]. destruct (S) as (S1 & S2 & S3 & S4 & S5 & S6 & S7).
  change (d_items (rebuild_index d3)) with (d_items d2) in S1. change (d_lists (rebuild_index d3)) with (d_lists d2) in S2.
  pose proof (rebuild_ok d3) as [Hwf Hm _]. rewrite <- S6 in Hwf, Hm. change (d_items (rebuild_index d3)) with (d_items d2) in Hm.
  assert (Hself' : self_named d').
  { intros id m. rewrite S1. by apply (grown_self_named file d1 d2). }
  destruct (import_lists_settled (x_lists ex) lists_start d') as (ids & F1 & _); [|apply lists_start_plain|].
  { apply Forall_forall. intros src Hin. destruct (decide (named_list src)) as [Hn|Hn]; [right|by left].
    pose proof (Hlists _ Hin Hn) as Hw. split; [done|]. unfold find_list. rewrite S2, (ig_lists _ _ _ Hg). by apply Hfound. }
  assert (F2 : Forall (item_found d') (x_items ex)).
  { apply Forall_forall. intros src Hin. destruct (Hitems _ Hin) as [Hb|Hk]; [by left|].
    destruct (Hset _ Hin Hk) as [Hb|[_ [m Hi]]]; [by left|right]. split; [done|]. unfold find_item.
    rewrite Hm, doc_metas_item, S1, Hi. by destruct (item_map_of _ _). }
  unfold import_json. rewrite Hv, decide_False by (intros Hx; by apply Hx).
  do 3 (erewrite M_bind_eq; [|reflexivity]). rewrite (M_bind_eq _ _ _ _ _ F1).
  rewrite (M_bind_eq _ _ _ _ _ (import_items_found ids _ d' _ F2)). erewrite M_bind_eq; [|reflexivity].
  rewrite (M_bind_eq _ _ _ _ _ (import_refs_nothing _ _ _)). do 2 (erewrite M_bind_eq; [|reflexivity]).
  rewrite (rebuilt_is_fixed d3 d' S).
  rewrite (M_bind_eq _ _ _ _ _ (emit_state_diff_nothing d' _ Hwf Hself')). reflexivity.
Qed.
End theorems.

(** ** Witnesses *)

#[local] Existing Instances value_loro value_loro_ok unary_host unary_host_ok.

#[export] Instance value_text : ScalarText := {| text_insert pos s text := Ok (take pos text ++ s ++ drop pos text) |}.
#[export] Instance value_text_ok : ScalarTextOk.
Proof. by split. Qed.

Definition plain_export_item (id text list_id state notes : string) : ExportItem :=
  mkXItem id text notes list_id (mkXLife state 5) (Some "2026-02-30") (Some "2026-03-01") None None 5 None None None None.

Definition id_work := "00000000000000000000000000000001".
Definition id_milk := "00000000000000000000000000000002".

(** A list, an item of it with a well-formed id, one with a foreign id, a blank
    one, and a Focus naming the first two, the first twice. *)
Definition sample_export : JsonExport :=
  mkExport 1 (mkXSettings true None)
    [builtin_row LIST_INBOX INBOX_NAME; mkXList id_work " Work " (Some " ") (Some "cards") None (Some 3%Z) false]
    [plain_export_item id_milk " tea " id_work "backlog" "note"; plain_export_item "x9" "rice" "nowhere" "odd" "";
     plain_export_item "x8" "  " id_work "backlog" ""]
    [id_milk; "x9"; id_milk; "x8"].

Lemma sample_self_named : self_named sample_doc.
Proof.
  intros id m Hm. assert (Hid : id ∈ ["x1"; "x2"; "x3"]).
  { unfold item_map_of in Hm. destruct (d_items sample_doc !! id) as [s|] eqn:Es; [by eapply sample_items|done]. }
  rewrite !elem_of_cons, elem_of_nil in Hid.
  destruct Hid as [->|[->|[->|[]]]]; vm_compute in Hm; injection Hm as <-; reflexivity.
Qed.

Lemma sample_unminted : unminted sample_export sample_doc.
Proof.
  intros i _ Hi. cbn in Hi. rewrite !elem_of_cons, elem_of_nil in Hi.
  destruct Hi as [Hi|[Hi|[Hi|[]]]]; by destruct i.
Qed.


(** The rows of the sample with well-formed ids. *)
Definition sample_backup : JsonExport :=
  mkExport 1 (x_settings sample_export) (x_lists sample_export)
    [plain_export_item id_milk " tea " id_work "backlog" "note"; plain_export_item "x8" "  " id_work "backlog" ""] [id_milk].

Lemma import_json_idempotent_witness : exists d',
  import_json sample_backup sample_doc = (Ok (mkSummary 1 1 1 1 0 0), d')
  /\ import_json sample_backup d' = (Ok (mkSummary 0 0 1 0 1 1), with_commits (fun c => c ++ [None]) d').
Proof.
  destruct (import_json_idempotent sample_backup sample_doc sample_doc_ok sample_self_named eq_refl)
    as (sum & d' & E & E2).
  - intros src Hsrc Hn. cbn in Hsrc. rewrite !elem_of_cons, elem_of_nil in Hsrc.
    destruct Hsrc as [->|[->|[]]]; [by destruct Hn as (_ & ? & _)|vm_compute; reflexivity].
  - intros src Hsrc. cbn in Hsrc. rewrite !elem_of_cons, elem_of_nil in Hsrc.
    destruct Hsrc as [->|[->|[]]]; [right|left]; vm_compute; reflexivity.
  - exists d'. split; [|exact E2]. assert (Ef : (import_json sample_backup sample_doc).1 = Ok (mkSummary 1 1 1 1 0 0)) by (vm_compute; reflexivity).
    rewrite E in Ef |- *. by injection Ef as ->.
Defined.

(** An id named by two rows of one file is imported twice over: the index that
    says which items are there is rebuilt only at the end, so the second row
    overwrites the first and both are counted as added. *)
Example import_repeated_id_overwrites :
  let ex := mkExport 1 (mkXSettings true None) [] [plain_export_item id_milk "first" LIST_INBOX "backlog" "";
                                                   plain_export_item id_milk "second" LIST_INBOX "backlog" ""] [] in
  let r := import_json ex doc_empty in
  r.1 = Ok (mkSummary 0 2 0 0 0 0) /\ iv_text <$> iter_items r.2 = ["second"]
  /\ length (raw_order r.2 LIST_INBOX) = 2.
Proof. vm_compute. split_and!; reflexivity. Qed.
