(* ===== verification/PortFacts.v ===== *)
(** Export and import as a round trip: a document's export, imported into an
    empty one, gives back every list, every item, what each list shows in
    which order, and Focus. *)
From S2P Require Import Prelude.
From S2P Require Import Loro.
From S2P Require Import Lifecycle.
From S2P Require Import Registers.
From S2P Require Import Projection.
From S2P Require Import ProjectionFacts.
From S2P Require Import Notes.
From S2P Require Import Events.
From S2P Require Import DocCore.
From S2P Require Import DocFocus.
From S2P Require Import DocItems.
From S2P Require Import DocIndex.
From S2P Require Import IndexBuild.
From S2P Require Import DocLists.
From S2P Require Import Export.
From S2P Require Import IterFacts.
From S2P Require Import ExportFacts.

(** ** One item *)

(** What the program's own writes leave: a minted id, a trimmed text and notes,
    a valid date. Strings are UTF-8. *)
Record clean_item (v : ItemView) : Prop := {
  ci_id : is_well_formed_id (iv_id v) = true;
  ci_text : trim (iv_text v) = iv_text v /\ iv_text v <> "";
  ci_notes : trim (iv_notes v) = iv_notes v /\ of_chars (chars (iv_notes v)) = iv_notes v;
  ci_deadline s : iv_deadline v = Some s -> parse_deadline s = Ok s;
  ci_when s : iv_when v = Some s -> parse_when s = Ok s;
  ci_author s : iv_created_by v = Some s -> trim s = s;
}.

Lemma non_empty_Some o s : non_empty o = Some s -> s <> "".
Proof. unfold non_empty. destruct o; [|done]. case_decide; [done|]. by intros [= <-]. Qed.
Lemma non_empty_id o : (forall s, o = Some s -> s <> "") -> non_empty o = o.
Proof. destruct o as [s|]; [|done]. intros H. cbn. by rewrite decide_False by (by apply H). Qed.

Lemma place_value_roundtrip p : place_normalized p = Ok p -> place_from_loro_value (place_to_loro_value p) = Some p.
Proof.
  intros Hp. pose proof (place_normalized_paired p p Hp) as Hpair.
  destruct p as [label lat lon address reference]. cbn in Hpair.
  assert (Hl : is_Some lat <-> is_Some lon) by done.
  destruct lat, lon; try (by destruct Hl as [Hl1 Hl2]; (destruct (Hl1 ltac:(by eexists))) || (destruct (Hl2 ltac:(by eexists))));
    destruct address, reference;
    match goal with |- _ = Some ?p => transitivity (result_ok (place_normalized p)); [reflexivity|by rewrite Hp] end.
Qed.

Lemma read_place_normal m p : read_place m = Some p -> place_normalized p = Ok p.
Proof.
  unfold read_place, place_from_loro_value. repeat (case_match; try done). intros Hp.
  destruct (place_normalized _) as [q|] eqn:E in Hp; [|done]. injection Hp as ->. by apply place_normalized_idemp in E.
Qed.

Lemma read_duration_valid m n : read_duration m = Some n -> valid_duration (Some n) = Some n.
Proof. unfold read_duration, valid_duration. destruct (read_i64 m _); [|done]. destruct (_ && _) eqn:E; [|done]. intros [= ->]. by rewrite E. Qed.

Lemma lookup_opt_put_ne k j o m : k <> j -> opt_put k o m !! j = m !! j.
Proof. intros. by rewrite lookup_opt_put, decide_False. Qed.
Lemma lookup_opt_put_eq k o m : m !! k = None -> opt_put k o m !! k = o.
Proof. intros E. rewrite lookup_opt_put, decide_True by done. by destruct o. Qed.

(** A key of a map written key by key. *)
Ltac read_key :=
  repeat first [rewrite lookup_opt_put_ne by done | rewrite lookup_insert_ne by done];
  first [apply lookup_empty | apply lookup_insert_eq | apply lookup_opt_put_eq; read_key].

(** What holds of any item read from a map. *)
Lemma item_view_read m v : item_view m = Some v ->
  (forall s, iv_created_by v = Some s -> s <> "")
  /\ (forall n, iv_duration v = Some n -> valid_duration (Some n) = Some n)
  /\ (forall p, iv_place v = Some p -> place_normalized p = Ok p).
Proof.
  unfold item_view. destruct (read_string m KEY_ID), (read_string m KEY_TEXT), (read_i64 m KEY_CREATED_AT); try done.
  intros [= <-]. cbn. split_and!; intros x Hx; [by eapply non_empty_Some|by eapply read_duration_valid|by eapply read_place_normal].
Qed.

Lemma export_open v : imported_open (export_item v) = iv_is_open v.
Proof.
  unfold imported_open, imported_state, iv_is_open, iv_is_binned. cbn. rewrite parse_name_name. by destruct (iv_binned_at v).
Qed.

(** The keys of the map an imported item gets. *)
Record item_keys (m : lmap) (v : ItemView) (p : string) : Prop := {
  ik_id : m !! KEY_ID = Some (str (iv_id v));
  ik_text : m !! KEY_TEXT = Some (str (trim (iv_text v)));
  ik_location : m !! KEY_LOCATION = Some (str (location_encode (mkLocation (iv_list_id v) p)));
  ik_created : m !! KEY_CREATED_AT = Some (num (iv_created_at v));
  ik_author : m !! KEY_CREATED_BY = str <$> non_empty (trim <$> iv_created_by v);
  ik_lifecycle : m !! KEY_LIFECYCLE = imported_workflow (export_item v);
  ik_started : m !! KEY_STARTED_AT = num <$> iv_started_at v;
  ik_deadline : m !! KEY_DEADLINE = str <$> (iv_deadline v ≫= (fun d => result_ok (parse_deadline d)));
  ik_when : m !! KEY_WHEN = str <$> (iv_when v ≫= (fun d => result_ok (parse_when d)));
  ik_duration : m !! KEY_DURATION = num <$> valid_duration (iv_duration v);
  ik_place : m !! KEY_PLACE = (fun p => Val (place_to_loro_value p)) <$> (iv_place v ≫= (fun p => result_ok (place_normalized p)));
  ik_notes : m !! KEY_NOTES = imported_notes (export_item v);
  ik_done : m !! KEY_DONE_AT = num <$> iv_done_at v;
  ik_binned : m !! KEY_BINNED_AT = num <$> iv_binned_at v;
}.

Lemma fresh_item_keys v p : item_keys (fresh_item (iv_id v) (iv_list_id v) p (export_item v)) v p.
Proof. split; unfold fresh_item; read_key. Qed.

(** An item read from a map, exported and imported, reads the same. *)
Lemma fresh_item_view m v p : item_view m = Some v -> clean_item v -> plain (iv_list_id v) ->
  let m' := fresh_item (iv_id v) (iv_list_id v) p (export_item v) in
  item_view m' = Some v /\ map_location m' = mkLocation (iv_list_id v) p /\ map_is_open m' = iv_is_open v.
Proof.
  intros (V1 & V2 & V3)%item_view_read [C1 [C2 _] [C3 C4] C5 C6 C7] [Hc Hne] m'. set (l := iv_list_id v) in *.
  destruct (fresh_item_keys v p) as [Kid Ktext Kloc Kcre Kby Klife Ksta Kdl Kwhen Kdur Kpl Knot Kdone Kbin]. fold l m' in Kid, Ktext, Kloc, Kcre, Kby, Klife, Ksta, Kdl, Kwhen, Kdur, Kpl, Knot, Kdone, Kbin.
  assert (Rby : read_string m' KEY_CREATED_BY = iv_created_by v /\ non_empty (iv_created_by v) = iv_created_by v).
  { rewrite (non_empty_id _ V1). split; [|done]. unfold read_string. rewrite Kby.
    destruct (iv_created_by v) as [s|]; [|done]. cbn. rewrite C7 by done. rewrite decide_False by (by apply V1). done. }
  assert (Rdl : read_string m' KEY_DEADLINE = iv_deadline v).
  { unfold read_string. rewrite Kdl. destruct (iv_deadline v) as [s|]; [|done]. cbn. by rewrite C5. }
  assert (Rwhen : read_string m' KEY_WHEN = iv_when v).
  { unfold read_string. rewrite Kwhen. destruct (iv_when v) as [s|]; [|done]. cbn. by rewrite C6. }
  assert (Rdur : read_duration m' = iv_duration v).
  { unfold read_duration, read_i64. rewrite Kdur. destruct (iv_duration v) as [n|] eqn:En; [|done].
    pose proof (V2 n eq_refl) as Hn. rewrite Hn. cbn. unfold valid_duration in Hn. by destruct (_ && _). }
  assert (Rpl : read_place m' = iv_place v).
  { unfold read_place. rewrite Kpl. destruct (iv_place v) as [q|] eqn:Eq; [|done]. 
    pose proof (V3 q eq_refl) as Hq.
    cbn [mbind option_bind]. rewrite Hq. cbn [result_ok fmap option_fmap option_map]. by apply place_value_roundtrip. }
  assert (Rnot : default "" (read_text m' KEY_NOTES) = iv_notes v).
  { unfold read_text. rewrite Knot. unfold imported_notes. cbn [xi_notes export_item]. rewrite C3. cbn zeta.
    case_decide as En; cbn; [done|exact C4]. }
  assert (Rlife : workflow_of m' = (iv_state v, iv_lifecycle_at v)).
  { unfold workflow_of, read_workflow. rewrite Klife. unfold imported_workflow, imported_state. cbn [xi_lifecycle export_item xc_state xc_at].
    rewrite parse_name_name. cbn [default xi_created_at export_item]. unfold read_i64. rewrite Kcre. cbn [num].
    destruct (bool_decide (iv_state v = Backlog)) eqn:E1, (bool_decide (iv_lifecycle_at v = iv_created_at v)) eqn:E2; cbn [negb orb].
    - apply bool_decide_eq_true in E1, E2. rewrite E1, E2. done.
    - by destruct (iv_state v).
    - by destruct (iv_state v).
    - by destruct (iv_state v). }
  assert (Rloc : map_location m' = mkLocation l p).
  { unfold map_location, read_string. rewrite Kloc. cbn [str]. by rewrite location_roundtrip. }
  assert (Rbin : read_i64 m' KEY_BINNED_AT = iv_binned_at v) by (unfold read_i64; rewrite Kbin; by destruct (iv_binned_at v)).
  split_and!; [|done|].
  - unfold item_view. rewrite Rdl, Rwhen, Rdur, Rpl, Rnot, Rlife, Rloc, Rbin, (proj1 Rby), (proj2 Rby).
    unfold read_string, read_i64. rewrite Kid, Ktext, Kcre, Ksta, Kdone, C2. cbn [str num fst snd loc_list_id].
    rewrite !non_empty_id.
    + destruct v. cbn. destruct iv_started_at, iv_done_at; reflexivity.
    + intros s Es ->. by apply C6 in Es.
    + intros s Es ->. by apply C5 in Es.
  - unfold map_is_open. rewrite Rbin, Rlife. unfold iv_is_open, iv_is_binned. by destruct (iv_binned_at v).
Qed.

(** ** The lists *)

Record clean_list (v : ListView) : Prop := {
  cl_id : is_well_formed_id (lv_id v) = true;
  cl_name : trim (lv_name v) = lv_name v /\ lv_name v <> "";
  cl_icon s : lv_icon v = Some s -> trim s = s;
  cl_view w : lv_default_view v = Some w -> view_parse (view_encode w) = Some w;
}.

Definition list_row (v : ListView) : lmap := fresh_row (lv_id v) (lv_created_at v) (export_list v).

Lemma fresh_row_view m v : list_view m = Some v -> clean_list v -> list_view (list_row v) = Some v.
Proof.
  intros Hv [_ [C2 _] C3 C4]. assert (V1 : forall s, lv_icon v = Some s -> s <> "").
  { unfold list_view in Hv. destruct (read_string m KEY_ID), (read_string m KEY_NAME), (read_i64 m KEY_CREATED_AT); try done.
    injection Hv as <-. cbn. intros x. apply non_empty_Some. }
  set (m' := list_row v).
  assert (Kid : m' !! KEY_ID = Some (str (lv_id v))) by (unfold m', list_row, fresh_row; read_key).
  assert (Kname : m' !! KEY_NAME = Some (str (trim (lv_name v)))) by (unfold m', list_row, fresh_row; read_key).
  assert (Kcre : m' !! KEY_CREATED_AT = Some (num (lv_created_at v))) by (unfold m', list_row, fresh_row; read_key).
  assert (Kicon : m' !! KEY_ICON = str <$> non_empty (trim <$> lv_icon v)) by (unfold m', list_row, fresh_row; read_key).
  assert (Kview : m' !! KEY_VIEW = (fun v => str (view_encode v)) <$> ((view_encode <$> lv_default_view v) ≫= view_parse))
    by (unfold m', list_row, fresh_row; read_key).
  assert (Karch : m' !! KEY_ARCHIVED_AT = num <$> lv_archived_at v) by (unfold m', list_row, fresh_row; read_key).
  assert (Ricon : read_string m' KEY_ICON = lv_icon v).
  { unfold read_string. rewrite Kicon. destruct (lv_icon v) as [s|]; [|done]. cbn. rewrite C3 by done.
    by rewrite decide_False by (by apply V1). }
  assert (Rview : read_default_view m' KEY_VIEW = lv_default_view v).
  { unfold read_default_view, read_string. rewrite Kview. destruct (lv_default_view v) as [w|]; [|done].
    cbn. rewrite C4 by done. cbn. by rewrite C4. }
  unfold list_view. rewrite Ricon, Rview, (non_empty_id _ V1). unfold read_string, read_i64. rewrite Kid, Kname, Kcre, Karch, C2.
  cbn. destruct v. cbn. by destruct lv_archived_at.
Qed.

(** A document with rows of distinct ids shows them all. *)
Lemma all_lists_rows vs : forall seen, Forall (fun v => list_view (list_row v) = Some v) vs -> NoDup (lv_id <$> vs) ->
  (forall v, v ∈ vs -> lv_id v ∉ seen) -> all_lists_from (MapC <$> (list_row <$> vs)) seen = vs.
Proof.
  induction vs as [|v vs IH]; intros seen Hv Hn Hs; [done|]. inversion Hv as [|? ? Hv1 Hv2]; subst. cbn in *.
  apply NoDup_cons in Hn as [Hn1 Hn2]. rewrite Hv1, decide_False by (by apply Hs; left). f_equal. apply IH; try done.
  intros w Hw Hin%elem_of_union. destruct Hin as [Hin%elem_of_singleton|Hin].
  - apply Hn1. apply list_elem_of_fmap. eauto.
  - eapply Hs; [|exact Hin]. by right.
Qed.

Lemma find_list_row_other ls v id : forall i, is_ok (find_list_from ls i id) = false -> id <> lv_id v ->
  is_ok (find_list_from (ls ++ [MapC (list_row v)]) i id) = false.
Proof.
  assert (Hid : read_string (list_row v) KEY_ID = Some (lv_id v)).
  { unfold read_string. assert (K : list_row v !! KEY_ID = Some (str (lv_id v))) by (unfold list_row, fresh_row; read_key). by rewrite K. }
  intros i Hf Hne. revert i Hf. induction ls as [|s ls IH]; intros i Hf; cbn in *.
  - rewrite Hid, decide_False; [done|congruence].
  - destruct s as [m| |]; try by apply IH. case_decide; [done|]. by apply IH.
Qed.

Section lists.
Context `{LoroOk, Host, HostOk0 : !HostOk, ScalarTextOk}.

Lemma export_named v : clean_list v -> named_list (export_list v).
Proof.
  intros [C1 [C2 C3] _ _]. unfold named_list. cbn. rewrite C2. split_and!; try done; intros E; by rewrite E in C1.
Qed.

(** The rows of an export, imported where none of them is, are the rows. *)
Lemma import_lists_restore vs : forall acc d, Forall clean_list vs -> NoDup (lv_id <$> vs) ->
  (forall v, v ∈ vs -> is_ok (find_list d (lv_id v)) = false) ->
  exists acc', mfold import_list acc (export_list <$> vs) d = (Ok acc', listed (list_row <$> vs) 0 0 d)
  /\ la_added acc' = la_added acc + length vs /\ la_existing acc' = la_existing acc
  /\ forall k, la_ids acc' !! k = if decide (k ∈ lv_id <$> vs) then Some k else la_ids acc !! k.
Proof.
  induction vs as [|v vs IH]; intros acc d Hc Hn Hf.
  - exists acc. rewrite listed_nil. split_and!; [done|cbn; lia|done|]. intros k. by rewrite decide_False by apply not_elem_of_nil.
  - inversion Hc as [|? ? Hv Hc']; subst. cbn in Hn. apply NoDup_cons in Hn as [Hn1 Hn2]. cbn [fmap list_fmap mfold].
    pose proof (cl_id v Hv) as Hw. assert (Hh : is_well_formed_id (xl_id (export_list v)) && is_ok (find_list d (xl_id (export_list v))) = false).
    { cbn. rewrite (Hf v) by (by left). by rewrite andb_false_r. }
    destruct (import_list_new acc (export_list v) d (export_named v Hv) Hh) as (nid & created & n & t & E & Hid & Hcre).
    cbn [xl_id export_list] in Hid. rewrite Hw in Hid. subst nid. destruct (Hcre (lv_created_at v) eq_refl) as (-> & -> & Hn0).
    rewrite (Hn0 Hw) in E. rewrite (M_bind_eq _ _ _ _ _ E).
    change (with_row _ (drawn 0 0 d)) with (listed [list_row v] 0 0 d).
    destruct (IH (mkLists (note_id (lv_id v) (lv_id v) (la_ids acc)) (S (la_added acc)) (la_existing acc)) (listed [list_row v] 0 0 d)) as (acc' & E' & Ha & He & Hk); try done.
    { intros w Hw'. apply find_list_row_other; [apply Hf; by right|]. intros Ew. apply Hn1. rewrite <- Ew. apply list_elem_of_fmap. eauto. }
    exists acc'. cbn [xl_id export_list] in *. rewrite E', listed_listed. split_and!; [done|rewrite Ha; cbn; lia|done|]. intros k. rewrite Hk. cbn [la_ids].
    unfold note_id. destruct (well_formed_plain _ Hw) as [_ Hne]. rewrite (decide_False (P := lv_id v = "")) by done.
    destruct (decide (k ∈ lv_id <$> vs)) as [Hin|Hin].
    + by rewrite decide_True by (by right).
    + destruct (decide (k = lv_id v)) as [->|Hkv].
      * rewrite lookup_insert_eq, decide_True; [done|by left].
      * rewrite lookup_insert_ne by done. rewrite decide_False; [done|]. rewrite elem_of_cons. tauto.
Qed.
End lists.

(** ** The items *)

(** The entries of a list, in the order of the items, with their placements. *)
Definition entries_of (pl : string -> string) (l : string) (vs : list ItemView) : list (option OrderEntry) :=
  (fun v => Some (mkEntry (iv_id v) (pl (iv_id v)))) <$> base.filter (fun v => iv_list_id v = l) vs.

Record items_restored (vs : list ItemView) (pl : string -> string) (d d' : Doc) : Prop := {
  ir_item v : v ∈ vs -> item_map_of (d_items d') (iv_id v)
    = Some (fresh_item (iv_id v) (iv_list_id v) (pl (iv_id v)) (export_item v));
  ir_other id : id ∉ iv_id <$> vs -> d_items d' !! id = d_items d !! id;
  ir_order l : raw_order d' l = raw_order d l ++ entries_of pl l vs;
  ir_lists : d_lists d' = d_lists d;
  ir_focus : d_focus d' = d_focus d;
}.

Lemma entries_of_ext pl pl' l vs : (forall v, v ∈ vs -> pl (iv_id v) = pl' (iv_id v)) -> entries_of pl l vs = entries_of pl' l vs.
Proof.
  intros E. unfold entries_of. apply list_fmap_ext. intros i v [_ Hv]%list_elem_of_lookup_2%list_elem_of_filter. by rewrite E.
Qed.

Section items.
Context `{LoroOk, Host, HostOk0 : !HostOk, ScalarTextOk}.

Lemma raw_order_put id l p src d j : plain id ->
  raw_order (put_item id l p src d) j = raw_order d j ++ (if decide (l = j) then [Some (mkEntry id p)] else []).
Proof.
  intros Hp. unfold raw_order, put_item. rewrite order_list_set. case_decide as Hj.
  - subst. rewrite fmap_app. by rewrite list_fmap_singleton, entry_slot_scalar.
  - by rewrite app_nil_r.
Qed.

Lemma import_items_restore ids vs : forall acc d, ix_meta (d_index d) = ∅ -> Forall clean_item vs -> NoDup (iv_id <$> vs) ->
  (forall v, v ∈ vs -> ids !! iv_list_id v = Some (iv_list_id v)) ->
  exists acc' d' pl, mfold (import_item ids) acc (export_item <$> vs) d = (Ok acc', d') /\ items_restored vs pl d d'
  /\ it_added acc' = it_added acc + length vs /\ it_skipped acc' = it_skipped acc /\ it_existing acc' = it_existing acc
  /\ (forall k, k ∉ iv_id <$> vs -> it_ids acc' !! k = it_ids acc !! k)
  /\ (forall v, v ∈ vs -> it_ids acc' !! iv_id v = Some (iv_id v, iv_is_open v)).
Proof.
  induction vs as [|v vs IH]; intros acc d Hix Hc Hn Hl.
  - exists acc, d, id. split_and!; [done| |cbn; lia|done..|by intros ? ?%not_elem_of_nil].
    split; try done; [by intros ? ?%not_elem_of_nil|]. intros l. by rewrite app_nil_r.
  - inversion Hc as [|? ? Hv Hc']; subst. cbn in Hn. apply NoDup_cons in Hn as [Hn1 Hn2]. cbn [fmap list_fmap mfold].
    destruct Hv as [Hw [Ht Hne] _ _ _ _]. assert (Hb : ~ blank (export_item v)) by (unfold blank; cbn; by rewrite Ht).
    assert (Hh : kept (export_item v) && is_ok (find_item d (xi_id (export_item v))) = false).
    { unfold find_item. by rewrite Hix, lookup_empty, andb_false_r. }
    destruct (import_item_new ids acc (export_item v) d Hb Hh) as (nid & n & E & Hid). cbn zeta in E.
    unfold kept in Hid. cbn [xi_id export_item] in Hid. rewrite Hw in Hid. destruct Hid as [-> ->].
    unfold item_list in E. cbn [xi_list_id export_item] in E. rewrite (Hl v), export_open in E by (by left). cbn [default xi_id export_item] in E.
    rewrite (M_bind_eq _ _ _ _ _ E). set (p := nth_id _) in *. set (d1 := put_item _ _ _ _ _) in *. set (acc1 := mkItems _ _ _ _).
    destruct (IH acc1 d1) as (acc' & d' & pl & E' & [R1 R2 R3 R4 R5] & Ha & Hsk & Hex & Hk & Hin); try done.
    { intros w Hw'. apply Hl. by right. }
    set (pl' := fun id => if decide (id = iv_id v) then p else pl id).
    assert (Hpl : forall w, w ∈ vs -> pl' (iv_id w) = pl (iv_id w)).
    { intros w Hw'. unfold pl'. rewrite decide_False; [done|]. intros Ew. apply Hn1. rewrite <- Ew. apply list_elem_of_fmap. eauto. }
    assert (Hplv : pl' (iv_id v) = p) by (unfold pl'; by rewrite decide_True).
    exists acc', d', pl'. split_and!; [done| |rewrite Ha; cbn; lia|done|done| |].
    + split; try done.
      * intros w [->|Hw']%elem_of_cons; [|by rewrite Hpl, R1]. rewrite Hplv. unfold item_map_of. rewrite R2 by done.
        unfold d1, put_item, holding. cbn. by rewrite lookup_insert_eq.
      * intros id [Hid1 Hid2]%not_elem_of_cons. rewrite R2 by done. unfold d1, put_item, holding. cbn. by rewrite lookup_insert_ne.
      * intros l. rewrite R3. unfold d1. rewrite raw_order_put by (by apply well_formed_plain).
        rewrite <- app_assoc, (entries_of_ext pl pl') by (intros; by rewrite Hpl). do 2 f_equal.
        unfold entries_of. rewrite filter_cons. cbn. case_decide; [|done]. by rewrite <- Hplv.
    + intros k [Hk1 Hk2]%not_elem_of_cons. rewrite Hk by done. cbn. unfold note_id. case_decide; [done|]. by rewrite lookup_insert_ne.
    + intros w [->|Hw']%elem_of_cons; [|by apply Hin]. rewrite Hk by done. cbn. unfold note_id.
      destruct (well_formed_plain _ Hw) as [_ Hne']. rewrite decide_False by done. by rewrite lookup_insert_eq.
Qed.
End items.

(** ** The walk, list by list *)

Lemma iter_ids_list d l : index_wf (d_index d) ->
  base.filter (fun id => m_list_id <$> ix_meta (d_index d) !! id = Some l) (iter_ids d) = resolved (d_index d) l.
Proof.
  intros Hwf. assert (Hres : forall l' x, x ∈ resolved (d_index d) l' -> m_list_id <$> ix_meta (d_index d) !! x = Some l').
  { intros l' x (m & Em & <-)%elem_of_resolved; [|done]. by rewrite Em. }
  unfold iter_ids. rewrite (filter_bind_one _ (resolved (d_index d)) l).
  - apply list_filter_all. intros x Hx. by apply Hres.
  - apply NoDup_ordered_list_ids.
  - intros l' x Hx%Hres. rewrite Hx. by intros [= ->].
  - intros Hl. by rewrite (resolved_unlisted d l Hwf Hl).
Qed.

Lemma get_item_meta d id v : index_ok d -> get_item d id = Some v ->
  exists m, item_map_of (d_items d) id = Some m /\ item_view m = Some v /\ ix_meta (d_index d) !! id = Some (item_meta m).
Proof.
  intros [_ Hm _]. unfold get_item, find_item. destruct (ix_meta (d_index d) !! id) as [mt|] eqn:Et; [|done].
  destruct (item_map_of (d_items d) id) as [m|] eqn:Em; [|done]. cbn. intros Hv. exists m.
  rewrite Hm, doc_metas_item, Em in Et. by injection Et as <-.
Qed.

Lemma view_of_meta m v : item_view m = Some v ->
  m_list_id (item_meta m) = iv_list_id v /\ m_open (item_meta m) = iv_is_open v /\ plain (iv_list_id v).
Proof.
  intros Hv. pose proof (map_location_plain m) as Hp. unfold item_view in Hv.
  destruct (read_string m KEY_ID), (read_string m KEY_TEXT), (read_i64 m KEY_CREATED_AT); try done. injection Hv as <-.
  cbn. split_and!; [done| |by apply Hp..]. unfold map_is_open, iv_is_open, iv_is_binned. cbn. by destruct (read_i64 m KEY_BINNED_AT).
Qed.

Section walk.
Variable d : Doc.
Hypothesis Hok : index_ok d.
Hypothesis Hself : self_named d.
Hypothesis Hview : viewable d.

Lemma iter_views (ids : list string) : (forall id, id ∈ ids -> is_Some (ix_meta (d_index d) !! id)) ->
  iv_id <$> omap (get_item d) ids = ids
  /\ (forall v, v ∈ omap (get_item d) ids -> get_item d (iv_id v) = Some v)
  /\ forall l, iv_id <$> base.filter (fun v => iv_list_id v = l) (omap (get_item d) ids)
       = base.filter (fun id => m_list_id <$> ix_meta (d_index d) !! id = Some l) ids.
Proof.
  induction ids as [|id ids IH]; intros Hin; [split_and!; [done|by intros v ?%not_elem_of_nil|done]|].
  destruct IH as (I1 & I2 & I3); [intros; apply Hin; by right|].
  destruct (Hview id) as [v Hv]; [apply Hin; by left|]. cbn [omap list_omap]. rewrite Hv.
  destruct (get_item_meta d id v Hok Hv) as (m & _ & Emv & Emeta). destruct (view_of_meta m v Emv) as (V1 & _ & _).
  pose proof (get_item_id d id v Hself Hv) as Hid. split_and!.
  - cbn. by rewrite Hid, I1.
  - intros w [->|Hw]%elem_of_cons; [by rewrite Hid|by apply I2].
  - intros l. rewrite !filter_cons, Emeta. cbn [fmap option_fmap option_map]. rewrite V1. destruct (decide (iv_list_id v = l)) as [->|Hl].
    + rewrite decide_True by done. cbn. by rewrite Hid, I3.
    + rewrite decide_False by congruence. apply I3.
Qed.

Lemma iter_items_views :
  iv_id <$> iter_items d = iter_ids d /\ (forall v, v ∈ iter_items d -> get_item d (iv_id v) = Some v)
  /\ forall l, iv_id <$> base.filter (fun v => iv_list_id v = l) (iter_items d) = resolved (d_index d) l.
Proof.
  destruct (iter_views (iter_ids d)) as (I1 & I2 & I3).
  { intros id Hid. by apply (elem_of_iter_ids d id (ok_wf _ Hok)). }
  split_and!; [done|done|]. intros l. rewrite I3. apply iter_ids_list, Hok.
Qed.
End walk.

(** ** What a list shows when its entries are its items *)

Definition in_place (meta : gmap string ItemMeta) (pl : string -> string) (l id : string) : Prop :=
  exists m, meta !! id = Some m /\ m_list_id m = l /\ m_placement_id m = pl id.

Lemma visible_in_place meta pl l ids : Forall (in_place meta pl l) ids -> NoDup ids ->
  visible meta l ((fun id => Some (mkEntry id (pl id))) <$> ids) = ids.
Proof.
  intros Hin Hn. unfold visible. rewrite <- (dedup_id ids) at 2 by done. f_equal. clear Hn.
  induction Hin as [|id ids (m & Em & Hl & Hp) _ IH]; [done|]. cbn. by rewrite Em, !bool_decide_true, IH.
Qed.

Lemma projection_in_place meta pl l ids : Forall (in_place meta pl l) ids -> NoDup ids ->
  (forall id, located meta l id -> id ∈ ids) ->
  open_projection meta l ((fun id => Some (mkEntry id (pl id))) <$> ids)
  = base.filter (fun id => Is_true (meta_open meta id)) ids.
Proof.
  intros Hin Hn Hall. unfold open_projection, open_visible. rewrite visible_in_place by done.
  rewrite (elem_of_nil_inv (tail_of _ _ _)), app_nil_r; [done|].
  intros id. rewrite elem_of_tail_of, elem_of_open_ids, elem_of_list_to_set. intros [Hl%located_open_located Hn']. by apply Hn', Hall.
Qed.

(** ** Focus *)

Section focus.
Context `{LoroOk, Host, HostOk0 : !HostOk, ScalarTextOk}.

Lemma import_refs_restore ids raws : forall seen k d,
  Forall (fun r => plain r /\ ids !! r = Some (r, true)) raws -> NoDup raws -> (forall r, r ∈ raws -> r ∉ seen) ->
  exists seen', mfold (import_ref ids) (seen, k) raws d
    = (Ok (seen', k + length raws), with_focus (fun f => f ++ (ref_slot <$> raws)) d).
Proof.
  induction raws as [|r raws IH]; intros seen k d Hf Hn Hs.
  - exists seen. cbn. rewrite Nat.add_0_r. unfold with_focus. rewrite app_nil_r. by destruct d.
  - inversion Hf as [|? ? [[Hc Hne] Hr] Hf']; subst. apply NoDup_cons in Hn as [Hn1 Hn2]. cbn [mfold].
    assert (E : import_ref ids (seen, k) r d = (Ok ({[r]} ∪ seen, S k), with_focus (fun f => f ++ [ref_slot r]) d)).
    { unfold import_ref. assert (Hp : ref_parse r = Some (ref_local r)) by exact (ref_local_roundtrip r Hc Hne).
      assert (Hl : ref_is_local (ref_local r) = true) by done. rewrite Hp, Hl. cbn [negb ref_item_id ref_local].
      rewrite Hr. cbn [fst snd]. rewrite decide_False by (by apply Hs; left).
      erewrite M_bind_eq; [|apply root_push_ok]. reflexivity. }
    rewrite (M_bind_eq _ _ _ _ _ E). destruct (IH ({[r]} ∪ seen) (S k) (with_focus (fun f => f ++ [ref_slot r]) d)) as (seen' & E'); try done.
    { intros r' Hr' Hin%elem_of_union. destruct Hin as [->%elem_of_singleton|Hin]; [done|]. eapply Hs; [by right|done]. }
    exists seen'. rewrite E'. unfold with_focus. cbn. by rewrite <- app_assoc, Nat.add_succ_r.
Qed.

Lemma scan_restored d raws : d_focus d = ref_slot <$> raws -> NoDup raws ->
  Forall (fun r => plain r /\ meta_open (ix_meta (d_index d)) r = true) raws ->
  visible_item_ids (scan_focus d) = raws.
Proof.
  intros Hd Hn Hf. assert (He : d_focus d = enc_focus (ref_local <$> raws)).
  { rewrite Hd. unfold enc_focus. by rewrite <- list_fmap_compose. }
  assert (Hids : ref_item_id <$> (ref_local <$> raws) = raws) by (rewrite <- list_fmap_compose; apply list_fmap_id).
  assert (Hok : entries_ok (ix_meta (d_index d)) ∅ (ref_local <$> raws)).
  { split; [| |by rewrite Hids|set_solver]; apply Forall_fmap; (eapply Forall_impl; [exact Hf|]); intros r [[Hc Hne] Hm]; cbn.
    - unfold ref_resolvable. cbn [ref_item_id ref_local]. by rewrite Hm.
    - by apply ref_local_roundtrip. }
  unfold scan_focus, visible_item_ids. rewrite (focus_raw_enc _ d He), scan_of_entries by done. cbn [scan_entries].
  rewrite <- Hids at 2. f_equal. clear. induction raws as [|r raws IH]; [done|]. cbn [fmap list_fmap]. rewrite filter_cons, decide_True; [by rewrite IH|done].
Qed.

(** The refs an export carries are local, one per item, of open items. *)
Lemma visible_refs d : NoDup (visible_item_ids (scan_focus d))
  /\ forall r, r ∈ visible_item_ids (scan_focus d) -> meta_open (ix_meta (d_index d)) r = true.
Proof.
  destruct (focus_entries_ok d) as [E1 _ E3 _]. unfold focus_entries in *. unfold visible_item_ids. split.
  - eapply sublist_NoDup; [exact E3|]. apply fmap_sublist, sublist_filter.
  - intros r (x & -> & [Hl Hx]%list_elem_of_filter)%list_elem_of_fmap. rewrite Forall_forall in E1. specialize (E1 _ Hx).
    unfold ref_resolvable in E1. destruct (ref_is_local x); [exact E1|done].
Qed.
End focus.

(** ** The whole document *)

Lemma all_lists_view ls v : forall seen, v ∈ all_lists_from ls seen -> exists m, list_view m = Some v.
Proof.
  induction ls as [|s ls IH]; intros seen; [by intros ?%not_elem_of_nil|]. cbn. destruct s as [m| |]; [|apply IH..].
  destruct (list_view m) as [w|] eqn:Ew; [|apply IH]. case_decide; [apply IH|].
  intros [->|Hv]%elem_of_cons; [by exists m|by eapply IH].
Qed.

(** A document as the program leaves it: exact index, items that carry their
    own id and read, clean rows, and every item in a list there is. *)
Record portable (d : Doc) : Prop := {
  po_index : index_ok d;
  po_named : self_named d;
  po_view : viewable d;
  po_items : Forall clean_item (iter_items d);
  po_lists : Forall clean_list (all_lists d);
  po_located v : v ∈ iter_items d -> iv_list_id v ∈ LIST_INBOX :: LIST_EVENTS :: (lv_id <$> all_lists d);
}.

Section whole.
Context `{LoroOk, Host, HostOk0 : !HostOk, ScalarTextOk}.

Lemma mfold_app {A S} (f : S -> A -> M S) l k : forall s d,
  mfold f s (l ++ k) d = (s ← mfold f s l; mfold f s k) d.
Proof.
  induction l as [|a l IH]; intros s d; [done|]. cbn [app mfold]. unfold mbind, M_bind in *.
  destruct (f s a d) as [[s'|e] d']; [apply IH|done].
Qed.

Lemma export_lists_restore d : Forall clean_list (all_lists d) ->
  exists acc, mfold import_list lists_start (x_lists (export_json d)) doc_empty
    = (Ok acc, listed (list_row <$> all_lists d) 0 0 doc_empty)
  /\ la_added acc = length (all_lists d) /\ la_existing acc = 0
  /\ forall k, k ∈ LIST_INBOX :: LIST_EVENTS :: (lv_id <$> all_lists d) -> la_ids acc !! k = Some k.
Proof.
  intros Hc. set (start := mkLists (<[LIST_INBOX := LIST_INBOX]> (la_ids lists_start)) 0 0).
  destruct (import_lists_restore (all_lists d) start doc_empty Hc (NoDup_all_lists d)) as (acc & E & Ha & He & Hk); [done|].
  exists acc. split_and!; [|by rewrite Ha|done|].
  - cbn [x_lists export_json mfold]. erewrite M_bind_eq; [|reflexivity]. rewrite mfold_app.
    erewrite M_bind_eq; [exact E|]. by destruct (bool_decide _).
  - intros k Hin. rewrite Hk. case_decide as Hl; [done|]. rewrite !elem_of_cons in Hin.
    destruct Hin as [->|[->|?]]; [reflexivity|reflexivity|done].
Qed.

(** What the items loop leaves, seen through the rebuilt index. *)
Lemma restored_metas d pl d0 d2 : portable d -> d_items d0 = ∅ -> items_restored (iter_items d) pl d0 d2 ->
  (forall id, get_item (rebuild_index d2) id = get_item d id)
  /\ (forall id, meta_open (doc_metas (d_items d2)) id = meta_open (ix_meta (d_index d)) id)
  /\ (forall l id, located (doc_metas (d_items d2)) l id <-> located (ix_meta (d_index d)) l id)
  /\ (forall l id, located (ix_meta (d_index d)) l id -> in_place (doc_metas (d_items d2)) pl l id).
Proof.
  intros [Hok Hself Hview Hitems _ _] Hempty Hr. destruct (iter_items_views d Hok Hself Hview) as (I1 & I2 & _).
  pose proof (ok_wf _ Hok) as Hwf. rewrite Forall_forall in Hitems.
  assert (Hnone : forall id, ix_meta (d_index d) !! id = None -> d_items d2 !! id = None).
  { intros id Hid. rewrite (ir_other _ _ _ _ Hr), Hempty; [apply lookup_empty|]. rewrite I1, elem_of_iter_ids, Hid by done. by intros []. }
  assert (Hsome : forall id m, ix_meta (d_index d) !! id = Some m -> exists m' v, get_item d id = Some v
    /\ item_map_of (d_items d2) id = Some m' /\ item_view m' = Some v
    /\ item_meta m' = mkMeta (m_list_id m) (pl id) (m_open m) (m_created_at (item_meta m'))).
  { intros id m Hid. assert (Hin : id ∈ iv_id <$> iter_items d) by (rewrite I1, elem_of_iter_ids, Hid by done; by eexists).
    apply list_elem_of_fmap in Hin as (v & -> & Hv). destruct (get_item_meta d _ v Hok (I2 v Hv)) as (mv & _ & Ev & Em).
    rewrite Hid in Em. injection Em as ->. destruct (view_of_meta mv v Ev) as (V1 & V2 & V3).
    destruct (fresh_item_view mv v (pl (iv_id v)) Ev (Hitems v Hv) V3) as (F1 & F2 & F3).
    eexists _, v. split_and!; [by apply I2|by apply (ir_item _ _ _ _ Hr)|exact F1|].
    unfold item_meta at 1. rewrite F2, F3, V1, V2. reflexivity. }
  assert (Hmeta : forall id, (doc_metas (d_items d2) !! id = None /\ ix_meta (d_index d) !! id = None)
    \/ exists m m', ix_meta (d_index d) !! id = Some m /\ doc_metas (d_items d2) !! id = Some m'
         /\ m_list_id m' = m_list_id m /\ m_open m' = m_open m /\ m_placement_id m' = pl id).
  { intros id. rewrite doc_metas_item. destruct (ix_meta (d_index d) !! id) as [m|] eqn:Em; [right|left].
    - destruct (Hsome id m Em) as (m' & v & _ & Ei & _ & Emeta). rewrite Ei. exists m, (item_meta m').
      split_and!; [done|done|by rewrite Emeta..].
    - unfold item_map_of. by rewrite Hnone. }
  split_and!.
  - intros id. destruct (ix_meta (d_index d) !! id) as [m|] eqn:Em.
    + destruct (Hsome id m Em) as (m' & v & -> & Ei & Ev & _). unfold get_item, find_item.
      rewrite (ok_meta _ (rebuild_ok d2)), doc_metas_item. change (d_items (rebuild_index d2)) with (d_items d2). by rewrite Ei.
    + unfold get_item, find_item. rewrite (ok_meta _ (rebuild_ok d2)), doc_metas_item, Em.
      change (d_items (rebuild_index d2)) with (d_items d2). unfold item_map_of. by rewrite Hnone.
  - intros id. unfold meta_open. destruct (Hmeta id) as [[-> ->]|(m & m' & -> & -> & _ & -> & _)]; done.
  - intros l id. unfold located. destruct (Hmeta id) as [[-> ->]|(m & m' & -> & -> & El & _)].
    + by split; intros (? & ? & _).
    + split; intros (? & [= <-] & <-); eexists; (split; [reflexivity|congruence]).
  - intros l id (m0 & Em0 & <-). destruct (Hmeta id) as [[_ E]|(m & m' & E & E' & El & _ & Ep)]; [by rewrite Em0 in E|].
    rewrite Em0 in E. injection E as ->. by exists m'.
Qed.

(** What every list shows is back. *)
Lemma restored_open d pl d0 d2 l : portable d -> d_items d0 = ∅ -> raw_order d0 l = [] ->
  items_restored (iter_items d) pl d0 d2 -> open_item_ids (rebuild_index d2) l = open_item_ids d l.
Proof.
  intros Hp H0' Hraw Hr. destruct (restored_metas d pl d0 d2 Hp H0' Hr) as (_ & M2 & M3 & M4).
  destruct Hp as [Hok Hself Hview _ _ _]. destruct (iter_items_views d Hok Hself Hview) as (_ & _ & I3). pose proof (ok_wf _ Hok) as Hwf.
  rewrite (index_ok_open _ l (rebuild_ok d2)). unfold doc_open. change (d_items (rebuild_index d2)) with (d_items d2).
  change (raw_order (rebuild_index d2) l) with (raw_order d2 l). rewrite (ir_order _ _ _ _ Hr), Hraw.
  assert (Hent : entries_of pl l (iter_items d) = (fun id => Some (mkEntry id (pl id))) <$> resolved (d_index d) l).
  { rewrite <- I3. unfold entries_of. by rewrite <- list_fmap_compose. }
  cbn [app]. rewrite Hent, projection_in_place.
  - unfold open_item_ids. rewrite <- resolved_open by done. apply list_filter_iff. intros id. by rewrite M2.
  - apply Forall_forall. intros id Hid. apply M4. by apply elem_of_resolved.
  - apply NoDup_resolved.
  - intros id Hid. apply elem_of_resolved; [done|]. by apply M3.
Qed.

(** The refs of an export name open items of it. *)
Lemma export_refs d (ids : gmap string (string * bool)) : portable d ->
  (forall v, v ∈ iter_items d -> ids !! iv_id v = Some (iv_id v, iv_is_open v)) ->
  Forall (fun r => plain r /\ ids !! r = Some (r, true)) (visible_item_ids (scan_focus d)).
Proof.
  intros [Hok Hself Hview Hitems _ _] Hids. destruct (iter_items_views d Hok Hself Hview) as (I1 & I2 & _).
  apply Forall_forall. intros r Hr. pose proof (proj2 (visible_refs d) r Hr) as Ho. unfold meta_open in Ho.
  destruct (ix_meta (d_index d) !! r) as [m|] eqn:Em; [|done].
  assert (Hin : r ∈ iv_id <$> iter_items d) by (rewrite I1, elem_of_iter_ids, Em by apply Hok; by eexists).
  apply list_elem_of_fmap in Hin as (v & -> & Hv). rewrite Forall_forall in Hitems. split; [by apply well_formed_plain, ci_id, Hitems|].
  rewrite Hids by done. destruct (get_item_meta d _ v Hok (I2 v Hv)) as (mv & _ & Ev & Emv). rewrite Em in Emv. injection Emv as ->.
  destruct (view_of_meta mv v Ev) as (_ & V2 & _). by rewrite <- V2, Ho.
Qed.

(** C26: Exporting a document and importing the file into an empty one restores it:
    the lists with their settings, every item with all its registers, what
    every list shows and in which order, and Focus; nothing is skipped. *)
Theorem export_import_restores d : portable d ->
  exists d', import_json (export_json d) doc_empty
    = (Ok (mkSummary (length (all_lists d)) (length (iter_items d)) 0 (length (visible_item_ids (scan_focus d))) 0 0), d')
  /\ all_lists d' = all_lists d
  /\ (forall id, get_item d' id = get_item d id)
  /\ (forall l, open_item_ids d' l = open_item_ids d l)
  /\ visible_item_ids (scan_focus d') = visible_item_ids (scan_focus d).
Proof.
  intros Hp. pose proof Hp as [Hok Hself Hview Hitems Hlists Hloc].
  destruct (iter_items_views d Hok Hself Hview) as (I1 & I2 & I3). pose proof (ok_wf _ Hok) as Hwf.
  destruct (export_lists_restore d Hlists) as (lists & E1 & La & Le & Lk).
  set (d1 := listed (list_row <$> all_lists d) 0 0 doc_empty) in *.
  destruct (import_items_restore (la_ids lists) (iter_items d) (mkItems ∅ 0 0 0) d1) as (items & d2 & pl & E2 & Hr & Ia & Is & Ie & _ & Ik);
    [done|done|rewrite I1; by apply NoDup_iter_ids|intros v Hv; by apply Lk, Hloc|].
  destruct (restored_metas d pl d1 d2 Hp eq_refl Hr) as (M1 & M2 & M3 & M4).
  set (raws := visible_item_ids (scan_focus d)) in *. destruct (visible_refs d) as [Hnd Hopen]. fold raws in Hnd, Hopen.
  pose proof (export_refs d (it_ids items) Hp Ik) as Hfocus. fold raws in Hfocus.
  assert (Hseen : focus_seen d2 = ∅).
  { unfold focus_seen, focus_raw. by rewrite (ir_focus _ _ _ _ Hr). }
  destruct (import_refs_restore (it_ids items) raws (focus_seen d2) 0 d2 Hfocus Hnd) as (seen & E3); [rewrite Hseen; set_solver|].
  destruct (import_json_loops (export_json d) doc_empty lists items _ d1 d2 _ eq_refl E1 E2 E3) as (d' & E & (S1 & S2 & S3 & S4 & S5 & S6 & S7)).
  set (d3 := with_focus (fun f => f ++ (ref_slot <$> raws)) d2) in *. exists d'.
  assert (Eix : d_index d' = compute_index d2).
  { rewrite S6. by apply compute_index_same. }
  assert (Emeta : ix_meta (d_index d') = doc_metas (d_items d2)) by (rewrite Eix; apply (ok_meta _ (rebuild_ok d2))).
  split_and!.
  - rewrite E, La, Le, Ia, Is, Ie. done.
  - unfold all_lists at 1. rewrite S2. change (d_lists (rebuild_index d3)) with (d_lists d2). rewrite (ir_lists _ _ _ _ Hr).
    apply all_lists_rows; [|apply NoDup_all_lists|set_solver]. apply Forall_forall. intros v Hv.
    destruct (all_lists_view _ _ _ Hv) as [m Hm]. rewrite Forall_forall in Hlists. by eapply fresh_row_view, Hlists.
  - intros id. rewrite <- M1. unfold get_item, find_item. rewrite S1, Eix. done.
  - intros l. transitivity (open_item_ids (rebuild_index d2) l); [unfold open_item_ids; by rewrite Eix|].
    by apply (restored_open d pl d1 d2).
  - apply scan_restored; [|done|].
    + rewrite S5. cbn. by rewrite (ir_focus _ _ _ _ Hr).
    + apply Forall_forall. intros r Hr'. rewrite Forall_forall in Hfocus. split; [by apply Hfocus|]. rewrite Emeta, M2. by apply Hopen.
Qed.
End whole.

(** ** Witness *)

#[local] Existing Instances value_loro value_loro_ok unary_host unary_host_ok value_text value_text_ok.

Definition id_rice := "00000000000000000000000000000003".
Definition id_soap := "00000000000000000000000000000004".

Definition port_item (id text list_id placement : string) (created : Z) : lmap :=
  <[KEY_LOCATION := Val (LString (location_encode (mkLocation list_id placement)))]> (sample_item id text placement created).

(** A list of two items, the second moved to the front, an item of the inbox
    that is done, and a Focus with a dead ref. *)
Definition port_doc : Doc := rebuild_index
  (mkDoc
     (<[id_milk := MapC (port_item id_milk "milk" id_work "p1" 1)]>
       (<[id_rice := MapC (<[KEY_DEADLINE := Val (LString "2026-02-28")]> (port_item id_rice "rice" id_work "p2" 2))]>
         (<[id_soap := MapC (<[KEY_LIFECYCLE := Val (LList [LI64 4; LI64 9])]> (port_item id_soap "soap" LIST_INBOX "p3" 3))]> ∅)))
     [MapC (<[KEY_ID := Val (LString id_work)]> (<[KEY_NAME := Val (LString "Work")]> (<[KEY_CREATED_AT := Val (LI64 1)]> ∅)))] ∅
     (<[order_root_name id_work := str_slot <$> [entry_encode (mkEntry id_rice "p2"); entry_encode (mkEntry id_milk "p1")]]>
       (<[order_root_name LIST_INBOX := str_slot <$> [entry_encode (mkEntry id_soap "p3")]]> ∅))
     (str_slot <$> [id_milk; id_soap]) index_default [] [] 0 ∅ None 0 0).

Lemma port_items id m : item_map_of (d_items port_doc) id = Some m ->
  (id = id_milk \/ id = id_rice \/ id = id_soap) /\ read_string m KEY_ID = Some id /\ is_Some (item_view m).
Proof.
  unfold item_map_of. destruct (d_items port_doc !! id) as [s|] eqn:Es; [|done]. cbn in Es.
  rewrite !lookup_insert_Some, lookup_empty in Es.
  destruct Es as [[<- <-]|[_ [[<- <-]|[_ [[<- <-]|[_ ?]]]]]]; [..|done]; intros [= <-];
    (split_and!; [tauto|reflexivity|vm_compute; by eexists]).
Qed.

Lemma port_portable : portable port_doc.
Proof.
  assert (Hok : index_ok port_doc) by apply rebuild_ok.
  split.
  - exact Hok.
  - intros id m Hm. by apply port_items.
  - intros id Hid. rewrite (ok_meta _ Hok), doc_metas_item in Hid. unfold get_item, find_item.
    rewrite (ok_meta _ Hok), doc_metas_item. destruct (item_map_of (d_items port_doc) id) as [m|] eqn:Em; [|by destruct Hid].
    apply port_items in Em as (_ & _ & Hv). exact Hv.
  - let l := eval vm_compute in (iter_items port_doc) in replace (iter_items port_doc) with l by (vm_compute; reflexivity).
    repeat (constructor; [split; cbn; try done; try (by intros ? [= <-])|]); constructor.
  - let l := eval vm_compute in (all_lists port_doc) in replace (all_lists port_doc) with l by (vm_compute; reflexivity).
    repeat (constructor; [split; cbn; done|]); constructor.
  - let l := eval vm_compute in (iter_items port_doc) in replace (iter_items port_doc) with l by (vm_compute; reflexivity).
    let l := eval vm_compute in (all_lists port_doc) in replace (all_lists port_doc) with l by (vm_compute; reflexivity).
    intros v Hv. rewrite !elem_of_cons, elem_of_nil in Hv. cbn. rewrite !elem_of_cons. destruct Hv as [->|[->|[->|[]]]]; cbn; tauto.
Qed.

Lemma export_import_restores_witness : exists d',
  import_json (export_json port_doc) doc_empty = (Ok (mkSummary 1 3 0 1 0 0), d')
  /\ lv_name <$> all_lists d' = ["Work"] /\ open_item_ids d' id_work = [id_rice; id_milk]
  /\ open_item_ids d' LIST_INBOX = [] /\ visible_item_ids (scan_focus d') = [id_milk]
  /\ iv_deadline <$> get_item d' id_rice = Some (Some "2026-02-28").
Proof.
  destruct (export_import_restores port_doc port_portable) as (d' & E & El & Ei & Eo & Ef).
  exists d'. rewrite E, El, !Eo, Ef, Ei. vm_compute. split_and!; reflexivity.
Defined.
