(* ===== verification/Translate.v ===== *)
(** Remote changes as events (core/src/doc.rs, [classify_captured_diff],
    [translate_captured_diffs], [emit_diff_fallback], [import_translated],
    [apply_undo_op]): the container diffs Loro reports for an import or an undo
    step, turned into index updates and minimal per-list events, or into one
    resync. *)
From S2P Require Import Prelude.
From S2P Require Import Loro.
From S2P Require Import Lifecycle.
From S2P Require Import Registers.
From S2P Require Import Projection.
From S2P Require Import Notes.
From S2P Require Import Events.
From S2P Require Import DocCore.
From S2P Require Import DocItems.

Definition ROOT_ITEMS := "items".
Definition ROOT_LISTS := "lists".
Definition ROOT_SETTINGS := "settings".
Definition FOCUS_CONTAINER := "focus".
Definition DIFF_TRANSLATE_MAX_DIRTY : nat := 64.

(** ** What Loro reports *)

(** [loro::ContainerID]. *)
Inductive ContainerID : Type := CidRoot (name : string) | CidNormal (peer : N) (counter : Z).

#[export] Instance ContainerID_eq_dec : EqDecision ContainerID.
Proof. solve_decision. Defined.
#[export] Instance ContainerID_countable : Countable ContainerID.
Proof.
  apply (inj_countable' (fun c => match c with CidRoot n => inl n | CidNormal p c => inr (p, c) end)
           (fun s => match s with inl n => CidRoot n | inr (p, c) => CidNormal p c end)).
  by intros [].
Defined.

(** [loro::Index], [ListDiffItem], [Diff]; a map diff's values are [None] for a
    deleted key. *)
Inductive Index : Type := IKey (key : string) | ISeq (seq : nat).
Inductive ListDiffItem : Type := LRetain (retain : nat) | LDelete (delete : nat) | LInsert (insert : list slot).
Inductive LoroDiff : Type :=
  | DText (delta : list TextDelta)
  | DMap (updated : gmap string (option slot))
  | DList (items : list ListDiffItem)
  | DOther.

(** ** Captured diffs *)

Inductive CapturedListItem : Type := CRetain (n : nat) | CDelete (n : nat) | CInsert (vals : list (option string)).

Inductive CapturedDiff : Type :=
  | CItemsRoot (upserted removed : list string)
  | CItemMap (container : ContainerID) (keys : list string)
  | CItemText (container : ContainerID) (key : string) (delta : list TextDelta)
  | COrder (list_id : string) (ops : list CapturedListItem)
  | CLists
  | CSettings
  | CFocus
  | COpaque.

Inductive DiffCaptureMode : Type := CaptureNone | CaptureImport | CaptureUndo.
(** [loro::EventTriggerKind]. *)
Inductive EventTriggerKind : Type := TriggerLocal | TriggerImport | TriggerCheckout.

Definition cid_root_name (cid : ContainerID) : option string :=
  match cid with CidRoot name => Some name | CidNormal _ _ => None end.

(** [name.strip_prefix(ORDER_PREFIX)]. *)
Fixpoint strip_prefix (p s : string) : option string :=
  match p with
  | EmptyString => Some s
  | String a p => match s with
                  | String b s => if decide (a = b) then strip_prefix p s else None
                  | EmptyString => None
                  end
  end.

Definition captured_value (v : slot) : option string :=
  match v with ScalarV (LString s) => Some s | _ => None end.

Definition captured_item (it : ListDiffItem) : CapturedListItem :=
  match it with
  | LRetain n => CRetain n
  | LDelete n => CDelete n
  | LInsert vs => CInsert (captured_value <$> vs)
  end.

Definition upserted_keys (updated : gmap string (option slot)) : list string :=
  omap (fun '(k, v) => match v with Some _ => Some k | None => None end) (map_to_list updated).
Definition removed_keys (updated : gmap string (option slot)) : list string :=
  omap (fun '(k, v) => match v with Some _ => None | None => Some k end) (map_to_list updated).

Definition classify_captured_diff (target : ContainerID) (path : list (ContainerID * Index)) (diff : LoroDiff)
    : CapturedDiff :=
  match diff with
  | DText delta =>
      match path with
      | [(root, _); (item_map, _); (_, IKey key)] =>
          if decide (cid_root_name root = Some ROOT_ITEMS) then CItemText item_map key delta else COpaque
      | _ => COpaque
      end
  | _ =>
      match cid_root_name target with
      | Some name =>
          if decide (name = ROOT_ITEMS) then
            match diff with
            | DMap updated => CItemsRoot (upserted_keys updated) (removed_keys updated)
            | _ => COpaque
            end
          else if decide (name = ROOT_LISTS) then CLists
          else if decide (name = ROOT_SETTINGS) then CSettings
          else if decide (name = FOCUS_CONTAINER) then CFocus
          else
            match strip_prefix ORDER_PREFIX name with
            | None => COpaque
            | Some list_id =>
                match diff with
                | DList items => COrder list_id (captured_item <$> items)
                | _ => COpaque
                end
            end
      | None =>
          match path with
          | [] => COpaque
          | (cid, _) :: _ =>
              match cid_root_name cid with
              | None => COpaque
              | Some root =>
                  if decide (root = ROOT_LISTS) then CLists
                  else if decide (root <> ROOT_ITEMS) then COpaque
                  else match diff with
                       | DMap updated => CItemMap target (map_to_list updated).*1
                       | _ => COpaque
                       end
              end
          end
      end
  end.

(** The subscriber: a diff is kept when its trigger is the operation that is
    being captured. *)
Definition should_capture (mode : DiffCaptureMode) (triggered_by : EventTriggerKind) : bool :=
  match mode, triggered_by with
  | CaptureImport, TriggerImport | CaptureUndo, TriggerLocal => true
  | _, _ => false
  end.

Record DiffEvent : Type := mkDiffEvent {
  de_trigger : EventTriggerKind;
  de_events : list (ContainerID * list (ContainerID * Index) * LoroDiff);
}.

Definition captured (mode : DiffCaptureMode) (events : list DiffEvent) : list CapturedDiff :=
  e ← events;
  if should_capture mode (de_trigger e)
  then (fun '(target, path, diff) => classify_captured_diff target path diff) <$> de_events e
  else [].

(** ** Phase 1: the plan *)

(** What the diffs of one frame add up to. *)
Record Frame : Type := mkFrame {
  fr_lists_dirty : bool;
  fr_settings_dirty : bool;
  fr_focus_dirty : bool;
  fr_upserts : gset string;
  fr_removals : gset string;
  fr_map_dirty : gmap ContainerID (gset string);
  fr_shadows : gmap string (list (option OrderEntry));
  fr_active : gmap string (gset string);
  fr_entry_churn : nat;
  fr_text_deltas : gmap ContainerID (list (list TextDelta));
}.

Definition frame_empty : Frame := mkFrame false false false ∅ ∅ ∅ ∅ ∅ 0 ∅.

(** [entry(k).or_default().extend(..)]. *)
Definition extend_set {K} `{Countable K} (k : K) (vs : gset string) (m : gmap K (gset string)) : gmap K (gset string) :=
  <[k := vs ∪ default ∅ (m !! k)]> m.

(** The positional replay of one order diff: the shadow, the position, the
    items whose entries were inserted, the churn. *)
Record Replay : Type := mkReplay {
  rp_shadow : list (option OrderEntry);
  rp_pos : nat;
  rp_active : list string;
  rp_churn : nat;
}.

Definition replay_insert (r : Replay) (v : option string) : Replay :=
  let entry := v ≫= entry_parse in
  mkReplay (insert_at (Nat.min (rp_pos r) (length (rp_shadow r))) entry (rp_shadow r)) (S (rp_pos r))
    (match entry with Some e => rp_active r ++ [entry_item_id e] | None => rp_active r end) (S (rp_churn r)).

Definition replay_op (r : Replay) (op : CapturedListItem) : option Replay :=
  match op with
  | CRetain n =>
      if decide (length (rp_shadow r) < rp_pos r + n) then None
      else Some (mkReplay (rp_shadow r) (rp_pos r + n) (rp_active r) (rp_churn r))
  | CDelete n =>
      if decide (length (rp_shadow r) < rp_pos r + n) then None
      else Some (mkReplay (take (rp_pos r) (rp_shadow r) ++ drop (rp_pos r + n) (rp_shadow r)) (rp_pos r)
                   (rp_active r) (rp_churn r + n))
  | CInsert vals => Some (foldl replay_insert r vals)
  end.

Fixpoint replay_ops (r : Replay) (ops : list CapturedListItem) : option Replay :=
  match ops with
  | [] => Some r
  | op :: ops => r ← replay_op r op; replay_ops r ops
  end.

Definition collect_one (idx : ProjectionIndex) (f : Frame) (diff : CapturedDiff) : option Frame :=
  let '(mkFrame l s fo up rm md sh ac ch td) := f in
  match diff with
  | COpaque => None
  | CLists => Some (mkFrame true s fo up rm md sh ac ch td)
  | CSettings => Some (mkFrame l true fo up rm md sh ac ch td)
  | CFocus => Some (mkFrame l s true up rm md sh ac ch td)
  | CItemsRoot upserted removed =>
      Some (mkFrame l s fo (list_to_set upserted ∪ up) (list_to_set removed ∪ rm) md sh ac ch td)
  | CItemMap container keys =>
      Some (mkFrame l s fo up rm (extend_set container (list_to_set keys) md) sh ac ch td)
  | CItemText container key delta =>
      Some (mkFrame l s fo up rm (extend_set container {[key]} md) sh ac ch
              (<[container := default [] (td !! container) ++ [delta]]> td))
  | COrder list_id ops =>
      let shadow := default (raw_at idx list_id) (sh !! list_id) in
      r ← replay_ops (mkReplay shadow 0 [] 0) ops;
      Some (mkFrame l s fo up rm md (<[list_id := rp_shadow r]> sh)
              (if decide (rp_active r = []) then ac else extend_set list_id (list_to_set (rp_active r)) ac)
              (ch + rp_churn r) td)
  end.

Fixpoint collect (idx : ProjectionIndex) (f : Frame) (diffs : list CapturedDiff) : option Frame :=
  match diffs with
  | [] => Some f
  | diff :: diffs => f ← collect_one idx f diff; collect idx f diffs
  end.

(** [self.inner.get_map(cid)]: the map Loro holds under a container id. *)
Class Containers : Type := { get_map : Doc -> ContainerID -> lmap }.

(** The dirty containers as item ids, with the text deltas of each. *)
Definition resolve_one `{Containers} (d : Doc) (f : Frame)
    (acc : gmap string (gset string) * gmap string (list (list TextDelta))) (dirty : ContainerID * gset string)
    : gmap string (gset string) * gmap string (list (list TextDelta)) :=
  match read_string (get_map d dirty.1) KEY_ID with
  | None => acc
  | Some id =>
      if decide (id ∈ fr_removals f \/ id ∈ fr_upserts f) then acc
      else (extend_set id dirty.2 acc.1,
            match fr_text_deltas f !! dirty.1 with Some ds => <[id := ds]> acc.2 | None => acc.2 end)
  end.

Definition resolve_dirty `{Containers} (d : Doc) (f : Frame)
    : gmap string (gset string) * gmap string (list (list TextDelta)) :=
  foldl (resolve_one d f) (∅, ∅) (map_to_list (fr_map_dirty f)).

Record Change : Type := mkChange {
  ch_old : option ItemMeta;
  ch_new : option ItemMeta;
  ch_keys : gset string;
  ch_brand_new : bool;
}.

(** The keys a re-set container may have changed. *)
Definition ALL_KEYS : gset string :=
  list_to_set [KEY_TEXT; KEY_NOTES; KEY_DEADLINE; KEY_WHEN; KEY_DURATION; KEY_PLACE; KEY_LIFECYCLE;
               KEY_STARTED_AT; KEY_DONE_AT; KEY_BINNED_AT; KEY_LOCATION].

(** [guard.meta.get(id)] and the post-import map, else the frame is declined. *)
Definition plan_upsert (d : Doc) (id : string) : option Change :=
  map ← item_map_of (d_items d) id;
  let old := ix_meta (d_index d) !! id in
  Some (mkChange old (Some (item_meta map)) (match old with None => ∅ | Some _ => ALL_KEYS end) (bool_decide (old = None))).

Definition plan_dirty (d : Doc) (id : string) (keys : gset string) : option Change :=
  map ← item_map_of (d_items d) id;
  Some (mkChange (ix_meta (d_index d) !! id) (Some (item_meta map)) keys false).

Definition plan_removal (d : Doc) (id : string) : Change :=
  mkChange (ix_meta (d_index d) !! id) None ∅ false.

Fixpoint insert_plans (plans : list (string * option Change)) (changes : gmap string Change)
    : option (gmap string Change) :=
  match plans with
  | [] => Some changes
  | (id, c) :: plans => c ← c; insert_plans plans (<[id := c]> changes)
  end.

Definition plan_changes (d : Doc) (f : Frame) (dirty : gmap string (gset string)) : option (gmap string Change) :=
  changes ← insert_plans ((fun id => (id, plan_upsert d id)) <$> elements (fr_upserts f)) ∅;
  changes ← insert_plans ((fun '(id, keys) => (id, plan_dirty d id keys)) <$> map_to_list dirty) changes;
  insert_plans ((fun id => (id, Some (plan_removal d id))) <$> elements (fr_removals f)) changes.

Definition affected_lists (f : Frame) (changes : gmap string Change) : gset string :=
  dom (fr_shadows f) ∪ list_to_set ('(_, c) ← map_to_list changes;
    m_list_id <$> (option_list (ch_old c) ++ option_list (ch_new c))).

(** The whole read-only phase: [None] declines the frame. *)
Record Plan : Type := mkTPlan {
  pl_frame : Frame;
  pl_text : gmap string (list (list TextDelta));
  pl_changes : gmap string Change;
  pl_affected : gset string;
}.

Definition plan_frame `{Containers} (d : Doc) (diffs : list CapturedDiff) : option Plan :=
  f ← collect (d_index d) frame_empty diffs;
  let f := mkFrame (fr_lists_dirty f) (fr_settings_dirty f) (fr_focus_dirty f) (fr_upserts f)
             (fr_removals f ∖ fr_upserts f) (fr_map_dirty f) (fr_shadows f) (fr_active f) (fr_entry_churn f)
             (fr_text_deltas f) in
  if decide (map_Forall (fun l shadow => length shadow = length (order_list l d)) (fr_shadows f)) then
    let '(dirty, text) := resolve_dirty d f in
    if decide (DIFF_TRANSLATE_MAX_DIRTY
               <= size (fr_upserts f) + size (fr_removals f) + size dirty + fr_entry_churn f) then None
    else
      changes ← plan_changes d f dirty;
      Some (mkTPlan f text changes (affected_lists f changes))
  else None.

(** ** Phase 2: the index *)

Definition commit_metas (changes : gmap string Change) (idx : ProjectionIndex) : ProjectionIndex :=
  foldl (fun idx '(id, c) => match ch_new c with Some m => set_meta idx id m | None => remove_item idx id end)
    idx (map_to_list changes).

Definition commit_shadows (shadows : gmap string (list (option OrderEntry))) (idx : ProjectionIndex) : ProjectionIndex :=
  foldl (fun idx '(l, shadow) => set_raw idx l shadow) idx (map_to_list shadows).

(** [refresh_open] of every affected list, with the arrays before and after. *)
Definition refresh_lists (ls : list string) (idx : ProjectionIndex) : ProjectionIndex * gmap string (list string) :=
  foldl (fun '(idx, post) l => let '(idx, open) := refresh_open idx l in (idx, <[l := open]> post)) (idx, ∅) ls.

Definition open_arrays (affected : gset string) (idx : ProjectionIndex) : gmap string (list string) :=
  set_to_map (fun l => (l, open_at idx l)) affected.

Definition commit_plan (p : Plan) (idx : ProjectionIndex)
    : ProjectionIndex * (gmap string (list string) * gmap string (list string)) :=
  let pre := open_arrays (pl_affected p) idx in
  let idx := commit_metas (pl_changes p) idx in
  let idx := commit_shadows (fr_shadows (pl_frame p)) idx in
  let '(idx, post) := refresh_lists (elements (pl_affected p)) idx in
  (idx, (pre, post)).

(** ** Phase 3: the events *)

(** The unit error: the frame is beyond the fast path. *)
Definition declined : DocError := ELoro "".

Definition view_of (id : string) : M ItemView := fun d =>
  match item_map_of (d_items d) id ≫= item_view with
  | Some v => (Ok v, d)
  | None => (Err declined, d)
  end.

Definition lifecycle_changed (id : string) (view : ItemView) (open_index : option nat) : AppEvent :=
  ItemLifecycleChanged id (iv_state view) (iv_lifecycle_at view) (iv_started_at view) (iv_done_at view)
    (iv_binned_at view) open_index.

Definition push_if (b : bool) (ev : AppEvent) : M unit := if b then push_event ev else mret tt.

Section phase3.
Variable p : Plan.
Variable post_open : gmap string (list string).

Definition has (c : Change) (k : string) : bool := bool_decide (k ∈ ch_keys c).
Definition has_lifecycle (c : Change) : bool :=
  has c KEY_LIFECYCLE || has c KEY_STARTED_AT || has c KEY_DONE_AT || has c KEY_BINNED_AT.
Definition was_open (c : Change) : bool := match ch_old c with Some o => m_open o | None => false end.
Definition left_list (c : Change) (new : ItemMeta) : bool :=
  match ch_old c with Some o => bool_decide (m_list_id o <> m_list_id new) | None => false end.

(** The registers of a known item, and an open item's lane. *)
Definition content_events (id : string) (c : Change) (new : ItemMeta) : M unit :=
  view ← view_of id;
  push_if (has c KEY_TEXT) (ItemTextChanged id (iv_text view)) ;;
  (if has c KEY_NOTES then
     push_event (ItemNotesChanged id (iv_notes view)) ;;
     emit_notes_delta id (default [] (pl_text p !! id)) (chars (iv_notes view))
   else mret tt) ;;
  push_if (has c KEY_DEADLINE) (ItemDeadlineChanged id (iv_deadline view)) ;;
  push_if (has c KEY_WHEN) (ItemWhenChanged id (iv_when view)) ;;
  push_if (has c KEY_DURATION) (ItemDurationChanged id (iv_duration view)) ;;
  push_if (has c KEY_PLACE) (ItemPlaceChanged id (iv_place view)) ;;
  push_if (m_open new && was_open c && has_lifecycle c)
    (lifecycle_changed id view (post_open !! m_list_id new ≫= position_of id)).

(** The hidden side of one change, and the leave-signal of an open mover. *)
Definition change_events (id : string) (c : Change) : M unit :=
  match ch_new c with
  | None => mret tt
  | Some new =>
      (if ch_brand_new c then mret tt else content_events id c new) ;;
      if m_open new then
        push_if (negb (ch_brand_new c) && has c KEY_LOCATION && left_list c new)
          (ItemListChanged id (m_list_id new) None)
      else
        view ← view_of id;
        if ch_brand_new c then push_event (ItemAdded view None)
        else
          push_if (has_lifecycle c) (lifecycle_changed id view None) ;;
          push_if (has c KEY_LOCATION && left_list c new) (ItemListChanged id (m_list_id new) None)
  end.

(** The typed event that both inserts and positions an open item the consumer
    does not have in this list's array. *)
Definition insert_event (list_id : string) (i : nat) (id : string) : M (option AppEvent) :=
  match pl_changes p !! id with
  | None => mret None
  | Some c =>
      match ch_new c with
      | None => mret None
      | Some new =>
          if negb (m_open new) || bool_decide (m_list_id new <> list_id) then mret None
          else if ch_brand_new c then view ← view_of id; mret (Some (ItemAdded view (Some i)))
          else
            let shown := match ch_old c with Some o => negb (m_open o) | None => false end in
            if shown && (has c KEY_LIFECYCLE || has c KEY_BINNED_AT)
            then view ← view_of id; mret (Some (lifecycle_changed id view (Some i)))
            else mret None
      end
  end.

Fixpoint insert_types (list_id : string) (i : nat) (post : list string) : M (gmap string AppEvent) :=
  match post with
  | [] => mret ∅
  | id :: post =>
      ev ← insert_event list_id i id;
      later ← insert_types list_id (S i) post;
      mret (match ev with
            | Some ev => match later !! id with Some _ => later | None => <[id := ev]> later end
            | None => later
            end)
  end.

Definition positions (ids : list string) : gmap string nat := fst <$> rows_by_id (fun id => id) ids.

(** One remove-then-insert per event, in the order the events are sent. *)
Definition sorted_ops (post : list string) (ids : gset string) : list (nat * string) :=
  (fun x => (Z.to_nat x.1, x.2))
  <$> merge_sort key_le (omap (fun id => (fun i => (Z.of_nat i, id)) <$> positions post !! id) (elements ids)).

Definition replay_moves (ops : list (nat * string)) (arr : list string) : list string :=
  foldl (fun arr '(i, id) => place_item id (Some i) arr) arr ops.

Definition simulate (base post : list string) (inserts cands : gset string) : bool :=
  bool_decide (replay_moves (sorted_ops post (inserts ∪ cands)) (base.filter (fun id => id ∉ inserts) base) = post).

Definition minimal_moves (list_id : string) (post : list string) (inserts : gset string) : gset string :=
  base.filter (fun id => id ∈ post /\ id ∉ inserts) (default ∅ (fr_active (pl_frame p) !! list_id)).

Definition widened_moves (base post : list string) (inserts : gset string) : gset string :=
  list_to_set (omap (fun '(i, id) =>
    if decide ((id ∉ inserts) /\ positions base !! id <> Some i) then Some id else None) (imap pair post)).

(** The moves of one list, at most as many as the budget allows. *)
Definition list_candidates (list_id : string) (pre post : list string) (inserts : gset string) (planned : nat)
    : option (gset string) :=
  let base := base.filter (fun id => id ∈ post) pre in
  let minimal := minimal_moves list_id post inserts in
  if simulate base post inserts minimal then Some minimal
  else
    let widened := widened_moves base post inserts in
    if decide (DIFF_TRANSLATE_MAX_DIRTY <= size widened + planned) then None
    else if simulate base post inserts widened then Some widened else None.

(** The events of one list in ascending position. *)
Definition walk_events (post : list string) (inserts : gmap string AppEvent) (cands : gset string) : list AppEvent :=
  '(i, id) ← imap pair post;
  match inserts !! id with
  | Some ev => [ev]
  | None => if decide (id ∈ cands) then [ItemMoved id (Some i)] else []
  end.

Fixpoint walk_lists (pre_open : gmap string (list string)) (ls : list string) (planned : list AppEvent)
    : M (list AppEvent) :=
  match ls with
  | [] => mret planned
  | l :: ls =>
      let pre := default [] (pre_open !! l) in
      let post := default [] (post_open !! l) in
      inserts ← insert_types l 0 post;
      match list_candidates l pre post (dom inserts) (length planned) with
      | None => fail declined
      | Some cands => walk_lists pre_open ls (planned ++ walk_events post inserts cands)
      end
  end.
End phase3.

(** [translate_captured_diffs], on the document after the import. *)
Definition translate_captured_diffs `{Containers} (diffs : list CapturedDiff) (pre_lists : list ListView)
    (pre_settings : SettingsView) : M unit :=
  plan ← (fun d => (match plan_frame d diffs with Some p => Ok p | None => Err declined end, d));
  let f := pl_frame plan in
  '(pre_open, post_open) ← on_index (commit_plan plan);
  mfor (sort_strings (elements (fr_removals f))) (fun id => push_event (ItemRemoved id)) ;;
  mfor (sort_strings (elements (dom (pl_changes plan)))) (fun id =>
    match pl_changes plan !! id with
    | Some c => change_events plan post_open id c
    | None => mret tt
    end) ;;
  planned ← walk_lists plan post_open pre_open (sort_strings (elements (pl_affected plan))) [];
  if decide (DIFF_TRANSLATE_MAX_DIRTY <= length planned + size (fr_removals f)) then fail declined
  else
    mfor planned push_event ;;
    post_settings ← gets get_settings;
    post_lists ← gets all_lists;
    mfor ((if fr_settings_dirty f then diff_settings pre_settings post_settings else [])
          ++ (if fr_lists_dirty f then diff_lists pre_lists post_lists else [])) push_event ;;
    push_if (fr_focus_dirty f) FocusChanged.

(** [emit_diff_fallback]: one resync in place of everything queued. *)
Definition refresh_shadows (d : Doc) : gmap string (list N) :=
  map_imap (fun id shadow =>
    Some (match item_map_of (d_items d) id with
          | Some m => chars (default "" (read_text m KEY_NOTES))
          | None => shadow
          end)) (d_shadows d).

Definition emit_diff_fallback : M unit :=
  modify rebuild_index ;;
  modify (fun d => with_shadows (fun _ => refresh_shadows d) d) ;;
  modify (with_events (fun _ => [FullResync])).

(** ** The callers *)

(** What Loro does for an import or an undo step: the document it leaves (the
    containers are Loro's to change), the events its subscriber is called
    with, and whether the local peer's counter moved. *)
Record Applied (A : Type) : Type := mkApplied {
  ap_result : result DocError A;
  ap_containers : Doc -> Doc;
  ap_events : list DiffEvent;
  ap_counter_moved : bool;
}.
Arguments mkApplied {A}.
Arguments ap_result {A}.
Arguments ap_containers {A}.
Arguments ap_events {A}.
Arguments ap_counter_moved {A}.

(** [if translate(..).is_err() { emit_diff_fallback() }]. *)
Definition or_fallback (m : M unit) : M unit := fun d =>
  match m d with
  | (Ok _, d') => (Ok tt, d')
  | (Err _, d') => emit_diff_fallback d'
  end.

Definition import_translated `{Containers} {A} (import : Applied A) : M A :=
  pre_lists ← gets all_lists;
  pre_settings ← gets get_settings;
  modify (ap_containers import) ;;
  let diffs := captured CaptureImport (ap_events import) in
  (if ap_counter_moved import then rearm_undo else mret tt) ;;
  match ap_result import with
  | Err e => emit_diff_fallback ;; fail e
  | Ok vv => or_fallback (translate_captured_diffs diffs pre_lists pre_settings) ;; mret vv
  end.

(** [undo] and [redo]: the step of Loro's undo manager, translated. *)
Definition apply_undo_op `{Containers} (op : Applied bool) : M bool :=
  pre_lists ← gets all_lists;
  pre_settings ← gets get_settings;
  modify (ap_containers op) ;;
  let diffs := captured CaptureUndo (ap_events op) in
  did ← lift (ap_result op);
  (if (did : bool) then or_fallback (translate_captured_diffs diffs pre_lists pre_settings) else mret tt) ;;
  mret did.

(** [snapshot_events]: the burst a fresh consumer starts from. *)
Fixpoint number_open (counters : gmap string nat) (items : list ItemView) : list AppEvent :=
  match items with
  | [] => []
  | it :: items =>
      if iv_is_open it then
        let i := default 0 (counters !! iv_list_id it) in
        ItemAdded it (Some i) :: number_open (<[iv_list_id it := S i]> counters) items
      else ItemAdded it None :: number_open counters items
  end.

Definition snapshot_events (d : Doc) : list AppEvent :=
  settings_changed (get_settings d)
  :: imap (fun i l => ListAdded (lv_id l) (lv_name l) (lv_created_at l) (lv_archived_at l) i) (all_lists d)
  ++ number_open ∅ (iter_items d).
