(* ===== verification/TranslateIndex.v ===== *)
(** What the plan of a remote frame does to the index: if the captured diffs
    are those of the import, the index the fast path leaves is exact. *)
From S2P Require Import Prelude.
From S2P Require Import Loro.
From S2P Require Import Lifecycle.
From S2P Require Import Registers.
From S2P Require Import Projection.
From S2P Require Import ProjectionFacts.
From S2P Require Import ProjectionOps.
From S2P Require Import Notes.
From S2P Require Import Events.
From S2P Require Import DocCore.
From S2P Require Import DocItems.
From S2P Require Import DocIndex.
From S2P Require Import IndexBuild.
From S2P Require Import Translate.

(** ** Replaying an order diff *)

(** The order diffs of one list, applied to what the list held. *)
Fixpoint replay_order (l : string) (raw : list (option OrderEntry)) (diffs : list CapturedDiff)
    : option (list (option OrderEntry)) :=
  match diffs with
  | [] => Some raw
  | COrder list_id ops :: diffs =>
      if decide (list_id = l) then
        r ← replay_ops (mkReplay raw 0 [] 0) ops; replay_order l (rp_shadow r) diffs
      else replay_order l raw diffs
  | _ :: diffs => replay_order l raw diffs
  end.

(** A replay over a prefix leaves the rest alone. *)
Definition longer (rest : list (option OrderEntry)) (r : Replay) : Replay :=
  mkReplay (rp_shadow r ++ rest) (rp_pos r) (rp_active r) (rp_churn r).
Definition in_bounds (r : Replay) : Prop := rp_pos r <= length (rp_shadow r).

Lemma replay_insert_longer rest vals : forall r, in_bounds r ->
  foldl replay_insert (longer rest r) vals = longer rest (foldl replay_insert r vals)
  /\ in_bounds (foldl replay_insert r vals).
Proof.
  induction vals as [|v vals IH]; intros r Hb; [done|]. cbn [foldl]. unfold in_bounds in Hb.
  assert (E : replay_insert (longer rest r) v = longer rest (replay_insert r v)).
  { unfold replay_insert, longer. cbn [rp_shadow rp_pos rp_active rp_churn]. rewrite length_app, !Nat.min_l by lia. by rewrite insert_at_app. }
  rewrite E. apply IH. unfold in_bounds, replay_insert. cbn [rp_shadow rp_pos]. rewrite length_insert_at. lia.
Qed.

Lemma replay_ops_longer rest ops : forall r r', in_bounds r -> replay_ops r ops = Some r' ->
  replay_ops (longer rest r) ops = Some (longer rest r').
Proof.
  induction ops as [|op ops IH]; intros r r' Hb; cbn [replay_ops]; [by intros [= <-]|].
  destruct (replay_op r op) as [r1|] eqn:E1; [|done]. cbn [mbind option_bind]. intros E.
  assert (H1 : replay_op (longer rest r) op = Some (longer rest r1) /\ in_bounds r1).
  { unfold in_bounds in *. destruct op as [n|n|vals]; cbn in *.
    - rewrite length_app. case_decide; [done|]. injection E1 as <-. rewrite decide_False by lia. cbn. split; [done|lia].
    - rewrite length_app. case_decide; [done|]. injection E1 as <-. rewrite decide_False by lia. cbn.
      unfold longer. cbn. rewrite take_app_le, drop_app_le, app_assoc by lia. split; [done|].
      rewrite length_app, length_take. lia.
    - injection E1 as <-. destruct (replay_insert_longer rest vals r Hb) as [-> ?]. done. }
  destruct H1 as [-> Hb1]. cbn [mbind option_bind]. by apply IH.
Qed.

Lemma replay_order_longer l rest diffs : forall raw raw', replay_order l raw diffs = Some raw' ->
  replay_order l (raw ++ rest) diffs = Some (raw' ++ rest).
Proof.
  induction diffs as [|diff diffs IH]; intros raw raw'; cbn; [by intros [= <-]|].
  destruct diff; try apply IH. case_decide as Hl; [|apply IH].
  destruct (replay_ops (mkReplay raw 0 [] 0) ops) as [r|] eqn:E; [|done]. cbn [mbind option_bind].
  change (mkReplay (raw ++ rest) 0 [] 0) with (longer rest (mkReplay raw 0 [] 0)).
  rewrite (replay_ops_longer rest ops (mkReplay raw 0 [] 0) r); [|unfold in_bounds; cbn; lia|done]. cbn. apply IH.
Qed.

(** ** What the diffs of a frame add up to *)

Definition upserted_in (diffs : list CapturedDiff) (id : string) : Prop :=
  exists up rm, CItemsRoot up rm ∈ diffs /\ id ∈ up.
Definition removed_in (diffs : list CapturedDiff) (id : string) : Prop :=
  exists up rm, CItemsRoot up rm ∈ diffs /\ id ∈ rm.
(** A key of a map reported dirty. *)
Definition dirty_in (diffs : list CapturedDiff) (cid : ContainerID) (key : string) : Prop :=
  (exists keys, CItemMap cid keys ∈ diffs /\ key ∈ keys) \/ (exists delta, CItemText cid key delta ∈ diffs).

Lemma elem_of_extend_set {K} `{Countable K} (k : K) vs m j x :
  x ∈ default ∅ (extend_set k vs m !! j) <-> (k = j /\ x ∈ vs) \/ x ∈ default ∅ (m !! j).
Proof.
  unfold extend_set. destruct (decide (k = j)) as [->|Hne].
  - rewrite lookup_insert_eq. cbn. rewrite elem_of_union. tauto.
  - rewrite lookup_insert_ne by done. tauto.
Qed.

(** One diff more. *)
Lemma collect_one_facts idx f diff f' : collect_one idx f diff = Some f' ->
  (forall id, id ∈ fr_upserts f' <-> upserted_in [diff] id \/ id ∈ fr_upserts f)
  /\ (forall id, id ∈ fr_removals f' <-> removed_in [diff] id \/ id ∈ fr_removals f)
  /\ (forall cid key, key ∈ default ∅ (fr_map_dirty f' !! cid) <-> dirty_in [diff] cid key \/ key ∈ default ∅ (fr_map_dirty f !! cid))
  /\ (forall l, replay_order l (default (raw_at idx l) (fr_shadows f !! l)) [diff]
       = Some (default (raw_at idx l) (fr_shadows f' !! l))).
Proof.
  assert (Hnone : forall {A} (P : A -> Prop) (Q : Prop), (forall x, P x -> False) -> Q <-> (exists x, P x) \/ Q).
  { intros A P Q HP. split; [tauto|]. intros [[x Hx]|?]; [by destruct (HP x)|done]. }
  unfold upserted_in, removed_in, dirty_in. setoid_rewrite list_elem_of_singleton.
  destruct f as [ld sd fo up rm md sh ac ch td]. destruct diff as [u r|c keys|c key delta|l0 ops| | | |]; cbn [collect_one]; intros E.
  - injection E as <-. cbn. split_and!; [intros id|intros id|intros cid key|done].
    + rewrite elem_of_union, elem_of_list_to_set. naive_solver.
    + rewrite elem_of_union, elem_of_list_to_set. naive_solver.
    + naive_solver.
  - injection E as <-. cbn. split_and!; [naive_solver|naive_solver| |done].
    intros cid key. rewrite elem_of_extend_set, elem_of_list_to_set. naive_solver.
  - injection E as <-. cbn. split_and!; [naive_solver|naive_solver| |done].
    intros cid key'. rewrite elem_of_extend_set, elem_of_singleton. naive_solver.
  - destruct (replay_ops _ ops) as [r|] eqn:Er; [|done]. cbn in E. injection E as <-. cbn.
    split_and!; [naive_solver|naive_solver|naive_solver|]. intros l. case_decide as Hl.
    + subst l0. rewrite Er, lookup_insert_eq. done.
    + by rewrite lookup_insert_ne.
  - injection E as <-. cbn. split_and!; [naive_solver..|done].
  - injection E as <-. cbn. split_and!; [naive_solver..|done].
  - injection E as <-. cbn. split_and!; [naive_solver..|done].
  - done.
Qed.

Lemma replay_order_cons l raw diff diffs : replay_order l raw (diff :: diffs)
  = raw' ← replay_order l raw [diff]; replay_order l raw' diffs.
Proof. destruct diff; try done. cbn. case_decide; [|done]. by destruct (replay_ops _ _). Qed.

Lemma in_cons_facts diff diffs :
  (forall id, upserted_in (diff :: diffs) id <-> upserted_in [diff] id \/ upserted_in diffs id)
  /\ (forall id, removed_in (diff :: diffs) id <-> removed_in [diff] id \/ removed_in diffs id)
  /\ (forall cid key, dirty_in (diff :: diffs) cid key <-> dirty_in [diff] cid key \/ dirty_in diffs cid key).
Proof.
  unfold upserted_in, removed_in, dirty_in. setoid_rewrite list_elem_of_singleton. setoid_rewrite elem_of_cons.
  split_and!; intros; naive_solver.
Qed.

Lemma collect_facts idx diffs : forall f f', collect idx f diffs = Some f' ->
  (forall id, id ∈ fr_upserts f' <-> upserted_in diffs id \/ id ∈ fr_upserts f)
  /\ (forall id, id ∈ fr_removals f' <-> removed_in diffs id \/ id ∈ fr_removals f)
  /\ (forall cid key, key ∈ default ∅ (fr_map_dirty f' !! cid) <-> dirty_in diffs cid key \/ key ∈ default ∅ (fr_map_dirty f !! cid))
  /\ (forall l, replay_order l (default (raw_at idx l) (fr_shadows f !! l)) diffs
       = Some (default (raw_at idx l) (fr_shadows f' !! l))).
Proof.
  induction diffs as [|diff diffs IH]; intros f f'; cbn [collect].
  - intros [= <-]. unfold upserted_in, removed_in, dirty_in. setoid_rewrite elem_of_nil. split_and!; [naive_solver..|done].
  - destruct (collect_one idx f diff) as [f1|] eqn:E1; [|done]. cbn [mbind option_bind]. intros E.
    destruct (IH f1 f' E) as (I1 & I2 & I3 & I4). destruct (collect_one_facts idx f diff f1 E1) as (O1 & O2 & O3 & O4).
    destruct (in_cons_facts diff diffs) as (C1 & C2 & C3). split_and!.
    + intros id. rewrite I1, O1, C1. tauto.
    + intros id. rewrite I2, O2, C2. tauto.
    + intros cid key. rewrite I3, O3, C3. tauto.
    + intros l. rewrite replay_order_cons, O4. cbn. apply I4.
Qed.

(** ** The changes of a plan *)

Section plan.
Context `{Containers}.

(** The item a dirty container is the map of. *)
Definition names (d : Doc) (cid : ContainerID) (id : string) : Prop := read_string (get_map d cid) KEY_ID = Some id.
Definition untouched (f : Frame) (id : string) : Prop := (id ∉ fr_removals f) /\ (id ∉ fr_upserts f).

Lemma resolve_all_facts d f l : forall acc,
  (forall id, is_Some (acc.1 !! id) -> untouched f id) ->
  let acc' := foldl (resolve_one d f) acc l in
  (forall id key, untouched f id ->
     (exists cid keys, (cid, keys) ∈ l /\ key ∈ keys /\ names d cid id) \/ key ∈ default ∅ (acc.1 !! id) ->
     key ∈ default ∅ (acc'.1 !! id))
  /\ (forall id, is_Some (acc'.1 !! id) -> untouched f id).
Proof.
  induction l as [|[cid keys] l IH]; intros acc Hacc; cbn [foldl].
  - split; [|done]. intros id key _ [(cid & keys & []%elem_of_nil & _)|?]; done.
  - assert (Hskip : resolve_one d f acc (cid, keys) = acc -> (forall id, names d cid id -> ~ untouched f id) ->
      let acc' := foldl (resolve_one d f) (resolve_one d f acc (cid, keys)) l in
      (forall id key, untouched f id ->
        (exists c ks, (c, ks) ∈ (cid, keys) :: l /\ key ∈ ks /\ names d c id) \/ key ∈ default ∅ (acc.1 !! id) ->
        key ∈ default ∅ (acc'.1 !! id)) /\ (forall id, is_Some (acc'.1 !! id) -> untouched f id)).
    { intros -> Hno. destruct (IH acc Hacc) as [I1 I2]. split; [|done]. intros id key Hu Hk. apply I1; [done|].
      destruct Hk as [(c & ks & [[= -> ->]|Hin]%elem_of_cons & Hk & Hc)|Hk]; [by destruct (Hno id)|left; eauto|by right]. }
    unfold resolve_one in *. cbn [fst snd] in *. unfold names in *.
    destruct (read_string (get_map d cid) KEY_ID) as [j|] eqn:Ej; [case_decide as Hj|].
    + apply Hskip; [done|]. intros id [= ->] [??]. tauto.
    + clear Hskip. destruct (IH (extend_set j keys acc.1,
        match fr_text_deltas f !! cid with Some ds => <[j := ds]> acc.2 | None => acc.2 end)) as [I1 I2].
      { intros id. cbn. unfold extend_set. destruct (decide (j = id)) as [->|Hne]; [unfold untouched; tauto|].
        rewrite lookup_insert_ne by done. apply Hacc. }
      split; [|done]. intros id key Hu Hk. apply I1; [done|]. cbn [fst]. rewrite elem_of_extend_set.
      destruct Hk as [(c & ks & [[= -> ->]|Hin]%elem_of_cons & Hk & Hc)|Hk]; [|left; eauto|tauto].
      right. left. rewrite Ej in Hc. injection Hc as ->. done.
    + apply Hskip; [done|]. by intros id.
Qed.

Lemma resolve_dirty_facts d f dirty text : resolve_dirty d f = (dirty, text) ->
  (forall id key, untouched f id -> (exists cid, key ∈ default ∅ (fr_map_dirty f !! cid) /\ names d cid id) ->
     key ∈ default ∅ (dirty !! id))
  /\ (forall id, is_Some (dirty !! id) -> untouched f id).
Proof.
  unfold resolve_dirty. intros E.
  destruct (resolve_all_facts d f (map_to_list (fr_map_dirty f)) (∅, ∅)) as [G1 G2].
  { intros id. cbn. rewrite lookup_empty. by intros []. }
  rewrite E in G1, G2. split; [|done]. intros id key Hu (cid & Hk & Hc). apply G1; [done|]. left.
  destruct (fr_map_dirty f !! cid) as [keys|] eqn:Ec; [|by apply elem_of_empty in Hk].
  exists cid, keys. split_and!; [by apply elem_of_map_to_list|done|done].
Qed.

Lemma insert_plans_facts plans : forall ch ch', NoDup plans.*1 -> insert_plans plans ch = Some ch' ->
  (forall id c, (id, c) ∈ plans -> exists c', c = Some c' /\ ch' !! id = Some c')
  /\ (forall id, id ∉ plans.*1 -> ch' !! id = ch !! id).
Proof.
  induction plans as [|[id c] plans IH]; intros ch ch' Hn; cbn [insert_plans].
  - intros [= ->]. split; [by intros ? ? ?%not_elem_of_nil|done].
  - destruct c as [c|]; [|done]. cbn in *. intros E. apply NoDup_cons in Hn as [Hn1 Hn2].
    destruct (IH _ _ Hn2 E) as [I1 I2]. split.
    + intros j cj [[= -> ->]|Hj]%elem_of_cons; [|by apply I1]. exists c. split; [done|]. rewrite I2 by done. by rewrite lookup_insert_eq.
    + intros j [Hj1 Hj2]%not_elem_of_cons. rewrite I2 by done. by rewrite lookup_insert_ne.
Qed.

Definition removals_of (f : Frame) : gset string := fr_removals f ∖ fr_upserts f.

Lemma plan_changes_facts d f dirty ch :
  (forall id, is_Some (dirty !! id) -> untouched f id) ->
  (forall id, id ∈ fr_removals f -> id ∉ fr_upserts f) ->
  plan_changes d f dirty = Some ch -> forall id,
  (id ∈ fr_upserts f -> plan_upsert d id <> None /\ ch !! id = plan_upsert d id)
  /\ (id ∈ fr_removals f -> ch !! id = Some (plan_removal d id))
  /\ (forall keys, dirty !! id = Some keys -> plan_dirty d id keys <> None /\ ch !! id = plan_dirty d id keys)
  /\ (id ∉ fr_upserts f -> id ∉ fr_removals f -> dirty !! id = None -> ch !! id = None).
Proof.
  intros Hd Hr E id. unfold plan_changes in E.
  destruct (insert_plans _ ∅) as [c1|] eqn:E1; [|done]. cbn [mbind option_bind] in E.
  destruct (insert_plans _ c1) as [c2|] eqn:E2; [|done]. cbn [mbind option_bind] in E.
  apply insert_plans_facts in E1 as [A1 A2]; [|rewrite <- list_fmap_compose, list_fmap_id; apply NoDup_elements].
  assert (Hk : ((fun '(id, keys) => (id, plan_dirty d id keys)) <$> map_to_list dirty).*1 = (map_to_list dirty).*1).
  { rewrite <- list_fmap_compose. apply list_fmap_ext. by intros ? []. }
  apply insert_plans_facts in E2 as [B1 B2]; [|rewrite Hk; apply NoDup_fst_map_to_list].
  apply insert_plans_facts in E as [C1 C2]; [|rewrite <- list_fmap_compose, list_fmap_id; apply NoDup_elements].
  assert (Hin1 : id ∉ ((fun id => (id, plan_upsert d id)) <$> elements (fr_upserts f)).*1 <-> id ∉ fr_upserts f).
  { rewrite <- list_fmap_compose, list_fmap_id. by rewrite elem_of_elements. }
  assert (Hin2 : id ∉ ((fun '(id, keys) => (id, plan_dirty d id keys)) <$> map_to_list dirty).*1 <-> dirty !! id = None).
  { rewrite Hk, list_elem_of_fmap. rewrite eq_None_not_Some. split.
    - intros Hx [keys Hkeys]. apply Hx. exists (id, keys). split; [done|]. by apply elem_of_map_to_list.
    - intros Hx ([j keys] & -> & Hj%elem_of_map_to_list). apply Hx. by eexists. }
  assert (Hin3 : id ∉ ((fun id => (id, Some (plan_removal d id))) <$> elements (fr_removals f)).*1 <-> id ∉ fr_removals f).
  { rewrite <- list_fmap_compose, list_fmap_id. by rewrite elem_of_elements. }
  split_and!.
  - intros Hu. destruct (A1 id (plan_upsert d id)) as (c & Ec & El).
    { apply list_elem_of_fmap. exists id. by rewrite elem_of_elements. }
    rewrite C2, B2, El, Ec; [done|apply Hin2|apply Hin3].
    + apply eq_None_not_Some. intros Hx%Hd. by destruct Hx.
    + intros Hx%Hr. done.
  - intros Hx. destruct (C1 id (Some (plan_removal d id))) as (c & [= <-] & El); [|done].
    apply list_elem_of_fmap. exists id. by rewrite elem_of_elements.
  - intros keys Hkeys. destruct (B1 id (plan_dirty d id keys)) as (c & Ec & El).
    { apply list_elem_of_fmap. exists (id, keys). split; [done|]. by apply elem_of_map_to_list. }
    rewrite C2, El, Ec; [done|]. apply Hin3. apply Hd. by eexists.
  - intros Hu Hx Hn. rewrite C2, B2, A2; [by rewrite lookup_empty|by apply Hin1|by apply Hin2|by apply Hin3].
Qed.
End plan.

(** ** What Loro promises of the diffs *)

(** The captured diffs are those that lead from one document to the other. *)
Record faithful `{Containers} (pre d : Doc) (diffs : list CapturedDiff) : Prop := {
  fa_removed id : removed_in diffs id -> ~ upserted_in diffs id -> item_map_of (d_items d) id = None;
  fa_same id : ~ upserted_in diffs id -> ~ removed_in diffs id ->
    is_Some (item_map_of (d_items pre) id) <-> is_Some (item_map_of (d_items d) id);
  fa_keys id m m' key : ~ upserted_in diffs id -> ~ removed_in diffs id ->
    item_map_of (d_items pre) id = Some m -> item_map_of (d_items d) id = Some m' ->
    m !! key = m' !! key \/ exists cid, dirty_in diffs cid key /\ names d cid id;
  fa_orders l : replay_order l (raw_order pre l) diffs = Some (raw_order d l);
}.

(** Every list something is in has its container in the index whole. *)
Definition mirrored (pre d : Doc) : Prop :=
  forall l id, located (doc_metas (d_items d)) l id -> raw_at (d_index pre) l = raw_order pre l.

(** The keys the openness and the list of an item are read from. *)
Lemma item_meta_keys m m' :
  (m_open (item_meta m) <> m_open (item_meta m') -> m !! KEY_LIFECYCLE <> m' !! KEY_LIFECYCLE \/ m !! KEY_BINNED_AT <> m' !! KEY_BINNED_AT)
  /\ (m_list_id (item_meta m) <> m_list_id (item_meta m') -> m !! KEY_LOCATION <> m' !! KEY_LOCATION).
Proof.
  split.
  - intros Hne. destruct (decide (read_i64 m KEY_BINNED_AT = read_i64 m' KEY_BINNED_AT)) as [E2|E2].
    + left. intros E1. apply Hne. cbn. unfold map_is_open. rewrite E2. destruct (read_i64 m' KEY_BINNED_AT); [done|].
      unfold workflow_of, read_workflow. rewrite E1. by repeat case_match.
    + right. intros E. apply E2. unfold read_i64. by rewrite E.
  - intros Hne E. apply Hne. cbn. unfold map_location, read_string. by rewrite E.
Qed.

(** One planned change is the change of the item. *)
Record change_ok (pre d : Doc) (id : string) (c : Change) : Prop := {
  co_old : ch_old c = doc_metas (d_items pre) !! id;
  co_new : ch_new c = doc_metas (d_items d) !! id;
  co_brand : ch_brand_new c = true <-> ch_old c = None /\ ch_new c <> None;
  co_open o n : ch_old c = Some o -> ch_new c = Some n -> m_open o <> m_open n ->
    KEY_LIFECYCLE ∈ ch_keys c \/ KEY_BINNED_AT ∈ ch_keys c;
  co_list o n : ch_old c = Some o -> ch_new c = Some n -> m_list_id o <> m_list_id n -> KEY_LOCATION ∈ ch_keys c;
}.

Section changes.
Context `{Containers}.
Variables pre d : Doc.
Variable diffs : list CapturedDiff.
Hypothesis Hpre : index_ok pre.
Hypothesis Hidx : d_index d = d_index pre.
Hypothesis Hfaith : faithful pre d diffs.

Definition kept_removals (f : Frame) : Frame :=
  mkFrame (fr_lists_dirty f) (fr_settings_dirty f) (fr_focus_dirty f) (fr_upserts f)
    (fr_removals f ∖ fr_upserts f) (fr_map_dirty f) (fr_shadows f) (fr_active f) (fr_entry_churn f) (fr_text_deltas f).

Lemma plan_frame_inv p : plan_frame d diffs = Some p ->
  exists f dirty, collect (d_index d) frame_empty diffs = Some f /\ pl_frame p = kept_removals f
  /\ map_Forall (fun l shadow => length shadow = length (order_list l d)) (fr_shadows f)
  /\ resolve_dirty d (kept_removals f) = (dirty, pl_text p)
  /\ plan_changes d (kept_removals f) dirty = Some (pl_changes p)
  /\ pl_affected p = affected_lists (kept_removals f) (pl_changes p).
Proof.
  unfold plan_frame. destruct (collect _ _ _) as [f|]; [|done]. cbn [mbind option_bind]. fold (kept_removals f). cbn [fr_shadows kept_removals].
  case_decide as Hlen; [|done]. destruct (resolve_dirty d (kept_removals f)) as [dirty text] eqn:Er.
  case_decide; [done|]. destruct (plan_changes d (kept_removals f) dirty) as [ch|] eqn:Ec; [|done]. cbn. intros [= <-].
  by exists f, dirty.
Qed.

Variable p : Plan.
Hypothesis Hplan : plan_frame d diffs = Some p.

Lemma plan_change_cases id :
  (exists c, pl_changes p !! id = Some c /\ change_ok pre d id c
     /\ (id ∈ fr_removals (pl_frame p) <-> ch_new c = None))
  \/ (pl_changes p !! id = None /\ doc_metas (d_items d) !! id = doc_metas (d_items pre) !! id
      /\ id ∉ fr_removals (pl_frame p)).
Proof.
  destruct (plan_frame_inv p Hplan) as (f & dirty & E & Ef & _ & Er & Ec & _).
  destruct (collect_facts _ _ _ _ E) as (C1 & C2 & C3 & _). cbn in C1, C2, C3.
  destruct (resolve_dirty_facts _ _ _ _ Er) as [R1 R2].
  destruct (plan_changes_facts d (kept_removals f) dirty (pl_changes p) R2 ltac:(cbn; set_solver) Ec id) as (P1 & P2 & P3 & P4).
  cbn [fr_upserts fr_removals kept_removals] in P1, P2, P4. rewrite Ef. cbn [fr_removals kept_removals].
  assert (Hup : id ∈ fr_upserts f <-> upserted_in diffs id) by (rewrite C1; set_solver).
  assert (Hrm : id ∈ fr_removals f <-> removed_in diffs id) by (rewrite C2; set_solver).
  pose proof (ok_meta _ Hpre) as Hmeta.
  destruct (decide (id ∈ fr_upserts f)) as [Hu|Hu]; [|destruct (decide (id ∈ fr_removals f)) as [Hr|Hr]; [|destruct (dirty !! id) as [keys|] eqn:Ek]].
  - left. destruct (P1 Hu) as [Hs ->]. unfold plan_upsert in *. destruct (item_map_of (d_items d) id) as [m|] eqn:Em; [|done].
    cbn in *. eexists. split; [reflexivity|]. split; [|cbn; set_solver].
    rewrite Hidx, Hmeta. split; cbn; [done|by rewrite doc_metas_item, Em|rewrite bool_decide_eq_true; naive_solver| |];
      intros o n Eo; rewrite Eo; intros; [left|]; unfold ALL_KEYS; set_solver.
  - left. eexists. split; [apply P2; set_solver|]. split; [|cbn; set_solver].
    split; cbn; [by rewrite Hidx, Hmeta|rewrite doc_metas_item|naive_solver|done|done].
    rewrite (fa_removed _ _ _ Hfaith); [done|by apply Hrm|by rewrite <- Hup].
  - left. destruct (P3 keys eq_refl) as [Hs ->]. unfold plan_dirty in *. destruct (item_map_of (d_items d) id) as [m|] eqn:Em; [|done].
    cbn in *. eexists. split; [reflexivity|]. split; [|cbn; set_solver].
    rewrite Hup in Hu. rewrite Hrm in Hr. destruct (proj2 (fa_same _ _ _ Hfaith id Hu Hr)) as [m0 Em0]; [by eexists|].
    assert (Hold : doc_metas (d_items pre) !! id = Some (item_meta m0)) by (by rewrite doc_metas_item, Em0).
    assert (Hkey : forall key, m0 !! key <> m !! key -> key ∈ keys).
    { intros key Hne. destruct (fa_keys _ _ _ Hfaith id m0 m key Hu Hr Em0 Em) as [?|(cid & Hd & Hc)]; [done|].
      assert (Hk : key ∈ default ∅ (dirty !! id)).
      { apply R1; [split; cbn; set_solver|]. exists cid. split; [|done]. apply C3. by left. }
      by rewrite Ek in Hk. }
    destruct (item_meta_keys m0 m) as [K1 K2].
    split; cbn; rewrite ?Hidx, ?Hmeta, ?Hold; [done|by rewrite doc_metas_item, Em|naive_solver| |].
    + intros o n [= <-] [= <-] [Hne|Hne]%K1; [left|right]; by apply Hkey.
    + intros o n [= <-] [= <-] Hne%K2. by apply Hkey.
  - right. split_and!; [by apply P4; [|set_solver|]| |set_solver].
    rewrite !doc_metas_item. rewrite Hup in Hu. rewrite Hrm in Hr. pose proof (fa_same _ _ _ Hfaith id Hu Hr) as Hs.
    destruct (item_map_of (d_items pre) id) as [m0|] eqn:Em0, (item_map_of (d_items d) id) as [m|] eqn:Em; try done.
    + cbn. do 2 f_equal. apply map_eq. intros key.
      destruct (fa_keys _ _ _ Hfaith id m0 m key Hu Hr Em0 Em) as [E0|(cid & Hd & Hc)]; [done|].
      assert (Hk : key ∈ default ∅ (dirty !! id)).
      { apply R1; [split; cbn; set_solver|]. exists cid. split; [|done]. apply C3. by left. }
      rewrite Ek in Hk. by apply elem_of_empty in Hk.
    + destruct (proj1 Hs) as [? ?]; [by eexists|done].
    + destruct (proj2 Hs) as [? ?]; [by eexists|done].
Qed.
End changes.

(** ** The index after the commit *)

Lemma commit_metas_facts ch idx : index_sets idx ->
  let idx' := commit_metas ch idx in
  index_sets idx'
  /\ (forall id, ix_meta idx' !! id = match ch !! id with Some c => ch_new c | None => ix_meta idx !! id end)
  /\ ix_raw_orders idx' = ix_raw_orders idx /\ ix_open_by_list idx' = ix_open_by_list idx
  /\ ix_open_visible_counts idx' = ix_open_visible_counts idx.
Proof.
  intros Hs. unfold commit_metas.
  assert (Hgen : forall l idx, NoDup l.*1 -> index_sets idx ->
    let idx' := foldl (fun idx '(id, c) => match ch_new c with Some m => set_meta idx id m | None => remove_item idx id end) idx l in
    index_sets idx'
    /\ (forall id c, (id, c) ∈ l -> ix_meta idx' !! id = ch_new c)
    /\ (forall id, id ∉ l.*1 -> ix_meta idx' !! id = ix_meta idx !! id)
    /\ ix_raw_orders idx' = ix_raw_orders idx /\ ix_open_by_list idx' = ix_open_by_list idx
    /\ ix_open_visible_counts idx' = ix_open_visible_counts idx).
  { clear. induction l as [|[id c] l IH]; intros idx Hn Hs; cbn [foldl].
    - split_and!; [done|by intros ? ? ?%not_elem_of_nil|done..].
    - apply NoDup_cons in Hn as [Hn1 Hn2]. cbn in Hn1.
      set (idx1 := match ch_new c with Some m => set_meta idx id m | None => remove_item idx id end).
      assert (H1 : index_sets idx1 /\ (forall j, ix_meta idx1 !! j = if decide (j = id) then ch_new c else ix_meta idx !! j)
        /\ ix_raw_orders idx1 = ix_raw_orders idx /\ ix_open_by_list idx1 = ix_open_by_list idx
        /\ ix_open_visible_counts idx1 = ix_open_visible_counts idx).
      { unfold idx1. destruct (ch_new c) as [m|].
        - destruct (set_meta_frame idx id m) as (-> & -> & -> & ->). split_and!; [by apply set_meta_sets| |done..].
          intros j. rewrite lookup_insert. case_decide; [subst; by rewrite decide_True|by rewrite decide_False].
        - destruct (remove_item_frame idx id) as (-> & -> & -> & ->). split_and!; [by apply remove_item_sets| |done..].
          intros j. rewrite lookup_delete. case_decide; [subst; by rewrite decide_True|by rewrite decide_False]. }
      destruct H1 as (S1 & M1 & <- & <- & <-). destruct (IH idx1 Hn2 S1) as (I1 & I2 & I3 & -> & -> & ->).
      split_and!; [done| | |done..].
      + intros j cj [[= -> ->]|Hj]%elem_of_cons; [|by apply I2]. rewrite I3, M1 by done. by rewrite decide_True.
      + intros j [Hj1 Hj2]%not_elem_of_cons. rewrite I3, M1 by done. by rewrite decide_False. }
  destruct (Hgen (map_to_list ch) idx (NoDup_fst_map_to_list ch) Hs) as (G1 & G2 & G3 & G4).
  cbn zeta. split_and!; [done| |apply G4..]. intros id. destruct (ch !! id) as [c|] eqn:Ec.
  - apply G2. by apply elem_of_map_to_list.
  - apply G3. intros ([j c] & -> & Hin%elem_of_map_to_list)%list_elem_of_fmap. cbn in Ec. congruence.
Qed.

Lemma commit_shadows_facts sh idx :
  let idx' := commit_shadows sh idx in
  (forall l, raw_at idx' l = default (raw_at idx l) (sh !! l))
  /\ ix_meta idx' = ix_meta idx /\ ix_members idx' = ix_members idx /\ ix_open_members idx' = ix_open_members idx
  /\ ix_open_by_list idx' = ix_open_by_list idx /\ ix_open_visible_counts idx' = ix_open_visible_counts idx.
Proof.
  unfold commit_shadows.
  assert (Hgen : forall l idx, NoDup l.*1 ->
    let idx' := foldl (fun idx '(l, shadow) => set_raw idx l shadow) idx l in
    (forall k s, (k, s) ∈ l -> raw_at idx' k = s) /\ (forall k, k ∉ l.*1 -> raw_at idx' k = raw_at idx k)
    /\ ix_meta idx' = ix_meta idx /\ ix_members idx' = ix_members idx /\ ix_open_members idx' = ix_open_members idx
    /\ ix_open_by_list idx' = ix_open_by_list idx /\ ix_open_visible_counts idx' = ix_open_visible_counts idx).
  { clear. induction l as [|[k s] l IH]; intros idx Hn; cbn [foldl].
    - split_and!; [by intros ? ? ?%not_elem_of_nil|done..].
    - apply NoDup_cons in Hn as [Hn1 Hn2]. cbn in Hn1. destruct (IH (set_raw idx k s) Hn2) as (I1 & I2 & I3).
      split_and!; [| |apply I3..].
      + intros j sj [[= -> ->]|Hj]%elem_of_cons; [|by apply I1]. rewrite I2 by done. rewrite raw_at_set_raw. by rewrite decide_True.
      + intros j [Hj1 Hj2]%not_elem_of_cons. rewrite I2 by done. rewrite raw_at_set_raw. by rewrite decide_False. }
  destruct (Hgen (map_to_list sh) idx (NoDup_fst_map_to_list sh)) as (G1 & G2 & G3).
  cbn zeta. split; [|exact G3]. intros l. destruct (sh !! l) as [s|] eqn:Es; cbn.
  - apply G1. by apply elem_of_map_to_list.
  - apply G2. intros ([j c] & -> & Hin%elem_of_map_to_list)%list_elem_of_fmap. cbn in Es. congruence.
Qed.

Lemma refresh_lists_facts ls idx : index_sets idx ->
  (refresh_lists ls idx).1 = foldl (fun idx l => (refresh_open idx l).1) idx ls
  /\ forall l, l ∈ ls -> (refresh_lists ls idx).2 !! l = Some (open_projection (ix_meta idx) l (raw_at idx l)).
Proof.
  unfold refresh_lists.
  assert (Hgen : forall ls idx (post : gmap string (list string)), index_sets idx ->
    let r := foldl (fun '(idx, post) l => let '(idx, open) := refresh_open idx l in (idx, <[l := open]> post)) (idx, post) ls in
    r.1 = foldl (fun idx l => (refresh_open idx l).1) idx ls
    /\ forall l, r.2 !! l = if decide (l ∈ ls) then Some (open_projection (ix_meta idx) l (raw_at idx l)) else post !! l).
  { clear. induction ls as [|k ls IH]; intros idx post Hs; cbn [foldl].
    - split; [done|]. intros l. by rewrite decide_False by apply not_elem_of_nil.
    - destruct Hs as [Hm Ho]. pose proof (refresh_open_spec idx k Ho) as E. destruct (refresh_open idx k) as [idx1 open] eqn:Ek.
      injection E as -> ->. cbn [fst]. set (idx1 := mkIndex _ _ _ _ _ _) in *.
      destruct (IH idx1 (<[k := open_projection (ix_meta idx) k (raw_at idx k)]> post)) as [I1 I2]; [by split|].
      split; [exact I1|]. intros l. rewrite I2. change (ix_meta idx1) with (ix_meta idx). change (raw_at idx1 l) with (raw_at idx l).
      destruct (decide (l ∈ ls)) as [Hin|Hin]; [by rewrite decide_True by (by right)|].
      rewrite lookup_insert. case_decide as Hkl.
      + subst. rewrite decide_True; [done|by left].
      + rewrite decide_False; [done|]. rewrite elem_of_cons. intros [?|?]; congruence. }
  intros Hs. destruct (Hgen ls idx ∅ Hs) as [G1 G2]. split; [done|]. intros l Hl. rewrite G2. by rewrite decide_True.
Qed.

Section commit.
Context `{Containers}.
Variables pre d : Doc.
Variable diffs : list CapturedDiff.
Hypothesis Hpre : index_ok pre.
Hypothesis Hidx : d_index d = d_index pre.
Hypothesis Hfaith : faithful pre d diffs.
Hypothesis Hmir : mirrored pre d.
Variable p : Plan.
Hypothesis Hplan : plan_frame d diffs = Some p.

Abbreviation meta0 := (doc_metas (d_items pre)).
Abbreviation meta1 := (doc_metas (d_items d)).

(** The mirrors the plan leaves are the containers'. *)
Lemma plan_shadows l : mirror_of meta1 l (raw_order d l) (default (raw_at (d_index d) l) (fr_shadows (pl_frame p) !! l)).
Proof.
  destruct (plan_frame_inv d diffs p Hplan) as (f & dirty & E & Ef & Hlen & _). rewrite Ef. cbn [fr_shadows kept_removals].
  destruct (collect_facts _ _ _ _ E) as (_ & _ & _ & C4). specialize (C4 l). cbn [fr_shadows frame_empty] in C4.
  rewrite lookup_empty in C4. cbn [default] in C4.
  destruct (ok_raw _ Hpre l) as (rest & Eraw & Hrest). rewrite Hidx in *.
  pose proof (fa_orders _ _ _ Hfaith l) as Ho. rewrite Eraw in Ho. rewrite (replay_order_longer l rest _ _ _ C4) in Ho.
  injection Ho as Ho. exists rest. split; [done|]. destruct rest as [|e rest]; [done|].
  destruct (fr_shadows f !! l) as [s|] eqn:Es.
  - exfalso. pose proof (Hlen l s Es) as Hl. cbn beta in Hl. change (default (raw_at (d_index pre) l) (Some s)) with s in Ho.
    apply (f_equal length) in Ho. unfold raw_order in Ho. rewrite length_app, length_fmap in Ho. cbn [length] in Ho. lia.
  - apply no_items_nothing. intros id Hid. pose proof (Hmir l id Hid) as Hm. rewrite Hm in Eraw.
    apply (f_equal length) in Eraw. rewrite length_app in Eraw. cbn in Eraw. lia.
Qed.

Lemma affected_change id c m : pl_changes p !! id = Some c -> ch_old c = Some m \/ ch_new c = Some m ->
  m_list_id m ∈ pl_affected p.
Proof.
  intros Hc Hm. destruct (plan_frame_inv d diffs p Hplan) as (f & dirty & _ & _ & _ & _ & _ & ->). unfold affected_lists.
  rewrite elem_of_union, elem_of_list_to_set. right. apply list_elem_of_bind. exists (id, c). split; [|by apply elem_of_map_to_list].
  apply list_elem_of_fmap. exists m. split; [done|]. rewrite elem_of_app. destruct Hm as [-> | ->]; [left|right]; cbn; by left.
Qed.

Lemma affected_shadow l : is_Some (fr_shadows (pl_frame p) !! l) -> l ∈ pl_affected p.
Proof.
  intros Hl. destruct (plan_frame_inv d diffs p Hplan) as (f & dirty & _ & Ef & _ & _ & _ & ->). unfold affected_lists.
  rewrite Ef in Hl. rewrite elem_of_union. left. by apply elem_of_dom.
Qed.

(** A list the plan does not name keeps its items. *)
Lemma unaffected_agree l : l ∉ pl_affected p -> agree_on l meta0 meta1.
Proof.
  intros Hl id m Hm. destruct (plan_change_cases pre d diffs Hpre Hidx Hfaith p Hplan id) as [(c & Hc & [Co Cn _ _ _] & _)|(Hc & E & _)].
  - split; intros E; exfalso; apply Hl; rewrite <- Hm; eapply affected_change; try done; [left|right]; congruence.
  - by rewrite E.
Qed.

(** The commit: the index is exact, the arrays before and after the lists'. *)
Lemma commit_plan_exact idx arrays_pre arrays_post :
  commit_plan p (d_index d) = (idx, (arrays_pre, arrays_post)) ->
  index_ok (with_index (fun _ => idx) d)
  /\ (forall l, l ∈ pl_affected p -> arrays_pre !! l = Some (open_at (d_index d) l) /\ arrays_post !! l = Some (open_at idx l))
  /\ (forall l, l ∉ pl_affected p -> open_at idx l = open_at (d_index d) l).
Proof.
  unfold commit_plan. pose proof (ok_wf _ Hpre) as Hwf. rewrite <- Hidx in Hwf.
  apply index_wf_on in Hwf. destruct Hwf as [Hsets Hopen Hone Hcount Hcne].
  destruct (commit_metas_facts (pl_changes p) (d_index d) Hsets) as (M1 & M2 & M3 & M4 & M5). set (idx1 := commit_metas _ _) in *.
  destruct (commit_shadows_facts (fr_shadows (pl_frame p)) idx1) as (W1 & W2 & W3 & W4 & W5 & W6). set (idx2 := commit_shadows _ _) in *.
  assert (Hmeta : ix_meta idx2 = meta1).
  { rewrite W2. apply map_eq. intros id. rewrite M2.
    destruct (plan_change_cases pre d diffs Hpre Hidx Hfaith p Hplan id) as [(c & -> & [_ Cn _ _ _] & _)|(-> & E & _)]; [done|].
    by rewrite Hidx, (ok_meta _ Hpre), E. }
  assert (Hsets2 : index_sets idx2) by (apply (index_sets_ext idx2 idx1); done).
  destruct (refresh_lists_facts (elements (pl_affected p)) idx2 Hsets2) as [R1 R2].
  destruct (refresh_lists (elements (pl_affected p)) idx2) as [idx3 post] eqn:E3. cbn [fst snd] in R1, R2. intros [= <- <- <-].
  assert (Hraw : forall l, raw_at idx2 l = default (raw_at (d_index d) l) (fr_shadows (pl_frame p) !! l)).
  { intros l. rewrite W1. f_equal. unfold raw_at. by rewrite M3. }
  assert (Hproj : forall l, l ∉ pl_affected p -> raw_at idx2 l = raw_at (d_index d) l /\ agree_on l (ix_meta (d_index d)) (ix_meta idx2)).
  { intros l Hl. split.
    - rewrite Hraw. destruct (fr_shadows (pl_frame p) !! l) eqn:Es; [|done]. exfalso. apply Hl, affected_shadow. by eexists.
    - rewrite Hmeta, Hidx, (ok_meta _ Hpre). by apply unaffected_agree. }
  assert (Hon : wf_on (fun l => l ∉ elements (pl_affected p)) (fun l => l ∉ elements (pl_affected p)) idx2).
  { split; [done| | | |].
    - intros l Hl. rewrite elem_of_elements in Hl. destruct (Hproj l Hl) as [-> Ha]. rewrite <- (agree_on_projection l _ _ _ Ha), <- Hopen by done.
      unfold open_at. by rewrite W5, M4.
    - intros l. rewrite W5, M4. apply Hone.
    - intros l Hl. rewrite elem_of_elements in Hl. destruct (Hproj l Hl) as [-> Ha]. rewrite <- (agree_on_open_visible l _ _ _ Ha), <- Hcount by done.
      unfold count_at. by rewrite W6, M5.
    - intros l. rewrite W6, M5. apply Hcne. }
  destruct (refresh_all_ok (elements (pl_affected p)) _ _ Hon) as ([? Wo ? Wc ?] & Wm & Wr). rewrite <- R1 in *.
  assert (Hall : forall l, l ∈ elements (pl_affected p) \/ l ∉ elements (pl_affected p)) by (intros l; destruct (decide (l ∈ elements (pl_affected p))); tauto).
  assert (Hwf3 : index_wf idx3) by (apply index_wf_on; split; try done; intros l _; [apply Wo|apply Wc]; apply Hall).
  split_and!.
  - split; cbn [d_index with_index d_items]; [done|by rewrite Wm|]. intros l. change (raw_order (with_index (fun _ => idx3) d) l) with (raw_order d l).
    rewrite Wm, Hmeta, (raw_at_ext _ _ _ Wr), Hraw. apply plan_shadows.
  - intros l Hl. split.
    + unfold open_arrays. apply lookup_set_to_map; [by intros|]. exists l. done.
    + rewrite R2 by (by rewrite elem_of_elements). rewrite (wf_open _ Hwf3), Wm. by rewrite (raw_at_ext _ _ _ Wr).
  - intros l Hl. rewrite (wf_open _ Hwf3), Wm, (raw_at_ext _ _ _ Wr). destruct (Hproj l Hl) as [-> Ha].
    rewrite <- (agree_on_projection l _ _ _ Ha). symmetry. by apply Hopen.
Qed.
End commit.
