(* ===== verification/Mirror.v ===== *)
(** The consumer of the events: a mirror of which list each item is in, whether
    it is open, and every list's open array, updated one event at a time
    (js/web/src/sync/store.ts, [dispatch]). What the core promises is that a
    mirror in step with the index stays in step. *)
From S2P Require Import Prelude.
From S2P Require Import Loro.
From S2P Require Import Lifecycle.
From S2P Require Import Registers.
From S2P Require Import Projection.
From S2P Require Import Notes.
From S2P Require Import Events.
From S2P Require Import DocCore.

Record Mirror : Type := mkMirror {
  mi_items : gmap string (string * bool);
  mi_open : gmap string (list string);
}.

Definition array (m : Mirror) (l : string) : list string := default [] (mi_open m !! l).

Definition place_or_append (id : string) (i : option nat) (arr : list string) : list string :=
  match i with
  | Some i => place_item id (Some i) arr
  | None => base.filter (fun x => x <> id) arr ++ [id]
  end.

Definition insertOpen (l id : string) (i : option nat) (m : Mirror) : Mirror :=
  mkMirror (mi_items m) (<[l := place_or_append id i (array m l)]> (mi_open m)).

Definition removeOpen (l id : string) (m : Mirror) : Mirror :=
  if decide (id ∈ array m l)
  then mkMirror (mi_items m) (<[l := base.filter (fun x => x <> id) (array m l)]> (mi_open m))
  else m.

Definition set_item (id : string) (v : string * bool) (m : Mirror) : Mirror :=
  mkMirror (<[id := v]> (mi_items m)) (mi_open m).

(** An item leaves the array it is in. *)
Definition leave (id : string) (m : Mirror) : Mirror :=
  match mi_items m !! id with Some (l, true) => removeOpen l id m | _ => m end.

Definition dispatch (m : Mirror) (ev : AppEvent) : Mirror :=
  match ev with
  | ItemAdded it i =>
      let m := set_item (iv_id it) (iv_list_id it, iv_is_open it) (leave (iv_id it) m) in
      if iv_is_open it then insertOpen (iv_list_id it) (iv_id it) i m else m
  | ItemRemoved id =>
      match mi_items m !! id with
      | None => m
      | Some _ => let m := leave id m in mkMirror (delete id (mi_items m)) (mi_open m)
      end
  | ItemMoved id i =>
      match mi_items m !! id, i with
      | Some (l, true), Some _ => insertOpen l id i m
      | _, _ => m
      end
  | ItemLifecycleChanged id state _ _ _ binned_at i =>
      match mi_items m !! id with
      | None => m
      | Some (l, was_open) =>
          let now_open := bool_decide (binned_at = None) && negb (is_closed state) in
          let m := if was_open && negb now_open then removeOpen l id m else m in
          let m := if negb was_open && now_open then insertOpen l id i m else m in
          set_item id (l, now_open) m
      end
  | ItemListChanged id l' i =>
      match mi_items m !! id with
      | None => m
      | Some (l, open) =>
          let m := if (open : bool) then removeOpen l id m else m in
          let m := set_item id (l', open) m in
          if open then insertOpen l' id i m else m
      end
  | ListRemoved l => mkMirror (mi_items m) (delete l (mi_open m))
  | _ => m
  end.

(** In step with an index. *)
Definition entry (m : ItemMeta) : string * bool := (m_list_id m, m_open m).

Record in_step (idx : ProjectionIndex) (m : Mirror) : Prop := {
  step_items id : mi_items m !! id = entry <$> ix_meta idx !! id;
  step_open l : array m l = open_at idx l;
}.

(** ** What an event does to the mirror's contents *)

(** A mirror as two functions. *)
Definition shows (m : Mirror) (items : string -> option (string * bool)) (arrays : string -> list string) : Prop :=
  (forall id, mi_items m !! id = items id) /\ (forall l, array m l = arrays l).

Definition upd {B : Type} (f : string -> B) (k : string) (v : B) : string -> B :=
  fun j => if decide (j = k) then v else f j.

Lemma shows_ext m items arrays (items' : string -> option (string * bool)) (arrays' : string -> list string) :
  shows m items arrays -> (forall id, items id = items' id) -> (forall l, arrays l = arrays' l) -> shows m items' arrays'.
Proof. intros [H1 H2] E1 E2. split; intros; [by rewrite H1|by rewrite H2]. Qed.

Lemma removeOpen_shows m items arrays l id : shows m items arrays ->
  shows (removeOpen l id m) items (upd arrays l (base.filter (fun x => x <> id) (arrays l))).
Proof.
  intros [H1 H2]. unfold removeOpen. case_decide as Hin.
  - split; [done|]. intros j. unfold array, upd. cbn. rewrite lookup_insert. rewrite <- H2. repeat case_decide; try congruence; try done. apply H2.
  - split; [done|]. intros j. unfold upd. case_decide as Hj; [subst|apply H2]. rewrite <- H2. symmetry.
    apply list_filter_all. intros x Hx ->. done.
Qed.

Lemma insertOpen_shows m items arrays l id i : shows m items arrays ->
  shows (insertOpen l id i m) items (upd arrays l (place_or_append id i (arrays l))).
Proof.
  intros [H1 H2]. split; [done|]. intros j. unfold insertOpen, array, upd. cbn. rewrite lookup_insert. rewrite <- H2.
  repeat case_decide; try congruence; try done. apply H2.
Qed.

Lemma set_item_shows m items arrays id v : shows m items arrays -> shows (set_item id v m) (upd items id (Some v)) arrays.
Proof.
  intros [H1 H2]. split; [|done]. intros j. cbn. unfold upd. rewrite lookup_insert. repeat case_decide; try congruence; apply H1.
Qed.

(** Each event on a mirror whose contents are known. *)
Section dispatch.
Variables (m : Mirror) (items : string -> option (string * bool)) (arrays : string -> list string).
Hypothesis Hm : shows m items arrays.

Definition without_id (id : string) (arr : list string) : list string := base.filter (fun x => x <> id) arr.

(** The arrays once an item has left its own. *)
Definition left_arrays (id : string) : string -> list string :=
  match items id with Some (l, true) => upd arrays l (without_id id (arrays l)) | _ => arrays end.

Lemma leave_shows id : shows (leave id m) items (left_arrays id).
Proof.
  unfold leave, left_arrays. rewrite (proj1 Hm). destruct (items id) as [[l []]|]; try apply Hm. by apply removeOpen_shows.
Qed.

Lemma removed_shows id : shows (dispatch m (ItemRemoved id)) (upd items id None) (left_arrays id).
Proof.
  cbn. rewrite (proj1 Hm). destruct (items id) as [v|] eqn:E.
  - destruct (leave_shows id) as [H1 H2]. split; [|exact H2]. intros j. cbn. unfold upd. rewrite lookup_delete.
    repeat case_decide; try congruence; apply H1.
  - unfold left_arrays. rewrite E. destruct Hm as [H1 H2]. split; [|exact H2]. intros j. unfold upd. case_decide; [subst; by rewrite H1|apply H1].
Qed.

Lemma added_shows v i : items (iv_id v) = None ->
  shows (dispatch m (ItemAdded v i)) (upd items (iv_id v) (Some (iv_list_id v, iv_is_open v)))
    (if iv_is_open v then upd arrays (iv_list_id v) (place_or_append (iv_id v) i (arrays (iv_list_id v))) else arrays).
Proof.
  intros E. assert (Hl : left_arrays (iv_id v) = arrays) by (unfold left_arrays; by rewrite E).
  pose proof (leave_shows (iv_id v)) as H. rewrite Hl in H. apply (set_item_shows _ _ _ (iv_id v) (iv_list_id v, iv_is_open v)) in H.
  cbn. destruct (iv_is_open v); [by apply insertOpen_shows|done].
Qed.

Lemma moved_shows id l i : items id = Some (l, true) ->
  shows (dispatch m (ItemMoved id (Some i))) items (upd arrays l (place_item id (Some i) (arrays l))).
Proof. intros E. cbn. rewrite (proj1 Hm), E. by apply (insertOpen_shows m items arrays l id (Some i)). Qed.

Lemma lifecycle_shows id l b v i : items id = Some (l, b) ->
  let now := iv_is_open v in
  shows (dispatch m (ItemLifecycleChanged id (iv_state v) (iv_lifecycle_at v) (iv_started_at v) (iv_done_at v) (iv_binned_at v) i))
    (upd items id (Some (l, now)))
    (if b && negb now then upd arrays l (without_id id (arrays l))
     else if negb b && now then upd arrays l (place_or_append id i (arrays l)) else arrays).
Proof.
  intros E now. cbn. rewrite (proj1 Hm), E.
  replace (bool_decide (iv_binned_at v = None) && negb (is_closed (iv_state v))) with now.
  2: { unfold now, iv_is_open, iv_is_binned. destruct (iv_binned_at v), (iv_state v); done. } apply set_item_shows. destruct b, now; cbn; [done|by apply removeOpen_shows|by apply insertOpen_shows|done].
Qed.

Lemma list_changed_shows id l b l' : items id = Some (l, b) ->
  shows (dispatch m (ItemListChanged id l' None)) (upd items id (Some (l', b)))
    (if b then let arrays := upd arrays l (without_id id (arrays l)) in upd arrays l' (without_id id (arrays l') ++ [id]) else arrays).
Proof.
  intros E. cbn. rewrite (proj1 Hm), E. destruct b; [|by apply set_item_shows].
  apply (insertOpen_shows _ _ _ l' id None), set_item_shows. by apply removeOpen_shows.
Qed.
End dispatch.
