(* ===== verification/TranslateEvents.v ===== *)
(** The simulated walk of one list (core/src/doc.rs, [simulate]): a replay that
    rebuilds the list from the items that stayed rebuilds it as well when the
    items moved in from other lists wait at the end of the consumer's array.

    What the translation of a frame sends: the events of a computation that
    leaves the document's containers and index alone, told one part at a time,
    and those of one change and of one walk. *)
From S2P Require Import Prelude.
From S2P Require Import Loro.
From S2P Require Import Lifecycle.
From S2P Require Import Registers.
From S2P Require Import Projection.
From S2P Require Import ProjectionFacts.
From S2P Require Import ProjectionOps.
From S2P Require Import Notes.
From S2P Require Import Events.
From S2P Require Import DocCore.
From S2P Require Import DocItems.
From S2P Require Import DocIndex.
From S2P Require Import IndexBuild.
From S2P Require Import IterFacts.
From S2P Require Import Translate.
From S2P Require Import TranslateIndex.
From S2P Require Import Mirror.

Definition not_id (id : string) (arr : list string) : list string := base.filter (fun x => x <> id) arr.

Lemma place_item_min id i arr : place_item id (Some i) arr = insert_at (Nat.min i (length (not_id id arr))) id (not_id id arr).
Proof. done. Qed.

Lemma lookup_not_id id x arr k : arr !! k = Some x -> x <> id -> exists k', k' <= k /\ not_id id arr !! k' = Some x.
Proof.
  revert k. induction arr as [|y arr IH]; intros k Hk Hx; [done|]. unfold not_id in *. rewrite filter_cons. destruct k as [|k]; cbn in Hk.
  - injection Hk as ->. rewrite decide_True by done. exists 0. by split; [lia|].
  - destruct (IH k Hk Hx) as (k' & Hle & Hk'). case_decide; [exists (S k')|exists k']; (split; [lia|done]).
Qed.

(** An item before every position still to come stays at or before its place. *)
Lemma replay_late ops : forall arr id k, arr !! k = Some id -> Forall (fun op => k < op.1 /\ op.2 <> id) ops ->
  exists k', k' <= k /\ replay_moves ops arr !! k' = Some id.
Proof.
  induction ops as [|[p id'] ops IH]; intros arr id k Hk Hops; [by exists k|]. cbn [replay_moves foldl].
  inversion Hops as [|? ? [Hp Hne] Hops']; subst. cbn [fst snd] in *.
  destruct (lookup_not_id id' id arr k Hk ltac:(done)) as (k1 & Hle & Hk1). pose proof (lookup_lt_Some _ _ _ Hk1) as Hlt.
  destruct (IH (place_item id' (Some p) arr) id k1) as (k' & Hk' & E).
  - rewrite place_item_min. unfold insert_at. rewrite lookup_app_l; [rewrite lookup_take_lt by lia; done|rewrite length_take; lia].
  - eapply Forall_impl; [exact Hops'|]. intros [q j] [? ?]. cbn in *. split; [lia|done].
  - exists k'. split; [lia|exact E].
Qed.

(** Operations in ascending position, each naming the item that ends there. *)
Definition ops_for (post : list string) (ops : list (nat * string)) : Prop :=
  StronglySorted (fun a b => a.1 < b.1) ops /\ Forall (fun op => post !! op.1 = Some op.2) ops.

Lemma ops_for_cons post op ops : ops_for post (op :: ops) -> ops_for post ops /\ post !! op.1 = Some op.2 /\ Forall (fun b => op.1 < b.1) ops.
Proof. intros [Hs Hf]. inversion Hs; inversion Hf; subst. by split_and!. Qed.

(** A replay that ends in the list never clamps. *)
Lemma replay_fits post p id ops arr : NoDup post -> ops_for post ((p, id) :: ops) ->
  replay_moves ((p, id) :: ops) arr = post -> p <= length (not_id id arr).
Proof.
  intros Hn (Hops & Hp & Hlt)%ops_for_cons E. cbn [fst snd] in *. destruct (decide (p <= length (not_id id arr))) as [?|Hgt]; [done|exfalso].
  set (k := length (not_id id arr)) in *. cbn [replay_moves foldl] in E.
  destruct (replay_late ops (place_item id (Some p) arr) id k) as (k' & Hk' & Ek).
  - rewrite place_item_min. fold k. replace (Nat.min p k) with k by lia. unfold k. by rewrite lookup_insert_at.
  - apply Forall_forall. intros [q j] Hq. rewrite Forall_forall in Hlt. pose proof (Hlt _ Hq) as Hpq. cbn in *. split; [lia|].
    intros ->. destruct Hops as [_ Hf]. rewrite Forall_forall in Hf. specialize (Hf _ Hq). cbn in Hf.
    pose proof (NoDup_lookup _ _ _ _ Hn Hp Hf). lia.
  - unfold replay_moves in Ek. rewrite E in Ek. pose proof (NoDup_lookup _ _ _ _ Hn Hp Ek). lia.
Qed.

Lemma replay_waiting post ops : forall arr extra, NoDup post -> ops_for post ops -> replay_moves ops arr = post ->
  replay_moves ops (arr ++ extra) = post ++ base.filter (fun x => x ∉ ops.*2) extra.
Proof.
  induction ops as [|[p id] ops IH]; intros arr extra Hn Hops E.
  - cbn in *. subst. f_equal. symmetry. apply list_filter_all. intros x _. apply not_elem_of_nil.
  - pose proof (replay_fits post p id ops arr Hn Hops E) as Hfit. apply ops_for_cons in Hops as (Hops & _).
    cbn [replay_moves foldl] in *.
    assert (Hplace : place_item id (Some p) (arr ++ extra) = place_item id (Some p) arr ++ not_id id extra).
    { rewrite !place_item_min. unfold not_id. rewrite filter_app, length_app. fold (not_id id arr).
      rewrite !Nat.min_l by lia. by rewrite insert_at_app. }
    rewrite Hplace. etrans; [apply (IH _ (not_id id extra) Hn Hops E)|]. f_equal. unfold not_id. rewrite list_filter_filter.
    apply list_filter_iff. intros x. cbn. rewrite not_elem_of_cons. tauto.
Qed.

(** ** The operations are the walk *)

(** The positions of the walk that carry an event. *)
Definition walk_ops (post : list string) (ids : gset string) : list (nat * string) :=
  base.filter (fun op => op.2 ∈ ids) (imap pair post).

Lemma walk_ops_for post ids : ops_for post (walk_ops post ids).
Proof.
  split.
  - unfold walk_ops. assert (Hs : forall k, StronglySorted (fun a b : nat * string => a.1 < b.1) (imap (fun i x => (k + i, x)) post)
      /\ Forall (fun op => k <= op.1) (imap (fun i x => (k + i, x)) post)).
    { induction post as [|x post IH]; intros k; [split; constructor|]. rewrite imap_cons. cbn.
      assert (E : imap ((fun i x => (k + i, x)) ∘ S) post = imap (fun i x => (S k + i, x)) post).
      { apply imap_ext. intros i y _. cbn. by rewrite Nat.add_succ_r. }
      rewrite E. destruct (IH (S k)) as [I1 I2]. split; constructor; try done.
      - eapply Forall_impl; [exact I2|]. intros [q j]. cbn. lia.
      - cbn. lia.
      - eapply Forall_impl; [exact I2|]. intros [q j]. cbn. lia. }
    destruct (Hs 0) as [H1 _]. replace (imap pair post) with (imap (fun i x => (0 + i, x)) post) by (by apply imap_ext).
    clear Hs. induction H1 as [|a l Hs IH Hf]; [constructor|]. rewrite filter_cons. case_decide; [|done]. constructor; [done|].
    apply Forall_forall. intros b [_ Hb]%list_elem_of_filter. by eapply Forall_forall in Hf.
  - apply Forall_forall. intros [i x] [_ Hin]%list_elem_of_filter. apply list_elem_of_lookup in Hin as [j Hj].
    rewrite list_lookup_imap in Hj. destruct (post !! j) eqn:E; [|done]. injection Hj as <- <-. done.
Qed.

Lemma positions_lookup post id i : NoDup post -> positions post !! id = Some i <-> post !! i = Some id.
Proof.
  intros Hn. unfold positions. rewrite lookup_fmap, fmap_Some. split.
  - intros ([j v] & Hj & ->). apply rows_by_id_Some in Hj as [Hj <-]; [done|by rewrite list_fmap_id].
  - intros Hi. exists (i, id). split; [|done]. apply rows_by_id_Some; [by rewrite list_fmap_id|done].
Qed.

Lemma elem_of_walk_ops post ids i id : (i, id) ∈ walk_ops post ids <-> post !! i = Some id /\ id ∈ ids.
Proof.
  unfold walk_ops. rewrite list_elem_of_filter. cbn. split.
  - intros [Hid Hin]. split; [|done]. apply list_elem_of_lookup in Hin as [j Hj].
    rewrite list_lookup_imap in Hj. destruct (post !! j) eqn:E; [|done]. by injection Hj as <- <-.
  - intros [Hi Hid]. split; [done|]. apply list_elem_of_lookup. exists i. by rewrite list_lookup_imap, Hi.
Qed.

Lemma NoDup_by_pos post ids : NoDup post -> NoDup ((fun op : nat * string => (Z.of_nat op.1, op.2)) <$> walk_ops post ids).
Proof.
  intros Hn. apply NoDup_fmap_2_strong.
  - intros [i x] [j y] _ _ E. cbn in E. injection E as Hi ->. f_equal. lia.
  - unfold walk_ops. apply NoDup_filter. apply (NoDup_fmap_1 snd).
    replace (snd <$> imap pair post) with post; [done|]. clear. symmetry. apply list_eq. intros i.
    rewrite list_lookup_fmap, list_lookup_imap. by destruct (post !! i).
Qed.

Lemma sorted_ops_walk post ids : NoDup post -> sorted_ops post ids = walk_ops post ids.
Proof.
  intros Hn. unfold sorted_ops. set (tag := fun op : nat * string => (Z.of_nat op.1, op.2)).
  set (L := omap _ (elements ids)).
  assert (E : merge_sort key_le L = tag <$> walk_ops post ids).
  { apply (StronglySorted_unique key_le).
    - by apply StronglySorted_merge_sort; try apply _.
    - destruct (walk_ops_for post ids) as [Hs _]. induction Hs as [|a l Hs IH Hf]; [constructor|]. cbn. constructor; [done|].
      apply Forall_fmap. eapply Forall_impl; [exact Hf|]. intros b Hb. left. unfold tag. cbn in *. lia.
    - rewrite merge_sort_Permutation. apply NoDup_Permutation.
      + unfold L. pose proof (NoDup_elements ids) as Hels. induction Hels as [|a els Ha Hels IH]; [constructor|]. cbn.
        destruct (positions post !! a) as [i|]; [|exact IH]. cbn. constructor; [|exact IH].
        intros (b & Hb & Eb)%list_elem_of_omap. destruct (positions post !! b) as [j|]; [|done]. cbn in Eb. by simplify_eq.
      + by apply NoDup_by_pos.
      + intros [z id]. unfold L. rewrite list_elem_of_omap, list_elem_of_fmap. split.
        * intros (id' & Hid & Hz). destruct (positions post !! id') as [i|] eqn:Ei; [|done]. cbn in Hz. injection Hz as <- <-.
          exists (i, id'). split; [done|]. apply elem_of_walk_ops. split; [by apply positions_lookup|by apply elem_of_elements].
        * intros ([i x] & [= -> ->] & Hin). apply elem_of_walk_ops in Hin as [Hi Hx]. exists x. split; [by apply elem_of_elements|].
          rewrite (proj2 (positions_lookup post x i Hn) Hi). done. }
  rewrite E, <- list_fmap_compose. rewrite <- (list_fmap_id (walk_ops post ids)) at 2. apply list_fmap_ext.
  intros i [p x] _. cbn. by rewrite Nat2Z.id.
Qed.

(** What the simulation promises of a consumer that already holds, at the end
    of the list's array, the items moved in from elsewhere. *)
Lemma simulate_consumer base post inserts cands extra : NoDup post ->
  simulate base post inserts cands = true -> (forall x, x ∈ base -> x ∉ inserts) ->
  (forall x, x ∈ extra -> x ∈ post /\ x ∉ base) ->
  replay_moves (walk_ops post (inserts ∪ cands)) (base ++ extra) = post.
Proof.
  intros Hn Hsim%bool_decide_eq_true Hbase Hextra. rewrite sorted_ops_walk in Hsim by done.
  rewrite list_filter_all in Hsim by done. pose proof (walk_ops_for post (inserts ∪ cands)) as Hops.
  rewrite (replay_waiting post _ _ extra Hn Hops Hsim).
  assert (Hfrom : forall ops arr x, x ∈ replay_moves ops arr -> x ∈ arr \/ x ∈ ops.*2).
  { clear. induction ops as [|[p id] ops IH]; intros arr x Hx; [by left|]. cbn [replay_moves foldl] in Hx. apply IH in Hx as [Hx|Hx].
    - rewrite place_item_min, elem_of_insert_at in Hx. destruct Hx as [->|[_ Hx]%list_elem_of_filter]; [right; by left|by left].
    - right. by right. }
  rewrite (elem_of_nil_inv (base.filter _ extra)); [by rewrite app_nil_r|].
  intros x [Hx Hin]%list_elem_of_filter. apply Hx. destruct (Hextra x Hin) as [Hp Hb]. rewrite <- Hsim in Hp.
  destruct (Hfrom _ _ _ Hp) as [?|?]; [done|done].
Qed.

(** ** What a computation sends *)

(** The events the mirror heeds. *)
Definition positional (ev : AppEvent) : bool :=
  match ev with
  | ItemAdded _ _ | ItemRemoved _ | ItemMoved _ _ | ItemLifecycleChanged _ _ _ _ _ _ _ | ItemListChanged _ _ _
  | ListRemoved _ => true
  | _ => false
  end.
Definition heeded (evs : list AppEvent) : list AppEvent := base.filter (fun ev => Is_true (positional ev)) evs.

Lemma heeded_app evs evs' : heeded (evs ++ evs') = heeded evs ++ heeded evs'.
Proof. apply filter_app. Qed.
Lemma heeded_when b ev : heeded (when b ev) = when (b && positional ev) ev.
Proof. unfold heeded, when. destruct b; [|done]. rewrite filter_cons. by destruct (positional ev). Qed.

Lemma dispatch_heeded evs : forall m, foldl dispatch m evs = foldl dispatch m (heeded evs).
Proof.
  induction evs as [|ev evs IH]; intros m; [done|]. unfold heeded in *. cbn [foldl]. rewrite filter_cons.
  destruct (positional ev) eqn:E; [rewrite decide_True by done; apply IH|]. rewrite decide_False by (by intros []).
  rewrite <- IH. f_equal. by destruct ev.
Qed.

Definition says (m : M unit) (d : Doc) (rel : list AppEvent) (d' : Doc) : Prop :=
  m d = (Ok tt, d') /\ same_core d d' /\ exists evs, d_events d' = d_events d ++ evs /\ heeded evs = rel.

Lemma same_core_refl d : same_core d d.
Proof. done. Qed.
Lemma same_core_trans d d1 d2 : same_core d d1 -> same_core d1 d2 -> same_core d d2.
Proof. unfold same_core. intuition congruence. Qed.

Lemma says_bind m k d d1 d2 r1 r2 : says m d r1 d1 -> says k d1 r2 d2 -> says (m ;; k) d (r1 ++ r2) d2.
Proof.
  intros (E1 & C1 & e1 & V1 & <-) (E2 & C2 & e2 & V2 & <-). split_and!.
  - unfold mbind, M_bind. by rewrite E1.
  - by eapply same_core_trans.
  - exists (e1 ++ e2). by rewrite V2, V1, <- app_assoc, heeded_app.
Qed.

Lemma says_ret d : says (mret tt) d [] d.
Proof. split_and!; [done|done|]. exists []. by rewrite app_nil_r. Qed.

Lemma says_push_if b ev d : exists d', says (push_if b ev) d (when (b && positional ev) ev) d'.
Proof.
  destruct b; [|exists d; apply says_ret]. exists (with_events (fun q => q ++ [ev]) d). split_and!; [done|done|].
  exists [ev]. split; [done|]. apply (heeded_when true).
Qed.

Lemma says_push ev d : exists d', says (push_event ev) d (when (positional ev) ev) d'.
Proof. exact (says_push_if true ev d). Qed.

Lemma says_notes_delta id deltas post d : exists d', says (emit_notes_delta id deltas post) d [] d'.
Proof.
  unfold emit_notes_delta. destruct (d_shadows d !! id) as [shadow|] eqn:E.
  - set (out := notes_delta_out shadow deltas post).
    exists (if decide (out = []) then with_shadows (<[id := post]>) d
            else with_events (fun q => q ++ [ItemNotesDelta id out]) (with_shadows (<[id := post]>) d)).
    split_and!.
    + unfold mbind, M_bind, gets. rewrite E. cbn. fold out. by case_decide.
    + by case_decide.
    + exists (if decide (out = []) then [] else [ItemNotesDelta id out]). case_decide; [by rewrite app_nil_r|done].
  - exists d. split_and!; [|done|exists []; by rewrite app_nil_r]. unfold mbind, M_bind, gets. by rewrite E.
Qed.

Lemma says_mfor {A} (f : A -> M unit) (rel : A -> list AppEvent) l : forall d,
  (forall a d, a ∈ l -> exists d', says (f a) d (rel a) d') -> exists d', says (mfor l f) d (l ≫= rel) d'.
Proof.
  induction l as [|a l IH]; intros d Hf; [exists d; apply says_ret|]. cbn.
  destruct (Hf a d) as [d1 H1]; [by left|]. destruct (IH d1) as [d2 H2]; [intros b d' Hb; apply Hf; by right|].
  exists d2. by eapply says_bind.
Qed.

Lemma M_bind_inv {A B} (m : M A) (f : A -> M B) d b d' : (m ≫= f) d = (Ok b, d') ->
  exists a d1, m d = (Ok a, d1) /\ f a d1 = (Ok b, d').
Proof. unfold mbind, M_bind. destruct (m d) as [[a|e] d1]; [eauto|done]. Qed.

(** A loop whose every pass says something says all of it. *)
Lemma says_mfor_inv {A} (f : A -> M unit) (R : A -> list AppEvent -> Prop) l : forall d d',
  (forall a d0 d0', a ∈ l -> same_core d d0 -> f a d0 = (Ok tt, d0') -> exists rel, says (f a) d0 rel d0' /\ R a rel) ->
  mfor l f d = (Ok tt, d') -> exists rels, says (mfor l f) d (concat rels) d' /\ Forall2 R l rels.
Proof.
  induction l as [|a l IH]; intros d d' Hf E.
  - injection E as <-. exists []. split; [apply says_ret|constructor].
  - cbn [mfor] in *. unfold mbind, M_bind in E. destruct (f a d) as [[[]|] d1] eqn:Ea; [|done].
    destruct (Hf a d d1 ltac:(by left) (same_core_refl d) Ea) as (rel & S1 & Hrel).
    destruct (IH d1 d') as (rels & S2 & Hrels); [|exact E|].
    + intros b d0 d0' Hb Hc Eb. apply (Hf b d0 d0'); [by right|by eapply same_core_trans; [apply S1|]|exact Eb].
    + exists (rel :: rels). split; [by eapply says_bind|by constructor].
Qed.


Lemma says_det m d r d1 d' : says m d r d1 -> m d = (Ok tt, d') -> d' = d1.
Proof. intros (E & _) E'. congruence. Qed.

(** The view of an item, or no success. *)
Definition viewed (d : Doc) (id : string) (v : ItemView) : Prop := item_map_of (d_items d) id ≫= item_view = Some v.

Lemma view_of_inv id d v d' : view_of id d = (Ok v, d') -> d' = d /\ viewed d id v.
Proof. unfold view_of, viewed. destruct (item_map_of (d_items d) id ≫= item_view); [|done]. by intros [= -> ->]. Qed.

(** ** The events of one change *)

Section events.
Variable p : Plan.
Variable post_open : gmap string (list string).

Definition lane_event (id : string) (c : Change) (n : ItemMeta) (v : ItemView) : list AppEvent :=
  when (m_open n && was_open c && has_lifecycle c) (lifecycle_changed id v (post_open !! m_list_id n ≫= position_of id)).

Definition side_events (id : string) (c : Change) (n : ItemMeta) (v : ItemView) : list AppEvent :=
  if m_open n then
    when (negb (ch_brand_new c) && has c KEY_LOCATION && left_list c n) (ItemListChanged id (m_list_id n) None)
  else if ch_brand_new c then [ItemAdded v None]
  else when (has_lifecycle c) (lifecycle_changed id v None)
       ++ when (has c KEY_LOCATION && left_list c n) (ItemListChanged id (m_list_id n) None).

Lemma content_events_says id c n d d' : content_events p post_open id c n d = (Ok tt, d') ->
  exists v, viewed d id v /\ says (content_events p post_open id c n) d (lane_event id c n v) d'.
Proof.
  intros E. pose proof E as E0. unfold content_events in E. apply M_bind_inv in E as (v & d0 & [-> Hv]%view_of_inv & E).
  exists v. split; [done|]. 
  destruct (says_push_if (has c KEY_TEXT) (ItemTextChanged id (iv_text v)) d) as [d1 S1].
  assert (exists d2, says (if has c KEY_NOTES then push_event (ItemNotesChanged id (iv_notes v)) ;;
     emit_notes_delta id (default [] (pl_text p !! id)) (chars (iv_notes v)) else mret tt) d1 [] d2) as [d2 S2].
  { destruct (has c KEY_NOTES); [|exists d1; apply says_ret]. destruct (says_push (ItemNotesChanged id (iv_notes v)) d1) as [d2 S2].
    destruct (says_notes_delta id (default [] (pl_text p !! id)) (chars (iv_notes v)) d2) as [d3 S3]. exists d3. exact (says_bind _ _ _ _ _ _ _ S2 S3). }
  destruct (says_push_if (has c KEY_DEADLINE) (ItemDeadlineChanged id (iv_deadline v)) d2) as [d3 S3].
  destruct (says_push_if (has c KEY_WHEN) (ItemWhenChanged id (iv_when v)) d3) as [d4 S4].
  destruct (says_push_if (has c KEY_DURATION) (ItemDurationChanged id (iv_duration v)) d4) as [d5 S5].
  destruct (says_push_if (has c KEY_PLACE) (ItemPlaceChanged id (iv_place v)) d5) as [d6 S6].
  destruct (says_push_if (m_open n && was_open c && has_lifecycle c)
    (lifecycle_changed id v (post_open !! m_list_id n ≫= position_of id)) d6) as [d7 S7].
  pose proof (says_bind _ _ _ _ _ _ _ S1 (says_bind _ _ _ _ _ _ _ S2 (says_bind _ _ _ _ _ _ _ S3 (says_bind _ _ _ _ _ _ _ S4
    (says_bind _ _ _ _ _ _ _ S5 (says_bind _ _ _ _ _ _ _ S6 S7)))))) as S.
  pose proof (says_det _ _ _ _ _ S E) as ->. destruct S as (_ & C & evs & V & Hh). split_and!; [done|done|].
  exists evs. split; [done|]. rewrite Hh. cbn. rewrite !andb_false_r, andb_true_r. done.
Qed.

Lemma change_events_says id c d d' : change_events p post_open id c d = (Ok tt, d') ->
  exists rel, says (change_events p post_open id c) d rel d'
  /\ match ch_new c with
     | None => rel = []
     | Some n =>
         if ch_brand_new c && m_open n then rel = []
         else exists v, viewed d id v /\ rel = (if ch_brand_new c then [] else lane_event id c n v) ++ side_events id c n v
     end.
Proof.
  intros E. pose proof E as E0. unfold change_events in E. unfold change_events. destruct (ch_new c) as [n|].
  2: { injection E as <-. exists []. split; [apply says_ret|done]. }
  apply M_bind_inv in E as ([] & d1 & E1 & E2).
  assert (exists rel1, says (if ch_brand_new c then mret tt else content_events p post_open id c n) d rel1 d1
    /\ if ch_brand_new c then rel1 = [] else exists v, viewed d id v /\ rel1 = lane_event id c n v) as (rel1 & S1 & R1).
  { destruct (ch_brand_new c); [injection E1 as <-; exists []; split; [apply says_ret|done]|].
    destruct (content_events_says _ _ _ _ _ E1) as (v & Hv & S). eauto. }
  assert (Hsame : forall v, viewed d1 id v -> viewed d id v).
  { unfold viewed. destruct S1 as (_ & (Ei & _) & _). by rewrite Ei. }
  unfold side_events. destruct (m_open n) eqn:Eo.
  - destruct (says_push_if (negb (ch_brand_new c) && has c KEY_LOCATION && left_list c n) (ItemListChanged id (m_list_id n) None) d1) as [d2 S2].
    pose proof (says_det _ _ _ _ _ S2 E2) as ->. pose proof (says_bind _ _ _ _ _ _ _ S1 S2) as S. eexists. split; [exact S|].
    destruct (ch_brand_new c); cbn [andb negb].
    + by rewrite R1.
    + destruct R1 as (v & Hv & ->). exists v. split; [done|]. by rewrite andb_true_r.
  - apply M_bind_inv in E2 as (v & d1' & [-> Hv]%view_of_inv & E2). rewrite andb_false_r.
    assert (exists d2, says (if ch_brand_new c then push_event (ItemAdded v None)
        else push_if (has_lifecycle c) (lifecycle_changed id v None) ;;
             push_if (has c KEY_LOCATION && left_list c n) (ItemListChanged id (m_list_id n) None)) d1
      (if ch_brand_new c then [ItemAdded v None]
       else when (has_lifecycle c) (lifecycle_changed id v None)
            ++ when (has c KEY_LOCATION && left_list c n) (ItemListChanged id (m_list_id n) None)) d2) as [d2 S2].
    { destruct (ch_brand_new c); [apply says_push|].
      destruct (says_push_if (has_lifecycle c) (lifecycle_changed id v None) d1) as [d2 S2].
      destruct (says_push_if (has c KEY_LOCATION && left_list c n) (ItemListChanged id (m_list_id n) None) d2) as [d3 S3].
      exists d3. pose proof (says_bind _ _ _ _ _ _ _ S2 S3) as S. cbn in S. by rewrite !andb_true_r in S. }
    pose proof (says_det _ _ _ _ _ S2 E2) as ->.
    assert (S2' : says (view ← view_of id; if ch_brand_new c then push_event (ItemAdded view None)
        else push_if (has_lifecycle c) (lifecycle_changed id view None) ;;
             push_if (has c KEY_LOCATION && left_list c n) (ItemListChanged id (m_list_id n) None)) d1
      (if ch_brand_new c then [ItemAdded v None]
       else when (has_lifecycle c) (lifecycle_changed id v None)
            ++ when (has c KEY_LOCATION && left_list c n) (ItemListChanged id (m_list_id n) None)) d2).
    { destruct S2 as (E3 & S3). split; [|exact S3]. unfold mbind, M_bind, view_of. unfold viewed in Hv. rewrite Hv. exact E3. }
    eexists. split; [exact (says_bind _ _ _ _ _ _ _ S1 S2')|]. exists v. split; [by apply Hsame|].
    destruct (ch_brand_new c); [by rewrite R1|]. destruct R1 as (v' & Hv' & ->). f_equal.
    apply Hsame in Hv. unfold viewed in Hv, Hv'. by replace v' with v by congruence.
Qed.
End events.
