(* ===== verification/TranslateFacts.v ===== *)
(** The mirror while a translated frame is told: after the removals and the
    sides of every change it holds what is midway, after the walk of each
    affected list that list's new open array. *)
From S2P Require Import Prelude.
From S2P Require Import Loro.
From S2P Require Import Lifecycle.
From S2P Require Import Registers.
From S2P Require Import Projection.
From S2P Require Import ProjectionFacts.
From S2P Require Import ProjectionOps.
From S2P Require Import Notes.
From S2P Require Import Events.
From S2P Require Import DocCore.
From S2P Require Import DocItems.
From S2P Require Import DocIndex.
From S2P Require Import IndexBuild.
From S2P Require Import IterFacts.
From S2P Require Import Translate.
From S2P Require Import TranslateIndex.
From S2P Require Import Mirror.
From S2P Require Import TranslateEvents.

(** ** One list walked *)

(** An event that puts a new or shown item in place. *)
Definition puts (l : string) (i : nat) (id : string) (ev : AppEvent) (items : option (string * bool)) : Prop :=
  (exists v, ev = ItemAdded v (Some i) /\ iv_id v = id /\ iv_list_id v = l /\ iv_is_open v = true /\ items = None)
  \/ (exists v, ev = lifecycle_changed id v (Some i) /\ iv_is_open v = true /\ items = Some (l, false)).

Lemma puts_shows l i id ev m items arrays : shows m items arrays -> puts l i id ev (items id) ->
  shows (dispatch m ev) (upd items id (Some (l, true))) (upd arrays l (place_item id (Some i) (arrays l))).
Proof.
  intros Hm [(v & -> & <- & <- & Ho & E)|(v & -> & Ho & E)].
  - pose proof (added_shows _ _ _ Hm v (Some i) E) as H. by rewrite Ho in H.
  - pose proof (lifecycle_shows _ _ _ Hm id l false v (Some i) E) as H. cbn zeta in H. by rewrite Ho in H.
Qed.

Definition walk_one (inserts : gmap string AppEvent) (cands : gset string) (op : nat * string) : list AppEvent :=
  match inserts !! op.2 with
  | Some ev => [ev]
  | None => if decide (op.2 ∈ cands) then [ItemMoved op.2 (Some op.1)] else []
  end.

(** The items a walk over [sub] leaves, and its moves. *)
Definition walked (l : string) (inserts : gmap string AppEvent) (sub : list (nat * string))
    (items : string -> option (string * bool)) (x : string) : option (string * bool) :=
  if decide (x ∈ sub.*2 /\ is_Some (inserts !! x)) then Some (l, true) else items x.
Definition walk_moves (inserts : gmap string AppEvent) (cands : gset string) (sub : list (nat * string)) : list (nat * string) :=
  base.filter (fun op => op.2 ∈ dom inserts ∪ cands) sub.
Definition walkable (l : string) (inserts : gmap string AppEvent) (cands : gset string)
    (items : string -> option (string * bool)) (op : nat * string) : Prop :=
  match inserts !! op.2 with
  | Some ev => puts l op.1 op.2 ev (items op.2)
  | None => op.2 ∈ cands -> items op.2 = Some (l, true)
  end.

Lemma walk_one_shows l inserts cands op m items arrays : shows m items arrays -> walkable l inserts cands items op ->
  shows (foldl dispatch m (walk_one inserts cands op)) (walked l inserts [op] items)
    (upd arrays l (replay_moves (walk_moves inserts cands [op]) (arrays l))).
Proof.
  destruct op as [i id]. unfold walkable, walk_one, walk_moves, walked. cbn [fst snd]. intros Hm Hop. rewrite filter_cons.
  assert (Hone : forall x, x ∈ [(i, id)].*2 <-> x = id) by (intros x; cbn; apply list_elem_of_singleton).
  destruct (inserts !! id) as [ev|] eqn:Ei.
  - rewrite decide_True by (apply elem_of_union; left; apply elem_of_dom; by eexists).
    eapply shows_ext; [by apply (puts_shows _ _ _ _ _ _ _ Hm Hop)| |done].
    intros x. unfold upd. destruct (decide (x = id)) as [->|Hx].
    + rewrite decide_True; [done|]. split; [by apply Hone|by eexists].
    + rewrite decide_False; [done|]. by intros [?%Hone _].
  - assert (Hitems : forall x, (if decide (x ∈ [(i, id)].*2 /\ is_Some (inserts !! x)) then Some (l, true) else items x) = items x).
    { intros x. rewrite decide_False; [done|]. intros [->%Hone [? ?]]. congruence. }
    assert (Hdom : id ∉ dom inserts) by (by apply not_elem_of_dom). destruct (decide (id ∈ cands)) as [Hc|Hc].
    + rewrite decide_True by set_solver. by eapply shows_ext; [apply (moved_shows _ _ _ Hm id l i (Hop Hc))|..].
    + rewrite decide_False by set_solver. eapply shows_ext; [exact Hm|done|]. intros j. unfold upd. case_decide; by subst.
Qed.

Lemma walk_dispatch l inserts cands sub : forall m items arrays, NoDup sub.*2 -> shows m items arrays ->
  Forall (walkable l inserts cands items) sub ->
  shows (foldl dispatch m (sub ≫= walk_one inserts cands)) (walked l inserts sub items)
    (upd arrays l (replay_moves (walk_moves inserts cands sub) (arrays l))).
Proof.
  induction sub as [|op sub IH]; intros m items arrays Hn Hm Hsub.
  - eapply shows_ext; [exact Hm| |].
    + intros x. unfold walked. rewrite decide_False; [done|]. intros [Hx _]. by apply not_elem_of_nil in Hx.
    + intros j. unfold upd. case_decide; by subst.
  - cbn [fmap list_fmap] in Hn. apply NoDup_cons in Hn as [Hn1 Hn2]. apply Forall_cons in Hsub as [Hop Hsub].
    pose proof (walk_one_shows _ _ _ _ _ _ _ Hm Hop) as H1.
    change ((op :: sub) ≫= walk_one inserts cands) with (walk_one inserts cands op ++ (sub ≫= walk_one inserts cands)). rewrite foldl_app.
    assert (Hsub' : Forall (walkable l inserts cands (walked l inserts [op] items)) sub).
    { rewrite Forall_forall in *. intros op' Hin. specialize (Hsub op' Hin). unfold walkable, walked in *. rewrite decide_False; [done|].
      intros [Hx%list_elem_of_singleton _]. apply Hn1. rewrite <- Hx. apply list_elem_of_fmap. by exists op'. }
    eapply shows_ext; [apply (IH _ _ _ Hn2 H1 Hsub')| |].
    + intros x. unfold walked. pose proof (list_elem_of_singleton x op.2). pose proof (elem_of_cons sub.*2 x op.2). cbn [fmap list_fmap].
      destruct (decide (x ∈ sub.*2 /\ is_Some (inserts !! x))), (decide (x ∈ [op.2] /\ is_Some (inserts !! x))),
        (decide (x ∈ op.2 :: sub.*2 /\ is_Some (inserts !! x))); tauto.
    + intros j. unfold upd, walk_moves. destruct (decide (j = l)) as [->|]; [|done]. rewrite decide_True by done.
      rewrite (filter_app _ [op] sub : base.filter _ (op :: sub) = _). unfold replay_moves. by rewrite foldl_app.
Qed.

(** ** The mirror while the sides are told *)

(** What the plan of a frame says of one item, between the metadata before and
    after the import. *)
Definition plan_leads (p : Plan) (meta0 meta1 : gmap string ItemMeta) (id : string) : Prop :=
  (exists c, pl_changes p !! id = Some c /\ ch_old c = meta0 !! id /\ ch_new c = meta1 !! id
     /\ (ch_brand_new c = true <-> ch_old c = None /\ ch_new c <> None)
     /\ (forall o n, ch_old c = Some o -> ch_new c = Some n -> m_open o <> m_open n -> has c KEY_LIFECYCLE || has c KEY_BINNED_AT = true)
     /\ (forall o n, ch_old c = Some o -> ch_new c = Some n -> m_list_id o <> m_list_id n -> has c KEY_LOCATION = true)
     /\ (id ∈ fr_removals (pl_frame p) <-> ch_new c = None))
  \/ (pl_changes p !! id = None /\ meta1 !! id = meta0 !! id /\ id ∉ fr_removals (pl_frame p)).

Section sides.
Variable p : Plan.
Variables meta0 meta1 : gmap string ItemMeta.
Variable arr0 : string -> list string.
Hypothesis Harr0 : forall l id, id ∈ arr0 l <-> entry <$> meta0 !! id = Some (l, true).
(** The plan is the change from [meta0] to [meta1]. *)
Hypothesis Hchange : forall id, plan_leads p meta0 meta1 id.

Definition before (id : string) : option (string * bool) := entry <$> meta0 !! id.
Definition after (id : string) : option (string * bool) := entry <$> meta1 !! id.

(** What the mirror holds of an item once its side was told: an open item that
    is new or was hidden waits for the walk of its list. *)
Definition midway (id : string) : option (string * bool) :=
  match meta0 !! id, meta1 !! id with
  | None, Some n => if m_open n then None else Some (entry n)
  | Some o, Some n => Some (m_list_id n, m_open o && m_open n)
  | _, None => None
  end.

Definition items_at (P : list string) (id : string) : option (string * bool) :=
  if decide (id ∈ P) then midway id else before id.
Definition arrives (l id : string) : Prop := midway id = Some (l, true) /\ before id <> Some (l, true).
Definition arrays_at (P : list string) (l : string) : list string :=
  base.filter (fun id => items_at P id = Some (l, true)) (arr0 l) ++ base.filter (fun id => arrives l id) P.

Lemma arrays_at_snoc P id l : id ∉ P ->
  arrays_at (P ++ [id]) l
  = (if decide (before id = Some (l, true) /\ midway id <> Some (l, true)) then without_id id (arrays_at P l) else arrays_at P l)
    ++ (if decide (arrives l id) then [id] else []).
Proof.
  intros Hid. unfold arrays_at. rewrite filter_app, app_assoc.
  assert (Hone : base.filter (fun id => arrives l id) [id] = if decide (arrives l id) then [id] else []).
  { rewrite filter_cons. by case_decide. }
  rewrite Hone. f_equal.
  assert (HP : without_id id (base.filter (fun x => arrives l x) P) = base.filter (fun x => arrives l x) P).
  { apply list_filter_all. intros x [_ Hx]%list_elem_of_filter ->. done. }
  assert (Hitems : forall x, x <> id -> items_at (P ++ [id]) x = items_at P x).
  { intros x Hx. unfold items_at. destruct (decide (x ∈ P)) as [Hin|Hin].
    - by rewrite decide_True by (apply elem_of_app; by left).
    - rewrite decide_False; [done|]. rewrite elem_of_app, list_elem_of_singleton. tauto. }
  assert (Hnew : items_at (P ++ [id]) id = midway id).
  { unfold items_at. rewrite decide_True; [done|]. apply elem_of_app. right. by left. }
  assert (Hold : items_at P id = before id) by (unfold items_at; by rewrite decide_False).
  clear Hone. case_decide as Hd.
  - unfold without_id in *. rewrite filter_app, HP. f_equal. rewrite list_filter_filter. apply list_filter_ext_in. intros x _.
    destruct (decide (x = id)) as [->|Hx]; [rewrite Hnew; tauto|rewrite (Hitems x Hx); tauto].
  - f_equal. apply list_filter_ext_in. intros x Hx. destruct (decide (x = id)) as [->|Hxid]; [|by rewrite Hitems].
    apply Harr0 in Hx. fold (before id) in Hx. rewrite Hnew, Hold, Hx.
    destruct (decide (midway id = Some (l, true))); tauto.
Qed.

(** One item processed. *)
Definition at_stage (P : list string) (m : Mirror) : Prop := shows m (items_at P) (arrays_at P).

Lemma stage_snoc P id m (arrays' : string -> list string) : id ∉ P ->
  shows m (upd (items_at P) id (midway id)) arrays' ->
  (forall l, arrays' l = (if decide (before id = Some (l, true) /\ midway id <> Some (l, true)) then without_id id (arrays_at P l) else arrays_at P l)
    ++ (if decide (arrives l id) then [id] else [])) ->
  at_stage (P ++ [id]) m.
Proof.
  intros Hid Hm Ha. eapply shows_ext; [exact Hm| |].
  - intros x. unfold upd, items_at. case_decide as Hx.
    + subst. rewrite decide_True; [done|]. apply elem_of_app. right. by left.
    + destruct (decide (x ∈ P)) as [Hin|Hin].
      * by rewrite decide_True by (apply elem_of_app; by left).
      * rewrite decide_False; [done|]. rewrite elem_of_app, list_elem_of_singleton. tauto.
  - intros l. rewrite Ha. by rewrite arrays_at_snoc.
Qed.

Lemma items_at_fresh P id : id ∉ P -> items_at P id = before id.
Proof. intros Hid. unfold items_at. by rewrite decide_False. Qed.

(** The item's entry as the rule of [stage_snoc] asks, when its own array is
    the only one to change. *)
Lemma unchanged_arrays P id l : midway id = before id ->
  (if decide (before id = Some (l, true) /\ midway id <> Some (l, true)) then without_id id (arrays_at P l) else arrays_at P l)
    ++ (if decide (arrives l id) then [id] else []) = arrays_at P l.
Proof.
  intros E. rewrite decide_False by (rewrite E; tauto). rewrite decide_False by (unfold arrives; rewrite E; tauto). apply app_nil_r.
Qed.

(** An item that leaves an array and arrives nowhere. *)
Lemma leaving_arrays P id l : id ∉ P -> (forall l', midway id <> Some (l', true)) ->
  left_arrays (items_at P) (arrays_at P) id l
  = (if decide (before id = Some (l, true) /\ midway id <> Some (l, true)) then without_id id (arrays_at P l) else arrays_at P l)
    ++ (if decide (arrives l id) then [id] else []).
Proof.
  intros Hid Hmid. rewrite (decide_False (P := arrives l id)) by (unfold arrives; intros [E _]; by apply Hmid in E).
  rewrite app_nil_r. unfold left_arrays. rewrite items_at_fresh by done.
  destruct (before id) as [[l' []]|] eqn:Eb; unfold upd.
  - case_decide as Hl.
    + subst. by rewrite decide_True by (split; [done|apply Hmid]).
    + rewrite decide_False; [done|]. intros [[= ->] _]. done.
  - by rewrite decide_False by (by intros [? _]).
  - by rewrite decide_False by (by intros [? _]).
Qed.

Lemma told_removed P id m : id ∉ P -> id ∈ fr_removals (pl_frame p) -> at_stage P m ->
  at_stage (P ++ [id]) (dispatch m (ItemRemoved id)).
Proof.
  intros Hid Hr Hm. assert (Hmid : midway id = None).
  { destruct (Hchange id) as [(c & _ & _ & En & _ & _ & _ & Hrm)|(_ & _ & Hn)]; [|done].
    unfold midway. rewrite <- En, (proj1 Hrm Hr). by destruct (meta0 !! id). }
  apply (stage_snoc P id _ (left_arrays (items_at P) (arrays_at P) id)); [done| |].
  - rewrite Hmid. by apply removed_shows.
  - intros l. apply leaving_arrays; [done|]. by rewrite Hmid.
Qed.

Lemma told_nothing P id m : id ∉ P -> midway id = before id -> at_stage P m -> at_stage (P ++ [id]) m.
Proof.
  intros Hid E Hm. apply (stage_snoc P id _ (arrays_at P)); [done| |].
  - eapply shows_ext; [exact Hm| |done]. intros x. unfold upd. case_decide; [|done]. subst. by rewrite items_at_fresh, E.
  - intros l. by rewrite unchanged_arrays.
Qed.

Lemma not_in_arrays P id l : id ∉ P -> before id <> Some (l, true) -> id ∉ arrays_at P l.
Proof.
  intros Hid Hb [[_ Hin%Harr0]%list_elem_of_filter|[_ Hin]%list_elem_of_filter]%elem_of_app; done.
Qed.

(** The view of a changed item agrees with its new metadata. *)
Definition views (id : string) (n : ItemMeta) (v : ItemView) : Prop :=
  iv_id v = id /\ iv_list_id v = m_list_id n /\ iv_is_open v = m_open n.

Lemma told_list_change P id o n m : id ∉ P -> meta0 !! id = Some o -> meta1 !! id = Some n -> m_open n = true ->
  at_stage P m -> m_list_id o <> m_list_id n ->
  at_stage (P ++ [id]) (dispatch m (ItemListChanged id (m_list_id n) None)).
Proof.
  intros Hid E0 E1 Hn Hm Hne. assert (Hb : before id = Some (entry o)) by (unfold before; by rewrite E0).
  assert (Hmid : midway id = Some (m_list_id n, m_open o)) by (unfold midway; by rewrite E0, E1, Hn, andb_true_r).
  pose proof (list_changed_shows _ _ _ Hm id (m_list_id o) (m_open o) (m_list_id n)) as H.
  rewrite items_at_fresh, Hb in H by done. specialize (H eq_refl).
  eapply stage_snoc; [done|rewrite Hmid; exact H|]. intros l. destruct (m_open o) eqn:Eo.
  - unfold entry in Hb. rewrite Eo in Hb. cbn zeta. unfold upd.
    destruct (decide (l = m_list_id n)) as [->|Hl].
    + rewrite (decide_False (P := m_list_id n = m_list_id o)) by congruence.
      rewrite (decide_False (P := before id = _ /\ _)) by (rewrite Hb; intros [[= ?] _]; congruence).
      rewrite (decide_True (P := arrives _ _)) by (unfold arrives; rewrite Hb, Hmid; split; congruence).
      unfold without_id. rewrite list_filter_all; [done|]. intros x Hx ->. revert Hx. apply not_in_arrays; [done|congruence].
    + rewrite (decide_False (P := arrives _ _)) by (unfold arrives; rewrite Hmid; intros [[= ?] _]; congruence).
      rewrite app_nil_r. case_decide as Hlo.
      * subst. rewrite decide_True; [done|]. rewrite Hmid. split; [done|congruence].
      * rewrite decide_False; [done|]. rewrite Hb. intros [[= ?] _]. congruence.
  - rewrite <- leaving_arrays; [|done|by rewrite Hmid]. unfold left_arrays. rewrite items_at_fresh, Hb by done. unfold entry. by rewrite Eo.
Qed.

Lemma told_hidden P id o n v m rel : id ∉ P -> meta0 !! id = Some o -> meta1 !! id = Some n -> m_open n = false ->
  views id n v -> at_stage P m ->
  (exists b1 b2, rel = when b1 (lifecycle_changed id v None) ++ when b2 (ItemListChanged id (m_list_id n) None)
    /\ (m_open o = true -> b1 = true) /\ (b2 = bool_decide (m_list_id o <> m_list_id n))) ->
  at_stage (P ++ [id]) (foldl dispatch m rel).
Proof.
  intros Hid E0 E1 Hn (_ & _ & Hv) Hm (b1 & b2 & -> & Hb1 & ->).
  assert (Hb : before id = Some (entry o)) by (unfold before; by rewrite E0).
  assert (Hmid : midway id = Some (m_list_id n, false)) by (unfold midway; by rewrite E0, E1, Hn, andb_false_r).
  assert (Hl : items_at P id = Some (m_list_id o, m_open o)) by (by rewrite items_at_fresh).
  set (arr := left_arrays (items_at P) (arrays_at P) id).
  assert (H1 : shows (foldl dispatch m (when b1 (lifecycle_changed id v None))) (upd (items_at P) id (Some (m_list_id o, false))) arr).
  { pose proof (lifecycle_shows _ _ _ Hm id (m_list_id o) (m_open o) v None Hl) as H. cbn zeta in H. rewrite Hv, Hn in H.
    unfold arr, left_arrays. rewrite Hl. destruct (m_open o); [rewrite Hb1 by done; exact H|]. destruct b1; [exact H|].
    eapply shows_ext; [exact Hm| |done]. intros x. unfold upd. case_decide; [by subst|done]. }
  rewrite foldl_app. apply (stage_snoc P id _ arr); [done| |intros l; apply leaving_arrays; [done|by rewrite Hmid]].
  rewrite Hmid. case_bool_decide as Hne; cbn [when foldl].
  - pose proof (list_changed_shows _ _ _ H1 id (m_list_id o) false (m_list_id n)) as H. unfold upd at 1 in H. rewrite decide_True in H by done.
    eapply shows_ext; [exact (H eq_refl)| |done]. intros x. unfold upd. by case_decide.
  - eapply shows_ext; [exact H1| |done]. intros x. unfold upd. case_decide; [|done]. f_equal. f_equal.
    destruct (decide (m_list_id o = m_list_id n)); tauto.
Qed.

(** One change told. *)
Lemma told_change post_open P id c m rel : id ∉ P -> id ∉ fr_removals (pl_frame p) -> pl_changes p !! id = Some c ->
  at_stage P m ->
  match ch_new c with
  | None => rel = []
  | Some n => if ch_brand_new c && m_open n then rel = []
      else exists v, views id n v /\ rel = (if ch_brand_new c then [] else lane_event post_open id c n v) ++ side_events id c n v
  end ->
  at_stage (P ++ [id]) (foldl dispatch m rel).
Proof.
  intros Hid Hnr Hc Hm Hrel. destruct (Hchange id) as [(c' & Ec & Eo & En & Hbr & Hop & Hls & Hrm)|(Ec & _)]; [|congruence].
  rewrite Hc in Ec. injection Ec as <-. destruct (ch_new c) as [n|] eqn:Hnew; [|by destruct (Hnr (proj2 Hrm eq_refl))].
  symmetry in En, Eo. destruct (ch_brand_new c) eqn:Hb.
  - destruct (proj1 Hbr eq_refl) as [Hold _]. rewrite Hold in Eo. cbn [andb] in Hrel. destruct (m_open n) eqn:Hon.
    + subst rel. apply told_nothing; [done| |done]. unfold midway, before. by rewrite Eo, En, Hon.
    + destruct Hrel as (v & (Hvi & Hvl & Hvo) & ->). unfold side_events. rewrite Hon, Hb. cbn [app foldl].
      pose proof (added_shows _ _ _ Hm v None) as H. rewrite Hvi, items_at_fresh in H by done.
      unfold before in H. rewrite Eo in H. specialize (H eq_refl). rewrite Hvo, Hon, Hvl in H.
      apply (stage_snoc P id _ (arrays_at P)); [done| |].
      * unfold midway. rewrite Eo, En, Hon. unfold entry. by rewrite Hon.
      * intros l. rewrite <- leaving_arrays; [|done|unfold midway; by rewrite Eo, En, Hon; unfold entry; rewrite Hon].
        unfold left_arrays. rewrite items_at_fresh by done. unfold before. by rewrite Eo.
  - cbn [andb] in Hrel. destruct Hrel as (v & Hviews & ->). destruct (ch_old c) as [o|] eqn:Hold.
    2: { exfalso. assert (Hx : false = true) by (apply Hbr; done). done. }
    assert (Hleft : has c KEY_LOCATION && left_list c n = bool_decide (m_list_id o <> m_list_id n)).
    { unfold left_list. rewrite Hold. case_bool_decide as Hne; [|apply andb_false_r]. by rewrite (Hls o n). }
    unfold side_events. rewrite Hb. destruct (m_open n) eqn:Hon.
    + cbn [negb andb]. rewrite Hleft, foldl_app.
      assert (Hm' : at_stage P (foldl dispatch m (lane_event post_open id c n v))).
      { unfold lane_event. rewrite Hon. cbn [andb]. destruct (was_open c && has_lifecycle c) eqn:Ew; cbn [when foldl]; [|done].
        apply andb_true_iff in Ew as [Ew _]. unfold was_open in Ew. rewrite Hold in Ew.
        assert (Hl : items_at P id = Some (m_list_id o, true)).
        { rewrite items_at_fresh by done. unfold before. rewrite Eo. cbn. unfold entry. by rewrite Ew. }
        pose proof (lifecycle_shows _ _ _ Hm id _ _ v (post_open !! m_list_id n ≫= position_of id) Hl) as H. cbn zeta in H.
        destruct Hviews as (_ & _ & Hvo). rewrite Hvo, Hon in H.
        eapply shows_ext; [exact H| |done]. intros x. unfold upd. destruct (decide (x = id)) as [->|]; [by rewrite Hl|done]. }
      case_bool_decide as Hne; cbn [when foldl].
      * by apply (told_list_change P id o n).
      * apply told_nothing; [done| |done]. unfold midway, before. rewrite Eo, En, Hon, andb_true_r. cbn. unfold entry.
        destruct (decide (m_list_id o = m_list_id n)) as [->|]; [done|tauto].
    + unfold lane_event. rewrite Hon. cbn [andb when app]. rewrite Hleft. apply (told_hidden P id o n v); try done.
      eexists _, _. split; [reflexivity|]. split; [|done]. intros Ho. pose proof (Hop o n eq_refl eq_refl) as Hx.
      rewrite Ho, Hon in Hx. unfold has_lifecycle. specialize (Hx ltac:(done)). apply orb_true_iff in Hx as [-> | ->]; [done|by rewrite !orb_true_r].
Qed.

(** ** The mirror while a list is walked *)

(** What the sides leave when every change was told. *)
Definition all_told (P : list string) : Prop := forall id, id ∈ P \/ meta1 !! id = meta0 !! id.

Lemma items_told P id : all_told P -> items_at P id = midway id.
Proof.
  intros HP. unfold items_at. case_decide as Hin; [done|]. assert (E : meta1 !! id = meta0 !! id).
  { by destruct (HP id). }
  unfold before, midway. rewrite E. destruct (meta0 !! id) as [o|]; [|done]. cbn. unfold entry. by rewrite andb_diag.
Qed.

Lemma midway_stays l id : before id = Some (l, true) -> midway id = Some (l, true) <-> after id = Some (l, true).
Proof.
  unfold before, midway, after. destruct (meta0 !! id) as [o|]; [|done]. cbn. unfold entry. intros [= <- ->].
  destruct (meta1 !! id) as [n|]; [|done]. cbn. done.
Qed.

Lemma arrives_after l id : arrives l id -> after id = Some (l, true).
Proof.
  intros [Hm _]. unfold midway, after in *. destruct (meta0 !! id) as [o|], (meta1 !! id) as [n|]; try done; cbn in *; unfold entry in *.
  - injection Hm as <- Ho. apply andb_true_iff in Ho as [_ ->]. done.
  - by destruct (m_open n) eqn:En; [|injection Hm as ? ?; congruence].
Qed.

Lemma arrays_told P l (post : list string) : all_told P -> (forall id, id ∈ post <-> after id = Some (l, true)) ->
  arrays_at P l = base.filter (fun id => id ∈ post) (arr0 l) ++ base.filter (fun id => arrives l id) P.
Proof.
  intros HP Hpost. unfold arrays_at. f_equal. apply list_filter_ext_in. intros id Hid%Harr0. fold (before id) in Hid.
  rewrite items_told by done. rewrite Hpost. by apply midway_stays.
Qed.


(** The sides of every item the frame changed. *)
Lemma told_removals rs : forall P m, NoDup (P ++ rs) -> (forall id, id ∈ rs -> id ∈ fr_removals (pl_frame p)) ->
  at_stage P m -> at_stage (P ++ rs) (foldl dispatch m (ItemRemoved <$> rs)).
Proof.
  induction rs as [|id rs IH]; intros P m Hn Hr Hm; [by rewrite app_nil_r|].
  rewrite (cons_middle id P rs), app_assoc in *. cbn [fmap list_fmap foldl].
  apply IH; [done|intros; apply Hr; by right|]. apply told_removed; [|apply Hr; by left|done].
  rewrite NoDup_app, NoDup_app in Hn. destruct Hn as ((_ & Hn & _) & _). intros Hin. apply (Hn id Hin). by left.
Qed.

(** What the loop over the changes says of one item. *)
Definition change_says post_open (id : string) (rel : list AppEvent) : Prop :=
  match pl_changes p !! id with
  | None => rel = []
  | Some c => match ch_new c with
    | None => rel = []
    | Some n => if ch_brand_new c && m_open n then rel = []
        else exists v, views id n v /\ rel = (if ch_brand_new c then [] else lane_event post_open id c n v) ++ side_events id c n v
    end
  end.

Lemma told_changes post_open ids rels : Forall2 (change_says post_open) ids rels -> forall P m,
  NoDup ids -> (forall id, id ∈ P -> id ∈ ids -> id ∈ fr_removals (pl_frame p)) ->
  (forall id, id ∈ fr_removals (pl_frame p) -> id ∈ P) -> at_stage P m ->
  at_stage (P ++ base.filter (fun id => id ∉ fr_removals (pl_frame p)) ids) (foldl dispatch m (concat rels)).
Proof.
  induction 1 as [|id rel ids rels Hrel _ IH]; intros P m Hn HP Hr Hm; [by rewrite app_nil_r|].
  apply NoDup_cons in Hn as [Hid Hn]. cbn [concat]. rewrite foldl_app, filter_cons.
  destruct (decide (id ∈ fr_removals (pl_frame p))) as [Hrm|Hrm];
    [rewrite decide_False by tauto|rewrite decide_True by done].
  - assert (rel = []) as ->.
    { unfold change_says in Hrel. destruct (pl_changes p !! id) as [c|] eqn:Ec; [|done].
      destruct (Hchange id) as [(c' & Ec' & _ & _ & _ & _ & _ & Hx)|(Ec' & _)]; [|congruence].
      rewrite Ec in Ec'. injection Ec' as <-. by rewrite (proj1 Hx Hrm) in Hrel. }
    apply IH; [done| |done|done]. intros x Hx Hin. apply HP; [done|by right].
  - assert (HidP : id ∉ P) by (intros Hin; apply Hrm, HP; [done|by left]).
    rewrite (cons_middle id P), app_assoc. apply IH; [done| |set_solver|].
    + intros x [Hx|Hx]%elem_of_app Hin; [apply HP; [done|by right]|]. apply list_elem_of_singleton in Hx as ->. done.
    + unfold change_says in Hrel. destruct (pl_changes p !! id) as [c|] eqn:Ec; [by apply (told_change post_open P id c)|].
      subst rel. apply told_nothing; [done| |done].
      destruct (Hchange id) as [(c & Ec' & _)|(_ & E & _)]; [congruence|]. unfold midway, before. rewrite E.
      destruct (meta0 !! id) as [o|]; [|done]. cbn. unfold entry. by rewrite andb_diag.
Qed.

(** Everything the two loops process. *)
Definition processed : list string :=
  sort_strings (elements (fr_removals (pl_frame p)))
  ++ base.filter (fun id => id ∉ fr_removals (pl_frame p)) (sort_strings (elements (dom (pl_changes p)))).

Lemma processed_told : all_told processed.
Proof.
  intros id. destruct (Hchange id) as [(c & Ec & _)|(_ & E & _)]; [left|by right].
  unfold processed. rewrite elem_of_app, list_elem_of_filter, !elem_of_sort_strings, !elem_of_elements, elem_of_dom, Ec.
  destruct (decide (id ∈ fr_removals (pl_frame p))); [by left|right; split; [done|by eexists]].
Qed.

Lemma sides_told post_open rels m :
  Forall2 (change_says post_open) (sort_strings (elements (dom (pl_changes p)))) rels -> at_stage [] m ->
  at_stage processed (foldl dispatch m ((ItemRemoved <$> sort_strings (elements (fr_removals (pl_frame p)))) ++ concat rels)).
Proof.
  intros Hrels Hm. assert (Hn : forall X : gset string, NoDup (sort_strings (elements X))).
  { intros X. apply NoDup_sort_strings, NoDup_elements. }
  assert (Hin : forall (X : gset string) id, id ∈ sort_strings (elements X) <-> id ∈ X).
  { intros X id. by rewrite elem_of_sort_strings, elem_of_elements. }
  rewrite foldl_app. unfold processed. apply (told_changes post_open _ _ Hrels); [done| | |].
  - intros id Hid _. by apply Hin.
  - intros id Hid. by apply Hin.
  - apply (told_removals _ []); [apply Hn|intros id Hid; by apply Hin|done].
Qed.

(** ** The mirror while the lists are walked *)

Variable its : gmap string slot.
Hypothesis Hviews : forall id v n, item_map_of its id ≫= item_view = Some v -> meta1 !! id = Some n -> views id n v.

Lemma insert_event_inv d l i id ev d' : d_items d = its -> insert_event p l i id d = (Ok ev, d') ->
  d' = d /\ match ev with
  | Some ev => puts l i id ev (midway id) /\ before id <> Some (l, true) /\ after id = Some (l, true)
  | None => after id = Some (l, true) -> midway id = Some (l, true)
  end.
Proof.
  intros Hits. unfold insert_event. destruct (Hchange id) as [(c & -> & Eo & En & Hbr & Hop & _ & _)|(-> & E & _)].
  2: { intros [= <- <-]. split; [done|]. unfold after, midway. rewrite E. destruct (meta0 !! id) as [o|]; [|done].
       cbn. unfold entry. by rewrite andb_diag. }
  unfold after, midway, before. rewrite <- En, <- Eo in *. destruct (ch_new c) as [n|] eqn:Hn.
  2: { intros [= <- <-]. by destruct (ch_old c). }
  cbn [fmap option_fmap option_map]. unfold entry. destruct (m_open n) eqn:Hon; cbn [negb orb].
  2: { intros [= <- <-]. split; [done|]. intros [=]. }
  case_bool_decide as Hl; [intros [= <- <-]; split; [done|]; intros [=]; congruence|].
  destruct (ch_brand_new c) eqn:Hb.
  - destruct (proj1 Hbr eq_refl) as [-> _]. intros (v & d1 & [-> Hv]%view_of_inv & [= <- <-])%M_bind_inv. split; [done|].
    unfold viewed in Hv. rewrite Hits in Hv. destruct (Hviews _ _ _ Hv (eq_sym En)) as (V1 & V2 & V3).
    split_and!; [|done|by rewrite Hl]. left. exists v. by rewrite V2, V3.
  - destruct (ch_old c) as [o|] eqn:Ho; [|by assert (Hx : false = true) by (by apply Hbr)]. destruct (m_open o) eqn:Hoo; cbn [negb andb].
    + intros [= <- <-]. split; [done|]. by rewrite Hl.
    + rewrite (Hop o n) by congruence. intros (v & d1 & [-> Hv]%view_of_inv & [= <- <-])%M_bind_inv. split; [done|].
      unfold viewed in Hv. rewrite Hits in Hv. destruct (Hviews _ _ _ Hv (eq_sym En)) as (V1 & V2 & V3).
      split_and!; [|cbn; rewrite Hoo; intros [=]|by rewrite Hl]. right. exists v. by rewrite V3, Hl.
Qed.

Lemma insert_types_inv d l post : d_items d = its -> NoDup post -> forall k ins d',
  insert_types p l k post d = (Ok ins, d') ->
  d' = d /\ forall id,
    match ins !! id with
    | Some ev => exists j, post !! j = Some id /\ puts l (k + j) id ev (midway id) /\ before id <> Some (l, true) /\ after id = Some (l, true)
    | None => id ∈ post -> after id = Some (l, true) -> midway id = Some (l, true)
    end.
Proof.
  intros Hits. induction 1 as [|x post Hx Hn IH]; intros k ins d' E.
  - injection E as <- <-. split; [done|]. intros id. rewrite lookup_empty. by intros ?%not_elem_of_nil.
  - cbn [insert_types] in E. apply M_bind_inv in E as (ev & d1 & [-> Hev]%insert_event_inv & E); [|done].
    apply M_bind_inv in E as (later & d2 & [-> Hlater]%IH & [= <- <-]). split; [done|].
    assert (Hxl : later !! x = None).
    { specialize (Hlater x). destruct (later !! x); [|done]. destruct Hlater as (j & Hj%list_elem_of_lookup_2 & _). done. }
    assert (Hrest : forall id, id <> x -> match later !! id with
      | Some ev => exists j, (x :: post) !! j = Some id /\ puts l (k + j) id ev (midway id) /\ before id <> Some (l, true) /\ after id = Some (l, true)
      | None => id ∈ x :: post -> after id = Some (l, true) -> midway id = Some (l, true)
      end).
    { intros id Hid. specialize (Hlater id). destruct (later !! id).
      - destruct Hlater as (j & ? & ? & ?). exists (S j). by rewrite Nat.add_succ_r.
      - intros [->|?]%elem_of_cons; [done|by apply Hlater]. }
    intros id. destruct (decide (id = x)) as [->|Hid].
    + destruct ev as [ev|]; rewrite Hxl; [rewrite lookup_insert_eq; exists 0; by rewrite Nat.add_0_r|]. by intros _.
    + destruct ev as [ev|]; [|by apply Hrest]. rewrite Hxl, lookup_insert_ne by done. by apply Hrest.
Qed.

(** The lists whose arrays the walk has reached. *)
Variable arr1 : string -> list string.
Hypothesis Harr1 : forall l id, id ∈ arr1 l <-> after id = Some (l, true).
Hypothesis Hnodup1 : forall l, NoDup (arr1 l).

Definition items_walked (Ls : list string) (id : string) : option (string * bool) :=
  match after id with
  | Some (l, true) => if decide (l ∈ Ls) then after id else midway id
  | _ => midway id
  end.
Definition arrays_walked (Ls : list string) (P : list string) (l : string) : list string :=
  if decide (l ∈ Ls) then arr1 l else arrays_at P l.

Lemma candidates_simulate l pre post ins planned cands : list_candidates p l pre post ins planned = Some cands ->
  simulate (base.filter (fun id => id ∈ post) pre) post ins cands = true.
Proof.
  unfold list_candidates. destruct (simulate _ _ _ (minimal_moves _ _ _ _)) eqn:E; [by intros [= <-]|].
  case_decide; [done|]. destruct (simulate _ _ _ (widened_moves _ _ _)) eqn:E2; [by intros [= <-]|done].
Qed.

Lemma walk_events_walk post ins cands : walk_events post ins cands = imap pair post ≫= walk_one ins cands.
Proof. unfold walk_events. apply list_bind_ext; [by intros []|done]. Qed.

Lemma snd_imap_pair (post : list string) : (imap pair post).*2 = post.
Proof. apply list_eq. intros i. rewrite list_lookup_fmap, list_lookup_imap. by destruct (post !! i). Qed.

(** One list walked on top of the others. *)
Lemma told_list l Ls P d ins cands d' planned m : d_items d = its -> l ∉ Ls -> all_told P ->
  insert_types p l 0 (arr1 l) d = (Ok ins, d') ->
  list_candidates p l (arr0 l) (arr1 l) (dom ins) planned = Some cands ->
  shows m (items_walked Ls) (arrays_walked Ls P) ->
  shows (foldl dispatch m (walk_events (arr1 l) ins cands)) (items_walked (Ls ++ [l])) (arrays_walked (Ls ++ [l]) P).
Proof.
  intros Hits Hl HP [-> Hins]%insert_types_inv Hsim%candidates_simulate Hm; [|done|done].
  assert (Hmid : forall id, id ∈ arr1 l -> items_walked Ls id = midway id).
  { intros id Hid%Harr1. unfold items_walked. rewrite Hid. by rewrite decide_False. }
  rewrite walk_events_walk. eapply shows_ext; [apply (walk_dispatch l); [by rewrite snd_imap_pair|exact Hm|]|..].
  - apply Forall_forall. intros [i id] Hin. apply list_elem_of_lookup in Hin as [j Hj]. rewrite list_lookup_imap in Hj.
    destruct (arr1 l !! j) as [x|] eqn:Ej; [|done]. cbn in Hj. injection Hj as -> ->. unfold walkable. cbn [fst snd].
    pose proof (list_elem_of_lookup_2 _ _ _ Ej) as Hpost. rewrite Hmid by done. specialize (Hins id). destruct (ins !! id).
    + destruct Hins as (k & Hk & Hputs & _). cbn in Hputs. by rewrite (NoDup_lookup _ _ _ _ (Hnodup1 l) Ej Hk).
    + intros _. apply Hins; [done|by apply Harr1].
  - intros id. unfold walked. rewrite snd_imap_pair. specialize (Hins id). case_decide as Hd.
    + destruct Hd as [Hin%Harr1 _]. unfold items_walked. rewrite Hin. rewrite decide_True; [done|]. apply elem_of_app. right. by left.
    + unfold items_walked. destruct (after id) as [[l' []]|] eqn:Ea; [|done|done].
      destruct (decide (l' ∈ Ls)) as [Hin|Hin]; [by rewrite decide_True by (apply elem_of_app; by left)|].
      destruct (decide (l' = l)) as [->|Hne].
      * rewrite decide_True by (apply elem_of_app; right; by left). apply Harr1 in Ea as Hpost.
        destruct (ins !! id) eqn:Ei; [destruct Hd; split; [done|by eexists]|by apply Hins].
      * rewrite decide_False; [done|]. rewrite elem_of_app, list_elem_of_singleton. tauto.
  - intros j. unfold upd, arrays_walked. destruct (decide (j = l)) as [->|Hj].
    + rewrite (decide_False (P := l ∈ Ls)), decide_True by (done || (apply elem_of_app; right; by left)).
      rewrite (arrays_told P l (arr1 l) HP) by apply Harr1. apply (simulate_consumer _ _ (dom ins) cands); [done|exact Hsim| |].
      * intros x [_ Hx%Harr0]%list_elem_of_filter Hdom. apply elem_of_dom in Hdom as [ev Hev]. specialize (Hins x). rewrite Hev in Hins.
        by destruct Hins as (_ & _ & _ & Hb & _).
      * intros x [Hx _]%list_elem_of_filter. split; [by apply Harr1, arrives_after|].
        intros [_ Hb%Harr0]%list_elem_of_filter. by destruct Hx as [_ Hx].
    + destruct (decide (j ∈ Ls)) as [Hin|Hin].
      * by rewrite decide_True by (apply elem_of_app; by left).
      * rewrite decide_False; [done|]. rewrite elem_of_app, list_elem_of_singleton. tauto.
Qed.

Lemma told_lists pre_open post_open P ls : all_told P ->
  (forall l, l ∈ ls -> default [] (pre_open !! l) = arr0 l /\ default [] (post_open !! l) = arr1 l) ->
  forall Ls d planned out d', d_items d = its -> NoDup (Ls ++ ls) ->
  walk_lists p post_open pre_open ls planned d = (Ok out, d') ->
  d' = d /\ exists evs, out = planned ++ evs /\ forall m, shows m (items_walked Ls) (arrays_walked Ls P) ->
    shows (foldl dispatch m evs) (items_walked (Ls ++ ls)) (arrays_walked (Ls ++ ls) P).
Proof.
  intros HP. induction ls as [|l ls IH]; intros Hopen Ls d planned out d' Hits Hn E.
  - injection E as <- <-. split; [done|]. exists []. by rewrite !app_nil_r.
  - cbn [walk_lists] in E. destruct (Hopen l ltac:(by left)) as [-> ->] in E.
    apply M_bind_inv in E as (ins & d1 & E1 & E). pose proof E1 as [-> _]%insert_types_inv; [|done|done].
    destruct (list_candidates _ _ _ _ _ _) as [cands|] eqn:Ec; [|done].
    rewrite (cons_middle l Ls ls), app_assoc in *.
    destruct (IH ltac:(intros; apply Hopen; by right) (Ls ++ [l]) d _ out d' Hits Hn E) as (-> & evs & -> & Hevs).
    split; [done|]. exists (walk_events (arr1 l) ins cands ++ evs). rewrite app_assoc. split; [done|]. intros m Hm. rewrite foldl_app.
    apply Hevs. eapply told_list; try done. rewrite !NoDup_app in Hn. destruct Hn as ((_ & Hn & _) & _). intros Hin. apply (Hn l Hin). by left.
Qed.

(** When every list an item changed in or left was walked, the mirror shows
    the new items and arrays. *)
Lemma walked_all P Ls m : all_told P ->
  (forall id, meta1 !! id = meta0 !! id \/ forall n, meta1 !! id = Some n -> m_list_id n ∈ Ls) ->
  (forall l, l ∉ Ls -> arr1 l = arr0 l) ->
  shows m (items_walked Ls) (arrays_walked Ls P) -> shows m after arr1.
Proof.
  intros HP HLs Hun Hm. eapply shows_ext; [exact Hm| |].
  - intros id. unfold items_walked. assert (Hstay : meta1 !! id = meta0 !! id -> midway id = after id).
    { intros E. unfold midway, after. rewrite E. destruct (meta0 !! id) as [o|]; [|done]. cbn. unfold entry. by rewrite andb_diag. }
    unfold after in *. destruct (HLs id) as [E|Hl]; [rewrite (Hstay E); by repeat case_match|]. clear Hstay. unfold midway.
    destruct (meta1 !! id) as [n|] eqn:E1; cbn [fmap option_fmap option_map]; unfold entry; [|by destruct (meta0 !! id)].
    specialize (Hl n eq_refl). destruct (m_open n); [by rewrite decide_True|]. destruct (meta0 !! id); [by rewrite andb_false_r|done].
  - intros l. unfold arrays_walked. case_decide as Hin; [done|]. rewrite (arrays_told P l (arr1 l) HP) by apply Harr1.
    rewrite Hun by done. rewrite list_filter_all by done. rewrite (elem_of_nil_inv (base.filter _ P)); [apply app_nil_r|].
    intros x [Hx _]%list_elem_of_filter. pose proof (arrives_after _ _ Hx) as Ha. destruct Hx as [_ Hb].
    unfold after, before in *. destruct (HLs x) as [E|Hl]; [by rewrite E in Ha|].
    destruct (meta1 !! x) as [n|]; [|done]. cbn in Ha. unfold entry in Ha. injection Ha as Hn _. apply Hin. rewrite <- Hn. by apply Hl.
Qed.
End sides.
