(* ===== verification/TranslateConverges.v ===== *)
(** Remote changes reach the consumer: a frame that is translated leaves an
    exact index and sends events that carry a mirror in step with the old index
    to the new one; any other frame is one resync. *)
From S2P Require Import Prelude.
From S2P Require Import Loro.
From S2P Require Import Lifecycle.
From S2P Require Import Registers.
From S2P Require Import Projection.
From S2P Require Import ProjectionFacts.
From S2P Require Import ProjectionOps.
From S2P Require Import Notes.
From S2P Require Import Events.
From S2P Require Import DocCore.
From S2P Require Import DocItems.
From S2P Require Import DocIndex.
From S2P Require Import IndexBuild.
From S2P Require Import IterFacts.
From S2P Require Import Translate.
From S2P Require Import TranslateIndex.
From S2P Require Import Mirror.
From S2P Require Import TranslateEvents.
From S2P Require Import TranslateFacts.

(** A loop of pushes says what it pushes. *)
Lemma says_push_all evs : forall d, exists d', says (mfor evs push_event) d (heeded evs) d' /\ d_events d' = d_events d ++ evs.
Proof.
  induction evs as [|ev evs IH]; intros d; [exists d; split; [apply says_ret|by rewrite app_nil_r]|].
  destruct (says_push ev d) as [d1 S1]. destruct (IH d1) as (d2 & S2 & V2).
  assert (V1 : d_events d1 = d_events d ++ [ev]) by (destruct S1 as (E1 & _); cbn in E1; by injection E1 as <-).
  exists d2. split.
  - replace (heeded (ev :: evs)) with (when (positional ev) ev ++ heeded evs).
    + by eapply says_bind.
    + unfold heeded, when. rewrite filter_cons. by destruct (positional ev).
  - by rewrite V2, V1, <- app_assoc.
Qed.

Lemma same_core_index_ok d d' : same_core d d' -> index_ok d -> index_ok d'.
Proof.
  intros Hc [Hw Hm Hr]. pose proof Hc as (Ei & _ & _ & Ex & _). split; rewrite Ex; [done|by rewrite Ei|].
  intros l. rewrite (same_core_raw _ _ l Hc). apply Hr.
Qed.

(** The events of the settings and the lists drop arrays, nothing else. *)
Lemma diff_rest_heeded b1 b2 pre_s post_s pre_l post_l ev :
  ev ∈ heeded ((if b1 : bool then diff_settings pre_s post_s else []) ++ (if b2 : bool then diff_lists pre_l post_l else [])) ->
  exists l, ev = ListRemoved l.
Proof.
  unfold heeded. rewrite list_elem_of_filter, elem_of_app. intros [Hp [Hin|Hin]].
  - destruct b1; [|by apply not_elem_of_nil in Hin]. unfold diff_settings, when in Hin.
    case_bool_decide; [|by apply not_elem_of_nil in Hin]. apply list_elem_of_singleton in Hin as ->. done.
  - destruct b2; [|by apply not_elem_of_nil in Hin]. unfold diff_lists in Hin. apply elem_of_app in Hin as [Hin|Hin].
    + apply list_elem_of_omap in Hin as (x & _ & Hx). case_match; [done|]. injection Hx as <-. by eexists.
    + exfalso. apply list_elem_of_bind in Hin as ([i x] & Hin & _). destruct (rows_by_id lv_id pre_l !! lv_id x) as [[]|].
      * unfold diff_list, when in Hin. rewrite !elem_of_app in Hin.
        repeat case_bool_decide; rewrite ?list_elem_of_singleton, ?elem_of_nil in Hin; naive_solver.
      * apply list_elem_of_singleton in Hin as ->. done.
Qed.

Lemma told_rest evs : (forall ev, ev ∈ heeded evs -> exists l, ev = ListRemoved l) -> forall m items arrays, shows m items arrays ->
  (forall id, mi_items (foldl dispatch m evs) !! id = items id)
  /\ forall l, ListRemoved l ∉ evs -> array (foldl dispatch m evs) l = arrays l.
Proof.
  induction evs as [|ev evs IH]; intros Hevs m items arrays Hm; [split; [apply Hm|intros l _; apply Hm]|]. cbn [foldl].
  unfold heeded in *. setoid_rewrite filter_cons in Hevs. destruct (positional ev) eqn:Ep.
  - rewrite decide_True in Hevs by done. destruct (Hevs ev ltac:(by left)) as [l0 ->].
    destruct (IH ltac:(intros; apply Hevs; by right) (dispatch m (ListRemoved l0)) items (array (dispatch m (ListRemoved l0)))) as [H1 H2].
    + split; [apply Hm|done].
    + split; [done|]. intros l [Hne Hl]%not_elem_of_cons. rewrite H2 by done. cbn. unfold array. cbn.
      rewrite lookup_delete_ne by congruence. apply Hm.
  - rewrite decide_False in Hevs by (by intros []). replace (dispatch m ev) with m by (by destruct ev).
    destruct (IH Hevs m items arrays Hm) as [H1 H2]. split; [done|]. intros l [_ Hl]%not_elem_of_cons. by apply H2.
Qed.

Lemma mfor_fmap {A B} (f : A -> B) (g : B -> M unit) l : mfor (f <$> l) g = mfor l (fun a => g (f a)).
Proof. induction l as [|a l IH]; [done|]. cbn. by rewrite <- IH. Qed.

Lemma walk_lists_reads p post_open pre_open ls : forall planned d out d',
  walk_lists p post_open pre_open ls planned d = (Ok out, d') -> d' = d.
Proof.
  assert (Hone : forall l i id d ev d', insert_event p l i id d = (Ok ev, d') -> d' = d).
  { intros l i id d ev d'. unfold insert_event. repeat case_match; try (by intros [= _ ->]);
      by intros (v & d1 & [-> _]%view_of_inv & [= _ ->])%M_bind_inv. }
  assert (Hall : forall l post i d ins d', insert_types p l i post d = (Ok ins, d') -> d' = d).
  { intros l. induction post as [|x post IH]; intros i d ins d' E; [by injection E|]. cbn in E.
    by apply M_bind_inv in E as (ev & d1 & ->%Hone & (later & d2 & ->%IH & [= _ ->])%M_bind_inv). }
  induction ls as [|l ls IH]; intros planned d out d' E; [by injection E|]. cbn in E.
  apply M_bind_inv in E as (ins & d1 & ->%Hall & E). destruct (list_candidates _ _ _ _ _ _); [by apply IH in E|done].
Qed.

(** ** A translated frame *)

(** The events carry a mirror in step with the old index to the new one: every
    item's list and openness, and every open array but those of removed lists,
    which the consumer drops. *)
Definition carries (pre d' : Doc) (evs : list AppEvent) : Prop :=
  forall m, in_step (d_index pre) m ->
  (forall id, mi_items (foldl dispatch m evs) !! id = entry <$> ix_meta (d_index d') !! id)
  /\ forall l, ListRemoved l ∉ evs -> array (foldl dispatch m evs) l = open_item_ids d' l.

Definition change_pass (p : Plan) (post_open : gmap string (list string)) (id : string) : M unit :=
  match pl_changes p !! id with
  | Some c => change_events p post_open id c
  | None => mret tt
  end.

(** What the fast path runs once the plan is committed. *)
Definition told_phase (p : Plan) (pre_open post_open : gmap string (list string)) (pre_lists : list ListView)
    (pre_settings : SettingsView) : M unit :=
  let f := pl_frame p in
  mfor (sort_strings (elements (fr_removals f))) (fun id => push_event (ItemRemoved id)) ;;
  mfor (sort_strings (elements (dom (pl_changes p)))) (change_pass p post_open) ;;
  planned ← walk_lists p post_open pre_open (sort_strings (elements (pl_affected p))) [];
  if decide (DIFF_TRANSLATE_MAX_DIRTY <= length planned + size (fr_removals f)) then fail declined
  else
    mfor planned push_event ;;
    post_settings ← gets get_settings;
    post_lists ← gets all_lists;
    mfor ((if fr_settings_dirty f then diff_settings pre_settings post_settings else [])
          ++ (if fr_lists_dirty f then diff_lists pre_lists post_lists else [])) push_event ;;
    push_if (fr_focus_dirty f) FocusChanged.

Lemma translate_inv `{Containers} d diffs pre_lists pre_settings d' :
  translate_captured_diffs diffs pre_lists pre_settings d = (Ok tt, d') ->
  exists p idx pre_open post_open, plan_frame d diffs = Some p
  /\ commit_plan p (d_index d) = (idx, (pre_open, post_open))
  /\ told_phase p pre_open post_open pre_lists pre_settings (with_index (fun _ => idx) d) = (Ok tt, d').
Proof.
  unfold translate_captured_diffs. intros (p & d0 & Ep & E)%M_bind_inv. destruct (plan_frame d diffs) as [p'|]; [|done].
  injection Ep as -> <-. apply M_bind_inv in E as ([pre_open post_open] & d1 & Ec & E). unfold on_index in Ec.
  destruct (commit_plan p (d_index d)) as [idx arrs] eqn:Ecp. injection Ec as -> <-. by eexists p, idx, _, _.
Qed.

(** The phase as what it says. *)
Lemma told_phase_inv p pre_open post_open pre_lists pre_settings R d d' :
  (forall id d0 d0', same_core d d0 -> change_pass p post_open id d0 = (Ok tt, d0') ->
     exists rel, says (change_pass p post_open id) d0 rel d0' /\ R id rel) ->
  told_phase p pre_open post_open pre_lists pre_settings d = (Ok tt, d') ->
  exists rels d2 planned rest evs,
    Forall2 R (sort_strings (elements (dom (pl_changes p)))) rels
    /\ same_core d d2 /\ walk_lists p post_open pre_open (sort_strings (elements (pl_affected p))) [] d2 = (Ok planned, d2)
    /\ same_core d d' /\ d_events d' = d_events d ++ evs ++ rest
    /\ heeded evs = (ItemRemoved <$> sort_strings (elements (fr_removals (pl_frame p)))) ++ concat rels ++ heeded planned
    /\ forall ev, ev ∈ heeded rest -> exists l, ev = ListRemoved l.
Proof.
  intros HR. unfold told_phase. set (rms := sort_strings (elements (fr_removals (pl_frame p)))). set (ids := sort_strings (elements (dom (pl_changes p)))).
  intros ([] & d1 & E1 & E)%M_bind_inv. rewrite <- (mfor_fmap ItemRemoved push_event) in E1.
  destruct (says_push_all (ItemRemoved <$> rms) d) as (d1' & S1 & _). pose proof (says_det _ _ _ _ _ S1 E1) as ->.
  apply M_bind_inv in E as ([] & d2 & E2 & E). apply (says_mfor_inv _ R) in E2 as (rels & S2 & Hrels).
  2: { intros id d0 d0' _ Hc. apply HR. eapply same_core_trans; [apply S1|exact Hc]. }
  apply M_bind_inv in E as (planned & d3 & Ew & E). pose proof (walk_lists_reads _ _ _ _ _ _ _ _ Ew) as ->.
  case_decide; [done|]. apply M_bind_inv in E as ([] & d4 & E4 & E).
  destruct (says_push_all planned d2) as (d4' & S4 & V4). pose proof (says_det _ _ _ _ _ S4 E4) as ->.
  apply M_bind_inv in E as (ps & d5 & [= <- <-] & E). apply M_bind_inv in E as (pl & d5 & [= <- <-] & E).
  apply M_bind_inv in E as ([] & d6 & E6 & E). set (rest := _ ++ _) in E6. destruct (says_push_all rest d4') as (d6' & S6 & V6).
  pose proof (says_det _ _ _ _ _ S6 E6) as ->.
  destruct (says_push_if (fr_focus_dirty (pl_frame p)) FocusChanged d6') as [d7 S7]. pose proof (says_det _ _ _ _ _ S7 E) as ->.
  pose proof (says_bind _ _ _ _ _ _ _ S1 (says_bind _ _ _ _ _ _ _ S2 S4)) as (_ & C & evs & V & Hh).
  destruct S7 as (_ & C7 & foc & V7 & Hf). exists rels, d2, planned, (rest ++ foc), evs. split_and!; try done.
  - eapply same_core_trans; [apply S1|apply S2].
  - eapply same_core_trans; [exact C|]. eapply same_core_trans; [apply S6|exact C7].
  - by rewrite V7, V6, V, <- !app_assoc.
  - rewrite Hh. f_equal. unfold heeded. apply list_filter_all. intros ev (id & -> & _)%list_elem_of_fmap. done.
  - intros ev. rewrite heeded_app, Hf, andb_false_r, app_nil_r. apply diff_rest_heeded.
Qed.

Lemma open_at_entry idx l id : index_wf idx -> id ∈ open_at idx l <-> entry <$> ix_meta idx !! id = Some (l, true).
Proof.
  intros Hwf. rewrite (wf_open _ Hwf), elem_of_open_projection, fmap_Some. unfold located_open, entry.
  split; [intros (m & E & <- & Ho)|intros (m & E & [= -> Ho])]; exists m; by rewrite Ho.
Qed.

Lemma doc_metas_viewed d id v n : self_named d ->
  item_map_of (d_items d) id ≫= item_view = Some v -> doc_metas (d_items d) !! id = Some n -> views id n v.
Proof.
  intros Hs. rewrite doc_metas_item. destruct (item_map_of (d_items d) id) as [m|] eqn:Em; [|done]. cbn. intros Hv [= <-].
  unfold item_view in Hv. rewrite (Hs _ _ Em) in Hv. repeat case_match; try done. injection Hv as <-. split_and!; [done|done|].
  unfold iv_is_open, iv_is_binned. cbn. unfold map_is_open. by repeat case_match.
Qed.

Section frame.
Context `{Containers}.
Variables pre d : Doc.
Variable diffs : list CapturedDiff.
Hypothesis Hpre : index_ok pre.
Hypothesis Hidx : d_index d = d_index pre.
Hypothesis Hfaith : faithful pre d diffs.
Hypothesis Hmir : mirrored pre d.
Hypothesis Hself : self_named d.

Abbreviation meta0 := (doc_metas (d_items pre)).
Abbreviation meta1 := (doc_metas (d_items d)).

Lemma plan_leads_on p id : plan_frame d diffs = Some p -> plan_leads p meta0 meta1 id.
Proof.
  intros Hplan. destruct (plan_change_cases pre d diffs Hpre Hidx Hfaith p Hplan id) as [(c & Hc & [Co Cn Cb Cop Cl] & Hr)|?]; [left|by right].
  exists c. unfold has. split_and!; try done.
  - intros o n Ho Hn Hne. rewrite orb_true_iff, !bool_decide_eq_true. by apply (Cop o n).
  - intros o n Ho Hn Hne. apply bool_decide_eq_true. by apply (Cl o n).
Qed.

(** What a pass over the changes says is what the mirror is told. *)
Lemma change_says_on p post_open idx id d0 d0' : plan_frame d diffs = Some p -> same_core (with_index (fun _ => idx) d) d0 ->
  change_pass p post_open id d0 = (Ok tt, d0') ->
  exists rel, says (change_pass p post_open id) d0 rel d0' /\ change_says p post_open id rel.
Proof.
  intros Hplan C0 E0. unfold change_says, change_pass in *. destruct (pl_changes p !! id) as [c|] eqn:Ec.
  - destruct (change_events_says _ _ _ _ _ _ E0) as (rel & S & Hrel). exists rel. split; [done|].
    destruct (plan_leads_on p id Hplan) as [(c' & Ec' & _ & Hn & _)|(Ec' & _)]; [|congruence]. rewrite Ec in Ec'. injection Ec' as <-.
    destruct (ch_new c) as [n|]; [|done]. destruct (ch_brand_new c && m_open n); [done|]. destruct Hrel as (v & Hv & ->).
    exists v. split; [|done]. eapply doc_metas_viewed; [exact Hself| |symmetry; exact Hn].
    unfold viewed in Hv. destruct C0 as (Ei & _). by rewrite Ei in Hv.
  - injection E0 as <-. exists []. split; [apply says_ret|done].
Qed.

(** The mirror once the sides and the walks of a committed plan are told. *)
Lemma told_mirror p idx pre_open post_open rels planned d2 m :
  plan_frame d diffs = Some p -> commit_plan p (d_index d) = (idx, (pre_open, post_open)) ->
  Forall2 (change_says p post_open) (sort_strings (elements (dom (pl_changes p)))) rels ->
  d_items d2 = d_items d -> walk_lists p post_open pre_open (sort_strings (elements (pl_affected p))) [] d2 = (Ok planned, d2) ->
  in_step (d_index pre) m ->
  shows (foldl dispatch m ((ItemRemoved <$> sort_strings (elements (fr_removals (pl_frame p)))) ++ concat rels ++ planned))
    (fun id => entry <$> meta1 !! id) (open_at idx).
Proof.
  intros Hplan Hcommit Hrels Hits Ew [Hi0 Ho0].
  destruct (commit_plan_exact pre d diffs Hpre Hidx Hfaith Hmir p Hplan idx _ _ Hcommit) as (Hok & Harrs & Hother). rewrite Hidx in *.
  pose proof (fun id => plan_leads_on p id Hplan) as Hcase. pose proof (processed_told p meta0 meta1 Hcase) as Hall.
  pose proof (ok_meta _ Hpre) as Hmeta0. pose proof (ok_meta _ Hok) as Hmeta1. cbn in Hmeta1.
  assert (Harr0 : forall l id, id ∈ open_at (d_index pre) l <-> entry <$> meta0 !! id = Some (l, true)).
  { intros l id. rewrite <- Hmeta0. apply open_at_entry, Hpre. }
  assert (Harr1 : forall l id, id ∈ open_at idx l <-> entry <$> meta1 !! id = Some (l, true)).
  { intros l id. rewrite <- Hmeta1. apply open_at_entry, Hok. }
  rewrite app_assoc, foldl_app. set (ls := sort_strings (elements (pl_affected p))) in *.
  assert (Hls : forall l, l ∈ ls <-> l ∈ pl_affected p) by (intros l; unfold ls; by rewrite elem_of_sort_strings, elem_of_elements).
  destruct (told_lists p meta0 meta1 _ Harr0 Hcase (d_items d) (fun id v n => doc_metas_viewed d id v n Hself) _ Harr1) with
    (pre_open := pre_open) (post_open := post_open) (P := processed p) (ls := ls) (Ls := @nil string)
    (d := d2) (planned := @nil AppEvent) (out := planned) (d' := d2) as (_ & evs & -> & Hevs); try done.
  - intros l. pose proof (wf_open _ (ok_wf _ Hok) l) as Ho. cbn in Ho. rewrite Ho. apply NoDup_open_projection.
  - intros l Hl%Hls. destruct (Harrs l Hl) as [-> ->]. done.
  - apply NoDup_sort_strings, NoDup_elements.
  - apply (walked_all meta0 meta1 _ Harr0 _ Harr1 (processed p) ls); [exact Hall| | |].
    + intros id. destruct (Hcase id) as [(c & Hc & _ & Hn & _)|(_ & E & _)]; [right|by left]. intros n En. apply Hls.
      eapply affected_change; [exact Hplan|exact Hc|right; congruence].
    + intros l Hl. apply Hother. by rewrite <- Hls.
    + apply Hevs. eapply shows_ext; [apply (sides_told p meta0 meta1 (open_at (d_index pre)) Harr0 Hcase post_open rels m Hrels)|..].
      * split; [intros id; by rewrite Hi0, Hmeta0|]. intros l. rewrite Ho0. unfold arrays_at. cbn. rewrite app_nil_r.
        symmetry. apply list_filter_all. intros x Hx%Harr0. exact Hx.
      * intros id. rewrite items_told by done. unfold items_walked. by repeat case_match.
      * done.
Qed.

(** A translated frame leaves an exact index, and the events that carry the
    consumer to it. *)
Lemma translated_frame pre_lists pre_settings d' :
  translate_captured_diffs diffs pre_lists pre_settings d = (Ok tt, d') ->
  index_ok d' /\ exists evs, d_events d' = d_events d ++ evs /\ carries pre d' evs.
Proof.
  intros (p & idx & pre_open & post_open & Hplan & Hcommit & E)%translate_inv.
  destruct (commit_plan_exact pre d diffs Hpre Hidx Hfaith Hmir p Hplan idx _ _ Hcommit) as (Hok & _).
  pose proof (ok_meta _ Hok) as Hmeta1. cbn in Hmeta1.
  apply (told_phase_inv _ _ _ _ _ (change_says p post_open)) in E
    as (rels & d2 & planned & rest & evs & Hrels & C2 & Ew & C & V & Hh & Hrest);
    [|intros id d0 d0' C0 E0; by apply (change_says_on p post_open idx)].
  split; [by eapply same_core_index_ok|]. exists (evs ++ rest). split; [exact V|]. intros m Hm. rewrite foldl_app.
  assert (Hits : d_items d2 = d_items d) by (by destruct C2).
  pose proof (told_mirror p idx pre_open post_open rels planned d2 m Hplan Hcommit Hrels Hits Ew Hm) as Htold.
  assert (Hevs : shows (foldl dispatch m evs) (fun id => entry <$> meta1 !! id) (open_at idx)).
  { rewrite dispatch_heeded, Hh. rewrite app_assoc, foldl_app in Htold |- *. by rewrite <- (dispatch_heeded planned). }
  destruct (told_rest rest Hrest _ _ _ Hevs) as [T1 T2]. destruct C as (_ & _ & _ & Cx & _). unfold open_item_ids. rewrite Cx. cbn.
  rewrite Hmeta1. split; [exact T1|]. intros l Hl. apply T2. rewrite elem_of_app in Hl. tauto.
Qed.
End frame.

(** ** The containers are only read *)

Definition same_containers (d d' : Doc) : Prop :=
  d_items d' = d_items d /\ d_lists d' = d_lists d /\ d_settings d' = d_settings d
  /\ d_orders d' = d_orders d /\ d_focus d' = d_focus d.
Definition reads {A} (m : M A) : Prop := forall d, same_containers d (m d).2.

Lemma same_containers_trans d d1 d2 : same_containers d d1 -> same_containers d1 d2 -> same_containers d d2.
Proof. unfold same_containers. intuition congruence. Qed.

Lemma reads_bind {A B} (m : M A) (f : A -> M B) : reads m -> (forall a, reads (f a)) -> reads (m ≫= f).
Proof.
  intros Hm Hf d. specialize (Hm d). unfold mbind, M_bind. destruct (m d) as [[a|] d1]; [|done].
  eapply same_containers_trans; [exact Hm|apply Hf].
Qed.

Lemma reads_mfor {A} (f : A -> M unit) l : (forall a, reads (f a)) -> reads (mfor l f).
Proof. intros Hf. induction l as [|a l IH]; [done|]. by apply reads_bind. Qed.

Create HintDb reads discriminated.
#[export] Hint Resolve reads_bind reads_mfor : reads.
Lemma reads_ret {A} (a : A) : reads (mret a).
Proof. done. Qed.
Lemma reads_fail {A} (e : DocError) : reads (@fail A e).
Proof. done. Qed.
Lemma reads_gets {A} (f : Doc -> A) : reads (gets f).
Proof. done. Qed.
Lemma reads_push ev : reads (push_event ev).
Proof. done. Qed.
Lemma reads_push_if b ev : reads (push_if b ev).
Proof. by destruct b. Qed.
Lemma reads_view_of id : reads (view_of id).
Proof. intros d. unfold view_of. by case_match. Qed.
Lemma reads_on_index {A} (f : ProjectionIndex -> ProjectionIndex * A) : reads (on_index f).
Proof. intros d. unfold on_index. by destruct (f (d_index d)). Qed.
Lemma reads_notes_delta id deltas post : reads (emit_notes_delta id deltas post).
Proof. intros d. destruct (says_notes_delta id deltas post d) as (d1 & E & _). unfold emit_notes_delta, mbind, M_bind, gets in *.
  destruct (d_shadows d !! id); [|done]. cbn. by case_decide. Qed.
#[export] Hint Resolve reads_ret reads_fail reads_gets reads_push reads_push_if reads_view_of reads_on_index reads_notes_delta : reads.

Ltac reads := repeat (intros; first [progress auto with reads | apply reads_bind | apply reads_mfor | case_match]).

Lemma reads_change_events p post_open id c : reads (change_events p post_open id c).
Proof. unfold change_events, content_events. reads. Qed.
Lemma reads_insert_types p l post : forall i, reads (insert_types p l i post).
Proof. induction post as [|x post IH]; intros i; [done|]. cbn [insert_types]. unfold insert_event. reads. Qed.
Lemma reads_walk_lists p post_open pre_open ls : forall planned, reads (walk_lists p post_open pre_open ls planned).
Proof. induction ls as [|l ls IH]; intros planned; [done|]. cbn [walk_lists]. pose proof reads_insert_types. reads. Qed.

Lemma reads_translate `{Containers} diffs pre_lists pre_settings : reads (translate_captured_diffs diffs pre_lists pre_settings).
Proof.
  unfold translate_captured_diffs. pose proof reads_change_events. pose proof reads_walk_lists.
  apply reads_bind; [by intros d; destruct (plan_frame d diffs)|]. reads.
Qed.

Lemma fallback_resyncs d : exists d', emit_diff_fallback d = (Ok tt, d') /\ same_containers d d' /\ index_ok d' /\ d_events d' = [FullResync].
Proof.
  eexists. split; [reflexivity|]. split_and!; try done. eapply same_core_index_ok; [|apply (rebuild_ok d)]. done.
Qed.

(** ** What a consumer is left with *)

(** The document after a remote step: the index exact, and the queue either
    one resync in place of all it held or the old queue and the events that
    carry a consumer in step with the old index to the new one. *)
Definition settled (pre d d' : Doc) : Prop :=
  same_containers d d' /\ index_ok d'
  /\ (d_events d' = [FullResync] \/ exists evs, d_events d' = d_events d ++ evs /\ carries pre d' evs).

(** What a step of Loro's leaves of the document before it: the index is not
    touched, the events it reported are those of the change, every list that
    holds an item was mirrored, and items name themselves. *)
Record remote_step `{Containers} (pre d : Doc) (diffs : list CapturedDiff) : Prop := {
  rs_index : d_index d = d_index pre;
  rs_faithful : faithful pre d diffs;
  rs_mirrored : mirrored pre d;
  rs_named : self_named d;
}.

Lemma or_fallback_settles `{Containers} pre d diffs pre_lists pre_settings : index_ok pre -> remote_step pre d diffs ->
  exists d', or_fallback (translate_captured_diffs diffs pre_lists pre_settings) d = (Ok tt, d') /\ settled pre d d'.
Proof.
  intros Hpre [Hi Hf Hm Hs]. unfold or_fallback. pose proof (reads_translate diffs pre_lists pre_settings d) as Hkeep.
  destruct (translate_captured_diffs diffs pre_lists pre_settings d) as [[[]|e] d1] eqn:E; cbn in Hkeep.
  - exists d1. split; [done|]. destruct (translated_frame pre d diffs Hpre Hi Hf Hm Hs _ _ _ E) as [Hok Hevs].
    split_and!; [done|done|by right].
  - destruct (fallback_resyncs d1) as (d2 & -> & Hd & Hok & Hevs). exists d2. split; [done|].
    split_and!; [by eapply same_containers_trans|done|by left].
Qed.

(** The document an import leaves before its events are translated. *)
Definition imported {A} (import : Applied A) (pre : Doc) : Doc :=
  let d := ap_containers import pre in if ap_counter_moved import then with_rearmed S d else d.

(** C18: An import ends with the containers as Loro left them, an index exact
    for them and a consumer that can follow: on success either the queue is one
    resync or its new events carry a mirror in step with the index before the
    import to one in step with the index after it, positions included (but for
    the arrays of removed lists, which the consumer drops); on failure the
    error is returned behind a resync. *)
Theorem import_translated_converges `{Containers} {A} (import : Applied A) pre r d' :
  let d := imported import pre in
  index_ok pre ->
  (is_ok (ap_result import) = true -> remote_step pre d (captured CaptureImport (ap_events import))) ->
  import_translated import pre = (r, d') ->
  r = ap_result import /\ same_containers d d' /\ index_ok d'
  /\ (d_events d' = [FullResync]
      \/ is_ok r = true /\ exists evs, d_events d' = d_events d ++ evs /\ carries pre d' evs).
Proof.
  intros d Hpre Hstep E. unfold import_translated, mbind, M_bind, gets, modify in E. cbn in E.
  assert (E1 : (if ap_counter_moved import then rearm_undo else mret tt) (ap_containers import pre) = (Ok tt, d)).
  { unfold d, imported. by destruct (ap_counter_moved import). }
  rewrite E1 in E. destruct (ap_result import) as [vv|e].
  - destruct (or_fallback_settles pre d _ (all_lists pre) (get_settings pre) Hpre (Hstep eq_refl)) as (d1 & E2 & Hd & Hok & Hq).
    rewrite E2 in E. injection E as <- <-. split_and!; [done|done|done|]. destruct Hq; [by left|by right].
  - destruct (fallback_resyncs d) as (d2 & E2 & Hd & Hok & Hevs). unfold fail in E. cbn in E. injection E as <- <-.
    injection E2 as <-. split_and!; [done|done|done|by left].
Qed.

(** C19: An undo or redo step that did something ends like an import: the
    containers as Loro's undo manager left them, an index exact for them, and a
    queue that carries the consumer along or resyncs it; one that did nothing
    emits nothing, and an error is returned as it is. *)
Theorem apply_undo_op_converges `{Containers} (op : Applied bool) pre r d' :
  let d := ap_containers op pre in
  index_ok pre ->
  (ap_result op = Ok true -> remote_step pre d (captured CaptureUndo (ap_events op))) ->
  apply_undo_op op pre = (r, d') ->
  r = ap_result op /\ match r with Ok true => settled pre d d' | _ => d' = d end.
Proof.
  intros d Hpre Hstep E. unfold apply_undo_op, mbind, M_bind, gets, modify, lift in E. cbn in E.
  destruct (ap_result op) as [[]|e].
  - destruct (or_fallback_settles pre d _ (all_lists pre) (get_settings pre) Hpre (Hstep eq_refl)) as (d1 & E2 & Hset).
    unfold d in E2. rewrite E2 in E. injection E as <- <-. by split.
  - injection E as <- <-. by split.
  - injection E as <- <-. by split.
Qed.

(** ** A concrete import

    A new item put second in the inbox, and an open item sent to the bin. *)
Definition sample_containers : Containers := {|
  get_map d cid := if decide (cid = CidNormal 1 5) then default ∅ (item_map_of (d_items d) "x2") else ∅
|}.

Definition sample_bin (m : lmap) : lmap := <[KEY_BINNED_AT := Val (LI64 7)]> m.

Definition sample_import : Applied unit := {|
  ap_result := Ok tt;
  ap_containers d :=
    root_set (ROrder LIST_INBOX) (str_slot <$> ["x1:p1"; "x9:p9"; "x2:p2"; "x3:p3"])
      (with_items (fun items => <["x9" := MapC (sample_item "x9" "tea" "p9" 4)]>
         (<["x2" := MapC (sample_bin (sample_item "x2" "eggs" "p2" 2))]> items)) d);
  ap_events := [mkDiffEvent TriggerImport
    [((CidRoot ROOT_ITEMS, []), DMap (<["x9" := Some (MapC ∅)]> ∅));
     ((CidRoot (order_root_name LIST_INBOX), []), DList [LRetain 1; LInsert [str_slot "x9:p9"]]);
     ((CidNormal 1 5, [(CidRoot ROOT_ITEMS, IKey "x2")]), DMap (<[KEY_BINNED_AT := Some (ScalarV (LI64 7))]> ∅))]];
  ap_counter_moved := false;
|}.

Definition sample_diffs : list CapturedDiff :=
  [CItemsRoot ["x9"] []; COrder LIST_INBOX [CRetain 1; CInsert [Some "x9:p9"]]; CItemMap (CidNormal 1 5) [KEY_BINNED_AT]].

Lemma imported_items d id : item_map_of (d_items (imported sample_import d)) id =
  if decide (id = "x9") then Some (sample_item "x9" "tea" "p9" 4)
  else if decide (id = "x2") then Some (sample_bin (sample_item "x2" "eggs" "p2" 2))
  else item_map_of (d_items d) id.
Proof.
  unfold imported, item_map_of. cbn [sample_import ap_containers ap_counter_moved d_items root_set with_orders with_items].
  destruct (decide (id = "x9")) as [->|H9]; [by rewrite lookup_insert_eq|]. rewrite lookup_insert_ne by congruence.
  destruct (decide (id = "x2")) as [->|H2]; [by rewrite lookup_insert_eq|]. by rewrite lookup_insert_ne by congruence.
Qed.

Lemma imported_order d l : raw_order (imported sample_import d) l =
  if decide (l = LIST_INBOX)
  then [Some (mkEntry "x1" "p1"); Some (mkEntry "x9" "p9"); Some (mkEntry "x2" "p2"); Some (mkEntry "x3" "p3")]
  else raw_order d l.
Proof.
  unfold raw_order, order_list, imported.
  cbn [sample_import ap_containers ap_counter_moved root_get root_set with_orders d_orders with_items].
  rewrite lookup_insert. destruct (decide (l = LIST_INBOX)) as [->|Hl]; [by rewrite decide_True|].
  rewrite decide_False; [done|]. intros E%(order_root_name_inj LIST_INBOX). congruence.
Qed.

Lemma imported_index d : d_index (imported sample_import d) = d_index d.
Proof. done. Qed.

Definition sample_after : Doc := imported sample_import sample_doc.
Lemma sample_items_after id : item_map_of (d_items sample_after) id =
  if decide (id = "x9") then Some (sample_item "x9" "tea" "p9" 4)
  else if decide (id = "x2") then Some (sample_bin (sample_item "x2" "eggs" "p2" 2))
  else item_map_of (d_items sample_doc) id.
Proof. apply imported_items. Qed.
Lemma sample_item_at id m : item_map_of (d_items sample_doc) id = Some m ->
  read_string m KEY_ID = Some id /\ m_list_id (item_meta m) = LIST_INBOX.
Proof.
  unfold item_map_of. destruct (d_items sample_doc !! id) as [s|] eqn:Es; [|done]. pose proof (sample_items _ _ Es) as Hin.
  rewrite !elem_of_cons, elem_of_nil in Hin. intros Em.
  destruct Hin as [->|[->|[->|[]]]]; vm_compute in Es; injection Es as <-; injection Em as <-; by split; vm_compute.
Qed.

Lemma sample_pre : index_ok sample_doc.
Proof. apply rebuild_ok. Qed.

#[local] Opaque sample_doc sample_after.

Lemma sample_faithful : @faithful sample_containers sample_doc sample_after sample_diffs.
Proof.
  assert (Hup : forall id, upserted_in sample_diffs id <-> id = "x9").
  { intros id. unfold upserted_in, sample_diffs. split.
    - intros (up & rm & Hin & Hid). rewrite !elem_of_cons, elem_of_nil in Hin. destruct Hin as [[= -> _]|[?|[?|[]]]]; [|done..].
      by apply list_elem_of_singleton in Hid.
    - intros ->. exists ["x9"], []. split; by left. }
  assert (H2 : item_map_of (d_items sample_doc) "x2" = Some (sample_item "x2" "eggs" "p2" 2)) by (vm_compute; reflexivity).
  split.
  - intros id (up & rm & Hin & Hid) _. unfold sample_diffs in Hin. rewrite !elem_of_cons, elem_of_nil in Hin.
    destruct Hin as [[= _ ->]|[?|[?|[]]]]; [by apply not_elem_of_nil in Hid|done..].
  - intros id Hu%(not_iff_compat (Hup id)) _. rewrite sample_items_after. rewrite decide_False by done. case_decide; [|done]. subst. by rewrite H2.
  - intros id m m' key Hu%(not_iff_compat (Hup id)) _ Em Em'. rewrite sample_items_after in Em'. rewrite decide_False in Em' by done.
    case_decide as Hid; [|left; congruence]. subst. rewrite H2 in Em. injection Em as <-. injection Em' as <-.
    destruct (decide (key = KEY_BINNED_AT)) as [->|Hk]; [right|left; unfold sample_bin; by rewrite lookup_insert_ne].
    exists (CidNormal 1 5). split; [|vm_compute; reflexivity]. left. exists [KEY_BINNED_AT]. split; [|by left]. right. right. by left.
  - intros l. rewrite (imported_order sample_doc l : raw_order sample_after l = _), sample_raw_order. unfold sample_diffs. cbn [replay_order].
    destruct (decide (LIST_INBOX = l)) as [<-|Hl]; [vm_compute; reflexivity|]. by rewrite !decide_False by congruence.
Qed.

Lemma sample_remote_step : @remote_step sample_containers sample_doc sample_after sample_diffs.
Proof.
  split; [exact (imported_index sample_doc)|exact sample_faithful| |].
  - intros l id (m & Hm & <-). rewrite doc_metas_item, sample_items_after in Hm.
    assert (Hl : m_list_id m = LIST_INBOX); [|rewrite Hl; vm_compute; reflexivity].
    case_decide; [injection Hm as <-; vm_compute; reflexivity|]. case_decide; [injection Hm as <-; vm_compute; reflexivity|].
    destruct (item_map_of (d_items sample_doc) id) as [mm|] eqn:Em; [|done]. injection Hm as <-. by apply sample_item_at in Em as [_ ?].
  - intros id m. rewrite sample_items_after. case_decide; [intros [= <-]; subst; vm_compute; reflexivity|].
    case_decide; [intros [= <-]; subst; vm_compute; reflexivity|]. by intros [? _]%sample_item_at.
Qed.

Definition sample_run : result DocError unit * Doc := @import_translated sample_containers unit sample_import sample_doc.

Lemma import_translated_converges_witness :
  open_item_ids sample_run.2 LIST_INBOX = ["x1"; "x9"] /\ index_ok sample_run.2
  /\ exists evs, d_events sample_run.2 = d_events sample_after ++ evs /\ carries sample_doc sample_run.2 evs.
Proof.
  split; [vm_compute; reflexivity|].
  destruct (@import_translated_converges sample_containers unit sample_import sample_doc sample_run.1 sample_run.2) as (_ & _ & Hok & Hq);
    [exact sample_pre| |exact (surjective_pairing sample_run)|].
  - intros _. replace (captured CaptureImport (ap_events sample_import)) with sample_diffs by (vm_compute; reflexivity).
    exact sample_remote_step.
  - split; [exact Hok|]. destruct Hq as [Hq|[_ Hq]]; [|exact Hq].
    apply (f_equal length) in Hq. vm_compute in Hq. discriminate Hq.
Defined.

(** The same change made by the undo manager. *)
Definition sample_undo : Applied bool := {|
  ap_result := Ok true;
  ap_containers := ap_containers sample_import;
  ap_events := (fun e => mkDiffEvent TriggerLocal (de_events e)) <$> ap_events sample_import;
  ap_counter_moved := true;
|}.
Definition sample_undone : result DocError bool * Doc := @apply_undo_op sample_containers sample_undo sample_doc.

Lemma apply_undo_op_converges_witness :
  sample_undone.1 = Ok true /\ settled sample_doc sample_after sample_undone.2 /\ length (d_events sample_undone.2) = 2.
Proof.
  destruct (@apply_undo_op_converges sample_containers sample_undo sample_doc sample_undone.1 sample_undone.2) as [Er Hs];
    [exact sample_pre| |exact (surjective_pairing sample_undone)|].
  - intros _. replace (captured CaptureUndo (ap_events sample_undo)) with sample_diffs by (vm_compute; reflexivity).
    exact sample_remote_step.
  - rewrite Er in Hs. split_and!; [exact Er|exact Hs|vm_compute; reflexivity].
Defined.
