(* ===== verification/ResyncFacts.v ===== *)
(** The burst a fresh consumer starts from (core/src/doc.rs,
    [snapshot_events]) puts an empty mirror in step with the index. *)
From S2P Require Import Prelude.
From S2P Require Import Loro.
From S2P Require Import Lifecycle.
From S2P Require Import Registers.
From S2P Require Import Projection.
From S2P Require Import ProjectionFacts.
From S2P Require Import Notes.
From S2P Require Import Events.
From S2P Require Import DocCore.
From S2P Require Import DocIndex.
From S2P Require Import IndexBuild.
From S2P Require Import IterFacts.
From S2P Require Import Translate.
From S2P Require Import Mirror.
From S2P Require Import TranslateEvents.
From S2P Require Import TranslateFacts.
From S2P Require Import TranslateConverges.

Definition mirror_empty : Mirror := mkMirror ∅ ∅.

Definition shown_in (l : string) (it : ItemView) : bool := iv_is_open it && bool_decide (iv_list_id it = l).

(** The arrays and the items of a walk told so far. *)
Definition shown_ids (its : list ItemView) (l : string) : list string :=
  iv_id <$> base.filter (fun it => Is_true (shown_in l it)) its.

Lemma shown_ids_snoc its it l :
  shown_ids (its ++ [it]) l = shown_ids its l ++ (if shown_in l it then [iv_id it] else []).
Proof.
  unfold shown_ids. rewrite filter_app, fmap_app. f_equal. rewrite filter_cons. by destruct (shown_in l it).
Qed.

Lemma place_item_end id arr : id ∉ arr -> place_item id (Some (length arr)) arr = arr ++ [id].
Proof.
  intros Hid. rewrite place_item_min. unfold not_id. rewrite list_filter_all by (intros x Hx ->; done).
  rewrite Nat.min_id. unfold insert_at. by rewrite take_ge, drop_ge by done.
Qed.

(** The items told so far, and the arrays they make. *)
Record told (its : list ItemView) (m : Mirror) : Prop := {
  told_open l : array m l = shown_ids its l;
  told_item it : it ∈ its -> mi_items m !! iv_id it = Some (iv_list_id it, iv_is_open it);
  told_only id : id ∉ iv_id <$> its -> mi_items m !! id = None;
}.

Lemma told_next its it m i : told its m -> iv_id it ∉ iv_id <$> its ->
  i = (if iv_is_open it then Some (length (shown_ids its (iv_list_id it))) else None) ->
  told (its ++ [it]) (dispatch m (ItemAdded it i)).
Proof.
  intros [H1 H2 H3] Hid ->. pose proof (added_shows m (fun id => mi_items m !! id) (array m) (conj (fun _ => eq_refl) (fun _ => eq_refl)) it
    (if iv_is_open it then Some (length (shown_ids its (iv_list_id it))) else None) (H3 _ Hid)) as [S1 S2].
  assert (Hout : forall l, iv_id it ∉ shown_ids its l).
  { intros l (x & Hx & [_ Hin]%list_elem_of_filter)%list_elem_of_fmap. apply Hid, list_elem_of_fmap. by exists x. }
  split.
  - intros l. rewrite S2, shown_ids_snoc. unfold shown_in. destruct (iv_is_open it); cbn [andb]; [|by rewrite H1, app_nil_r].
    unfold upd. case_bool_decide as Hl; [rewrite decide_True by done|rewrite decide_False by done; by rewrite H1, app_nil_r].
    subst l. cbn [place_or_append]. rewrite H1. by rewrite place_item_end.
  - intros x [Hx|Hx]%elem_of_app; rewrite S1; unfold upd.
    + rewrite decide_False; [by apply H2|]. intros E. apply Hid. rewrite <- E. apply list_elem_of_fmap. by exists x.
    + apply list_elem_of_singleton in Hx as ->. by rewrite decide_True.
  - intros id Hn. rewrite fmap_app, elem_of_app in Hn. cbn in Hn. rewrite list_elem_of_singleton in Hn. rewrite S1. unfold upd.
    rewrite decide_False by tauto. apply H3. tauto.
Qed.

Lemma number_open_told rest : forall its counters m, NoDup (iv_id <$> its ++ rest) -> told its m ->
  (forall l, default 0 (counters !! l) = length (shown_ids its l)) ->
  told (its ++ rest) (foldl dispatch m (number_open counters rest)).
Proof.
  induction rest as [|it rest IH]; intros its counters m Hn Hm Hc; [by rewrite app_nil_r|].
  assert (Hid : iv_id it ∉ iv_id <$> its).
  { rewrite fmap_app in Hn. apply NoDup_app in Hn as (_ & Hn & _). intros Hin. apply (Hn _ Hin). by left. }
  rewrite (cons_middle it its rest), app_assoc in *. cbn [number_open].
  destruct (iv_is_open it) eqn:Eo; cbn [foldl]; apply IH; try done.
  - apply told_next; [done|done|]. by rewrite Eo, Hc.
  - intros l. rewrite shown_ids_snoc, length_app. unfold shown_in. rewrite Eo. cbn [andb].
    destruct (decide (iv_list_id it = l)) as [<-|Hl].
    + rewrite lookup_insert_eq, Hc, bool_decide_true by done. cbn. lia.
    + rewrite lookup_insert_ne, Hc, bool_decide_false by done. cbn. lia.
  - apply told_next; [done|done|]. by rewrite Eo.
  - intros l. rewrite Hc, shown_ids_snoc. unfold shown_in. rewrite Eo. cbn. by rewrite app_nil_r.
Qed.

Section snapshot.
Variable d : Doc.
Hypothesis Hok : index_ok d.
Hypothesis Hself : self_named d.
Hypothesis Hread : viewable d.

Lemma get_item_views id n : ix_meta (d_index d) !! id = Some n -> exists v, get_item d id = Some v /\ views id n v.
Proof.
  intros Hn. destruct (Hread id) as [v Hv]; [by eexists|]. exists v. split; [done|].
  apply (doc_metas_viewed d id v n Hself); [|by rewrite <- (ok_meta _ Hok)].
  unfold get_item, find_item in Hv. rewrite Hn in Hv. by destruct (item_map_of (d_items d) id).
Qed.

Lemma shown_omap l ids : (forall id, id ∈ ids -> is_Some (ix_meta (d_index d) !! id)) ->
  shown_ids (omap (get_item d) ids) l = base.filter (fun id => entry <$> ix_meta (d_index d) !! id = Some (l, true)) ids.
Proof.
  intros Hids. induction ids as [|id ids IH]; [done|]. destruct (Hids id ltac:(by left)) as [n Hn].
  destruct (get_item_views id n Hn) as (v & Hv & V1 & V2 & V3). cbn. rewrite Hv. unfold shown_ids in *. rewrite !filter_cons.
  specialize (IH ltac:(intros; apply Hids; by right)). 
  assert (Hs : Is_true (shown_in l v) <-> entry <$> ix_meta (d_index d) !! id = Some (l, true)).
  { unfold shown_in. rewrite V2, V3, Hn. cbn. unfold entry. rewrite Is_true_true, andb_true_iff, bool_decide_eq_true.
    split; [by intros [-> ->]|by intros [= -> ->]]. }
  destruct (decide (entry <$> ix_meta (d_index d) !! id = Some (l, true))) as [Hd|Hd].
  - rewrite decide_True by (by apply Hs). cbn. by rewrite V1, IH.
  - rewrite decide_False by tauto. exact IH.
Qed.

Lemma shown_iter l : shown_ids (iter_items d) l = open_item_ids d l.
Proof.
  pose proof (ok_wf _ Hok) as Hwf. change (iter_items d) with (omap (get_item d) (iter_ids d)).
  rewrite shown_omap by (intros id; by apply elem_of_iter_ids). unfold iter_ids.
  assert (Hloc : forall c x, x ∈ resolved (d_index d) c -> entry <$> ix_meta (d_index d) !! x = Some (l, true) -> c = l).
  { intros c x (m & Hm & <-)%elem_of_resolved; [|done]. rewrite Hm. by intros [= <- _]. }
  rewrite (filter_bind_one _ (resolved (d_index d)) l); [|apply NoDup_ordered_list_ids|exact Hloc|].
  - unfold open_item_ids. rewrite <- (resolved_open _ l Hwf). apply list_filter_ext_in.
    intros id (m & Hm & Hl)%elem_of_resolved; [|done]. rewrite Hm. unfold meta_open. rewrite Hm. cbn. unfold entry. subst l.
    destruct (m_open m); split; try done; by intros [=].
  - intros Hl. by rewrite (resolved_unlisted d l Hwf Hl).
Qed.

Lemma snapshot_told : told (iter_items d) (foldl dispatch mirror_empty (snapshot_events d)).
Proof.
  unfold snapshot_events. cbn [foldl]. rewrite foldl_app. apply (number_open_told _ []).
  - cbn. apply NoDup_iter_items; [apply Hok|done].
  - rewrite dispatch_heeded. replace (heeded (imap _ _)) with (@nil AppEvent).
    + split; [intros l; done|by intros ? ?%not_elem_of_nil|intros id _; cbn; apply lookup_empty].
    + symmetry. apply elem_of_nil_inv. intros ev [Hp (i & x & -> & _)%elem_of_lookup_imap]%list_elem_of_filter. done.
  - intros l. by rewrite lookup_empty.
Qed.
End snapshot.

(** C20: The snapshot of a document whose index is exact and whose items can be
    read puts a fresh mirror in step with the index: every item in its list
    with its openness, every open array in the order the list shows. *)
Theorem snapshot_in_step d : index_ok d -> self_named d -> viewable d ->
  in_step (d_index d) (foldl dispatch mirror_empty (snapshot_events d)).
Proof.
  intros Hok Hself Hread. destruct (snapshot_told d Hok Hself) as [H1 H2 H3].
  split; [|intros l; rewrite H1; by apply shown_iter].
  intros id. change (iter_items d) with (omap (get_item d) (iter_ids d)) in *.
  destruct (ix_meta (d_index d) !! id) as [n|] eqn:En.
  - destruct (get_item_views d Hok Hself Hread id n En) as (v & Hv & V1 & V2 & V3).
    rewrite <- V1, H2; [cbn; unfold entry; by rewrite V2, V3|]. apply list_elem_of_omap. exists id. split; [|done].
    apply elem_of_iter_ids; [apply Hok|by eexists].
  - apply H3. intros (v & -> & (j & Hj & Hv)%list_elem_of_omap)%list_elem_of_fmap.
    rewrite (get_item_id _ _ _ Hself Hv) in En. apply elem_of_iter_ids in Hj; [|apply Hok]. rewrite En in Hj. by destruct Hj.
Qed.

Lemma snapshot_in_step_witness :
  in_step (d_index sample_doc) (foldl dispatch mirror_empty (snapshot_events sample_doc))
  /\ array (foldl dispatch mirror_empty (snapshot_events sample_doc)) LIST_INBOX = ["x1"; "x2"].
Proof.
  split; [|vm_compute; reflexivity]. apply snapshot_in_step.
  - exact sample_pre.
  - intros id m Em. by apply sample_item_at in Em as [? _].
  - intros id [n Hn]. rewrite (ok_meta _ sample_pre), doc_metas_item in Hn.
    destruct (item_map_of (d_items sample_doc) id) as [m|] eqn:Em; [|done]. unfold item_map_of in Em.
    destruct (d_items sample_doc !! id) as [s|] eqn:Es; [|done]. pose proof (sample_items _ _ Es) as Hin.
    rewrite !elem_of_cons, elem_of_nil in Hin. destruct Hin as [->|[->|[->|[]]]]; vm_compute; by eexists.
Defined.
