(* ===== verification/RepairPlan.v ===== *)
(** What the order repair plans for one list (core/src/doc.rs,
    [reconcile_with]): the entries the walk keeps, and that the kept entries
    followed by one entry per open item of the fallback tail project the same
    open items as the container did. *)
From S2P Require Import Prelude.
From S2P Require Import Loro.
From S2P Require Import Lifecycle.
From S2P Require Import Registers.
From S2P Require Import Projection.
From S2P Require Import ProjectionFacts.
From S2P Require Import ProjectionOps.
From S2P Require Import Notes.
From S2P Require Import Events.
From S2P Require Import DocCore.
From S2P Require Import DocFocus.
From S2P Require Import DocItems.
From S2P Require Import DocLists.

Section walk.
Implicit Types (meta : gmap string ItemMeta) (sweep seen : gset string).

(** The item an entry keeps: canonical, not swept, not kept before. *)
Definition keep_id meta sweep (l : string) (e : option OrderEntry) seen : option string :=
  match canon meta l e with
  | Some id => if decide (id ∈ sweep \/ id ∈ seen) then None else Some id
  | None => None
  end.

Fixpoint kept meta sweep (l : string) (raw : list (option OrderEntry)) seen
    : list (option OrderEntry) :=
  match raw with
  | [] => []
  | e :: raw =>
      match keep_id meta sweep l e seen with
      | Some id => e :: kept meta sweep l raw ({[id]} ∪ seen)
      | None => kept meta sweep l raw seen
      end
  end.

Lemma stale_walk_cons meta sweep l e raw i seen :
  stale_walk meta sweep l (e :: raw) i seen =
  match keep_id meta sweep l e seen with
  | Some id => stale_walk meta sweep l raw (S i) ({[id]} ∪ seen)
  | None => (i :: (stale_walk meta sweep l raw (S i) seen).1, (stale_walk meta sweep l raw (S i) seen).2)
  end.
Proof.
  cbn [stale_walk]. unfold keep_id, canon. destruct e as [[id p]|]; cbn [entry_item_id entry_placement_id].
  - destruct (meta !! id) as [m|]; [|by destruct (stale_walk _ _ _ _ _ _)].
    destruct (bool_decide (m_list_id m = l)), (bool_decide (m_placement_id m = p)); cbn [andb];
      try by destruct (stale_walk _ _ _ _ _ _).
    destruct (decide (id ∈ sweep \/ id ∈ seen)) as [Hs|Hs].
    + rewrite (proj2 (andb_false_iff _ _)); [by destruct (stale_walk _ _ _ _ _ _)|].
      rewrite !bool_decide_eq_false. naive_solver.
    + rewrite !bool_decide_eq_true_2 by naive_solver. done.
  - by destruct (stale_walk _ _ _ _ _ _).
Qed.

Lemma stale_walk_shift meta sweep l raw : forall i seen,
  stale_walk meta sweep l raw (S i) seen
  = (S <$> (stale_walk meta sweep l raw i seen).1, (stale_walk meta sweep l raw i seen).2).
Proof.
  induction raw as [|e raw IH]; intros i seen; [done|]. rewrite !stale_walk_cons.
  destruct (keep_id meta sweep l e seen); rewrite (IH (S i)); done.
Qed.

Lemma stale_walk_spec meta sweep l raw : forall seen,
  let w := stale_walk meta sweep l raw 0 seen in
  ascending (length raw) w.1 /\ remove_all w.1 raw = kept meta sweep l raw seen
  /\ w.2 = list_to_set (omap (canon meta l) (kept meta sweep l raw seen)) ∪ seen.
Proof.
  induction raw as [|e raw IH]; intros seen; cbn zeta.
  - cbn. split_and!; [split; constructor|done|set_solver].
  - rewrite stale_walk_cons. cbn [kept length]. unfold keep_id.
    destruct (canon meta l e) as [id|] eqn:Ec; [case_decide|]; rewrite stale_walk_shift; cbn [fst snd].
    1,3: destruct (IH seen) as (Ha & Hr & Hs); split_and!;
      [by apply ascending_0S|by rewrite remove_all_cons, remove_all_S; cbn; rewrite Hr|done].
    destruct (IH ({[id]} ∪ seen)) as (Ha & Hr & Hs). split_and!; [by apply ascending_S| |].
    + by rewrite remove_all_S, Hr.
    + rewrite Hs. cbn. rewrite Ec. set_solver.
Qed.

Lemma kept_ids meta sweep l raw : forall seen,
  omap (canon meta l) (kept meta sweep l raw seen)
  = dedup_seen seen (base.filter (fun id => id ∉ sweep) (omap (canon meta l) raw)).
Proof.
  induction raw as [|e raw IH]; intros seen; [done|].
  change (omap (canon meta l) (e :: raw))
    with (match canon meta l e with Some id => id :: omap (canon meta l) raw | None => omap (canon meta l) raw end).
  cbn [kept]. unfold keep_id. destruct (canon meta l e) as [id|] eqn:Ec; [|apply IH].
  destruct (decide (id ∈ sweep)) as [Hs|Hs].
  - rewrite decide_True by by left. rewrite filter_cons_False by tauto. apply IH.
  - rewrite filter_cons_True by done. cbn [dedup_seen].
    destruct (decide (id ∈ seen)) as [Hn|Hn].
    + rewrite decide_True by by right. apply IH.
    + rewrite decide_False by tauto. cbn. by rewrite Ec, IH.
Qed.

Lemma kept_canon meta sweep l raw e : forall seen,
  e ∈ kept meta sweep l raw seen -> is_Some (canon meta l e) /\ e ∈ raw.
Proof.
  induction raw as [|x raw IH]; intros seen; [by intros ?%elem_of_nil|]. cbn [kept].
  assert (Hgo : forall seen, e ∈ kept meta sweep l raw seen -> is_Some (canon meta l e) /\ e ∈ x :: raw).
  { intros seen' [H1 H2]%IH. split; [done|by right]. }
  unfold keep_id. destruct (canon meta l x) as [id|] eqn:Ec; [case_decide|]; [apply Hgo| |apply Hgo].
  intros [->|He]%elem_of_cons; [|by eapply Hgo]. split; [by exists id|by left].
Qed.

(** A walk that drops nothing keeps everything; and conversely. *)
Lemma stale_nil meta sweep l raw : forall seen,
  (forall e, e ∈ raw -> is_Some (canon meta l e)) ->
  NoDup (omap (canon meta l) raw) ->
  (forall id, id ∈ omap (canon meta l) raw -> (id ∉ sweep) /\ (id ∉ seen)) ->
  (stale_walk meta sweep l raw 0 seen).1 = [].
Proof.
  induction raw as [|e raw IH]; intros seen Hc Hn Hs; [done|].
  destruct (Hc e (list_elem_of_here _ _)) as [id Ec].
  assert (E : omap (canon meta l) (e :: raw) = id :: omap (canon meta l) raw) by (cbn; by rewrite Ec).
  rewrite E in Hn, Hs. apply NoDup_cons in Hn as [Hid Hn].
  rewrite stale_walk_cons. unfold keep_id. rewrite Ec, decide_False.
  - rewrite stale_walk_shift. cbn [fst]. rewrite IH; [done| |done|].
    + intros x Hx. apply Hc. by right.
    + intros x Hx. destruct (Hs x) as [H1 H2]; [by right|]. split; [done|].
      intros [->%elem_of_singleton|?]%elem_of_union; done.
  - destruct (Hs id) as [H1 H2]; [by left|]. naive_solver.
Qed.
End walk.

(** ** The repaired container *)

Section repair.
Implicit Types (meta : gmap string ItemMeta).

(** The open members that are not among the kept items, oldest first. *)
Definition repair_tail meta (members seen : gset string) : list string :=
  sort_by_created meta
    (base.filter (fun id => (id ∉ seen) /\ Is_true (meta_open meta id)) (elements members)).

(** The items whose placement is rewritten: open, in the tail, without one. *)
Record replaced meta meta' (l : string) (order : list (option OrderEntry)) : Prop := {
  re_same : forall id m, m_list_id m = l -> meta !! id = Some m ->
    exists m', meta' !! id = Some m' /\ m_list_id m' = l /\ m_open m' = m_open m
      /\ m_created_at m' = m_created_at m
      /\ (m_placement_id m' = m_placement_id m \/
          (id ∉ visible meta l order) /\ Some (mkEntry id (m_placement_id m')) ∉ order);
  re_back : forall id m', m_list_id m' = l -> meta' !! id = Some m' ->
    exists m, meta !! id = Some m /\ m_list_id m = l;
}.

Lemma replaced_canon meta meta' l order e :
  replaced meta meta' l order -> e ∈ order -> canon meta' l e = canon meta l e.
Proof.
  intros [Hs Hb] He. apply option_eq. intros id. rewrite !canon_Some. split.
  - intros (m' & E' & Hl & ->). destruct (Hb id m' Hl E') as (m & E & Hlm).
    destruct (Hs id m Hlm E) as (m'' & E'' & _ & _ & _ & Hp). simplify_eq.
    destruct Hp as [Hp|[_ Hn]]; [|done]. exists m. by rewrite Hp.
  - intros (m & E & Hl & ->). destruct (Hs id m Hl E) as (m' & E' & Hl' & _ & _ & Hp).
    destruct Hp as [Hp|[Hv _]].
    + exists m'. by rewrite Hp.
    + exfalso. apply Hv. apply elem_of_visible. by exists m.
Qed.

Lemma replaced_omap meta meta' l order (sub : list (option OrderEntry)) :
  replaced meta meta' l order -> (forall e, e ∈ sub -> e ∈ order) ->
  omap (canon meta' l) sub = omap (canon meta l) sub.
Proof.
  intros Hr Hs. induction sub as [|e sub IH]; [done|]. cbn.
  rewrite (replaced_canon meta meta' l order e Hr) by (apply Hs; by left).
  rewrite IH; [done|]. intros x Hx. apply Hs. by right.
Qed.

Lemma replaced_open meta meta' l order id :
  replaced meta meta' l order -> located meta l id ->
  meta_open meta' id = meta_open meta id
  /\ m_created_at <$> meta' !! id = m_created_at <$> meta !! id.
Proof.
  intros [Hs _] (m & E & Hl). destruct (Hs id m Hl E) as (m' & E' & _ & Ho & Hc & _).
  unfold meta_open. rewrite E, E'. cbn. by rewrite Ho, Hc.
Qed.

Lemma replaced_located meta meta' l order id :
  replaced meta meta' l order ->
  (located meta' l id <-> located meta l id) /\ (located_open meta' l id <-> located_open meta l id).
Proof.
  intros Hr. assert (Hl : located meta' l id <-> located meta l id).
  { destruct Hr as [Hs Hb]. split.
    - intros (m' & E & Hl). destruct (Hb id m' Hl E) as (m & Em & Hm). by exists m.
    - intros (m & E & Hl). destruct (Hs id m Hl E) as (m' & Em & Hm & _). by exists m'. }
  split; [done|]. rewrite !meta_open_located, Hl. split; intros [H1 H2]; (split; [done|]);
    by rewrite <- H2, (proj1 (replaced_open _ _ _ _ _ Hr H1)).
Qed.

Lemma kept_ids_spec meta sweep l raw id :
  id ∈ omap (canon meta l) (kept meta sweep l raw ∅)
  <-> (id ∉ sweep) /\ id ∈ omap (canon meta l) raw.
Proof. rewrite kept_ids, elem_of_dedup_seen, list_elem_of_filter. set_solver. Qed.

(** The kept entries followed by one for each tail item project the same. *)
Lemma repaired_projection meta meta' l (sweep members : gset string) raw rest append :
  replaced meta meta' l (raw ++ rest) ->
  omap (canon meta l) rest = [] ->
  (forall id, id ∈ sweep -> meta_open meta id = false) ->
  (forall id, id ∈ members <-> located meta l id) ->
  let K := kept meta sweep l raw ∅ in
  omap (canon meta' l) append
    = repair_tail meta members (list_to_set (omap (canon meta l) K)) ->
  open_projection meta' l (K ++ rest ++ append) = open_projection meta l (raw ++ rest).
Proof.
  intros Hr Hrest Hsw Hmem K Happ. set (ids := omap (canon meta l) K) in *.
  set (tl := repair_tail meta members (list_to_set ids)) in *.
  assert (Htl : forall id, id ∈ tl <-> located_open meta l id /\ (id ∉ ids)).
  { intros id. unfold tl, repair_tail. rewrite sort_by_created_Permutation, list_elem_of_filter.
    rewrite elem_of_elements, Hmem, elem_of_list_to_set, meta_open_located, Is_true_true. tauto. }
  assert (Hnd : NoDup (ids ++ tl)).
  { apply NoDup_app. split_and!.
    - unfold ids, K. rewrite kept_ids. apply NoDup_dedup_seen.
    - intros id Hid Ht%Htl. tauto.
    - unfold tl, repair_tail. rewrite sort_by_created_Permutation. apply NoDup_filter, NoDup_elements. }
  assert (Hids : forall id, id ∈ ids <-> (id ∉ sweep) /\ id ∈ visible meta l (raw ++ rest)).
  { intros id. unfold ids, K. rewrite kept_ids_spec. unfold visible.
    rewrite elem_of_dedup, omap_app, Hrest, app_nil_r. done. }
  assert (Hopen : forall id, located_open meta l id ->
            id ∈ ids <-> id ∈ visible meta l (raw ++ rest)).
  { intros id [_ Ho]%meta_open_located. rewrite Hids. split; [tauto|]. intros Hv. split; [|done].
    intros Hs%Hsw. congruence. }
  assert (Hv : visible meta' l (K ++ rest ++ append) = ids ++ tl).
  { unfold visible. rewrite !omap_app, Happ.
    rewrite (replaced_omap meta meta' l _ K Hr), (replaced_omap meta meta' l _ rest Hr), Hrest.
    - by apply dedup_id.
    - intros e He. apply elem_of_app. by right.
    - intros e [_ He]%kept_canon. apply elem_of_app. by left. }
  assert (Hloc : forall id, id ∈ ids ++ tl -> located meta l id).
  { intros id [Hi|Ht]%elem_of_app.
    - apply Hids in Hi as [_ Hi]. by eapply located_visible.
    - apply Htl in Ht as [Ht _]. by apply meta_open_located in Ht as [Ht _]. }
  unfold open_projection, open_visible. rewrite Hv.
  assert (Hf : base.filter (fun id => Is_true (meta_open meta' id)) (ids ++ tl)
             = base.filter (fun id => Is_true (meta_open meta id)) ids ++ tl).
  { rewrite (list_filter_ext_in _ (fun id => Is_true (meta_open meta id))), filter_app.
    - f_equal. apply list_filter_all. intros id [Ht _]%Htl. apply meta_open_located in Ht as [_ ->]. done.
    - intros id Hi%Hloc. by rewrite (proj1 (replaced_open _ _ _ _ _ Hr Hi)). }
  rewrite Hf, <- app_assoc. f_equal.
  - unfold ids, K, visible. rewrite kept_ids, omap_app, Hrest, app_nil_r.
    match goal with |- context [dedup_seen ∅ ?x] => change (dedup_seen ∅ x) with (dedup x) end.
    rewrite !filter_dedup. f_equal.
    rewrite list_filter_filter. apply list_filter_ext_in. intros id _. split; [tauto|].
    intros Ho. split; [done|]. intros Hs%Hsw. rewrite Hs in Ho. done.
  - assert (Hnil : tail_of meta' (open_ids meta' l) (list_to_set (ids ++ tl)) = []).
    { destruct (tail_of _ _ _) as [|id t] eqn:E; [done|].
      assert (Hin : id ∈ tail_of meta' (open_ids meta' l) (list_to_set (ids ++ tl))) by (rewrite E; by left).
      apply elem_of_tail_of in Hin as [Ho Hn]. exfalso. apply Hn.
      apply elem_of_open_ids, (proj2 (replaced_located _ _ _ _ id Hr)) in Ho.
      rewrite elem_of_list_to_set, elem_of_app, Htl. destruct (decide (id ∈ ids)); tauto. }
    rewrite Hnil, app_nil_r. unfold tl, repair_tail, tail_of.
    apply sort_by_created_Permutation_eq, NoDup_Permutation.
    + apply NoDup_filter, NoDup_elements.
    + apply NoDup_elements.
    + intros id. rewrite list_elem_of_filter, !elem_of_elements, elem_of_filter, Hmem.
      rewrite elem_of_open_ids, !elem_of_list_to_set, meta_open_located, Is_true_true.
      assert (Ho := Hopen id). rewrite meta_open_located in Ho. tauto.
Qed.
End repair.
