(* ===== verification/RepairFacts.v ===== *)
(** Order repair (core/src/doc.rs, [reconcile_with]): it always completes,
    moves nothing anyone sees, and a second run finds nothing to do. *)
From S2P Require Import Prelude.
From S2P Require Import Loro.
From S2P Require Import Lifecycle.
From S2P Require Import Registers.
From S2P Require Import Projection.
From S2P Require Import ProjectionFacts.
From S2P Require Import ProjectionOps.
From S2P Require Import Notes.
From S2P Require Import Events.
From S2P Require Import DocCore.
From S2P Require Import DocFocus.
From S2P Require Import DocItems.
From S2P Require Import DocIndex.
From S2P Require Import IndexBuild.
From S2P Require Import ItemFacts.
From S2P Require Import MoveFacts.
From S2P Require Import RegisterFacts.
From S2P Require Import DocLists.
From S2P Require Import ListFacts.
From S2P Require Import RepairPlan.

(** ** The plans, without the monad *)

Section plans.
Context `{Host}.
Implicit Types (meta : gmap string ItemMeta) (sweep : gset string).

Fixpoint appended meta (n : nat) (tail : list string) : list OrderEntry * list (string * string) :=
  match tail with
  | [] => ([], [])
  | id :: tail =>
      let placement := default "" (m_placement_id <$> meta !! id) in
      if decide (placement = "") then
        let r := appended meta (S n) tail in (mkEntry id (nth_id n) :: r.1, (id, nth_id n) :: r.2)
      else let r := appended meta n tail in (mkEntry id placement :: r.1, r.2)
  end.

Lemma with_minted_0 d : with_minted (fun n => n + 0) d = d.
Proof. unfold with_minted. destruct d; cbn. by rewrite Nat.add_0_r. Qed.

Lemma with_minted_add a b d :
  with_minted (fun n => n + b) (with_minted (fun n => n + a) d) = with_minted (fun n => n + (a + b)) d.
Proof. unfold with_minted. cbn. by rewrite Nat.add_assoc. Qed.

Lemma append_tail_ok meta tail : forall d,
  append_tail meta tail d
  = (Ok (appended meta (d_minted d) tail),
     with_minted (fun n => n + length (appended meta (d_minted d) tail).2) d).
Proof.
  induction tail as [|id tail IH]; intros d.
  - cbn [append_tail appended fst snd length]. by rewrite with_minted_0.
  - cbn [append_tail appended]. case_decide.
    + unfold mbind, M_bind, new_id. rewrite IH. cbn [d_minted with_minted].
      destruct (appended meta (S (d_minted d)) tail) as [es fx]. cbn [fst snd length].
      unfold mret, M_ret, with_minted. cbn. by rewrite Nat.add_succ_r.
    + unfold mbind, M_bind. rewrite IH.
      destruct (appended meta (d_minted d) tail) as [es fx]. done.
Qed.

(** The tail of one list after the walk over its mirror. *)
Definition list_walk (idx : ProjectionIndex) sweep (l : string) : list nat * gset string :=
  stale_walk (ix_meta idx) sweep l (raw_at idx l) 0 ∅.
Definition list_tail (idx : ProjectionIndex) sweep (l : string) : list string :=
  repair_tail (ix_meta idx) (set_at (ix_members idx) l) (list_walk idx sweep l).2.
Definition list_appended (idx : ProjectionIndex) sweep (n : nat) (l : string) :=
  appended (ix_meta idx) n (list_tail idx sweep l).
Definition list_plan (idx : ProjectionIndex) sweep (n : nat) (l : string) : ListPlan :=
  mkListPlan (list_walk idx sweep l).1 (list_appended idx sweep n l).1.

Lemma plan_list_ok idx sweep l d :
  plan_list idx sweep l d
  = (Ok (list_plan idx sweep (d_minted d) l, (list_appended idx sweep (d_minted d) l).2),
     with_minted (fun n => n + length (list_appended idx sweep (d_minted d) l).2) d).
Proof.
  unfold plan_list, list_plan, list_appended, list_tail, list_walk.
  destruct (stale_walk (ix_meta idx) sweep l (raw_at idx l) 0 ∅) as [stale seen]. cbn [fst snd].
  unfold mbind, M_bind. change (sort_by_created _ _)
    with (repair_tail (ix_meta idx) (set_at (ix_members idx) l) seen).
  rewrite append_tail_ok. by destruct (appended _ _ _).
Qed.

(** Every item of the tails that needs a placement lies in the inbox. *)
Definition homeless_in_inbox meta : Prop :=
  forall id m, meta !! id = Some m -> m_placement_id m = "" -> m_list_id m = LIST_INBOX.

Lemma appended_settled meta n n' tail :
  (forall id, id ∈ tail -> default "" (m_placement_id <$> meta !! id) <> "") ->
  appended meta n tail = appended meta n' tail /\ (appended meta n tail).2 = [].
Proof.
  induction tail as [|id tail IH]; intros Hs; [done|]. cbn [appended].
  rewrite !decide_False by (apply Hs; by left).
  destruct IH as [E1 E2]; [intros j Hj; apply Hs; by right|]. by rewrite <- E1, E2.
Qed.

Definition plan_empty (p : ListPlan) : bool :=
  bool_decide (lp_stale p = []) && bool_decide (lp_append p = []).

Lemma plan_lists_ok idx sweep n0 ls : forall d,
  NoDup ls -> (forall l, l ∈ ls -> l <> LIST_INBOX ->
    forall id, id ∈ list_tail idx sweep l -> default "" (m_placement_id <$> ix_meta idx !! id) <> "") ->
  (LIST_INBOX ∈ ls -> d_minted d = n0) ->
  let fx := if decide (LIST_INBOX ∈ ls) then (list_appended idx sweep n0 LIST_INBOX).2 else [] in
  plan_lists idx sweep ls d
  = (Ok (base.filter (fun lp => plan_empty lp.2 = false) ((fun l => (l, list_plan idx sweep n0 l)) <$> ls), fx),
     with_minted (fun n => n + length fx) d).
Proof.
  induction ls as [|l ls IH]; intros d Hnd Hs Hn fx.
  - unfold fx. cbn. by rewrite with_minted_0.
  - apply NoDup_cons in Hnd as [Hl Hnd]. cbn [plan_lists]. unfold mbind, M_bind.
    rewrite plan_list_ok.
    assert (Hsame : list_appended idx sweep (d_minted d) l = list_appended idx sweep n0 l
                    /\ (l <> LIST_INBOX -> (list_appended idx sweep n0 l).2 = [])).
    { destruct (decide (l = LIST_INBOX)) as [->|Hne].
      - rewrite Hn by by left. done.
      - unfold list_appended. destruct (appended_settled (ix_meta idx) n0 (d_minted d) (list_tail idx sweep l))
          as [E1 E2]; [by apply Hs; [left|]|]. by rewrite E1, E2 in *. }
    destruct Hsame as [Hsame Hnil].
    assert (Hplan : list_plan idx sweep (d_minted d) l = list_plan idx sweep n0 l)
      by (unfold list_plan; by rewrite Hsame).
    rewrite Hsame, Hplan. set (d1 := with_minted _ d).
    rewrite (IH d1 Hnd); [|by intros j Hj; apply Hs; right|].
    2:{ intros Hin. unfold d1. cbn. rewrite Hn by by right.
        rewrite Hnil; [cbn; lia|]. by intros ->. }
    cbn [fmap list_fmap]. rewrite filter_cons. fold (plan_empty (list_plan idx sweep n0 l)).
    unfold d1, mret, M_ret. rewrite with_minted_add. cbn [snd].
    assert (Hfx : fx = (list_appended idx sweep n0 l).2
      ++ (if decide (LIST_INBOX ∈ ls) then (list_appended idx sweep n0 LIST_INBOX).2 else [])).
    { unfold fx. destruct (decide (l = LIST_INBOX)) as [->|Hne].
      - rewrite decide_True by by left. by rewrite decide_False, app_nil_r.
      - rewrite Hnil by done. apply decide_ext. rewrite elem_of_cons. split; [|by right].
        intros [?|?]; [congruence|done]. }
    rewrite Hfx, length_app. do 3 f_equal.
    destruct (plan_empty (list_plan idx sweep n0 l)) eqn:Ep; [by rewrite decide_False|by rewrite decide_True].
Qed.
End plans.

(** ** The writes *)

Lemma bind_ok {A B} (m : M A) (f : A -> M B) d a d' :
  m d = (Ok a, d') -> (m ≫= f) d = f a d'.
Proof. unfold mbind, M_bind. by intros ->. Qed.

Section writes.
Context `{LoroOk} `{HostOk}.

(** Repeated rows go; the first row of each id stays. *)
Lemma duplicate_shift rows : forall i seen,
  duplicate_rows_from rows (S i) seen = S <$> duplicate_rows_from rows i seen.
Proof.
  induction rows as [|[m|v|] rows IH]; intros i seen; [done| |apply IH..].
  cbn [duplicate_rows_from]. destruct (read_string m KEY_ID); [case_decide|]; rewrite IH; done.
Qed.

Lemma duplicates_ascending rows : forall seen, ascending (length rows) (duplicate_rows_from rows 0 seen).
Proof.
  induction rows as [|s rows IH]; intros seen; [split; constructor|].
  assert (Hskip : forall seen, ascending (length (s :: rows)) (duplicate_rows_from rows 1 seen)).
  { intros seen'. rewrite duplicate_shift. by apply ascending_S. }
  destruct s as [m|v|]; cbn [duplicate_rows_from]; [|apply Hskip..].
  destruct (read_string m KEY_ID); [case_decide|]; [|apply Hskip..].
  rewrite duplicate_shift. by apply ascending_0S.
Qed.

(** The rows left are the first of each id; what they show is the same. *)
Lemma rows_deduped rows : forall seen,
  rows_read rows ->
  all_lists_from (remove_all (duplicate_rows_from rows 0 seen) rows) seen = all_lists_from rows seen
  /\ duplicate_rows_from (remove_all (duplicate_rows_from rows 0 seen) rows) 0 seen = [].
Proof.
  induction rows as [|s rows IH]; intros seen Hr; [done|].
  assert (IH' := fun seen => IH seen (fun s H => Hr s (list_elem_of_further _ _ _ H))). clear IH.
  destruct s as [m|v|]; cbn [duplicate_rows_from].
  2,3: rewrite duplicate_shift, remove_all_S; cbn [all_lists_from duplicate_rows_from];
    rewrite duplicate_shift; destruct (IH' seen) as [-> ->]; done.
  destruct (read_string m KEY_ID) as [j|] eqn:Ej.
  - destruct (Hr (MapC m) (list_elem_of_here _ _)) as [v Hv]; [by exists j|]. cbn in Hv.
    assert (Hj : lv_id v = j) by (apply list_view_fields in Hv as [E _]; congruence).
    case_decide as Hs.
    + rewrite duplicate_shift, remove_all_cons, remove_all_S. cbn [length].
      rewrite decide_True by lia. change (remove_at 0 (MapC m :: ?l)) with l.
      cbn [all_lists_from]. rewrite Hv, decide_True by by rewrite Hj. apply IH'.
    + rewrite duplicate_shift, remove_all_S. cbn [all_lists_from duplicate_rows_from].
      rewrite Hv, Ej, Hj, !decide_False, duplicate_shift by done.
      by destruct (IH' ({[j]} ∪ seen)) as [-> ->].
  - assert (Hv : list_view m = None) by (unfold list_view; by rewrite Ej).
    rewrite duplicate_shift, remove_all_S. cbn [all_lists_from duplicate_rows_from].
    rewrite Hv, Ej, duplicate_shift. by destruct (IH' seen) as [-> ->].
Qed.

(** The items with their placements rewritten. *)
Definition rehome (items : gmap string slot) (fx : list (string * string)) : gmap string slot :=
  foldl (fun items '(id, p) =>
    match item_map_of items id with
    | Some m => <[id := MapC (relocated LIST_INBOX p m)]> items
    | None => items
    end) items fx.

Lemma rehome_lookup fx : forall items id,
  NoDup fx.*1 ->
  item_map_of (rehome items fx) id =
    match (list_to_map fx : gmap string string) !! id with
    | Some p => relocated LIST_INBOX p <$> item_map_of items id
    | None => item_map_of items id
    end
  /\ (items !! id = None <-> rehome items fx !! id = None).
Proof.
  induction fx as [|[j p] fx IH]; intros items id Hnd; [done|].
  apply NoDup_cons in Hnd as [Hj Hnd]. cbn [rehome foldl list_to_map foldr uncurry].
  fold (rehome (match item_map_of items j with
    | Some m => <[j:=MapC (relocated LIST_INBOX p m)]> items | None => items end) fx).
  set (items' := match item_map_of items j with Some m => _ | None => _ end).
  destruct (IH items' id Hnd) as [E1 E2]. rewrite E1, <- E2. clear E1 E2.
  assert (Hnone : (list_to_map fx : gmap string string) !! j = None) by by apply not_elem_of_list_to_map.
  destruct (decide (id = j)) as [->|Hne].
  - rewrite Hnone, lookup_insert_eq. unfold items', item_map_of.
    destruct (items !! j) as [[m|v|]|] eqn:Ej; cbn [fmap option_fmap option_map];
      rewrite ?Ej, ?lookup_insert_eq; done.
  - rewrite lookup_insert_ne by done. unfold items'.
    assert (Hl : items' !! id = items !! id).
    { unfold items'. destruct (item_map_of items j); [|done]. by rewrite lookup_insert_ne. }
    fold items'. unfold item_map_of. by rewrite Hl.
Qed.

Lemma fix_locations_run fx : forall d,
  (forall id, id ∈ fx.*1 ->
     is_Some (ix_meta (d_index d) !! id) /\ is_Some (item_map_of (d_items d) id)) ->
  mfor fx (fun '(id, p) => find id ;; write_location id LIST_INBOX p) d
  = (Ok tt, with_items (fun items => rehome items fx) d).
Proof.
  induction fx as [|[id p] fx IH]; intros d Hin; [by destruct d|].
  destruct (Hin id) as [[m Em] [map E]]; [by left|]. cbn [mfor]. unfold mbind, M_bind.
  unfold find at 1, find_item. rewrite Em, E. cbn [ok_or]. rewrite (write_location_ok _ _ _ map) by done.
  rewrite IH.
  - unfold set_item, with_items. cbn. by rewrite E.
  - intros j Hj. destruct (Hin j) as [Hj1 [m' Hj2]]; [by right|]. split; [done|].
    unfold set_item. cbn. unfold item_map_of in *. destruct (decide (id = j)) as [->|Hne].
    + by rewrite lookup_insert_eq.
    + by rewrite lookup_insert_ne, Hj2.
Qed.

(** Plans applied: positions dropped, entries appended. *)
Definition planned (p : ListPlan) (rows : list slot) : list slot :=
  remove_all (lp_stale p) rows ++ ((fun e => str_slot (entry_encode e)) <$> lp_append p).

Lemma pushes_run l es : forall d,
  exists o, mfor es (fun e => root_push (ROrder l) (str_slot (entry_encode e))) d
            = (Ok tt, with_orders (fun _ => o) d)
  /\ forall j, order_list j (with_orders (fun _ => o) d)
     = if decide (l = j) then order_list j d ++ ((fun e => str_slot (entry_encode e)) <$> es)
       else order_list j d.
Proof.
  induction es as [|e es IH]; intros d.
  - exists (d_orders d). split; [by destruct d|]. intros j. case_decide; [by rewrite app_nil_r|done].
  - cbn [mfor]. unfold mbind, M_bind. rewrite root_push_ok.
    destruct (IH (root_set (ROrder l) (root_get (ROrder l) d ++ [str_slot (entry_encode e)]) d))
      as (o & E & Ho). exists o. split; [exact E|].
    intros j. rewrite Ho, order_list_set. case_decide as Hj; [subst j|done].
    change (root_get (ROrder l) d) with (order_list l d). by rewrite <- app_assoc.
Qed.

Lemma apply_plan_run l p d :
  ascending (length (order_list l d)) (lp_stale p) ->
  exists o, apply_plan l p d = (Ok tt, with_orders (fun _ => o) d)
  /\ forall j, order_list j (with_orders (fun _ => o) d)
     = if decide (l = j) then planned p (order_list j d) else order_list j d.
Proof.
  intros Ha. unfold apply_plan, mbind, M_bind. rewrite cleared_ok by done.
  destruct (pushes_run l (lp_append p) (cleared l (lp_stale p) d)) as (o & E & Ho).
  assert (Hc : with_orders (fun _ => o) (cleared l (lp_stale p) d) = with_orders (fun _ => o) d)
    by (unfold cleared; by case_decide).
  exists o. rewrite E, Hc. split; [done|]. intros j. rewrite <- Hc, Ho. unfold planned.
  assert (Hl : order_list j (cleared l (lp_stale p) d)
     = if decide (l = j) then remove_all (lp_stale p) (order_list j d) else order_list j d).
  { unfold cleared. destruct (decide (lp_stale p = [])) as [->|_]; [by case_decide|].
    rewrite order_list_set. case_decide; [by subst|done]. }
  rewrite Hl. by case_decide.
Qed.

Lemma apply_plans_run plans : forall d,
  NoDup plans.*1 ->
  (forall l p, (l, p) ∈ plans -> ascending (length (order_list l d)) (lp_stale p)) ->
  exists o, mfor plans (fun '(l, plan) => apply_plan l plan) d = (Ok tt, with_orders (fun _ => o) d)
  /\ (forall l p, (l, p) ∈ plans ->
        order_list l (with_orders (fun _ => o) d) = planned p (order_list l d))
  /\ (forall l, l ∉ plans.*1 -> order_list l (with_orders (fun _ => o) d) = order_list l d).
Proof.
  induction plans as [|[l p] plans IH]; intros d Hnd Ha.
  - exists (d_orders d). split_and!; [by destruct d|by intros l p ?%not_elem_of_nil|done].
  - apply NoDup_cons in Hnd as [Hl Hnd]. cbn [mfor]. unfold mbind, M_bind.
    destruct (apply_plan_run l p d) as (o1 & -> & Ho1); [apply Ha; by left|].
    assert (Hne : forall l' p', (l', p') ∈ plans -> l <> l').
    { intros l' p' Hin ->. apply Hl, list_elem_of_fmap. by exists (l', p'). }
    destruct (IH (with_orders (fun _ => o1) d)) as (o & E & Hin & Hout); [done| |].
    { intros l' p' Hp. rewrite Ho1, decide_False by (by eapply Hne). apply Ha. by right. }
    exists o. split_and!; [exact E| |].
    + intros l' p' [[= -> ->]|Hp]%elem_of_cons.
      * etransitivity; [by apply Hout|]. by rewrite Ho1, decide_True.
      * etransitivity; [by apply Hin|]. by rewrite Ho1, decide_False by (by eapply Hne).
    + cbn. intros j Hj. apply not_elem_of_cons in Hj as [Hj1 Hj2].
      etransitivity; [by apply Hout|]. by rewrite Ho1, decide_False by congruence.
Qed.
End writes.

(** ** The appended entries *)

Section appended.
Context `{LoroOk} `{HostOk}.
Implicit Types (meta : gmap string ItemMeta).

Definition placement_of meta (id : string) : string := default "" (m_placement_id <$> meta !! id).

(** Each tail item gets one entry, carrying its placement or the fresh one
    that is then written to it. *)
Lemma appended_entries meta tail : forall n,
  entry_item_id <$> (appended meta n tail).1 = tail
  /\ (appended meta n tail).2.*1 = base.filter (fun id => placement_of meta id = "") tail
  /\ (forall e, e ∈ (appended meta n tail).1 ->
        (placement_of meta (entry_item_id e) <> ""
         /\ entry_placement_id e = placement_of meta (entry_item_id e))
        \/ (entry_item_id e, entry_placement_id e) ∈ (appended meta n tail).2)
  /\ (forall id p, (id, p) ∈ (appended meta n tail).2 -> exists k, n <= k /\ p = nth_id k).
Proof.
  induction tail as [|id tail IH]; intros n.
  - cbn. split_and!; [done..|by intros e ?%not_elem_of_nil|by intros id p ?%not_elem_of_nil].
  - cbn [appended]. fold (placement_of meta id). case_decide as Hp.
    + destruct (IH (S n)) as (E1 & E2 & E3 & E4). cbn [fst snd fmap list_fmap].
      rewrite E1, E2, filter_cons_True by done. split_and!; [done..| |].
      * intros e [->|[He|He]%E3]%elem_of_cons; [by right; left|by left|by right; right].
      * intros j q [[= -> ->]|(k & Hk & ->)%E4]%elem_of_cons; [by exists n|].
        exists k. split; [lia|done].
    + destruct (IH n) as (E1 & E2 & E3 & E4). cbn [fst snd fmap list_fmap].
      rewrite E1, E2, filter_cons_False by done. split_and!; [done..| |done].
      intros e [->|[He|He]%E3]%elem_of_cons; [by left|by left|by right].
Qed.

(** The metadata after the placements are written. *)
Lemma rehomed_meta items fx id :
  NoDup fx.*1 ->
  doc_metas (rehome items fx) !! id =
    match (list_to_map fx : gmap string string) !! id with
    | Some p => (fun m => mkMeta LIST_INBOX p (m_open m) (m_created_at m)) <$> doc_metas items !! id
    | None => doc_metas items !! id
    end.
Proof.
  intros Hnd. rewrite !doc_metas_item, (proj1 (rehome_lookup fx items id Hnd)).
  destruct (list_to_map fx !! id) as [p|]; [|done].
  destruct (item_map_of items id) as [m|]; [|done]. cbn. by rewrite relocated_meta.
Qed.

Lemma rehomed_open items fx id :
  NoDup fx.*1 -> meta_open (doc_metas (rehome items fx)) id = meta_open (doc_metas items) id.
Proof.
  intros Hnd. unfold meta_open. rewrite rehomed_meta by done.
  destruct (list_to_map fx !! id); [|done]. by destruct (doc_metas items !! id).
Qed.
End appended.

(** ** What the sweep drops is closed *)

(** The id stored in an item is the key it is stored under. *)
Definition keyed (items : gmap string slot) : Prop :=
  forall id m v, item_map_of items id = Some m -> item_view m = Some v -> iv_id v = id.

Lemma iter_items_map d v :
  v ∈ iter_items d -> exists id m, item_map_of (d_items d) id = Some m /\ item_view m = Some v.
Proof.
  unfold iter_items. rewrite list_elem_of_omap. intros (id & _ & Hg). unfold get_item, find_item in Hg.
  destruct (ix_meta (d_index d) !! id); [|done].
  destruct (item_map_of (d_items d) id) as [m|] eqn:E; [|done]. by exists id, m.
Qed.

Lemma swept_closed d c id :
  keyed (d_items d) -> id ∈ sweep_set d c -> meta_open (doc_metas (d_items d)) id = false.
Proof.
  intros Hk. destruct c as [cutoff|]; cbn [sweep_set]; [|set_solver].
  rewrite elem_of_list_to_set, list_elem_of_fmap.
  intros (v & -> & [Hc (key & m & E & Hv)%iter_items_map]%list_elem_of_filter).
  rewrite (Hk key m v E Hv). unfold meta_open. rewrite doc_metas_item, E. cbn.
  unfold map_is_open. unfold item_view in Hv.
  destruct (read_string m KEY_ID); [|done]. destruct (read_string m KEY_TEXT); [|done].
  destruct (read_i64 m KEY_CREATED_AT); [|done]. simplify_eq.
  unfold iv_is_closed in Hc. cbn in Hc. destruct (read_i64 m KEY_BINNED_AT); [done|].
  destruct (is_closed (workflow_of m).1) eqn:Ec; [|done].
  by destruct (workflow_of m).1.
Qed.

(** ** The repair of a document *)

Section repair.
Context `{LoroOk} `{HostOk}.
Context (d : Doc) (c : option Z).
Hypothesis Hok : doc_ok d.
Hypothesis Hkeyed : keyed (d_items d).
Hypothesis Hhome : homeless_in_inbox (doc_metas (d_items d)).

Let idx := d_index d.
Let sweep := sweep_set d c.
Let n0 := d_minted d.
Let meta := ix_meta idx.
Let fx := (list_appended idx sweep n0 LIST_INBOX).2.
Let meta' := doc_metas (rehome (d_items d) fx).
Let kept_of l := kept meta sweep l (raw_at idx l) ∅.

Lemma repair_meta : meta = doc_metas (d_items d).
Proof. apply (ok_meta _ (ok_index _ Hok)). Qed.

Lemma repair_sweep id : id ∈ sweep -> meta_open meta id = false.
Proof. rewrite repair_meta. by apply swept_closed. Qed.

Lemma walk_seen l : (list_walk idx sweep l).2 = list_to_set (omap (canon meta l) (kept_of l)).
Proof.
  destruct (stale_walk_spec meta sweep l (raw_at idx l) ∅) as (_ & _ & E).
  unfold list_walk. fold meta. rewrite E. set_solver.
Qed.

Lemma repair_members l id : id ∈ set_at (ix_members idx) l <-> located meta l id.
Proof. apply (wf_members _ (ok_wf _ (ok_index _ Hok))). Qed.

Lemma elem_of_list_tail l id :
  id ∈ list_tail idx sweep l <-> located_open meta l id /\ (id ∉ omap (canon meta l) (kept_of l)).
Proof.
  unfold list_tail, repair_tail. rewrite sort_by_created_Permutation, list_elem_of_filter.
  rewrite elem_of_elements, repair_members, walk_seen, elem_of_list_to_set.
  rewrite meta_open_located, Is_true_true. tauto.
Qed.

Lemma NoDup_list_tail l : NoDup (list_tail idx sweep l).
Proof. unfold list_tail, repair_tail. rewrite sort_by_created_Permutation. apply NoDup_filter, NoDup_elements. Qed.

Lemma repair_placement id m :
  meta !! id = Some m -> placement_of meta id = m_placement_id m.
Proof. unfold placement_of. by intros ->. Qed.

Lemma list_appended_entries l :
  let a := list_appended idx sweep n0 l in
  entry_item_id <$> a.1 = list_tail idx sweep l
  /\ a.2.*1 = base.filter (fun id => placement_of meta id = "") (list_tail idx sweep l)
  /\ (forall e, e ∈ a.1 ->
        (placement_of meta (entry_item_id e) <> ""
         /\ entry_placement_id e = placement_of meta (entry_item_id e))
        \/ (entry_item_id e, entry_placement_id e) ∈ a.2)
  /\ (forall id p, (id, p) ∈ a.2 -> exists k, n0 <= k /\ p = nth_id k).
Proof. apply appended_entries. Qed.

Lemma fx_NoDup : NoDup fx.*1.
Proof.
  unfold fx. destruct (list_appended_entries LIST_INBOX) as (_ & -> & _).
  apply NoDup_filter, NoDup_list_tail.
Qed.

Lemma fx_spec id p :
  (id, p) ∈ fx ->
  id ∈ list_tail idx sweep LIST_INBOX /\ placement_of meta id = "" /\ exists k, n0 <= k /\ p = nth_id k.
Proof.
  intros Hp. destruct (list_appended_entries LIST_INBOX) as (_ & E & _ & Hk).
  assert (Hin : id ∈ fx.*1) by (apply list_elem_of_fmap; by exists (id, p)).
  unfold fx in Hin. rewrite E in Hin.
  apply list_elem_of_filter in Hin as [H4 H5]. split_and!; [done..|]. by apply (Hk id p).
Qed.

Lemma repair_lookup id :
  meta' !! id = match (list_to_map fx : gmap string string) !! id with
    | Some p => (fun m => mkMeta LIST_INBOX p (m_open m) (m_created_at m)) <$> meta !! id
    | None => meta !! id
    end.
Proof. unfold meta'. rewrite repair_meta. apply rehomed_meta, fx_NoDup. Qed.

(** Only homeless inbox items, shown by no entry, change their placement. *)
Lemma repair_replaced l : replaced meta meta' l (raw_order d l).
Proof.
  split.
  - intros id m Hl E. rewrite repair_lookup, E.
    destruct (list_to_map fx !! id) as [p|] eqn:Ef; [|by exists m; split_and!; try left].
    apply elem_of_list_to_map in Ef; [|apply fx_NoDup].
    destruct (fx_spec _ _ Ef) as (Ht & Hp & k & Hk & ->).
    rewrite (repair_placement id m E) in Hp.
    assert (l = LIST_INBOX) as -> by (rewrite <- Hl; apply (Hhome id); [by rewrite <- repair_meta|done]).
    eexists. split_and!; [reflexivity..|]. right. apply elem_of_list_tail in Ht as [Hlo Hn].
    split; [|by intros [Hin1 Hin2]%(proj2 (ok_unseen _ Hok k Hk))].
    unfold visible. rewrite elem_of_dedup. intros Hv. apply Hn.
    apply kept_ids_spec. apply meta_open_located in Hlo as [_ Ho].
    split; [intros Hs%repair_sweep; congruence|].
    destruct (ok_raw _ (ok_index _ Hok) LIST_INBOX) as (rest & E' & Hrest).
    fold idx meta in E', Hrest. rewrite E', omap_app, Hrest, app_nil_r in Hv. exact Hv.
  - intros id m' Hl. rewrite repair_lookup. destruct (list_to_map fx !! id) as [p|] eqn:Ef; [|by exists m'].
    destruct (meta !! id) as [m|] eqn:E; [|done]. cbn. intros [= <-]. exists m. split; [done|].
    apply elem_of_list_to_map in Ef; [|apply fx_NoDup].
    destruct (fx_spec _ _ Ef) as (Ht & Hp & _). rewrite (repair_placement id m E) in Hp.
    cbn in Hl. rewrite <- Hl. apply (Hhome id); [by rewrite <- repair_meta|done].
Qed.

Lemma list_to_map_fx id p : (id, p) ∈ fx -> (list_to_map fx : gmap string string) !! id = Some p.
Proof. intros Hp. by apply elem_of_list_to_map_1; [apply fx_NoDup|]. Qed.

(** The appended entries are canonical afterwards, one per tail item. *)
Lemma repair_appended l :
  omap (canon meta' l) (Some <$> (list_appended idx sweep n0 l).1) = list_tail idx sweep l.
Proof.
  destruct (list_appended_entries l) as (E & E2 & He & _).
  etransitivity; [|exact E]. assert (Hc : forall e, e ∈ (list_appended idx sweep n0 l).1 ->
    canon meta' l (Some e) = Some (entry_item_id e)).
  { intros e Hin. apply canon_Some.
    assert (Ht : entry_item_id e ∈ list_tail idx sweep l) by (rewrite <- E; by apply list_elem_of_fmap_2).
    apply elem_of_list_tail in Ht as [(m & Em & Hl & _) _].
    rewrite repair_lookup. destruct (He e Hin) as [[Hne Hp]|Hp].
    - exists m. assert (Hn : (list_to_map fx : gmap string string) !! entry_item_id e = None).
      { apply not_elem_of_list_to_map. intros ([j p] & Ej & (_ & Hj & _)%fx_spec)%list_elem_of_fmap.
        cbn in Ej. by subst j. }
      rewrite Hn. split_and!; [done..|]. rewrite (repair_placement _ m Em) in Hp.
      rewrite <- Hp. by destruct e.
    - assert (Hl' : l = LIST_INBOX).
      { rewrite <- Hl. apply (Hhome (entry_item_id e)); [by rewrite <- repair_meta|].
        rewrite <- (repair_placement _ m Em).
        assert (Hin2 : entry_item_id e ∈ (list_appended idx sweep n0 l).2.*1)
          by (apply list_elem_of_fmap; by exists (entry_item_id e, entry_placement_id e)).
        rewrite E2 in Hin2. by apply list_elem_of_filter in Hin2 as [? _]. }
      rewrite Hl' in Hp |- *. rewrite Em, (list_to_map_fx _ _ Hp).
      eexists. split_and!; [reflexivity|done|by destruct e]. }
  clear E E2 He. induction (list_appended idx sweep n0 l).1 as [|e es IH]; [done|].
  rewrite !fmap_cons. change (omap (canon meta' l) (Some e :: ?k))
    with (match canon meta' l (Some e) with Some x => x :: omap (canon meta' l) k | None => omap (canon meta' l) k end).
  rewrite Hc by by left. f_equal. apply IH. intros x Hx. apply Hc. by right.
Qed.
(** Every list's container, with its plan carried out, projects the same. *)
Lemma repair_open l :
  open_projection meta' l (scalar_entry <$> planned (list_plan idx sweep n0 l) (order_list l d))
  = doc_open d l.
Proof.
  destruct (ok_raw _ (ok_index _ Hok) l) as (rest & E & Hrest). fold idx meta in E, Hrest.
  destruct (stale_walk_spec meta sweep l (raw_at idx l) ∅) as (Ha & Hkept & _).
  fold idx meta in Ha, Hkept. set (P := list_plan idx sweep n0 l).
  assert (Hraw : scalar_entry <$> planned P (order_list l d)
    = kept_of l ++ rest ++ (Some <$> (list_appended idx sweep n0 l).1)).
  { unfold planned. rewrite fmap_app, fmap_remove_all.
    change (scalar_entry <$> order_list l d) with (raw_order d l). rewrite E, remove_all_app by done.
    change (lp_stale P) with (stale_walk meta sweep l (raw_at idx l) 0 ∅).1. rewrite Hkept, <- app_assoc.
    do 2 f_equal. change (lp_append P) with (list_appended idx sweep n0 l).1.
    rewrite <- list_fmap_compose. apply list_fmap_ext. intros i e He%list_elem_of_lookup_2.
    cbn. destruct (list_appended_entries l) as (Et & _).
    assert (Ht : entry_item_id e ∈ list_tail idx sweep l) by (rewrite <- Et; by apply list_elem_of_fmap_2).
    apply elem_of_list_tail in Ht as [(m & Em & _) _]. rewrite repair_meta, lookup_doc_metas in Em.
    destruct (d_items d !! entry_item_id e) as [s|] eqn:Es; [|done].
    destruct (named_items _ (ok_named _ Hok) _ _ Es) as [Hc Hne].
    destruct e as [id p]. by rewrite entry_roundtrip. }
  rewrite Hraw. unfold doc_open. rewrite <- repair_meta, E. apply repaired_projection with (sweep := sweep)
    (members := set_at (ix_members idx) l).
  - rewrite <- E. apply repair_replaced.
  - done.
  - apply repair_sweep.
  - apply repair_members.
  - rewrite repair_appended. unfold list_tail. by rewrite walk_seen.
Qed.

(** *** The run *)

Let ls := elements (dom (ix_raw_orders idx) ∪ dom (ix_members idx)).
Let plans := base.filter (fun lp : string * ListPlan => plan_empty lp.2 = false)
  ((fun l => (l, list_plan idx sweep n0 l)) <$> ls).

Lemma plan_outside l : l ∉ ls -> list_plan idx sweep n0 l = mkListPlan [] [].
Proof.
  unfold ls. rewrite elem_of_elements, not_elem_of_union, !not_elem_of_dom. intros [Hr Hm].
  unfold list_plan, list_appended, list_tail, list_walk, raw_at, set_at, repair_tail.
  rewrite Hr, Hm. cbn [default from_option stale_walk fst snd]. done.
Qed.

Lemma fx_outside : LIST_INBOX ∉ ls -> fx = [].
Proof.
  intros Hl. destruct fx as [|[id p] l'] eqn:E; [done|]. exfalso. apply Hl.
  assert (Hin : (id, p) ∈ fx) by (rewrite E; by left).
  apply fx_spec in Hin as (Ht & _ & _). apply elem_of_list_tail in Ht as [Ht _].
  apply meta_open_located in Ht as [Ht _]. apply repair_members in Ht.
  unfold ls. rewrite elem_of_elements. apply elem_of_union_r, elem_of_dom.
  unfold set_at in Ht. destruct (ix_members idx !! LIST_INBOX); [done|]. by apply elem_of_empty in Ht.
Qed.

Lemma repair_plans :
  plan_lists idx sweep ls d = (Ok (plans, fx), with_minted (fun n => n + length fx) d).
Proof.
  rewrite (plan_lists_ok idx sweep n0); [| |intros l _ Hl id Ht|done].
  - assert (E : (if decide (LIST_INBOX ∈ ls) then (list_appended idx sweep n0 LIST_INBOX).2 else []) = fx)
      by (case_decide; [done|by rewrite fx_outside]).
    cbv zeta. by rewrite E.
  - apply NoDup_elements.
  - apply elem_of_list_tail in Ht as [(m & Em & Hm & _) _]. fold meta. rewrite Em. cbn.
    intros Hp. apply Hl. rewrite <- Hm. apply (Hhome id); [by rewrite <- repair_meta|done].
Qed.

Lemma elem_of_plans l p :
  (l, p) ∈ plans <-> l ∈ ls /\ p = list_plan idx sweep n0 l /\ plan_empty p = false.
Proof.
  unfold plans. rewrite list_elem_of_filter, list_elem_of_fmap. cbn. split.
  - intros [Hp (l' & E & Hl)]. by simplify_eq.
  - intros (Hl & -> & Hp). split; [done|]. by exists l.
Qed.

Lemma NoDup_plans : NoDup plans.*1.
Proof.
  unfold plans. eapply sublist_NoDup; [|eapply (fmap_sublist fst), sublist_filter].
  rewrite <- list_fmap_compose. change (NoDup ((fun l : string => l) <$> ls)).
  rewrite list_fmap_id. apply NoDup_elements.
Qed.
Lemma plans_empty : plans = [] -> forall l, plan_empty (list_plan idx sweep n0 l) = true.
Proof.
  intros E l. destruct (decide (l ∈ ls)) as [Hl|Hl]; [|by rewrite plan_outside].
  destruct (plan_empty _) eqn:Ep; [done|].
  assert (Hin : (l, list_plan idx sweep n0 l) ∈ plans) by by apply elem_of_plans.
  rewrite E in Hin. by apply elem_of_nil in Hin.
Qed.

Lemma plans_empty_fx : plans = [] -> fx = [].
Proof.
  intros E. pose proof (plans_empty E LIST_INBOX) as Ep.
  apply andb_true_iff in Ep as [_ Ea%bool_decide_eq_true].
  change ((list_appended idx sweep n0 LIST_INBOX).1 = []) in Ea.
  destruct (list_appended_entries LIST_INBOX) as (Et & Ef & _). cbn zeta in *.
  rewrite Ea in Et. change (fx.*1 = base.filter (fun id => placement_of meta id = "") (list_tail idx sweep LIST_INBOX)) in Ef.
  rewrite <- Et in Ef. by apply fmap_nil_inv in Ef.
Qed.

(** The document the writes leave, before the index is rebuilt. *)
Definition repaired_doc (o : gmap string (list slot)) : Doc :=
  with_commits (fun q => q ++ [Some SWEEP_ORIGIN])
    (with_focus (fun _ => enc_focus (focus_entries d))
      (with_orders (fun _ => o)
        (with_items (fun items => rehome items fx)
          (with_lists (fun rows => remove_all (duplicate_rows_from rows 0 ∅) rows)
            (with_minted (fun n => n + length fx) d))))).

Lemma repair_writes {A} (k : M A) :
  exists o, (root_delete_all RLists (duplicate_list_rows d) ;;
     mfor fx (fun '(id, p) => find id ;; write_location id LIST_INBOX p) ;;
     mfor plans (fun '(l, plan) => apply_plan l plan) ;;
     root_delete_all RFocus (scan_dead (scan_focus d)) ;;
     commit_with SWEEP_ORIGIN ;; k) (with_minted (fun n => n + length fx) d)
    = k (repaired_doc o)
  /\ forall l, order_list l (repaired_doc o) = planned (list_plan idx sweep n0 l) (order_list l d).
Proof.
  set (d1 := with_minted _ d). set (d2 := with_lists (fun rows => remove_all (duplicate_rows_from rows 0 ∅) rows) d1).
  set (d3 := with_items (fun items => rehome items fx) d2).
  destruct (apply_plans_run plans d3 NoDup_plans) as (o & Eo & Hin & Hout).
  { intros l p (_ & -> & _)%elem_of_plans. change (order_list l d3) with (order_list l d).
    eapply ascending_mono; [apply stale_walk_spec|]. apply mirror_length, (ok_index _ Hok). }
  exists o. split.
  - assert (E2 : (if decide (duplicate_list_rows d = []) then d1
              else root_set RLists (remove_all (duplicate_list_rows d) (root_get RLists d1)) d1) = d2).
    { unfold d2, with_lists, root_set. change (duplicate_rows_from (d_lists d1) 0 ∅) with (duplicate_list_rows d).
      case_decide as E; [|done]. rewrite E. by destruct d1. }
    erewrite bind_ok; [|by rewrite (root_delete_all_ok RLists), E2 by apply duplicates_ascending].
    erewrite bind_ok; [|apply fix_locations_run; intros id Hid].
    + fold d3. erewrite bind_ok; [|exact Eo].
      destruct (sweep_ok (with_orders (fun _ => o) d3)) as (d4 & E4 & ->).
      by erewrite bind_ok; [|exact E4].
    + apply list_elem_of_fmap in Hid as ([j p] & -> & (Ht & _)%fx_spec). cbn [fst].
      apply elem_of_list_tail in Ht as [(m & Em & _) _]. change (ix_meta (d_index d2)) with meta.
      split; [by exists m|]. rewrite repair_meta, doc_metas_item in Em.
      change (d_items d2) with (d_items d). by destruct (item_map_of (d_items d) j).
  - intros l. change (order_list l (repaired_doc o)) with (order_list l (with_orders (fun _ => o) d3)).
    change (order_list l d) with (order_list l d3).
    destruct (decide (l ∈ plans.*1)) as [([l' p] & -> & Hp)%list_elem_of_fmap|Hl].
    + cbn [fst]. rewrite (Hin _ _ Hp). by apply elem_of_plans in Hp as (_ & -> & _).
    + rewrite Hout by done. assert (Ep : plan_empty (list_plan idx sweep n0 l) = true).
      { destruct (decide (l ∈ ls)) as [Hls|Hls]; [|by rewrite plan_outside].
        destruct (plan_empty _) eqn:Ep; [done|]. exfalso. apply Hl, list_elem_of_fmap.
        exists (l, list_plan idx sweep n0 l). split; [done|]. by apply elem_of_plans. }
      apply andb_true_iff in Ep as [E1%bool_decide_eq_true E2%bool_decide_eq_true].
      unfold planned. by rewrite E1, E2, app_nil_r.
Qed.

Lemma repaired_focus o : focus_entries (rebuild_index (repaired_doc o)) = focus_entries d.
Proof.
  unfold focus_entries at 1. rewrite scan_focus_fields, (focus_raw_enc (focus_entries d)) by done.
  rewrite (ok_meta _ (rebuild_ok (repaired_doc o))). cbn [scan_entries].
  change (d_items (rebuild_index (repaired_doc o))) with (rehome (d_items d) fx). fold meta'.
  rewrite scan_of_entries; [done|]. destruct (focus_entries_ok d) as [E1 E2 E3 E4].
  split; [|done..]. eapply Forall_impl; [exact E1|]. cbn. intros r. unfold ref_resolvable.
  unfold meta'. rewrite rehomed_open by apply fx_NoDup. by rewrite <- repair_meta.
Qed.
End repair.


(** ** A document to repair *)

#[local] Existing Instances value_loro value_loro_ok unary_host unary_host_ok.

(** A repeated list row, dead focus refs, and a binned item's entry. *)
Definition untidy_doc : Doc :=
  with_lists (fun _ => d_lists doubled_lists)
    (with_focus (fun _ => str_slot <$> ["x1"; "gone"; "x3"; "x2"; "x1"]) sample_doc).

Lemma rows_focus_ok d rows refs :
  doc_ok d ->
  (forall i m l, list_map_at rows i = Some m -> read_string m KEY_ID = Some l -> plain l) ->
  doc_ok (with_lists (fun _ => rows) (with_focus (fun _ => refs) d)).
Proof. intros [[H1 H2 H3] Hu [Hi _]] Hr. split; [by split|done|by split]. Qed.

Lemma untidy_doc_ok : doc_ok untidy_doc.
Proof.
  unfold untidy_doc. apply rows_focus_ok; [exact sample_doc_ok|].
  intros i m l Hl Hid. unfold list_map_at in Hl. cbn in Hl.
  destruct i as [|[|[|i]]]; cbn in Hl; [injection Hl as <-..|done];
    vm_compute in Hid; injection Hid as <-; by split.
Qed.

Lemma untidy_items id m :
  item_map_of (d_items sample_doc) id = Some m ->
  m_placement_id (item_meta m) <> "" /\ (iv_id <$> item_view m) = Some id.
Proof.
  intros E. assert (Hid : id ∈ ["x1"; "x2"; "x3"]).
  { apply item_map_slot in E. by apply (sample_items id (MapC m)). }
  assert (Ht : match item_map_of (d_items sample_doc) id with
      | Some m => bool_decide (m_placement_id (item_meta m) <> "")
                  && bool_decide ((iv_id <$> item_view m) = Some id)
      | None => false end = true).
  { clear E. rewrite !elem_of_cons, elem_of_nil in Hid.
    destruct Hid as [->|[->|[->|[]]]]; vm_compute; reflexivity. }
  rewrite E in Ht. apply andb_true_iff in Ht as [H1%bool_decide_eq_true H2%bool_decide_eq_true].
  by split.
Qed.

