(* ===== verification/Tables.v ===== *)
(** Tables of a sqlite database: signed 64-bit columns and the rows of one
    document in key order, shared by the client's and the server's stores. *)
From S2P Require Import Prelude.
From S2P Require Import Wire.

(** [u64] values, and the values a signed 64-bit column stores as they are. *)
Definition is_u64 (n : N) : Prop := (n < 2 ^ 64)%N.
Definition is_i63 (n : N) : Prop := (n < 2 ^ 63)%N.

(** ** Columns *)

(** [n as i64] and [z as u64]. *)
Definition as_i64 (n : N) : Z :=
  let z := (Z.of_N n mod 2 ^ 64)%Z in if (z <? 2 ^ 63)%Z then z else (z - 2 ^ 64)%Z.
Definition as_u64 (z : Z) : N := Z.to_N (z mod 2 ^ 64).

Lemma as_u64_i64 n : is_u64 n -> as_u64 (as_i64 n) = n.
Proof.
  unfold is_u64, as_u64, as_i64. intros Hn. rewrite (Z.mod_small (Z.of_N n)) by lia.
  destruct (Z.of_N n <? 2 ^ 63)%Z eqn:E; [rewrite Z.mod_small by lia; lia|].
  apply Z.ltb_ge in E. replace (Z.of_N n - 2 ^ 64)%Z with (Z.of_N n + (-1) * 2 ^ 64)%Z by lia.
  rewrite Z.mod_add, Z.mod_small by lia. lia.
Qed.

Lemma as_i64_small n : is_i63 n -> as_i64 n = Z.of_N n.
Proof.
  unfold is_i63, as_i64. intros Hn. rewrite Z.mod_small by lia.
  rewrite (proj2 (Z.ltb_lt _ _)) by lia. done.
Qed.

Lemma as_u64_small z : (0 <= z < 2 ^ 64)%Z -> as_u64 z = Z.to_N z.
Proof. intros Hz. unfold as_u64. by rewrite Z.mod_small. Qed.

Definition i64_range (z : Z) : Prop := (- 2 ^ 63 <= z < 2 ^ 63)%Z.

Lemma as_i64_range n : i64_range (as_i64 n).
Proof.
  unfold i64_range, as_i64. pose proof (Z.mod_pos_bound (Z.of_N n) (2 ^ 64) ltac:(lia)).
  destruct (_ <? _)%Z eqn:E; [apply Z.ltb_lt in E|apply Z.ltb_ge in E]; lia.
Qed.

Lemma as_i64_u64 z : i64_range z -> as_i64 (as_u64 z) = z.
Proof.
  unfold i64_range, as_i64, as_u64. intros Hz.
  pose proof (Z.mod_pos_bound z (2 ^ 64) ltac:(lia)) as Hb.
  rewrite Z2N.id, (Z.mod_small (z mod _)) by lia.
  destruct (decide (0 <= z)%Z) as [Hp|Hp].
  - rewrite Z.mod_small by lia. rewrite (proj2 (Z.ltb_lt _ _)) by lia. done.
  - replace (z mod 2 ^ 64)%Z with (z + 2 ^ 64)%Z.
    + rewrite (proj2 (Z.ltb_ge _ _)) by lia. lia.
    + apply (Z.mod_unique z (2 ^ 64) (-1)); lia.
Qed.

(** ** Rows keyed by a document and a number *)

Lemma StronglySorted_filter {A} (R : A -> A -> Prop) (P : A -> Prop) `{!forall x, Decision (P x)} l :
  StronglySorted R l -> StronglySorted R (base.filter P l).
Proof.
  induction 1 as [|x l Hl IH Hx]; [constructor|]. rewrite filter_cons. case_decide; [|done].
  constructor; [done|]. apply Forall_forall. intros y [_ Hy]%list_elem_of_filter.
  by apply (proj1 (Forall_forall _ _) Hx).
Qed.

Section rows.
Context {R : Type}.
Implicit Types (t : gmap (Uuid * Z) R).

(** The rows of one document ordered by their number. *)
Definition row_le (a b : Z * R) : Prop := (a.1 <= b.1)%Z.
#[export] Instance row_le_dec : RelDecision row_le.
Proof. intros a b. unfold row_le. apply _. Defined.

Definition rows_of t (id : Uuid) : list (Z * R) :=
  omap (fun kv : (Uuid * Z) * R =>
    if decide (kv.1.1 = id) then Some (kv.1.2, kv.2) else None) (map_to_list t).
Definition select t (id : Uuid) : list (Z * R) := merge_sort row_le (rows_of t id).

Lemma elem_of_select t id l r : (l, r) ∈ select t id <-> t !! (id, l) = Some r.
Proof.
  unfold select, rows_of. rewrite merge_sort_Permutation, list_elem_of_omap. split.
  - intros ([[j l'] r'] & Hin & E). cbn in E. case_decide; [|done]. simplify_eq.
    by apply elem_of_map_to_list in Hin.
  - intros E. exists ((id, l), r). split; [by apply elem_of_map_to_list|]. cbn. by rewrite decide_True.
Qed.

Lemma NoDup_select t id : NoDup (select t id).*1.
Proof.
  unfold select. rewrite merge_sort_Permutation. unfold rows_of.
  pose proof (NoDup_fst_map_to_list t) as Hn.
  induction (map_to_list t) as [|[[j l] r] rows IH]; [constructor|].
  cbn in Hn. apply NoDup_cons in Hn as [Hk Hn]. cbn. case_decide as Hj; [|by apply IH].
  cbn. apply NoDup_cons. split; [|by apply IH]. intros Hin. apply Hk.
  apply list_elem_of_fmap in Hin as ([l' r'] & E & Hin). cbn in E. subst l'.
  apply list_elem_of_omap in Hin as ([[j' l'] r''] & Hin & E). cbn in E.
  destruct (decide (j' = id)) as [Hj'|]; [|done]. apply list_elem_of_fmap. exists ((j', l'), r'').
  split; [cbn in *; congruence|done].
Qed.

#[export] Instance row_le_trans : Transitive row_le.
Proof. intros a b c. unfold row_le. lia. Qed.
#[export] Instance row_le_total : Total row_le.
Proof. intros a b. unfold row_le. lia. Qed.

Lemma select_sorted t id : StronglySorted row_le (select t id).
Proof. apply StronglySorted_merge_sort; apply _. Qed.

(** A sorted list of the right rows is the selection. *)
Lemma select_unique t id rows :
  StronglySorted row_le rows -> NoDup rows.*1 ->
  (forall l r, (l, r) ∈ rows <-> t !! (id, l) = Some r) -> select t id = rows.
Proof.
  intros Hs Hn Hin. apply (StronglySorted_unique_strong row_le).
  - intros [l1 r1] [l2 r2] H1 H2 Hle Hge. unfold row_le in *. cbn in *.
    assert (l1 = l2) as -> by lia. apply elem_of_select in H1. apply Hin in H2. congruence.
  - apply select_sorted.
  - done.
  - apply NoDup_Permutation; [apply (NoDup_fmap_1 fst), NoDup_select|by eapply NoDup_fmap_1|].
    intros [l r]. by rewrite Hin, elem_of_select.
Qed.

End rows.
