(* ===== verification/Storage.v ===== *)
(** Local persistence of a document (core/src/storage.rs): the rows of a
    snapshot-and-WAL store, the [LocalStorage] trait as an interface class,
    the in-memory implementation [MemStorage], and the law an implementation
    owes the engine: seen through its [view], every method does what
    [MemStorage] does. *)
From S2P Require Import Prelude.
From S2P Require Import Wire.
From S2P Require Import Tables.

(** ** Rows *)

Inductive StorageError : Type := Backend (e : string) | DocNotFound (doc_id : Uuid).

Record RemoteWalRow : Type := mkRemote { rw_server_seq : N; rw_payload : EncryptedBlob }.
Record WalRow : Type := mkWalRow { wr_local_seq : N; wr_payload : EncryptedBlob }.
Record SnapshotRow : Type := mkSnapRow { sr_up_to_local_seq : N; sr_payload : EncryptedBlob }.

Record InFlightPush : Type := mkInFlight {
  if_push_id : Uuid;
  if_payload : EncryptedBlob;
  if_from_vv : octets;
  if_to_vv : octets;
}.

Record BootState : Type := mkBoot {
  bs_snapshot : option SnapshotRow;
  bs_replay : list WalRow;
  bs_last_local_seq : N;
  bs_last_acked_server_seq : N;
  bs_server_known_vv : octets;
  bs_in_flight_push : option InFlightPush;
  bs_wal_bytes : N;
}.

Record BootMeta : Type := mkBootMeta {
  bm_last_local_seq : N;
  bm_last_acked_server_seq : N;
  bm_server_known_vv : octets;
  bm_in_flight_push : option InFlightPush;
  bm_wal_rows : N;
  bm_wal_bytes : N;
}.

Definition boot_meta (b : BootState) : BootMeta :=
  mkBootMeta (bs_last_local_seq b) (bs_last_acked_server_seq b) (bs_server_known_vv b)
    (bs_in_flight_push b) (N.of_nat (length (bs_replay b))) (bs_wal_bytes b).

(** ** The trait *)

(** A method call: a result, and the storage afterwards. *)
Abbreviation call S A := (S -> result StorageError A * S).

Class LocalStorage (S : Type) : Type := {
  boot : Uuid -> S -> result StorageError BootState;
  append_local_wal : Uuid -> EncryptedBlob -> call S N;
  append_remote_wal : Uuid -> RemoteWalRow -> octets -> call S (N * bool);
  write_snapshot : Uuid -> N -> EncryptedBlob -> call S unit;
  write_acked_seq : Uuid -> N -> call S unit;
  write_server_known_vv : Uuid -> octets -> call S unit;
  put_in_flight_push : Uuid -> InFlightPush -> call S unit;
  complete_push : Uuid -> Uuid -> octets -> call S unit;
}.

(** ** In memory *)

Record MemWalRow : Type := mkMemRow {
  mw_local_seq : N;
  mw_server_seq : option N;
  mw_payload : EncryptedBlob;
}.

Record MemInner : Type := mkMem {
  mi_next_local_seq : N;
  mi_snapshot : option SnapshotRow;
  mi_wal : list MemWalRow;
  mi_last_acked_server_seq : N;
  mi_server_known_vv : octets;
  mi_in_flight : option InFlightPush;
}.

Definition mem_default : MemInner := mkMem 0 None [] 0 [] None.

Definition wal_bytes_of (rows : list EncryptedBlob) : N := foldr N.add 0%N (blob_len <$> rows).

Definition mem_boot (_ : Uuid) (m : MemInner) : result StorageError BootState :=
  Ok (mkBoot (mi_snapshot m)
        ((fun r => mkWalRow (mw_local_seq r) (mw_payload r)) <$> mi_wal m)
        (mi_next_local_seq m) (mi_last_acked_server_seq m) (mi_server_known_vv m)
        (mi_in_flight m) (wal_bytes_of (mw_payload <$> mi_wal m))).

Definition mem_append_local_wal (_ : Uuid) (payload : EncryptedBlob) : call MemInner N := fun m =>
  let local_seq := (mi_next_local_seq m + 1)%N in
  (Ok local_seq,
   mkMem local_seq (mi_snapshot m) (mi_wal m ++ [mkMemRow local_seq None payload])
     (mi_last_acked_server_seq m) (mi_server_known_vv m) (mi_in_flight m)).

Definition mem_append_remote_wal (_ : Uuid) (row : RemoteWalRow) (vv : octets)
    : call MemInner (N * bool) := fun m =>
  match list_find (fun r => mw_server_seq r = Some (rw_server_seq row)) (mi_wal m) with
  | Some (_, existing) =>
      (Ok (mw_local_seq existing, false),
       mkMem (mi_next_local_seq m) (mi_snapshot m) (mi_wal m)
         (mi_last_acked_server_seq m) vv (mi_in_flight m))
  | None =>
      let local_seq := (mi_next_local_seq m + 1)%N in
      (Ok (local_seq, true),
       mkMem local_seq (mi_snapshot m)
         (mi_wal m ++ [mkMemRow local_seq (Some (rw_server_seq row)) (rw_payload row)])
         (mi_last_acked_server_seq m) vv (mi_in_flight m))
  end.

Definition mem_write_snapshot (_ : Uuid) (cutoff : N) (payload : EncryptedBlob)
    : call MemInner unit := fun m =>
  (Ok tt,
   mkMem (mi_next_local_seq m) (Some (mkSnapRow (mi_next_local_seq m) payload))
     (base.filter (fun r => (cutoff < mw_local_seq r)%N) (mi_wal m))
     (mi_last_acked_server_seq m) (mi_server_known_vv m) (mi_in_flight m)).

Definition mem_write_acked_seq (_ : Uuid) (seq : N) : call MemInner unit := fun m =>
  (Ok tt, mkMem (mi_next_local_seq m) (mi_snapshot m) (mi_wal m) seq
            (mi_server_known_vv m) (mi_in_flight m)).

Definition mem_write_server_known_vv (_ : Uuid) (vv : octets) : call MemInner unit := fun m =>
  (Ok tt, mkMem (mi_next_local_seq m) (mi_snapshot m) (mi_wal m) (mi_last_acked_server_seq m)
            vv (mi_in_flight m)).

Definition mem_put_in_flight_push (_ : Uuid) (push : InFlightPush) : call MemInner unit := fun m =>
  (Ok tt, mkMem (mi_next_local_seq m) (mi_snapshot m) (mi_wal m) (mi_last_acked_server_seq m)
            (mi_server_known_vv m) (Some push)).

Definition mem_complete_push (_ : Uuid) (push_id : Uuid) (vv : octets) : call MemInner unit := fun m =>
  (Ok tt, mkMem (mi_next_local_seq m) (mi_snapshot m) (mi_wal m) (mi_last_acked_server_seq m) vv
            (if decide (if_push_id <$> mi_in_flight m = Some push_id) then None
             else mi_in_flight m)).

#[export] Instance mem_storage : LocalStorage MemInner := {|
  boot := mem_boot;
  append_local_wal := mem_append_local_wal;
  append_remote_wal := mem_append_remote_wal;
  write_snapshot := mem_write_snapshot;
  write_acked_seq := mem_write_acked_seq;
  write_server_known_vv := mem_write_server_known_vv;
  put_in_flight_push := mem_put_in_flight_push;
  complete_push := mem_complete_push;
|}.

(** ** The contract *)

(** What an implementation promises about one document: whatever the rows of
    the others, its methods return what [MemStorage]'s return on the viewed
    state and leave the state [MemStorage] leaves, as long as the local
    counter has not run into the sign bit. *)
Class StorageOk (S : Type) `{LocalStorage S} (id : Uuid) : Type := {
  view : S -> MemInner;
  st_ok : S -> Prop;
  boot_view s : st_ok s -> boot id s = mem_boot id (view s);
  append_local_view p s : st_ok s -> is_i63 (mi_next_local_seq (view s) + 1) ->
    let r := append_local_wal id p s in let r' := mem_append_local_wal id p (view s) in
    r.1 = r'.1 /\ view r.2 = r'.2 /\ st_ok r.2;
  append_remote_view row vv s : st_ok s -> is_i63 (mi_next_local_seq (view s) + 1) ->
    is_u64 (rw_server_seq row) ->
    let r := append_remote_wal id row vv s in let r' := mem_append_remote_wal id row vv (view s) in
    r.1 = r'.1 /\ view r.2 = r'.2 /\ st_ok r.2;
  write_snapshot_view c p s : st_ok s -> is_i63 c ->
    let r := write_snapshot id c p s in let r' := mem_write_snapshot id c p (view s) in
    r.1 = r'.1 /\ view r.2 = r'.2 /\ st_ok r.2;
  write_acked_view n s : st_ok s -> is_u64 n ->
    let r := write_acked_seq id n s in let r' := mem_write_acked_seq id n (view s) in
    r.1 = r'.1 /\ view r.2 = r'.2 /\ st_ok r.2;
  write_known_view vv s : st_ok s ->
    let r := write_server_known_vv id vv s in let r' := mem_write_server_known_vv id vv (view s) in
    r.1 = r'.1 /\ view r.2 = r'.2 /\ st_ok r.2;
  put_in_flight_view p s : st_ok s ->
    let r := put_in_flight_push id p s in let r' := mem_put_in_flight_push id p (view s) in
    r.1 = r'.1 /\ view r.2 = r'.2 /\ st_ok r.2;
  complete_push_view q vv s : st_ok s ->
    let r := complete_push id q vv s in let r' := mem_complete_push id q vv (view s) in
    r.1 = r'.1 /\ view r.2 = r'.2 /\ st_ok r.2;
}.

#[export] Instance mem_storage_ok id : StorageOk MemInner id.
Proof. by refine {| view m := m; st_ok _ := True |}. Defined.

(** ** Calls as data *)

Inductive request : Type :=
  | RBoot
  | RAppendLocal (payload : EncryptedBlob)
  | RAppendRemote (row : RemoteWalRow) (server_known_vv : octets)
  | RWriteSnapshot (cutoff : N) (payload : EncryptedBlob)
  | RWriteAcked (seq : N)
  | RWriteKnown (vv : octets)
  | RPutInFlight (push : InFlightPush)
  | RCompletePush (push_id : Uuid) (server_known_vv : octets).

Inductive response : Type :=
  | ABoot (r : result StorageError BootState)
  | ASeq (r : result StorageError N)
  | AInserted (r : result StorageError (N * bool))
  | ADone (r : result StorageError unit).

Definition serve {T : Type} `{LocalStorage T} (id : Uuid) (q : request) (s : T) : response * T :=
  match q with
  | RBoot => (ABoot (boot id s), s)
  | RAppendLocal p => let r := append_local_wal id p s in (ASeq r.1, r.2)
  | RAppendRemote row vv => let r := append_remote_wal id row vv s in (AInserted r.1, r.2)
  | RWriteSnapshot c p => let r := write_snapshot id c p s in (ADone r.1, r.2)
  | RWriteAcked n => let r := write_acked_seq id n s in (ADone r.1, r.2)
  | RWriteKnown vv => let r := write_server_known_vv id vv s in (ADone r.1, r.2)
  | RPutInFlight p => let r := put_in_flight_push id p s in (ADone r.1, r.2)
  | RCompletePush q vv => let r := complete_push id q vv s in (ADone r.1, r.2)
  end.

(** The calls of several documents in sequence, each answer with its document. *)
Fixpoint serve_all {T : Type} `{LocalStorage T} (qs : list (Uuid * request)) (s : T)
    : list (Uuid * response) * T :=
  match qs with
  | [] => ([], s)
  | (id, q) :: qs =>
      let r := serve id q s in
      let rs := serve_all qs r.2 in
      ((id, r.1) :: rs.1, rs.2)
  end.

(** Arguments that are [u64]s, cutoffs that were once assigned. *)
Definition request_fits (q : request) : Prop :=
  match q with
  | RAppendRemote row _ => is_u64 (rw_server_seq row)
  | RWriteSnapshot c _ => is_i63 c
  | RWriteAcked n => is_u64 n
  | _ => True
  end.

(** One call through the contract. *)
Lemma serve_view {T : Type} {id : Uuid} `{StorageOk T id} q s :
  st_ok s -> is_i63 (mi_next_local_seq (view s) + 1) -> request_fits q ->
  (serve id q s).1 = (serve id q (view s)).1 /\ view (serve id q s).2 = (serve id q (view s)).2
  /\ st_ok (serve id q s).2.
Proof.
  intros Hs Hf Hq. destruct q; cbn [serve fst snd].
  - split_and!; [f_equal; by apply boot_view|done..].
  - destruct (append_local_view payload s Hs Hf) as (-> & -> & ?). by split_and!.
  - destruct (append_remote_view row server_known_vv s Hs Hf Hq) as (-> & -> & ?). by split_and!.
  - destruct (write_snapshot_view cutoff payload s Hs Hq) as (-> & -> & ?). by split_and!.
  - destruct (write_acked_view seq s Hs Hq) as (-> & -> & ?). by split_and!.
  - destruct (write_known_view vv s Hs) as (-> & -> & ?). by split_and!.
  - destruct (put_in_flight_view push s Hs) as (-> & -> & ?). by split_and!.
  - destruct (complete_push_view push_id server_known_vv s Hs) as (-> & -> & ?). by split_and!.
Qed.

(** A call assigns at most one local sequence number. *)
Lemma mem_next_step id q m :
  (mi_next_local_seq m <= mi_next_local_seq (serve id q m).2 <= mi_next_local_seq m + 1)%N.
Proof.
  destruct q; cbn; try lia. unfold mem_append_remote_wal. destruct (list_find _ _) as [[? ?]|]; cbn; lia.
Qed.
