(* ===== verification/Sqlite.v ===== *)
(** The sqlite storage (crates/storage-sqlite/src/lib.rs): its four tables as
    maps on their primary keys, the SQL of each method as operations on them,
    integers stored in signed 64-bit columns, and the proof that it keeps the
    [LocalStorage] contract: each document sees an in-memory storage, and no
    method touches another document's rows. *)
From S2P Require Import Prelude.
From S2P Require Import Wire.
From S2P Require Import Tables.
From S2P Require Import Storage.

(** ** Tables *)

Record DocsRow : Type := mkDocsRow { dr_last_acked : Z; dr_known_vv : option octets }.
Record WalTableRow : Type := mkWalTable { wt_server_seq : option Z; wt_payload : EncryptedBlob }.
Record SnapTableRow : Type := mkSnapTable { st_up_to : Z; st_payload : EncryptedBlob }.

Record Sqlite : Type := mkSqlite {
  t_docs : gmap Uuid DocsRow;
  t_wal : gmap (Uuid * Z) WalTableRow;
  t_snapshots : gmap Uuid SnapTableRow;
  t_in_flight : gmap Uuid InFlightPush;
}.

Definition with_docs f (db : Sqlite) : Sqlite :=
  mkSqlite (f (t_docs db)) (t_wal db) (t_snapshots db) (t_in_flight db).
Definition with_wal f (db : Sqlite) : Sqlite :=
  mkSqlite (t_docs db) (f (t_wal db)) (t_snapshots db) (t_in_flight db).
Definition with_snapshots f (db : Sqlite) : Sqlite :=
  mkSqlite (t_docs db) (t_wal db) (f (t_snapshots db)) (t_in_flight db).
Definition with_in_flight f (db : Sqlite) : Sqlite :=
  mkSqlite (t_docs db) (t_wal db) (t_snapshots db) (f (t_in_flight db)).

(** The rows of one document ordered by [local_seq]. *)
Definition select_wal (db : Sqlite) (id : Uuid) : list (Z * WalTableRow) := select (t_wal db) id.

(** [SELECT MAX(...)]: no rows give [NULL]. *)
Definition sql_max (l : list Z) : option Z :=
  match l with [] => None | z :: l => Some (foldr Z.max z l) end.

Definition max_local_seq (db : Sqlite) (id : Uuid) : N :=
  as_u64 (Z.max (default 0%Z (sql_max (select_wal db id).*1))
            (default 0%Z (st_up_to <$> t_snapshots db !! id))).

(** [INSERT OR IGNORE INTO docs]. *)
Definition ensure_doc (id : Uuid) (db : Sqlite) : Sqlite :=
  match t_docs db !! id with
  | Some _ => db
  | None => with_docs <[id := mkDocsRow 0 None]> db
  end.

(** [UPDATE docs SET ... WHERE id]: no row, no effect. *)
Definition update_doc (id : Uuid) (f : DocsRow -> DocsRow) (db : Sqlite) : Sqlite :=
  match t_docs db !! id with
  | Some row => with_docs <[id := f row]> db
  | None => db
  end.
Definition set_known_vv (id : Uuid) (vv : octets) : Sqlite -> Sqlite :=
  update_doc id (fun row => mkDocsRow (dr_last_acked row) (Some vv)).

(** [SELECT local_seq FROM wal WHERE doc_id AND server_seq]. *)
Definition find_server_seq (db : Sqlite) (id : Uuid) (q : Z) : option (Z * WalTableRow) :=
  snd <$> list_find (fun kv : Z * WalTableRow => wt_server_seq kv.2 = Some q) (select_wal db id).

(** [INSERT INTO wal] under the primary key and the unique index. *)
Definition insert_wal (id : Uuid) (seq : Z) (row : WalTableRow) (db : Sqlite)
    : result StorageError Sqlite :=
  if decide (is_Some (t_wal db !! (id, seq))) then Err (Backend "UNIQUE wal.doc_id, wal.local_seq")
  else match wt_server_seq row with
  | Some q =>
      match find_server_seq db id q with
      | Some _ => Err (Backend "UNIQUE wal.doc_id, wal.server_seq")
      | None => Ok (with_wal <[(id, seq) := row]> db)
      end
  | None => Ok (with_wal <[(id, seq) := row]> db)
  end.

(** ** The methods *)

Definition sqlite_boot (id : Uuid) (db : Sqlite) : result StorageError BootState :=
  let rows := select_wal db id in
  let replay := (fun kv : Z * WalTableRow => mkWalRow (as_u64 kv.1) (wt_payload kv.2)) <$> rows in
  let row := default (mkDocsRow 0 None) (t_docs db !! id) in
  Ok (mkBoot
    ((fun r => mkSnapRow (as_u64 (st_up_to r)) (st_payload r)) <$> t_snapshots db !! id)
    replay (max_local_seq db id) (as_u64 (dr_last_acked row)) (default [] (dr_known_vv row))
    (t_in_flight db !! id) (wal_bytes_of (wr_payload <$> replay))).

Definition sqlite_append_local_wal (id : Uuid) (payload : EncryptedBlob) : call Sqlite N := fun db =>
  let db := ensure_doc id db in
  let next := (max_local_seq db id + 1)%N in
  match insert_wal id (as_i64 next) (mkWalTable None payload) db with
  | Ok db' => (Ok next, db')
  | Err e => (Err e, db)
  end.

(** One transaction: an error leaves the tables as they were. *)
Definition sqlite_append_remote_wal (id : Uuid) (row : RemoteWalRow) (vv : octets)
    : call Sqlite (N * bool) := fun db0 =>
  let db := set_known_vv id vv (ensure_doc id db0) in
  match find_server_seq db id (as_i64 (rw_server_seq row)) with
  | Some (existing, _) => (Ok (as_u64 existing, false), db)
  | None =>
      let next := (max_local_seq db id + 1)%N in
      match insert_wal id (as_i64 next)
              (mkWalTable (Some (as_i64 (rw_server_seq row))) (rw_payload row)) db with
      | Ok db' => (Ok (next, true), db')
      | Err e => (Err e, db0)
      end
  end.

Definition sqlite_write_snapshot (id : Uuid) (cutoff : N) (payload : EncryptedBlob)
    : call Sqlite unit := fun db0 =>
  let db := ensure_doc id db0 in
  let high_water := as_i64 (max_local_seq db id) in
  let db := with_snapshots <[id := mkSnapTable high_water payload]> db in
  let keep (kv : (Uuid * Z) * WalTableRow) := ~ (kv.1.1 = id /\ (kv.1.2 <= as_i64 cutoff)%Z) in
  (Ok tt, with_wal (base.filter keep) db).

Definition sqlite_write_acked_seq (id : Uuid) (seq : N) : call Sqlite unit := fun db =>
  (Ok tt, update_doc id (fun row => mkDocsRow (as_i64 seq) (dr_known_vv row)) (ensure_doc id db)).

Definition sqlite_write_server_known_vv (id : Uuid) (vv : octets) : call Sqlite unit := fun db =>
  (Ok tt, set_known_vv id vv (ensure_doc id db)).

Definition sqlite_put_in_flight_push (id : Uuid) (push : InFlightPush) : call Sqlite unit := fun db =>
  (Ok tt, with_in_flight <[id := push]> (ensure_doc id db)).

Definition sqlite_complete_push (id push_id : Uuid) (vv : octets) : call Sqlite unit := fun db =>
  let db := set_known_vv id vv (ensure_doc id db) in
  (Ok tt, with_in_flight (fun t =>
     match t !! id with
     | Some p => if decide (if_push_id p = push_id) then delete id t else t
     | None => t
     end) db).

#[export] Instance sqlite_storage : LocalStorage Sqlite := {|
  boot := sqlite_boot;
  append_local_wal := sqlite_append_local_wal;
  append_remote_wal := sqlite_append_remote_wal;
  write_snapshot := sqlite_write_snapshot;
  write_acked_seq := sqlite_write_acked_seq;
  write_server_known_vv := sqlite_write_server_known_vv;
  put_in_flight_push := sqlite_put_in_flight_push;
  complete_push := sqlite_complete_push;
|}.

(** ** The selected rows *)

Lemma elem_of_select_wal db id l r : (l, r) ∈ select_wal db id <-> t_wal db !! (id, l) = Some r.
Proof. apply elem_of_select. Qed.
Lemma NoDup_select_wal db id : NoDup (select_wal db id).*1.
Proof. apply NoDup_select. Qed.
Lemma select_wal_sorted db id : StronglySorted row_le (select_wal db id).
Proof. apply select_sorted. Qed.
Lemma select_wal_unique db id rows :
  StronglySorted row_le rows -> NoDup rows.*1 ->
  (forall l r, (l, r) ∈ rows <-> t_wal db !! (id, l) = Some r) -> select_wal db id = rows.
Proof. apply select_unique. Qed.

(** ** A document as [MemStorage] *)

Record tables_ok (db : Sqlite) : Prop := {
  to_keys id l r : t_wal db !! (id, l) = Some r -> (0 < l < 2 ^ 63)%Z;
  to_range id l r q : t_wal db !! (id, l) = Some r -> wt_server_seq r = Some q -> i64_range q;
  to_snap id r : t_snapshots db !! id = Some r -> (0 <= st_up_to r < 2 ^ 63)%Z;
}.

Definition row_view (kv : Z * WalTableRow) : MemWalRow :=
  mkMemRow (as_u64 kv.1) (as_u64 <$> wt_server_seq kv.2) (wt_payload kv.2).

Definition sqlite_view (id : Uuid) (db : Sqlite) : MemInner :=
  let row := default (mkDocsRow 0 None) (t_docs db !! id) in
  mkMem (max_local_seq db id)
    ((fun r => mkSnapRow (as_u64 (st_up_to r)) (st_payload r)) <$> t_snapshots db !! id)
    (row_view <$> select_wal db id) (as_u64 (dr_last_acked row)) (default [] (dr_known_vv row))
    (t_in_flight db !! id).

(** The counter, before it is cast. *)
Definition high_water (db : Sqlite) (id : Uuid) : Z :=
  Z.max (foldr Z.max 0%Z (select_wal db id).*1) (default 0%Z (st_up_to <$> t_snapshots db !! id)).

Lemma foldr_max_bound l b : (0 <= b)%Z -> Forall (fun z => z <= b)%Z l -> (0 <= foldr Z.max 0%Z l <= b)%Z.
Proof. intros Hb. induction 1 as [|z l Hz _ IH]; cbn; lia. Qed.

Lemma foldr_max_ge l z : z ∈ l -> (z <= foldr Z.max 0%Z l)%Z.
Proof. induction l as [|x l IH]; [by intros ?%elem_of_nil|]. intros [->|Hz%IH]%elem_of_cons; cbn; lia. Qed.

Lemma sql_max_foldr l :
  Forall (fun z => 0 < z)%Z l -> default 0%Z (sql_max l) = foldr Z.max 0%Z l.
Proof.
  destruct l as [|z l]; [done|]. cbn [sql_max default from_option foldr id]. intros [Hz Hl]%Forall_cons.
  enough (foldr Z.max z l = Z.max z (foldr Z.max 0%Z l)) as -> by done.
  clear Hl. induction l as [|x l IH]; cbn; lia.
Qed.

Lemma select_keys db id z : tables_ok db -> z ∈ (select_wal db id).*1 -> (0 < z < 2 ^ 63)%Z.
Proof.
  intros Hok ([l r] & -> & Hin%elem_of_select_wal)%list_elem_of_fmap. by eapply to_keys.
Qed.

Lemma max_local_seq_ok db id :
  tables_ok db -> (0 <= high_water db id < 2 ^ 63)%Z /\ max_local_seq db id = Z.to_N (high_water db id).
Proof.
  intros Hok. assert (Hr : (0 <= high_water db id < 2 ^ 63)%Z).
  { unfold high_water. pose proof (foldr_max_bound (select_wal db id).*1 (2 ^ 63 - 1) ltac:(lia)) as Hb.
    assert (Hs : (0 <= default 0 (st_up_to <$> t_snapshots db !! id) < 2 ^ 63)%Z).
    { destruct (t_snapshots db !! id) as [r|] eqn:E; cbn; [by eapply to_snap|lia]. }
    enough (Forall (fun z => z <= 2 ^ 63 - 1)%Z (select_wal db id).*1) by (specialize (Hb H); lia).
    apply Forall_forall. intros z Hz%select_keys; [lia|done]. }
  split; [done|]. unfold max_local_seq. rewrite sql_max_foldr.
  - fold (high_water db id). apply as_u64_small. lia.
  - apply Forall_forall. intros z Hz%select_keys; [lia|done].
Qed.

(** *** Steps that leave the log alone *)

Lemma ensure_doc_same id db :
  t_wal (ensure_doc id db) = t_wal db /\ t_snapshots (ensure_doc id db) = t_snapshots db
  /\ t_in_flight (ensure_doc id db) = t_in_flight db
  /\ t_docs (ensure_doc id db) !! id = Some (default (mkDocsRow 0 None) (t_docs db !! id))
  /\ forall j, j <> id -> t_docs (ensure_doc id db) !! j = t_docs db !! j.
Proof.
  unfold ensure_doc. destruct (t_docs db !! id) as [row|] eqn:E; [done|].
  cbn. split_and!; [done..|by rewrite lookup_insert_eq|]. intros j Hj. by rewrite lookup_insert_ne.
Qed.

(** Two states with the same rows of a document show the same. *)
Definition same_log (id : Uuid) (db db' : Sqlite) : Prop :=
  (forall l, t_wal db' !! (id, l) = t_wal db !! (id, l)) /\ t_snapshots db' !! id = t_snapshots db !! id.

Lemma same_log_select id db db' : same_log id db db' -> select_wal db' id = select_wal db id.
Proof.
  intros [Hw _]. apply select_wal_unique.
  - apply select_wal_sorted.
  - apply NoDup_select_wal.
  - intros l r. by rewrite elem_of_select_wal, Hw.
Qed.

Lemma same_log_max id db db' : same_log id db db' -> max_local_seq db' id = max_local_seq db id.
Proof. intros Hs. unfold max_local_seq. by rewrite (same_log_select _ _ _ Hs), (proj2 Hs). Qed.

Lemma same_log_view id db db' :
  same_log id db db' -> t_docs db' !! id = t_docs db !! id -> t_in_flight db' !! id = t_in_flight db !! id ->
  sqlite_view id db' = sqlite_view id db.
Proof.
  intros Hs Hd Hi. unfold sqlite_view.
  by rewrite (same_log_max _ _ _ Hs), (same_log_select _ _ _ Hs), Hd, Hi, (proj2 Hs).
Qed.

(** The document's row rewritten. *)
Lemma update_doc_view id f db :
  t_docs (update_doc id f (ensure_doc id db)) !! id
    = Some (f (default (mkDocsRow 0 None) (t_docs db !! id)))
  /\ t_wal (update_doc id f (ensure_doc id db)) = t_wal db
  /\ t_snapshots (update_doc id f (ensure_doc id db)) = t_snapshots db
  /\ t_in_flight (update_doc id f (ensure_doc id db)) = t_in_flight db
  /\ forall j, j <> id -> t_docs (update_doc id f (ensure_doc id db)) !! j = t_docs db !! j.
Proof.
  destruct (ensure_doc_same id db) as (H1 & H2 & H3 & H4 & H5).
  unfold update_doc. rewrite H4. cbn. rewrite lookup_insert_eq. split_and!; [done..|].
  intros j Hj. rewrite lookup_insert_ne by done. by apply H5.
Qed.

Lemma tables_ok_same db db' :
  t_wal db' = t_wal db -> t_snapshots db' = t_snapshots db -> tables_ok db -> tables_ok db'.
Proof. intros Hw Hs [H1 H2 H3]. split; rewrite ?Hw, ?Hs; done. Qed.

(** *** Steps that append a row *)

(** A row of document [id] above all its others. *)
Lemma select_insert db id n row :
  tables_ok db -> (high_water db id < n)%Z ->
  select_wal (with_wal <[(id, n) := row]> db) id = select_wal db id ++ [(n, row)].
Proof.
  intros Hok Hn. assert (Hlt : forall l r, (l, r) ∈ select_wal db id -> (l < n)%Z).
  { intros l r Hin. assert (Hl : l ∈ (select_wal db id).*1) by (apply list_elem_of_fmap; by exists (l, r)).
    apply foldr_max_ge in Hl. unfold high_water in Hn. lia. }
  apply select_wal_unique.
  - pose proof (select_wal_sorted db id) as Hs. clear Hn. induction Hs as [|[l r] rows Hrows IH Hall]; cbn.
    + by repeat constructor.
    + constructor; [apply IH; intros l' r' Hin; apply (Hlt l' r'); by right|].
      apply Forall_app. split; [done|]. constructor; [|done]. unfold row_le. cbn.
      specialize (Hlt l r (list_elem_of_here _ _)). lia.
  - rewrite fmap_app. apply NoDup_app. split_and!; [apply NoDup_select_wal| |apply NoDup_singleton].
    intros l ([l' r] & -> & Hin%Hlt)%list_elem_of_fmap Hl%list_elem_of_singleton. cbn in *. lia.
  - intros l r. rewrite elem_of_app, list_elem_of_singleton, elem_of_select_wal. cbn.
    destruct (decide (l = n)) as [->|Hne].
    + rewrite lookup_insert_eq. split.
      * intros [Hin|[= ->]]; [|done]. apply elem_of_select_wal in Hin. apply Hlt in Hin. lia.
      * intros [= ->]. by right.
    + rewrite lookup_insert_ne by congruence. split; [intros [?|[= -> ->]]; done|by left].
Qed.

Lemma high_water_insert db id n row :
  tables_ok db -> (high_water db id < n)%Z -> high_water (with_wal <[(id, n) := row]> db) id = n.
Proof.
  intros Hok Hn. unfold high_water at 1. rewrite (select_insert db id n row Hok Hn), fmap_app, foldr_app.
  cbn [fmap list_fmap foldr fst with_wal t_snapshots]. unfold high_water in Hn.
  assert (Hk : foldr Z.max (Z.max n 0) (select_wal db id).*1 = Z.max n (foldr Z.max 0%Z (select_wal db id).*1)).
  { generalize (select_wal db id).*1. intros ks. induction ks as [|k ks IH]; cbn; lia. }
  rewrite Hk. lia.
Qed.

Lemma tables_ok_insert db id n row :
  tables_ok db -> (0 < n < 2 ^ 63)%Z -> (forall q, wt_server_seq row = Some q -> i64_range q) ->
  tables_ok (with_wal <[(id, n) := row]> db).
Proof.
  intros [H1 H2 H3] Hn Hq. split; cbn.
  - intros j l r. rewrite lookup_insert_Some. intros [[[= -> ->] ->]|[_ Hr]]; [done|by eapply H1].
  - intros j l r q. rewrite lookup_insert_Some. intros [[[= -> ->] ->]|[_ Hr]]; [apply Hq|by eapply H2].
  - done.
Qed.

(** The append both [append] methods end with. *)
Lemma insert_wal_view db id row :
  tables_ok db -> is_i63 (max_local_seq db id + 1) ->
  (forall q, wt_server_seq row = Some q -> i64_range q /\ find_server_seq db id q = None) ->
  let next := (max_local_seq db id + 1)%N in
  exists db', insert_wal id (as_i64 next) row db = Ok db' /\ tables_ok db'
  /\ sqlite_view id db' = let m := sqlite_view id db in
       mkMem next (mi_snapshot m) (mi_wal m ++ [mkMemRow next (as_u64 <$> wt_server_seq row) (wt_payload row)])
         (mi_last_acked_server_seq m) (mi_server_known_vv m) (mi_in_flight m).
Proof.
  intros Hok Hfit Hq next. destruct (max_local_seq_ok db id Hok) as [Hr Hm].
  assert (Hn : as_i64 next = (high_water db id + 1)%Z).
  { rewrite as_i64_small by done. unfold next. rewrite Hm. lia. }
  assert (Hfree : t_wal db !! (id, as_i64 next) = None).
  { destruct (t_wal db !! (id, as_i64 next)) as [r|] eqn:E; [|done]. exfalso.
    apply elem_of_select_wal in E. assert (Hin : as_i64 next ∈ (select_wal db id).*1)
      by (apply list_elem_of_fmap; by exists (as_i64 next, r)).
    apply foldr_max_ge in Hin. unfold high_water in Hn. lia. }
  unfold is_i63, next in Hfit. exists (with_wal <[(id, as_i64 next) := row]> db).
  unfold insert_wal. rewrite decide_False by (rewrite Hfree; by intros [? [=]]). split_and!.
  - destruct (wt_server_seq row) as [q|] eqn:E; [|done]. by rewrite (proj2 (Hq q eq_refl)).
  - apply tables_ok_insert; [done|lia|]. intros q Eq. by apply Hq.
  - assert (Hok' : tables_ok (with_wal <[(id, as_i64 next) := row]> db))
      by (apply tables_ok_insert; [done|lia|]; intros q Eq; by apply Hq).
    unfold sqlite_view. cbn [t_docs t_snapshots t_in_flight with_wal mi_snapshot mi_wal
      mi_last_acked_server_seq mi_server_known_vv mi_in_flight].
    rewrite (proj2 (max_local_seq_ok _ id Hok')), high_water_insert, select_insert, fmap_app by (done || lia).
    f_equal; [lia|]. cbn. unfold row_view. cbn. repeat f_equal. rewrite as_u64_small by lia. lia.
Qed.

(** *** The duplicate lookup *)

Lemma find_view db id n :
  tables_ok db -> is_u64 n ->
  list_find (fun r => mw_server_seq r = Some n) (mi_wal (sqlite_view id db))
  = prod_map (fun i => i) row_view <$>
      list_find (fun kv : Z * WalTableRow => wt_server_seq kv.2 = Some (as_i64 n)) (select_wal db id).
Proof.
  intros Hok Hn. cbn [mi_wal sqlite_view].
  assert (Hin : forall l r, (l, r) ∈ select_wal db id -> t_wal db !! (id, l) = Some r)
    by (intros l r; by rewrite elem_of_select_wal).
  induction (select_wal db id) as [|[l r] rows IH]; [done|].
  cbn [fmap list_fmap list_find]. unfold row_view at 1. cbn [mw_server_seq fst snd].
  assert (Hdec : (as_u64 <$> wt_server_seq r = Some n) <-> wt_server_seq r = Some (as_i64 n)).
  { destruct (wt_server_seq r) as [q|] eqn:E; cbn; [|done]. split.
    - intros [= <-]. f_equal. symmetry. apply as_i64_u64. eapply (to_range _ Hok id l r); [|done].
      apply Hin. by left.
    - intros [= ->]. by rewrite as_u64_i64. }
  repeat case_decide; try tauto. rewrite IH.
  - by destruct (list_find _ rows) as [[? ?]|].
  - intros l' r' H'. apply Hin. by right.
Qed.

(** *** The contract *)

Lemma sqlite_append_local_view id p db :
  tables_ok db -> is_i63 (mi_next_local_seq (sqlite_view id db) + 1) ->
  let r := sqlite_append_local_wal id p db in
  let r' := mem_append_local_wal id p (sqlite_view id db) in
  r.1 = r'.1 /\ sqlite_view id r.2 = r'.2 /\ tables_ok r.2.
Proof.
  intros Hok Hfit. destruct (ensure_doc_same id db) as (H1 & H2 & H3 & H4 & H5).
  assert (Hv : sqlite_view id (ensure_doc id db) = sqlite_view id db).
  { unfold sqlite_view. rewrite H4, H2, H3. assert (Hs : same_log id db (ensure_doc id db)) by (split; [by rewrite H1|by rewrite H2]).
    by rewrite (same_log_max _ _ _ Hs), (same_log_select _ _ _ Hs). }
  assert (Hok' : tables_ok (ensure_doc id db)) by by apply (tables_ok_same db).
  assert (Hm : max_local_seq (ensure_doc id db) id = max_local_seq db id).
  { apply same_log_max. split; [by rewrite H1|by rewrite H2]. }
  destruct (insert_wal_view (ensure_doc id db) id (mkWalTable None p) Hok') as (db' & E & Ho & Ev).
  - rewrite Hm. exact Hfit.
  - done.
  - unfold sqlite_append_local_wal, mem_append_local_wal. cbn zeta in E, Ev. rewrite E. cbn [fst snd].
    rewrite Ev, Hv, Hm. by split_and!.
Qed.

Lemma sqlite_append_remote_view id row vv db :
  tables_ok db -> is_i63 (mi_next_local_seq (sqlite_view id db) + 1) -> is_u64 (rw_server_seq row) ->
  let r := sqlite_append_remote_wal id row vv db in
  let r' := mem_append_remote_wal id row vv (sqlite_view id db) in
  r.1 = r'.1 /\ sqlite_view id r.2 = r'.2 /\ tables_ok r.2.
Proof.
  intros Hok Hfit Hu. set (db1 := set_known_vv id vv (ensure_doc id db)).
  destruct (update_doc_view id (fun row => mkDocsRow (dr_last_acked row) (Some vv)) db)
    as (U1 & U2 & U3 & U4 & U5). fold (set_known_vv id vv) in U1, U2, U3, U4, U5. fold db1 in U1, U2, U3, U4, U5.
  assert (Hs : same_log id db db1) by (split; [by rewrite U2|by rewrite U3]).
  assert (Hok1 : tables_ok db1) by by apply (tables_ok_same db).
  assert (Hv : sqlite_view id db1 = let m := sqlite_view id db in
     mkMem (mi_next_local_seq m) (mi_snapshot m) (mi_wal m) (mi_last_acked_server_seq m) vv (mi_in_flight m)).
  { unfold sqlite_view. rewrite U1, U3, U4, (same_log_max _ _ _ Hs), (same_log_select _ _ _ Hs). done. }
  unfold sqlite_append_remote_wal, mem_append_remote_wal. fold db1.
  pose proof (find_view db1 id _ Hok1 Hu) as Hf. rewrite Hv in Hf. cbn [mi_wal] in Hf. rewrite Hf.
  unfold find_server_seq. destruct (list_find _ (select_wal db1 id)) as [[i [l r]]|] eqn:E; cbn.
  - split_and!; [done|by rewrite Hv|done].
  - destruct (insert_wal_view db1 id (mkWalTable (Some (as_i64 (rw_server_seq row))) (rw_payload row)) Hok1)
      as (db' & Ei & Ho & Ev).
    + rewrite (same_log_max _ _ _ Hs). exact Hfit.
    + cbn. intros q [= <-]. split; [apply as_i64_range|]. unfold find_server_seq. by rewrite E.
    + cbn zeta in Ei, Ev. rewrite Ei. cbn. rewrite Ev, Hv, (same_log_max _ _ _ Hs). cbn.
      rewrite as_u64_i64 by done. done.
Qed.

Lemma sqlite_write_snapshot_view id c p db :
  tables_ok db -> is_i63 c ->
  let r := sqlite_write_snapshot id c p db in
  let r' := mem_write_snapshot id c p (sqlite_view id db) in
  r.1 = r'.1 /\ sqlite_view id r.2 = r'.2 /\ tables_ok r.2.
Proof.
  intros Hok Hc. destruct (ensure_doc_same id db) as (H1 & H2 & H3 & H4 & H5).
  destruct (max_local_seq_ok db id Hok) as [Hr Hm].
  assert (Hmax : max_local_seq (ensure_doc id db) id = max_local_seq db id)
    by (apply same_log_max; split; [by rewrite H1|by rewrite H2]).
  unfold sqlite_write_snapshot, mem_write_snapshot. cbn [fst snd]. rewrite Hmax.
  set (db' := with_wal _ _). assert (Ehw : as_i64 (max_local_seq db id) = high_water db id).
  { rewrite as_i64_small by (unfold is_i63; lia). rewrite Hm. lia. }
  assert (Hlk : forall l r, t_wal db' !! (id, l) = Some r <-> t_wal db !! (id, l) = Some r /\ (as_i64 c < l)%Z).
  { intros l r. unfold db'. cbn. rewrite H1, map_lookup_filter_Some. cbn.
    split; intros [Ha Hb]; (split; [done|]); [lia|]. intros [_ ?]. lia. }
  assert (Hok' : tables_ok db').
  { destruct Hok as [K1 K2 K3]. split.
    - intros j l r Hl. unfold db' in Hl. cbn in Hl. rewrite H1, map_lookup_filter_Some in Hl. by eapply K1, Hl.
    - intros j l r q Hl. unfold db' in Hl. cbn in Hl. rewrite H1, map_lookup_filter_Some in Hl. by eapply K2, Hl.
    - intros j r. unfold db'. cbn. rewrite H2, lookup_insert_Some. intros [[<- <-]|[_ Hj]]; [|by eapply K3].
      cbn. by rewrite Ehw. }
  assert (Hsel : select_wal db' id = base.filter (fun kv : Z * WalTableRow => (as_i64 c < kv.1)%Z) (select_wal db id)).
  { apply select_wal_unique.
    - apply StronglySorted_filter, select_wal_sorted.
    - pose proof (NoDup_select_wal db id) as Hn. eapply sublist_NoDup; [exact Hn|].
      apply fmap_sublist, sublist_filter.
    - intros l r. rewrite list_elem_of_filter, elem_of_select_wal, Hlk. cbn. tauto. }
  split_and!; [done| |done]. unfold sqlite_view. f_equal.
  - rewrite (proj2 (max_local_seq_ok db' id Hok')), Hm. f_equal. unfold high_water at 1.
    unfold db' at 2. cbn [t_snapshots with_wal with_snapshots]. rewrite lookup_insert_eq. cbn -[Z.max select_wal high_water foldr].
    rewrite Ehw. enough (foldr Z.max 0 (select_wal db' id).*1 <= high_water db id)%Z by lia.
    apply foldr_max_bound; [lia|]. apply Forall_forall. intros z ([l r] & -> & Hin)%list_elem_of_fmap.
    apply elem_of_select_wal, Hlk in Hin as [Hin _]. apply elem_of_select_wal in Hin. unfold high_water.
    assert (Hz : l ∈ (select_wal db id).*1) by (apply list_elem_of_fmap; by exists (l, r)).
    apply foldr_max_ge in Hz. cbn. lia.
  - unfold db'. cbn. rewrite lookup_insert_eq. cbn. by rewrite Ehw, as_u64_small, Hm by lia.
  - rewrite Hsel. clear Hsel. cbn [mi_wal].
    assert (Hin : forall l r, (l, r) ∈ select_wal db id -> (0 < l < 2 ^ 63)%Z)
      by (intros l r Hl%elem_of_select_wal; by eapply (to_keys _ Hok)).
    induction (select_wal db id) as [|[l r] rows IH]; [done|].
    assert (Hl := Hin l r (list_elem_of_here _ _)).
    assert (IH' := IH (fun l r H => Hin l r (list_elem_of_further _ _ _ H))). clear IH.
    rewrite !fmap_cons, !filter_cons. cbn [fst row_view mw_local_seq].
    assert (Hd : (c < mw_local_seq (row_view (l, r)))%N <-> (as_i64 c < l)%Z).
    { cbn. rewrite as_u64_small, as_i64_small by (done || lia). lia. }
    repeat case_decide; try tauto; rewrite ?fmap_cons, IH'; done.
  - unfold db'. cbn. by rewrite H4.
  - unfold db'. cbn. by rewrite H4.
  - unfold db'. cbn. by rewrite H3.
Qed.

Lemma sqlite_set_vv_view id vv db :
  let m := sqlite_view id db in
  sqlite_view id (set_known_vv id vv (ensure_doc id db))
  = mkMem (mi_next_local_seq m) (mi_snapshot m) (mi_wal m) (mi_last_acked_server_seq m) vv (mi_in_flight m).
Proof.
  destruct (update_doc_view id (fun row => mkDocsRow (dr_last_acked row) (Some vv)) db)
    as (U1 & U2 & U3 & U4 & _). fold (set_known_vv id vv) in U1, U2, U3, U4.
  assert (Hs : same_log id db (set_known_vv id vv (ensure_doc id db))) by (split; [by rewrite U2|by rewrite U3]).
  unfold sqlite_view. by rewrite U1, U3, U4, (same_log_max _ _ _ Hs), (same_log_select _ _ _ Hs).
Qed.

#[export] Instance sqlite_storage_ok id : StorageOk Sqlite id.
Proof.
  refine {| view := sqlite_view id; st_ok := tables_ok |}.
  - intros db Hok. cbn [boot sqlite_storage]. unfold sqlite_boot, mem_boot. f_equal.
    cbn [sqlite_view mi_wal mi_snapshot mi_next_local_seq mi_last_acked_server_seq mi_server_known_vv mi_in_flight].
    rewrite <- !list_fmap_compose. done.
  - apply sqlite_append_local_view.
  - apply sqlite_append_remote_view.
  - apply sqlite_write_snapshot_view.
  - intros n db Hok Hn. cbn [write_acked_seq sqlite_storage].
    destruct (update_doc_view id (fun row => mkDocsRow (as_i64 n) (dr_known_vv row)) db) as (U1 & U2 & U3 & U4 & _).
    unfold sqlite_write_acked_seq, mem_write_acked_seq. cbn [fst snd]. split_and!; [done| |by apply (tables_ok_same db)].
    assert (Hs : same_log id db (update_doc id (fun row => mkDocsRow (as_i64 n) (dr_known_vv row)) (ensure_doc id db)))
      by (split; [by rewrite U2|by rewrite U3]).
    unfold sqlite_view. rewrite U1, U3, U4, (same_log_max _ _ _ Hs), (same_log_select _ _ _ Hs). cbn.
    by rewrite as_u64_i64.
  - intros vv db Hok. cbn [write_server_known_vv sqlite_storage].
    destruct (update_doc_view id (fun row => mkDocsRow (dr_last_acked row) (Some vv)) db) as (_ & U2 & U3 & _).
    unfold sqlite_write_server_known_vv, mem_write_server_known_vv. cbn [fst snd]. rewrite sqlite_set_vv_view.
    split_and!; [done..|by apply (tables_ok_same db)].
  - intros p db Hok. cbn [put_in_flight_push sqlite_storage].
    destruct (ensure_doc_same id db) as (H1 & H2 & H3 & H4 & _).
    unfold sqlite_put_in_flight_push, mem_put_in_flight_push. cbn [fst snd].
    split_and!; [done| |by apply (tables_ok_same db)].
    assert (Hs : same_log id db (with_in_flight <[id := p]> (ensure_doc id db)))
      by (split; [by cbn; rewrite H1|by cbn; rewrite H2]).
    unfold sqlite_view. rewrite (same_log_max _ _ _ Hs), (same_log_select _ _ _ Hs). cbn.
    by rewrite H4, H2, lookup_insert_eq.
  - intros q vv db Hok. cbn [complete_push sqlite_storage].
    unfold sqlite_complete_push, mem_complete_push. cbn [fst snd].
    set (db1 := set_known_vv id vv (ensure_doc id db)). set (db2 := with_in_flight _ db1).
    destruct (update_doc_view id (fun row => mkDocsRow (dr_last_acked row) (Some vv)) db) as (_ & U2 & U3 & U4 & _).
    fold (set_known_vv id vv) in U2, U3, U4. fold db1 in U2, U3, U4.
    split_and!; [done| |by apply (tables_ok_same db)].
    assert (Hs : same_log id db1 db2) by done.
    transitivity (let m := sqlite_view id db1 in mkMem (mi_next_local_seq m) (mi_snapshot m) (mi_wal m)
      (mi_last_acked_server_seq m) (mi_server_known_vv m) (t_in_flight db2 !! id)).
    + unfold sqlite_view. by rewrite (same_log_max _ _ _ Hs), (same_log_select _ _ _ Hs).
    + unfold db1. rewrite sqlite_set_vv_view. cbn zeta. cbn [mi_next_local_seq mi_snapshot mi_wal
        mi_last_acked_server_seq mi_server_known_vv mi_in_flight sqlite_view]. f_equal.
      unfold db2. cbn [t_in_flight with_in_flight]. rewrite U4.
      destruct (t_in_flight db !! id) as [p|] eqn:E; cbn; [|by rewrite E].
      destruct (decide (if_push_id p = q)) as [->|Hne]; [by rewrite lookup_delete_eq, decide_True|].
      rewrite E, decide_False by congruence. done.
Defined.

(** *** The other documents *)

Lemma same_log_refl_other id j f db : j <> id -> same_log j db (with_docs f db).
Proof. done. Qed.

(** A call on one document leaves what the others see. *)
Lemma serve_other id j q db :
  j <> id -> sqlite_view j (serve id q db).2 = sqlite_view j db.
Proof.
  intros Hj. destruct (ensure_doc_same id db) as (H1 & H2 & H3 & _ & H5).
  assert (Hset : forall f, sqlite_view j (update_doc id f (ensure_doc id db)) = sqlite_view j db).
  { intros f. destruct (update_doc_view id f db) as (_ & U2 & U3 & U4 & U5).
    apply same_log_view; [split; [by rewrite U2|by rewrite U3]|by apply U5|by rewrite U4]. }
  assert (Hens : sqlite_view j (ensure_doc id db) = sqlite_view j db).
  { apply same_log_view; [split; [by rewrite H1|by rewrite H2]|by apply H5|by rewrite H3]. }
  assert (Hins : forall l row db1 db2, insert_wal id l row db1 = Ok db2 -> sqlite_view j db2 = sqlite_view j db1).
  { intros l row db1 db2. unfold insert_wal. case_decide; [done|].
    assert (Hw : sqlite_view j (with_wal <[(id, l) := row]> db1) = sqlite_view j db1).
    { apply same_log_view; [|done..]. split; [|done]. intros l'. cbn. rewrite lookup_insert_ne by congruence. done. }
    destruct (wt_server_seq row) as [z|]; [destruct (find_server_seq db1 id z)|]; intros E;
      [done|injection E as <-; exact Hw..]. }
  destruct q; cbn [serve fst snd]; cbn -[sqlite_view serve set_known_vv].
  - done.
  - unfold sqlite_append_local_wal. destruct (insert_wal _ _ _ _) eqn:E; cbn [snd]; [|done].
    by rewrite (Hins _ _ _ _ E).
  - unfold sqlite_append_remote_wal. destruct (find_server_seq _ _ _) as [[? ?]|]; cbn [snd]; [apply Hset|].
    destruct (insert_wal _ _ _ _) eqn:E; cbn [snd]; [|done]. rewrite (Hins _ _ _ _ E). apply Hset.
  - rewrite <- Hens. apply same_log_view; [|done..]. split.
    + intros l. apply option_eq. intros r. cbn. rewrite map_lookup_filter_Some. cbn.
      split; [by intros [? _]|]. intros Hl. split; [done|]. intros [? _]. congruence.
    + cbn. by rewrite lookup_insert_ne.
  - apply Hset.
  - apply Hset.
  - rewrite <- Hens. apply same_log_view; [done|done|]. cbn. by rewrite lookup_insert_ne.
  - transitivity (sqlite_view j (set_known_vv id server_known_vv (ensure_doc id db))); [|apply Hset].
    apply same_log_view; [done|done|]. cbn. destruct (t_in_flight _ !! id) as [p|]; [|done].
    case_decide; [|done]. by rewrite lookup_delete_ne.
Qed.

(** C30: The sqlite file is one in-memory storage per document: whatever the calls
    and however the documents' calls are interleaved, each document's calls
    are answered as [MemStorage] answers them alone, and leave what it leaves.
    Counters stay below 2^63. *)
Theorem sqlite_serves_each_doc db qs id :
  tables_ok db -> Forall (fun q => request_fits q.2) qs ->
  (forall j, is_i63 (max_local_seq db j + N.of_nat (length qs))) ->
  let mine := base.filter (fun q : Uuid * request => q.1 = id) qs in
  base.filter (fun r : Uuid * response => r.1 = id) (serve_all qs db).1
    = (serve_all mine (sqlite_view id db)).1
  /\ sqlite_view id (serve_all qs db).2 = (serve_all mine (sqlite_view id db)).2
  /\ tables_ok (serve_all qs db).2.
Proof.
  revert db. induction qs as [|[j q] qs IH]; intros db Hok Hq Hfit; [done|].
  apply Forall_cons in Hq as [Hq Hqs]. cbn [length] in Hfit.
  assert (Hroom : is_i63 (mi_next_local_seq (sqlite_view j db) + 1)).
  { specialize (Hfit j). unfold is_i63 in *. cbn [sqlite_view mi_next_local_seq]. lia. }
  destruct (serve_view (T := Sqlite) (H0 := sqlite_storage_ok j) q db Hok Hroom Hq) as (Er & Ev & Hok').
  change (view (serve j q db).2) with (sqlite_view j (serve j q db).2) in Ev.
  change (view db) with (sqlite_view j db) in Er, Ev.
  destruct (IH (serve j q db).2 Hok' Hqs) as (I1 & I2 & I3).
  { intros i. assert (Hn : (max_local_seq (serve j q db).2 i <= max_local_seq db i + 1)%N).
    { change (max_local_seq ?d i) with (mi_next_local_seq (sqlite_view i d)).
      destruct (decide (i = j)) as [->|Hne].
      - rewrite Ev. apply mem_next_step.
      - rewrite serve_other by done. lia. }
    specialize (Hfit i). unfold is_i63 in *. lia. }
  cbn [serve_all fst snd]. rewrite !filter_cons. cbn [fst].
  destruct (decide (j = id)) as [->|Hne].
  - cbn [serve_all fst snd]. rewrite I1, I2, Ev, Er. by split_and!.
  - rewrite I1, I2, serve_other by done. by split_and!.
Qed.

Definition sqlite_empty : Sqlite := mkSqlite ∅ ∅ ∅ ∅.

Lemma sqlite_empty_ok : tables_ok sqlite_empty.
Proof. split; cbn; intros *; by rewrite lookup_empty. Qed.

Definition some_blob (n : N) : EncryptedBlob := mkBlob [n] [n; n].

(** Two documents interleaved: a local and a remote row, a redelivery, a fold,
    and an append after it. *)
Definition sample_calls : list (Uuid * request) :=
  [(1, RAppendLocal (some_blob 1)); (2, RAppendRemote (mkRemote 7 (some_blob 2)) [1]);
   (1, RAppendRemote (mkRemote 7 (some_blob 3)) [2]); (1, RAppendRemote (mkRemote 7 (some_blob 3)) [3]);
   (1, RWriteSnapshot 1 (some_blob 4)); (2, RWriteSnapshot 1 (some_blob 5));
   (1, RAppendLocal (some_blob 6)); (1, RBoot)]%N.

Lemma sqlite_serves_each_doc_witness :
  base.filter (fun r : Uuid * response => r.1 = 1%N) (serve_all sample_calls sqlite_empty).1
  = (serve_all (base.filter (fun q : Uuid * request => q.1 = 1%N) sample_calls) mem_default).1
  /\ last (serve_all sample_calls sqlite_empty).1
     = Some (1, ABoot (Ok (mkBoot (Some (mkSnapRow 2 (some_blob 4)))
         [mkWalRow 2 (some_blob 3); mkWalRow 3 (some_blob 6)] 3 0 [3] None 6)))%N.
Proof.
  split; [|vm_compute; reflexivity].
  destruct (sqlite_serves_each_doc sqlite_empty sample_calls 1%N sqlite_empty_ok) as (H & _ & _).
  - unfold sample_calls. repeat constructor; vm_compute; reflexivity.
  - intros j. rewrite (proj2 (max_local_seq_ok sqlite_empty j sqlite_empty_ok)).
    assert (E : high_water sqlite_empty j = 0%Z) by reflexivity. rewrite E. unfold is_i63. cbn. lia.
  - exact H.
Defined.
