(* ===== verification/SyncDoc.v ===== *)
(** The replication side of a document (core/src/doc.rs, the update stream;
    core/src/storage.rs, boot): what the sync engine sees of [Doc], namely its
    Loro oplog and the capture cursor [last_persisted_vv], the blobs it
    exports and imports, and the reconstruction of a document from stored
    rows. Version vectors, the oplog and its binary formats are Loro's:
    parameters with their documented laws. *)
From S2P Require Import Prelude.
From S2P Require Import Wire.
From S2P Require Import Crypto.
From S2P Require Import Registers.
From S2P Require Import Tables.
From S2P Require Import Storage.

(** ** Loro's oplog *)

Class Oplog : Type := {
  VV : Type;
  VV_eq_dec : EqDecision VV;
  vv_default : VV;
  vv_merge : VV -> VV -> VV;
  vv_includes : VV -> VV -> bool;
  vv_encode : VV -> octets;
  vv_decode : octets -> result string VV;
  LoroDoc : Type;
  loro_empty : LoroDoc;
  oplog_vv : LoroDoc -> VV;
  export_updates : VV -> LoroDoc -> result string octets;
  export_snapshot : LoroDoc -> result string octets;
  fork_at : VV -> LoroDoc -> result string LoroDoc;
  export_between : VV -> VV -> LoroDoc -> result string octets;
  import_with : octets -> LoroDoc -> result string LoroDoc;
  blob_end_vv : octets -> result string VV;
}.
#[export] Existing Instance VV_eq_dec.

(** [a] holds no operation that [b] lacks. *)
Definition vle `{Oplog} (a b : VV) : Prop := vv_includes b a = true.
Infix "⊑v" := vle (at level 70, no associativity).

(** Documented behaviour. Version vectors are a join-semilattice with an
    encoding (never the empty slice). An export of the updates past [from]
    declares a range inside the oplog that completes [from], and depends on
    operations of [from] only; a snapshot declares the whole oplog and depends
    on nothing. Importing a blob whose dependencies are present adds its
    declared range; importing never loses operations, and a document imports
    every exported blob. *)
Class OplogOk `{Oplog} : Type := {
  vle_refl a : a ⊑v a;
  vle_trans a b c : a ⊑v b -> b ⊑v c -> a ⊑v c;
  vle_antisym a b : a ⊑v b -> b ⊑v a -> a = b;
  vle_default a : vv_default ⊑v a;
  vle_merge_l a b : a ⊑v vv_merge a b;
  vle_merge_r a b : b ⊑v vv_merge a b;
  vle_merge a b c : a ⊑v c -> b ⊑v c -> vv_merge a b ⊑v c;
  vv_decode_encode a : vv_decode (vv_encode a) = Ok a;
  vv_encode_ne a : vv_encode a <> [];
  (** The operations a blob builds on, and that it came out of an export. *)
  blob_base : octets -> VV;
  exported : octets -> Prop;
  oplog_empty : oplog_vv loro_empty = vv_default;
  export_updates_law from d b : export_updates from d = Ok b ->
    exported b /\ exists e, blob_end_vv b = Ok e /\ e ⊑v oplog_vv d /\ oplog_vv d ⊑v vv_merge from e
    /\ blob_base b ⊑v from;
  export_snapshot_law d b : export_snapshot d = Ok b ->
    exported b /\ blob_end_vv b = Ok (oplog_vv d) /\ blob_base b ⊑v vv_default;
  export_between_law from to d b : export_between from to d = Ok b -> to ⊑v oplog_vv d ->
    exported b /\ exists e, blob_end_vv b = Ok e /\ e ⊑v to /\ to ⊑v vv_merge from e
    /\ blob_base b ⊑v from;
  fork_at_law v d d' : fork_at v d = Ok d' -> v ⊑v oplog_vv d -> oplog_vv d' = v;
  import_law b d d' e : import_with b d = Ok d' -> blob_end_vv b = Ok e ->
    oplog_vv d ⊑v oplog_vv d' /\ (blob_base b ⊑v oplog_vv d -> e ⊑v oplog_vv d');
  import_exported b d : exported b -> exists d', import_with b d = Ok d';
  exported_end b : exported b -> exists e, blob_end_vv b = Ok e;
}.

(** ** The document *)

Record SyncDoc `{Oplog} : Type := mkSyncDoc {
  sd_inner : LoroDoc;
  sd_last_persisted_vv : VV;
}.
Arguments mkSyncDoc {_}.

(** The random bytes of each seal and the fresh push ids, in drawing order. *)
Class Entropy : Type := { nonce_at : nat -> octets; uuid_at : nat -> Uuid }.
Class EntropyOk `{Entropy} : Prop := {
  nonce_length n : length (nonce_at n) = AEAD_NONCE_LEN;
  uuid_at_inj i j : uuid_at i = uuid_at j -> i = j;
}.

Section doc.
Context `{Cipher, Oplog}.
Implicit Types (d : SyncDoc) (dek : Dek) (nonce : octets).

Definition doc_oplog_vv d : VV := oplog_vv (sd_inner d).
Definition has_uncaptured_ops d : bool := negb (bool_decide (doc_oplog_vv d = sd_last_persisted_vv d)).

(** [?] on a Loro result. *)
Definition loro {A} (r : result string A) : result DocError A :=
  match r with Ok a => Ok a | Err e => Err (ELoro e) end.
Definition crypto {A} (r : result CryptoError A) : result DocError A :=
  match r with Ok a => Ok a | Err e => Err (ECrypto e) end.

Definition seal_blob dek nonce (plaintext : octets) : result DocError EncryptedBlob :=
  let? r := crypto (seal dek plaintext nonce) in Ok (mkBlob r.2 r.1).

Definition snapshot_blob dek nonce d : result DocError EncryptedBlob :=
  let? plaintext := loro (export_snapshot (sd_inner d)) in seal_blob dek nonce plaintext.

Definition pending_export dek nonce d : result DocError (option EncryptedBlob) :=
  if negb (has_uncaptured_ops d) then Ok None
  else
    let? plaintext := loro (export_updates (sd_last_persisted_vv d) (sd_inner d)) in
    let? blob := seal_blob dek nonce plaintext in Ok (Some blob).

Definition export_updates_since dek nonce (from : VV) d : result DocError (option EncryptedBlob) :=
  if vv_includes from (doc_oplog_vv d) then Ok None
  else
    let? plaintext := loro (export_updates from (sd_inner d)) in
    if decide (plaintext = []) then Ok None
    else let? blob := seal_blob dek nonce plaintext in Ok (Some blob).

Definition snapshot_blob_at dek nonce (vv : VV) d : result DocError EncryptedBlob :=
  let? fork := loro (fork_at vv (sd_inner d)) in
  let? plaintext := loro (export_snapshot fork) in seal_blob dek nonce plaintext.

Definition delta_blob_between dek nonce (from to : VV) d : result DocError EncryptedBlob :=
  if negb (vv_includes to from) then
    Err (Invalid "delta base is not included in the target frontier")
  else
    let? plaintext := loro (export_between from to (sd_inner d)) in seal_blob dek nonce plaintext.

Definition mark_persisted_at (vv : VV) d : SyncDoc :=
  mkSyncDoc (sd_inner d) (vv_merge (sd_last_persisted_vv d) vv).
Definition mark_persisted d : SyncDoc := mark_persisted_at (doc_oplog_vv d) d.

(** A failing step leaves the document as it was. *)
Definition import_remote_blob dek (blob : EncryptedBlob) d : result DocError VV * SyncDoc :=
  if negb (bool_decide (length (eb_nonce blob) = AEAD_NONCE_LEN)) then
    (Err (Invalid "expected 24-byte nonce"), d)
  else
    match crypto (open_ dek (eb_ciphertext blob) (eb_nonce blob)) with
    | Err e => (Err e, d)
    | Ok plaintext =>
        match loro (blob_end_vv plaintext) with
        | Err e => (Err e, d)
        | Ok partial_end_vv =>
            match loro (import_with plaintext (sd_inner d)) with
            | Err e => (Err e, d)
            | Ok inner =>
                (Ok partial_end_vv,
                 mkSyncDoc inner (vv_merge (sd_last_persisted_vv d) partial_end_vv))
            end
        end
    end.

(** A failing blob ends the batch; the blobs before it stay imported. *)
Fixpoint import_batch dek (blobs : list EncryptedBlob) (imported_vv : VV) d
    : result DocError VV * SyncDoc :=
  match blobs with
  | [] => (Ok imported_vv, d)
  | blob :: blobs =>
      match import_remote_blob dek blob d with
      | (Ok vv, d) => import_batch dek blobs (vv_merge imported_vv vv) d
      | (Err e, d) => (Err e, d)
      end
  end.

Definition apply_remote_batch dek (blobs : list EncryptedBlob) d : result DocError VV * SyncDoc :=
  import_batch dek blobs vv_default d.

(** ** From storage *)

Inductive BootError : Type := BootStorage (e : StorageError) | BootDoc (e : DocError).

Definition sync_doc_empty : SyncDoc := mkSyncDoc loro_empty (oplog_vv loro_empty).

Definition stored_blobs (b : BootState) : list EncryptedBlob :=
  match bs_snapshot b with Some s => [sr_payload s] | None => [] end ++ (wr_payload <$> bs_replay b).

Definition boot_doc {T : Type} `{LocalStorage T} (s : T) dek (doc_id : Uuid) : result BootError (SyncDoc * BootMeta) :=
  match boot doc_id s with
  | Err e => Err (BootStorage e)
  | Ok b =>
      if decide (stored_blobs b = []) then Ok (sync_doc_empty, boot_meta b)
      else
        match apply_remote_batch dek (stored_blobs b) sync_doc_empty with
        | (Err e, _) => Err (BootDoc e)
        | (Ok _, d) => Ok (d, boot_meta b)
        end
  end.

Definition load_doc {T : Type} `{LocalStorage T} (s : T) dek (doc_id : Uuid) : result BootError SyncDoc :=
  let? r := boot_doc s dek doc_id in Ok r.1.

Definition has_unsynced_ops {T : Type} `{LocalStorage T} (s : T) dek (doc_id : Uuid) : result BootError bool :=
  let? r := boot_doc s dek doc_id in
  if decide (is_Some (bm_in_flight_push r.2)) then Ok true
  else
    let? server_known_vv :=
      if decide (bm_server_known_vv r.2 = []) then Ok vv_default
      else match vv_decode (bm_server_known_vv r.2) with
           | Ok v => Ok v
           | Err _ => Err (BootStorage (Backend "decode server_known_vv"))
           end in
    Ok (negb (vv_includes server_known_vv (doc_oplog_vv r.1))).

Definition seed_snapshot {T : Type} `{LocalStorage T} (s : T) dek nonce (doc_id : Uuid) d
    : result BootError unit * T :=
  match snapshot_blob dek nonce d with
  | Err e => (Err (BootDoc e), s)
  | Ok blob =>
      let r := write_snapshot doc_id 0 blob s in
      (match r.1 with Ok _ => Ok tt | Err e => Err (BootStorage e) end, r.2)
  end.
End doc.
