(* ===== verification/Instances.v ===== *)
(** Concrete instances of the third-party interfaces of the replication
    files, on which the properties' witnesses compute: an oplog whose version
    vectors are finite sets of operation numbers and whose blobs list the
    operations they build on and the operations they carry, and counters for
    the random source. *)
From S2P Require Import Prelude.
From S2P Require Import Wire.
From S2P Require Import Crypto.
From S2P Require Import SyncDoc.

Definition ops_encode (s : gset N) : octets := 1%N :: elements s.
Definition ops_decode (b : octets) : result string (gset N) :=
  match b with [] => Err "empty" | _ :: l => Ok (list_to_set l) end.

(** A blob: how many operations it builds on, those, and the ones it carries. *)
Definition blob_encode (base ops : gset N) : octets :=
  N.of_nat (length (elements base)) :: elements base ++ elements ops.
Definition blob_parse (b : octets) : result string (gset N * gset N) :=
  match b with
  | [] => Err "empty"
  | n :: l => Ok (list_to_set (take (N.to_nat n) l), list_to_set (drop (N.to_nat n) l))
  end.

(** Operations whose base is missing are not applied. *)
Definition ops_import (b : octets) (d : gset N) : result string (gset N) :=
  let? r := blob_parse b in Ok (if decide (r.1 ⊆ d) then d ∪ r.2 else d).

Lemma blob_parse_encode base ops : blob_parse (blob_encode base ops) = Ok (base, ops).
Proof.
  unfold blob_parse, blob_encode. rewrite Nat2N.id, take_app_length, drop_app_length.
  by rewrite !list_to_set_elements_L.
Qed.

#[export] Instance set_oplog : Oplog := {|
  VV := gset N;
  VV_eq_dec := gset_eq_dec;
  vv_default := ∅;
  vv_merge a b := a ∪ b;
  vv_includes a b := bool_decide (b ⊆ a);
  vv_encode := ops_encode;
  vv_decode := ops_decode;
  LoroDoc := gset N;
  loro_empty := ∅;
  oplog_vv d := d;
  export_updates from d := Ok (blob_encode (from ∩ d) (d ∖ from));
  export_snapshot d := Ok (blob_encode ∅ d);
  fork_at v d := Ok (v ∩ d);
  export_between from to d := Ok (blob_encode (from ∩ to) (to ∖ from));
  import_with := ops_import;
  blob_end_vv b := let? r := blob_parse b in Ok r.2;
|}.

Lemma set_vle (a b : gset N) : (a : VV) ⊑v b <-> a ⊆ b.
Proof. unfold vle. cbn. by rewrite bool_decide_eq_true. Qed.

#[export] Instance set_oplog_ok : OplogOk.
Proof.
  unshelve refine {|
    blob_base b := match blob_parse b with Ok r => r.1 | Err _ => ∅ end;
    exported b := exists base ops, b = blob_encode base ops;
  |}.
  - intros a. by apply set_vle.
  - intros a b c. rewrite !set_vle. set_solver.
  - intros a b. rewrite !set_vle. intros. by apply set_eq_subseteq.
  - intros a. rewrite set_vle. cbn. set_solver.
  - intros a b. rewrite set_vle. cbn. set_solver.
  - intros a b. rewrite set_vle. cbn. set_solver.
  - intros a b c. rewrite !set_vle. cbn. set_solver.
  - intros a. cbn. by rewrite list_to_set_elements_L.
  - done.
  - done.
  - intros from d b [= <-]. split; [by eexists _, _|]. exists (d ∖ from).
    cbn -[blob_parse blob_encode]. rewrite ?blob_parse_encode, ?set_vle. cbn.
    split_and!; [done|set_solver| |set_solver].
    intros x Hx. destruct (decide (x ∈ (from : gset N))); set_solver.
  - intros d b [= <-]. split; [by eexists _, _|].
    cbn -[blob_parse blob_encode]. rewrite blob_parse_encode. split; [done|by apply set_vle].
  - intros from to d b [= <-] _. split; [by eexists _, _|]. exists (to ∖ from).
    cbn -[blob_parse blob_encode]. rewrite ?blob_parse_encode, ?set_vle. cbn.
    split_and!; [done|set_solver| |set_solver].
    intros x Hx. destruct (decide (x ∈ (from : gset N))); set_solver.
  - intros v d d' [= <-]. rewrite set_vle. cbn. set_solver.
  - intros b d d' e. cbn. unfold ops_import. destruct (blob_parse b) as [[base ops]|]; [|done].
    intros [= <-] [= <-]. cbn. rewrite !set_vle. case_decide; set_solver.
  - intros b d (base & ops & ->). cbn -[blob_parse blob_encode]. unfold ops_import. rewrite blob_parse_encode. by eexists.
  - intros b (base & ops & ->). cbn -[blob_parse blob_encode]. rewrite blob_parse_encode. by eexists.
Defined.

(** Distinct nonces of the right length, distinct ids. *)
#[export] Instance counters : Entropy := {|
  nonce_at n := N.of_nat n :: replicate 23 0%N;
  uuid_at n := (1000 + N.of_nat n)%N;
|}.
#[export] Instance counters_ok : EntropyOk.
Proof. split; cbn; [done|]. intros i j. lia. Qed.

#[export] Instance witness_cipher : Cipher := plain_cipher.
#[export] Instance witness_cipher_ok : CipherOk := plain_cipher_ok.
