(* ===== verification/Engine.v ===== *)
(** The sans-IO sync engine (core/src/sync.rs): the protocol state machine of
    one document. The host feeds it transport events, decoded server frames and
    its own signals, and drains the outbox and the events. Every handler is
    the code's, branch by branch; the text of an [Error] event keeps its fixed
    part. *)
From S2P Require Import Prelude.
From S2P Require Import Wire.
From S2P Require Import Crypto.
From S2P Require Import Registers.
From S2P Require Import Tables.
From S2P Require Import Storage.
From S2P Require Import SyncDoc.

(** ** State *)

Inductive Event : Type :=
  | EvConnStateChanged (online : bool)
  | EvPulledInitial
  | EvPushed
  | EvFrontierAdvanced (seq : N)
  | EvError (what : string)
  | EvDocClosed (reason : string)
  | EvPresence (accounts : list PresentAccount).

Inductive ConnState : Type :=
  | Disconnected | Opening | Pulling | Bootstrapping | Idle | Pushing | PushingDirty.

#[export] Instance ConnState_eq_dec : EqDecision ConnState.
Proof. solve_decision. Defined.
#[export] Instance Event_eq_dec : EqDecision Event.
Proof. solve_decision. Defined.

Record InFlightState `{Oplog} : Type := mkInFlightState {
  fl_push_id : Uuid;
  fl_payload : EncryptedBlob;
  fl_to_vv : VV;
}.
Arguments mkInFlightState {_}.

(** [e_drawn] counts the random draws. *)
Record Engine `{Oplog} (T : Type) : Type := mkEngine {
  e_doc : SyncDoc;
  e_dek : Dek;
  e_doc_id : Uuid;
  e_storage : T;
  e_server_known_vv : VV;
  e_in_flight : option InFlightState;
  e_last_local_seq : N;
  e_wal_rows : N;
  e_wal_bytes : N;
  e_state : ConnState;
  e_last_contiguous_seq : N;
  e_server_epoch : option N;
  e_last_durable_seq : N;
  e_last_sent_ack : N;
  e_outbox : list ClientFrame;
  e_events : list Event;
  e_drawn : nat;
}.
Arguments mkEngine {_ _}.
Arguments e_doc {_ _} _.
Arguments e_dek {_ _} _.
Arguments e_doc_id {_ _} _.
Arguments e_storage {_ _} _.
Arguments e_server_known_vv {_ _} _.
Arguments e_in_flight {_ _} _.
Arguments e_last_local_seq {_ _} _.
Arguments e_wal_rows {_ _} _.
Arguments e_wal_bytes {_ _} _.
Arguments e_state {_ _} _.
Arguments e_last_contiguous_seq {_ _} _.
Arguments e_server_epoch {_ _} _.
Arguments e_last_durable_seq {_ _} _.
Arguments e_last_sent_ack {_ _} _.
Arguments e_outbox {_ _} _.
Arguments e_events {_ _} _.
Arguments e_drawn {_ _} _.

Section setters.
Context `{Oplog} {T : Type}.
Implicit Types (e : Engine T).

Definition set_doc (v : SyncDoc) e : Engine T :=
  mkEngine v (e_dek e) (e_doc_id e) (e_storage e) (e_server_known_vv e) (e_in_flight e)
    (e_last_local_seq e) (e_wal_rows e) (e_wal_bytes e) (e_state e) (e_last_contiguous_seq e)
    (e_server_epoch e) (e_last_durable_seq e) (e_last_sent_ack e) (e_outbox e) (e_events e)
    (e_drawn e).
Definition set_storage (v : T) e : Engine T :=
  mkEngine (e_doc e) (e_dek e) (e_doc_id e) v (e_server_known_vv e) (e_in_flight e)
    (e_last_local_seq e) (e_wal_rows e) (e_wal_bytes e) (e_state e) (e_last_contiguous_seq e)
    (e_server_epoch e) (e_last_durable_seq e) (e_last_sent_ack e) (e_outbox e) (e_events e)
    (e_drawn e).
Definition set_server_known_vv (v : VV) e : Engine T :=
  mkEngine (e_doc e) (e_dek e) (e_doc_id e) (e_storage e) v (e_in_flight e) (e_last_local_seq e)
    (e_wal_rows e) (e_wal_bytes e) (e_state e) (e_last_contiguous_seq e) (e_server_epoch e)
    (e_last_durable_seq e) (e_last_sent_ack e) (e_outbox e) (e_events e) (e_drawn e).
Definition set_in_flight (v : option InFlightState) e : Engine T :=
  mkEngine (e_doc e) (e_dek e) (e_doc_id e) (e_storage e) (e_server_known_vv e) v
    (e_last_local_seq e) (e_wal_rows e) (e_wal_bytes e) (e_state e) (e_last_contiguous_seq e)
    (e_server_epoch e) (e_last_durable_seq e) (e_last_sent_ack e) (e_outbox e) (e_events e)
    (e_drawn e).
Definition set_last_local_seq (v : N) e : Engine T :=
  mkEngine (e_doc e) (e_dek e) (e_doc_id e) (e_storage e) (e_server_known_vv e) (e_in_flight e)
    v (e_wal_rows e) (e_wal_bytes e) (e_state e) (e_last_contiguous_seq e) (e_server_epoch e)
    (e_last_durable_seq e) (e_last_sent_ack e) (e_outbox e) (e_events e) (e_drawn e).
Definition set_wal_rows (v : N) e : Engine T :=
  mkEngine (e_doc e) (e_dek e) (e_doc_id e) (e_storage e) (e_server_known_vv e) (e_in_flight e)
    (e_last_local_seq e) v (e_wal_bytes e) (e_state e) (e_last_contiguous_seq e) (e_server_epoch
    e) (e_last_durable_seq e) (e_last_sent_ack e) (e_outbox e) (e_events e) (e_drawn e).
Definition set_wal_bytes (v : N) e : Engine T :=
  mkEngine (e_doc e) (e_dek e) (e_doc_id e) (e_storage e) (e_server_known_vv e) (e_in_flight e)
    (e_last_local_seq e) (e_wal_rows e) v (e_state e) (e_last_contiguous_seq e) (e_server_epoch
    e) (e_last_durable_seq e) (e_last_sent_ack e) (e_outbox e) (e_events e) (e_drawn e).
Definition set_state (v : ConnState) e : Engine T :=
  mkEngine (e_doc e) (e_dek e) (e_doc_id e) (e_storage e) (e_server_known_vv e) (e_in_flight e)
    (e_last_local_seq e) (e_wal_rows e) (e_wal_bytes e) v (e_last_contiguous_seq e)
    (e_server_epoch e) (e_last_durable_seq e) (e_last_sent_ack e) (e_outbox e) (e_events e)
    (e_drawn e).
Definition set_last_contiguous_seq (v : N) e : Engine T :=
  mkEngine (e_doc e) (e_dek e) (e_doc_id e) (e_storage e) (e_server_known_vv e) (e_in_flight e)
    (e_last_local_seq e) (e_wal_rows e) (e_wal_bytes e) (e_state e) v (e_server_epoch e)
    (e_last_durable_seq e) (e_last_sent_ack e) (e_outbox e) (e_events e) (e_drawn e).
Definition set_server_epoch (v : option N) e : Engine T :=
  mkEngine (e_doc e) (e_dek e) (e_doc_id e) (e_storage e) (e_server_known_vv e) (e_in_flight e)
    (e_last_local_seq e) (e_wal_rows e) (e_wal_bytes e) (e_state e) (e_last_contiguous_seq e) v
    (e_last_durable_seq e) (e_last_sent_ack e) (e_outbox e) (e_events e) (e_drawn e).
Definition set_last_durable_seq (v : N) e : Engine T :=
  mkEngine (e_doc e) (e_dek e) (e_doc_id e) (e_storage e) (e_server_known_vv e) (e_in_flight e)
    (e_last_local_seq e) (e_wal_rows e) (e_wal_bytes e) (e_state e) (e_last_contiguous_seq e)
    (e_server_epoch e) v (e_last_sent_ack e) (e_outbox e) (e_events e) (e_drawn e).
Definition set_last_sent_ack (v : N) e : Engine T :=
  mkEngine (e_doc e) (e_dek e) (e_doc_id e) (e_storage e) (e_server_known_vv e) (e_in_flight e)
    (e_last_local_seq e) (e_wal_rows e) (e_wal_bytes e) (e_state e) (e_last_contiguous_seq e)
    (e_server_epoch e) (e_last_durable_seq e) v (e_outbox e) (e_events e) (e_drawn e).
Definition set_outbox (v : list ClientFrame) e : Engine T :=
  mkEngine (e_doc e) (e_dek e) (e_doc_id e) (e_storage e) (e_server_known_vv e) (e_in_flight e)
    (e_last_local_seq e) (e_wal_rows e) (e_wal_bytes e) (e_state e) (e_last_contiguous_seq e)
    (e_server_epoch e) (e_last_durable_seq e) (e_last_sent_ack e) v (e_events e) (e_drawn e).
Definition set_events (v : list Event) e : Engine T :=
  mkEngine (e_doc e) (e_dek e) (e_doc_id e) (e_storage e) (e_server_known_vv e) (e_in_flight e)
    (e_last_local_seq e) (e_wal_rows e) (e_wal_bytes e) (e_state e) (e_last_contiguous_seq e)
    (e_server_epoch e) (e_last_durable_seq e) (e_last_sent_ack e) (e_outbox e) v (e_drawn e).
Definition set_drawn (v : nat) e : Engine T :=
  mkEngine (e_doc e) (e_dek e) (e_doc_id e) (e_storage e) (e_server_known_vv e) (e_in_flight e)
    (e_last_local_seq e) (e_wal_rows e) (e_wal_bytes e) (e_state e) (e_last_contiguous_seq e)
    (e_server_epoch e) (e_last_durable_seq e) (e_last_sent_ack e) (e_outbox e) (e_events e) v.
End setters.

(** ** The monad of the handlers *)

Section engine.
Context `{Cipher, Oplog, Entropy} {T : Type} `{LocalStorage T}.

Definition E (A : Type) : Type := Engine T -> A * Engine T.
#[export] Instance E_ret : MRet E := fun A a e => (a, e).
#[export] Instance E_bind : MBind E := fun A B f m e => let r := m e in f r.1 r.2.

Definition get_e {A} (f : Engine T -> A) : E A := fun e => (f e, e).
Definition modify_e (f : Engine T -> Engine T) : E unit := fun e => (tt, f e).
Definition emit (ev : Event) : E unit := modify_e (fun e => set_events (e_events e ++ [ev]) e).
Definition error (what : string) : E unit := emit (EvError what).
Definition go (s : ConnState) : E unit := modify_e (set_state s).

(** A method of [self.storage] on this document. *)
Definition stored {A} (f : Uuid -> call T A) : E (result StorageError A) := fun e =>
  let r := f (e_doc_id e) (e_storage e) in (r.1, set_storage r.2 e).

Definition draw {A} (f : nat -> A) : E A := fun e => (f (e_drawn e), set_drawn (S (e_drawn e)) e).

(** MessagePack encoding into a buffer cannot fail for these types; the callers
    keep their error branches. *)
Definition encode_into_outbox (f : ClientFrame) : E (result string unit) := fun e =>
  (Ok tt, set_outbox (e_outbox e ++ [f]) e).

Definition go_disconnected : E unit :=
  go Disconnected ;; modify_e (set_outbox []) ;; emit (EvConnStateChanged false).

(** [if let Err(e) = self.encode_into_outbox(&frame) { ...; self.go_disconnected() }]. *)
Definition send_or_disconnect (f : ClientFrame) (what : string) : E unit :=
  r ← encode_into_outbox f;
  match r with Ok _ => mret tt | Err _ => error what ;; go_disconnected end.

(** ** Construction and seeding *)

Definition engine_new (doc : SyncDoc) (doc_id : Uuid) (dek : Dek) (last_acked_seq : N) (storage : T)
    : Engine T :=
  mkEngine doc dek doc_id storage vv_default None 0 0 0 Disconnected last_acked_seq None
    last_acked_seq last_acked_seq [] [] 0.

Definition seed_wal_stats (rows bytes : N) : E unit :=
  modify_e (fun e => set_wal_bytes bytes (set_wal_rows rows e)).

Definition seed_server_known_vv (encoded : octets) : E unit :=
  if decide (encoded = []) then mret tt
  else match vv_decode encoded with
       | Ok vv => modify_e (set_server_known_vv vv)
       | Err _ => error "decode server_known_vv"
       end.

Definition seed_in_flight_push (push : InFlightPush) : E unit :=
  match vv_decode (if_to_vv push) with
  | Ok to_vv =>
      modify_e (set_in_flight (Some (mkInFlightState (if_push_id push) (if_payload push) to_vv)))
  | Err _ => error "decode in-flight to_vv"
  end.

Definition seed_boot (meta : BootMeta) : E unit :=
  modify_e (set_last_local_seq (bm_last_local_seq meta)) ;;
  seed_wal_stats (bm_wal_rows meta) (bm_wal_bytes meta) ;;
  seed_server_known_vv (bm_server_known_vv meta) ;;
  match bm_in_flight_push meta with Some push => seed_in_flight_push push | None => mret tt end.

Definition engine_has_unsynced_ops (e : Engine T) : bool :=
  bool_decide (is_Some (e_in_flight e)) || negb (vv_includes (e_server_known_vv e) (doc_oplog_vv (e_doc e))).

(** ** The log and its snapshots *)

Definition capture_local_ops : E (result StorageError (option N)) :=
  d ← get_e e_doc;
  if negb (has_uncaptured_ops d) then mret (Ok None)
  else
    let vv := doc_oplog_vv d in
    dek ← get_e e_dek;
    nonce ← draw nonce_at;
    match pending_export dek nonce d with
    | Err _ => mret (Err (Backend "pending_export"))
    | Ok None => mret (Ok None)
    | Ok (Some blob) =>
        let bytes := blob_len blob in
        r ← stored (fun id => append_local_wal id blob);
        match r with
        | Err err => mret (Err err)
        | Ok local_seq =>
            modify_e (set_last_local_seq local_seq) ;;
            modify_e (fun e => set_wal_rows (e_wal_rows e + 1) e) ;;
            modify_e (fun e => set_wal_bytes (e_wal_bytes e + bytes) e) ;;
            modify_e (fun e => set_doc (mark_persisted_at vv (e_doc e)) e) ;;
            mret (Ok (Some local_seq))
        end
    end.

Definition write_local_snapshot : E (result StorageError bool) :=
  cutoff ← get_e e_last_local_seq;
  d ← get_e e_doc;
  dek ← get_e e_dek;
  nonce ← draw nonce_at;
  match snapshot_blob dek nonce d with
  | Err _ => mret (Err (Backend "snapshot_blob"))
  | Ok blob =>
      r ← stored (fun id => write_snapshot id cutoff blob);
      match r with
      | Err err => mret (Err err)
      | Ok _ =>
          modify_e (set_wal_rows 0) ;; modify_e (set_wal_bytes 0) ;; mret (Ok true)
      end
  end.

Definition snapshot_if_wal_exceeds (max_rows max_bytes : N) : E (result StorageError bool) :=
  r ← capture_local_ops;
  match r with
  | Err err => mret (Err err)
  | Ok _ =>
      rows ← get_e e_wal_rows;
      bytes ← get_e e_wal_bytes;
      if (rows <? N.max max_rows 1)%N && (bytes <=? max_bytes)%N then mret (Ok false)
      else write_local_snapshot
  end.

Definition force_snapshot : E (result StorageError bool) :=
  r ← capture_local_ops;
  match r with
  | Err err => mret (Err err)
  | Ok _ =>
      rows ← get_e e_wal_rows;
      if decide (rows = 0%N) then mret (Ok false) else write_local_snapshot
  end.

(** ** Acks and pushes *)

Definition queue_ack_if_advanced : E unit :=
  durable ← get_e e_last_durable_seq;
  sent ← get_e e_last_sent_ack;
  if (sent <? durable)%N then
    id ← get_e e_doc_id;
    r ← encode_into_outbox (Ack id durable);
    match r with Ok _ => modify_e (set_last_sent_ack durable) | Err _ => mret tt end
  else mret tt.

Definition notify_oplog_durable (seq : N) : E unit :=
  contiguous ← get_e e_last_contiguous_seq;
  durable ← get_e e_last_durable_seq;
  let clamped := N.min seq contiguous in
  if (durable <? clamped)%N then
    modify_e (set_last_durable_seq clamped) ;;
    r ← stored (fun id => write_acked_seq id clamped);
    match r with Ok _ => mret tt | Err _ => error "storage.write_acked_seq" end ;;
    queue_ack_if_advanced
  else mret tt.

(** The durable push record is written before the first send. *)
Definition start_push_record : E bool :=
  r ← capture_local_ops;
  match r with
  | Err _ => error "storage.append_local_wal" ;; mret false
  | Ok _ =>
      d ← get_e e_doc;
      dek ← get_e e_dek;
      known ← get_e e_server_known_vv;
      nonce ← draw nonce_at;
      let to_vv := doc_oplog_vv d in
      match export_updates_since dek nonce known d with
      | Ok None => mret false
      | Err _ => error "export_updates_since" ;; mret false
      | Ok (Some blob) =>
          push_id ← draw uuid_at;
          let push := mkInFlight push_id blob (vv_encode known) (vv_encode to_vv) in
          r ← stored (fun id => put_in_flight_push id push);
          match r with
          | Err _ => error "storage.put_in_flight_push" ;; mret false
          | Ok _ => modify_e (set_in_flight (Some (mkInFlightState push_id blob to_vv))) ;; mret true
          end
      end
  end.

Definition try_start_push : E unit :=
  st ← get_e e_state;
  if decide (st <> Idle) then mret tt
  else
    in_flight ← get_e e_in_flight;
    ready ← match in_flight with Some _ => mret true | None => start_push_record end;
    in_flight ← get_e e_in_flight;
    match ready, in_flight with
    | true, Some p =>
        id ← get_e e_doc_id;
        r ← encode_into_outbox (PushUpdates id [mkPush (fl_push_id p) (fl_payload p)]);
        match r with
        | Err _ => error "encode PushUpdates"
        | Ok _ => go Pushing
        end
    | _, _ => mret tt
    end.

(** ** Remote updates *)

Definition ingest_seq (n : N) : E unit :=
  last ← get_e e_last_contiguous_seq;
  if decide (n = (last + 1)%N) then modify_e (set_last_contiguous_seq n) else mret tt.

Fixpoint efor {A} (l : list A) (f : A -> E unit) : E unit :=
  match l with
  | [] => mret tt
  | a :: l => f a ;; efor l f
  end.

(** One row mirrored into the log. *)
Definition log_remote (vv_bytes : octets) (update : StoredBlob) : E unit :=
  r ← stored (fun id => append_remote_wal id (mkRemote (sb_seq update) (sb_blob update)) vv_bytes);
  match r with
  | Ok (local_seq, true) =>
      modify_e (set_last_local_seq local_seq) ;;
      modify_e (fun e => set_wal_rows (e_wal_rows e + 1) e) ;;
      modify_e (fun e => set_wal_bytes (e_wal_bytes e + blob_len (sb_blob update)) e)
  | Ok (_, false) => mret tt
  | Err _ => error "storage.append_remote_wal"
  end.

(** [if self.last_contiguous_seq > prev_contig { FrontierAdvanced }]. *)
Definition announce_frontier (prev : N) : E unit :=
  now ← get_e e_last_contiguous_seq;
  if (prev <? now)%N then emit (EvFrontierAdvanced now) else mret tt.

Definition apply_remote_updates (updates : list StoredBlob) : E unit :=
  if decide (updates = []) then mret tt
  else
    d ← get_e e_doc;
    dek ← get_e e_dek;
    let '(r, d) := apply_remote_batch dek (sb_blob <$> updates) d in
    modify_e (set_doc d) ;;
    match r with
    | Err _ => error "apply remote blob"
    | Ok imported_vv =>
        modify_e (fun e => set_server_known_vv (vv_merge (e_server_known_vv e) imported_vv) e) ;;
        known ← get_e e_server_known_vv;
        efor updates (log_remote (vv_encode known)) ;;
        prev ← get_e e_last_contiguous_seq;
        efor updates (fun update => ingest_seq (sb_seq update)) ;;
        announce_frontier prev
    end.

(** ** Transport events *)

Definition handle_connected : E unit :=
  st ← get_e e_state;
  if decide (st <> Disconnected) then error "handle_connected called while already connected"
  else
    go Opening ;;
    emit (EvConnStateChanged true) ;;
    id ← get_e e_doc_id;
    send_or_disconnect (OpenDoc id) "encode OpenDoc".

Definition handle_disconnected : E unit :=
  st ← get_e e_state;
  if decide (st = Disconnected) then mret tt else go_disconnected.

Definition handle_timeout : E unit :=
  st ← get_e e_state;
  if decide (st = Opening) then error "handshake timed out" else mret tt.

Definition flush : E unit :=
  st ← get_e e_state;
  match st with
  | Idle => try_start_push
  | Pushing => go PushingDirty
  | _ => mret tt
  end.

Definition pull : E unit :=
  id ← get_e e_doc_id;
  since ← get_e e_last_contiguous_seq;
  send_or_disconnect (PullUpdates id since) "encode PullUpdates".

(** ** Server frames *)

Definition handle_doc_opened (epoch : N) : E unit :=
  st ← get_e e_state;
  if decide (st <> Opening) then error "DocOpened received in unexpected state"
  else modify_e (set_server_epoch (Some epoch)) ;; go Pulling ;; pull.

Definition handle_doc_gone (reason : string) : E unit :=
  emit (EvDocClosed reason) ;; go_disconnected.

Definition handle_updates_batch (updates : list StoredBlob) (complete : bool) : E unit :=
  st ← get_e e_state;
  if decide (st = Bootstrapping) then error "UpdatesBatch received during Bootstrapping"
  else
    apply_remote_updates updates ;;
    st ← get_e e_state;
    if complete && bool_decide (st = Pulling) then
      go Idle ;; emit EvPulledInitial ;; try_start_push
    else mret tt.

Definition handle_updates_broadcast (updates : list StoredBlob) : E unit :=
  st ← get_e e_state;
  if decide (st = Bootstrapping) then mret tt else apply_remote_updates updates.

Definition handle_updates_ack (acks : list PushAck) : E unit :=
  st ← get_e e_state;
  if negb (bool_decide (st = Pushing) || bool_decide (st = PushingDirty)) then
    error "UpdatesAck received in unexpected state"
  else
    in_flight ← get_e e_in_flight;
    match in_flight with
    | None => error "UpdatesAck with no in-flight push" ;; go Idle
    | Some p =>
        match acks with
        | [ack] =>
            if decide (pa_push_id ack = fl_push_id p) then
              modify_e (set_in_flight None) ;;
              modify_e (fun e => set_server_known_vv (vv_merge (e_server_known_vv e) (fl_to_vv p)) e) ;;
              known ← get_e e_server_known_vv;
              r ← stored (fun id => complete_push id (fl_push_id p) (vv_encode known));
              match r with Ok _ => mret tt | Err _ => error "storage.complete_push" end ;;
              prev ← get_e e_last_contiguous_seq;
              ingest_seq (pa_seq ack) ;;
              announce_frontier prev ;;
              emit EvPushed ;;
              go Idle ;;
              try_start_push
            else error "UpdatesAck mismatch"
        | _ => error "UpdatesAck mismatch"
        end
    end.

Definition handle_snapshot_required : E unit :=
  st ← get_e e_state;
  if decide (st <> Pulling) then error "SnapshotRequired received in unexpected state"
  else
    go Bootstrapping ;;
    id ← get_e e_doc_id;
    send_or_disconnect (PullSnapshot id) "encode PullSnapshot".

(** [if up_to_seq > self.last_contiguous_seq { ... }]. *)
Definition raise_frontier (up_to_seq : N) : E unit :=
  last ← get_e e_last_contiguous_seq;
  if (last <? up_to_seq)%N then
    modify_e (set_last_contiguous_seq up_to_seq) ;; emit (EvFrontierAdvanced up_to_seq)
  else mret tt.

(** The last row of the chain: persist, checkpoint, resume the pull. *)
Definition finish_bootstrap (up_to_seq : N) : E unit :=
  known ← get_e e_server_known_vv;
  r ← stored (fun id => write_server_known_vv id (vv_encode known));
  match r with
  | Err _ => error "storage.write_server_known_vv" ;; go_disconnected
  | Ok _ =>
      cutoff ← get_e e_last_local_seq;
      d ← get_e e_doc;
      dek ← get_e e_dek;
      nonce ← draw nonce_at;
      match snapshot_blob dek nonce d with
      | Err _ => error "snapshot_blob" ;; go_disconnected
      | Ok local_blob =>
          r ← stored (fun id => write_snapshot id cutoff local_blob);
          match r with
          | Err _ => error "storage.write bootstrap snapshot" ;; go_disconnected
          | Ok _ =>
              modify_e (fun e => set_doc (mark_persisted (e_doc e)) e) ;;
              modify_e (set_wal_rows 0) ;; modify_e (set_wal_bytes 0) ;;
              raise_frontier up_to_seq ;;
              go Pulling ;;
              pull
          end
      end
  end.

Definition handle_snapshot (up_to_seq : N) (blob : EncryptedBlob) (complete : bool) : E unit :=
  st ← get_e e_state;
  if decide (st <> Bootstrapping) then error "Snapshot received in unexpected state"
  else
    d ← get_e e_doc;
    dek ← get_e e_dek;
    let '(r, d) := apply_remote_batch dek [blob] d in
    modify_e (set_doc d) ;;
    match r with
    | Err _ => error "apply snapshot" ;; go_disconnected
    | Ok imported_vv =>
        modify_e (fun e => set_server_known_vv (vv_merge (e_server_known_vv e) imported_vv) e) ;;
        if complete then finish_bootstrap up_to_seq else mret tt
    end.

(** [seal_vv] and [open_vv]: a version vector sealed under the document's key. *)
Definition seal_vv (dek : Dek) (nonce : octets) (vv : VV) : result CryptoError EncryptedBlob :=
  let? r := seal dek (vv_encode vv) nonce in Ok (mkBlob r.2 r.1).
Definition open_vv (dek : Dek) (blob : EncryptedBlob) : result string VV :=
  match open_ dek (eb_ciphertext blob) (eb_nonce blob) with
  | Err _ => Err "aead"
  | Ok plaintext => vv_decode plaintext
  end.

(** The blob of the requested shape; [None] when the engine declines. *)
Definition produce_snapshot (base : option SnapshotBase) : E (option EncryptedBlob) :=
  d ← get_e e_doc;
  dek ← get_e e_dek;
  known ← get_e e_server_known_vv;
  nonce ← draw nonce_at;
  match base with
  | None =>
      match snapshot_blob_at dek nonce known d with
      | Ok b => mret (Some b)
      | Err _ => error "snapshot export" ;; mret None
      end
  | Some b =>
      match open_vv dek (base_vv b) with
      | Err _ => error "SnapshotRequest: cannot open delta base" ;; mret None
      | Ok from_vv =>
          if vv_includes known from_vv then
            match delta_blob_between dek nonce from_vv known d with
            | Ok b => mret (Some b)
            | Err _ => error "snapshot export" ;; mret None
            end
          else error "SnapshotRequest: delta base is outside our server-known frontier; declining" ;;
               mret None
      end
  end.

Definition handle_snapshot_request (compaction_floor_seq : N) (base : option SnapshotBase) : E unit :=
  produced ← produce_snapshot base;
  match produced with
  | None => mret tt
  | Some blob =>
      dek ← get_e e_dek;
      known ← get_e e_server_known_vv;
      nonce ← draw nonce_at;
      match seal_vv dek nonce known with
      | Err _ => error "seal up_to_vv"
      | Ok up_to_vv =>
          id ← get_e e_doc_id;
          up_to_seq ← get_e e_last_contiguous_seq;
          r ← encode_into_outbox (PushSnapshot id up_to_seq compaction_floor_seq
                (base_seq <$> base) up_to_vv blob);
          match r with Ok _ => mret tt | Err _ => error "encode PushSnapshot" end
      end
  end.

Definition handle_server_frame (frame : option ServerFrame) : E unit :=
  id ← get_e e_doc_id;
  match frame with
  | None => error "decode ServerFrame"
  | Some frame =>
      if decide (server_frame_doc_id frame <> id) then error "frame for another doc"
      else
        match frame with
        | DocOpened _ epoch => handle_doc_opened epoch
        | DocRejected _ reason => handle_doc_gone ("doc rejected: " +:+ reason)
        | DocClosed _ reason => handle_doc_gone ("doc closed: " +:+ reason)
        | Presence _ accounts => emit (EvPresence accounts)
        | UpdatesBatch _ updates complete => handle_updates_batch updates complete
        | UpdatesBroadcast _ updates => handle_updates_broadcast updates
        | UpdatesAck _ acks => handle_updates_ack acks
        | SnapshotRequired _ _ => handle_snapshot_required
        | Snapshot _ up_to_seq blob complete => handle_snapshot up_to_seq blob complete
        | SnapshotRequest _ _ floor base => handle_snapshot_request floor base
        end
  end.

(** [None]: bytes that do not decode. *)
Definition handle_server_bytes (frame : option ServerFrame) : E unit :=
  st ← get_e e_state;
  if decide (st = Disconnected) then error "received server bytes while disconnected"
  else handle_server_frame frame.

(** The host drains both queues. *)
Definition pop_outbox : E (option ClientFrame) := fun e =>
  match e_outbox e with
  | [] => (None, e)
  | f :: fs => (Some f, set_outbox fs e)
  end.
Definition pop_event : E (option Event) := fun e =>
  match e_events e with
  | [] => (None, e)
  | ev :: evs => (Some ev, set_events evs e)
  end.
End engine.
