(* ===== verification/EngineFacts.v ===== *)
(** The protocol state machine under any sequence of host calls and any frames
    the server may send, on any storage, failing ones included: the cursors
    stay ordered, acks name only durable sequence numbers and only grow, and a
    push awaits its ack only while its record is held. *)
From S2P Require Import Prelude.
From S2P Require Import Wire.
From S2P Require Import Crypto.
From S2P Require Import Registers.
From S2P Require Import Tables.
From S2P Require Import Storage.
From S2P Require Import SyncDoc.
From S2P Require Import Engine.
From S2P Require Import Instances.

(** ** What handlers preserve *)

Section keeps.
Context `{Cipher, Oplog, Entropy} {T : Type} `{LocalStorage T}.
Implicit Types (I J : Engine T -> Prop).

Definition leads I {A} (m : E A) J : Prop := forall e, I e -> J (m e).2.
Definition keeps I {A} (m : E A) : Prop := leads I m I.

Lemma keeps_ret I {A} (a : A) : keeps I (mret a).
Proof. by intros e. Qed.
Lemma keeps_bind I {A B} (m : E A) (f : A -> E B) :
  keeps I m -> (forall a, keeps I (f a)) -> keeps I (m ≫= f).
Proof. intros Hm Hf e He. apply Hf, Hm, He. Qed.
Lemma leads_bind I J K {A B} (m : E A) (f : A -> E B) :
  leads I m J -> (forall a, leads J (f a) K) -> leads I (m ≫= f) K.
Proof. intros Hm Hf e He. apply Hf, Hm, He. Qed.
Lemma keeps_leads I K {A B} (m : E A) (f : A -> E B) :
  keeps I m -> (forall a, leads I (f a) K) -> leads I (m ≫= f) K.
Proof. apply leads_bind. Qed.
Lemma leads_get I J {A B} (f : Engine T -> A) (k : A -> E B) :
  (forall a, leads (fun e => I e /\ f e = a) (k a) J) -> leads I (get_e f ≫= k) J.
Proof. intros Hk e He. by apply (Hk (f e)). Qed.
Lemma leads_weaken I I' J {A} (m : E A) : (forall e, I e -> I' e) -> leads I' m J -> leads I m J.
Proof. intros Hi Hm e He. by apply Hm, Hi. Qed.
Lemma keeps_get_e I {A} (f : Engine T -> A) : keeps I (get_e f).
Proof. by intros e. Qed.
Lemma keeps_efor I {A} (l : list A) (f : A -> E unit) :
  (forall a, a ∈ l -> keeps I (f a)) -> keeps I (efor l f).
Proof.
  induction l as [|a l IH]; intros Hf; [apply keeps_ret|]. cbn [efor].
  apply keeps_bind; [apply Hf; by left|]. intros _. apply IH. intros b Hb. apply Hf. by right.
Qed.
End keeps.
Create HintDb keeps.
#[export] Hint Resolve keeps_ret keeps_get_e : keeps.

(** Split a handler into its primitives. *)
Ltac keep :=
  repeat first
    [ progress auto with keeps nocore
    | apply keeps_bind; [|intros ?]
    | match goal with |- keeps _ (match ?x with _ => _ end) => destruct x end
    | match goal with |- keeps _ (if ?x then _ else _) => destruct x end ].

Ltac as_keeps := match goal with |- leads ?I ?m ?I => change (keeps I m) end.

(** ** Cursors, acks and the push in flight *)

Section cursors.
Context `{Cipher, Oplog, Entropy} {T : Type} `{LocalStorage T}.
Implicit Types (e : Engine T) (p : bool).

(** The acks the host has already sent, and the sequence number the engine was
    built with. *)
Variables (sent : list N) (acked0 : N).

Definition ack_of (f : ClientFrame) : option N := match f with Ack _ n => Some n | _ => None end.
Definition queued_acks e : list N := omap ack_of (e_outbox e).
Definition pushing e : Prop := e_state e = Pushing \/ e_state e = PushingDirty.

(** [p] = false while the ack handler has taken the record and not yet left
    the pushing states. *)
Record cursors_at p e : Prop := {
  co_durable : (e_last_durable_seq e <= e_last_contiguous_seq e)%N;
  co_sent : (e_last_sent_ack e <= e_last_durable_seq e)%N;
  co_acks : Forall (fun n => acked0 < n <= e_last_sent_ack e)%N (sent ++ queued_acks e);
  co_sorted : StronglySorted N.lt (sent ++ queued_acks e);
  co_seed : (acked0 <= e_last_sent_ack e)%N;
  co_push : p = true -> pushing e -> is_Some (e_in_flight e);
}.
Definition cursors_ok : Engine T -> Prop := cursors_at true.

Lemma cursors_same p e e' :
  e_last_contiguous_seq e' = e_last_contiguous_seq e -> e_last_durable_seq e' = e_last_durable_seq e ->
  e_last_sent_ack e' = e_last_sent_ack e -> queued_acks e' = queued_acks e ->
  (p = true -> pushing e' -> is_Some (e_in_flight e')) -> cursors_at p e -> cursors_at p e'.
Proof. intros E1 E2 E3 E4 Hp [K1 K2 K3 K4 K5 K6]. split; rewrite ?E1, ?E2, ?E3, ?E4; done. Qed.

Ltac same := intros e He; apply (cursors_same _ e); try done; apply (co_push _ e He).

Lemma keeps_emit p ev : keeps (cursors_at p) (emit (T := T) ev).
Proof. same. Qed.
Lemma keeps_error p s : keeps (cursors_at p) (error (T := T) s).
Proof. apply keeps_emit. Qed.
Lemma keeps_draw p {A} (f : nat -> A) : keeps (cursors_at p) (draw (T := T) f).
Proof. same. Qed.
Lemma keeps_stored p {A} (f : Uuid -> call T A) : keeps (cursors_at p) (stored f).
Proof. same. Qed.
Lemma keeps_wal_rows p f : keeps (cursors_at p) (modify_e (fun e => set_wal_rows (f e) e)).
Proof. same. Qed.
Lemma keeps_wal_bytes p f : keeps (cursors_at p) (modify_e (fun e => set_wal_bytes (f e) e)).
Proof. same. Qed.
Lemma keeps_local_seq p v : keeps (cursors_at p) (modify_e (set_last_local_seq v)).
Proof. same. Qed.
Lemma keeps_doc p f : keeps (cursors_at p) (modify_e (fun e => set_doc (f e) e)).
Proof. same. Qed.
Lemma keeps_known p f : keeps (cursors_at p) (modify_e (fun e => set_server_known_vv (f e) e)).
Proof. same. Qed.
Lemma keeps_epoch p v : keeps (cursors_at p) (modify_e (set_server_epoch v)).
Proof. same. Qed.
Lemma keeps_set_in_flight p fl : keeps (cursors_at p) (modify_e (set_in_flight (Some fl))).
Proof. intros e He. apply (cursors_same _ e); done. Qed.

Lemma leads_go p s : s <> Pushing -> s <> PushingDirty -> leads (cursors_at p) (go (T := T) s) cursors_ok.
Proof. intros N1 N2 e [K1 K2 K3 K4 K5 K6]. split; try done. by intros _ [Hp|Hp]. Qed.
Lemma keeps_go p s : s <> Pushing -> s <> PushingDirty -> keeps (cursors_at p) (go (T := T) s).
Proof. intros N1 N2 e [K1 K2 K3 K4 K5 K6]. split; try done. by intros _ [Hp|Hp]. Qed.

Lemma keeps_encode p f : ack_of f = None -> keeps (cursors_at p) (encode_into_outbox (T := T) f).
Proof.
  intros Hf e He. apply (cursors_same _ e); try done; [|apply (co_push _ e He)].
  unfold queued_acks. cbn. rewrite omap_app. cbn. by rewrite Hf, app_nil_r.
Qed.
#[local] Hint Resolve keeps_emit keeps_error keeps_draw keeps_stored keeps_wal_rows keeps_wal_bytes
  keeps_local_seq keeps_doc keeps_known keeps_epoch keeps_set_in_flight : keeps.
#[local] Hint Extern 1 (keeps _ (encode_into_outbox _)) => (apply keeps_encode; reflexivity) : keeps.
#[local] Hint Extern 1 (keeps _ (go _)) => (apply keeps_go; discriminate) : keeps.
#[local] Hint Extern 1 (keeps _ (modify_e (set_wal_rows ?n))) => exact (keeps_wal_rows _ (fun _ => n)) : keeps.
#[local] Hint Extern 1 (keeps _ (modify_e (set_wal_bytes ?n))) => exact (keeps_wal_bytes _ (fun _ => n)) : keeps.
#[local] Hint Extern 1 (keeps _ (modify_e (set_doc ?d))) => exact (keeps_doc _ (fun _ => d)) : keeps.
#[local] Hint Extern 1 (keeps _ (modify_e (set_server_known_vv ?d))) => exact (keeps_known _ (fun _ => d)) : keeps.

Lemma keeps_disconnect p : keeps (cursors_at p) (go_disconnected (T := T)).
Proof.
  intros e [K1 K2 K3 K4 K5 K6]. split; cbn; try done; rewrite ?app_nil_r.
  - by apply Forall_app in K3 as [K3 _].
  - by apply StronglySorted_app_1_l in K4.
  - by intros _ [Hp|Hp].
Qed.
#[local] Hint Resolve keeps_disconnect : keeps.

Lemma keeps_send p f s : ack_of f = None -> keeps (cursors_at p) (send_or_disconnect (T := T) f s).
Proof. intros Hf. apply keeps_bind; [by apply keeps_encode|]. intros r. keep. Qed.
#[local] Hint Extern 1 (keeps _ (send_or_disconnect _ _)) => (apply keeps_send; reflexivity) : keeps.

Lemma keeps_capture p : keeps (cursors_at p) (capture_local_ops (T := T)).
Proof. unfold capture_local_ops. keep. Qed.
#[local] Hint Resolve keeps_capture : keeps.
Lemma keeps_write_snapshot p : keeps (cursors_at p) (write_local_snapshot (T := T)).
Proof. unfold write_local_snapshot. keep. Qed.
#[local] Hint Resolve keeps_write_snapshot : keeps.
Lemma keeps_push_record p : keeps (cursors_at p) (start_push_record (T := T)).
Proof. unfold start_push_record. keep. Qed.
#[local] Hint Resolve keeps_push_record : keeps.

Lemma keeps_try_start_push p : keeps (cursors_at p) (try_start_push (T := T)).
Proof.
  unfold try_start_push. apply keeps_bind; [keep|]. intros st. case_decide; [keep|].
  apply keeps_bind; [keep|]. intros fl. apply keeps_bind; [keep|]. intros ready.
  apply leads_get. intros fl' e [He Hf]. destruct ready; [|done].
  destruct fl' as [fl'|]; [|done]. cbn. apply (cursors_same _ e); try done; cbn.
  unfold queued_acks. simpl. rewrite omap_app. simpl. by rewrite app_nil_r.
Qed.
#[local] Hint Resolve keeps_try_start_push : keeps.

(** The frontier only moves forward. *)
Lemma keeps_contiguous p n :
  leads (fun e => cursors_at p e /\ (e_last_contiguous_seq e <= n)%N)
    (modify_e (set_last_contiguous_seq n)) (cursors_at p).
Proof. intros e [[K1 K2 K3 K4 K5 K6] Hn]. split; cbn; try done. lia. Qed.

Lemma keeps_ingest p n : keeps (cursors_at p) (ingest_seq (T := T) n).
Proof.
  apply leads_get. intros last e [He Hl]. case_decide as Hn; [|done].
  apply keeps_contiguous. split; [done|]. lia.
Qed.
#[local] Hint Resolve keeps_ingest : keeps.

Lemma keeps_announce p n : keeps (cursors_at p) (announce_frontier (T := T) n).
Proof. unfold announce_frontier. keep. Qed.
#[local] Hint Resolve keeps_announce : keeps.

Lemma keeps_apply p updates : keeps (cursors_at p) (apply_remote_updates (T := T) updates).
Proof.
  unfold apply_remote_updates, log_remote. keep; apply keeps_efor; intros; keep.
Qed.
#[local] Hint Resolve keeps_apply : keeps.

Lemma keeps_pull p : keeps (cursors_at p) (pull (T := T)).
Proof. unfold pull. keep. Qed.
#[local] Hint Resolve keeps_pull : keeps.

Lemma keeps_raise p n : keeps (cursors_at p) (raise_frontier (T := T) n).
Proof.
  apply leads_get. intros last e [He Hl]. destruct (last <? n)%N eqn:En; [|done].
  apply N.ltb_lt in En. apply keeps_emit, keeps_contiguous. split; [done|]. lia.
Qed.
#[local] Hint Resolve keeps_raise : keeps.

Lemma keeps_finish_bootstrap p n : keeps (cursors_at p) (finish_bootstrap (T := T) n).
Proof.
  unfold finish_bootstrap. keep.
Qed.
#[local] Hint Resolve keeps_finish_bootstrap : keeps.

Lemma keeps_updates_ack acks : keeps cursors_ok (handle_updates_ack (T := T) acks).
Proof.
  unfold handle_updates_ack, cursors_ok. apply keeps_bind; [keep|]. intros st.
  destruct (negb _); [keep|]. apply keeps_bind; [keep|]. intros [fl|]; [|keep].
  destruct acks as [|ack [|]]; [keep| |keep]. case_decide; [|keep].
  eapply (leads_bind _ (cursors_at false)).
  { intros e [K1 K2 K3 K4 K5 K6]. by split. }
  intros _. do 8 (apply keeps_leads; [keep|]; intros ?).
  eapply leads_bind; [by apply leads_go|]. intros _. apply keeps_try_start_push.
Qed.
#[local] Hint Resolve keeps_updates_ack : keeps.

Lemma keeps_queue_ack p : keeps (cursors_at p) (queue_ack_if_advanced (T := T)).
Proof.
  apply leads_get. intros durable. apply leads_get. intros sent' e [[He Hd] Hs].
  destruct (sent' <? durable)%N eqn:En; [|done]. apply N.ltb_lt in En.
  destruct He as [K1 K2 K3 K4 K5 K6]. subst. split; simpl; try done; try lia.
  - unfold queued_acks. simpl. rewrite omap_app, app_assoc. apply Forall_app. split.
    + eapply Forall_impl; [exact K3|]. simpl. lia.
    + repeat constructor; lia.
  - unfold queued_acks. simpl. rewrite omap_app, app_assoc. apply StronglySorted_app_2; [|done|repeat constructor].
    rewrite Forall_forall in K3. intros x y Hx ->%list_elem_of_singleton.
    destruct (K3 x Hx). lia.
Qed.
#[local] Hint Resolve keeps_queue_ack : keeps.

Lemma keeps_notify p n : keeps (cursors_at p) (notify_oplog_durable (T := T) n).
Proof.
  apply leads_get. intros cont. apply leads_get. intros durable. cbn zeta.
  destruct (durable <? N.min n cont)%N eqn:En; [|by intros e [[He _] _]]. apply N.ltb_lt in En.
  eapply (leads_bind _ (cursors_at p)).
  { intros e [[[K1 K2 K3 K4 K5 K6] Hc] Hd]. subst. split; simpl; try done; lia. }
  intros _. as_keeps. keep.
Qed.
#[local] Hint Resolve keeps_notify : keeps.

Lemma keeps_frame frame : keeps cursors_ok (handle_server_frame (T := T) frame).
Proof.
  unfold cursors_ok, handle_server_frame, handle_doc_opened, handle_doc_gone, handle_updates_batch,
    handle_updates_broadcast, handle_snapshot_required, handle_snapshot, handle_snapshot_request,
    produce_snapshot. keep.
Qed.
#[local] Hint Resolve keeps_frame : keeps.

(** ** Runs of the host *)

(** What the host may do to the engine, in any order: edit the document (any
    new Loro state; the capture cursor is the document's own), feed the
    transport, call the engine's methods, drain a queue. *)
Inductive Input : Type :=
  | InEdit (inner : LoroDoc)
  | InConnected
  | InDisconnected
  | InTimeout
  | InFlush
  | InCapture
  | InSnapshotIfExceeds (max_rows max_bytes : N)
  | InForceSnapshot
  | InDurable (seq : N)
  | InFrame (frame : option ServerFrame)
  | InPopEvent.

Definition handle (i : Input) : E (T := T) unit :=
  match i with
  | InEdit inner =>
      modify_e (fun e => set_doc (mkSyncDoc inner (sd_last_persisted_vv (e_doc e))) e)
  | InConnected => handle_connected
  | InDisconnected => handle_disconnected
  | InTimeout => handle_timeout
  | InFlush => flush
  | InCapture => capture_local_ops ;; mret tt
  | InSnapshotIfExceeds rows bytes => snapshot_if_wal_exceeds rows bytes ;; mret tt
  | InForceSnapshot => force_snapshot ;; mret tt
  | InDurable seq => notify_oplog_durable seq
  | InFrame frame => handle_server_bytes frame
  | InPopEvent => pop_event ;; mret tt
  end.

(** A run, with the frames the host took from the outbox. *)
Inductive run : Engine T -> list ClientFrame -> Engine T -> Prop :=
  | run_refl e : run e [] e
  | run_step e fs e' i : run e fs e' -> run e fs (handle i e').2
  | run_pop e fs e' f : run e fs e' -> (pop_outbox e').1 = Some f ->
      run e (fs ++ [f]) (pop_outbox e').2.

Lemma keeps_flush : keeps cursors_ok (flush (T := T)).
Proof.
  apply leads_get. intros st e [He Hs]. destruct st; try done; [by apply keeps_try_start_push|].
  destruct He as [K1 K2 K3 K4 K5 K6]. split; try done. intros _ _. apply K6; [done|]. by left.
Qed.
Lemma keeps_pop_event : keeps cursors_ok (pop_event (T := T)).
Proof.
  intros e He. unfold pop_event. destruct (e_events e); [done|]. revert e He. same.
Qed.
#[local] Hint Resolve keeps_flush keeps_pop_event : keeps.

Lemma keeps_handle i : keeps cursors_ok (handle i).
Proof.
  destruct i; [intros e He; by apply (cursors_same _ e); try apply (co_push _ e He)|..];
    unfold handle, handle_connected, handle_disconnected, handle_timeout, snapshot_if_wal_exceeds,
      force_snapshot, handle_server_bytes; try solve [keep | unfold cursors_ok; keep].
Qed.
End cursors.

(** ** The properties *)

Section runs.
Context `{Cipher, Oplog, Entropy} {T : Type} `{LocalStorage T}.

Lemma run_cursors acked (e0 e : Engine T) fs :
  cursors_ok [] acked e0 -> run e0 fs e -> cursors_ok (omap ack_of fs) acked e.
Proof.
  intros H0' Hr. induction Hr as [e1|e1 fs e' i Hr IH|e1 fs e' f Hr IH Hf]; [done|by apply keeps_handle, IH|].
  destruct (IH H0') as [K1 K2 K3 K4 K5 K6]. unfold pop_outbox, queued_acks in *.
  destruct (e_outbox e') as [|f' fs'] eqn:Eo; [done|]. injection Hf as ->.
  assert (Ha : omap ack_of (fs ++ [f]) ++ omap ack_of fs' = omap ack_of fs ++ omap ack_of (f :: fs')).
  { rewrite <- !omap_app, <- app_assoc. done. }
  split; unfold queued_acks; simpl; try done; by rewrite Ha.
Qed.

Lemma cursors_seed meta doc id dek acked (st : T) :
  cursors_ok [] acked (seed_boot meta (engine_new doc id dek acked st)).2.
Proof.
  assert (Hn : cursors_ok [] acked (engine_new doc id dek acked st)).
  { split; simpl; try done; [constructor..|]. by intros _ [Hp|Hp]. }
  revert Hn. generalize (engine_new doc id dek acked st).
  change (keeps (cursors_ok (T := T) [] acked) (seed_boot meta)).
  unfold seed_boot, seed_wal_stats, seed_server_known_vv, seed_in_flight_push.
  keep; intros eng [K1 K2 K3 K4 K5 K6]; by split.
Qed.

(** C3: Whatever the host does and whatever frames arrive, on any storage, failing
    or not: the acks an engine sends over its life strictly grow, start above
    the sequence number it was booted with and never exceed the durable
    cursor, the durable cursor never passes the contiguous frontier, and a
    push is awaited only while its record is held. *)
Theorem acks_monotone meta doc id dek acked (st : T) fs e :
  run (seed_boot meta (engine_new doc id dek acked st)).2 fs e ->
  StronglySorted N.lt (omap ack_of fs)
  /\ Forall (fun a => acked < a <= e_last_durable_seq e)%N (omap ack_of fs)
  /\ (acked <= e_last_durable_seq e <= e_last_contiguous_seq e)%N
  /\ (pushing e -> is_Some (e_in_flight e)).
Proof.
  intros Hr. apply run_cursors with (acked := acked) in Hr as [K1 K2 K3 K4 K5 K6]; [|by apply cursors_seed].
  apply Forall_app in K3 as [K3 _]. apply StronglySorted_app_1_l in K4. split_and!; try done; try lia; [|auto].
  eapply Forall_impl; [exact K3|]. simpl. lia.
Qed.
End runs.

(** A session on an in-memory store: two server rows, both made durable, one
    ack each. *)
Definition witness_row (n : N) : StoredBlob :=
  mkStored n (mkBlob (replicate 24 0%N)
    (match encrypt [] (replicate 24 0%N) (blob_encode ∅ {[ n ]}) with Some c => c | None => [] end)).
Definition witness_meta : BootMeta := mkBootMeta 0 0 [] None 0 0.
Definition witness_engine : Engine MemInner :=
  (seed_boot witness_meta (engine_new sync_doc_empty 9 (mkDek []) 0 mem_default)).2.
Definition witness_run : Engine MemInner :=
  foldl (fun e i => (handle i e).2) witness_engine
    [InConnected; InFrame (Some (DocOpened 9 3)); InFrame (Some (UpdatesBatch 9 [witness_row 1; witness_row 2] true));
     InDurable 1; InDurable 7].
Definition witness_drained : Engine MemInner :=
  foldl (fun e (_ : nat) => (pop_outbox e).2) witness_run [0; 1; 2; 3].

Lemma acks_monotone_witness : exists fs,
  omap ack_of fs = [1; 2]%N
  /\ Forall (fun a => 0 < a <= e_last_durable_seq witness_drained)%N (omap ack_of fs).
Proof.
  exists [OpenDoc 9; PullUpdates 9 0; Ack 9 1; Ack 9 2]. split; [reflexivity|].
  refine (proj1 (proj2 (acks_monotone witness_meta sync_doc_empty 9 (mkDek []) 0 mem_default _ _ _))).
  change [OpenDoc 9; PullUpdates 9 0; Ack 9 1; Ack 9 2]
    with (((([] ++ [OpenDoc 9]) ++ [PullUpdates 9 0]) ++ [Ack 9 1]) ++ [Ack 9 2]).
  do 4 (eapply run_pop; [|vm_compute; reflexivity]). do 5 eapply run_step. apply run_refl.
Defined.
