(* ===== verification/Recovery.v ===== *)
(** Crash recovery of the sync engine: what the engine and its storage keep in
    step, so that a document rebuilt from storage at any moment holds every
    captured operation, resumes the same push and the same cursors. *)
From S2P Require Import Prelude.
From S2P Require Import Wire.
From S2P Require Import Crypto.
From S2P Require Import Registers.
From S2P Require Import Tables.
From S2P Require Import Storage.
From S2P Require Import SyncDoc.
From S2P Require Import Instances.
From S2P Require Import Engine.
From S2P Require Import EngineFacts.

(** ** Blobs that build on one another *)

Section blobs.
Context `{Cipher, CipherOk0 : !CipherOk, Oplog, OplogOk0 : !OplogOk}.
Implicit Types (v w : VV) (b : EncryptedBlob) (d : SyncDoc).

#[export] Instance vle_preorder : PreOrder vle.
Proof. split; [intros x; apply vle_refl|intros x y z; apply vle_trans]. Qed.

Lemma merge_absorb v w : w ⊑v v -> vv_merge v w = v.
Proof. intros Hba. apply vle_antisym; [by apply vle_merge|apply vle_merge_l]. Qed.

(** [b] opens to an exported blob that builds on [v] at most and declares the
    range up to [w]. *)
Definition good_blob (dek : Dek) v b w : Prop :=
  length (eb_nonce b) = AEAD_NONCE_LEN
  /\ exists p, open_ dek (eb_ciphertext b) (eb_nonce b) = Ok p /\ exported p
     /\ blob_end_vv p = Ok w /\ blob_base p ⊑v v.

(** From [v] on, the blobs [bs] lead to [w]. *)
Inductive delivers (dek : Dek) : VV -> list EncryptedBlob -> VV -> Prop :=
  | delivers_nil v : delivers dek v [] v
  | delivers_cons v b e bs w : good_blob dek v b e -> delivers dek (vv_merge v e) bs w ->
      delivers dek v (b :: bs) w.

Lemma good_blob_weaken dek v v' b w : v ⊑v v' -> good_blob dek v b w -> good_blob dek v' b w.
Proof. intros Hv (Hn & p & ? & ? & ? & Hb). split; [done|]. exists p. split_and!; try done. by trans v. Qed.

Lemma delivers_grows dek v bs w : delivers dek v bs w -> v ⊑v w.
Proof. induction 1 as [|v b e bs w _ _ IH]; [done|]. etrans; [apply vle_merge_l|exact IH]. Qed.

Lemma delivers_snoc dek v bs w b e :
  delivers dek v bs w -> good_blob dek w b e -> delivers dek v (bs ++ [b]) (vv_merge w e).
Proof.
  induction 1 as [v|v b' e' bs w Hg _ IH]; intros Hb; cbn.
  - eapply delivers_cons; [done|]. constructor.
  - eapply delivers_cons; [done|]. by apply IH.
Qed.

(** A blob of the sequence is inside what the sequence reaches. *)
Lemma delivers_elem dek v bs w b p e :
  delivers dek v bs w -> b ∈ bs -> open_ dek (eb_ciphertext b) (eb_nonce b) = Ok p ->
  blob_end_vv p = Ok e -> e ⊑v w.
Proof.
  induction 1 as [|v b' e' bs w (Hn & p' & Ho & _ & He & _) Hd IH]; intros Hb Hp Hend; [set_solver|].
  apply elem_of_cons in Hb as [->|Hb]; [|by apply IH].
  rewrite Hp in Ho. injection Ho as ->. rewrite Hend in He. injection He as ->.
  etrans; [apply vle_merge_r|by eapply delivers_grows].
Qed.

Lemma seal_good dek nonce p b v w :
  length nonce = AEAD_NONCE_LEN -> seal_blob dek nonce p = Ok b -> exported p ->
  blob_end_vv p = Ok w -> blob_base p ⊑v v -> good_blob dek v b w.
Proof.
  intros Hn Hs Hx He Hb. unfold seal_blob, crypto in Hs.
  destruct (seal dek p nonce) as [[c n]|] eqn:Es; [|done]. cbn in Hs. injection Hs as <-.
  destruct (open_seal _ _ _ _ _ Hn Es) as [-> Ho]. split; [done|]. by exists p.
Qed.

(** Importing them advances the capture cursor to [w], and the oplog with it. *)
Lemma import_good dek b w d :
  good_blob dek (sd_last_persisted_vv d) b w -> sd_last_persisted_vv d ⊑v doc_oplog_vv d ->
  exists inner, import_remote_blob dek b d
      = (Ok w, mkSyncDoc inner (vv_merge (sd_last_persisted_vv d) w))
    /\ oplog_vv (sd_inner d) ⊑v oplog_vv inner /\ w ⊑v oplog_vv inner.
Proof.
  intros (Hn & p & Ho & Hx & He & Hb) Hd. destruct (import_exported p (sd_inner d) Hx) as [inner Hi].
  destruct (import_law _ _ _ _ Hi He) as [Hm Hw]. exists inner. split.
  - unfold import_remote_blob, crypto, loro. rewrite bool_decide_true by done. cbn [negb].
    by rewrite Ho, He, Hi.
  - split; [done|]. apply Hw. by trans (sd_last_persisted_vv d).
Qed.

Lemma import_delivers dek v bs w : delivers dek v bs w -> forall d imp,
  sd_last_persisted_vv d = v -> v ⊑v doc_oplog_vv d -> imp ⊑v w ->
  exists r d', import_batch dek bs imp d = (Ok r, d')
    /\ sd_last_persisted_vv d' = w /\ w ⊑v doc_oplog_vv d' /\ r ⊑v w
    /\ doc_oplog_vv d ⊑v doc_oplog_vv d'.
Proof.
  induction 1 as [v|v b e bs w Hg Hd IH]; intros d imp Hv Hle Hi.
  - by exists imp, d.
  - subst v. destruct (import_good _ _ _ _ Hg Hle) as (inner & E & Hm & He). cbn [import_batch].
    rewrite E.
    assert (Hew : e ⊑v w) by (etrans; [apply vle_merge_r|by eapply delivers_grows]).
    edestruct (IH (mkSyncDoc inner (vv_merge (sd_last_persisted_vv d) e)) (vv_merge imp e))
      as (r & d' & E' & Hp' & Ho' & Hr & Hg'); [done| | |].
    + apply vle_merge; [|done]. etrans; [exact Hle|exact Hm].
    + by apply vle_merge.
    + exists r, d'. split_and!; try done. etrans; [exact Hm|exact Hg'].
Qed.
End blobs.

(** ** The engine and its storage in step *)

(** What a boot replays, in order. *)
Definition mem_blobs (m : MemInner) : list EncryptedBlob :=
  match mi_snapshot m with Some s => [sr_payload s] | None => [] end ++ (mw_payload <$> mi_wal m).

(** The server-known frontier a boot reads back. *)
Definition known_of `{Oplog} (b : octets) : option VV :=
  if decide (b = []) then Some vv_default else result_ok (vv_decode b).

Section recoverable.
Context `{Cipher, CipherOk0 : !CipherOk, Oplog, OplogOk0 : !OplogOk, Entropy, EntropyOk0 : !EntropyOk}.
Context {T : Type} {id : Uuid} `{Hst : LocalStorage T, HstOk : !StorageOk T id}.
(** The document's key, and the server's immutable log. *)
Variables (dek : Dek) (server_row : N -> EncryptedBlob).
(** Loro exports the full state of any document, and it can be sealed. *)
Hypothesis export_works : forall nonce d, is_ok (snapshot_blob dek nonce d) = true.
Implicit Types (e : Engine T) (m : MemInner) (v w : VV) (tgt : option VV) (n : nat) (b : EncryptedBlob).

Definition captured e : VV := sd_last_persisted_vv (e_doc e).

(** What the blob declares lies within [v]. *)
Definition ends_within b v : Prop :=
  forall p w, open_ dek (eb_ciphertext b) (eb_nonce b) = Ok p -> blob_end_vv p = Ok w -> w ⊑v v.

Definition flight_agrees m e : Prop :=
  match mi_in_flight m, e_in_flight e with
  | None, None => True
  | Some p, Some fl =>
      if_push_id p = fl_push_id fl /\ if_payload p = fl_payload fl
      /\ vv_decode (if_to_vv p) = Ok (fl_to_vv fl) /\ fl_to_vv fl ⊑v captured e
      /\ ends_within (fl_payload fl) (fl_to_vv fl)
  | _, _ => False
  end.

(** [tgt]: while a batch is being logged the stored rows reach it only, and
    not yet the capture cursor. [n]: the local sequence numbers left. *)
Record recoverable tgt n e : Prop := {
  rc_id : e_doc_id e = id /\ e_dek e = dek;
  rc_st : st_ok (e_storage e);
  rc_seq : e_last_local_seq e = mi_next_local_seq (view (e_storage e));
  rc_rows : Forall (fun r => mw_local_seq r <= mi_next_local_seq (view (e_storage e))
              /\ forall q, mw_server_seq r = Some q -> mw_payload r = server_row q)%N
              (mi_wal (view (e_storage e)));
  rc_room : is_i63 (mi_next_local_seq (view (e_storage e)) + N.of_nat n);
  rc_doc : captured e ⊑v doc_oplog_vv (e_doc e);
  rc_replay : exists w, delivers dek vv_default (mem_blobs (view (e_storage e))) w
              /\ default (captured e) tgt ⊑v w;
  rc_known : exists v, known_of (mi_server_known_vv (view (e_storage e))) = Some v
              /\ v ⊑v e_server_known_vv e /\ (tgt = None -> v = e_server_known_vv e);
  rc_known_captured : e_server_known_vv e ⊑v captured e;
  rc_flight : flight_agrees (view (e_storage e)) e;
  rc_acked : mi_last_acked_server_seq (view (e_storage e)) = e_last_durable_seq e;
  rc_cursor : is_u64 (e_last_contiguous_seq e) /\ (e_last_durable_seq e <= e_last_contiguous_seq e)%N;
  rc_counts : e_wal_rows e = N.of_nat (length (mi_wal (view (e_storage e))))
              /\ e_wal_bytes e = wal_bytes_of (mw_payload <$> mi_wal (view (e_storage e)));
  rc_applied q : (1 <= q <= e_last_contiguous_seq e)%N -> ends_within (server_row q) (e_server_known_vv e);
}.

Lemma recoverable_weaken tgt n n' e : n' <= n -> recoverable tgt n e -> recoverable tgt n' e.
Proof. intros Hn []. split; try done. unfold is_i63 in *. lia. Qed.

(** The fields the invariant reads. *)
Definition same_core e e' : Prop :=
  e_doc_id e' = e_doc_id e /\ e_dek e' = e_dek e /\ e_storage e' = e_storage e /\
  e_last_local_seq e' = e_last_local_seq e /\ e_doc e' = e_doc e /\
  e_server_known_vv e' = e_server_known_vv e /\ e_in_flight e' = e_in_flight e /\
  e_last_durable_seq e' = e_last_durable_seq e /\ e_last_contiguous_seq e' = e_last_contiguous_seq e /\
  e_wal_rows e' = e_wal_rows e /\ e_wal_bytes e' = e_wal_bytes e.

Lemma recoverable_same tgt n e e' : same_core e e' -> recoverable tgt n e -> recoverable tgt n e'.
Proof.
  intros (E1 & E2 & E3 & E4 & E5 & E6 & E7 & E8 & E9 & E10 & E11) [].
  split; unfold flight_agrees, captured in *; rewrite ?E1, ?E2, ?E3, ?E4, ?E5, ?E6, ?E7, ?E8, ?E9, ?E10, ?E11; done.
Qed.

Ltac core := intros e He; apply (recoverable_same _ _ e); [by split_and!|exact He].
Lemma rec_emit tgt n ev : keeps (recoverable tgt n) (emit (T := T) ev).
Proof. core. Qed.
Lemma rec_error tgt n s : keeps (recoverable tgt n) (error (T := T) s).
Proof. core. Qed.
Lemma rec_go tgt n s : keeps (recoverable tgt n) (go (T := T) s).
Proof. core. Qed.
Lemma rec_draw tgt n {A} (f : nat -> A) : keeps (recoverable tgt n) (draw (T := T) f).
Proof. core. Qed.
Lemma rec_encode tgt n f : keeps (recoverable tgt n) (encode_into_outbox (T := T) f).
Proof. core. Qed.
Lemma rec_epoch tgt n epoch : keeps (recoverable tgt n) (modify_e (set_server_epoch epoch)).
Proof. core. Qed.
Lemma rec_sent tgt n seq : keeps (recoverable tgt n) (modify_e (set_last_sent_ack seq)).
Proof. core. Qed.
Lemma rec_disconnected tgt n : keeps (recoverable tgt n) (go_disconnected (T := T)).
Proof. core. Qed.
Lemma rec_send tgt n f s : keeps (recoverable tgt n) (send_or_disconnect (T := T) f s).
Proof. core. Qed.
#[local] Hint Resolve rec_emit rec_error rec_go rec_draw rec_encode rec_epoch rec_sent
  rec_disconnected rec_send : keeps.

(** *** Local work *)

Lemma wal_bytes_snoc bs b : wal_bytes_of (bs ++ [b]) = (wal_bytes_of bs + blob_len b)%N.
Proof.
  unfold wal_bytes_of. rewrite fmap_app, foldr_app. cbn. rewrite N.add_0_r.
  induction (blob_len <$> bs) as [|x l IH]; cbn; [done|]. rewrite IH. lia.
Qed.

Lemma pending_good nonce d b :
  length nonce = AEAD_NONCE_LEN -> pending_export dek nonce d = Ok (Some b) ->
  exists w, good_blob dek (sd_last_persisted_vv d) b w
    /\ doc_oplog_vv d ⊑v vv_merge (sd_last_persisted_vv d) w.
Proof.
  intros Hn. unfold pending_export, loro. destruct (negb _); [done|].
  destruct (export_updates _ _) as [p|] eqn:Ep; [|done]. cbn.
  destruct (seal_blob _ _ _) as [b'|] eqn:Es; [|done]. cbn. intros [= ->].
  destruct (export_updates_law _ _ _ Ep) as (Hx & w & He & Hw & Hm & Hb).
  exists w. split; [by eapply seal_good|done].
Qed.

Lemma pending_some nonce d :
  has_uncaptured_ops d = true -> pending_export dek nonce d <> Ok None.
Proof.
  unfold pending_export, loro. intros ->. cbn [negb].
  destruct (export_updates _ _); [|done]. by destruct (seal_blob _ _ _).
Qed.

Lemma good_ends v b w : good_blob dek v b w -> ends_within b w.
Proof. intros (_ & p & Ho & _ & He & _) p' w' Ho' He'.
  rewrite Ho in Ho'. injection Ho' as <-. rewrite He in He'. injection He' as <-. apply vle_refl.
Qed.
Lemma ends_weaken b v w : v ⊑v w -> ends_within b v -> ends_within b w.
Proof. intros Hv Hb p x Ho He. etrans; [by eapply Hb|exact Hv]. Qed.

Lemma export_since_ends nonce from d b :
  length nonce = AEAD_NONCE_LEN -> export_updates_since dek nonce from d = Ok (Some b) ->
  ends_within b (doc_oplog_vv d).
Proof.
  intros Hn. unfold export_updates_since, loro. destruct (vv_includes _ _); [done|].
  destruct (export_updates _ _) as [p|] eqn:Ep; [|done]. cbn. case_decide; [done|].
  destruct (seal_blob _ _ _) as [b'|] eqn:Es; [|done]. cbn. intros [= ->].
  destruct (export_updates_law _ _ _ Ep) as (Hx & w & He & Hw & _ & _).
  eapply ends_weaken; [exact Hw|]. eapply good_ends, seal_good; try done.
Qed.

Lemma snapshot_good nonce d b :
  length nonce = AEAD_NONCE_LEN -> snapshot_blob dek nonce d = Ok b ->
  good_blob dek vv_default b (doc_oplog_vv d).
Proof.
  intros Hn. unfold snapshot_blob, loro. destruct (export_snapshot _) as [p|] eqn:Ep; [|done]. cbn.
  intros Hs. destruct (export_snapshot_law _ _ Ep) as (Hx & He & Hb). by eapply seal_good.
Qed.

(** One more row of the log. *)
Lemma rec_appended tgt tgt' n e e' row known' w :
  recoverable tgt (S n) e ->
  view (e_storage e') = mkMem (mw_local_seq row) (mi_snapshot (view (e_storage e)))
    (mi_wal (view (e_storage e)) ++ [row]) (mi_last_acked_server_seq (view (e_storage e)))
    known' (mi_in_flight (view (e_storage e))) ->
  st_ok (e_storage e') -> mw_local_seq row = (mi_next_local_seq (view (e_storage e)) + 1)%N ->
  (forall q, mw_server_seq row = Some q -> mw_payload row = server_row q) ->
  good_blob dek (default (captured e) tgt) (mw_payload row) w ->
  default (captured e') tgt' ⊑v vv_merge (default (captured e) tgt) w ->
  captured e ⊑v captured e' -> captured e' ⊑v doc_oplog_vv (e_doc e') ->
  (exists v, known_of known' = Some v /\ v ⊑v e_server_known_vv e /\ (tgt' = None -> v = e_server_known_vv e)) ->
  e_doc_id e' = e_doc_id e -> e_dek e' = e_dek e -> e_last_local_seq e' = mw_local_seq row ->
  e_server_known_vv e' = e_server_known_vv e -> e_in_flight e' = e_in_flight e ->
  e_last_durable_seq e' = e_last_durable_seq e -> e_last_contiguous_seq e' = e_last_contiguous_seq e ->
  e_wal_rows e' = (e_wal_rows e + 1)%N -> e_wal_bytes e' = (e_wal_bytes e + blob_len (mw_payload row))%N ->
  recoverable tgt' n e'.
Proof.
  intros [K1 K2 K3 K4 K5 K6 [w0 [Hd Hw]] K8 K9 K10 K11 K12 [K13 K13'] K14] Hv Hs Hrow Hsrv Hg Ht Hc Hcd Hk
    E1 E2 E3 E4 E5 E6 E7 E8 E9.
  split; rewrite ?Hv, ?E1, ?E2, ?E3, ?E4, ?E5, ?E6, ?E7, ?E8, ?E9; cbn; try done.
  - apply Forall_app. split; [|by repeat constructor].
    eapply Forall_impl; [exact K4|]. cbn. intros r [Hr Hr']. split; [lia|done].
  - unfold is_i63 in *. lia.
  - exists (vv_merge w0 w). split.
    + unfold mem_blobs. cbn. rewrite fmap_app, app_assoc.
      apply (delivers_snoc _ _ _ _ _ _ Hd). by eapply good_blob_weaken.
    + etrans; [exact Ht|]. apply vle_merge; [|apply vle_merge_r]. etrans; [exact Hw|apply vle_merge_l].
  - by trans (captured e).
  - unfold flight_agrees in *. cbn. rewrite E5. destruct (mi_in_flight _), (e_in_flight e); try done.
    destruct K10 as (? & ? & ? & ? & ?). split_and!; try done. by trans (captured e).
  - rewrite length_app, K13, K13'. split; [cbn; lia|]. rewrite fmap_app. symmetry. apply wal_bytes_snoc.
Qed.

Lemma known_encoded v : known_of (vv_encode v) = Some v.
Proof. unfold known_of. rewrite decide_False by apply vv_encode_ne. by rewrite vv_decode_encode. Qed.

Lemma stored_known n e : recoverable None n e ->
  known_of (mi_server_known_vv (view (e_storage e))) = Some (e_server_known_vv e).
Proof. intros He. destruct (rc_known _ _ _ He) as (v & Hv & _ & Heq). rewrite Hv. f_equal. by apply Heq. Qed.

(** A capture stores the new operations and the capture cursor passes them. *)
Lemma rec_capture n e :
  recoverable None (S n) e ->
  recoverable None n (capture_local_ops e).2
  /\ (is_ok (capture_local_ops e).1 = true ->
      doc_oplog_vv (e_doc (capture_local_ops e).2) ⊑v captured (capture_local_ops e).2).
Proof.
  intros He. unfold capture_local_ops, get_e, mbind, E_bind. cbn [fst snd].
  destruct (has_uncaptured_ops (e_doc e)) eqn:Eu; cbn [negb].
  2: { split; [by apply (recoverable_weaken _ (S n)); [lia|]|]. intros _.
    unfold has_uncaptured_ops in Eu. apply negb_false_iff, bool_decide_eq_true in Eu. cbn.
    unfold captured. rewrite Eu. apply vle_refl. }
  pose proof (rec_draw None (S n) nonce_at e He) as He1. revert He1. destruct (draw nonce_at e) as [nonce e1] eqn:Ee.
  injection Ee as <- <-. cbn [fst snd]. intros He1.
  assert (Hw1 : recoverable None n (set_drawn (S (e_drawn e)) e)) by (apply (recoverable_weaken _ (S n)); [lia|done]).
  pose proof (rc_id _ _ _ He) as [Hid Hdek]. rewrite Hdek.
  destruct (pending_export _ _ _) as [[b|]|er] eqn:Ep; [|by apply pending_some in Ep|by split].
  destruct (pending_good _ _ _ (nonce_length _) Ep) as (v & Hg & Hv).
  destruct He1 as [_ K2 K3 K4 K5 K6 [w [Hd Hw]] K8 K9 K10 K11 K12 [K13 K13'] K14].
  unfold stored. cbn [fst snd].
  set (s1 := e_storage _) in *. rewrite (Hid : e_doc_id (set_drawn _ e) = id).
  destruct (append_local_view b s1 K2) as (R1 & R2 & R3); [unfold is_i63 in *; lia|].
  destruct (append_local_wal id b s1) as [r s2]. cbn [fst snd] in *. subst r. cbn.
  split; [|intros _; apply vle_merge_r].
  eapply (rec_appended None None n e _ (mkMemRow (mi_next_local_seq (view s1) + 1) None b)); try done; cbn.
  - exact R2.
  - unfold captured. cbn. apply vle_merge; [apply vle_merge_l|done].
  - apply vle_merge_l.
  - apply vle_merge; [exact K6|apply vle_refl].
Qed.

(** A fold replaces every row by one snapshot of the whole document. *)
Lemma rec_folded tgt n e e' b :
  recoverable tgt n e ->
  known_of (mi_server_known_vv (view (e_storage e))) = Some (e_server_known_vv e) ->
  view (e_storage e') = (mem_write_snapshot id (e_last_local_seq e) b (view (e_storage e))).2 ->
  st_ok (e_storage e') -> good_blob dek vv_default b (doc_oplog_vv (e_doc e)) ->
  captured e ⊑v captured e' -> captured e' ⊑v doc_oplog_vv (e_doc e) -> sd_inner (e_doc e') = sd_inner (e_doc e) ->
  e_doc_id e' = e_doc_id e -> e_dek e' = e_dek e -> e_last_local_seq e' = e_last_local_seq e ->
  e_server_known_vv e' = e_server_known_vv e -> e_in_flight e' = e_in_flight e ->
  e_last_durable_seq e' = e_last_durable_seq e -> e_last_contiguous_seq e' = e_last_contiguous_seq e ->
  e_wal_rows e' = 0%N -> e_wal_bytes e' = 0%N ->
  recoverable None n e'.
Proof.
  intros [K1 K2 K3 K4 K5 K6 K7 K8 K9 K10 K11 K12 K13 K14] Hk Hv Hs Hg Hc Hcd Hi E1 E2 E3 E4 E5 E6 E7 E8 E9.
  assert (Hf : base.filter (fun r => e_last_local_seq e < mw_local_seq r)%N (mi_wal (view (e_storage e))) = []).
  { destruct (base.filter _ _) as [|r l] eqn:Ef; [done|exfalso].
    assert (Hin : r ∈ r :: l) by left. rewrite <- Ef in Hin. apply list_elem_of_filter in Hin as [Hr Hin].
    rewrite Forall_forall in K4. destruct (K4 r Hin) as [Hle _]. rewrite K3 in Hr. lia. }
  unfold mem_write_snapshot in Hv. rewrite Hf in Hv. cbn in Hv.
  split; rewrite ?Hv, ?E1, ?E2, ?E3, ?E4, ?E5, ?E6, ?E7, ?E8, ?E9; cbn; try done.
  - unfold doc_oplog_vv. by rewrite Hi.
  - exists (vv_merge vv_default (doc_oplog_vv (e_doc e))). split.
    + unfold mem_blobs. cbn. eapply delivers_cons; [done|constructor].
    + etrans; [exact Hcd|apply vle_merge_r].
  - exists (e_server_known_vv e). split_and!; [done|apply vle_refl|done].
  - by trans (captured e).
  - unfold flight_agrees in *. cbn. rewrite E5. destruct (mi_in_flight _), (e_in_flight e); try done.
    destruct K10 as (? & ? & ? & ? & ?). split_and!; try done. by trans (captured e).
Qed.

Lemma rec_write_snapshot n : keeps (recoverable None n) (write_local_snapshot (T := T)).
Proof.
  intros e He. unfold write_local_snapshot, get_e, mbind, E_bind. cbn [fst snd].
  pose proof (rec_draw None n nonce_at e He) as He1. revert He1. destruct (draw nonce_at e) as [nonce e1] eqn:Ee.
  injection Ee as <- <-. cbn [fst snd]. intros He1.
  pose proof (rc_id _ _ _ He) as [Hid Hdek]. rewrite Hdek.
  destruct (snapshot_blob _ _ _) as [b|er] eqn:Es; [|done].
  apply (snapshot_good _ _ _ (nonce_length _)) in Es. pose proof (rc_st _ _ _ He) as Hs.
  unfold stored. cbn [fst snd].
  rewrite (Hid : e_doc_id (set_drawn _ e) = id). change (e_storage (set_drawn _ e)) with (e_storage e).
  destruct (write_snapshot_view (e_last_local_seq e) b (e_storage e) Hs) as (R1 & R2 & R3).
  { pose proof (rc_room _ _ _ He). pose proof (rc_seq _ _ _ He). unfold is_i63 in *. lia. }
  destruct (write_snapshot id _ b _) as [r s2]. cbn [fst snd] in *. subst r. cbn.
  apply (rec_folded None n e _ b); try done; [by eapply stored_known|apply (rc_doc _ _ _ He)].
Qed.

(** The durable push record. *)
Lemma rec_push_record n : leads (recoverable None (S n)) (start_push_record (T := T)) (recoverable None n).
Proof.
  intros e He. unfold start_push_record. unfold mbind at 1, E_bind at 1.
  destruct (rec_capture n e He) as [H1' H2']. destruct (capture_local_ops e) as [r e1]. cbn [fst snd] in *.
  destruct r as [o|er]; [|by apply rec_error]. specialize (H2' eq_refl). unfold captured in H2'.
  unfold get_e, mbind, E_bind. cbn [fst snd]. pose proof H1' as He2'.
  pose proof (rec_draw None n nonce_at e1 H1') as He2. destruct (draw nonce_at e1) as [nonce e2] eqn:Ee2.
  assert (Hn : length nonce = AEAD_NONCE_LEN) by (unfold draw in Ee2; simplify_eq; apply nonce_length).
  assert (Ec2 : e_doc e1 = e_doc e2 /\ e_server_known_vv e1 = e_server_known_vv e2)
    by (unfold draw in Ee2; by simplify_eq).
  destruct Ec2 as [Ed2 Ek2]. rewrite Ed2, Ek2 in *. clear Ee2 H1'. cbn [fst snd] in *.
  rewrite (proj2 (rc_id _ _ _ He2')) in *.
  destruct (export_updates_since _ _ _ _) as [[b|]|er] eqn:Ex; [|done|by apply rec_error].
  pose proof (rec_draw None n uuid_at e2 He2) as He3. destruct (draw uuid_at e2) as [push_id e3] eqn:Ee3.
  assert (Ed3 : e_doc e2 = e_doc e3) by (unfold draw in Ee3; by simplify_eq).
  rewrite Ed3 in *. clear Ee3 He2. cbn [fst snd] in *.
  unfold stored. cbn [fst snd]. destruct (rc_id _ _ _ He3) as [Hid _]. rewrite Hid.
  destruct (put_in_flight_view (mkInFlight push_id b (vv_encode (e_server_known_vv e2)) (vv_encode (doc_oplog_vv (e_doc e3))))
    (e_storage e3) (rc_st _ _ _ He3)) as (R1 & R2 & R3).
  destruct (put_in_flight_push id _ _) as [r s2]. cbn [fst snd] in *. subst r. cbn.
  destruct He3. split; cbn; rewrite ?R2; cbn; try done.
  unfold flight_agrees. cbn. split_and!; [done|done|apply vv_decode_encode|exact H2'|].
  by apply (export_since_ends _ _ _ _ Hn Ex).
Qed.

Lemma rec_try_start_push n : leads (recoverable None (S n)) (try_start_push (T := T)) (recoverable None n).
Proof.
  assert (Hw : forall e, recoverable None (S n) e -> recoverable None n e)
    by (intros e; apply recoverable_weaken; lia).
  apply leads_get. intros st. apply (leads_weaken _ (recoverable None (S n))); [tauto|].
  case_decide; [intros e He; by apply Hw|].
  eapply leads_bind; [apply keeps_get_e|]. intros fl. eapply (leads_bind _ (recoverable None n)).
  - destruct fl; [intros e He; by apply Hw|apply rec_push_record].
  - intros ready. as_keeps. destruct ready; keep.
Qed.

(** *** Remote work *)

(** One row logged: new, or the row the log already has. *)
Lemma rec_log_remote n v w update e :
  recoverable (Some v) (S n) e -> good_blob dek v (sb_blob update) w ->
  sb_blob update = server_row (sb_seq update) -> is_u64 (sb_seq update) ->
  recoverable (Some (vv_merge v w)) n (log_remote (vv_encode (e_server_known_vv e)) update e).2
  /\ e_server_known_vv (log_remote (vv_encode (e_server_known_vv e)) update e).2 = e_server_known_vv e
  /\ known_of (mi_server_known_vv (view (e_storage (log_remote (vv_encode (e_server_known_vv e)) update e).2)))
     = Some (e_server_known_vv e).
Proof.
  intros He Hg Hrow Hu. unfold log_remote, stored, mbind, E_bind. cbn [fst snd].
  destruct (rc_id _ _ _ He) as [Hid _]. rewrite Hid.
  pose proof (rc_room _ _ _ He) as Hroom. pose proof (rc_st _ _ _ He) as Hs.
  destruct (append_remote_view (mkRemote (sb_seq update) (sb_blob update))
    (vv_encode (e_server_known_vv e)) (e_storage e) Hs) as (R1 & R2 & R3); [unfold is_i63 in *; lia|done|].
  destruct (append_remote_wal id _ _ _) as [r s2]. cbn [fst snd] in *. subst r.
  unfold mem_append_remote_wal in *. cbn [rw_server_seq rw_payload] in *.
  pose proof (known_encoded (e_server_known_vv e)) as Hk.
  destruct (list_find _ _) as [[i row]|] eqn:Ef; cbn [fst snd] in *.
  - split_and!; [|done|by cbn; rewrite R2]. apply list_find_Some in Ef as (Hl & Hq & _).
    destruct He as [K1 K2 K3 K4 K5 K6 [w0 [Hd Hw]] K8 K9 K10 K11 K12 K13 K14].
    split; cbn; rewrite ?R2; cbn; try done.
    { unfold is_i63 in *; lia. }
    2: { exists (e_server_known_vv e). split_and!; [done|apply vle_refl|done]. }
    exists w0. split; [done|]. apply vle_merge; [done|].
    destruct Hg as (_ & p & Ho & _ & Hend & _). eapply delivers_elem; [exact Hd| |exact Ho|exact Hend].
    apply list_elem_of_lookup_2 in Hl. rewrite Forall_forall in K4. destruct (K4 row Hl) as [_ Hp].
    rewrite Hrow, <- (Hp _ Hq). unfold mem_blobs. apply elem_of_app. right. by apply list_elem_of_fmap_2.
  - split_and!; [|done|by cbn; rewrite R2]. cbn.
    eapply (rec_appended (Some v) (Some (vv_merge v w)) n e _
      (mkMemRow (mi_next_local_seq (view (e_storage e)) + 1) (Some (sb_seq update)) (sb_blob update))); try done; cbn.
    + by intros q [= <-].
    + apply (rc_doc _ _ _ He).
    + exists (e_server_known_vv e). split_and!; [done|apply vle_refl|done].
Qed.

(** A whole batch. *)
Lemma rec_log_batch n known w updates : forall v e, delivers dek v (sb_blob <$> updates) w ->
  recoverable (Some v) (length updates + n) e -> e_server_known_vv e = known ->
  Forall (fun u => sb_blob u = server_row (sb_seq u) /\ is_u64 (sb_seq u)) updates ->
  recoverable (Some w) n (efor updates (log_remote (vv_encode known)) e).2
  /\ e_server_known_vv (efor updates (log_remote (vv_encode known)) e).2 = known
  /\ (updates <> [] \/ known_of (mi_server_known_vv (view (e_storage e))) = Some known ->
     known_of (mi_server_known_vv (view (e_storage (efor updates (log_remote (vv_encode known)) e).2)))
     = Some known).
Proof.
  induction updates as [|u updates IH]; intros v e Hd He <- Hf; cbn [fmap list_fmap] in Hd; inversion Hd; subst.
  - split_and!; [exact He|done|by intros [?|?]].
  - apply Forall_cons in Hf as [[Hr Hu] Hf]. cbn [efor]. unfold mbind, E_bind.
    destruct (rec_log_remote (length updates + n) v _ u e He ltac:(eassumption) Hr Hu) as (He' & Hk' & Hs').
    edestruct IH as (He2 & Hk2 & Hs2); [eassumption..|].
    split_and!; [exact He2|exact Hk2|]. intros _. apply Hs2. by right.
Qed.

Lemma recoverable_retarget w n e :
  recoverable (Some w) n e -> captured e ⊑v w ->
  known_of (mi_server_known_vv (view (e_storage e))) = Some (e_server_known_vv e) -> recoverable None n e.
Proof.
  intros [K1 K2 K3 K4 K5 K6 [w0 [Hd Hw]] K8 K9 K10 K11 K12 K13 K14] Hc Hk. split; try done.
  - exists w0. split; [done|]. by trans w.
  - exists (e_server_known_vv e). split_and!; [done|apply vle_refl|done].
Qed.

Lemma log_doc updates known e : e_doc (efor updates (log_remote known) e).2 = e_doc e.
Proof.
  revert e. induction updates as [|u updates IH]; intros e; [done|]. cbn [efor].
  unfold mbind, E_bind. rewrite IH. unfold log_remote, stored, mbind, E_bind. cbn [fst snd].
  by destruct (append_remote_wal _ _ _ _) as [[[? []]|] ?].
Qed.

(** The server's rows of a frame: sealed with the document's key, each building
    on what the document has, the sequence number naming the row. *)
Definition rows_ok v (updates : list StoredBlob) : Prop :=
  (exists w, delivers dek v (sb_blob <$> updates) w)
  /\ Forall (fun u => sb_blob u = server_row (sb_seq u) /\ is_u64 (sb_seq u)) updates.

Lemma rec_ingest tgt n q known : is_u64 q -> ends_within (server_row q) known ->
  keeps (fun e => recoverable tgt n e /\ e_server_known_vv e = known) (ingest_seq (T := T) q).
Proof.
  intros Hq Hr. apply leads_get. intros last e [[He Hk] Hl]. case_decide as Hn; [|done]. split; [|done].
  destruct He as [K1 K2 K3 K4 K5 K6 K7 K8 K9 K10 K11 K12 K13 K14]. split; try done.
  - split; [done|]. simpl. lia.
  - intros q' Hq'. simpl in *. destruct (decide (q' = q)) as [->|]; [by rewrite Hk|]. apply K14. lia.
Qed.
Lemma rec_announce tgt n q : keeps (recoverable tgt n) (announce_frontier (T := T) q).
Proof. unfold announce_frontier. keep. Qed.
Lemma rec_pull tgt n : keeps (recoverable tgt n) (pull (T := T)).
Proof. unfold pull. keep. Qed.
#[local] Hint Resolve rec_announce rec_pull : keeps.

(** The frontier a batch returns covers every blob of it. *)
Lemma import_ends bs : forall imp d r d', import_batch dek bs imp d = (Ok r, d') ->
  imp ⊑v r /\ forall b, b ∈ bs -> ends_within b r.
Proof.
  induction bs as [|b bs IH]; intros imp d r d'; cbn [import_batch].
  - intros [= <- <-]. split; [apply vle_refl|]. intros b Hb. by apply not_elem_of_nil in Hb.
  - destruct (import_remote_blob dek b d) as [[v|] d1] eqn:Ei; [|done]. intros Hr.
    destruct (IH _ _ _ _ Hr) as [Hle Hb]. split; [etrans; [apply vle_merge_l|exact Hle]|].
    intros b' [->|Hb']%elem_of_cons; [|by apply Hb].
    eapply ends_weaken; [etrans; [apply vle_merge_r|exact Hle]|].
    unfold import_remote_blob, crypto, loro in Ei. destruct (negb _); [done|]. intros p w Ho He.
    rewrite Ho, He in Ei. destruct (import_with p _); [|done]. injection Ei as <- _. apply vle_refl.
Qed.

(** An import: the document and the server-known frontier are ahead of the log. *)
Lemma rec_imported n e d' vv w :
  recoverable None n e -> sd_last_persisted_vv d' = w -> w ⊑v doc_oplog_vv d' -> vv ⊑v w ->
  captured e ⊑v w ->
  recoverable (Some (captured e)) n
    (set_server_known_vv (vv_merge (e_server_known_vv e) vv) (set_doc d' e)).
Proof.
  intros [K1 K2 K3 K4 K5 K6 K7 K8 K9 K10 K11 K12 K13 K14] Hp Ho Hr Hc.
  split; unfold flight_agrees, captured in *; cbn; rewrite ?Hp; try done.
  - destruct K8 as (v & Hv & Hle & _). exists v. split_and!; [done| |done]. etrans; [exact Hle|apply vle_merge_l].
  - apply vle_merge; [|done]. etrans; [exact K9|exact Hc].
  - destruct (mi_in_flight _), (e_in_flight e); try done.
    destruct K10 as (? & ? & ? & Hto & ?). split_and!; try done. etrans; [exact Hto|exact Hc].
  - intros q Hq. eapply ends_weaken; [apply vle_merge_l|by apply K14].
Qed.

Lemma rec_apply n updates e :
  rows_ok (captured e) updates -> recoverable None (length updates + n) e ->
  recoverable None n (apply_remote_updates updates e).2.
Proof.
  intros [[w Hd] Hf] He. unfold apply_remote_updates. case_decide as Hu.
  { subst updates. cbn in *. exact He. }
  unfold get_e, mbind, E_bind. cbn [fst snd].
  destruct (rc_id _ _ _ He) as [_ ->].
  destruct (import_delivers _ _ _ _ Hd (e_doc e) vv_default) as (vv & d' & Ei & Hp & Ho & Hr & _);
    [done|apply (rc_doc _ _ _ He)|apply vle_default|].
  pose proof (import_ends _ _ _ _ _ Ei) as [_ Hends].
  unfold apply_remote_batch. rewrite Ei. unfold modify_e, mbind, E_bind. cbn [fst snd].
  set (e1 := set_server_known_vv _ _).
  assert (He1 : recoverable (Some (captured e)) (length updates + n) e1)
    by (apply (rec_imported (length updates + n) e d' vv w); try done; by eapply delivers_grows).
  apply rec_announce.
  assert (Hk : keeps (fun e => recoverable None n e /\ e_server_known_vv e = e_server_known_vv e1)
    (efor updates (fun update => ingest_seq (T := T) (sb_seq update)))).
  { apply keeps_efor. intros u Hin. rewrite Forall_forall in Hf. destruct (Hf u Hin) as [Hrow Hu64].
    apply rec_ingest; [done|]. rewrite <- Hrow. eapply ends_weaken; [apply vle_merge_r|].
    apply Hends. by apply list_elem_of_fmap_2. }
  destruct (rec_log_batch n _ _ _ _ _ Hd He1 eq_refl Hf) as (He2 & Hk2 & Hs2).
  apply Hk. split; [|exact Hk2]. apply (recoverable_retarget w); [exact He2| |].
  - unfold captured. rewrite log_doc. cbn. rewrite Hp. apply vle_refl.
  - rewrite Hs2, Hk2 by (by left). done.
Qed.

(** The ack: the record leaves the engine and the storage together. *)
Lemma rec_acked fl n e :
  recoverable None n e -> e_in_flight e = Some fl ->
  recoverable None n ((modify_e (set_in_flight None) ;;
    modify_e (fun e => set_server_known_vv (vv_merge (e_server_known_vv e) (fl_to_vv fl)) e) ;;
    known ← get_e e_server_known_vv;
    r ← stored (fun id => complete_push id (fl_push_id fl) (vv_encode known));
    match r with Ok _ => mret tt | Err _ => error "storage.complete_push" end) e).2
  /\ ends_within (fl_payload fl) (vv_merge (e_server_known_vv e) (fl_to_vv fl)).
Proof.
  intros [K1 K2 K3 K4 K5 K6 K7 K8 K9 K10 K11 K12 K13 K14] Hfl.
  unfold modify_e, get_e, stored, mbind, E_bind. cbn. rewrite (proj1 K1).
  set (known := vv_merge _ _).
  destruct (complete_push_view (fl_push_id fl) (vv_encode known) (e_storage e) K2) as (R1 & R2 & R3).
  destruct (complete_push id _ _ _) as [r s2]. cbn [fst snd] in *. subst r. cbn.
  unfold flight_agrees in K10. rewrite Hfl in K10. destruct (mi_in_flight _) as [p|] eqn:Ep; [|done].
  destruct K10 as (Hid & _ & _ & Hto & Hends).
  split; [|eapply ends_weaken; [apply vle_merge_r|exact Hends]].
  split; cbn; rewrite ?R2; cbn; try done.
  - exists known. rewrite known_encoded. split_and!; [done|apply vle_refl|done].
  - by apply vle_merge.
  - unfold flight_agrees. cbn. rewrite Ep. cbn. by rewrite decide_True by congruence.
  - intros q Hq. eapply ends_weaken; [apply vle_merge_l|by apply K14].
Qed.

(** An ack names the server row of the push it acknowledges. *)
Definition ack_ok e (a : PushAck) : Prop :=
  is_u64 (pa_seq a) /\ forall fl, e_in_flight e = Some fl -> pa_push_id a = fl_push_id fl ->
    server_row (pa_seq a) = fl_payload fl.

Lemma rec_updates_ack n acks :
  leads (fun e => recoverable None (S n) e /\ Forall (ack_ok e) acks)
    (handle_updates_ack (T := T) acks) (recoverable None n).
Proof.
  assert (Hw : forall e, recoverable None (S n) e -> recoverable None n e)
    by (intros e; apply recoverable_weaken; lia).
  apply leads_get. intros st. destruct (negb _); [intros e [[He _] _]; by apply rec_error, Hw|].
  apply leads_get. intros fl e [[[He Ha] _] Hfl]. destruct fl as [fl|].
  2: { assert (Hk : keeps (recoverable None n)
         (error (T := T) "UpdatesAck with no in-flight push" ;; go Idle)) by keep.
       exact (Hk e (Hw e He)). }
  destruct acks as [|ack [|]]; [by apply rec_error, Hw| |by apply rec_error, Hw].
  case_decide as Hid; [|by apply rec_error, Hw]. apply Forall_cons in Ha as [[Hu Ha] _].
  destruct (rec_acked fl (S n) e He Hfl) as [He' Hends]. rewrite <- (Ha fl Hfl Hid) in Hends.
  set (known := vv_merge _ _) in Hends.
  assert (Hk : leads (fun e => recoverable None (S n) e /\ e_server_known_vv e = known)
    (prev ← get_e (T := T) e_last_contiguous_seq;
     ingest_seq (pa_seq ack) ;; announce_frontier prev ;; emit EvPushed ;; go Idle ;; try_start_push)
    (recoverable None n)).
  { apply keeps_leads; [keep|]. intros prev. apply keeps_leads; [by apply rec_ingest|].
    intros _. apply (leads_weaken _ (recoverable None (S n))); [tauto|].
    do 3 (apply keeps_leads; [keep|]; intros _). apply rec_try_start_push. }
  refine (Hk _ (conj He' _)). unfold modify_e, get_e, stored, mbind, E_bind. cbn [fst snd].
  by destruct (complete_push _ _ _ _) as [[?|?] ?].
Qed.

Lemma rec_notify n q : keeps (recoverable None n) (notify_oplog_durable (T := T) q).
Proof.
  apply leads_get. intros cont. apply leads_get. intros durable e [[He Hc] Hd].
  cbn zeta. destruct (durable <? N.min q cont)%N eqn:En; [|exact He]. apply N.ltb_lt in En.
  unfold modify_e, stored, mbind, E_bind. cbn [fst snd].
  destruct He as [K1 K2 K3 K4 K5 K6 K7 K8 K9 K10 K11 K12 K13 K14]. pose proof (proj1 K1) as Hid.
  cbn. rewrite Hid. subst cont durable.
  destruct (write_acked_view (N.min q (e_last_contiguous_seq e)) (e_storage e) K2) as (R1 & R2 & R3).
  { unfold is_u64 in *. lia. }
  destruct (write_acked_seq id _ _) as [r s2]. cbn [fst snd] in *. subst r. cbn.
  assert (Hq : keeps (recoverable None n) (queue_ack_if_advanced (T := T)))
    by (unfold queue_ack_if_advanced; keep).
  apply Hq. split; cbn; rewrite ?R2; cbn; try done. split; [apply K12|]. lia.
Qed.

(** The server-known frontier covers the rows up to [q]. *)
Definition covers_rows q v : Prop := forall q', (1 <= q' <= q)%N -> ends_within (server_row q') v.

Lemma rec_raise tgt n q : is_u64 q ->
  leads (fun e => recoverable tgt n e /\ covers_rows q (e_server_known_vv e))
    (raise_frontier (T := T) q) (recoverable tgt n).
Proof.
  intros Hq. apply leads_get. intros last e [[He Hc] Hl]. destruct (last <? q)%N eqn:Eq; [|done].
  apply N.ltb_lt in Eq. apply rec_emit. destruct He. split; try done. split; [done|]. simpl. lia.
Qed.

Lemma rec_finish_bootstrap tgt n q : is_u64 q ->
  leads (fun e => recoverable tgt n e /\ covers_rows q (e_server_known_vv e))
    (finish_bootstrap (T := T) q) (recoverable None n).
Proof.
  intros Hq e [He Hcov]. unfold finish_bootstrap, get_e, mbind, E_bind. cbn [fst snd].
  assert (He1 : recoverable tgt n (stored (fun id => write_server_known_vv id (vv_encode (e_server_known_vv e))) e).2
    /\ (stored (fun id => write_server_known_vv id (vv_encode (e_server_known_vv e))) e).1 = Ok tt
    /\ known_of (mi_server_known_vv (view (e_storage
         (stored (fun id => write_server_known_vv id (vv_encode (e_server_known_vv e))) e).2)))
       = Some (e_server_known_vv e)).
  { destruct He as [K1 K2 K3 K4 K5 K6 K7 K8 K9 K10 K11 K12 K13 K14]. unfold stored. cbn [fst snd].
    rewrite (proj1 K1).
    destruct (write_known_view (vv_encode (e_server_known_vv e)) (e_storage e) K2) as (R1 & R2 & R3).
    destruct (write_server_known_vv id _ _) as [r s2]. cbn [fst snd] in *. subst r.
    split_and!; [|done|cbn; rewrite R2; apply known_encoded].
    split; cbn; rewrite ?R2; cbn; try done. exists (e_server_known_vv e). rewrite known_encoded.
    split_and!; [done|apply vle_refl|done]. }
  assert (Hsame : e_server_known_vv
      (stored (fun id => write_server_known_vv id (vv_encode (e_server_known_vv e))) e).2
      = e_server_known_vv e) by done.
  destruct (stored _ e) as [r e1]. cbn [fst snd] in He1, Hsame. rewrite <- Hsame in Hcov, He1.
  destruct He1 as (He1 & -> & Hk1). cbn [fst snd].
  pose proof (rec_draw tgt n nonce_at e1 He1) as He2. destruct (draw nonce_at e1) as [nonce e2] eqn:Ed.
  injection Ed as Hn <-. cbn [fst snd] in *. destruct (rc_id _ _ _ He1) as [Hid Hdek].
  destruct (snapshot_blob _ _ _) as [b|er] eqn:Es.
  2: { pose proof (export_works (nonce_at (e_drawn e1)) (e_doc e1)) as Hx. rewrite <- Hdek in Hx.
       rewrite Hn in Hx. cbn in Es. by rewrite Es in Hx. }
  rewrite Hdek, <- Hn in Es. apply (snapshot_good _ _ _ (nonce_length _)) in Es.
  unfold stored. cbn [fst snd]. rewrite (Hid : e_doc_id (set_drawn _ e1) = id).
  destruct (write_snapshot_view (e_last_local_seq e1) b (e_storage e1) (rc_st _ _ _ He1)) as (R1 & R2 & R3).
  { pose proof (rc_room _ _ _ He1). pose proof (rc_seq _ _ _ He1). unfold is_i63 in *. lia. }
  change (e_storage (set_drawn _ e1)) with (e_storage e1).
  destruct (write_snapshot id _ b _) as [r s2]. cbn [fst snd] in *. subst r. cbn [fst snd].
  apply rec_pull, rec_go, rec_raise; [done|]. split; [|exact Hcov].
  apply (rec_folded tgt n e1 _ b); try done; cbn; [apply vle_merge_l|].
  apply vle_merge; [apply (rc_doc _ _ _ He1)|apply vle_refl].
Qed.

Lemma rec_snapshot n q blob w :
  is_u64 q ->
  leads (fun e => recoverable None n e /\ good_blob dek (captured e) blob w
      /\ covers_rows q (vv_merge (e_server_known_vv e) w))
    (handle_snapshot (T := T) q blob true) (recoverable None n).
Proof.
  intros Hq. apply leads_get. intros st e [(He & Hg & Hcov) Hs]. case_decide; [by apply rec_error|].
  unfold get_e, mbind, E_bind. cbn [fst snd]. rewrite (proj2 (rc_id _ _ _ He)).
  assert (Hd : delivers dek (captured e) [blob] (vv_merge (captured e) w)) by (eapply delivers_cons; [exact Hg|constructor]).
  destruct (import_delivers _ _ _ _ Hd (e_doc e) vv_default eq_refl (rc_doc _ _ _ He) (vle_default _))
    as (vv & d' & Ei & Hp & Ho & Hr & _).
  unfold apply_remote_batch. rewrite Ei. unfold modify_e, mbind, E_bind. cbn [fst snd].
  apply (rec_finish_bootstrap (Some (captured e)) n q Hq). split.
  - apply (rec_imported n e d' vv (vv_merge (captured e) w)); try done. apply vle_merge_l.
  - destruct (import_ends _ _ _ _ _ Ei) as [_ Hends]. intros q' Hq'. cbn.
    eapply ends_weaken; [|by apply Hcov]. apply vle_merge; [apply vle_merge_l|].
    etrans; [|apply vle_merge_r]. destruct Hg as (_ & p & Hp' & _ & He' & _).
    eapply Hends; [by left|exact Hp'|exact He'].
Qed.

(** *** Frames and host calls *)

(** What the invariant asks of a frame: rows and snapshots as other devices of
    the document produce them and the server keeps them. A snapshot chain
    arrives as one complete row. *)
Definition frame_ok e (f : ServerFrame) : Prop :=
  match f with
  | UpdatesBatch _ updates _ | UpdatesBroadcast _ updates => rows_ok (captured e) updates
  | UpdatesAck _ acks => Forall (ack_ok e) acks
  | Snapshot _ q blob complete =>
      complete = true /\ is_u64 q
      /\ exists w, good_blob dek (captured e) blob w /\ covers_rows q (vv_merge (e_server_known_vv e) w)
  | _ => True
  end.

Definition frame_cost (f : ServerFrame) : nat :=
  match f with
  | UpdatesBatch _ updates _ | UpdatesBroadcast _ updates => S (length updates)
  | _ => 1
  end.

Lemma leads_less n {A} (m : E (T := T) A) :
  leads (recoverable None n) m (recoverable None n) ->
  leads (recoverable None (S n)) m (recoverable None n).
Proof. apply leads_weaken. intros e. apply recoverable_weaken. lia. Qed.

Lemma rec_batch n updates complete :
  leads (fun e => recoverable None (S (length updates) + n) e /\ rows_ok (captured e) updates)
    (handle_updates_batch (T := T) updates complete) (recoverable None n).
Proof.
  apply leads_get. intros st e [[He Hr] _]. case_decide.
  { apply rec_error. apply (recoverable_weaken _ (S (length updates) + n)); [lia|done]. }
  assert (He' : recoverable None (length updates + S n) e)
    by (apply (recoverable_weaken _ (S (length updates) + n)); [lia|done]).
  apply (rec_apply (S n) updates e Hr) in He'. unfold mbind at 1, E_bind at 1.
  revert He'. generalize (apply_remote_updates updates e).2.
  change (leads (recoverable None (S n)) (st ← get_e (T := T) e_state;
    if complete && bool_decide (st = Pulling) then go Idle ;; emit EvPulledInitial ;; try_start_push
    else mret tt) (recoverable None n)).
  apply keeps_leads; [keep|]. intros st'. destruct (_ && _).
  - do 2 (apply keeps_leads; [keep|]; intros _). apply rec_try_start_push.
  - apply leads_less. as_keeps. keep.
Qed.

Lemma rec_broadcast n updates :
  leads (fun e => recoverable None (length updates + n) e /\ rows_ok (captured e) updates)
    (handle_updates_broadcast (T := T) updates) (recoverable None n).
Proof.
  apply leads_get. intros st e [[He Hr] _]. case_decide; [|by apply rec_apply].
  apply (recoverable_weaken _ (length updates + n)); [lia|done].
Qed.

Lemma rec_frame n frame :
  leads (fun e => recoverable None (match frame with Some f => frame_cost f | None => 1 end + n) e
           /\ match frame with Some f => frame_ok e f | None => True end)
    (handle_server_frame (T := T) frame) (recoverable None n).
Proof.
  apply leads_get. intros id'. destruct frame as [f|].
  2: { intros e [[He _] _]. apply rec_error. apply (recoverable_weaken _ (1 + n)); [lia|done]. }
  apply (leads_weaken _ (fun e => recoverable None (frame_cost f + n) e /\ frame_ok e f)); [tauto|].
  case_decide.
  { intros e [He _]. apply rec_error. apply (recoverable_weaken _ (frame_cost f + n)); [lia|done]. }
  assert (Hk : forall m : E (T := T) unit, frame_cost f = 1 -> keeps (recoverable None n) m ->
    leads (fun e => recoverable None (frame_cost f + n) e /\ frame_ok e f) m (recoverable None n)).
  { intros m Hc Hm e [He _]. apply Hm. apply (recoverable_weaken _ (frame_cost f + n)); [lia|done]. }
  destruct f; try solve [apply Hk; [done|];
    unfold handle_doc_opened, handle_doc_gone, handle_snapshot_required, handle_snapshot_request,
      produce_snapshot; keep].
  - apply rec_updates_ack.
  - apply rec_batch.
  - apply leads_weaken with (I' := fun e => recoverable None (length updates + n) e /\ rows_ok (captured e) updates);
      [|apply rec_broadcast].
    intros e [He Hr]. split; [|done]. apply (recoverable_weaken _ (S (length updates) + n)); [lia|done].
  - intros e [He (-> & Hq & w & Hg & Hc)]. apply (rec_snapshot n up_to_seq blob w Hq).
    split_and!; [|done|done]. apply (recoverable_weaken _ (S n)); [lia|done].
Qed.

Definition input_ok e (i : Input) : Prop :=
  match i with
  | InEdit inner => oplog_vv (sd_inner (e_doc e)) ⊑v oplog_vv inner
  | InFrame (Some f) => frame_ok e f
  | _ => True
  end.

Definition input_cost (i : Input) : nat :=
  match i with InFrame (Some f) => frame_cost f | _ => 1 end.

Lemma rec_capture_leads n :
  leads (recoverable None (S n)) (capture_local_ops (T := T)) (recoverable None n).
Proof. intros e He. by apply rec_capture. Qed.

Lemma rec_handle n i :
  leads (fun e => recoverable None (input_cost i + n) e /\ input_ok e i) (handle i) (recoverable None n).
Proof.
  assert (Hk : forall m : E (T := T) unit, leads (recoverable None (S n)) m (recoverable None n) ->
    input_cost i = 1 -> leads (fun e => recoverable None (input_cost i + n) e /\ input_ok e i) m (recoverable None n)).
  { intros m Hm -> e [He _]. by apply Hm. }
  assert (Hc : forall f : result StorageError (option N) -> E (T := T) (result StorageError bool),
    (forall r, keeps (recoverable None n) (f r)) ->
    leads (recoverable None (S n)) ((capture_local_ops ≫= f) ;; mret tt) (recoverable None n)).
  { intros f Hf. apply (leads_bind _ (recoverable None n)); [|intros r; apply keeps_ret].
    apply (leads_bind _ (recoverable None n)); [apply rec_capture_leads|exact Hf]. }
  pose proof (rec_write_snapshot n) as Hsnap.
  destruct i; cbn [handle]; [|try (apply Hk; [|reflexivity])..].
  - intros e [He Hi]. cbn in Hi. assert (He' : recoverable None n e) by (eapply recoverable_weaken; [|exact He]; lia).
    clear He. destruct He' as [K1 K2 K3 K4 K5 K6 K7 K8 K9 K10 K11 K12 K13 K14]. split; try done.
    unfold captured, doc_oplog_vv in *. cbn. etrans; [exact K6|exact Hi].
  - apply leads_less. as_keeps. unfold handle_connected. keep.
  - apply leads_less. as_keeps. unfold handle_disconnected. keep.
  - apply leads_less. as_keeps. unfold handle_timeout. keep.
  - apply leads_get. intros st. apply (leads_weaken _ (recoverable None (S n))); [tauto|].
    destruct st; try solve [apply leads_less; as_keeps; keep]. apply rec_try_start_push.
  - eapply leads_bind; [apply rec_capture_leads|]. intros r. as_keeps. keep.
  - apply Hc. intros r. destruct r; keep.
  - apply Hc. intros r. destruct r; keep.
  - apply leads_less, rec_notify.
  - apply leads_get. intros st e [[He Hi] _]. case_decide; cbn in He, Hi.
    + apply rec_error. eapply recoverable_weaken; [|exact He]. lia.
    + apply rec_frame. split; [by destruct frame|done].
  - apply leads_less. as_keeps. apply keeps_bind; [|keep]. intros e He. unfold pop_event.
    destruct (e_events e); [done|]. apply (recoverable_same _ _ e); [by split_and!|done].
Qed.
End recoverable.

(** ** Lives of an engine, crashes included *)

Section life.
Context `{Cipher, CipherOk0 : !CipherOk, Oplog, OplogOk0 : !OplogOk, Entropy, EntropyOk0 : !EntropyOk}.
Context {T : Type} {id : Uuid} `{Hst : LocalStorage T, HstOk : !StorageOk T id}.
Variables (dek : Dek) (server_row : N -> EncryptedBlob).
Hypothesis export_works : forall nonce d, is_ok (snapshot_blob dek nonce d) = true.
Implicit Types (e : Engine T).

(** The host after a crash: a document and an engine rebuilt from storage. *)
Definition reboot e (d : SyncDoc) (meta : BootMeta) : Engine T :=
  set_drawn (e_drawn e)
    (seed_boot meta (engine_new d id dek (bm_last_acked_server_seq meta) (e_storage e))).2.

Inductive life (e0 : Engine T) : Engine T -> Prop :=
  | life_start : life e0 e0
  | life_input e i : life e0 e -> input_ok dek server_row e i ->
      is_i63 (mi_next_local_seq (view (e_storage e)) + N.of_nat (input_cost i)) ->
      life e0 (handle i e).2
  | life_pop e : life e0 e -> life e0 (pop_outbox e).2
  | life_crash e d meta : life e0 e -> boot_doc (e_storage e) dek id = Ok (d, meta) ->
      life e0 (reboot e d meta).

(** What [mem_boot] reads. *)
Definition boot_state (m : MemInner) : BootState :=
  mkBoot (mi_snapshot m) ((fun r => mkWalRow (mw_local_seq r) (mw_payload r)) <$> mi_wal m)
    (mi_next_local_seq m) (mi_last_acked_server_seq m) (mi_server_known_vv m) (mi_in_flight m)
    (wal_bytes_of (mw_payload <$> mi_wal m)).

Lemma stored_boot_state m : stored_blobs (boot_state m) = mem_blobs m.
Proof. unfold stored_blobs, mem_blobs. cbn. by rewrite <- list_fmap_compose. Qed.

(** Booting the storage of a recoverable engine. *)
Lemma boots n e : recoverable dek server_row None n e ->
  exists d, boot_doc (e_storage e) dek id = Ok (d, boot_meta (boot_state (view (e_storage e))))
    /\ captured e ⊑v sd_last_persisted_vv d /\ sd_last_persisted_vv d ⊑v doc_oplog_vv d
    /\ delivers dek vv_default (mem_blobs (view (e_storage e))) (sd_last_persisted_vv d).
Proof.
  intros He. destruct (rc_replay _ _ _ _ _ He) as (w & Hd & Hw). cbn in Hw.
  unfold boot_doc. rewrite boot_view by apply (rc_st _ _ _ _ _ He).
  change (mem_boot id (view (e_storage e))) with (Ok (E := StorageError) (boot_state (view (e_storage e)))).
  cbv iota. rewrite stored_boot_state.
  destruct (import_delivers _ _ _ _ Hd sync_doc_empty vv_default) as (r & d & Ei & Hp & Ho & _ & _).
  { cbn. apply oplog_empty. }
  { cbn. unfold doc_oplog_vv. cbn. rewrite oplog_empty. apply vle_refl. }
  { apply vle_default. }
  case_decide as Hnil.
  - rewrite Hnil in Ei. injection Ei as _ <-. exists sync_doc_empty. rewrite Hp.
    by split_and!.
  - unfold apply_remote_batch. rewrite Ei. exists d. rewrite Hp. by split_and!.
Qed.

(** The engine a boot seeds. *)
Lemma reboot_engine e d m known fl :
  known_of (mi_server_known_vv m) = Some known ->
  match mi_in_flight m, fl with
  | None, None => True
  | Some p, Some fl => if_push_id p = fl_push_id fl /\ if_payload p = fl_payload fl
                       /\ vv_decode (if_to_vv p) = Ok (fl_to_vv fl)
  | _, _ => False
  end ->
  reboot e d (boot_meta (boot_state m))
  = mkEngine d dek id (e_storage e) known fl (mi_next_local_seq m) (N.of_nat (length (mi_wal m)))
      (wal_bytes_of (mw_payload <$> mi_wal m)) Disconnected (mi_last_acked_server_seq m) None
      (mi_last_acked_server_seq m) (mi_last_acked_server_seq m) [] [] (e_drawn e).
Proof.
  intros Hk Hf. unfold reboot, seed_boot, seed_wal_stats, seed_server_known_vv, seed_in_flight_push.
  cbn [boot_meta boot_state bm_last_local_seq bm_wal_rows bm_wal_bytes bm_server_known_vv bm_in_flight_push
    bm_last_acked_server_seq bs_last_local_seq bs_replay bs_wal_bytes bs_server_known_vv bs_in_flight_push
    bs_last_acked_server_seq].
  unfold known_of in Hk. rewrite length_fmap.
  destruct (mi_in_flight m) as [p|], fl as [fl|]; try done.
  - destruct fl as [q b to]. cbn in Hf. destruct Hf as (<- & <- & Hto). rewrite Hto.
    case_decide; [by injection Hk as <-|].
    destruct (vv_decode (mi_server_known_vv m)); [|done]. by injection Hk as <-.
  - case_decide; [by injection Hk as <-|].
    destruct (vv_decode (mi_server_known_vv m)); [|done]. by injection Hk as <-.
Qed.

Lemma recoverable_reboot n e d :
  recoverable dek server_row None n e ->
  boot_doc (e_storage e) dek id = Ok (d, boot_meta (boot_state (view (e_storage e)))) ->
  recoverable dek server_row None n (reboot e d (boot_meta (boot_state (view (e_storage e))))).
Proof.
  intros He Hb. destruct (boots _ _ He) as (d' & Hb' & Hc & Ho & Hd). rewrite Hb in Hb'.
  injection Hb' as <-. pose proof (stored_known _ _ _ _ He) as Hk.
  destruct He as [K1 K2 K3 K4 K5 K6 K7 K8 K9 K10 K11 K12 K13 K14].
  unfold flight_agrees in K10. rewrite (reboot_engine _ _ _ _ (e_in_flight e) Hk).
  2: { destruct (mi_in_flight _), (e_in_flight e); try done. by destruct K10 as (? & ? & ? & _). }
  split; cbn; try done.
  - exists (sd_last_persisted_vv d). split; [done|]. apply vle_refl.
  - etrans; [exact K9|exact Hc].
  - unfold flight_agrees. cbn. destruct (mi_in_flight _), (e_in_flight e); try done.
    destruct K10 as (? & ? & ? & Hto & ?). split_and!; try done. etrans; [exact Hto|exact Hc].
  - rewrite K11. split; [|done]. unfold is_u64 in *. lia.
  - intros q Hq. apply K14. rewrite K11 in Hq. lia.
Qed.

Lemma life_recoverable e0 e :
  recoverable dek server_row None 0 e0 -> life e0 e -> recoverable dek server_row None 0 e.
Proof.
  intros He0. induction 1 as [|e i _ IH Hi Hroom|e _ IH|e d meta _ IH Hb]; [done| | |].
  - apply (rec_handle dek server_row export_works 0 i e). rewrite Nat.add_0_r. split; [|done].
    destruct IH. split; done.
  - unfold pop_outbox. destruct (e_outbox e); [done|].
    by apply (recoverable_same _ _ _ _ e); [split_and!|].
  - destruct (boots _ _ IH) as (d' & Hb' & _). rewrite Hb in Hb'. injection Hb' as <- ->.
    by apply recoverable_reboot.
Qed.

Lemma recoverable_start doc s :
  st_ok s -> view s = mem_default -> sd_last_persisted_vv doc = vv_default ->
  recoverable dek server_row None 0 (engine_new doc id dek 0 s).
Proof.
  intros Hs Hv Hd. split; cbn; rewrite ?Hv; cbn; try done.
  - unfold captured. cbn. rewrite Hd. apply vle_default.
  - exists vv_default. split; [constructor|]. unfold captured. cbn. rewrite Hd. apply vle_refl.
  - exists vv_default. split_and!; [done|apply vle_refl|done].
  - apply vle_default.
  - intros q Hq. cbn in Hq. lia.
Qed.

End life.

(** ** A life with a crash in it *)

Definition witness_dek : Dek := mkDek [].
Definition seal_ops (base ops : gset N) : EncryptedBlob :=
  mkBlob (replicate 24 0%N)
    (match encrypt [] (replicate 24 0%N) (blob_encode base ops) with Some c => c | None => [] end).

(** The host edits operation 7, syncs two rows and is acknowledged a third, its own, then
    crashes with everything durable. *)
Definition first_edit : Input := InEdit ({[7]}%N : gset N).
Definition life_inputs : list Input :=
  [first_edit; InCapture; InConnected; InFrame (Some (DocOpened 9 3));
   InFrame (Some (UpdatesBatch 9 [witness_row 1; witness_row 2] true));
   InFrame (Some (UpdatesAck 9 [mkAck 1002 3])); InDurable 3].
Definition life_engine (n : nat) : Engine MemInner :=
  foldl (fun e i => (handle i e).2) (engine_new sync_doc_empty 9 witness_dek 0 mem_default)
    (take n life_inputs).
Definition pushed_blob : EncryptedBlob :=
  match e_in_flight (life_engine 5) with Some fl => fl_payload fl | None => mkBlob [] [] end.
Definition life_row (q : N) : EncryptedBlob :=
  if decide (q = 3%N) then pushed_blob else sb_blob (witness_row q).
Definition rebooted : Engine MemInner :=
  match boot_doc (e_storage (life_engine 7)) witness_dek 9 with
  | Ok (d, meta) => reboot (id := 9%N) witness_dek (life_engine 7) d meta
  | Err _ => life_engine 7
  end.

Lemma good_sealed (v base ops : gset N) :
  base ⊆ v -> good_blob (H0 := set_oplog) witness_dek v (seal_ops base ops) ops.
Proof.
  intros Hb. split; [done|]. exists (blob_encode base ops). split_and!.
  - by apply open_seal with (nonce := replicate 24 0%N).
  - by exists base, ops.
  - cbn -[blob_parse blob_encode]. by rewrite blob_parse_encode.
  - unfold blob_base. cbn -[blob_parse blob_encode]. rewrite blob_parse_encode. by apply set_vle.
Qed.

Lemma witness_rows_ok (v : VV) : rows_ok witness_dek life_row v [witness_row 1; witness_row 2].
Proof.
  assert (Hg : forall n (v : gset N), good_blob (H0 := set_oplog) witness_dek v (sb_blob (witness_row n)) ({[n]} : gset N)).
  { intros n w. apply (good_sealed w ∅ {[n]}). set_solver. }
  split; [|by repeat constructor].
  eexists. cbn [fmap list_fmap]. eapply delivers_cons; [apply Hg|].
  eapply delivers_cons; [apply Hg|]. constructor.
Qed.

