(* ===== verification/AuthDb.v ===== *)
(** Accounts, documents, memberships, devices, sharing links and recovery
    sessions: the server's tables (server/migrations/001_init.sql) and the
    queries on them (server/src/auth/queries.rs, server/src/auth/invites.rs).
    A query is a transaction: an error leaves the tables as they were. Fresh
    ids, random and time-ordered in the code, and the clock are arguments. *)
From S2P Require Import Prelude.
From S2P Require Import Wire.

Inductive MemberRole : Type := Owner | Member.
#[export] Instance MemberRole_eq_dec : EqDecision MemberRole.
Proof. solve_decision. Defined.

Record KdfParams : Type := mkKdf { kdf_m_kib : N; kdf_t : N; kdf_p : N }.

(** ** Tables *)

Record AccountRow : Type := mkAccount {
  ac_email : string;
  ac_password_hash : octets;
  ac_password_salt : octets;
  ac_kdf : KdfParams;
  ac_primary_doc : Uuid;
  ac_recovery_salt : option octets;
  ac_recovery_auth_hash : option octets;
}.

Record MemberRow : Type := mkMember {
  mr_role : MemberRole;
  mr_wrapped_dek : octets;
  mr_wrapped_dek_nonce : octets;
  mr_recovery_wrapped_dek : option octets;
  mr_recovery_wrapped_dek_nonce : option octets;
  mr_added_at : Z;
  mr_removed_at : option Z;
}.

Record DeviceRow : Type := mkDevice {
  dv_account : Uuid;
  dv_name : string;
  dv_kind : string;
  dv_token_hash : octets;
  dv_last_seen_at : Z;
  dv_last_seen_ip : option string;
  dv_created_at : Z;
}.

Record InviteRow : Type := mkInvite {
  iv_doc : Uuid;
  iv_issued_by : Uuid;
  iv_wrapped_dek : octets;
  iv_wrapped_dek_nonce : octets;
  iv_created_at : Z;
  iv_expires_at : Z;
  iv_consumed_at : option Z;
  iv_consumed_by : option Uuid;
}.

Record RecoveryRow : Type := mkRecovery { rc_account : Uuid; rc_expires_at : Z; rc_consumed_at : option Z }.

(** [doc_members] is keyed by document and account. *)
Record AuthTables : Type := mkAuthTables {
  at_docs : gset Uuid;
  at_accounts : gmap Uuid AccountRow;
  at_members : gmap (Uuid * Uuid) MemberRow;
  at_devices : gmap Uuid DeviceRow;
  at_invites : gmap octets InviteRow;
  at_recovery : gmap octets RecoveryRow;
}.
Definition auth_empty : AuthTables := mkAuthTables ∅ ∅ ∅ ∅ ∅ ∅.

Definition with_docs f (t : AuthTables) : AuthTables :=
  mkAuthTables (f (at_docs t)) (at_accounts t) (at_members t) (at_devices t) (at_invites t) (at_recovery t).
Definition with_accounts f (t : AuthTables) : AuthTables :=
  mkAuthTables (at_docs t) (f (at_accounts t)) (at_members t) (at_devices t) (at_invites t) (at_recovery t).
Definition with_members f (t : AuthTables) : AuthTables :=
  mkAuthTables (at_docs t) (at_accounts t) (f (at_members t)) (at_devices t) (at_invites t) (at_recovery t).
Definition with_devices f (t : AuthTables) : AuthTables :=
  mkAuthTables (at_docs t) (at_accounts t) (at_members t) (f (at_devices t)) (at_invites t) (at_recovery t).
Definition with_invites f (t : AuthTables) : AuthTables :=
  mkAuthTables (at_docs t) (at_accounts t) (at_members t) (at_devices t) (f (at_invites t)) (at_recovery t).
Definition with_recovery f (t : AuthTables) : AuthTables :=
  mkAuthTables (at_docs t) (at_accounts t) (at_members t) (at_devices t) (at_invites t) (f (at_recovery t)).

(** ** Inserts under the constraints *)

(** [require p e]: the constraint [p], or the statement fails. *)
Definition require (p : bool) (e : string) : result string unit := if p then Ok tt else Err e.

Definition sql_lower (s : string) : string :=
  string_of_list_ascii ((fun c => let n := N_of_ascii c in
    if ((65 <=? n) && (n <=? 90))%N then ascii_of_N (n + 32) else c) <$> list_ascii_of_string s).
Fixpoint drop_spaces (l : list ascii) : list ascii :=
  match l with c :: l' => if decide (c = " "%char) then drop_spaces l' else l | [] => [] end.
Definition sql_trim (s : string) : string :=
  string_of_list_ascii (rev (drop_spaces (rev (drop_spaces (list_ascii_of_string s))))).

Definition insert_doc (id : Uuid) (t : AuthTables) : result string AuthTables :=
  let? _ := require (negb (bool_decide (id ∈ at_docs t))) "UNIQUE constraint failed: docs.id" in
  Ok (with_docs (fun ds => {[id]} ∪ ds) t).

Definition insert_account (id : Uuid) (r : AccountRow) (t : AuthTables) : result string AuthTables :=
  let? _ := require (bool_decide (ac_email r = sql_lower (sql_trim (ac_email r)))) "CHECK constraint failed" in
  let? _ := require (bool_decide (at_accounts t !! id = None)) "UNIQUE constraint failed: accounts.id" in
  let? _ := require (bool_decide (map_Forall (fun _ a => ac_email a <> ac_email r) (at_accounts t)))
              "UNIQUE constraint failed: accounts.email" in
  let? _ := require (bool_decide (ac_primary_doc r ∈ at_docs t)) "FOREIGN KEY constraint failed" in
  Ok (with_accounts <[id := r]> t).

Definition insert_member (doc account : Uuid) (r : MemberRow) (t : AuthTables) : result string AuthTables :=
  let? _ := require (bool_decide (at_members t !! (doc, account) = None)) "UNIQUE constraint failed: doc_members" in
  let? _ := require (bool_decide (doc ∈ at_docs t /\ is_Some (at_accounts t !! account))) "FOREIGN KEY constraint failed" in
  Ok (with_members <[(doc, account) := r]> t).

Definition insert_device (id : Uuid) (r : DeviceRow) (t : AuthTables) : result string AuthTables :=
  let? _ := require (bool_decide (at_devices t !! id = None)) "UNIQUE constraint failed: devices.id" in
  let? _ := require (bool_decide (is_Some (at_accounts t !! dv_account r))) "FOREIGN KEY constraint failed" in
  Ok (with_devices <[id := r]> t).

Definition insert_invite (id : octets) (r : InviteRow) (t : AuthTables) : result string AuthTables :=
  let? _ := require (bool_decide (at_invites t !! id = None)) "UNIQUE constraint failed: doc_invites.id" in
  let? _ := require (bool_decide (iv_doc r ∈ at_docs t /\ is_Some (at_accounts t !! iv_issued_by r)))
              "FOREIGN KEY constraint failed" in
  Ok (with_invites <[id := r]> t).

Definition insert_recovery (hash : octets) (r : RecoveryRow) (t : AuthTables) : result string AuthTables :=
  let? _ := require (bool_decide (at_recovery t !! hash = None)) "UNIQUE constraint failed: recovery_sessions.token_hash" in
  let? _ := require (bool_decide (is_Some (at_accounts t !! rc_account r))) "FOREIGN KEY constraint failed" in
  Ok (with_recovery <[hash := r]> t).

(** ** Accounts *)

Record NewAccount : Type := mkNewAccount {
  na_email : string;
  na_password_hash : octets;
  na_password_salt : octets;
  na_kdf : KdfParams;
  na_wrapped_dek : octets;
  na_wrapped_dek_nonce : octets;
  na_recovery_salt : option octets;
  na_recovery_auth_hash : option octets;
  na_recovery_wrapped_dek : option octets;
  na_recovery_wrapped_dek_nonce : option octets;
  na_device_name : string;
  na_device_kind : string;
  na_device_token_hash : octets;
  na_primary_doc : option Uuid;
}.

Record CreatedAccount : Type := mkCreated { cr_account : Uuid; cr_device : Uuid; cr_primary_doc : Uuid }.

(** [map_err]: the two violations the caller tells apart. *)
Definition account_error (e : string) : string :=
  if decide (e = "UNIQUE constraint failed: accounts.email") then "account_exists"
  else if decide (e = "UNIQUE constraint failed: docs.id") then "doc_exists"
  else e.

Definition create_account_rows (account device primary : Uuid) (now : Z) (new : NewAccount) (t : AuthTables)
    : result string AuthTables :=
  let? t := insert_doc primary t in
  let? t := insert_account account (mkAccount (na_email new) (na_password_hash new) (na_password_salt new)
              (na_kdf new) primary (na_recovery_salt new) (na_recovery_auth_hash new)) t in
  let? t := insert_member primary account (mkMember Owner (na_wrapped_dek new) (na_wrapped_dek_nonce new)
              (na_recovery_wrapped_dek new) (na_recovery_wrapped_dek_nonce new) now None) t in
  insert_device device (mkDevice account (na_device_name new) (na_device_kind new)
    (na_device_token_hash new) now None now) t.

Definition create_account (account device fresh_doc : Uuid) (now : Z) (new : NewAccount) (t : AuthTables)
    : result string (CreatedAccount * AuthTables) :=
  let primary := default fresh_doc (na_primary_doc new) in
  match create_account_rows account device primary now new t with
  | Ok t => Ok (mkCreated account device primary, t)
  | Err e => Err (account_error e)
  end.

Definition find_account_by_email (email : string) (t : AuthTables) : option (Uuid * AccountRow) :=
  head (base.filter (fun kv : Uuid * AccountRow => ac_email kv.2 = email) (map_to_list (at_accounts t))).
Definition find_account_by_id (account : Uuid) (t : AuthTables) : option AccountRow := at_accounts t !! account.

(** [ORDER BY] on a time and then an id. *)
Definition row_before {A} (key : A -> Z * N) (a b : A) : Prop :=
  ((key a).1 < (key b).1)%Z \/ ((key a).1 = (key b).1 /\ ((key a).2 <= (key b).2)%N).
#[export] Instance row_before_dec {A} (key : A -> Z * N) : RelDecision (row_before key).
Proof. intros a b. unfold row_before. apply _. Defined.

Definition active (r : MemberRow) : Prop := mr_removed_at r = None.
#[export] Instance active_dec r : base.Decision (active r).
Proof. unfold active. apply _. Defined.

(** The active memberships of an account, oldest first. *)
Definition list_memberships (account : Uuid) (t : AuthTables) : list (Uuid * MemberRow) :=
  merge_sort (row_before (fun kv => (mr_added_at kv.2, kv.1)))
    ((fun kv => (kv.1.1, kv.2)) <$>
      base.filter (fun kv : (Uuid * Uuid) * MemberRow => kv.1.2 = account /\ active kv.2) (map_to_list (at_members t))).

Definition create_doc (account fresh_doc : Uuid) (now : Z) (dek nonce : octets) (t : AuthTables)
    : result string (Uuid * AuthTables) :=
  let? t := insert_doc fresh_doc t in
  let? t := insert_member fresh_doc account (mkMember Owner dek nonce None None now None) t in
  Ok (fresh_doc, t).

(** [SELECT COUNT( * ) ... > 0] on a key. *)
Definition is_active_owner (doc account : Uuid) (t : AuthTables) : bool :=
  match at_members t !! (doc, account) with
  | Some r => bool_decide (mr_role r = Owner /\ active r)
  | None => false
  end.
Definition active_role (doc account : Uuid) (t : AuthTables) : option MemberRole :=
  match at_members t !! (doc, account) with
  | Some r => if decide (active r) then Some (mr_role r) else None
  | None => None
  end.
Definition member_of (doc account : Uuid) (t : AuthTables) : bool :=
  bool_decide (is_Some (active_role doc account t)).

(** ** Passwords *)

Record DocKeyUpdate : Type := mkDocKey { dk_doc : Uuid; dk_wrapped_dek : octets; dk_wrapped_dek_nonce : octets }.
Record PasswordUpdate : Type := mkPasswordUpdate {
  pu_hash : octets;
  pu_salt : octets;
  pu_kdf : KdfParams;
  pu_doc_keys : list DocKeyUpdate;
}.

Inductive PasswordUpdateOutcome : Type :=
  | PasswordUpdated
  | DocKeysMismatch (expected got : list Uuid).

(** One [UPDATE doc_members]: the active row, or an error. *)
Definition rewrap (account : Uuid) (k : DocKeyUpdate) (t : AuthTables) : result string AuthTables :=
  match at_members t !! (dk_doc k, account) with
  | Some r =>
      if decide (active r) then
        Ok (with_members <[(dk_doc k, account) := mkMember (mr_role r) (dk_wrapped_dek k) (dk_wrapped_dek_nonce k)
              (mr_recovery_wrapped_dek r) (mr_recovery_wrapped_dek_nonce r) (mr_added_at r) (mr_removed_at r)]> t)
      else Err "StatementChangedRows(0)"
  | None => Err "StatementChangedRows(0)"
  end.

Fixpoint rewrap_all (account : Uuid) (ks : list DocKeyUpdate) (t : AuthTables) : result string AuthTables :=
  match ks with
  | [] => Ok t
  | k :: ks => let? t := rewrap account k t in rewrap_all account ks t
  end.

Definition apply_password_update (account : Uuid) (u : PasswordUpdate) (t : AuthTables)
    : result string (PasswordUpdateOutcome * AuthTables) :=
  match at_accounts t !! account with
  | None => Err "QueryReturnedNoRows"
  | Some a =>
      let primary := ac_primary_doc a in
      let got := dk_doc <$> pu_doc_keys u in
      let got_set : gset Uuid := list_to_set got in
      if decide ({[primary]} <> got_set \/ size got_set <> length (pu_doc_keys u)) then
        Ok (DocKeysMismatch [primary] got, t)
      else
        let t := with_accounts <[account := mkAccount (ac_email a) (pu_hash u) (pu_salt u) (pu_kdf u) primary
                   (ac_recovery_salt a) (ac_recovery_auth_hash a)]> t in
        let? t := rewrap_all account (pu_doc_keys u) t in
        Ok (PasswordUpdated, t)
  end.

(** Committed only when it updated. *)
Definition update_password (account : Uuid) (u : PasswordUpdate) (t : AuthTables)
    : result string (PasswordUpdateOutcome * AuthTables) :=
  let? r := apply_password_update account u t in
  match r.1 with
  | PasswordUpdated => Ok r
  | DocKeysMismatch _ _ => Ok (r.1, t)
  end.

Inductive PasswordResetOutcome : Type :=
  | PasswordReset (account : Uuid)
  | SessionInvalid
  | ResetKeysMismatch (expected got : list Uuid).

Definition reset_password_with_recovery_session (token_hash : octets) (now : Z) (u : PasswordUpdate) (t : AuthTables)
    : result string (PasswordResetOutcome * AuthTables) :=
  match at_recovery t !! token_hash with
  | None => Ok (SessionInvalid, t)
  | Some s =>
      if bool_decide (is_Some (rc_consumed_at s)) || (rc_expires_at s <? now)%Z then Ok (SessionInvalid, t)
      else
        let? r := apply_password_update (rc_account s) u t in
        match r.1 with
        | DocKeysMismatch expected got => Ok (ResetKeysMismatch expected got, t)
        | PasswordUpdated =>
            Ok (PasswordReset (rc_account s),
                with_recovery <[token_hash := mkRecovery (rc_account s) (rc_expires_at s) (Some now)]> r.2)
        end
  end.

Definition create_recovery_session (account : Uuid) (token_hash : octets) (now ttl : Z) (t : AuthTables)
    : result string AuthTables :=
  insert_recovery token_hash (mkRecovery account (now + ttl) None) t.

(** ** Devices *)

Definition create_device (account device : Uuid) (name kind : string) (token_hash : octets) (now : Z) (t : AuthTables)
    : result string AuthTables :=
  insert_device device (mkDevice account name kind token_hash now None now) t.

(** [ORDER BY created_at]; ties by id here. *)
Definition list_devices (account : Uuid) (t : AuthTables) : list (Uuid * DeviceRow) :=
  merge_sort (row_before (fun kv => (dv_created_at kv.2, kv.1)))
    (base.filter (fun kv : Uuid * DeviceRow => dv_account kv.2 = account) (map_to_list (at_devices t))).

Definition owned_device (device account : Uuid) (t : AuthTables) : option DeviceRow :=
  match at_devices t !! device with
  | Some r => if decide (dv_account r = account) then Some r else None
  | None => None
  end.

Definition rename_device (account device : Uuid) (name : string) (t : AuthTables) : bool * AuthTables :=
  match owned_device device account t with
  | Some r => (true, with_devices <[device := mkDevice (dv_account r) name (dv_kind r) (dv_token_hash r)
                (dv_last_seen_at r) (dv_last_seen_ip r) (dv_created_at r)]> t)
  | None => (false, t)
  end.

Record DeviceLookup : Type := mkLookup { dl_account : Uuid; dl_device : Uuid; dl_primary_doc : Uuid; dl_email : string }.

(** The join with [accounts]; the first row of several. *)
Definition find_device_by_token_hash (token_hash : octets) (t : AuthTables) : option DeviceLookup :=
  head (omap (fun kv : Uuid * DeviceRow =>
    if decide (dv_token_hash kv.2 = token_hash) then
      (fun a => mkLookup (dv_account kv.2) kv.1 (ac_primary_doc a) (ac_email a)) <$> (at_accounts t !! dv_account kv.2)
    else None) (map_to_list (at_devices t))).

Definition touch_device_last_seen (device : Uuid) (ip : option string) (now : Z) (t : AuthTables) : AuthTables :=
  match at_devices t !! device with
  | Some r => with_devices <[device := mkDevice (dv_account r) (dv_name r) (dv_kind r) (dv_token_hash r)
                now (match ip with Some i => Some i | None => dv_last_seen_ip r end) (dv_created_at r)]> t
  | None => t
  end.

(** ** Sharing links *)

Definition DEFAULT_TTL_MILLIS : Z := 7 * 24 * 60 * 60 * 1000.
Definition MAX_TTL_MILLIS : Z := 30 * 24 * 60 * 60 * 1000.
Definition MIN_TTL_MILLIS : Z := 60 * 1000.

Record NewInvite : Type := mkNewInvite {
  ni_id : octets;
  ni_wrapped_dek : octets;
  ni_wrapped_dek_nonce : octets;
  ni_ttl_millis : Z;
}.

Inductive CreateInviteOutcome : Type := InviteCreated (expires_at : Z) | InviteNotOwner | InviteDuplicate.

Definition create_invite (account doc : Uuid) (now : Z) (new : NewInvite) (t : AuthTables)
    : result string (CreateInviteOutcome * AuthTables) :=
  let expires_at := (now + ni_ttl_millis new)%Z in
  if negb (is_active_owner doc account t) then Ok (InviteNotOwner, t)
  else if bool_decide (is_Some (at_invites t !! ni_id new)) then Ok (InviteDuplicate, t)
  else
    let? t := insert_invite (ni_id new) (mkInvite doc account (ni_wrapped_dek new) (ni_wrapped_dek_nonce new)
                now expires_at None None) t in
    Ok (InviteCreated expires_at, t).

(** The order of ids of one length. *)
Definition octets_value (l : octets) : N := foldl (fun n b => n * 256 + b)%N 0%N l.

(** Newest first; [None] for a caller who does not own the document. *)
Definition list_invites (account doc : Uuid) (t : AuthTables) : option (list (octets * InviteRow)) :=
  if is_active_owner doc account t then
    Some (merge_sort (row_before (fun kv => ((- iv_created_at kv.2)%Z, octets_value kv.1)))
      (base.filter (fun kv : octets * InviteRow => iv_doc kv.2 = doc) (map_to_list (at_invites t))))
  else None.

Definition revoke_invite (account doc : Uuid) (id : octets) (t : AuthTables) : bool * AuthTables :=
  if negb (is_active_owner doc account t) then (false, t)
  else match at_invites t !! id with
       | Some r => if decide (iv_doc r = doc) then (true, with_invites (delete id) t) else (false, t)
       | None => (false, t)
       end.

Inductive FetchInviteOutcome : Type :=
  | InviteOpen (doc : Uuid) (wrapped_dek nonce : octets) (expires_at : Z) (inviter_email : string)
  | InviteNotFound
  | InviteExpired
  | InviteConsumed.

Definition fetch_invite (id : octets) (now : Z) (t : AuthTables) : FetchInviteOutcome :=
  match at_invites t !! id with
  | None => InviteNotFound
  | Some r =>
      match at_accounts t !! iv_issued_by r with
      | None => InviteNotFound
      | Some a =>
          if bool_decide (is_Some (iv_consumed_at r)) then InviteConsumed
          else if (iv_expires_at r <? now)%Z then InviteExpired
          else InviteOpen (iv_doc r) (iv_wrapped_dek r) (iv_wrapped_dek_nonce r) (iv_expires_at r) (ac_email a)
      end
  end.

Inductive AcceptInviteOutcome : Type :=
  | Joined (doc : Uuid)
  | AcceptNotFound
  | AcceptExpired
  | AcceptConsumed
  | AlreadyMember (doc : Uuid).

Definition accept_invite (account : Uuid) (id : octets) (now : Z) (dek nonce : octets) (t : AuthTables)
    : result string (AcceptInviteOutcome * AuthTables) :=
  match at_invites t !! id with
  | None => Ok (AcceptNotFound, t)
  | Some r =>
      let doc := iv_doc r in
      if bool_decide (is_Some (iv_consumed_at r)) then Ok (AcceptConsumed, t)
      else if (iv_expires_at r <? now)%Z then Ok (AcceptExpired, t)
      else
        let joined := mkMember Member dek nonce None None now None in
        let consume (t : AuthTables) :=
          with_invites <[id := mkInvite doc (iv_issued_by r) (iv_wrapped_dek r) (iv_wrapped_dek_nonce r)
            (iv_created_at r) (iv_expires_at r) (Some now) (Some account)]> t in
        match at_members t !! (doc, account) with
        | Some m =>
            if decide (active m) then Ok (AlreadyMember doc, t)
            else
              let t := with_members <[(doc, account) := joined]> t in
              let? _ := require (bool_decide (is_Some (at_accounts t !! account))) "FOREIGN KEY constraint failed" in
              Ok (Joined doc, consume t)
        | None =>
            let? t := insert_member doc account joined t in
            Ok (Joined doc, consume t)
        end
  end.

(** The active members, oldest first, for one of them. *)
Definition list_members (account doc : Uuid) (t : AuthTables) : option (list (Uuid * string * MemberRole * Z)) :=
  if member_of doc account t then
    Some ((fun kv : Uuid * (string * MemberRow) => (kv.1, kv.2.1, mr_role kv.2.2, mr_added_at kv.2.2)) <$>
      merge_sort (row_before (fun kv => (mr_added_at kv.2.2, kv.1)))
        (omap (fun kv : (Uuid * Uuid) * MemberRow =>
          if decide (kv.1.1 = doc /\ active kv.2) then
            (fun a => (kv.1.2, (ac_email a, kv.2))) <$> (at_accounts t !! kv.1.2)
          else None) (map_to_list (at_members t))))
  else None.

Inductive RemoveMemberOutcome : Type :=
  | MemberRemoved
  | CallerNotMember
  | CallerNotOwner
  | SelfRemoval
  | LastOwner
  | TargetNotMember.

Definition active_owners (doc : Uuid) (t : AuthTables) : list ((Uuid * Uuid) * MemberRow) :=
  base.filter (fun kv : (Uuid * Uuid) * MemberRow => kv.1.1 = doc /\ mr_role kv.2 = Owner /\ active kv.2)
    (map_to_list (at_members t)).

Definition remove_member (caller doc target : Uuid) (now : Z) (t : AuthTables) : RemoveMemberOutcome * AuthTables :=
  match active_role doc caller t with
  | None => (CallerNotMember, t)
  | Some Member => (CallerNotOwner, t)
  | Some Owner =>
      if decide (caller = target) then (SelfRemoval, t)
      else
        match at_members t !! (doc, target) with
        | Some m =>
            if decide (active m) then
              if bool_decide (mr_role m = Owner) && (length (active_owners doc t) <=? 1) then (LastOwner, t)
              else
                (MemberRemoved, with_members <[(doc, target) := mkMember (mr_role m) (mr_wrapped_dek m)
                   (mr_wrapped_dek_nonce m) (mr_recovery_wrapped_dek m) (mr_recovery_wrapped_dek_nonce m)
                   (mr_added_at m) (Some now)]> t)
            else (TargetNotMember, t)
        | None => (TargetNotMember, t)
        end
  end.
