(* ===== verification/ServerDb.v ===== *)
(** The server's tables and the queries of the sync path
    (server/src/sync/queries.rs, server/migrations/001_init.sql) and the
    deletions that span them (server/src/auth/queries.rs): the per-document
    update stream with its dense
    sequence numbers and push deduplication, device frontiers and the horizon,
    the snapshot chain and compaction. Each query is one call on the database
    thread, a transaction: an error leaves the tables as they were; [created_at] columns are left out. *)
From S2P Require Import Prelude.
From S2P Require Import Wire.
From S2P Require Import Tables.
From S2P Require Import AuthDb.

Definition MAX_UPDATES_PER_BATCH : nat := 500.
Definition MAX_BYTES_PER_BATCH : nat := 256 * 1024.

(** ** Tables *)

Record UpdateRow : Type := mkUpdateRow {
  ur_epoch : Z;
  ur_device : Uuid;
  ur_push : Uuid;
  ur_payload : EncryptedBlob;
}.
Record SequenceRow : Type := mkSequence { sq_next : Z; sq_epoch : Z }.
Record SnapRow : Type := mkSnap {
  sn_id : Z;
  sn_doc : Uuid;
  sn_up_to : Z;
  sn_floor : Z;
  sn_epoch : Z;
  sn_from : option Z;
  sn_up_to_vv : EncryptedBlob;
  sn_payload : EncryptedBlob;
}.

(** [db_snapshots] is in the order of the [AUTOINCREMENT] ids; [db_last_id] is
    the last one given out. *)
Record Db : Type := mkDb {
  db_updates : gmap (Uuid * Z) UpdateRow;
  db_sequences : gmap Uuid SequenceRow;
  db_snapshots : list SnapRow;
  db_last_id : Z;
  db_frontiers : gmap (Uuid * Uuid) Z;
  db_auth : AuthTables;
}.
Definition db_empty : Db := mkDb ∅ ∅ [] 0 ∅ auth_empty.

Definition with_updates f (db : Db) : Db :=
  mkDb (f (db_updates db)) (db_sequences db) (db_snapshots db) (db_last_id db) (db_frontiers db) (db_auth db).
Definition with_sequences f (db : Db) : Db :=
  mkDb (db_updates db) (f (db_sequences db)) (db_snapshots db) (db_last_id db) (db_frontiers db) (db_auth db).
Definition with_frontiers f (db : Db) : Db :=
  mkDb (db_updates db) (db_sequences db) (db_snapshots db) (db_last_id db) (f (db_frontiers db)) (db_auth db).
Definition with_auth (f : AuthTables -> AuthTables) (db : Db) : Db :=
  mkDb (db_updates db) (db_sequences db) (db_snapshots db) (db_last_id db) (db_frontiers db) (f (db_auth db)).

(** [REFERENCES docs(id)], with [PRAGMA foreign_keys=ON]. *)
Definition doc_fk (doc : Uuid) (db : Db) : result string unit :=
  require (bool_decide (doc ∈ at_docs (db_auth db))) "FOREIGN KEY constraint failed".

(** ** Pushing *)

Record InsertedUpdates : Type := mkInserted { in_acks : list PushAck; in_fresh : list StoredBlob }.

(** [SELECT seq FROM updates WHERE doc_id AND device_id AND push_id]. *)
Definition find_push (db : Db) (doc device push : Uuid) : option Z :=
  fst <$> (snd <$> list_find (fun kv : Z * UpdateRow => ur_device kv.2 = device /\ ur_push kv.2 = push)
                     (select (db_updates db) doc)).

(** The upsert of the counter row, [RETURNING next_seq - 1, epoch]. *)
Definition reserve_seq (doc : Uuid) (db : Db) : result string ((Z * Z) * Db) :=
  let? _ := doc_fk doc db in
  let row := match db_sequences db !! doc with
             | Some r => mkSequence (sq_next r + 1) (sq_epoch r)
             | None => mkSequence 2 0
             end in
  Ok ((sq_next row - 1, sq_epoch row)%Z, with_sequences <[doc := row]> db).

(** [INSERT INTO updates] under its primary key. *)
Definition insert_row (doc : Uuid) (seq : Z) (row : UpdateRow) (db : Db) : result string Db :=
  match db_updates db !! (doc, seq) with
  | Some _ => Err "UNIQUE updates.doc_id, updates.seq"
  | None => let? _ := doc_fk doc db in Ok (with_updates <[(doc, seq) := row]> db)
  end.

Definition insert_update (doc device : Uuid) (update : PushBlob) (db : Db)
    : result string (PushAck * option StoredBlob * Db) :=
  match find_push db doc device (pb_push_id update) with
  | Some seq => Ok (mkAck (pb_push_id update) (as_u64 seq), None, db)
  | None =>
      let? r := reserve_seq doc db in
      let '((seq, epoch), db) := r in
      let? db := insert_row doc seq (mkUpdateRow epoch device (pb_push_id update) (pb_blob update)) db in
      Ok (mkAck (pb_push_id update) (as_u64 seq), Some (mkStored (as_u64 seq) (pb_blob update)), db)
  end.

Fixpoint insert_all (doc device : Uuid) (blobs : list PushBlob) (db : Db)
    : result string (InsertedUpdates * Db) :=
  match blobs with
  | [] => Ok (mkInserted [] [], db)
  | update :: blobs =>
      let? r := insert_update doc device update db in
      let? rs := insert_all doc device blobs r.2 in
      Ok (mkInserted (r.1.1 :: in_acks rs.1) (option_list r.1.2 ++ in_fresh rs.1), rs.2)
  end.

Definition insert_updates (doc device : Uuid) (blobs : list PushBlob) (db : Db)
    : result string (InsertedUpdates * Db) :=
  if decide (blobs = []) then Ok (mkInserted [] [], db) else insert_all doc device blobs db.

(** ** Pulling *)

Record FetchedBatch : Type := mkFetched { fb_updates : list StoredBlob; fb_has_more : bool }.

(** The loop over the fetched rows: the updates taken and whether a cap was hit. *)
Fixpoint take_rows (rows : list (Z * UpdateRow)) (taken bytes : nat) : list StoredBlob * bool :=
  match rows with
  | [] => ([], false)
  | (seq, row) :: rows =>
      if MAX_UPDATES_PER_BATCH <=? taken then ([], true)
      else
        let b := ur_payload row in
        let row_bytes := length (eb_ciphertext b) + length (eb_nonce b) in
        if negb (taken =? 0) && (MAX_BYTES_PER_BATCH <? bytes + row_bytes) then ([], true)
        else
          let r := take_rows rows (S taken) (bytes + row_bytes) in
          (mkStored (as_u64 seq) b :: r.1, r.2)
  end.

(** [WHERE doc_id AND seq > since ORDER BY seq]. *)
Definition rows_after (db : Db) (doc : Uuid) (since : Z) : list (Z * UpdateRow) :=
  base.filter (fun kv : Z * UpdateRow => (since < kv.1)%Z) (select (db_updates db) doc).

Definition fetch_updates_batch (doc : Uuid) (since_seq : N) (db : Db) : FetchedBatch :=
  let r := take_rows (take (S MAX_UPDATES_PER_BATCH) (rows_after db doc (as_i64 since_seq))) 0 0 in
  mkFetched r.1 r.2.

(** ** Frontiers and the horizon *)

Definition advance_last_acked_seq (device doc : Uuid) (last_acked : N) (db : Db) : result string Db :=
  match db_frontiers db !! (device, doc) with
  | Some seq =>
      Ok (if (seq <? as_i64 last_acked)%Z then with_frontiers <[(device, doc) := as_i64 last_acked]> db else db)
  | None =>
      let? _ := doc_fk doc db in
      let? _ := require (bool_decide (is_Some (at_devices (db_auth db) !! device))) "FOREIGN KEY constraint failed" in
      Ok (with_frontiers <[(device, doc) := as_i64 last_acked]> db)
  end.

Definition get_last_acked_seq (device doc : Uuid) (db : Db) : N :=
  as_u64 (default 0%Z (db_frontiers db !! (device, doc))).

Definition is_member (doc account : Uuid) (db : Db) : bool := member_of doc account (db_auth db).

(** [doc_members m JOIN devices d ON d.account_id = m.account_id], active rows
    of the document. *)
Definition member_devices (db : Db) (doc : Uuid) : list Uuid :=
  fst <$> base.filter (fun kv : Uuid * DeviceRow => member_of doc (dv_account kv.2) (db_auth db) = true)
    (map_to_list (at_devices (db_auth db))).

Definition sql_min (l : list Z) : option Z :=
  match l with [] => None | z :: l => Some (foldr Z.min z l) end.

Definition doc_horizon (doc override_device : Uuid) (override_value : N) (db : Db) : N :=
  as_u64 (default 0%Z (sql_min
    ((fun d => if decide (d = override_device) then as_i64 override_value
               else default 0%Z (db_frontiers db !! (d, doc))) <$> member_devices db doc))).

(** ** Snapshots *)

Definition doc_snapshots (db : Db) (doc : Uuid) : list SnapRow :=
  base.filter (fun r => sn_doc r = doc) (db_snapshots db).

Definition read_doc_epoch (db : Db) (doc : Uuid) : Z := default 0%Z (sq_epoch <$> db_sequences db !! doc).
Definition doc_epoch (doc : Uuid) (db : Db) : N := as_u64 (read_doc_epoch db doc).

(** [ORDER BY id DESC LIMIT 1]. *)
Definition latest_row (db : Db) (doc : Uuid) : option SnapRow := last (doc_snapshots db doc).
Definition read_latest_up_to_seq (db : Db) (doc : Uuid) : option Z := sn_up_to <$> latest_row db doc.

Inductive InsertSnapshot : Type :=
  | Inserted (id : N)
  | ChainMismatch (latest_up_to_seq : option N).

Definition insert_snapshot (doc : Uuid) (up_to_seq compaction_floor_seq : N) (from_seq : option N)
    (up_to_vv blob : EncryptedBlob) (db : Db) : result string (InsertSnapshot * Db) :=
  let latest := read_latest_up_to_seq db doc in
  let mismatch :=
    match from_seq with
    | Some from => negb (bool_decide (latest = Some (as_i64 from))) || (up_to_seq <? from)%N
    | None => false
    end in
  if mismatch then Ok (ChainMismatch (as_u64 <$> latest), db)
  else
    let? _ := doc_fk doc db in
    let id := (db_last_id db + 1)%Z in
    let row := mkSnap id doc (as_i64 up_to_seq) (as_i64 compaction_floor_seq) (read_doc_epoch db doc)
                 (as_i64 <$> from_seq) up_to_vv blob in
    Ok (Inserted (as_u64 id),
        mkDb (db_updates db) (db_sequences db) (db_snapshots db ++ [row]) id (db_frontiers db) (db_auth db)).

Record LatestSnapshotMeta : Type := mkMeta {
  lm_up_to_seq : N;
  lm_compaction_floor_seq : N;
  lm_epoch : N;
  lm_from_seq : option N;
  lm_up_to_vv : EncryptedBlob;
}.

Definition latest_snapshot_meta (doc : Uuid) (db : Db) : option LatestSnapshotMeta :=
  (fun r => mkMeta (as_u64 (sn_up_to r)) (as_u64 (sn_floor r)) (as_u64 (sn_epoch r))
              (as_u64 <$> sn_from r) (sn_up_to_vv r)) <$> latest_row db doc.
Definition latest_snapshot (doc : Uuid) (db : Db) : option (LatestSnapshotMeta * EncryptedBlob) :=
  (fun r => (mkMeta (as_u64 (sn_up_to r)) (as_u64 (sn_floor r)) (as_u64 (sn_epoch r))
              (as_u64 <$> sn_from r) (sn_up_to_vv r), sn_payload r)) <$> latest_row db doc.

Record SnapshotChainRow : Type := mkChainRow { cr_up_to_seq : N; cr_blob : EncryptedBlob }.
Record SnapshotChain : Type := mkChain {
  ch_up_to_seq : N;
  ch_compaction_floor_seq : N;
  ch_epoch : N;
  ch_rows : list SnapshotChainRow;
}.

(** [id >= COALESCE(MAX(id WHERE from_seq IS NULL), 0)]. *)
Definition chain_rows (rows : list SnapRow) : list SnapRow :=
  let heads := sn_id <$> base.filter (fun r => sn_from r = None) rows in
  let first := match heads with [] => 0%Z | z :: l => foldr Z.max z l end in
  base.filter (fun r => (first <= sn_id r)%Z) rows.

(** The loop building the chain, breaking at an unlinked row. *)
Fixpoint link_rows (rows : list SnapRow) (chain : option SnapshotChain) : option SnapshotChain :=
  match rows with
  | [] => chain
  | r :: rows =>
      let up_to := as_u64 (sn_up_to r) in
      match chain, as_u64 <$> sn_from r with
      | None, None =>
          link_rows rows (Some (mkChain up_to (as_u64 (sn_floor r)) (as_u64 (sn_epoch r))
            [mkChainRow up_to (sn_payload r)]))
      | None, Some _ => chain
      | Some c, Some from =>
          if decide (from = ch_up_to_seq c) then
            link_rows rows (Some (mkChain up_to (as_u64 (sn_floor r)) (as_u64 (sn_epoch r))
              (ch_rows c ++ [mkChainRow up_to (sn_payload r)])))
          else chain
      | Some _, None => chain
      end
  end.

Definition snapshot_chain (doc : Uuid) (db : Db) : option SnapshotChain :=
  link_rows (chain_rows (doc_snapshots db doc)) None.

(** ** Compaction *)

Definition compact_doc (doc : Uuid) (db : Db) : N * Db :=
  match sn_floor <$> latest_row db doc with
  | None => (0%N, db)
  | Some floor =>
      let dead (kv : (Uuid * Z) * UpdateRow) := kv.1.1 = doc /\ (kv.1.2 <= floor)%Z in
      (N.of_nat (size (base.filter dead (db_updates db))),
       with_updates (base.filter (fun kv => ~ dead kv)) db)
  end.

Definition latest_doc_seq (doc : Uuid) (db : Db) : N :=
  as_u64 (default 0%Z (fst <$> last (select (db_updates db) doc))).

(** ** Deleting documents, devices and accounts *)

Definition purge_rows_under_doc (doc : Uuid) (db : Db) : Db :=
  mkDb (base.filter (fun kv => kv.1.1 <> doc) (db_updates db))
    (delete doc (db_sequences db))
    (base.filter (fun r => sn_doc r <> doc) (db_snapshots db))
    (db_last_id db)
    (base.filter (fun kv => kv.1.2 <> doc) (db_frontiers db))
    (with_invites (base.filter (fun kv => iv_doc kv.2 <> doc))
      (with_members (base.filter (fun kv => kv.1.1 <> doc)) (db_auth db))).

(** [DELETE FROM docs WHERE id]: refused while a row refers to it; the rows
    under it are gone, an account's primary document may be left. *)
Definition delete_doc_row (doc : Uuid) (db : Db) : result string Db :=
  let? _ := require (bool_decide (map_Forall (fun _ a => ac_primary_doc a <> doc) (at_accounts (db_auth db))))
              "FOREIGN KEY constraint failed" in
  Ok (with_auth (with_docs (fun ds => ds ∖ {[doc]})) db).

Definition purge_doc_rows (doc : Uuid) (db : Db) : result string Db :=
  delete_doc_row doc (purge_rows_under_doc doc db).

Inductive DeleteDocOutcome : Type := DocDeleted | DocNotOwner.

Definition delete_doc (account doc : Uuid) (db : Db) : result string (DeleteDocOutcome * Db) :=
  if negb (is_active_owner doc account (db_auth db)) then Ok (DocNotOwner, db)
  else let? db := purge_doc_rows doc db in Ok (DocDeleted, db).

(** The frontiers of a device go with it. *)
Definition revoke_device (account device : Uuid) (db : Db) : bool * Db :=
  match owned_device device account (db_auth db) with
  | Some _ =>
      (true, with_frontiers (base.filter (fun kv => kv.1.1 <> device)) (with_auth (with_devices (delete device)) db))
  | None => (false, db)
  end.

Record DeletedAccount : Type := mkDeleted { da_purged_docs : list Uuid; da_left_docs : list Uuid }.

Definition account_docs (account : Uuid) (t : AuthTables) : list (Uuid * MemberRole) :=
  omap (fun kv : (Uuid * Uuid) * MemberRow =>
    if decide (kv.1.2 = account /\ active kv.2) then Some (kv.1.1, mr_role kv.2) else None)
    (map_to_list (at_members t)).

(** The statements between the purges and the documents. *)
Definition drop_account_rows (account : Uuid) (db : Db) : Db :=
  let t := db_auth db in
  mkDb (db_updates db) (db_sequences db) (db_snapshots db) (db_last_id db)
    (base.filter (fun kv => dv_account <$> at_devices t !! kv.1.1 <> Some account) (db_frontiers db))
    (mkAuthTables (at_docs t) (delete account (at_accounts t))
      (base.filter (fun kv => kv.1.2 <> account) (at_members t))
      (base.filter (fun kv => dv_account kv.2 <> account) (at_devices t))
      ((fun r => if decide (iv_consumed_by r = Some account) then
           mkInvite (iv_doc r) (iv_issued_by r) (iv_wrapped_dek r) (iv_wrapped_dek_nonce r) (iv_created_at r)
             (iv_expires_at r) (iv_consumed_at r) None else r)
        <$> base.filter (fun kv => iv_issued_by kv.2 <> account) (at_invites t))
      (base.filter (fun kv => rc_account kv.2 <> account) (at_recovery t))).

Fixpoint delete_doc_rows (docs : list Uuid) (db : Db) : result string Db :=
  match docs with
  | [] => Ok db
  | doc :: docs => let? db := delete_doc_row doc db in delete_doc_rows docs db
  end.

Definition delete_account (account : Uuid) (db : Db) : result string (DeletedAccount * Db) :=
  let rows := account_docs account (db_auth db) in
  let purged := fst <$> base.filter (fun kv : Uuid * MemberRole => kv.2 = Owner) rows in
  let left := fst <$> base.filter (fun kv : Uuid * MemberRole => kv.2 <> Owner) rows in
  let db := drop_account_rows account (foldl (fun db doc => purge_rows_under_doc doc db) db purged) in
  let? db := delete_doc_rows purged db in
  Ok (mkDeleted purged left, db).
