(* ===== verification/Coordinator.v ===== *)
(** The snapshot coordinator (server/src/sync/snapshot.rs): when a device is
    asked for a snapshot, and the lease that keeps the producer of a document
    unique. Instants are natural numbers on the host's clock; the mutex makes
    each method atomic. *)
From S2P Require Import Prelude.
From S2P Require Import Wire.

Definition SNAPSHOT_THRESHOLD_BLOBS : N := 500.
(** Milliseconds. *)
Definition SNAPSHOT_TIMEOUT : N := 5 * 60 * 1000.

Inductive LeaseState : Type := LeaseIdle | LeaseActive (lease_id expires_at : N).

Record Coordinator : Type := mkCoordinator {
  co_timeout : N;
  co_threshold : N;
  co_leases : gmap Uuid LeaseState;
  co_next_lease_id : N;
}.

Record PrevSnapshot : Type := mkPrev {
  pv_up_to_seq : N;
  pv_compaction_floor_seq : N;
  pv_up_to_vv : EncryptedBlob;
}.

Inductive Decision : Type :=
  | Issue (lease_id up_to_seq compaction_floor_seq : N) (base : option SnapshotBase)
  | Skip.

Inductive ReleaseResult : Type := Accepted | Stale.

Definition with_config (threshold_blobs timeout : N) : Coordinator := mkCoordinator timeout threshold_blobs ∅ 1.
Definition coordinator_new : Coordinator := with_config SNAPSHOT_THRESHOLD_BLOBS SNAPSHOT_TIMEOUT.

(** [AtomicU64::fetch_add(1)] wraps. *)
Definition u64_succ (n : N) : N := (n + 1) mod 2 ^ 64.

Definition set_lease (doc : Uuid) (l : LeaseState) (c : Coordinator) : Coordinator :=
  mkCoordinator (co_timeout c) (co_threshold c) (<[doc := l]> (co_leases c)) (co_next_lease_id c).

(** [saturating_sub] is truncated subtraction. [entry().or_insert_with] leaves
    an idle entry even when the decision is to skip. *)
Definition evaluate (doc : Uuid) (prev : option PrevSnapshot)
    (server_last_seq horizon_seq device_last_acked_seq now : N) (c : Coordinator) : Decision * Coordinator :=
  let prev_up_to := default 0%N (pv_up_to_seq <$> prev) in
  let prev_floor := default 0%N (pv_compaction_floor_seq <$> prev) in
  if (server_last_seq - prev_up_to <? co_threshold c)%N then (Skip, c)
  else if negb (device_last_acked_seq =? server_last_seq)%N then (Skip, c)
  else
    let state := default LeaseIdle (co_leases c !! doc) in
    let c := set_lease doc state c in
    let held := match state with LeaseActive _ expires => (now <? expires)%N | LeaseIdle => false end in
    if held then (Skip, c)
    else
      let lease_id := co_next_lease_id c in
      let c := mkCoordinator (co_timeout c) (co_threshold c)
                 (<[doc := LeaseActive lease_id (now + co_timeout c)]> (co_leases c)) (u64_succ lease_id) in
      (Issue lease_id device_last_acked_seq (N.max horizon_seq prev_floor)
         ((fun p => mkBase (pv_up_to_seq p) (pv_up_to_vv p)) <$> prev), c).

Definition release (doc : Uuid) (incoming_lease_id : N) (c : Coordinator) : ReleaseResult * Coordinator :=
  match co_leases c !! doc with
  | Some (LeaseActive lease_id _) =>
      if (lease_id =? incoming_lease_id)%N then (Accepted, set_lease doc LeaseIdle c) else (Stale, c)
  | _ => (Stale, c)
  end.

(** ** The lease, under any interleaving of sessions *)

(** [now] is the clock; calls never run backwards. *)
Inductive call : Type :=
  | CEvaluate (doc : Uuid) (prev : option PrevSnapshot) (server_last horizon device_acked now : N)
  | CRelease (doc lease_id : N).

Inductive answer : Type := ADecision (d : Decision) | AReleased (r : ReleaseResult).

Definition step (c : Coordinator) (q : call) : answer * Coordinator :=
  match q with
  | CEvaluate doc prev last horizon acked now =>
      let r := evaluate doc prev last horizon acked now c in (ADecision r.1, r.2)
  | CRelease doc lease => let r := release doc lease c in (AReleased r.1, r.2)
  end.

(** A run with its history, newest call first. *)
Inductive history (c0 : Coordinator) : list (call * answer) -> Coordinator -> Prop :=
  | history_nil : history c0 [] c0
  | history_cons h c q : history c0 h c -> history c0 ((q, (step c q).1) :: h) (step c q).2.

Definition issued (doc lease now : N) (e : call * answer) : Prop :=
  exists prev last horizon acked up_to floor base,
    e = (CEvaluate doc prev last horizon acked now, ADecision (Issue lease up_to floor base)).
Definition accepted (doc lease : N) (e : call * answer) : Prop :=
  e = (CRelease doc lease, AReleased Accepted).

Definition issues (doc : Uuid) (e : call * answer) : Prop := exists lease now, issued doc lease now e.
Definition accepts (doc : Uuid) (e : call * answer) : Prop := exists lease, accepted doc lease e.

Ltac refute := intros; repeat match goal with
  | H : issued _ _ _ _ |- _ => destruct H as (? & ? & ? & ? & ? & ? & ? & H); discriminate H
  | H : accepted _ _ _ |- _ => discriminate H end.

(** What a call does to the lease of a document. *)
Lemma step_lease doc c q :
  let e := (q, (step c q).1) in
  (forall lease now, issued doc lease now e ->
     match co_leases c !! doc with Some (LeaseActive _ expires) => (expires <= now)%N | _ => True end
     /\ co_leases (step c q).2 !! doc = Some (LeaseActive lease (now + co_timeout c)))
  /\ (forall lease, accepted doc lease e ->
     (exists expires, co_leases c !! doc = Some (LeaseActive lease expires))
     /\ co_leases (step c q).2 !! doc = Some LeaseIdle)
  /\ (~ issues doc e -> ~ accepts doc e ->
     default LeaseIdle (co_leases (step c q).2 !! doc) = default LeaseIdle (co_leases c !! doc))
  /\ co_timeout (step c q).2 = co_timeout c.
Proof.
  destruct q as [d prev last horizon acked now|d lease]; cbn [step].
  - unfold evaluate. destruct (_ <? co_threshold c)%N; [split_and!; try done; refute|].
    destruct (negb _); [split_and!; try done; refute|].
    set (state := default LeaseIdle (co_leases c !! d)).
    assert (Hst : default LeaseIdle (<[d := state]> (co_leases c) !! doc) = default LeaseIdle (co_leases c !! doc)).
    { destruct (decide (d = doc)) as [->|]; [by rewrite lookup_insert_eq|by rewrite lookup_insert_ne]. }
    destruct (match state with LeaseActive _ _ => _ | LeaseIdle => _ end) eqn:Eh; [split_and!; try done; refute|].
    cbn. split_and!; try done.
    + intros lease now' (? & ? & ? & ? & ? & ? & ? & E). simplify_eq. split; [|by rewrite lookup_insert_eq].
      unfold state in Eh. destruct (co_leases c !! doc) as [[|? expires]|]; try done.
      cbn in Eh. by apply N.ltb_ge in Eh.
    + intros Hni _. destruct (decide (d = doc)) as [->|]; [|by rewrite !lookup_insert_ne].
      exfalso. apply Hni. eexists _, _, _, _, _, _, _, _, _. reflexivity.
  - unfold release. destruct (co_leases c !! d) as [[|l expires]|] eqn:El;
      [split_and!; try done; refute| |split_and!; try done; refute].
    destruct (l =? lease)%N eqn:E; [|split_and!; try done; refute].
    apply N.eqb_eq in E as ->. cbn. split_and!; try done; [refute| |].
    + intros l' [= -> ->]. split; [by exists expires|]. by rewrite lookup_insert_eq.
    + intros _ Hna. destruct (decide (d = doc)) as [->|]; [|by rewrite lookup_insert_ne].
      exfalso. apply Hna. by exists lease.
Qed.

(** Nothing about the document since its last issue: its lease still stands. *)
Lemma lease_stands doc lease now e old mid c0 c :
  history c0 (mid ++ e :: old) c -> issued doc lease now e ->
  Forall (fun e => ~ issues doc e /\ ~ accepts doc e) mid ->
  co_leases c !! doc = Some (LeaseActive lease (now + co_timeout c0)).
Proof.
  assert (Ht : forall h c', history c0 h c' -> co_timeout c' = co_timeout c0).
  { intros h c'. induction 1 as [|h c' q _ IH]; [done|]. by rewrite (proj2 (proj2 (proj2 (step_lease doc c' q)))). }
  intros Hh Hi Hm. revert c Hh. induction Hm as [|e' mid [Hni Hna] _ IH]; intros c Hh; inversion Hh; subst; cbn in *.
  - destruct (proj1 (step_lease doc c1 q) _ _ Hi) as [_ ->]. by rewrite (Ht _ _ ltac:(eassumption)).
  - destruct (step_lease doc c1 q) as (_ & _ & Hs & _). specialize (Hs Hni Hna).
    rewrite (IH _ ltac:(eassumption)) in Hs. cbn in Hs.
    by destruct (co_leases (step c1 q).2 !! doc) as [l|]; cbn in Hs; subst.
Qed.

#[export] Instance issues_dec doc e : base.Decision (issues doc e).
Proof.
  destruct e as [[d prev last horizon acked now|d l] [[lease up_to floor base|]|r]];
    try (right; intros (? & ? & ? & ? & ? & ? & ? & ? & ? & E); discriminate E).
  destruct (decide (d = doc)) as [->|Hd].
  - left. by exists lease, now, prev, last, horizon, acked, up_to, floor, base.
  - right. intros (? & ? & ? & ? & ? & ? & ? & ? & ? & E). injection E. congruence.
Defined.
#[export] Instance accepts_dec doc e : base.Decision (accepts doc e).
Proof.
  destruct e as [[d prev last horizon acked now|d l] [dd|[|]]];
    try (right; intros (? & E); discriminate E).
  destruct (decide (d = doc)) as [->|Hd]; [left; by exists l|right; intros (? & E); injection E; congruence].
Defined.

(** A standing lease was granted, and nothing happened to it since. *)
Lemma lease_origin doc lease expires threshold timeout h c :
  history (with_config threshold timeout) h c -> co_leases c !! doc = Some (LeaseActive lease expires) ->
  exists mid e1 old t, h = mid ++ e1 :: old /\ issued doc lease t e1
    /\ Forall (fun e => ~ issues doc e /\ ~ accepts doc e) mid.
Proof.
  intros Hh. induction Hh as [|h c q Hh IH]; [done|]. intros El.
  destruct (step_lease doc c q) as (Hi & Ha & Hs & _). set (e := (q, (step c q).1)) in *.
  destruct (decide (issues doc e)) as [(l & t & He)|Hni].
  { destruct (Hi _ _ He) as [_ El']. rewrite El in El'. injection El' as <- _. by exists [], e, h, t. }
  destruct (decide (accepts doc e)) as [(l & He)|Hna].
  { destruct (Ha _ He) as [_ El']. by rewrite El in El'. }
  specialize (Hs Hni Hna). rewrite El in Hs. cbn in Hs.
  destruct (co_leases c !! doc) as [s|] eqn:Ec; cbn in Hs; [|done]. subst s.
  destruct (IH eq_refl) as (mid & e1 & old & t & -> & He1 & Hm).
  exists (e :: mid), e1, old, t. split_and!; try done. by constructor.
Qed.

(** C12: At most one device holds the snapshot lease of a document: between two
    consecutive grants the first lease was given back or its time had run out,
    and a completion is accepted only for the lease granted last, once. *)
Theorem lease_exclusive doc threshold timeout h c :
  history (with_config threshold timeout) h c ->
  (forall e2 mid e1 old l1 t1 l2 t2, h = e2 :: mid ++ e1 :: old ->
     issued doc l1 t1 e1 -> issued doc l2 t2 e2 -> Forall (fun e => ~ issues doc e) mid ->
     Exists (accepts doc) mid \/ (t1 + timeout <= t2)%N)
  /\ (forall e old lease, h = e :: old -> accepted doc lease e ->
     exists mid e1 old' t, old = mid ++ e1 :: old' /\ issued doc lease t e1
       /\ Forall (fun e => ~ issues doc e /\ ~ accepts doc e) mid).
Proof.
  intros Hh. split.
  - intros e2 mid e1 old l1 t1 l2 t2 -> H1 H2 Hm.
    destruct (decide (Exists (accepts doc) mid)) as [|Hna]; [by left|right].
    inversion Hh as [|h' c' q Hh' Eq]; subst.
    destruct (proj1 (step_lease doc c' q) _ _ H2) as [Hx _].
    rewrite (lease_stands _ _ _ _ _ _ _ _ Hh' H1) in Hx; [done|].
    apply not_Exists_Forall in Hna; [|apply _]. apply Forall_and. by split.
  - intros e old lease -> Ha. inversion Hh as [|h' c' q Hh' Eq]; subst.
    destruct (proj1 (proj2 (step_lease doc c' q)) _ Ha) as [[expires El] _].
    by eapply lease_origin.
Qed.

(** Five new updates make the document eligible; the producer vanishes, and
    the next device is asked when the lease has run out. *)
Definition calls : list call :=
  [CEvaluate 7 None 5 3 5 0; CEvaluate 7 None 6 3 6 50; CEvaluate 7 None 6 3 6 100].
Definition witness_coordinator (n : nat) : Coordinator :=
  foldl (fun c q => (step c q).2) (with_config 5 100) (take n calls).
Definition witness_entry (n : nat) (q : call) : call * answer := (q, (step (witness_coordinator n) q).1).

Lemma lease_exclusive_witness :
  issued 7 1 0 (witness_entry 0 (CEvaluate 7 None 5 3 5 0))
  /\ issued 7 2 100 (witness_entry 2 (CEvaluate 7 None 6 3 6 100))
  /\ (Exists (accepts 7) [witness_entry 1 (CEvaluate 7 None 6 3 6 50)] \/ (0 + 100 <= 100)%N).
Proof.
  assert (H1 : issued 7 1 0 (witness_entry 0 (CEvaluate 7 None 5 3 5 0))) by (eexists _, _, _, _, _, _, _; reflexivity).
  assert (H2 : issued 7 2 100 (witness_entry 2 (CEvaluate 7 None 6 3 6 100))) by (eexists _, _, _, _, _, _, _; reflexivity).
  split_and!; [exact H1|exact H2|].
  refine (proj1 (lease_exclusive 7 5 100 _ (witness_coordinator 3) _) _ _ _ [] 1%N 0%N 2%N 100%N eq_refl H1 H2 _).
  - apply (history_cons _ _ (witness_coordinator 2)), (history_cons _ _ (witness_coordinator 1)),
      (history_cons _ _ (witness_coordinator 0)), history_nil.
  - constructor; [|constructor]. intros (? & ? & ? & ? & ? & ? & ? & ? & ? & E). discriminate E.
Defined.
