(* ===== verification/Sessions.v ===== *)
(** The subscriber registry (server/src/sync/sessions.rs): who has which
    document open, the fan-out of pushed updates over bounded channels, live
    revocation, and the presence frames the registry's own changes emit. A
    subscriber's channel is its queue of undelivered messages; the sender's end
    lives in the registry, the receiver's in the session. *)
From S2P Require Import Prelude.
From S2P Require Import Wire.

Definition CHANNEL_CAPACITY : nat := 256.

(** Frames are encoded once per fan-out; a message carries the frame's value. *)
Inductive Outbound : Type := OFrame (f : ServerFrame) | OClose (f : ServerFrame) | OUnbind.

Record Subscriber : Type := mkSub {
  su_sub_id : N;
  su_device_id : Uuid;
  su_account_id : Uuid;
  su_email : string;
}.

(** [ss_channels]: the queues whose receiver is alive. *)
Record Sessions : Type := mkSessions {
  ss_docs : gmap Uuid (list Subscriber);
  ss_channels : gmap N (list Outbound);
  ss_next_sub_id : N;
}.
Definition sessions_new : Sessions := mkSessions ∅ ∅ 1.

Definition set_docs (docs : gmap Uuid (list Subscriber)) (s : Sessions) : Sessions :=
  mkSessions docs (ss_channels s) (ss_next_sub_id s).
Definition set_channels (chans : gmap N (list Outbound)) (s : Sessions) : Sessions :=
  mkSessions (ss_docs s) chans (ss_next_sub_id s).

Definition subs_of (s : Sessions) (doc : Uuid) : list Subscriber := default [] (ss_docs s !! doc).

(** [mpsc::Sender::try_send]: full or closed fails. *)
Definition try_send (sub : N) (m : Outbound) (chans : gmap N (list Outbound))
    : bool * gmap N (list Outbound) :=
  match chans !! sub with
  | Some q => if length q <? CHANNEL_CAPACITY then (true, <[sub := q ++ [m]]> chans) else (false, chans)
  | None => (false, chans)
  end.

Fixpoint present_from (subs : list Subscriber) (out : list PresentAccount) : list PresentAccount :=
  match subs with
  | [] => out
  | s :: subs =>
      present_from subs
        (if existsb (fun p => (pr_account_id p =? su_account_id s)%N) out then out
         else out ++ [mkPresent (su_account_id s) (su_email s)])
  end.
Definition present_accounts (subs : list Subscriber) : list PresentAccount := present_from subs [].

Definition account_set (subs : list Subscriber) : gset Uuid := list_to_set (su_account_id <$> subs).

(** Best effort: a failed send is ignored. *)
Definition send_presence (doc : Uuid) (subs : list Subscriber) (only : option N)
    (chans : gmap N (list Outbound)) : gmap N (list Outbound) :=
  let m := OFrame (Presence doc (present_accounts subs)) in
  foldl (fun chans s =>
    match only with
    | Some id => if (id =? su_sub_id s)%N then (try_send (su_sub_id s) m chans).2 else chans
    | None => (try_send (su_sub_id s) m chans).2
    end) chans subs.

(** The new subscription's id is returned with the state. *)
Definition subscribe (doc device account : Uuid) (email : string) (s : Sessions) : N * Sessions :=
  let sub_id := ss_next_sub_id s in
  let before := subs_of s doc in
  let subs := before ++ [mkSub sub_id device account email] in
  let chans := <[sub_id := []]> (ss_channels s) in
  let chans :=
    if 1 <? size (account_set subs) then
      if decide (account_set subs = account_set before) then send_presence doc subs (Some sub_id) chans
      else send_presence doc subs None chans
    else chans in
  (sub_id, mkSessions (<[doc := subs]> (ss_docs s)) chans ((sub_id + 1) mod 2 ^ 64)%N).

(** What remains of a document's subscribers: announced when the accounts
    changed, the entry removed when nobody is left. *)
Definition settle (doc : Uuid) (before subs : list Subscriber) (s : Sessions) : Sessions :=
  if decide (subs = []) then set_docs (delete doc (ss_docs s)) s
  else
    let s := set_docs (<[doc := subs]> (ss_docs s)) s in
    if decide (account_set subs = account_set before) then s
    else set_channels (send_presence doc subs None (ss_channels s)) s.

Definition unsubscribe (doc : Uuid) (sub_id : N) (s : Sessions) : Sessions :=
  match ss_docs s !! doc with
  | None => s
  | Some before => settle doc before (base.filter (fun x => su_sub_id x <> sub_id) before) s
  end.

(** [Subscription::drop], then its receiver goes. *)
Definition drop_subscription (doc : Uuid) (sub_id : N) (s : Sessions) : Sessions :=
  let s := unsubscribe doc sub_id s in set_channels (delete sub_id (ss_channels s)) s.

(** [subs.retain(|s| ...)] sending to the ones [told] selects; [keep] says who
    stays, given whether the send succeeded. *)
Fixpoint fan_out (m : Outbound) (told : Subscriber -> bool) (keep : Subscriber -> bool -> bool)
    (subs : list Subscriber) (chans : gmap N (list Outbound))
    : list Subscriber * nat * gmap N (list Outbound) :=
  match subs with
  | [] => ([], 0, chans)
  | s :: subs =>
      if told s then
        let r := try_send (su_sub_id s) m chans in
        let '(rest, n, chans) := fan_out m told keep subs r.2 in
        (if keep s r.1 then s :: rest else rest, (if r.1 then S n else n), chans)
      else
        let '(rest, n, chans) := fan_out m told keep subs chans in (s :: rest, n, chans)
  end.

Definition broadcast (doc : Uuid) (exclude_sub : N) (updates : list StoredBlob) (s : Sessions)
    : nat * Sessions :=
  if decide (updates = []) then (0, s)
  else
    match ss_docs s !! doc with
    | None => (0, s)
    | Some subs =>
        let '(rest, delivered, chans) :=
          fan_out (OFrame (UpdatesBroadcast doc updates))
            (fun x => negb (su_sub_id x =? exclude_sub)%N) (fun _ sent => sent) subs (ss_channels s) in
        (delivered, set_channels chans (set_docs (<[doc := rest]> (ss_docs s)) s))
    end.

Definition close_for_account (doc account : Uuid) (reason : string) (s : Sessions) : nat * Sessions :=
  match ss_docs s !! doc with
  | None => (0, s)
  | Some before =>
      let '(rest, told, chans) :=
        fan_out (OClose (DocClosed doc reason)) (fun x => (su_account_id x =? account)%N)
          (fun _ _ => false) before (ss_channels s) in
      (told, settle doc before rest (set_channels chans s))
  end.

(** The sessions of [except_device] are unbound without a frame. *)
Fixpoint close_all (doc : Uuid) (except_device : option Uuid) (reason : string) (subs : list Subscriber)
    (chans : gmap N (list Outbound)) : nat * gmap N (list Outbound) :=
  match subs with
  | [] => (0, chans)
  | x :: subs =>
      if decide (Some (su_device_id x) = except_device) then
        close_all doc except_device reason subs (try_send (su_sub_id x) OUnbind chans).2
      else
        let r := try_send (su_sub_id x) (OClose (DocClosed doc reason)) chans in
        let rs := close_all doc except_device reason subs r.2 in
        (if r.1 then S rs.1 else rs.1, rs.2)
  end.

Definition close_doc (doc : Uuid) (except_device : option Uuid) (reason : string) (s : Sessions)
    : nat * Sessions :=
  match ss_docs s !! doc with
  | None => (0, s)
  | Some subs =>
      let r := close_all doc except_device reason subs (ss_channels s) in
      (r.1, set_channels r.2 (set_docs (delete doc (ss_docs s)) s))
  end.

Definition subscriber_ids (doc : Uuid) (s : Sessions) : list N := su_sub_id <$> subs_of s doc.
Definition subscriber_count (doc : Uuid) (s : Sessions) : nat := length (subs_of s doc).
Definition present (doc : Uuid) (s : Sessions) : list PresentAccount := present_accounts (subs_of s doc).
