(* ===== verification/SessionFacts.v ===== *)
(** Presence never disagrees with the registry: as long as no channel
    overflows, what a subscriber was last told is the set of accounts that
    have the document open. *)
From S2P Require Import Prelude.
From S2P Require Import Wire.
From S2P Require Import Sessions.

(** ** What is sent *)

(** [m] appended to the channel of every id in [ids]. *)
Definition sent_to (ids : list N) (m : Outbound) (chans chans' : gmap N (list Outbound)) : Prop :=
  forall id, chans' !! id = (fun q => if decide (id ∈ ids) then q ++ [m] else q) <$> chans !! id.

Definition roomy (ids : list N) (chans : gmap N (list Outbound)) : Prop :=
  forall id, id ∈ ids -> exists q, chans !! id = Some q /\ length q < CHANNEL_CAPACITY.

Lemma sent_to_nil m chans : sent_to [] m chans chans.
Proof. intros id. destruct (chans !! id) as [q|]; [|done]. cbn. by rewrite decide_False by apply not_elem_of_nil. Qed.

Lemma try_send_roomy id ids m chans :
  roomy (id :: ids) chans -> NoDup (id :: ids) ->
  (try_send id m chans).1 = true /\ sent_to [id] m chans (try_send id m chans).2
  /\ roomy ids (try_send id m chans).2.
Proof.
  intros Hr Hn. apply NoDup_cons in Hn as [Hni _]. destruct (Hr id) as (q & Eq & Hl); [by left|].
  unfold try_send. rewrite Eq, (proj2 (Nat.ltb_lt _ _) Hl). cbn [fst snd]. split_and!; [done| |].
  - intros i. destruct (decide (i = id)) as [->|Hi].
    + rewrite lookup_insert_eq, Eq. cbn. by rewrite decide_True by (by left).
    + rewrite lookup_insert_ne by done. destruct (chans !! i) as [qi|]; [|done]. cbn.
      by rewrite decide_False by (by rewrite list_elem_of_singleton).
  - intros i Hi. rewrite lookup_insert_ne by (intros ->; done). apply Hr. by right.
Qed.

Lemma sent_to_trans ids1 ids2 m c1 c2 c3 :
  (forall id, id ∈ ids1 -> id ∉ ids2) ->
  sent_to ids1 m c1 c2 -> sent_to ids2 m c2 c3 -> sent_to (ids1 ++ ids2) m c1 c3.
Proof.
  intros Hd H1 H2 id. rewrite H2, H1. destruct (c1 !! id) as [q|]; [|done]. cbn. f_equal.
  destruct (decide (id ∈ ids1)) as [Hi|Hi].
  - rewrite (decide_False (P := id ∈ ids2)) by auto. by rewrite decide_True by (apply elem_of_app; auto).
  - destruct (decide (id ∈ ids2)) as [Hj|Hj].
    + by rewrite decide_True by (apply elem_of_app; auto).
    + by rewrite decide_False by (rewrite elem_of_app; tauto).
Qed.

Lemma filtered_ids (P : Subscriber -> Prop) `{!forall x, Decision (P x)} subs :
  (su_sub_id <$> base.filter P subs) `sublist_of` (su_sub_id <$> subs).
Proof. apply fmap_sublist. induction subs as [|s subs IH]; [done|]. rewrite filter_cons. case_decide; by constructor. Qed.

(** A fan-out with room reaches everyone it is for and drops nobody unasked. *)
Lemma fan_out_roomy m (told : Subscriber -> bool) keep subs : forall chans,
  NoDup (su_sub_id <$> subs) -> roomy (su_sub_id <$> base.filter (fun s => told s) subs) chans ->
  let r := fan_out m told keep subs chans in
  r.1.1 = base.filter (fun s => told s = true -> keep s true = true) subs
  /\ sent_to (su_sub_id <$> base.filter (fun s => told s) subs) m chans r.2.
Proof.
  induction subs as [|s subs IH]; intros chans Hn Hr; [split; [done|apply sent_to_nil]|].
  cbn [fmap list_fmap] in Hn. apply NoDup_cons in Hn as [Hni Hn]. cbn [fan_out].
  rewrite !filter_cons in *. destruct (told s) eqn:Et; cbn [Is_true] in *.
  - destruct (decide True) as [_|?] in Hr; [|done]. destruct (decide True) as [_|?]; [|done].
    cbn [fmap list_fmap] in Hr. destruct (try_send_roomy _ _ m _ Hr) as (Hs & Hsent & Hr').
    { apply NoDup_cons. split; [|eapply sublist_NoDup; [exact Hn|apply filtered_ids]].
      intros Hin. apply Hni. eapply elem_of_sublist; [exact Hin|apply filtered_ids]. }
    destruct (IH _ Hn Hr') as [E1 E2]. destruct (fan_out m told keep subs _) as [[rest n] chans'].
    cbn [fst snd] in *. rewrite Hs. split.
    + destruct (keep s true); case_decide as Hd; try (by rewrite E1); exfalso; tauto || by specialize (Hd eq_refl).
    + cbn [fmap list_fmap]. apply (sent_to_trans [su_sub_id s]) with (c2 := (try_send (su_sub_id s) m chans).2);
        [|done|done].
      intros id ->%list_elem_of_singleton Hin. apply Hni.
      eapply elem_of_sublist; [exact Hin|apply filtered_ids].
  - destruct (IH _ Hn Hr) as [E1 E2]. destruct (fan_out m told keep subs _) as [[rest n] chans'].
    cbn [fst snd] in *. rewrite decide_True by done. destruct (decide False) as [[]|_].
    by rewrite E1.
Qed.

(** A presence frame to everyone, or to the one subscriber named. *)
Lemma send_presence_roomy doc subs chans :
  NoDup (su_sub_id <$> subs) -> roomy (su_sub_id <$> subs) chans ->
  sent_to (su_sub_id <$> subs) (OFrame (Presence doc (present_accounts subs))) chans
    (send_presence doc subs None chans).
Proof.
  unfold send_presence. generalize (OFrame (Presence doc (present_accounts subs))) as m.
  intros m. revert chans. induction subs as [|s subs IH]; intros chans Hn Hr; [apply sent_to_nil|].
  cbn [fmap list_fmap foldl] in *.
  destruct (try_send_roomy _ _ m _ Hr Hn) as (_ & Hsent & Hr'). apply NoDup_cons in Hn as [Hni Hn].
  apply (sent_to_trans [su_sub_id s]) with (c2 := (try_send (su_sub_id s) m chans).2); [|done|by apply IH].
  by intros id ->%list_elem_of_singleton.
Qed.

Lemma send_presence_one doc subs id chans :
  NoDup (su_sub_id <$> subs) -> id ∈ su_sub_id <$> subs -> roomy [id] chans ->
  sent_to [id] (OFrame (Presence doc (present_accounts subs))) chans
    (send_presence doc subs (Some id) chans).
Proof.
  unfold send_presence. generalize (OFrame (Presence doc (present_accounts subs))) as m.
  intros m Hn Hin Hr. revert chans Hr Hn Hin. induction subs as [|s subs IH]; intros chans Hr Hn Hin; [by apply not_elem_of_nil in Hin|].
  cbn [fmap list_fmap foldl] in *. apply NoDup_cons in Hn as [Hni Hn].
  destruct (id =? su_sub_id s)%N eqn:E.
  - apply N.eqb_eq in E as ->. destruct (try_send_roomy _ [] m _ Hr) as (_ & Hsent & _); [by repeat constructor; apply not_elem_of_nil|].
    assert (Hid : forall c, foldl (fun chans s0 => if (su_sub_id s =? su_sub_id s0)%N then (try_send (su_sub_id s0) m chans).2 else chans) c subs = c).
    { clear -Hni. induction subs as [|x subs IH]; intros c; [done|]. cbn [fmap list_fmap foldl] in *.
      apply not_elem_of_cons in Hni as [Hne Hni]. apply N.eqb_neq in Hne as ->. by apply IH. }
    by rewrite Hid.
  - apply elem_of_cons in Hin as [->|Hin]; [by rewrite N.eqb_refl in E|]. by apply IH.
Qed.

(** ** Who was told what *)

Definition presence_of (m : Outbound) : option (gset Uuid) :=
  match m with OFrame (Presence _ accounts) => Some (list_to_set (pr_account_id <$> accounts)) | _ => None end.

(** What the client behind [sub] shows once its channel is drained: the last
    presence frame queued, else the last one delivered, else itself alone. *)
Definition told (seen : gmap N (gset Uuid)) (chans : gmap N (list Outbound)) (sub : Subscriber) : gset Uuid :=
  match chans !! su_sub_id sub ≫= (fun q => last (omap presence_of q)) with
  | Some accounts => accounts
  | None => default {[su_account_id sub]} (seen !! su_sub_id sub)
  end.

(** The registry with what each session has forwarded. *)
Record World : Type := mkWorld { w_sessions : Sessions; w_seen : gmap N (gset Uuid) }.

(** The session forwards the head of its channel. *)
Definition deliver (id : N) (w : World) : World :=
  match ss_channels (w_sessions w) !! id with
  | Some (m :: q) =>
      mkWorld (set_channels (<[id := q]> (ss_channels (w_sessions w))) (w_sessions w))
        (match presence_of m with Some a => <[id := a]> (w_seen w) | None => w_seen w end)
  | _ => w
  end.

Inductive change : Type :=
  | Subscribe (doc device account : Uuid) (email : string)
  | Drop (doc : Uuid) (sub_id : N)
  | Broadcast (doc : Uuid) (exclude : N) (updates : list StoredBlob)
  | CloseForAccount (doc account : Uuid) (reason : string)
  | CloseDoc (doc : Uuid) (except_device : option Uuid) (reason : string).

Definition apply_change (c : change) (s : Sessions) : Sessions :=
  match c with
  | Subscribe doc device account email => (subscribe doc device account email s).2
  | Drop doc id => drop_subscription doc id s
  | Broadcast doc exclude updates => (broadcast doc exclude updates s).2
  | CloseForAccount doc account reason => (close_for_account doc account reason s).2
  | CloseDoc doc except reason => (close_doc doc except reason s).2
  end.

(** A handle is dropped once, on the document it was taken for. *)
Definition change_ok (c : change) (s : Sessions) : Prop :=
  match c with
  | Drop doc id => forall doc', id ∈ subscriber_ids doc' s -> doc' = doc
  | _ => True
  end.

(** No registered channel is full. *)
Definition all_roomy (s : Sessions) : Prop :=
  forall doc sub, sub ∈ subs_of s doc -> exists q, ss_channels s !! su_sub_id sub = Some q /\ length q < CHANNEL_CAPACITY.

Inductive reachable : World -> Prop :=
  | reachable_new : reachable (mkWorld sessions_new ∅)
  | reachable_change w c : reachable w -> all_roomy (w_sessions w) -> change_ok c (w_sessions w) ->
      (ss_next_sub_id (w_sessions w) + 1 < 2 ^ 64)%N ->
      reachable (mkWorld (apply_change c (w_sessions w)) (w_seen w))
  | reachable_deliver w id : reachable w -> (id < ss_next_sub_id (w_sessions w))%N -> reachable (deliver id w).

Lemma present_from_set subs : forall out,
  list_to_set (C := gset Uuid) (pr_account_id <$> present_from subs out)
  = list_to_set (pr_account_id <$> out) ∪ account_set subs.
Proof.
  unfold account_set. induction subs as [|s subs IH]; intros out; [set_solver|].
  cbn [present_from fmap list_fmap list_to_set]. rewrite IH.
  destruct (existsb _ out) eqn:E.
  - apply existsb_exists in E as (p & Hp & Ep). apply N.eqb_eq in Ep. apply list_elem_of_In in Hp.
    assert (su_account_id s ∈ (list_to_set (pr_account_id <$> out) : gset Uuid)).
    { apply elem_of_list_to_set, list_elem_of_fmap. by exists p. }
    set_solver.
  - rewrite fmap_app, list_to_set_app_L. cbn. set_solver.
Qed.

Lemma presence_set doc subs :
  presence_of (OFrame (Presence doc (present_accounts subs))) = Some (account_set subs).
Proof. cbn. f_equal. unfold present_accounts. rewrite present_from_set. set_solver. Qed.

(** A message changes what its addressees show when it is a presence frame. *)
Lemma told_sent ids m chans chans' seen sub :
  sent_to ids m chans chans' -> is_Some (chans !! su_sub_id sub) ->
  told seen chans' sub
  = if decide (su_sub_id sub ∈ ids) then default (told seen chans sub) (presence_of m) else told seen chans sub.
Proof.
  intros Hs [q Hq]. unfold told. rewrite Hs, Hq. cbn. case_decide; cbn; [|done].
  rewrite omap_app. cbn. destruct (presence_of m) as [a|]; cbn; [by rewrite last_snoc|by rewrite app_nil_r].
Qed.

Lemma told_other ids m chans chans' seen sub :
  sent_to ids m chans chans' -> su_sub_id sub ∉ ids -> told seen chans' sub = told seen chans sub.
Proof.
  intros Hs Hn. unfold told. rewrite Hs. destruct (chans !! su_sub_id sub); [|done]. cbn.
  by rewrite decide_False.
Qed.

Record exact (w : World) : Prop := {
  ex_next doc sub : sub ∈ subs_of (w_sessions w) doc -> (su_sub_id sub < ss_next_sub_id (w_sessions w))%N;
  ex_unique doc : NoDup (su_sub_id <$> subs_of (w_sessions w) doc);
  ex_doc doc doc' sub sub' : sub ∈ subs_of (w_sessions w) doc -> sub' ∈ subs_of (w_sessions w) doc' ->
    su_sub_id sub = su_sub_id sub' -> doc = doc';
  ex_chan doc sub : sub ∈ subs_of (w_sessions w) doc -> is_Some (ss_channels (w_sessions w) !! su_sub_id sub);
  ex_fresh id : (ss_next_sub_id (w_sessions w) <= id)%N -> w_seen w !! id = None;
  ex_told doc sub : sub ∈ subs_of (w_sessions w) doc ->
    told (w_seen w) (ss_channels (w_sessions w)) sub = account_set (subs_of (w_sessions w) doc);
}.

(** A registry that lost some subscribers of one document, every remaining one
    told its own document's accounts of before. *)
Lemma exact_settle seen s doc before rest chans :
  exact (mkWorld s seen) -> before = subs_of s doc -> rest `sublist_of` before ->
  (forall doc' sub, sub ∈ subs_of s doc' -> (doc' = doc -> sub ∈ rest) ->
     is_Some (chans !! su_sub_id sub) /\ told seen chans sub = told seen (ss_channels s) sub) ->
  roomy (su_sub_id <$> rest) chans ->
  exact (mkWorld (settle doc before rest (set_channels chans s)) seen).
Proof.
  intros [K1 K2 K3 K4 K5 K6] -> Hsub Hold Hroom. cbn [w_sessions w_seen] in *.
  assert (Hin : forall sub, sub ∈ rest -> sub ∈ subs_of s doc) by (intros sub Hs; by eapply elem_of_sublist).
  assert (Hn : NoDup (su_sub_id <$> rest)) by (eapply sublist_NoDup; [apply (K2 doc)|by apply fmap_sublist]).
  set (s' := settle doc (subs_of s doc) rest (set_channels chans s)).
  assert (Hsubs : forall doc', subs_of s' doc' = if decide (doc' = doc) then rest else subs_of s doc').
  { intros doc'. unfold s', settle, subs_of. destruct (decide (rest = [])) as [->|Hne].
    - cbn. case_decide as Hd; [subst; by rewrite lookup_delete_eq|by rewrite lookup_delete_ne].
    - repeat case_decide; cbn; subst; by rewrite ?lookup_insert_eq, ?lookup_insert_ne. }
  assert (Hnext : ss_next_sub_id s' = ss_next_sub_id s) by (unfold s', settle; repeat case_decide; done).
  assert (Hall : forall doc' sub, sub ∈ subs_of s' doc' -> sub ∈ subs_of s doc' /\ (doc' = doc -> sub ∈ rest)).
  { intros doc' sub. rewrite Hsubs. case_decide; [subst; by auto|by auto]. }
  assert (Hch : forall sub doc', sub ∈ subs_of s' doc' ->
    is_Some (ss_channels s' !! su_sub_id sub) /\ told seen (ss_channels s') sub = account_set (subs_of s' doc')).
  { intros sub doc' Hs. destruct (Hall _ _ Hs) as [Hs1 Hs2]. destruct (Hold _ _ Hs1 Hs2) as [Hc Ht].
    rewrite (K6 _ _ Hs1) in Ht. rewrite Hsubs.
    destruct (decide (rest = [])) as [Hne|Hne].
    { assert (Hes : ss_channels s' = chans) by (unfold s', settle; by rewrite decide_True). rewrite !Hes.
      split; [done|]. rewrite Ht. case_decide; [|done]. subst doc'. specialize (Hs2 eq_refl). rewrite Hne in Hs2.
      by apply not_elem_of_nil in Hs2. }
    unfold s', settle. rewrite (decide_False (P := rest = [])) by done.
    destruct (decide (account_set rest = account_set (subs_of s doc))) as [Heq|Hneq].
    { cbn [ss_channels set_docs set_channels]. split; [done|]. rewrite Ht. case_decide; [by subst doc'|done]. }
    cbn [ss_channels set_docs set_channels].
    pose proof (send_presence_roomy doc rest chans Hn Hroom) as Hsent. split.
    { rewrite Hsent. by apply fmap_is_Some. }
    rewrite (told_sent _ _ _ _ _ _ Hsent Hc), presence_set. cbn [default from_option].
    destruct (decide (doc' = doc)) as [->|Hd].
    - rewrite decide_True; [done|]. by apply list_elem_of_fmap_2, Hs2.
    - rewrite decide_False; [by rewrite Ht|]. intros (sub' & E & Hs')%list_elem_of_fmap.
      apply Hd. by eapply K3; [exact Hs1|by apply Hin|]. }
  split; cbn [w_sessions w_seen].
  - intros doc' sub Hs. rewrite Hnext. by eapply K1, Hall.
  - intros doc'. rewrite Hsubs. by case_decide.
  - intros doc1 doc2 sub sub' H1 H2. apply K3; by apply Hall.
  - intros doc' sub Hs. by eapply Hch.
  - intros i. rewrite Hnext. apply K5.
  - intros doc' sub Hs. by eapply Hch.
Qed.

Lemma exact_forget w id : exact w ->
  (forall doc, id ∉ subscriber_ids doc (w_sessions w)) ->
  exact (mkWorld (set_channels (delete id (ss_channels (w_sessions w))) (w_sessions w)) (w_seen w)).
Proof.
  intros [K1 K2 K3 K4 K5 K6] Hid.
  assert (Hne : forall doc sub, sub ∈ subs_of (w_sessions w) doc -> id <> su_sub_id sub).
  { intros doc sub Hs ->. apply (Hid doc). by apply list_elem_of_fmap_2. }
  split; cbn; try done.
  - intros doc sub Hs. rewrite lookup_delete_ne by (by eapply Hne). by eapply K4.
  - intros doc sub Hs. etrans; [|exact (K6 _ _ Hs)]. unfold told. by rewrite lookup_delete_ne by (by eapply Hne).
Qed.

Lemma roomy_subs s doc rest : all_roomy s -> (forall sub, sub ∈ rest -> sub ∈ subs_of s doc) ->
  roomy (su_sub_id <$> rest) (ss_channels s).
Proof. intros Hr Hin id (sub & -> & Hs)%list_elem_of_fmap. by eapply Hr, Hin. Qed.

Lemma subs_of_lookup s doc subs : ss_docs s !! doc = Some subs -> subs_of s doc = subs.
Proof. unfold subs_of. by intros ->. Qed.

Lemma filter_sublist {A} (P : A -> Prop) `{!forall x, Decision (P x)} (l : list A) : base.filter P l `sublist_of` l.
Proof. induction l as [|x l IH]; [done|]. rewrite filter_cons. case_decide; by constructor. Qed.

Lemma exact_drop w doc id : exact w -> all_roomy (w_sessions w) ->
  (forall doc', id ∈ subscriber_ids doc' (w_sessions w) -> doc' = doc) ->
  exact (mkWorld (drop_subscription doc id (w_sessions w)) (w_seen w)).
Proof.
  destruct w as [s seen]. cbn [w_sessions w_seen]. intros He Hr Hid. unfold drop_subscription, unsubscribe.
  destruct (ss_docs s !! doc) as [before|] eqn:Ed.
  2: { apply (exact_forget (mkWorld s seen)); [done|]. cbn. intros doc' Hin. pose proof (Hid doc' Hin) as ->.
       unfold subscriber_ids, subs_of in Hin. rewrite Ed in Hin. by apply not_elem_of_nil in Hin. }
  pose proof (subs_of_lookup _ _ _ Ed) as Hb. set (rest := base.filter _ before).
  assert (Hs' : exact (mkWorld (settle doc before rest s) seen)).
  { replace s with (set_channels (ss_channels s) s) at 1 by (by destruct s).
    apply exact_settle; [done|by rewrite Hb|apply filter_sublist| |].
    - intros doc' sub Hs _. split; [by eapply (ex_chan _ He)|done].
    - apply (roomy_subs s doc); [done|]. intros sub [_ Hs]%list_elem_of_filter. by rewrite Hb. }
  apply (exact_forget _ id Hs'). cbn [w_sessions]. intros doc' (sub & -> & Hs)%list_elem_of_fmap.
  assert (Hd : doc' = doc -> sub ∈ rest).
  { intros ->. revert Hs. unfold settle, subs_of. repeat case_decide; cbn; rewrite ?lookup_delete_eq, ?lookup_insert_eq; cbn; try done.
    intros Hx. by apply not_elem_of_nil in Hx. }
  assert (Ho : doc' <> doc -> sub ∈ subs_of s doc').
  { intros Hne. revert Hs. unfold settle, subs_of. repeat case_decide; cbn; by rewrite ?lookup_delete_ne, ?lookup_insert_ne. }
  destruct (decide (doc' = doc)) as [->|Hne].
  - specialize (Hd eq_refl). apply list_elem_of_filter in Hd as [Hc _]. done.
  - apply Hne, Hid, list_elem_of_fmap_2, Ho, Hne.
Qed.

Lemma exact_broadcast w doc exclude updates : exact w -> all_roomy (w_sessions w) ->
  exact (mkWorld (broadcast doc exclude updates (w_sessions w)).2 (w_seen w)).
Proof.
  destruct w as [s seen]. cbn [w_sessions w_seen]. intros He Hr. unfold broadcast.
  case_decide; [done|]. destruct (ss_docs s !! doc) as [subs|] eqn:Ed; [|done].
  pose proof (subs_of_lookup _ _ _ Ed) as Hb.
  pose proof (fan_out_roomy (OFrame (UpdatesBroadcast doc updates)) (fun x => negb (su_sub_id x =? exclude)%N)
    (fun _ sent => sent) subs (ss_channels s)) as Hf.
  destruct (fan_out _ _ _ _ _) as [[rest n] chans]. cbn [fst snd] in *. destruct Hf as [-> Hsent].
  { rewrite <- Hb. apply (ex_unique _ He). }
  { apply (roomy_subs s doc); [done|]. intros sub [_ Hs]%list_elem_of_filter. by rewrite Hb. }
  assert (Hall : base.filter (fun s0 => negb (su_sub_id s0 =? exclude)%N = true -> true = true) subs = subs).
  { clear. induction subs as [|x l IH]; [done|]. rewrite filter_cons, decide_True by done. by rewrite IH. }
  rewrite Hall. destruct He as [K1 K2 K3 K4 K5 K6]. cbn [w_sessions w_seen] in *.
  assert (Hsubs : forall doc', subs_of (set_channels chans (set_docs (<[doc:=subs]> (ss_docs s)) s)) doc' = subs_of s doc').
  { intros doc'. unfold subs_of. cbn. destruct (decide (doc' = doc)) as [->|];
      [by rewrite lookup_insert_eq, Ed|by rewrite lookup_insert_ne]. }
  split; cbn [w_sessions w_seen]; try done.
  - intros doc' sub. rewrite Hsubs. apply K1.
  - intros doc'. rewrite Hsubs. apply K2.
  - intros doc1 doc2 sub sub'. rewrite !Hsubs. apply K3.
  - intros doc' sub. rewrite Hsubs. intros Hs. cbn. rewrite Hsent. apply fmap_is_Some. by eapply K4.
  - intros doc' sub. rewrite Hsubs. intros Hs. cbn [ss_channels set_channels].
    rewrite (told_sent _ _ _ _ _ _ Hsent (K4 _ _ Hs)). cbn. rewrite (K6 _ _ Hs). by destruct (decide _).
Qed.

Lemma exact_close_for_account w doc account reason : exact w -> all_roomy (w_sessions w) ->
  exact (mkWorld (close_for_account doc account reason (w_sessions w)).2 (w_seen w)).
Proof.
  destruct w as [s seen]. cbn [w_sessions w_seen]. intros He Hr. unfold close_for_account.
  destruct (ss_docs s !! doc) as [before|] eqn:Ed; [|done].
  pose proof (subs_of_lookup _ _ _ Ed) as Hb.
  pose proof (fan_out_roomy (OClose (DocClosed doc reason)) (fun x => su_account_id x =? account)%N
    (fun _ _ => false) before (ss_channels s)) as Hf.
  destruct (fan_out _ _ _ _ _) as [[rest n] chans]. cbn [fst snd] in *. destruct Hf as [-> Hsent].
  { rewrite <- Hb. apply (ex_unique _ He). }
  { apply (roomy_subs s doc); [done|]. intros sub [_ Hs]%list_elem_of_filter. by rewrite Hb. }
  set (rest := base.filter _ before). set (gone := su_sub_id <$> _) in Hsent.
  assert (Hg : forall doc' sub, sub ∈ subs_of s doc' -> (doc' = doc -> sub ∈ rest) -> su_sub_id sub ∉ gone).
  { intros doc' sub Hs Hrest (sub' & E & [Ha Hs']%list_elem_of_filter)%list_elem_of_fmap.
    assert (doc' = doc) as ->. { eapply (ex_doc _ He); [exact Hs|cbn; by rewrite Hb|done]. }
    specialize (Hrest eq_refl). apply list_elem_of_filter in Hrest as [Hk Hs2].
    assert (sub = sub') as ->.
    { pose proof (ex_unique _ He doc) as Hn. cbn in Hn. rewrite Hb in Hn.
      apply list_elem_of_lookup in Hs2 as [i Hi], Hs' as [j Hj].
      assert (i = j) as ->; [|congruence].
      eapply (NoDup_lookup _ i j (su_sub_id sub) Hn); rewrite list_lookup_fmap; [by rewrite Hi|by rewrite Hj, E]. }
    apply Is_true_true in Ha. by specialize (Hk Ha). }
  apply exact_settle; [done|done|apply filter_sublist| |].
  - intros doc' sub Hs Hrest. split.
    + rewrite Hsent. apply fmap_is_Some. by eapply (ex_chan _ He).
    + by eapply told_other, Hg.
  - intros id (sub & -> & Hs)%list_elem_of_fmap.
    assert (Hs' : sub ∈ subs_of s doc) by (rewrite Hb; by apply list_elem_of_filter in Hs as [_ ?]).
    destruct (Hr _ _ Hs') as (q & Hq & Hl). exists q. rewrite Hsent, Hq. cbn. rewrite decide_False; [done|].
    by eapply Hg.
Qed.

Lemma close_all_other doc except reason subs id : forall chans, id ∉ su_sub_id <$> subs ->
  (close_all doc except reason subs chans).2 !! id = chans !! id.
Proof.
  assert (Ht : forall i m (c : gmap N (list Outbound)), id <> i -> (try_send i m c).2 !! id = c !! id).
  { intros i m c Hne. unfold try_send. destruct (c !! i); [|done]. destruct (_ <? _); [|done]. cbn.
    by rewrite lookup_insert_ne. }
  induction subs as [|x subs IH]; intros chans; [done|]. cbn [fmap list_fmap close_all].
  intros [Hne Hni]%not_elem_of_cons. case_decide; cbn; rewrite IH by done; by apply Ht.
Qed.

Lemma exact_close_doc w doc except reason : exact w ->
  exact (mkWorld (close_doc doc except reason (w_sessions w)).2 (w_seen w)).
Proof.
  destruct w as [s seen]. cbn [w_sessions w_seen]. intros [K1 K2 K3 K4 K5 K6]. unfold close_doc.
  destruct (ss_docs s !! doc) as [subs|] eqn:Ed; [|by split]. pose proof (subs_of_lookup _ _ _ Ed) as Hb.
  cbn [w_sessions w_seen] in *. set (chans := (close_all _ _ _ _ _).2).
  assert (Hsubs : forall doc', subs_of (set_channels chans (set_docs (delete doc (ss_docs s)) s)) doc'
    = if decide (doc' = doc) then [] else subs_of s doc').
  { intros doc'. unfold subs_of. cbn. case_decide; subst; by rewrite ?lookup_delete_eq, ?lookup_delete_ne. }
  assert (Hin : forall doc' sub, sub ∈ subs_of (set_channels chans (set_docs (delete doc (ss_docs s)) s)) doc' ->
    sub ∈ subs_of s doc' /\ chans !! su_sub_id sub = ss_channels s !! su_sub_id sub).
  { intros doc' sub. rewrite Hsubs. case_decide as Hd; [by intros ?%not_elem_of_nil|]. intros Hs. split; [done|].
    apply close_all_other. intros (sub' & E & Hs')%list_elem_of_fmap. apply Hd.
    eapply K3; [exact Hs|by rewrite Hb|done]. }
  split; cbn [w_sessions w_seen]; try done.
  - intros doc' sub [Hs _]%Hin. by eapply K1.
  - intros doc'. rewrite Hsubs. case_decide; [constructor|apply K2].
  - intros doc1 doc2 sub sub' [H1 _]%Hin [H2 _]%Hin. by apply K3.
  - intros doc' sub [Hs E]%Hin. cbn. rewrite E. by eapply K4.
  - intros doc' sub Hs0. pose proof (Hin _ _ Hs0) as [Hs E]. rewrite Hsubs in *.
    case_decide; [by apply not_elem_of_nil in Hs0|]. rewrite <- (K6 _ _ Hs). unfold told. cbn. by rewrite E.
Qed.

Lemma told_new seen chans sub : chans !! su_sub_id sub = Some [] -> seen !! su_sub_id sub = None ->
  told seen chans sub = {[su_account_id sub]}.
Proof. intros Hc Hs. unfold told. by rewrite Hc, Hs. Qed.

Lemma exact_subscribe w doc device account email : exact w -> all_roomy (w_sessions w) ->
  (ss_next_sub_id (w_sessions w) + 1 < 2 ^ 64)%N ->
  exact (mkWorld (subscribe doc device account email (w_sessions w)).2 (w_seen w)).
Proof.
  destruct w as [s seen]. cbn [w_sessions w_seen]. intros [K1 K2 K3 K4 K5 K6] Hr Hnext.
  cbn [w_sessions w_seen] in *. unfold subscribe. cbn [snd].
  set (n := ss_next_sub_id s) in *. set (before := subs_of s doc) in *. set (new := mkSub n device account email).
  set (subs := before ++ [new]). set (chans0 := <[n:=[]]> (ss_channels s)).
  set (chans := if 1 <? size (account_set subs) then _ else chans0).
  assert (Hni : n ∉ su_sub_id <$> before).
  { intros (sub & E & Hs)%list_elem_of_fmap. pose proof (K1 _ _ Hs). unfold n in *. lia. }
  assert (Hn : NoDup (su_sub_id <$> subs)).
  { unfold subs. rewrite fmap_app. apply NoDup_app. split_and!; [apply K2| |cbn; repeat constructor; apply not_elem_of_nil].
    intros id Hid ->%list_elem_of_singleton. by apply Hni. }
  assert (Hnew : n ∈ su_sub_id <$> subs).
  { apply list_elem_of_fmap. exists new. split; [done|]. apply elem_of_app. right. by left. }
  assert (Hold : forall doc' sub, sub ∈ subs_of s doc' -> chans0 !! su_sub_id sub = ss_channels s !! su_sub_id sub).
  { intros doc' sub Hs. apply lookup_insert_ne. pose proof (K1 _ _ Hs). fold n in H. lia. }
  assert (Hroom : roomy (su_sub_id <$> subs) chans0).
  { intros id (sub & -> & [Hs| ->%list_elem_of_singleton]%elem_of_app)%list_elem_of_fmap.
    - rewrite (Hold doc sub Hs). by eapply Hr.
    - exists []. split; [apply lookup_insert_eq|]. cbn. unfold CHANNEL_CAPACITY. lia. }
  assert (Hsubs : forall c doc', subs_of (mkSessions (<[doc:=subs]> (ss_docs s)) c ((n + 1) mod 2 ^ 64)) doc'
    = if decide (doc' = doc) then subs else subs_of s doc').
  { intros c doc'. unfold subs_of. cbn. case_decide; subst; by rewrite ?lookup_insert_eq, ?lookup_insert_ne. }
  assert (Htold0 : forall doc' sub, sub ∈ subs_of s doc' -> told seen chans0 sub = account_set (subs_of s doc')).
  { intros doc' sub Hs. rewrite <- (K6 _ _ Hs). unfold told. by rewrite (Hold _ _ Hs). }
  assert (Hnew0 : told seen chans0 new = {[account]}).
  { apply told_new; [apply lookup_insert_eq|]. apply K5. cbn. fold n. lia. }
  assert (Hacc : account_set subs = account_set before ∪ {[account]}).
  { unfold account_set, subs. rewrite fmap_app, list_to_set_app_L. cbn. set_solver. }
  assert (Hch : forall doc' sub, (doc' = doc /\ sub ∈ subs) \/ (doc' <> doc /\ sub ∈ subs_of s doc') ->
    is_Some (chans !! su_sub_id sub)
    /\ told seen chans sub = account_set (if decide (doc' = doc) then subs else subs_of s doc')).
  { intros doc' sub Hs.
    assert (Hc0 : is_Some (chans0 !! su_sub_id sub)).
    { destruct Hs as [[-> Hs]|[Hd Hs]]; [|rewrite (Hold _ _ Hs); by eapply K4].
      destruct (Hroom (su_sub_id sub)) as (q & -> & _); [by apply list_elem_of_fmap_2|by eexists]. }
    assert (Hother : doc' <> doc -> sub ∈ subs_of s doc' -> su_sub_id sub ∉ su_sub_id <$> subs).
    { intros Hd Hs' (sub' & E & [Hs2| ->%list_elem_of_singleton]%elem_of_app)%list_elem_of_fmap.
      - apply Hd. by eapply (K3 doc' doc).
      - pose proof (K1 _ _ Hs') as Hlt. rewrite E in Hlt. cbn in Hlt. fold n in Hlt. lia. }
    unfold chans. destruct (1 <? size (account_set subs)) eqn:Esz;
      [destruct (decide (account_set subs = account_set before)) as [Heq|Hneq]|].
    - assert (Hsent : sent_to [n] (OFrame (Presence doc (present_accounts subs))) chans0
        (send_presence doc subs (Some n) chans0)).
      { apply send_presence_one; [done|done|]. by intros id ->%list_elem_of_singleton; apply Hroom. }
      split; [rewrite Hsent; by apply fmap_is_Some|].
      rewrite (told_sent _ _ _ _ _ _ Hsent Hc0), presence_set. cbn [default from_option].
      destruct Hs as [[-> Hs]|[Hd Hs]].
      + rewrite (decide_True (P := doc = doc)) by done. case_decide as Hid; [done|].
        apply elem_of_app in Hs as [Hs| ->%list_elem_of_singleton]; [|by destruct Hid; left].
        by rewrite (Htold0 doc sub Hs), Heq.
      + rewrite (decide_False (P := doc' = doc)) by done. rewrite decide_False; [by apply Htold0|].
        intros Hid%list_elem_of_singleton. apply (Hother Hd Hs). by rewrite Hid.
    - pose proof (send_presence_roomy doc subs chans0 Hn Hroom) as Hsent.
      split; [rewrite Hsent; by apply fmap_is_Some|].
      rewrite (told_sent _ _ _ _ _ _ Hsent Hc0), presence_set. cbn [default from_option].
      destruct Hs as [[-> Hs]|[Hd Hs]].
      + rewrite (decide_True (P := doc = doc)) by done. by rewrite decide_True by (by apply list_elem_of_fmap_2).
      + rewrite (decide_False (P := doc' = doc)) by done. rewrite decide_False; [by apply Htold0|auto].
    - split; [done|]. apply Nat.ltb_ge in Esz.
      assert (Heq : account_set subs = {[account]}).
      { symmetry. apply set_subseteq_size_eq; [rewrite Hacc; set_solver|]. by rewrite size_singleton. }
      destruct Hs as [[-> Hs]|[Hd Hs]].
      + rewrite (decide_True (P := doc = doc)) by done.
        apply elem_of_app in Hs as [Hs| ->%list_elem_of_singleton]; [|by rewrite Hnew0].
        rewrite (Htold0 doc sub Hs). rewrite Heq in Hacc.
        assert (su_account_id sub ∈ account_set before).
        { unfold account_set. apply elem_of_list_to_set. by apply list_elem_of_fmap_2. }
        rewrite Heq. fold before. set_solver.
      + rewrite (decide_False (P := doc' = doc)) by done. by apply Htold0. }
  assert (Hcase : forall doc' sub, sub ∈ subs_of (mkSessions (<[doc:=subs]> (ss_docs s)) chans ((n + 1) mod 2 ^ 64)) doc' ->
    (doc' = doc /\ sub ∈ subs) \/ (doc' <> doc /\ sub ∈ subs_of s doc')).
  { intros doc' sub. rewrite Hsubs. case_decide; auto. }
  assert (Hm : ((n + 1) mod 2 ^ 64 = n + 1)%N) by (apply N.mod_small; lia).
  assert (Hlt : forall doc' sub, (doc' = doc /\ sub ∈ subs) \/ (doc' <> doc /\ sub ∈ subs_of s doc') ->
    (su_sub_id sub < n)%N /\ sub ∈ subs_of s doc' \/ su_sub_id sub = n /\ doc' = doc).
  { intros doc' sub [[-> [Hs| ->%list_elem_of_singleton]%elem_of_app]|[Hd Hs]]; [left|by right|left]; (split; [by eapply K1|done]). }
  split; cbn [w_sessions w_seen ss_next_sub_id].
  - intros doc' sub Hs%Hcase%Hlt. rewrite Hm. lia.
  - intros doc'. rewrite Hsubs. case_decide; [done|apply K2].
  - intros doc1 doc2 sub sub' [[H1 H1']|[H1 ->]]%Hcase%Hlt [[H2 H2']|[H2 ->]]%Hcase%Hlt E; try (exfalso; lia); [|done].
    by eapply K3.
  - intros doc' sub Hs%Hcase. by eapply Hch.
  - intros id Hid. apply K5. rewrite Hm in Hid. unfold n in *. lia.
  - intros doc' sub Hs. rewrite Hsubs. by apply Hch, Hcase.
Qed.

Lemma exact_deliver w id : exact w -> (id < ss_next_sub_id (w_sessions w))%N -> exact (deliver id w).
Proof.
  intros He Hid. unfold deliver. destruct (ss_channels (w_sessions w) !! id) as [[|m q]|] eqn:Eq; [done| |done].
  destruct He as [K1 K2 K3 K4 K5 K6].
  split; cbn [w_sessions w_seen]; try done.
  - intros doc sub Hs. cbn. destruct (decide (id = su_sub_id sub)) as [->|];
      [rewrite lookup_insert_eq; by eexists|rewrite lookup_insert_ne by done; by eapply K4].
  - intros j Hj. cbn in Hj. destruct (presence_of m) as [a|] eqn:Ep; [|by apply K5].
    rewrite lookup_insert_ne; [by apply K5|]. intros ->. lia.
  - intros doc sub Hs. cbn [ss_channels set_channels].
    change (subs_of _ doc) with (subs_of (w_sessions w) doc) in *.
    rewrite <- (K6 _ _ Hs). unfold told. destruct (decide (id = su_sub_id sub)) as [->|Hne].
    + rewrite lookup_insert_eq, Eq. cbn [mbind option_bind omap list_omap].
      destruct (presence_of m) as [a|]; [|done]. rewrite last_cons.
      destruct (last (omap presence_of q)); [done|]. by rewrite lookup_insert_eq.
    + rewrite lookup_insert_ne by done. destruct (_ ≫= _); [done|].
      destruct (presence_of m); [by rewrite lookup_insert_ne|done].
Qed.

Lemma reachable_exact w : reachable w -> exact w.
Proof.
  induction 1 as [|w c _ IH Hr Hc Hn|w id _ IH Hid]; [|destruct c|by apply exact_deliver].
  - split; cbn; try done; try (intros ? ? ?%not_elem_of_nil; done); [constructor|].
    intros ? ? ? ? ?%not_elem_of_nil. done.
  - by apply exact_subscribe.
  - by apply exact_drop.
  - by apply exact_broadcast.
  - by apply exact_close_for_account.
  - by apply exact_close_doc.
Qed.

(** C13: Presence never disagrees with the registry. After any sequence of opens,
    drops, broadcasts, revocations and deletions in which no channel was full,
    with the sessions forwarding their channels at any pace: every subscriber of a document
    ends up showing exactly the accounts of its subscribers. *)
Theorem presence_exact w doc sub :
  reachable w -> sub ∈ subs_of (w_sessions w) doc ->
  told (w_seen w) (ss_channels (w_sessions w)) sub = account_set (subs_of (w_sessions w) doc).
Proof. intros Hw Hs. by apply (ex_told _ (reachable_exact w Hw)). Qed.

(** Two accounts open document 5 and one of the first's two connections goes. *)
Definition open_twice : Sessions :=
  apply_change (Drop 5 1) (apply_change (Subscribe 5 12 30 "b") (apply_change (Subscribe 5 11 20 "a")
    (apply_change (Subscribe 5 10 20 "a") sessions_new))).

Lemma presence_exact_witness :
  told ∅ (ss_channels open_twice) (mkSub 2 11 20 "a") = ({[20; 30]}%N : gset Uuid).
Proof.
  rewrite (presence_exact (mkWorld open_twice ∅) 5 (mkSub 2 11 20 "a")); [vm_compute; reflexivity| |vm_compute; by left].
  assert (Hroom : forall s : Sessions, (forallb (fun kv : N * list Subscriber => forallb (fun x =>
      match ss_channels s !! su_sub_id x with Some q => length q <? CHANNEL_CAPACITY | None => false end) kv.2)
      (map_to_list (ss_docs s))) = true -> all_roomy s).
  { intros s Hs d x Hx. rewrite forallb_forall in Hs. unfold subs_of in Hx.
    destruct (ss_docs s !! d) as [l|] eqn:El; [|by apply not_elem_of_nil in Hx].
    specialize (Hs (d, l)). rewrite forallb_forall in Hs. cbn in Hs.
    specialize (Hs ltac:(by apply list_elem_of_In, elem_of_map_to_list) x ltac:(by apply list_elem_of_In)).
    destruct (ss_channels s !! su_sub_id x) as [q|]; [|done]. exists q. split; [done|]. by apply Nat.ltb_lt. }
  unfold open_twice.
  apply (reachable_change (mkWorld _ ∅) (Drop 5 1)); [|apply Hroom; vm_compute; reflexivity| |vm_compute; reflexivity].
  2: { intros d (x & E & Hx)%list_elem_of_fmap. unfold subs_of in Hx.
       destruct (decide (d = 5%N)) as [->|Hd]; [done|]. revert Hx. cbn [w_sessions]. unfold apply_change, subscribe. cbn [snd ss_docs].
       rewrite !lookup_insert_ne by done. by intros ?%not_elem_of_nil. }
  apply (reachable_change (mkWorld _ ∅) (Subscribe 5 12 30 "b")); [|apply Hroom; vm_compute; reflexivity|done|vm_compute; reflexivity].
  apply (reachable_change (mkWorld _ ∅) (Subscribe 5 11 20 "a")); [|apply Hroom; vm_compute; reflexivity|done|vm_compute; reflexivity].
  apply (reachable_change (mkWorld _ ∅) (Subscribe 5 10 20 "a")); [|apply Hroom; vm_compute; reflexivity|done|vm_compute; reflexivity].
  apply reachable_new.
Defined.
