(* ===== verification/Ws.v ===== *)
(** A sync session of the server (server/src/sync/ws.rs): the documents a
    connection has open, the handlers of client frames, the delivery of
    broadcasts and the end of a session. The handlers run against the shared
    state (database, coordinator, registry); a frame handler is one atomic
    step, and sends to the socket succeed. Authentication of the upgrade and
    the version handshake come before. *)
From S2P Require Import Prelude.
From S2P Require Import Wire.
From S2P Require Import Tables.
From S2P Require Import ServerDb.
From S2P Require Import Coordinator.
From S2P Require Import Sessions.

Record DeviceAuth : Type := mkAuth {
  au_account_id : Uuid;
  au_device_id : Uuid;
  au_primary_doc_id : Uuid;
  au_email : string;
}.

Inductive SessionError : Type :=
  | Closed
  | Sql (e : string)
  | OpenRefused (doc : Uuid) (reason : string)
  | DocNotOpen (doc : Uuid)
  | BroadcastLagged (doc : Uuid).

Record OpenEntry : Type := mkOpen { op_sub : N; op_lease : option N }.

(** What all sessions share; [st_compactions]: the compactions spawned and not
    yet run; [st_now]: the clock. *)
Record AppState : Type := mkState {
  st_db : Db;
  st_coordinator : Coordinator;
  st_sessions : Sessions;
  st_compactions : list Uuid;
  st_now : N;
}.

(** One connection: its open documents and what it has sent. *)
Record Ws : Type := mkWs {
  ws_auth : DeviceAuth;
  ws_open : gmap Uuid OpenEntry;
  ws_socket : list ServerFrame;
}.

Definition W (A : Type) : Type := AppState * Ws -> result SessionError A * (AppState * Ws).
#[export] Instance W_ret : MRet W := fun A a w => (Ok a, w).
#[export] Instance W_bind : MBind W := fun A B f m w =>
  match m w with (Ok a, w) => f a w | (Err e, w) => (Err e, w) end.

Definition throw {A} (e : SessionError) : W A := fun w => (Err e, w).
Definition get_w {A} (f : AppState -> Ws -> A) : W A := fun w => (Ok (f w.1 w.2), w).
(** A transaction of the database, rolled back and returned as an error when
    it fails. *)
Definition in_tx {A} (f : Db -> result string (A * Db)) : W A := fun w =>
  let st := w.1 in
  match f (st_db st) with
  | Ok (a, db) => (Ok a, (mkState db (st_coordinator st) (st_sessions st) (st_compactions st) (st_now st), w.2))
  | Err e => (Err (Sql e), w)
  end.
Definition in_coordinator {A} (f : Coordinator -> A * Coordinator) : W A := fun w =>
  let st := w.1 in
  let r := f (st_coordinator st) in
  (Ok r.1, (mkState (st_db st) r.2 (st_sessions st) (st_compactions st) (st_now st), w.2)).
Definition in_sessions {A} (f : Sessions -> A * Sessions) : W A := fun w =>
  let st := w.1 in
  let r := f (st_sessions st) in
  (Ok r.1, (mkState (st_db st) (st_coordinator st) r.2 (st_compactions st) (st_now st), w.2)).
Definition spawn_compaction (doc : Uuid) : W unit := fun w =>
  let st := w.1 in
  (Ok tt, (mkState (st_db st) (st_coordinator st) (st_sessions st) (st_compactions st ++ [doc]) (st_now st), w.2)).
Definition set_open (doc : Uuid) (e : option OpenEntry) : W unit := fun w =>
  (Ok tt, (w.1, mkWs (ws_auth w.2) (partial_alter (fun _ => e) doc (ws_open w.2)) (ws_socket w.2))).
Definition send (f : ServerFrame) : W unit := fun w =>
  (Ok tt, (w.1, mkWs (ws_auth w.2) (ws_open w.2) (ws_socket w.2 ++ [f]))).
(** ** Frames *)

(** [WSSession::open_doc]. *)
Definition require_open (doc : Uuid) : W OpenEntry :=
  entry ← get_w (fun _ ws => ws_open ws !! doc);
  match entry with Some e => mret e | None => throw (DocNotOpen doc) end.

Definition can_open (doc : Uuid) : W bool :=
  get_w (fun st ws => is_member doc (au_account_id (ws_auth ws)) (st_db st)).

(** [open_doc] after its access check. *)
Definition bind_doc (doc : Uuid) (allowed : bool) : W unit :=
  if negb allowed then
    send (DocRejected doc "not a member of this doc") ;;
    throw (OpenRefused doc "not a member of this doc")
  else
    epoch ← get_w (fun st _ => doc_epoch doc (st_db st));
    entry ← get_w (fun _ ws => ws_open ws !! doc);
    match entry with
    | Some _ => mret tt
    | None =>
        auth ← get_w (fun _ ws => ws_auth ws);
        sub ← in_sessions (subscribe doc (au_device_id auth) (au_account_id auth) (au_email auth));
        set_open doc (Some (mkOpen sub None))
    end ;;
    send (DocOpened doc epoch).

Definition open_doc (doc : Uuid) : W unit :=
  allowed ← can_open doc;
  bind_doc doc allowed.

Definition prev_snapshot (doc : Uuid) (db : Db) : option PrevSnapshot :=
  (fun m => mkPrev (lm_up_to_seq m) (lm_compaction_floor_seq m) (lm_up_to_vv m)) <$> latest_snapshot_meta doc db.

Definition evaluate_snapshot_decision (doc : Uuid) (device_last_acked_seq : N) : W Decision :=
  device ← get_w (fun _ ws => au_device_id (ws_auth ws));
  now ← get_w (fun st _ => st_now st);
  prev ← get_w (fun st _ => prev_snapshot doc (st_db st));
  server_last_seq ← get_w (fun st _ => latest_doc_seq doc (st_db st));
  horizon ← get_w (fun st _ => doc_horizon doc device device_last_acked_seq (st_db st));
  in_coordinator (evaluate doc prev server_last_seq horizon device_last_acked_seq now).

Definition issue_snapshot_request (doc : Uuid) (decision : Decision) : W unit :=
  match decision with
  | Skip => mret tt
  | Issue lease_id up_to_seq compaction_floor_seq base =>
      entry ← require_open doc;
      set_open doc (Some (mkOpen (op_sub entry) (Some lease_id))) ;;
      send (SnapshotRequest doc up_to_seq compaction_floor_seq base)
  end.

Definition evaluate_snapshot (doc : Uuid) (device_last_acked_seq : N) : W unit :=
  decision ← evaluate_snapshot_decision doc device_last_acked_seq;
  issue_snapshot_request doc decision.

(** The decision is computed before the ack is sent, the request goes after it. *)
Definition push_updates (doc : Uuid) (updates : list PushBlob) : W unit :=
  entry ← require_open doc;
  if decide (updates = []) then send (UpdatesAck doc [])
  else
    device ← get_w (fun _ ws => au_device_id (ws_auth ws));
    inserted ← in_tx (insert_updates doc device updates);
    (if decide (in_fresh inserted = []) then mret tt
     else in_sessions (broadcast doc (op_sub entry) (in_fresh inserted)) ;; mret tt) ;;
    decision ← match last (in_acks inserted) with
               | Some a => d ← evaluate_snapshot_decision doc (pa_seq a); mret (Some d)
               | None => mret None
               end;
    send (UpdatesAck doc (in_acks inserted)) ;;
    match decision with Some d => issue_snapshot_request doc d | None => mret tt end.

(** The loop of [pull_updates]: the frames from [cursor] on, [None] when the
    fuel runs out. *)
Fixpoint pull_frames (fuel : nat) (doc : Uuid) (cursor : N) (db : Db) : option (list ServerFrame) :=
  match fuel with
  | O => None
  | S fuel =>
      let batch := fetch_updates_batch doc cursor db in
      let next_cursor := default cursor (sb_seq <$> last (fb_updates batch)) in
      let complete := negb (fb_has_more batch) in
      let frame := UpdatesBatch doc (fb_updates batch) complete in
      if complete then Some [frame] else cons frame <$> pull_frames fuel doc next_cursor db
  end.

(** As many rounds as there are rows, and one. *)
Definition pull_fuel (doc : Uuid) (db : Db) : nat := S (length (select (db_updates db) doc)).

Fixpoint send_all (fs : list ServerFrame) : W unit :=
  match fs with [] => mret tt | f :: fs => send f ;; send_all fs end.

Definition pull_updates (doc : Uuid) (since_seq : N) : W unit :=
  meta ← get_w (fun st _ => latest_snapshot_meta doc (st_db st));
  frames ← get_w (fun st _ => pull_frames (pull_fuel doc (st_db st)) doc since_seq (st_db st));
  match meta with
  | Some m =>
      if (since_seq <? lm_compaction_floor_seq m)%N then send (SnapshotRequired doc (lm_up_to_seq m))
      else send_all (default [] frames)
  | None => send_all (default [] frames)
  end.

Definition push_snapshot (doc : Uuid) (up_to_seq compaction_floor_seq : N) (from_seq : option N)
    (up_to_vv blob : EncryptedBlob) : W unit :=
  entry ← require_open doc;
  match op_lease entry with
  | None => mret tt
  | Some lease =>
      result ← in_coordinator (release doc lease);
      match result with
      | Stale => mret tt
      | Accepted =>
          set_open doc (Some (mkOpen (op_sub entry) None)) ;;
          r ← in_tx (insert_snapshot doc up_to_seq compaction_floor_seq from_seq up_to_vv blob);
          match r with
          | ChainMismatch _ => mret tt
          | Inserted _ => spawn_compaction doc
          end
      end
  end.

(** One row per frame, the last one complete. *)
Fixpoint chain_frames (doc : Uuid) (rows : list SnapshotChainRow) : list ServerFrame :=
  match rows with
  | [] => []
  | r :: rows => Snapshot doc (cr_up_to_seq r) (cr_blob r) (bool_decide (rows = [])) :: chain_frames doc rows
  end.

Definition pull_snapshot (doc : Uuid) : W unit :=
  chain ← get_w (fun st _ => snapshot_chain doc (st_db st));
  match chain with
  | Some c => send_all (chain_frames doc (ch_rows c))
  | None => mret tt
  end.

Definition handle_frame (frame : ClientFrame) : W unit :=
  match frame with
  | OpenDoc doc => open_doc doc
  | PushUpdates doc updates => push_updates doc updates
  | PullUpdates doc since_seq => require_open doc ;; pull_updates doc since_seq
  | Ack doc last_acked_seq =>
      require_open doc ;;
      device ← get_w (fun _ ws => au_device_id (ws_auth ws));
      in_tx (fun db => let? db := advance_last_acked_seq device doc last_acked_seq db in Ok (tt, db)) ;;
      evaluate_snapshot doc last_acked_seq
  | PullSnapshot doc => require_open doc ;; pull_snapshot doc
  | PushSnapshot doc up_to_seq compaction_floor_seq from_seq up_to_vv blob =>
      push_snapshot doc up_to_seq compaction_floor_seq from_seq up_to_vv blob
  end.

(** ** Broadcasts and the end of a session *)

(** The receiver's head, and whether the sender is still registered. *)
Definition poll (doc : Uuid) (st : AppState) (ws : Ws) : option (option Outbound * AppState) :=
  match ws_open ws !! doc with
  | None => None
  | Some e =>
      let s := st_sessions st in
      match ss_channels s !! op_sub e with
      | Some (m :: q) =>
          Some (Some m, mkState (st_db st) (st_coordinator st)
            (set_channels (<[op_sub e := q]> (ss_channels s)) s) (st_compactions st) (st_now st))
      | _ => if decide (op_sub e ∈ subscriber_ids doc s) then None else Some (None, st)
      end
  end.

(** Dropping the entry drops its subscription. *)
Definition unbind_doc (doc : Uuid) : W unit :=
  entry ← get_w (fun _ ws => ws_open ws !! doc);
  match entry with
  | None => mret tt
  | Some e =>
      set_open doc None ;;
      in_sessions (fun s => (tt, drop_subscription doc (op_sub e) s)) ;;
      match op_lease e with
      | Some lease => in_coordinator (release doc lease) ;; mret tt
      | None => mret tt
      end
  end.

(** The broadcast arm of the session loop for a document that is ready. *)
Definition forward (doc : Uuid) : W unit := fun w =>
  match poll doc w.1 w.2 with
  | None => (Ok tt, w)
  | Some (None, st) => (Err (BroadcastLagged doc), (st, w.2))
  | Some (Some m, st) =>
      match m with
      | OFrame f => send f (st, w.2)
      | OClose f => (unbind_doc doc ;; send f) (st, w.2)
      | OUnbind => unbind_doc doc (st, w.2)
      end
  end.

(** The subscriptions of a session that is gone. *)
Definition drop_all (docs : list (Uuid * OpenEntry)) (s : Sessions) : Sessions :=
  foldl (fun s kv => drop_subscription kv.1 (op_sub kv.2) s) s docs.
Definition release_all (docs : list (Uuid * OpenEntry)) (c : Coordinator) : Coordinator :=
  foldl (fun c kv => match op_lease kv.2 with Some lease => (release kv.1 lease c).2 | None => c end) c docs.

(** A socket that closes or sends junk leaves the loop with [break]: the
    leases go back. An error of a handler or a lagging channel returns from
    [run_session] with [?]: only the subscriptions are dropped. *)
Definition end_session (broke : bool) (st : AppState) (ws : Ws) : AppState :=
  let docs := map_to_list (ws_open ws) in
  mkState (st_db st)
    (if broke then release_all docs (st_coordinator st) else st_coordinator st)
    (drop_all docs (st_sessions st)) (st_compactions st) (st_now st).

(** A spawned compaction runs. *)
Definition run_compaction (st : AppState) : AppState :=
  match st_compactions st with
  | [] => st
  | doc :: rest => mkState (compact_doc doc (st_db st)).2 (st_coordinator st) (st_sessions st) rest (st_now st)
  end.

(** Sending in a loop appends the frames. *)
Lemma send_all_spec fs st ws :
  send_all fs (st, ws) = (Ok tt, (st, mkWs (ws_auth ws) (ws_open ws) (ws_socket ws ++ fs))).
Proof.
  revert ws. induction fs as [|f fs IH]; intros [? ? ?]; cbn; [by rewrite app_nil_r|].
  unfold mbind, W_bind, send. cbn. rewrite IH. cbn. by rewrite <- app_assoc.
Qed.
