(* ===== verification/AuthFacts.v ===== *)
(** Accounts and sharing: what every sequence of requests keeps true of the
    tables, and the outcomes of joining, password resets and deletions. *)
From S2P Require Import Prelude.
From S2P Require Import Wire.
From S2P Require Import AuthDb.

(** ** The invariant *)

Definition owner (t : AuthTables) (doc account : Uuid) : Prop :=
  exists r, at_members t !! (doc, account) = Some r /\ mr_role r = Owner.
Definition home (t : AuthTables) (doc account : Uuid) : Prop :=
  exists r, at_accounts t !! account = Some r /\ ac_primary_doc r = doc.

(** References point to rows, every document has one owner, whose membership
    is active, and an account's own document has no other member and no link. *)
Record auth_ok (t : AuthTables) : Prop := {
  ao_member d a r : at_members t !! (d, a) = Some r -> d ∈ at_docs t /\ is_Some (at_accounts t !! a);
  ao_active d a r : at_members t !! (d, a) = Some r -> mr_role r = Owner -> active r;
  ao_one_owner d a b : owner t d a -> owner t d b -> a = b;
  ao_owned d : d ∈ at_docs t -> exists a, owner t d a;
  ao_home d a : home t d a -> owner t d a;
  ao_alone d a b r : home t d a -> at_members t !! (d, b) = Some r -> a = b;
  ao_invite i v : at_invites t !! i = Some v ->
    iv_doc v ∈ at_docs t /\ is_Some (at_accounts t !! iv_issued_by v) /\ forall a, ~ home t (iv_doc v) a;
  ao_device d r : at_devices t !! d = Some r -> is_Some (at_accounts t !! dv_account r);
  ao_recovery h r : at_recovery t !! h = Some r -> is_Some (at_accounts t !! rc_account r);
  ao_email a b r s : at_accounts t !! a = Some r -> at_accounts t !! b = Some s -> ac_email r = ac_email s -> a = b;
}.

Lemma auth_empty_ok : auth_ok auth_empty.
Proof.
  split; unfold owner, home; cbn; intros; repeat match goal with
    | H : exists _, _ |- _ => destruct H as (? & ? & ?)
    | H : ∅ !! _ = Some _ |- _ => by rewrite lookup_empty in H
    | H : _ ∈ ∅ |- _ => by apply not_elem_of_empty in H
    end.
Qed.

Lemma Ok_inj {E A} (a b : A) : @Ok E A a = Ok b -> a = b.
Proof. by intros [= ->]. Qed.

Lemma require_ok p e : require p e = Ok tt <-> p = true.
Proof. by destruct p. Qed.

Ltac constraints := repeat match goal with
  | H : require _ _ = Ok tt |- _ => apply require_ok in H
  | H : negb _ = true |- _ => apply negb_true_iff in H
  | H : bool_decide _ = true |- _ => apply bool_decide_eq_true in H
  | H : bool_decide _ = false |- _ => apply bool_decide_eq_false in H
  | H : context [require ?p ?e] |- _ => destruct (require p e) as [[]|] eqn:?; [|discriminate H]
  end.

Lemma owner_insert t f d a d' a' r :
  at_members f = <[(d, a) := r]> (at_members t) ->
  owner f d' a' <-> (if decide (d' = d /\ a' = a) then mr_role r = Owner else owner t d' a').
Proof.
  unfold owner. intros ->. case_decide as H.
  - destruct H as [-> ->]. rewrite lookup_insert_eq. naive_solver.
  - rewrite lookup_insert_ne; [done|]. naive_solver.
Qed.

Lemma home_insert t f a r d' a' :
  at_accounts f = <[a := r]> (at_accounts t) ->
  home f d' a' <-> (if decide (a' = a) then ac_primary_doc r = d' else home t d' a').
Proof.
  unfold home. intros ->. case_decide as H; [subst; rewrite lookup_insert_eq|rewrite lookup_insert_ne by done]; naive_solver.
Qed.

Ltac rows := repeat match goal with
  | H : owner _ _ _ |- _ => destruct H as (? & ? & ?)
  | H : home _ _ _ |- _ => destruct H as (? & ? & ?)
  | H : _ /\ _ |- _ => destruct H
  | H : <[_ := _]> _ !! _ = Some _ |- _ => apply lookup_insert_Some in H as [[? ?]|[? ?]]; simplify_eq/=
  end.

Lemma insert_account_some {A} (m : gmap Uuid A) a r b : is_Some (m !! b) -> is_Some (<[a := r]> m !! b).
Proof. intros [x Hx]. apply lookup_insert_is_Some. destruct (decide (a = b)); [by left|right; split; [done|by eexists]]. Qed.
#[local] Hint Resolve insert_account_some : core.

(** Before a document is registered nothing refers to it. *)
Lemma unknown_doc t d : auth_ok t -> d ∉ at_docs t ->
  (forall a, at_members t !! (d, a) = None) /\ (forall a, ~ home t d a)
  /\ (forall i v, at_invites t !! i = Some v -> iv_doc v <> d).
Proof.
  intros Hok Hd. split_and!.
  - intros a. destruct (at_members t !! (d, a)) eqn:E; [|done]. by apply (ao_member _ Hok) in E as [? _].
  - intros a Hh. apply (ao_home _ Hok) in Hh as (r & Hr & _). by apply (ao_member _ Hok) in Hr as [? _].
  - intros i v Hv <-. by apply (ao_invite _ Hok) in Hv as [? _].
Qed.

(** A new document and its owner, who may be a new account with this home. *)
Lemma new_doc_ok t t' doc account m :
  auth_ok t -> doc ∉ at_docs t ->
  at_docs t' = {[doc]} ∪ at_docs t -> at_members t' = <[(doc, account) := m]> (at_members t) ->
  mr_role m = Owner -> active m ->
  at_invites t' = at_invites t -> at_recovery t' = at_recovery t ->
  (at_accounts t' = at_accounts t /\ is_Some (at_accounts t !! account)
   \/ exists r, at_accounts t' = <[account := r]> (at_accounts t) /\ at_accounts t !! account = None
        /\ ac_primary_doc r = doc /\ map_Forall (fun _ a => ac_email a <> ac_email r) (at_accounts t)) ->
  map_Forall (fun _ r => is_Some (at_accounts t' !! dv_account r)) (at_devices t') ->
  auth_ok t'.
Proof.
  intros Hok Hd Edocs Emem Hrole Hact Einv Erec Eacc Hdev. destruct (unknown_doc t doc Hok Hd) as (Hm & Hh & Hi).
  assert (Hacc : forall a, is_Some (at_accounts t !! a) -> is_Some (at_accounts t' !! a)).
  { destruct Eacc as [[-> _]|(r & -> & _)]; auto. }
  assert (Haccount : is_Some (at_accounts t' !! account)).
  { destruct Eacc as [[-> ?]|(r & -> & _)]; [done|]. rewrite lookup_insert_eq. by eexists. }
  assert (Hown : forall d a, owner t' d a <-> (d = doc /\ a = account) \/ (d <> doc /\ owner t d a)).
  { intros d a. rewrite (owner_insert t t' doc account d a m Emem). case_decide; [naive_solver|].
    destruct (decide (d = doc)) as [->|]; [|naive_solver]. split; [|naive_solver]. intros (r & Hr & _). by rewrite Hm in Hr. }
  assert (Hhome : forall d a, home t' d a -> (d = doc /\ a = account) \/ (d <> doc /\ home t d a)).
  { intros d a. destruct Eacc as [[E _]|(r & E & Hn & Hp & _)].
    - unfold home. rewrite E. intros Hx. right. split; [|done]. intros ->. by apply (Hh a).
    - rewrite (home_insert t t' account r d a E). case_decide; [naive_solver|]. intros Hx. right. split; [|done].
      intros ->. by apply (Hh a). }
  split.
  - intros d a r. rewrite Emem, Edocs. intros [[[= <- <-] <-]|[_ Hr]]%lookup_insert_Some; [set_solver|].
    apply (ao_member _ Hok) in Hr as [? ?]. split; [set_solver|auto].
  - intros d a r. rewrite Emem. intros [[_ <-]|[_ Hr]]%lookup_insert_Some; [done|]. by eapply (ao_active _ Hok).
  - intros d a b Ha%Hown Hb%Hown. destruct Ha as [[-> ->]|[? Ha]], Hb as [[? ?]|[? Hb]]; try done. by eapply (ao_one_owner _ Hok).
  - intros d. rewrite Edocs. intros [->%elem_of_singleton|Hdd]%elem_of_union; [exists account; apply Hown; by left|].
    destruct (ao_owned _ Hok _ Hdd) as [a Ha]. exists a. apply Hown. right. split; [|done]. by intros ->.
  - intros d a Ha%Hhome. apply Hown. destruct Ha as [?|[? Ha]]; [by left|right; split; [done|by apply (ao_home _ Hok)]].
  - intros d a b r Ha%Hhome. rewrite Emem. intros [[[= <- <-] _]|[Hne Hr]]%lookup_insert_Some.
    + destruct Ha as [[_ ?]|[? _]]; congruence.
    + destruct Ha as [[-> ->]|[? Ha]]; [by rewrite Hm in Hr|by eapply (ao_alone _ Hok)].
  - intros i v. rewrite Einv, Edocs. intros Hv. pose proof (Hi _ _ Hv). apply (ao_invite _ Hok) in Hv as (? & ? & Hv).
    split_and!; [set_solver|auto|]. intros a [[? _]|[_ Ha]]%Hhome; [done|by apply (Hv a)].
  - apply Hdev.
  - intros h r. rewrite Erec. intros Hr%(ao_recovery _ Hok). auto.
  - intros a b r s. destruct Eacc as [[-> _]|(r0 & -> & Hn & _ & He)]; [apply (ao_email _ Hok)|].
    intros [[-> <-]|[Ha Hr]]%lookup_insert_Some [[-> <-]|[Hb Hs]]%lookup_insert_Some E; try done.
    + by apply He in Hs.
    + by apply He in Hr.
    + by eapply (ao_email _ Hok).
Qed.

Lemma create_account_ok account device primary now new t t' :
  auth_ok t -> create_account_rows account device primary now new t = Ok t' -> auth_ok t'.
Proof.
  intros Hok. unfold create_account_rows, insert_doc, insert_account, insert_member, insert_device.
  cbn [with_docs with_accounts with_members with_devices at_docs at_accounts at_members at_devices ac_email ac_primary_doc dv_account].
  intros H. constraints. apply Ok_inj in H; subst t'. cbn in *. rows.
  eapply (new_doc_ok t _ primary account); try done; cbn.
  - right. eexists. by split_and!.
  - apply map_Forall_insert_2; [done|]. intros d r Hr%(ao_device _ Hok). auto.
Qed.

Lemma create_doc_ok account doc now dek nonce t r t' :
  auth_ok t -> create_doc account doc now dek nonce t = Ok (r, t') -> auth_ok t'.
Proof.
  intros Hok. unfold create_doc, insert_doc, insert_member. cbn [with_docs with_members at_docs at_accounts at_members].
  intros K. constraints. apply Ok_inj in K. injection K as _ <-. cbn in *. rows.
  eapply (new_doc_ok t _ doc account); try done; cbn; [by left|]. intros d x Hx. by apply (ao_device _ Hok) in Hx.
Qed.

(** One membership rewritten: a member's by a member's, an owner's by an
    active owner's. *)
Lemma member_update_ok t t' d a m :
  auth_ok t ->
  at_docs t' = at_docs t -> at_accounts t' = at_accounts t -> at_members t' = <[(d, a) := m]> (at_members t) ->
  at_devices t' = at_devices t -> at_recovery t' = at_recovery t ->
  d ∈ at_docs t -> is_Some (at_accounts t !! a) ->
  (mr_role m = Owner -> active m) -> (mr_role m = Owner <-> owner t d a) -> (forall b, home t d b -> b = a) ->
  (forall i v', at_invites t' !! i = Some v' -> exists i v, at_invites t !! i = Some v /\ iv_doc v = iv_doc v'
     /\ iv_issued_by v = iv_issued_by v') ->
  auth_ok t'.
Proof.
  intros Hok Edocs Eacc Emem Edev Erec Hd Ha Hact Hrole Halone Hinv.
  assert (Hown : forall d' a', owner t' d' a' <-> owner t d' a').
  { intros d' a'. rewrite (owner_insert t t' d a d' a' m Emem). case_decide as Hk; [|done]. destruct Hk as [-> ->]. done. }
  assert (Hhome : forall d' a', home t' d' a' <-> home t d' a') by (intros; unfold home; by rewrite Eacc).
  split.
  - intros d' a' r. rewrite Emem, Edocs, Eacc. intros [[[= <- <-] _]|[_ Hr]]%lookup_insert_Some; [done|by eapply (ao_member _ Hok)].
  - intros d' a' r. rewrite Emem. intros [[_ <-]|[_ Hr]]%lookup_insert_Some; [done|by eapply (ao_active _ Hok)].
  - intros d' x y. rewrite !Hown. apply (ao_one_owner _ Hok).
  - intros d'. rewrite Edocs. intros (x & Hx)%(ao_owned _ Hok). exists x. by apply Hown.
  - intros d' x. rewrite Hhome, Hown. apply (ao_home _ Hok).
  - intros d' x y r. rewrite Hhome, Emem. intros Hx [[[= <- <-] _]|[_ Hr]]%lookup_insert_Some; [by apply Halone|by eapply (ao_alone _ Hok)].
  - intros i v' (j & v & Hv & E1 & E2)%Hinv. rewrite <- E1, <- E2, Edocs, Eacc. setoid_rewrite Hhome. by eapply (ao_invite _ Hok).
  - rewrite Edev, Eacc. apply (ao_device _ Hok).
  - rewrite Erec, Eacc. apply (ao_recovery _ Hok).
  - rewrite Eacc. apply (ao_email _ Hok).
Qed.

Lemma accept_invite_ok account id now dek nonce t r t' :
  auth_ok t -> accept_invite account id now dek nonce t = Ok (r, t') -> auth_ok t'.
Proof.
  intros Hok. unfold accept_invite. destruct (at_invites t !! id) as [v|] eqn:Ev; [|by intros [= <- <-]].
  pose proof (ao_invite _ Hok _ _ Ev) as (Hd & _ & Hh).
  case_bool_decide; [by intros [= <- <-]|]. destruct (_ <? _)%Z; [by intros [= <- <-]|].
  assert (Hinv : forall c i v', <[id := mkInvite (iv_doc v) (iv_issued_by v) (iv_wrapped_dek v) (iv_wrapped_dek_nonce v)
      (iv_created_at v) (iv_expires_at v) (Some now) c]> (at_invites t) !! i = Some v' ->
    exists i v, at_invites t !! i = Some v /\ iv_doc v = iv_doc v' /\ iv_issued_by v = iv_issued_by v').
  { intros c i v' [[<- <-]|[_ Hv']]%lookup_insert_Some; [by exists id, v|by exists i, v']. }
  assert (Hno : forall b, home t (iv_doc v) b -> b = account) by (intros b Hb; by apply Hh in Hb).
  destruct (at_members t !! (iv_doc v, account)) as [m|] eqn:Em.
  - case_decide as Ha; [by intros [= <- <-]|]. intros K. constraints. apply Ok_inj in K. injection K as _ <-. cbn in *.
    eapply member_update_ok; try done; cbn; eauto. split; [done|]. intros (r' & Hr' & Ho).
    rewrite Hr' in Em. injection Em as ->. by apply (ao_active _ Hok) in Hr'.
  - unfold insert_member. intros K. constraints. apply Ok_inj in K. injection K as _ <-. cbn in *. rows.
    eapply member_update_ok; try done; cbn; eauto. split; [done|]. intros (r' & Hr' & _). congruence.
Qed.

(** The owner is no target, so the last-owner guard never fires. *)
Lemma remove_member_ok caller doc target now t :
  auth_ok t -> auth_ok (remove_member caller doc target now t).2 /\ (remove_member caller doc target now t).1 <> LastOwner.
Proof.
  intros Hok. unfold remove_member, active_role.
  destruct (at_members t !! (doc, caller)) as [c|] eqn:Ec; [|done]. case_decide as Hc; [|done].
  destruct (mr_role c) eqn:Erole; [|done]. case_decide as Hne; [done|].
  destruct (at_members t !! (doc, target)) as [m|] eqn:Em; [|done]. case_decide as Hm; [|done].
  assert (Hnot : mr_role m <> Owner).
  { intros Ho. apply Hne. eapply (ao_one_owner _ Hok); [exists c|exists m]; done. }
  rewrite bool_decide_false by done. cbn [andb]. split; [|done]. cbn [snd].
  destruct (ao_member _ Hok _ _ _ Em) as [Hd Ht].
  eapply member_update_ok; try done; cbn.
  - split; [done|]. intros (r & Hr & Ho). congruence.
  - intros b Hb. by eapply (ao_alone _ Hok).
  - intros i v Hv. by exists i, v.
Qed.

Lemma is_active_owner_spec t d a : auth_ok t -> is_active_owner d a t = true <-> owner t d a.
Proof.
  intros Hok. unfold is_active_owner, owner. split.
  - destruct (at_members t !! (d, a)) as [r|]; [|done]. intros [? _]%bool_decide_eq_true. by exists r.
  - intros (r & Hr & Ho). rewrite Hr. apply bool_decide_eq_true. split; [done|]. by eapply (ao_active _ Hok).
Qed.

(** An owner's other documents are nobody's home. *)
Lemma owned_not_home t d a p : auth_ok t -> owner t d a -> home t p a -> d <> p -> forall b, ~ home t d b.
Proof.
  intros Hok Ho (r & Hr & Hp) Hne b Hb. assert (b = a) as -> by (eapply (ao_one_owner _ Hok); [by apply (ao_home _ Hok)|done]).
  destruct Hb as (r' & Hr' & Hp'). congruence.
Qed.

(** Rows that change neither documents, accounts nor memberships. *)
Lemma side_tables_ok t t' :
  auth_ok t -> at_docs t' = at_docs t -> at_accounts t' = at_accounts t -> at_members t' = at_members t ->
  (forall i v', at_invites t' !! i = Some v' -> (exists i, at_invites t !! i = Some v') \/
     (iv_doc v' ∈ at_docs t /\ is_Some (at_accounts t !! iv_issued_by v') /\ forall a, ~ home t (iv_doc v') a)) ->
  (forall d r, at_devices t' !! d = Some r -> is_Some (at_accounts t !! dv_account r)) ->
  (forall h r, at_recovery t' !! h = Some r -> is_Some (at_accounts t !! rc_account r)) ->
  auth_ok t'.
Proof.
  intros Hok Edocs Eacc Emem Hinv Hdev Hrec.
  split; intros *; unfold owner, home; rewrite ?Edocs, ?Eacc, ?Emem; try apply Hok; try (by eauto).
  intros [(j & Hv)|Hv]%Hinv; [by apply (ao_invite _ Hok) in Hv|done].
Qed.

Lemma create_invite_ok account doc now new t r t' :
  auth_ok t -> (owner t doc account -> forall a, ~ home t doc a) ->
  create_invite account doc now new t = Ok (r, t') -> auth_ok t'.
Proof.
  intros Hok Hh. unfold create_invite. destruct (is_active_owner doc account t) eqn:Eo; cbn; [|by intros [= <- <-]].
  apply (is_active_owner_spec t) in Eo; [|done]. specialize (Hh Eo). case_bool_decide; [by intros [= <- <-]|].
  unfold insert_invite. cbn. intros K. constraints. apply Ok_inj in K. injection K as _ <-. rows.
  apply (side_tables_ok t); try done; cbn; try apply Hok.
  intros j v' [[_ <-]|[_ Hv]]%lookup_insert_Some; [right|left; by exists j]. cbn. by split_and!.
Qed.

Lemma revoke_invite_ok account doc id t : auth_ok t -> auth_ok (revoke_invite account doc id t).2.
Proof.
  intros Hok. unfold revoke_invite. destruct (negb _); [done|]. destruct (at_invites t !! id); [|done].
  case_decide; [|done]. apply (side_tables_ok t); try done; cbn; try apply Hok.
  intros j v' [_ Hv]%lookup_delete_Some. left. by exists j.
Qed.

Lemma create_device_ok account device name kind hash now t t' :
  auth_ok t -> create_device account device name kind hash now t = Ok t' -> auth_ok t'.
Proof.
  intros Hok. unfold create_device, insert_device. intros K. constraints. apply Ok_inj in K. subst t'.
  apply (side_tables_ok t); try done; cbn; try apply Hok; [by eauto|].
  intros d r [[_ <-]|[_ Hr]]%lookup_insert_Some; [done|by eapply (ao_device _ Hok)].
Qed.

Lemma device_update_ok device r r' t :
  auth_ok t -> at_devices t !! device = Some r -> dv_account r' = dv_account r ->
  auth_ok (with_devices <[device := r']> t).
Proof.
  intros Hok Hr E. apply (side_tables_ok t); try done; cbn; try apply Hok; [by eauto|].
  intros d x [[_ <-]|[_ Hx]]%lookup_insert_Some; [rewrite E; by eapply (ao_device _ Hok)|by eapply (ao_device _ Hok)].
Qed.

Lemma rename_device_ok account device name t : auth_ok t -> auth_ok (rename_device account device name t).2.
Proof.
  intros Hok. unfold rename_device, owned_device. destruct (at_devices t !! device) eqn:E; [|done].
  case_decide; [|done]. by eapply device_update_ok.
Qed.

Lemma touch_device_ok device ip now t : auth_ok t -> auth_ok (touch_device_last_seen device ip now t).
Proof.
  intros Hok. unfold touch_device_last_seen. destruct (at_devices t !! device) eqn:E; [|done]. by eapply device_update_ok.
Qed.

Lemma recovery_ok hash r t : auth_ok t -> is_Some (at_accounts t !! rc_account r) -> auth_ok (with_recovery <[hash := r]> t).
Proof.
  intros Hok Hr. apply (side_tables_ok t); try done; cbn; try apply Hok; [by eauto|].
  intros h x [[_ <-]|[_ Hx]]%lookup_insert_Some; [done|by eapply (ao_recovery _ Hok)].
Qed.

Lemma create_recovery_ok account hash now ttl t t' :
  auth_ok t -> create_recovery_session account hash now ttl t = Ok t' -> auth_ok t'.
Proof.
  intros Hok. unfold create_recovery_session, insert_recovery. intros K. constraints. apply Ok_inj in K. subst t'.
  by apply recovery_ok.
Qed.

(** ** Passwords *)

Definition with_password (u : PasswordUpdate) (a : AccountRow) : AccountRow :=
  mkAccount (ac_email a) (pu_hash u) (pu_salt u) (pu_kdf u) (ac_primary_doc a) (ac_recovery_salt a) (ac_recovery_auth_hash a).
Definition with_wrap (dek nonce : octets) (r : MemberRow) : MemberRow :=
  mkMember (mr_role r) dek nonce (mr_recovery_wrapped_dek r) (mr_recovery_wrapped_dek_nonce r) (mr_added_at r) (mr_removed_at r).

(** The check on the re-wrapped keys: exactly one, the home document's. *)
Lemma doc_keys_check (ks : list DocKeyUpdate) primary :
  {[primary]} <> (list_to_set (dk_doc <$> ks) : gset Uuid) \/ size (list_to_set (dk_doc <$> ks) : gset Uuid) <> length ks
  <-> forall dek nonce, ks <> [mkDocKey primary dek nonce].
Proof.
  split.
  - intros H dek nonce ->. cbn in H. rewrite union_empty_r_L, size_singleton in H. naive_solver.
  - intros H. destruct (decide ({[primary]} = (list_to_set (dk_doc <$> ks) : gset Uuid))) as [E|]; [|by left].
    right. intros Hs. rewrite <- E, size_singleton in Hs.
    destruct ks as [|[d dek nonce] [|]]; try done. cbn in E. rewrite union_empty_r_L in E.
    assert (primary = d) as <- by set_solver. by apply (H dek nonce).
Qed.

(** The new password's effect: the account's credentials, and the wrap of its
    home key in its one membership there. *)
Definition password_set (account : Uuid) (a : AccountRow) (u : PasswordUpdate) (dek nonce : octets) (m : MemberRow)
    (t : AuthTables) : AuthTables :=
  with_members <[(ac_primary_doc a, account) := with_wrap dek nonce m]> (with_accounts <[account := with_password u a]> t).

Lemma apply_password_update_spec account a u t :
  auth_ok t -> at_accounts t !! account = Some a ->
  (exists dek nonce m, pu_doc_keys u = [mkDocKey (ac_primary_doc a) dek nonce]
     /\ at_members t !! (ac_primary_doc a, account) = Some m /\ mr_role m = Owner /\ active m
     /\ apply_password_update account u t = Ok (PasswordUpdated, password_set account a u dek nonce m t))
  \/ ((forall dek nonce, pu_doc_keys u <> [mkDocKey (ac_primary_doc a) dek nonce])
     /\ apply_password_update account u t = Ok (DocKeysMismatch [ac_primary_doc a] (dk_doc <$> pu_doc_keys u), t)).
Proof.
  intros Hok Ha. unfold apply_password_update. rewrite Ha.
  destruct (decide ({[ac_primary_doc a]} <> (list_to_set (dk_doc <$> pu_doc_keys u) : gset Uuid) \/ _)) as [Hk|Hk].
  - right. split; [|done]. by apply doc_keys_check.
  - left. rewrite doc_keys_check in Hk. destruct (pu_doc_keys u) as [|[d dek nonce] [|]] eqn:Eu;
      [exfalso; by apply Hk| |exfalso; by apply Hk].
    destruct (decide (d = ac_primary_doc a)) as [->|Hne]; [|exfalso; apply Hk; intros ? ? [=]; congruence].
    destruct (ao_home _ Hok (ac_primary_doc a) account) as (m & Hm & Ho); [by exists a|].
    assert (Hact := ao_active _ Hok _ _ _ Hm Ho).
    exists dek, nonce, m. split_and!; try done. cbn [rewrap_all rewrap dk_doc]. unfold rewrap. cbn [dk_doc at_members with_accounts].
    rewrite Hm. by rewrite decide_True.
Qed.

Lemma password_set_ok account a u dek nonce m t :
  auth_ok t -> at_accounts t !! account = Some a -> at_members t !! (ac_primary_doc a, account) = Some m ->
  auth_ok (password_set account a u dek nonce m t).
Proof.
  intros Hok Ha Hm. set (t1 := with_accounts <[account := with_password u a]> t).
  assert (Hhome : forall d b, home t1 d b <-> home t d b).
  { intros d b. rewrite (home_insert t t1 account (with_password u a) d b eq_refl). case_decide as Hb; [|done]. subst.
    unfold home. rewrite Ha. naive_solver. }
  assert (Hsome : forall b, is_Some (at_accounts t !! b) -> is_Some (at_accounts t1 !! b)) by (intros; cbn; auto).
  assert (Hok1 : auth_ok t1).
  { split; cbn [at_docs at_members at_invites at_devices at_recovery t1 with_accounts]; intros *.
    - intros [? ?]%(ao_member _ Hok). split; [done|]. by apply Hsome.
    - apply (ao_active _ Hok).
    - apply (ao_one_owner _ Hok).
    - apply (ao_owned _ Hok).
    - rewrite Hhome. apply (ao_home _ Hok).
    - rewrite Hhome. apply (ao_alone _ Hok).
    - intros (? & ? & Hv)%(ao_invite _ Hok). split_and!; [done|by apply Hsome|]. intros b. by rewrite Hhome.
    - intros ?%(ao_device _ Hok). by apply Hsome.
    - intros ?%(ao_recovery _ Hok). by apply Hsome.
    - cbn. intros [[-> <-]|[? Hr]]%lookup_insert_Some [[-> <-]|[? Hs]]%lookup_insert_Some E; cbn in E; try done.
      + by eapply (ao_email _ Hok).
      + by eapply (ao_email _ Hok).
      + by eapply (ao_email _ Hok). }
  destruct (ao_member _ Hok _ _ _ Hm) as [Hd Hacc].
  eapply (member_update_ok t1 _ (ac_primary_doc a) account); try done; cbn.
  - by apply Hsome.
  - intros Ho. exact (ao_active _ Hok _ _ _ Hm Ho).
  - split; [by intros ?; exists m|]. intros (r & Hr & Ho). cbn in Hr. congruence.
  - intros b Hb. eapply (ao_alone _ Hok1); [exact Hb|exact Hm].
  - intros i v Hv. by exists i, v.
Qed.


(** ** Joining by a link *)

(** C17: A link admits one account. Accepting never fails on a known account; an
    unknown, used or expired link, and one its holder needs no more, change
    nothing and leave it as it was; otherwise the account becomes an active
    member with the wrap it posted, no other membership, document, account or
    link changes, and the link, so used, admits nobody. *)
Theorem accept_invite_once account id now dek nonce t :
  auth_ok t -> is_Some (at_accounts t !! account) ->
  exists out t', accept_invite account id now dek nonce t = Ok (out, t') /\ auth_ok t' /\
  match out with
  | Joined doc => exists v, at_invites t !! id = Some v /\ iv_doc v = doc /\ iv_consumed_at v = None /\ (now <= iv_expires_at v)%Z
      /\ member_of doc account t = false
      /\ at_members t' = <[(doc, account) := mkMember Member dek nonce None None now None]> (at_members t)
      /\ at_docs t' = at_docs t /\ at_accounts t' = at_accounts t /\ delete id (at_invites t') = delete id (at_invites t)
      /\ forall other later dek' nonce', accept_invite other id later dek' nonce' t' = Ok (AcceptConsumed, t')
  | AlreadyMember doc => t' = t /\ member_of doc account t = true /\ iv_doc <$> at_invites t !! id = Some doc
  | AcceptNotFound => t' = t /\ at_invites t !! id = None
  | AcceptExpired => t' = t /\ exists v, at_invites t !! id = Some v /\ (iv_expires_at v < now)%Z
  | AcceptConsumed => t' = t /\ exists v, at_invites t !! id = Some v /\ is_Some (iv_consumed_at v)
  end.
Proof.
  intros Hok Ha. pose proof (accept_invite_ok account id now dek nonce t) as Hkeep. unfold accept_invite in *.
  destruct (at_invites t !! id) as [v|] eqn:Ev; [|by exists AcceptNotFound, t].
  destruct (ao_invite _ Hok _ _ Ev) as (Hd & _ & _).
  case_bool_decide as Hc; [exists AcceptConsumed, t; by split_and!; [..|exists v]|].
  destruct (iv_expires_at v <? now)%Z eqn:Ee; [apply Z.ltb_lt in Ee; exists AcceptExpired, t; by split_and!; [..|exists v]|].
  apply Z.ltb_ge in Ee. apply eq_None_not_Some in Hc.
  assert (Hlater : forall t', at_invites t' !! id = Some (mkInvite (iv_doc v) (iv_issued_by v) (iv_wrapped_dek v)
      (iv_wrapped_dek_nonce v) (iv_created_at v) (iv_expires_at v) (Some now) (Some account)) ->
    forall other later dek' nonce', accept_invite other id later dek' nonce' t' = Ok (AcceptConsumed, t')).
  { intros t' E other later dek' nonce'. unfold accept_invite. by rewrite E. }
  destruct (at_members t !! (iv_doc v, account)) as [m|] eqn:Em.
  - case_decide as Hact.
    + eexists (AlreadyMember _), t. split_and!; try done. unfold member_of, active_role. rewrite Em, decide_True by done. done.
    + rewrite bool_decide_true in * by done. cbn in *. eexists (Joined _), _. split; [reflexivity|]. split; [by eapply Hkeep|].
      exists v. split_and!; try done.
      * unfold member_of, active_role. by rewrite Em, decide_False.
      * apply delete_insert_eq.
      * intros *. apply Hlater. cbn. apply lookup_insert_eq.
  - unfold insert_member in *. rewrite Em, !bool_decide_true in * by done. cbn in *.
    eexists (Joined _), _. split; [reflexivity|]. split; [by eapply Hkeep|].
    exists v. split_and!; try done.
    + unfold member_of, active_role. by rewrite Em.
    + apply delete_insert_eq.
    + intros *. apply Hlater. cbn. apply lookup_insert_eq.
Qed.

(** ** An example *)

Definition demo_account (email : string) : NewAccount :=
  mkNewAccount email [1]%N [2]%N (mkKdf 1 1 1) [3]%N [4]%N (Some [5]%N) (Some [6]%N) (Some [7]%N) (Some [8]%N) "d" "web" [9]%N None.

(** Accounts 1 and 2 with homes 5 and 6; account 1 owns document 7, has a link
    to it, and a recovery session. *)
Definition demo_tables : AuthTables :=
  match
    (let? t := create_account_rows 1 10 5 0 (demo_account "a") auth_empty in
     let? t := create_account_rows 2 20 6 0 (demo_account "b") t in
     let? t := create_recovery_session 1 [99]%N 0 1000 t in
     let? r := create_doc 1 7 0 [11]%N [12]%N t in
     let? r := create_invite 1 7 0 (mkNewInvite [90]%N [13]%N [14]%N 1000) r.2 in
     Ok r.2)
  with Ok t => t | Err _ => auth_empty end.

Lemma demo_tables_ok : auth_ok demo_tables.
Proof.
  assert (Hhome : forall r, (let? t := create_account_rows 1 10 5 0 (demo_account "a") auth_empty in
     let? t := create_account_rows 2 20 6 0 (demo_account "b") t in
     let? t := create_recovery_session 1 [99]%N 0 1000 t in create_doc 1 7 0 [11]%N [12]%N t) = Ok r -> home r.2 5 1).
  { intros r E. vm_compute in E. injection E as <-. by eexists. }
  unfold demo_tables.
  destruct (create_account_rows 1 10 5 0 (demo_account "a") auth_empty) as [t1|] eqn:E1; [|apply auth_empty_ok].
  apply create_account_ok in E1; [|apply auth_empty_ok].
  destruct (create_account_rows 2 20 6 0 (demo_account "b") t1) as [t2|] eqn:E2; [|apply auth_empty_ok].
  apply create_account_ok in E2; [|done].
  destruct (create_recovery_session 1 [99]%N 0 1000 t2) as [t3|] eqn:E3; [|apply auth_empty_ok].
  apply create_recovery_ok in E3; [|done].
  destruct (create_doc 1 7 0 [11]%N [12]%N t3) as [[d t4]|] eqn:E4; [|apply auth_empty_ok].
  specialize (Hhome _ eq_refl). apply create_doc_ok in E4; [|done]. cbn in *.
  destruct (create_invite 1 7 0 _ t4) as [[i t5]|] eqn:E5; [|apply auth_empty_ok].
  apply create_invite_ok in E5; [done|done|]. intros Ho. by eapply owned_not_home.
Qed.

(** Account 2 joins document 7; account 1, trying the used link later, does not. *)
Lemma accept_invite_once_witness :
  exists t', accept_invite 2 [90]%N 500 [1]%N [2]%N demo_tables = Ok (Joined 7, t')
    /\ auth_ok t' /\ accept_invite 1 [90]%N 600 [1]%N [2]%N t' = Ok (AcceptConsumed, t').
Proof.
  destruct (accept_invite_once 2 [90]%N 500 [1]%N [2]%N demo_tables demo_tables_ok) as (out & t' & E & Hok & Hout).
  { vm_compute. by eexists. }
  exists t'. assert (out = Joined 7) as -> by (vm_compute in E; by injection E). split_and!; [done|done|].
  destruct Hout as (v & _ & _ & _ & _ & _ & _ & _ & _ & _ & Hl). apply Hl.
Defined.

