(* ===== verification/AccountFacts.v ===== *)
(** Deletion: what remains of a document, an account or a device in the
    tables once it is deleted, and that the tables stay well formed. *)
From S2P Require Import Prelude.
From S2P Require Import Wire.
From S2P Require Import Tables.
From S2P Require Import AuthDb.
From S2P Require Import ServerDb.
From S2P Require Import AuthFacts.

Definition dropped {K V} `{Countable K} (gone : K -> Prop) `{!forall k, base.Decision (gone k)} (m m' : gmap K V) : Prop :=
  forall k, m' !! k = if decide (gone k) then None else m !! k.

(** The tables without the rows under some documents. *)
Record purged (docs : list Uuid) (db db' : Db) : Prop := {
  pg_updates : dropped (fun k => k.1 ∈ docs) (db_updates db) (db_updates db');
  pg_sequences : dropped (fun d => d ∈ docs) (db_sequences db) (db_sequences db');
  pg_snapshots : db_snapshots db' = base.filter (fun r => sn_doc r ∉ docs) (db_snapshots db);
  pg_frontiers : dropped (fun k => k.2 ∈ docs) (db_frontiers db) (db_frontiers db');
  pg_members : dropped (fun k => k.1 ∈ docs) (at_members (db_auth db)) (at_members (db_auth db'));
  pg_invites i v : at_invites (db_auth db') !! i = Some v <-> at_invites (db_auth db) !! i = Some v /\ iv_doc v ∉ docs;
  pg_last_id : db_last_id db' = db_last_id db;
  pg_docs : at_docs (db_auth db') = at_docs (db_auth db);
  pg_accounts : at_accounts (db_auth db') = at_accounts (db_auth db);
  pg_devices : at_devices (db_auth db') = at_devices (db_auth db);
  pg_recovery : at_recovery (db_auth db') = at_recovery (db_auth db);
}.

Lemma dropped_filter {K V} `{Countable K} (gone : K -> Prop) `{!forall k, base.Decision (gone k)}
    (P : K * V -> Prop) `{!forall kv, base.Decision (P kv)} (m : gmap K V) :
  (forall k x, P (k, x) <-> ~ gone k) -> dropped gone m (base.filter P m).
Proof.
  intros HP k. apply option_eq. intros x. rewrite map_lookup_filter_Some, HP. case_decide; naive_solver.
Qed.

Lemma dropped_trans {K V} `{Countable K} (g1 g2 g3 : K -> Prop) `{!forall k, base.Decision (g1 k)}
    `{!forall k, base.Decision (g2 k)} `{!forall k, base.Decision (g3 k)} (m1 m2 m3 : gmap K V) :
  (forall k, g3 k <-> g1 k \/ g2 k) -> dropped g1 m1 m2 -> dropped g2 m2 m3 -> dropped g3 m1 m3.
Proof.
  intros Hg K1 K2 k. rewrite K2, K1. specialize (Hg k). repeat case_decide; naive_solver.
Qed.

Lemma purge_one doc db : purged [doc] db (purge_rows_under_doc doc db).
Proof.
  assert (Hin : forall d : Uuid, d ∈ [doc] <-> d = doc) by (intros; by rewrite list_elem_of_singleton).
  split; cbn; try done; try (apply dropped_filter; intros; cbn; by rewrite Hin).
  - intros d. destruct (decide (d = doc)) as [->|Hd].
    + rewrite lookup_delete_eq, decide_True; [done|by apply Hin].
    + rewrite lookup_delete_ne, decide_False; [done|by rewrite Hin|done].
  - apply list_filter_iff. intros r. by rewrite Hin.
  - intros i v. rewrite map_lookup_filter_Some. cbn. by rewrite Hin.
Qed.

Lemma purge_trans ds1 ds2 db1 db2 db3 : purged ds1 db1 db2 -> purged ds2 db2 db3 -> purged (ds1 ++ ds2) db1 db3.
Proof.
  intros [] []. split; try congruence; try (eapply dropped_trans; [|done|done]; intros; by rewrite elem_of_app).
  - rewrite pg_snapshots1, pg_snapshots0, list_filter_filter. apply list_filter_iff. intros r. rewrite elem_of_app. tauto.
  - intros i v. rewrite pg_invites1, pg_invites0, elem_of_app. tauto.
Qed.

Lemma purge_all docs : forall db, purged docs db (foldl (fun db doc => purge_rows_under_doc doc db) db docs).
Proof.
  induction docs as [|d docs IH]; intros db.
  - split; cbn; try done; try (intros k; rewrite decide_False; [done|set_solver]).
    + symmetry. clear. induction (db_snapshots db) as [|r l IH]; [done|]. rewrite filter_cons, decide_True by set_solver.
      by f_equal.
    + intros i v. set_solver.
  - cbn. apply (purge_trans [d] docs _ (purge_rows_under_doc d db)); [apply purge_one|apply IH].
Qed.

(** ** The rows that stay are well formed *)

(** Documents and accounts go, with everything that refers to them. *)
Record removed (docs : gset Uuid) (accounts : gset Uuid) (t t' : AuthTables) : Prop := {
  rm_docs : at_docs t' = at_docs t ∖ docs;
  rm_accounts : dropped (fun a => a ∈ accounts) (at_accounts t) (at_accounts t');
  rm_members : dropped (fun k => (k.1 ∈ docs) \/ (k.2 ∈ accounts)) (at_members t) (at_members t');
  rm_invites i v' : at_invites t' !! i = Some v' -> exists v, at_invites t !! i = Some v /\ iv_doc v' = iv_doc v
    /\ iv_issued_by v' = iv_issued_by v /\ (iv_doc v ∉ docs) /\ (iv_issued_by v ∉ accounts);
  rm_devices d r : at_devices t' !! d = Some r -> at_devices t !! d = Some r /\ dv_account r ∉ accounts;
  rm_recovery h r : at_recovery t' !! h = Some r -> at_recovery t !! h = Some r /\ rc_account r ∉ accounts;
}.

Lemma dropped_some {K V} `{Countable K} (gone : K -> Prop) `{!forall k, base.Decision (gone k)} (m m' : gmap K V) k x :
  dropped gone m m' -> m' !! k = Some x <-> m !! k = Some x /\ ~ gone k.
Proof. intros H'. rewrite H'. case_decide; naive_solver. Qed.

(** Owned documents go with their owners, homes with their accounts only. *)
Lemma removed_ok docs accounts t t' :
  auth_ok t -> removed docs accounts t t' ->
  (forall d a, owner t d a -> a ∈ accounts -> d ∈ docs) -> (forall d a, home t d a -> d ∈ docs -> a ∈ accounts) ->
  auth_ok t'.
Proof.
  intros Hok [R1 R2 R3 R4 R5 R6] Hown Hhome.
  assert (Ho : forall d a, owner t' d a <-> owner t d a /\ (d ∉ docs) /\ (a ∉ accounts)).
  { intros d a. unfold owner. setoid_rewrite (dropped_some _ _ _ _ _ R3). cbn. naive_solver. }
  assert (Hh : forall d a, home t' d a <-> home t d a /\ a ∉ accounts).
  { intros d a. unfold home. setoid_rewrite (dropped_some _ _ _ _ _ R2). naive_solver. }
  assert (Hacc : forall a, is_Some (at_accounts t !! a) -> a ∉ accounts -> is_Some (at_accounts t' !! a)).
  { intros a [r Hr] Ha. exists r. apply (dropped_some _ _ _ _ _ R2). done. }
  split.
  - intros d a r [Hr Hn]%(dropped_some _ _ _ _ _ R3). cbn in Hn. apply (ao_member _ Hok) in Hr as [? ?].
    split; [rewrite R1; set_solver|]. apply Hacc; [done|]. tauto.
  - intros d a r [Hr _]%(dropped_some _ _ _ _ _ R3). by eapply (ao_active _ Hok).
  - intros d a b (Ha & _)%Ho (Hb & _)%Ho. by eapply (ao_one_owner _ Hok).
  - intros d. rewrite R1. intros [Hd Hn]%elem_of_difference. destruct (ao_owned _ Hok _ Hd) as [a Ha]. exists a.
    apply Ho. split_and!; [done|done|]. intros Hin. by apply Hn, (Hown d a).
  - intros d a [Ha Hn]%Hh. apply Ho. split_and!; [by apply (ao_home _ Hok)|naive_solver|done].
  - intros d a b r [Ha _]%Hh [Hr _]%(dropped_some _ _ _ _ _ R3). by eapply (ao_alone _ Hok).
  - intros i v' (v & Hv & -> & -> & Hd & Hi)%R4. apply (ao_invite _ Hok) in Hv as (Hv1 & Hv2 & Hv3).
    split_and!; [rewrite R1; set_solver|by apply Hacc|]. intros a [Ha _]%Hh. by apply (Hv3 a).
  - intros d r [Hr Ha]%R5. apply Hacc; [by eapply (ao_device _ Hok)|done].
  - intros h r [Hr Ha]%R6. apply Hacc; [by eapply (ao_recovery _ Hok)|done].
  - intros a b r s [Hr _]%(dropped_some _ _ _ _ _ R2) [Hs _]%(dropped_some _ _ _ _ _ R2). by apply (ao_email _ Hok).
Qed.

(** ** Deleting a document *)

(** Nothing of a document in any table. *)
Record forgotten (doc : Uuid) (db : Db) : Prop := {
  fg_docs : doc ∉ at_docs (db_auth db);
  fg_members a : at_members (db_auth db) !! (doc, a) = None;
  fg_invites i v : at_invites (db_auth db) !! i = Some v -> iv_doc v <> doc;
  fg_updates s : db_updates db !! (doc, s) = None;
  fg_sequence : db_sequences db !! doc = None;
  fg_snapshots : doc_snapshots db doc = [];
  fg_frontiers d : db_frontiers db !! (d, doc) = None;
}.

(** The stream of a document, as it was. *)
Definition same_stream (doc : Uuid) (db db' : Db) : Prop :=
  (forall s, db_updates db' !! (doc, s) = db_updates db !! (doc, s))
  /\ db_sequences db' !! doc = db_sequences db !! doc /\ doc_snapshots db' doc = doc_snapshots db doc.

Lemma filter_none {A} (P : A -> Prop) `{!forall x, base.Decision (P x)} l : (forall x, ~ P x) -> base.filter P l = [].
Proof. intros HP. induction l as [|x l IH]; [done|]. by rewrite filter_cons, decide_False. Qed.

Lemma doc_snapshots_purged docs db db' d : purged docs db db' ->
  doc_snapshots db' d = if decide (d ∈ docs) then [] else doc_snapshots db d.
Proof.
  intros []. unfold doc_snapshots. rewrite pg_snapshots0, list_filter_filter. case_decide as Hd.
  - apply filter_none. intros r [<- ?]. done.
  - apply list_filter_iff. intros r. split; [tauto|]. intros <-. done.
Qed.

Lemma purged_stream docs db db' d : purged docs db db' -> d ∉ docs -> same_stream d db db'.
Proof.
  intros Hp Hd. pose proof (doc_snapshots_purged _ _ _ d Hp) as Hs. rewrite decide_False in Hs by done. destruct Hp.
  split_and!; [intros s; rewrite pg_updates0; by rewrite decide_False|rewrite pg_sequences0; by rewrite decide_False|done].
Qed.

Lemma purged_forgotten docs db db' db'' d :
  purged docs db db' -> d ∈ docs -> db_updates db'' = db_updates db' -> db_sequences db'' = db_sequences db' ->
  db_snapshots db'' = db_snapshots db' -> (forall k, db_frontiers db' !! k = None -> db_frontiers db'' !! k = None) ->
  d ∉ at_docs (db_auth db'') -> (forall a, at_members (db_auth db') !! (d, a) = None -> at_members (db_auth db'') !! (d, a) = None) ->
  (forall i v, at_invites (db_auth db'') !! i = Some v -> exists v', at_invites (db_auth db') !! i = Some v' /\ iv_doc v = iv_doc v') ->
  forgotten d db''.
Proof.
  intros Hp Hd E1 E2 E3 Hf Hdocs Hm Hi. pose proof (doc_snapshots_purged _ _ _ d Hp) as Hs.
  rewrite decide_True in Hs by done. destruct Hp. split; try done.
  - intros a. apply Hm. rewrite pg_members0. by rewrite decide_True.
  - intros i v (v' & Hv' & ->)%Hi. apply pg_invites0 in Hv' as [_ Hv']. by intros <-.
  - intros s. rewrite E1, pg_updates0. by rewrite decide_True.
  - rewrite E2, pg_sequences0. by rewrite decide_True.
  - unfold doc_snapshots. by rewrite E3.
  - intros x. apply Hf. rewrite pg_frontiers0. by rewrite decide_True.
Qed.

Lemma delete_doc_spec account doc db :
  auth_ok (db_auth db) -> (forall a, ~ home (db_auth db) doc a) ->
  if is_active_owner doc account (db_auth db) then
    exists db', delete_doc account doc db = Ok (DocDeleted, db') /\ auth_ok (db_auth db') /\ forgotten doc db'
      /\ removed {[doc]} ∅ (db_auth db) (db_auth db') /\ forall d, d <> doc -> same_stream d db db'
  else delete_doc account doc db = Ok (DocNotOwner, db).
Proof.
  intros Hok Hhome. destruct (is_active_owner doc account (db_auth db)) eqn:Eo; unfold delete_doc; rewrite Eo; [|done].
  cbn [negb]. unfold purge_doc_rows, delete_doc_row.
  assert (Hfk : map_Forall (fun _ a => ac_primary_doc a <> doc) (at_accounts (db_auth (purge_rows_under_doc doc db)))).
  { intros a r Hr Hp. apply (Hhome a). by exists r. }
  rewrite bool_decide_true by exact Hfk. cbn [require]. set (db1 := purge_rows_under_doc doc db).
  pose proof (purge_one doc db) as Hp. fold db1 in Hp.
  assert (Hrm : removed {[doc]} ∅ (db_auth db) (db_auth (with_auth (with_docs (fun ds => ds ∖ {[doc]})) db1))).
  { split; cbn; try done.
    - intros k. rewrite (pg_members _ _ _ Hp). apply decide_ext. set_solver.
    - intros i v Hv. apply (pg_invites _ _ _ Hp) in Hv as [Hv Hd]. exists v. set_solver. }
  eexists. split; [reflexivity|]. split_and!; [| |exact Hrm|].
  - eapply removed_ok; [exact Hok|exact Hrm|set_solver|]. intros d a Ha ->%elem_of_singleton. by apply Hhome in Ha.
  - eapply (purged_forgotten [doc] db db1); try done; cbn; [by left|set_solver|]. intros i v Hv. by exists v.
  - intros d Hd. apply (purged_stream _ _ _ _ Hp). set_solver.
Qed.

(** ** Deleting an account *)

(** Nothing of an account in any table. *)
Record account_gone (account : Uuid) (db db' : Db) : Prop := {
  ag_account : at_accounts (db_auth db') !! account = None;
  ag_members d : at_members (db_auth db') !! (d, account) = None;
  ag_devices d r : at_devices (db_auth db') !! d = Some r -> dv_account r <> account;
  ag_frontiers d r doc : at_devices (db_auth db) !! d = Some r -> dv_account r = account ->
    db_frontiers db' !! (d, doc) = None;
  ag_invites i v : at_invites (db_auth db') !! i = Some v -> iv_issued_by v <> account /\ iv_consumed_by v <> Some account;
  ag_recovery h r : at_recovery (db_auth db') !! h = Some r -> rc_account r <> account;
}.

Lemma elem_of_account_docs t account d role :
  (d, role) ∈ account_docs account t <->
  exists r, at_members t !! (d, account) = Some r /\ active r /\ mr_role r = role.
Proof.
  unfold account_docs. rewrite list_elem_of_omap. split.
  - intros ([[d' a] r] & Hin & E). apply elem_of_map_to_list in Hin. cbn in E. case_decide as Ha; [|done].
    destruct Ha as [-> Ha]. injection E as -> <-. by exists r.
  - intros (r & Hr & Ha & Hrole). exists ((d, account), r). split; [by apply elem_of_map_to_list|]. cbn.
    rewrite decide_True by done. by rewrite Hrole.
Qed.

Lemma delete_doc_rows_spec docs : forall db,
  (forall d a, d ∈ docs -> ~ home (db_auth db) d a) ->
  delete_doc_rows docs db = Ok (with_auth (with_docs (fun ds => ds ∖ list_to_set docs)) db).
Proof.
  induction docs as [|d docs IH]; intros db Hh.
  - cbn. destruct db as [? ? ? ? ? []]. unfold with_auth, with_docs. cbn. do 3 f_equal. set_solver.
  - cbn [delete_doc_rows]. unfold delete_doc_row. rewrite bool_decide_true.
    2: { intros a r Hr Hp. apply (Hh d a); [by left|]. by exists r. }
    cbn [require]. rewrite IH.
    2: { intros x a Hx. apply Hh. by right. }
    destruct db as [? ? ? ? ? []]. unfold with_auth, with_docs. cbn. do 3 f_equal. set_solver.
Qed.

(** What the statements between leave. *)
Lemma drop_account_removed account docs db db1 :
  purged docs db db1 ->
  removed (list_to_set docs) {[account]} (db_auth db)
    (db_auth (with_auth (with_docs (fun ds => ds ∖ list_to_set docs)) (drop_account_rows account db1))).
Proof.
  intros Hp. unfold drop_account_rows. split; cbn.
  - by rewrite (pg_docs _ _ _ Hp).
  - intros a. rewrite (pg_accounts _ _ _ Hp). destruct (decide (a = account)) as [->|Ha].
    + rewrite lookup_delete_eq, decide_True; [done|set_solver].
    + rewrite lookup_delete_ne, decide_False; [done|set_solver|done].
  - eapply (dropped_trans (fun k => k.1 ∈ docs) (fun k : Uuid * Uuid => k.2 = account)); [set_solver|apply Hp|].
    apply dropped_filter. done.
  - intros i v' Hv. apply lookup_fmap_Some in Hv as (v & <- & Hv).
    apply map_lookup_filter_Some in Hv as [Hv Hi]. cbn in Hi. apply (pg_invites _ _ _ Hp) in Hv as [Hv Hd].
    exists v. by case_decide; cbn; split_and!; try done; set_solver.
  - intros d r [Hr Ha]%map_lookup_filter_Some. rewrite (pg_devices _ _ _ Hp) in Hr. set_solver.
  - intros h r [Hr Ha]%map_lookup_filter_Some. rewrite (pg_recovery _ _ _ Hp) in Hr. set_solver.
Qed.

Lemma drop_account_gone account docs f db db1 :
  purged docs db db1 -> account_gone account db (with_auth (with_docs f) (drop_account_rows account db1)).
Proof.
  intros Hp. unfold drop_account_rows. split; cbn.
  - apply lookup_delete_eq.
  - intros d. apply map_lookup_filter_None. right. intros r _. cbn. tauto.
  - intros d r [_ Ha]%map_lookup_filter_Some. done.
  - intros d r doc Hr Ha. apply map_lookup_filter_None. right. intros z _. cbn. rewrite (pg_devices _ _ _ Hp), Hr. cbn.
    rewrite Ha. tauto.
  - intros i v Hv. apply lookup_fmap_Some in Hv as (v' & <- & Hv). apply map_lookup_filter_Some in Hv as [_ Hi]. cbn in Hi.
    case_decide; cbn; done.
  - intros h r [_ Ha]%map_lookup_filter_Some. done.
Qed.

Lemma delete_account_spec account db :
  auth_ok (db_auth db) ->
  exists out db', delete_account account db = Ok (out, db')
    /\ auth_ok (db_auth db') /\ account_gone account db db'
    /\ (forall d, d ∈ da_purged_docs out <-> owner (db_auth db) d account)
    /\ (forall d, d ∈ da_left_docs out <-> active_role d account (db_auth db) = Some Member)
    /\ (forall d, d ∈ da_purged_docs out -> forgotten d db')
    /\ (forall d, d ∉ da_purged_docs out -> same_stream d db db'
          /\ forall b, b <> account -> at_members (db_auth db') !! (d, b) = at_members (db_auth db) !! (d, b))
    /\ (forall b, b <> account -> at_accounts (db_auth db') !! b = at_accounts (db_auth db) !! b)
    /\ (exists db1, purged (da_purged_docs out) db db1 /\ db_updates db' = db_updates db1
          /\ db_sequences db' = db_sequences db1 /\ db_snapshots db' = db_snapshots db1 /\ db_last_id db' = db_last_id db1).
Proof.
  intros Hok. unfold delete_account.
  set (docs := fst <$> base.filter _ _). set (left := fst <$> base.filter (fun kv => kv.2 <> Owner) _).
  assert (Hdocs : forall d, d ∈ docs <-> owner (db_auth db) d account).
  { intros d. unfold docs, owner. rewrite list_elem_of_fmap. split.
    - intros ([d' role] & -> & [Hr Hin]%list_elem_of_filter). cbn in *. subst role.
      apply elem_of_account_docs in Hin as (r & Hr & _ & Ho). by exists r.
    - intros (r & Hr & Ho). exists (d, Owner). split; [done|]. apply list_elem_of_filter. split; [done|].
      apply elem_of_account_docs. exists r. split_and!; [done| |done]. by eapply (ao_active _ Hok). }
  assert (Hleft : forall d, d ∈ left <-> active_role d account (db_auth db) = Some Member).
  { intros d. unfold left, active_role. rewrite list_elem_of_fmap. split.
    - intros ([d' role] & -> & [Hr Hin]%list_elem_of_filter). cbn in *.
      apply elem_of_account_docs in Hin as (r & -> & Ha & <-). rewrite decide_True by done. by destruct (mr_role r).
    - destruct (at_members (db_auth db) !! (d, account)) as [r|] eqn:Er; [|done]. case_decide as Ha; [|done].
      intros [= Hr]. exists (d, Member). split; [done|]. apply list_elem_of_filter. split; [done|].
      apply elem_of_account_docs. by exists r. }
  pose proof (purge_all docs db) as Hp. set (db1 := foldl _ db docs) in *.
  pose proof (drop_account_removed account docs db db1 Hp) as Hrm.
  assert (Hhome : forall d a, home (db_auth db) d a -> d ∈ docs -> a = account).
  { intros d a Ha Hd. eapply (ao_one_owner _ Hok); [by apply (ao_home _ Hok)|by apply Hdocs]. }
  rewrite delete_doc_rows_spec.
  2: { intros d a Hd (r & Hr & Hpr). cbn in Hr. apply lookup_delete_Some in Hr as [Hne Hr].
       rewrite (pg_accounts _ _ _ Hp) in Hr. apply Hne. symmetry. apply (Hhome d); [by exists r|done]. }
  eexists _, _. split; [reflexivity|]. cbn [da_purged_docs da_left_docs]. split_and!.
  - eapply removed_ok; [exact Hok|exact Hrm| |].
    + intros d a Ho ->%elem_of_singleton. apply elem_of_list_to_set, Hdocs, Ho.
    + intros d a Ha Hd%elem_of_list_to_set. apply elem_of_singleton. by eapply Hhome.
  - by eapply drop_account_gone.
  - exact Hdocs.
  - exact Hleft.
  - intros d Hd. eapply (purged_forgotten docs db db1); try done; cbn.
    + intros k Hk. apply map_lookup_filter_None. by left.
    + set_solver.
    + intros a Ha. apply map_lookup_filter_None. by left.
    + intros i v Hv. apply lookup_fmap_Some in Hv as (v' & <- & Hv). apply map_lookup_filter_Some in Hv as [Hv _].
      exists v'. split; [done|]. by case_decide.
  - intros d Hd. split; [exact (purged_stream _ _ _ _ Hp Hd)|]. intros b Hb.
    rewrite (rm_members _ _ _ _ Hrm (d, b)). rewrite decide_False; [done|]. cbn. rewrite elem_of_list_to_set. set_solver.
  - intros b Hb. rewrite (rm_accounts _ _ _ _ Hrm b). rewrite decide_False; [done|set_solver].
  - by exists db1.
Qed.


