(* ===== verification/StreamFacts.v ===== *)
(** The update stream: pushes get dense sequence numbers once each, however
    often they are retried; a pull sends every row past the cursor, in order,
    in batches within the caps, and ends. *)
From S2P Require Import Prelude.
From S2P Require Import Wire.
From S2P Require Import Tables.
From S2P Require Import AuthDb.
From S2P Require Import ServerDb.
From S2P Require Import Coordinator.
From S2P Require Import Sessions.
From S2P Require Import Ws.

(** ** Dense sequence numbers *)

Definition next_seq (db : Db) (doc : Uuid) : Z := default 1%Z (sq_next <$> db_sequences db !! doc).

Record stream_ok (db : Db) : Prop := {
  so_row doc seq row : db_updates db !! (doc, seq) = Some row -> (1 <= seq < next_seq db doc)%Z;
  so_push doc s1 s2 r1 r2 : db_updates db !! (doc, s1) = Some r1 -> db_updates db !! (doc, s2) = Some r2 ->
    ur_device r1 = ur_device r2 -> ur_push r1 = ur_push r2 -> s1 = s2;
  so_next doc : (1 <= next_seq db doc)%Z;
  so_dense doc seq row : db_updates db !! (doc, seq) = Some row -> (seq + 1 < next_seq db doc)%Z ->
    is_Some (db_updates db !! (doc, (seq + 1)%Z));
}.

(** Room for [n] more rows of the document below the sign bit. *)
Definition seq_room (db : Db) (doc : Uuid) (n : nat) : Prop := (next_seq db doc + Z.of_nat n <= 2 ^ 63)%Z.

Definition has_doc (db : Db) (doc : Uuid) : Prop := doc ∈ at_docs (db_auth db).

Lemma doc_fk_ok db doc : has_doc db doc -> doc_fk doc db = Ok tt.
Proof. intros Hd. unfold doc_fk. by rewrite bool_decide_true. Qed.

Lemma find_push_some db doc device push seq :
  stream_ok db ->
  find_push db doc device push = Some seq <->
  exists row, db_updates db !! (doc, seq) = Some row /\ ur_device row = device /\ ur_push row = push.
Proof.
  intros Hok. unfold find_push. split.
  - destruct (list_find _ _) as [[i [s r]]|] eqn:E; [|done]. cbn. intros [= ->].
    apply list_find_Some in E as (Hl & [Hd Hp] & _). apply list_elem_of_lookup_2, elem_of_select in Hl.
    by exists r.
  - intros (row & Hrow & Hd & Hp).
    destruct (list_find _ _) as [[i [s r]]|] eqn:E; cbn.
    + apply list_find_Some in E as (Hl & [Hd' Hp'] & _). apply list_elem_of_lookup_2, elem_of_select in Hl.
      cbn in *. f_equal. eapply (so_push _ Hok); [exact Hl|exact Hrow|congruence|congruence].
    + exfalso. apply list_find_None in E. rewrite Forall_forall in E.
      by apply (E (seq, row)); [apply elem_of_select|].
Qed.

(** What a push leaves: the rows of before, and at most one more. *)
Record pushed (db db' : Db) (doc device : Uuid) (u : PushBlob) (a : PushAck) (fresh : option StoredBlob) : Prop := {
  pu_ok : stream_ok db';
  pu_rows : db_updates db ⊆ db_updates db';
  pu_new d s row : db_updates db' !! (d, s) = Some row -> db_updates db !! (d, s) = Some row \/
    (d = doc /\ s = next_seq db doc /\ row = mkUpdateRow (read_doc_epoch db doc) device (pb_push_id u) (pb_blob u));
  pu_ack : pa_push_id a = pb_push_id u;
  pu_found : find_push db' doc device (pb_push_id u) = Some (Z.of_N (pa_seq a)) /\ (Z.of_N (pa_seq a) < 2 ^ 63)%Z;
  pu_fresh : match fresh with
    | Some b => b = mkStored (Z.to_N (next_seq db doc)) (pb_blob u) /\ next_seq db' doc = (next_seq db doc + 1)%Z
                /\ find_push db doc device (pb_push_id u) = None
    | None => db' = db
    end;
  pu_next d : d <> doc -> next_seq db' d = next_seq db d;
  pu_epoch : read_doc_epoch db' doc = read_doc_epoch db doc;
  pu_auth : db_auth db' = db_auth db;
}.

Lemma as_u64_pos z : (0 <= z < 2 ^ 63)%Z -> Z.of_N (as_u64 z) = z.
Proof. intros Hz. rewrite as_u64_small by lia. lia. Qed.

(** The row and the counter a fresh push writes. *)
Definition push_row (db : Db) (doc device : Uuid) (u : PushBlob) : UpdateRow :=
  mkUpdateRow (read_doc_epoch db doc) device (pb_push_id u) (pb_blob u).
Definition push_fresh (db : Db) (doc device : Uuid) (u : PushBlob) : Db :=
  with_updates <[(doc, next_seq db doc) := push_row db doc device u]>
    (with_sequences <[doc := mkSequence (next_seq db doc + 1) (read_doc_epoch db doc)]> db).

Lemma insert_update_cases doc device u db :
  stream_ok db ->
  insert_update doc device u db =
  match find_push db doc device (pb_push_id u) with
  | Some seq => Ok (mkAck (pb_push_id u) (as_u64 seq), None, db)
  | None =>
      let? _ := doc_fk doc db in
      let seq := as_u64 (next_seq db doc) in
      Ok (mkAck (pb_push_id u) seq, Some (mkStored seq (pb_blob u)), push_fresh db doc device u)
  end.
Proof.
  intros Hok. unfold insert_update. destruct (find_push _ _ _ _) as [seq|]; [done|].
  unfold reserve_seq. destruct (doc_fk doc db) as [[]|] eqn:Ed; [|done]. cbn [fst snd].
  set (row := match db_sequences db !! doc with Some r => mkSequence (sq_next r + 1) (sq_epoch r) | None => mkSequence 2 0 end).
  assert (Hrow : row = mkSequence (next_seq db doc + 1) (read_doc_epoch db doc)).
  { unfold row, next_seq, read_doc_epoch. by destruct (db_sequences db !! doc). }
  rewrite Hrow. cbn [sq_next sq_epoch]. replace (next_seq db doc + 1 - 1)%Z with (next_seq db doc) by lia.
  unfold insert_row. cbn [db_updates with_sequences].
  destruct (db_updates db !! (doc, next_seq db doc)) as [r|] eqn:Er; [apply (so_row _ Hok) in Er; lia|].
  unfold doc_fk in *. cbn [db_auth with_sequences]. rewrite Ed. done.
Qed.

Lemma push_fresh_next db doc device u d :
  next_seq (push_fresh db doc device u) d = if decide (d = doc) then (next_seq db doc + 1)%Z else next_seq db d.
Proof.
  unfold next_seq, push_fresh. cbn. case_decide; [subst; by rewrite lookup_insert_eq|by rewrite lookup_insert_ne].
Qed.

Lemma push_fresh_rows db doc device u d s r :
  db_updates (push_fresh db doc device u) !! (d, s) = Some r ->
  db_updates db !! (d, s) = Some r \/ (d = doc /\ s = next_seq db doc /\ r = push_row db doc device u).
Proof.
  cbn. destruct (decide ((doc, next_seq db doc) = (d, s))) as [[= <- <-]|Hne];
    [rewrite lookup_insert_eq; intros [= <-]; by right|rewrite lookup_insert_ne by done; by left].
Qed.

Lemma push_fresh_ok doc device u db :
  stream_ok db -> find_push db doc device (pb_push_id u) = None -> stream_ok (push_fresh db doc device u).
Proof.
  intros Hok Ef. pose proof (so_next _ Hok doc) as Hn1. split.
  - intros d s r [Hr|(-> & -> & _)]%push_fresh_rows; rewrite push_fresh_next;
      [apply (so_row _ Hok) in Hr; case_decide; subst; lia|]. rewrite decide_True by done. lia.
  - assert (Hnone : forall s r, db_updates db !! (doc, s) = Some r -> ur_device r = device -> ur_push r = pb_push_id u -> False).
    { intros s r Hr Hd Hp. rewrite (proj2 (find_push_some db doc device (pb_push_id u) s Hok)) in Ef; [done|]. by exists r. }
    intros d s1 s2 r1 r2 [H1|(-> & -> & ->)]%push_fresh_rows [H2|(E & -> & ->)]%push_fresh_rows Hd Hp.
    + by eapply (so_push _ Hok).
    + subst. exfalso. by eapply Hnone.
    + exfalso. by eapply Hnone.
    + done.
  - intros d. rewrite push_fresh_next. pose proof (so_next _ Hok d). case_decide; lia.
  - intros d s r Hr. rewrite push_fresh_next. cbn [push_fresh with_updates with_sequences db_updates].
    destruct (decide ((doc, next_seq db doc) = (d, s + 1)%Z)) as [E|Hne]; [rewrite E, lookup_insert_eq; by eexists|].
    rewrite lookup_insert_ne by done. apply push_fresh_rows in Hr as [Hr|(-> & -> & _)]; [|rewrite decide_True by done; lia].
    intros Hs. apply (so_dense _ Hok _ _ _ Hr). case_decide as Hd; [|done]. subst d.
    assert (s + 1 <> next_seq db doc)%Z by congruence. lia.
Qed.

Lemma insert_update_spec doc device u db :
  stream_ok db -> has_doc db doc -> seq_room db doc 1 ->
  exists a fresh db', insert_update doc device u db = Ok (a, fresh, db') /\ pushed db db' doc device u a fresh.
Proof.
  intros Hok Hdoc Hroom. unfold seq_room in Hroom. rewrite insert_update_cases, (doc_fk_ok _ _ Hdoc) by done.
  destruct (find_push db doc device (pb_push_id u)) as [seq|] eqn:Ef.
  - eexists _, None, db. split; [done|].
    pose proof (proj1 (find_push_some _ _ _ _ _ Hok) Ef) as (row & Hrow & _ & _).
    pose proof (so_row _ Hok _ _ _ Hrow) as Hb.
    split; cbn; try done; [by left|]. rewrite as_u64_pos by lia. split; [done|lia].
  - eexists _, _, _. split; [done|]. pose proof (so_next _ Hok doc) as Hn1.
    pose proof (push_fresh_ok doc device u db Hok Ef) as Hok2.
    split; try done; cbn [pa_push_id pa_seq].
    + apply insert_subseteq. destruct (db_updates db !! (doc, next_seq db doc)) as [r|] eqn:Er; [|done].
      apply (so_row _ Hok) in Er. lia.
    + apply push_fresh_rows.
    + rewrite as_u64_pos by lia. split; [|lia]. apply find_push_some; [done|]. exists (push_row db doc device u).
      split; [by cbn; rewrite lookup_insert_eq|done].
    + rewrite as_u64_small by lia. rewrite push_fresh_next, decide_True by done. done.
    + intros d Hd. by rewrite push_fresh_next, decide_False.
    + unfold read_doc_epoch at 1, push_fresh. cbn. by rewrite lookup_insert_eq.
Qed.

(** Whatever becomes of a batch, the stream stays well formed. *)
Lemma insert_all_keeps doc device blobs : forall db ins db',
  stream_ok db -> insert_all doc device blobs db = Ok (ins, db') ->
  stream_ok db' /\ db_auth db' = db_auth db /\ db_snapshots db' = db_snapshots db /\ db_last_id db' = db_last_id db.
Proof.
  induction blobs as [|u blobs IH]; intros db ins db' Hok; cbn [insert_all]; [by intros [= _ <-]|].
  rewrite insert_update_cases by done. destruct (find_push db doc device (pb_push_id u)) eqn:Ef.
  - cbn [fst snd]. destruct (insert_all doc device blobs db) as [[rs db2]|] eqn:E; [|done]. intros [= _ <-]. by eapply IH.
  - destruct (doc_fk doc db); [|done]. cbn [fst snd].
    destruct (insert_all doc device blobs (push_fresh db doc device u)) as [[rs db2]|] eqn:E; [|done]. intros [= _ <-].
    apply IH in E as (? & -> & -> & ->); [done|by apply push_fresh_ok].
Qed.

(** Earlier pushes stay found. *)
Lemma find_push_mono db db' doc device push seq :
  stream_ok db -> stream_ok db' -> db_updates db ⊆ db_updates db' ->
  find_push db doc device push = Some seq -> find_push db' doc device push = Some seq.
Proof.
  intros H1 H2 Hs (row & Hr & Hd)%find_push_some; [|done]. apply find_push_some; [done|]. exists row.
  split; [|done]. by eapply lookup_weaken.
Qed.

Definition dense (from : Z) (fresh : list StoredBlob) : Prop :=
  forall i b, fresh !! i = Some b -> sb_seq b = Z.to_N (from + Z.of_nat i).

(** A batch: the transaction's effect and its answer. *)
Record pushed_all (db db' : Db) (doc device : Uuid) (blobs : list PushBlob) (ins : InsertedUpdates) : Prop := {
  pa_ok : stream_ok db';
  pa_rows : db_updates db ⊆ db_updates db';
  pa_new d s row : db_updates db' !! (d, s) = Some row -> db_updates db !! (d, s) = Some row \/
    (d = doc /\ ur_device row = device /\ mkStored (Z.to_N s) (ur_payload row) ∈ in_fresh ins
     /\ mkPush (ur_push row) (ur_payload row) ∈ blobs);
  pa_acks : Forall2 (fun u a => pa_push_id a = pb_push_id u
              /\ find_push db' doc device (pb_push_id u) = Some (Z.of_N (pa_seq a))
              /\ (Z.of_N (pa_seq a) < 2 ^ 63)%Z) blobs (in_acks ins);
  pa_dense : dense (next_seq db doc) (in_fresh ins);
  pa_next : next_seq db' doc = (next_seq db doc + Z.of_nat (length (in_fresh ins)))%Z;
  pa_others d : d <> doc -> next_seq db' d = next_seq db d;
  pa_count : length (in_fresh ins) <= length blobs;
  pa_auth : db_auth db' = db_auth db;
}.

Lemma insert_all_spec doc device blobs : forall db,
  stream_ok db -> has_doc db doc -> seq_room db doc (length blobs) ->
  exists ins db', insert_all doc device blobs db = Ok (ins, db') /\ pushed_all db db' doc device blobs ins.
Proof.
  induction blobs as [|u blobs IH]; intros db Hok Hdoc Hroom.
  - exists (mkInserted [] []), db. split; [done|]. split; cbn; try done; try lia. by left.
  - unfold seq_room in *. cbn [length] in Hroom. cbn [insert_all].
    destruct (insert_update_spec doc device u db Hok Hdoc) as (a & fresh & db1 & -> & Hp); [unfold seq_room; lia|].
    cbn [fst snd]. destruct Hp as [P1 P2 P3 P4 [P5 P5'] P6 P7 P8 P9].
    assert (Hn1 : next_seq db1 doc = (next_seq db doc + Z.of_nat (length (option_list fresh)))%Z).
    { destruct fresh; [destruct P6 as (_ & -> & _); cbn; lia|subst; cbn; lia]. }
    assert (Hle : length (option_list fresh) <= 1) by (destruct fresh; cbn; lia).
    destruct (IH db1 P1) as (ins & db' & -> & [Q1 Q2 Q3 Q4 Q5 Q6 Q7 Q8 Q9]); [unfold has_doc in *; by rewrite P9|lia|]. cbn [fst snd].
    eexists _, db'. split; [done|]. split; cbn [in_acks in_fresh].
    + done.
    + by trans (db_updates db1).
    + intros d s row Hr. destruct (Q3 _ _ _ Hr) as [Hr1|(-> & Hd & Hf & Hb)].
      * destruct (P3 _ _ _ Hr1) as [Hr0|(-> & -> & ->)]; [by left|].
        destruct (db_updates db !! (doc, next_seq db doc)) as [r0|] eqn:E0.
        { apply (so_row _ Hok) in E0. lia. }
        right. cbn. destruct fresh as [b|]; [|subst; congruence]. destruct P6 as (-> & _).
        split_and!; try done; [by left|]. destruct u; by left.
      * right. split_and!; try done; [apply elem_of_app; by right|by right].
    + constructor; [|done]. split_and!; try done. by eapply (find_push_mono db1).
    + intros i b Hi. destruct fresh as [b0|]; cbn in *.
      * destruct P6 as (-> & _). destruct i as [|i]; cbn in Hi; [injection Hi as <-; cbn; f_equal; lia|].
        rewrite (Q5 i b Hi), Hn1. f_equal. lia.
      * rewrite (Q5 i b Hi), Hn1. f_equal. lia.
    + rewrite Q6, Hn1, length_app. lia.
    + intros d Hd. by rewrite Q7, P7.
    + rewrite length_app. cbn [length] in *. lia.
    + by rewrite Q9.
Qed.

(** A batch whose pushes are all found writes nothing. *)
Lemma insert_all_again doc device blobs acks db :
  Forall2 (fun u a => pa_push_id a = pb_push_id u
    /\ find_push db doc device (pb_push_id u) = Some (Z.of_N (pa_seq a)) /\ (Z.of_N (pa_seq a) < 2 ^ 63)%Z) blobs acks ->
  insert_all doc device blobs db = Ok (mkInserted acks [], db).
Proof.
  induction 1 as [|u a blobs acks (Hp & Hf & Hb) _ IH]; [done|]. cbn [insert_all]. unfold insert_update.
  rewrite Hf. cbn [fst snd]. rewrite IH. cbn. destruct a as [p s]. cbn in *.
  rewrite as_u64_small by lia. by rewrite N2Z.id, Hp.
Qed.


(** A database with one document and nothing in it. *)
Definition one_doc_db (doc : Uuid) : Db := with_auth (with_docs (fun ds => {[doc]} ∪ ds)) db_empty.

Lemma one_doc_db_ok doc : stream_ok (one_doc_db doc) /\ has_doc (one_doc_db doc) doc.
Proof. split; [by split|unfold has_doc; cbn; set_solver]. Qed.


(** ** Pulling *)

Definition stored_row (kv : Z * UpdateRow) : StoredBlob := mkStored (as_u64 kv.1) (ur_payload kv.2).
Definition stored_bytes (us : list StoredBlob) : nat :=
  foldr (fun u n => length (eb_ciphertext (sb_blob u)) + length (eb_nonce (sb_blob u)) + n) 0 us.

Lemma max_updates_pos : 0 < MAX_UPDATES_PER_BATCH.
Proof. unfold MAX_UPDATES_PER_BATCH. lia. Qed.
#[local] Opaque MAX_UPDATES_PER_BATCH MAX_BYTES_PER_BATCH.

Ltac stop := try solve [done | lia | split; intros; (done || lia) | right; by left | intros ->; (done || lia)].

(** What the fetch loop takes: a prefix within the caps, all of it unless a
    cap was hit, and at least one row. *)
Lemma take_rows_spec rows : forall taken bytes, taken <= MAX_UPDATES_PER_BATCH ->
  let r := take_rows rows taken bytes in
  r.1 = stored_row <$> take (length r.1) rows
  /\ (r.2 = true <-> length r.1 < length rows) /\ length r.1 <= length rows
  /\ taken + length r.1 <= MAX_UPDATES_PER_BATCH
  /\ (taken = 0 -> rows <> [] -> r.1 <> [])
  /\ (bytes + stored_bytes r.1 <= MAX_BYTES_PER_BATCH \/ r.1 = [] \/ (taken = 0 /\ length r.1 = 1)).
Proof.
  induction rows as [|[seq row] rows IH]; intros taken bytes Ht; cbn [take_rows].
  { cbn. split_and!; stop. }
  destruct (MAX_UPDATES_PER_BATCH <=? taken) eqn:Ec.
  { apply Nat.leb_le in Ec. pose proof max_updates_pos. cbn. split_and!; stop. }
  apply Nat.leb_gt in Ec. set (n := length (eb_ciphertext (ur_payload row)) + length (eb_nonce (ur_payload row))).
  destruct (negb (taken =? 0) && (MAX_BYTES_PER_BATCH <? bytes + n)) eqn:Eb.
  { apply andb_true_iff in Eb as [Et _]. cbn. split_and!; stop; by subst. }
  destruct (IH (S taken) (bytes + n)) as (I1 & I2 & I3 & I4 & _ & I6); [lia|].
  destruct (take_rows rows (S taken) (bytes + n)) as [us more]. cbn [fst snd length] in *. split_and!; try lia.
  - cbn [take fmap list_fmap]. by rewrite I1 at 1.
  - rewrite I2. split; lia.
  - done.
  - change (stored_bytes (mkStored (as_u64 seq) (ur_payload row) :: us)) with (n + stored_bytes us).
    destruct I6 as [I6|[->|[? _]]]; [left; lia| |done].
    apply andb_false_iff in Eb as [Et|Eb].
    + apply negb_false_iff, Nat.eqb_eq in Et. right; right. done.
    + apply Nat.ltb_ge in Eb. left. cbn. lia.
Qed.

Lemma rows_after_sorted db doc since : StronglySorted row_le (rows_after db doc since).
Proof. apply StronglySorted_filter, select_sorted. Qed.

(** Past the last row of a prefix lies the rest. *)
Lemma filter_after (rows : list (Z * UpdateRow)) k z r :
  StronglySorted row_le rows -> NoDup rows.*1 -> last (take k rows) = Some (z, r) ->
  base.filter (fun kv : Z * UpdateRow => (z < kv.1)%Z) rows = drop k rows.
Proof.
  revert k. induction rows as [|[z0 r0] rows IH]; intros k Hs Hn Hl; [by destruct k|].
  destruct k as [|k]; [done|]. cbn [take drop] in *. inversion Hs as [|? ? Hs' Hf]; subst.
  cbn [fmap list_fmap] in Hn. apply NoDup_cons in Hn as [Hni Hn]. rewrite Forall_forall in Hf.
  assert (Hz : (z0 <= z)%Z).
  { rewrite last_cons in Hl. destruct (last (take k rows)) as [x|] eqn:El; [|by simplify_eq].
    injection Hl as ->. apply last_Some in El as (l' & El).
    assert (Hin : (z, r) ∈ take k rows) by (rewrite El; apply elem_of_app; right; by left).
    apply (Hf (z, r)). by eapply elem_of_take in Hin as (? & ? & ?); apply list_elem_of_lookup; eexists. }
  rewrite filter_cons, decide_False by (cbn; lia).
  destruct (last (take k rows)) as [x|] eqn:El.
  - rewrite last_cons, El in Hl. injection Hl as ->. by apply IH.
  - rewrite last_cons, El in Hl. injection Hl as -> ->.
    assert (Ht : take k rows = []) by (by apply last_None).
    assert (Hd : drop k rows = rows).
    { rewrite <- (take_drop k rows) at 2. by rewrite Ht. }
    rewrite Hd. clear -Hf Hni. induction rows as [|[z1 r1] rows IH]; [done|].
    rewrite filter_cons, decide_True; [f_equal; apply IH|].
    + cbn in Hni. by apply not_elem_of_cons in Hni as [_ ?].
    + intros x Hx. apply Hf. by right.
    + pose proof (Hf (z1, r1) ltac:(by left)) as Hle. unfold row_le in Hle. cbn in *.
      apply not_elem_of_cons in Hni as [Hne _]. lia.
Qed.

(** The rows past a row of the selection. *)
Lemma rows_after_next db doc since k z r :
  (since <= z)%Z -> last (take k (rows_after db doc since)) = Some (z, r) ->
  rows_after db doc z = drop k (rows_after db doc since).
Proof.
  intros Hz Hl. rewrite <- (filter_after (rows_after db doc since) k z r); [|exact (rows_after_sorted db doc since)| |exact Hl].
  - unfold rows_after. rewrite list_filter_filter. apply list_filter_iff. intros [z' r']. cbn. lia.
  - eapply sublist_NoDup; [apply (NoDup_select (db_updates db) doc)|]. apply fmap_sublist.
    unfold rows_after. generalize (select (db_updates db) doc). intros l.
    induction l as [|x l IH]; [done|]. rewrite filter_cons. case_decide; by constructor.
Qed.

Definition batch_of (f : ServerFrame) : list StoredBlob :=
  match f with UpdatesBatch _ us _ => us | _ => [] end.
Definition within_caps (f : ServerFrame) : Prop :=
  length (batch_of f) <= MAX_UPDATES_PER_BATCH
  /\ (stored_bytes (batch_of f) <= MAX_BYTES_PER_BATCH \/ length (batch_of f) <= 1).

(** One round: a prefix of what is left, all of it when complete. *)
Lemma fetch_spec db doc cursor :
  let rows := rows_after db doc (as_i64 cursor) in
  let b := fetch_updates_batch doc cursor db in
  exists k, fb_updates b = stored_row <$> take k rows /\ k <= MAX_UPDATES_PER_BATCH /\ k <= length rows
    /\ (if fb_has_more b then 0 < k < length rows else k = length rows)
    /\ (stored_bytes (fb_updates b) <= MAX_BYTES_PER_BATCH \/ length (fb_updates b) <= 1).
Proof.
  intros rows b. unfold b, fetch_updates_batch. cbn [fb_updates fb_has_more]. fold rows.
  destruct (take_rows_spec (take (S MAX_UPDATES_PER_BATCH) rows) 0 0) as (I1 & I2 & I3 & I4 & I5 & I6); [lia|].
  destruct (take_rows _ 0 0) as [us more]. cbn [fst snd] in *. rewrite length_take in I2, I3. exists (length us).
  split_and!.
  - rewrite I1 at 1. rewrite take_take, Nat.min_l by lia. done.
  - lia.
  - lia.
  - destruct more.
    + pose proof (proj1 I2 eq_refl) as Hlt. split; [|lia].
      destruct (decide (length us = 0)) as [He|]; [|lia]. apply nil_length_inv in He.
      exfalso. apply I5; [done| |done]. intros Hn. apply (f_equal length) in Hn.
      rewrite length_take in Hn. change (length []) with 0 in Hn. lia.
    + destruct (decide (length us < length rows)) as [Hlt|]; [|lia]. exfalso.
      assert (false = true) by (apply I2; lia). done.
  - destruct I6 as [I6|[->|[_ I6]]]; [left; lia|right; cbn; lia|right; lia].
Qed.

(** A batch that is not the last names the row the next one starts after. *)
Lemma fetch_next db doc cursor : stream_ok db -> (next_seq db doc <= 2 ^ 63)%Z ->
  let b := fetch_updates_batch doc cursor db in
  let next := default cursor (sb_seq <$> last (fb_updates b)) in
  fb_has_more b = true ->
  exists k r, let rows := rows_after db doc (as_i64 cursor) in
    0 < k < length rows /\ fb_updates b = stored_row <$> take k rows
    /\ (as_i64 cursor <= as_i64 next)%Z /\ last (take k rows) = Some (as_i64 next, r)
    /\ rows_after db doc (as_i64 next) = drop k rows.
Proof.
  intros Hok Hmax b next Em. destruct (fetch_spec db doc cursor) as (k & Hu & _ & _ & Hmore & _). cbn zeta in *.
  fold b in Hu, Hmore. rewrite Em in Hmore. set (rows := rows_after db doc (as_i64 cursor)) in *.
  destruct (last (take k rows)) as [[z r]|] eqn:El.
  2: { apply last_None in El. apply (f_equal length) in El. rewrite length_take in El. cbn in El. lia. }
  assert (Hz : (z, r) ∈ rows).
  { apply last_Some in El as (l & El). eapply elem_of_sublist; [|apply (sublist_take _ k)].
    rewrite El. apply elem_of_app. right. by left. }
  apply list_elem_of_filter in Hz as [Hzs Hz]. cbn in Hzs. apply elem_of_select, (so_row _ Hok) in Hz.
  assert (Hn : as_i64 next = z).
  { unfold next. rewrite Hu, fmap_last, El. cbn. apply as_i64_u64. unfold i64_range. lia. }
  exists k, r. rewrite Hn. split_and!; try done; try lia. apply (rows_after_next db doc (as_i64 cursor) k z r); [lia|done].
Qed.

Lemma pull_frames_spec db doc : stream_ok db -> (next_seq db doc <= 2 ^ 63)%Z ->
  forall fuel cursor, length (rows_after db doc (as_i64 cursor)) < fuel ->
  exists init us, pull_frames fuel doc cursor db = Some (init ++ [UpdatesBatch doc us true])
    /\ Forall (fun f => exists us, f = UpdatesBatch doc us false /\ us <> []) init
    /\ Forall within_caps (init ++ [UpdatesBatch doc us true])
    /\ concat (batch_of <$> init) ++ us = stored_row <$> rows_after db doc (as_i64 cursor).
Proof.
  intros Hok Hmax. induction fuel as [|fuel IH]; intros cursor Hf; [lia|]. cbn [pull_frames].
  destruct (fetch_spec db doc cursor) as (k & Hu & Hk & Hlen & Hmore & Hbytes). cbn zeta in *.
  remember (rows_after db doc (as_i64 cursor)) as rows eqn:Erows. remember (fetch_updates_batch doc cursor db) as b eqn:Eb.
  assert (Hcap : forall c, within_caps (UpdatesBatch doc (fb_updates b) c)).
  { intros c. split; [|done]. change (length (fb_updates b) <= MAX_UPDATES_PER_BATCH).
    rewrite Hu, length_fmap, length_take. lia. }
  destruct (fb_has_more b) eqn:Em; cbn [negb].
  - destruct (fetch_next db doc cursor Hok Hmax) as (k' & r & Hk' & Hu' & _ & _ & Hdrop); [by rewrite <- Eb|].
    cbn zeta in *. rewrite <- Eb, <- Erows in *. set (next := default cursor _) in *.
    destruct (IH next) as (init & us & -> & Hi & Hc & Hconcat); [rewrite Hdrop, length_drop; lia|].
    exists (UpdatesBatch doc (fb_updates b) false :: init), us. split_and!; [done| | |].
    + constructor; [|done]. exists (fb_updates b). split; [done|]. intros Hnil. apply (f_equal length) in Hnil.
      rewrite Hu, length_fmap, length_take in Hnil. cbn in Hnil. lia.
    + by constructor.
    + cbn. rewrite <- app_assoc, Hconcat, Hdrop, Hu', <- fmap_app. by rewrite take_drop.
  - exists [], (fb_updates b). split_and!; [done|constructor|by constructor|]. cbn.
    rewrite Hu, Hmore. by rewrite take_ge.
Qed.

Definition below_floor (db : Db) (doc : Uuid) (since : N) : bool :=
  match latest_snapshot_meta doc db with
  | Some m => (since <? lm_compaction_floor_seq m)%N
  | None => false
  end.

(** C6: Pulling ends and delivers. The handler's loop runs at most once per row
    and once more; it sends every row past the cursor exactly once, in order,
    in batches within the count and byte caps (a single larger row goes
    alone), none but the last empty, and marks the last one complete. A cursor below the
    compaction floor is answered with [SnapshotRequired] alone. *)
Theorem pull_delivers doc since st ws :
  stream_ok (st_db st) -> (next_seq (st_db st) doc <= 2 ^ 63)%Z ->
  exists frames,
    pull_updates doc since (st, ws) = (Ok tt, (st, mkWs (ws_auth ws) (ws_open ws) (ws_socket ws ++ frames)))
    /\ if below_floor (st_db st) doc since then exists up_to, frames = [SnapshotRequired doc up_to]
       else exists init us, frames = init ++ [UpdatesBatch doc us true]
         /\ Forall (fun f => exists us, f = UpdatesBatch doc us false /\ us <> []) init
         /\ Forall within_caps frames
         /\ concat (batch_of <$> init) ++ us = stored_row <$> rows_after (st_db st) doc (as_i64 since).
Proof.
  intros Hok Hmax. destruct (pull_frames_spec (st_db st) doc Hok Hmax (pull_fuel doc (st_db st)) since)
    as (init & us & Hf & Hi & Hc & Hall); [apply Nat.lt_succ_r, length_filter|].
  unfold pull_updates, below_floor, mbind, W_bind, get_w. cbn [fst snd]. rewrite Hf.
  destruct (latest_snapshot_meta doc (st_db st)) as [m|]; [destruct (since <? lm_compaction_floor_seq m)%N|].
  - eexists. split; [reflexivity|]. by eexists.
  - eexists. split; [apply send_all_spec|]. by exists init, us.
  - eexists. split; [apply send_all_spec|]. by exists init, us.
Qed.

Definition pushed_db (doc device : Uuid) (blobs : list PushBlob) : Db :=
  match insert_updates doc device blobs (one_doc_db doc) with Ok (_, db) => db | Err _ => db_empty end.

Lemma pushed_db_ok doc device blobs :
  (Z.of_nat (length blobs) < 2 ^ 62)%Z -> stream_ok (pushed_db doc device blobs).
Proof.
  intros Hl. destruct (one_doc_db_ok doc) as [Hok Hdoc].
  destruct (insert_all_spec doc device blobs (one_doc_db doc) Hok Hdoc) as (ins & db' & Hi & Hp).
  { unfold seq_room. change (next_seq (one_doc_db doc) doc) with 1%Z. lia. }
  unfold pushed_db, insert_updates. case_decide; [done|]. rewrite Hi. apply (pa_ok _ _ _ _ _ _ Hp).
Qed.

Definition pulled_db : Db :=
  pushed_db 5 1 [mkPush 70 (mkBlob [] [1%N]); mkPush 71 (mkBlob [] [2%N]); mkPush 72 (mkBlob [] [3%N])].

(** A device that has row 1 pulls: rows 2 and 3 in one complete batch. *)
Lemma pull_delivers_witness :
  exists frames, (pull_updates 5 1 (mkState pulled_db coordinator_new sessions_new [] 0, mkWs (mkAuth 1 1 1 "a") ∅ [])).2.2
      = mkWs (mkAuth 1 1 1 "a") ∅ frames
    /\ exists init us, frames = init ++ [UpdatesBatch 5 us true]
      /\ concat (batch_of <$> init) ++ us = [mkStored 2 (mkBlob [] [2%N]); mkStored 3 (mkBlob [] [3%N])].
Proof.
  destruct (pull_delivers 5 1 (mkState pulled_db coordinator_new sessions_new [] 0) (mkWs (mkAuth 1 1 1 "a") ∅ []))
    as (frames & Hp & Hf).
  - apply pushed_db_ok. cbn. lia.
  - by vm_compute.
  - exists frames. split; [by rewrite Hp|]. destruct Hf as (init & us & He & _ & _ & Hall).
    exists init, us. split; [exact He|]. rewrite Hall. by vm_compute.
Defined.
