(* ===== verification/SnapshotFacts.v ===== *)
(** The snapshot chain of a document: every delta follows the row it was taken
    on, and the bootstrap answer is the latest full snapshot with every row
    after it. *)
From S2P Require Import Prelude.
From S2P Require Import Wire.
From S2P Require Import Tables.
From S2P Require Import AuthDb.
From S2P Require Import ServerDb.
From S2P Require Import Coordinator.
From S2P Require Import Sessions.
From S2P Require Import Ws.
From S2P Require Import StreamFacts.

(** ** The chain invariant *)

Fixpoint linked_from (prev : option Z) (rows : list SnapRow) : Prop :=
  match rows with
  | [] => True
  | r :: rows =>
      match sn_from r with None => True | Some from => prev = Some from end
      /\ linked_from (Some (sn_up_to r)) rows
  end.

Definition id_lt (a b : SnapRow) : Prop := (sn_id a < sn_id b)%Z.

Record snapshots_ok (db : Db) : Prop := {
  sk_ids : StronglySorted id_lt (db_snapshots db);
  sk_last : Forall (fun r => (0 < sn_id r <= db_last_id db)%Z) (db_snapshots db);
  sk_next : (0 <= db_last_id db)%Z;
  sk_linked doc : linked_from None (doc_snapshots db doc);
  sk_floor : Forall (fun r => i64_range (sn_floor r)) (db_snapshots db);
}.

Lemma linked_from_app prev rows r :
  linked_from prev (rows ++ [r]) <->
  linked_from prev rows /\
  match sn_from r with
  | None => True
  | Some from => match last rows with Some l => Some (sn_up_to l) | None => prev end = Some from
  end.
Proof.
  revert prev. induction rows as [|x rows IH]; intros prev; cbn [app linked_from]; [cbn; tauto|].
  rewrite IH, last_cons. destruct (last rows); tauto.
Qed.

Lemma doc_snapshots_app db rows doc :
  base.filter (fun r => sn_doc r = doc) (db_snapshots db ++ rows)
  = doc_snapshots db doc ++ base.filter (fun r => sn_doc r = doc) rows.
Proof. apply filter_app. Qed.

Definition chains_onto (db : Db) (doc : Uuid) (up_to_seq : N) (from_seq : option N) : Prop :=
  match from_seq with
  | None => True
  | Some from => read_latest_up_to_seq db doc = Some (as_i64 from) /\ (from <= up_to_seq)%N
  end.
#[export] Instance chains_onto_dec db doc up from : base.Decision (chains_onto db doc up from).
Proof. unfold chains_onto. destruct from; apply _. Defined.

Definition new_row (db : Db) (doc : Uuid) (up_to floor : N) (from : option N) (vv blob : EncryptedBlob) : SnapRow :=
  mkSnap (db_last_id db + 1) doc (as_i64 up_to) (as_i64 floor) (read_doc_epoch db doc) (as_i64 <$> from) vv blob.

Definition landed (db : Db) (doc : Uuid) (up_to floor : N) (from : option N) (vv blob : EncryptedBlob) : Db :=
  mkDb (db_updates db) (db_sequences db) (db_snapshots db ++ [new_row db doc up_to floor from vv blob])
    (db_last_id db + 1) (db_frontiers db) (db_auth db).

(** A row is stored exactly when it chains onto the latest one. *)
Lemma insert_snapshot_cases doc up floor from vv blob db :
  insert_snapshot doc up floor from vv blob db =
  if decide (chains_onto db doc up from) then
    let? _ := doc_fk doc db in Ok (Inserted (as_u64 (db_last_id db + 1)), landed db doc up floor from vv blob)
  else Ok (ChainMismatch (as_u64 <$> read_latest_up_to_seq db doc), db).
Proof.
  unfold insert_snapshot. destruct from as [from|]; cbn [chains_onto].
  - case_bool_decide as Hl; cbn [negb orb].
    + destruct (up <? from)%N eqn:E; [apply N.ltb_lt in E|apply N.ltb_ge in E]; case_decide as Hc; cbn in Hc;
        try done; destruct Hc; try lia; done.
    + rewrite decide_False; [done|]. cbn. tauto.
  - by rewrite decide_True.
Qed.

Lemma landed_ok doc up floor from vv blob db :
  snapshots_ok db -> chains_onto db doc up from -> snapshots_ok (landed db doc up floor from vv blob).
Proof.
  intros [K1 K2 K3 K4 K5] Hc. split; cbn.
  - apply StronglySorted_app. split_and!; [|done|by repeat constructor].
    intros a b Ha Hb. apply list_elem_of_singleton in Hb as ->.
    rewrite Forall_forall in K2. apply K2 in Ha. unfold id_lt. cbn. lia.
  - apply Forall_app. split; [|constructor; [cbn; lia|constructor]].
    eapply Forall_impl; [exact K2|]. cbn. lia.
  - lia.
  - intros d. change (linked_from None (base.filter (fun r => sn_doc r = d)
      (db_snapshots db ++ [new_row db doc up floor from vv blob]))).
    rewrite doc_snapshots_app, filter_cons, filter_nil. cbn [sn_doc new_row].
    case_decide as Hd; [|by rewrite app_nil_r]. subst d. apply linked_from_app. split; [done|].
    destruct from as [from|]; cbn in *; [|done]. destruct Hc as [Hc _].
    unfold read_latest_up_to_seq, latest_row in Hc. by destruct (last (doc_snapshots db doc)).
  - apply Forall_app. split; [done|]. repeat constructor; apply as_i64_range.
Qed.

Lemma insert_snapshot_ok doc up floor from vv blob db r db' :
  snapshots_ok db -> insert_snapshot doc up floor from vv blob db = Ok (r, db') -> snapshots_ok db'.
Proof.
  intros Hok. rewrite insert_snapshot_cases. case_decide; [|by intros [= <- <-]].
  destruct (doc_fk doc db); [|done]. intros [= <- <-]. by apply landed_ok.
Qed.

(** ** Serving the chain *)

Definition chain_row (r : SnapRow) : SnapshotChainRow := mkChainRow (as_u64 (sn_up_to r)) (sn_payload r).
Definition is_delta (r : SnapRow) : Prop := sn_from r <> None.

(** A linked list of rows starts over at its last full one. *)
Lemma linked_split rows : linked_from None rows -> rows <> [] ->
  exists pre full deltas, rows = pre ++ full :: deltas /\ sn_from full = None /\ Forall is_delta deltas
    /\ linked_from (Some (sn_up_to full)) deltas.
Proof.
  induction rows as [|r rows IH] using rev_ind; [done|]. intros Hl _.
  apply linked_from_app in Hl as [Hl Hr]. destruct (sn_from r) as [from|] eqn:E.
  - destruct rows as [|x rows]; [done|]. destruct IH as (pre & full & ds & Heq & Hf & Hd & Hls); [done|done|]. rewrite Heq in *.
    exists pre, full, (ds ++ [r]). split_and!; [by rewrite <- app_assoc|done| |].
    + apply Forall_app. split; [done|]. constructor; [|constructor]. unfold is_delta. by rewrite E.
    + apply linked_from_app. split; [done|]. rewrite E. rewrite last_app, last_cons in Hr. by destruct (last ds).
  - exists rows, r, []. by rewrite E.
Qed.

Lemma chain_rows_split pre full deltas :
  StronglySorted id_lt (pre ++ full :: deltas) -> Forall (fun r => (0 < sn_id r)%Z) (pre ++ full :: deltas) ->
  sn_from full = None -> Forall is_delta deltas -> chain_rows (pre ++ full :: deltas) = full :: deltas.
Proof.
  intros Hs Hp Hf Hd. apply StronglySorted_app in Hs as (Hs1 & Hs2 & Hs3).
  apply Forall_app in Hp as [Hp1 Hp2]. inversion Hs3 as [|? ? Hs4 Hs5]; subst. inversion Hp2; subst.
  assert (Hheads : base.filter (fun r => sn_from r = None) (pre ++ full :: deltas)
    = base.filter (fun r => sn_from r = None) pre ++ [full]).
  { rewrite filter_app, filter_cons, decide_True by done. do 2 f_equal. clear -Hd.
    induction Hd; [done|]. by rewrite filter_cons, decide_False. }
  assert (Hmax : match sn_id <$> base.filter (fun r => sn_from r = None) (pre ++ full :: deltas) with
    [] => 0%Z | z :: l => foldr Z.max z l end = sn_id full).
  { rewrite Hheads. assert (Hlt : Forall (fun r => (sn_id r <= sn_id full)%Z) (base.filter (fun r => sn_from r = None) pre)).
    { apply Forall_forall. intros x [_ Hx]%list_elem_of_filter. specialize (Hs1 x full Hx ltac:(by left)).
      unfold id_lt in Hs1. lia. }
    destruct (base.filter _ pre) as [|x l]; [done|]. inversion Hlt as [|? ? Hx Hl]; subst. cbn. clear -Hx Hl.
    rewrite fmap_app, foldr_app. cbn. rewrite Z.max_l by done.
    induction Hl as [|y l Hy _ IH]; [done|]. cbn. lia. }
  unfold chain_rows. rewrite Hmax, filter_app, filter_cons, decide_True by lia.
  replace (base.filter (fun r => (sn_id full <= sn_id r)%Z) pre) with (@nil SnapRow).
  - cbn. f_equal. clear -Hs5. induction Hs5 as [|x l Hx _ IH]; [done|].
    unfold id_lt in Hx. rewrite filter_cons, decide_True by lia. by f_equal.
  - symmetry. clear -Hs1. induction pre as [|x pre IH]; [done|].
    assert (Hx : id_lt x full) by (apply Hs1; by left). unfold id_lt in Hx.
    rewrite filter_cons, decide_False by lia. apply IH. intros a b Ha Hb. apply Hs1; [by right|done].
Qed.

Lemma link_deltas deltas : forall up c, linked_from (Some up) deltas -> Forall is_delta deltas ->
  ch_up_to_seq c = as_u64 up ->
  exists c', link_rows deltas (Some c) = Some c' /\ ch_rows c' = ch_rows c ++ (chain_row <$> deltas)
    /\ (ch_up_to_seq c', ch_compaction_floor_seq c', ch_epoch c')
       = match last deltas with
         | Some r => (as_u64 (sn_up_to r), as_u64 (sn_floor r), as_u64 (sn_epoch r))
         | None => (ch_up_to_seq c, ch_compaction_floor_seq c, ch_epoch c)
         end.
Proof.
  induction deltas as [|r deltas IH]; intros up c Hl Hd Hc.
  - exists c. cbn. by rewrite app_nil_r.
  - inversion Hd as [|? ? Hr Hd']; subst. destruct Hl as [Hp Hl]. cbn [link_rows].
    unfold is_delta in Hr. destruct (sn_from r) as [from|]; [|done]. injection Hp as ->. cbn [fmap option_fmap option_map].
    rewrite decide_True by done.
    destruct (IH (sn_up_to r) (mkChain (as_u64 (sn_up_to r)) (as_u64 (sn_floor r)) (as_u64 (sn_epoch r))
      (ch_rows c ++ [mkChainRow (as_u64 (sn_up_to r)) (sn_payload r)])) Hl Hd' eq_refl) as (c' & Hc' & Hrows & Hmeta).
    exists c'. split_and!; [exact Hc'| |].
    + rewrite Hrows. cbn. by rewrite <- app_assoc.
    + rewrite Hmeta, last_cons. by destruct (last deltas).
Qed.

Lemma snapshot_chain_spec db doc : snapshots_ok db ->
  match latest_snapshot doc db with
  | None => doc_snapshots db doc = [] /\ snapshot_chain doc db = None
  | Some (meta, blob) =>
      exists pre full deltas c, doc_snapshots db doc = pre ++ full :: deltas
        /\ sn_from full = None /\ Forall is_delta deltas /\ linked_from (Some (sn_up_to full)) deltas
        /\ snapshot_chain doc db = Some c /\ ch_rows c = chain_row <$> full :: deltas
        /\ last (ch_rows c) = Some (mkChainRow (lm_up_to_seq meta) blob)
        /\ (ch_up_to_seq c, ch_compaction_floor_seq c, ch_epoch c)
           = (lm_up_to_seq meta, lm_compaction_floor_seq meta, lm_epoch meta)
  end.
Proof.
  intros [K1 K2 K3 K4]. specialize (K4 doc).
  assert (Ks : StronglySorted id_lt (doc_snapshots db doc)) by by apply StronglySorted_filter.
  assert (Kp : Forall (fun r => (0 < sn_id r)%Z) (doc_snapshots db doc)).
  { apply Forall_forall. intros r [_ Hr]%list_elem_of_filter. rewrite Forall_forall in K2. apply K2 in Hr. lia. }
  unfold latest_snapshot, latest_row, snapshot_chain.
  destruct (decide (doc_snapshots db doc = [])) as [Hn|Hn]; [by rewrite Hn|].
  destruct (linked_split _ K4 Hn) as (pre & full & deltas & E & Hf & Hd & Hl). rewrite E in *.
  rewrite chain_rows_split by done. cbn [link_rows]. rewrite Hf. cbn [fmap option_fmap option_map].
  destruct (link_deltas deltas (sn_up_to full) (mkChain (as_u64 (sn_up_to full)) (as_u64 (sn_floor full))
    (as_u64 (sn_epoch full)) [mkChainRow (as_u64 (sn_up_to full)) (sn_payload full)]) Hl Hd eq_refl)
    as (c & -> & Hrows & Hmeta).
  assert (El : last (pre ++ full :: deltas) = Some (default full (last deltas))).
  { rewrite last_app, last_cons. by destruct (last deltas). }
  rewrite El. cbn [fmap option_fmap option_map ch_rows] in *. change ([_] ++ _) with (chain_row <$> full :: deltas) in Hrows.
  exists pre, full, deltas, c. split_and!; try done.
  - rewrite Hrows, fmap_last, last_cons. by destruct (last deltas).
  - rewrite Hmeta. by destruct (last deltas).
Qed.

(** Following a served chain: a delta frame belongs to the state the frame
    before it brings. *)
Definition served_frame (doc : Uuid) (r : SnapRow) (complete : bool) : ServerFrame :=
  Snapshot doc (as_u64 (sn_up_to r)) (sn_payload r) complete.

Lemma chain_frames_spec doc init r :
  chain_frames doc (chain_row <$> init ++ [r]) = ((fun r => served_frame doc r false) <$> init) ++ [served_frame doc r true].
Proof.
  induction init as [|x init IH]; [done|]. cbn [app fmap list_fmap chain_frames]. rewrite IH.
  rewrite bool_decide_false; [done|]. intros Hn. by apply fmap_nil_inv, app_nil in Hn as [_ ?].
Qed.

(** What a bootstrap is answered. *)
Definition served (db : Db) (d : Uuid) (frames : list ServerFrame) : Prop :=
  match latest_snapshot d db with
  | None => frames = []
  | Some (meta, payload) =>
      exists pre full init r, doc_snapshots db d = pre ++ init ++ [r]
        /\ head (init ++ [r]) = Some full /\ sn_from full = None
        /\ linked_from (Some (sn_up_to full)) (tail (init ++ [r])) /\ Forall is_delta (tail (init ++ [r]))
        /\ frames = ((fun r => served_frame d r false) <$> init) ++ [served_frame d r true]
        /\ served_frame d r true = Snapshot d (lm_up_to_seq meta) payload true
  end.

Lemma pull_snapshot_serves d st ws : snapshots_ok (st_db st) -> exists frames,
  pull_snapshot d (st, ws) = (Ok tt, (st, mkWs (ws_auth ws) (ws_open ws) (ws_socket ws ++ frames)))
  /\ served (st_db st) d frames.
Proof.
  intros Hok. pose proof (snapshot_chain_spec (st_db st) d Hok) as Hc.
  unfold pull_snapshot, served, mbind, W_bind, get_w. cbn [fst snd].
  destruct (latest_snapshot d (st_db st)) as [[meta payload]|].
  - destruct Hc as (pre & full & deltas & c & E & Hf & Hd & Hl & -> & Hrows & Hlast & _).
    destruct (exists_last (l := full :: deltas) ltac:(done)) as (init & r & Ei).
    eexists. split; [apply send_all_spec|]. exists pre, full, init, r. rewrite <- !Ei. split_and!; try done.
    + by rewrite Hrows, Ei, chain_frames_spec.
    + rewrite Hrows, Ei, fmap_last, last_snoc in Hlast. cbn in Hlast. injection Hlast as E1 E2.
      unfold served_frame. by rewrite E1, E2.
  - destruct Hc as [_ ->]. exists []. rewrite app_nil_r. split; [by destruct ws|done].
Qed.

(** C9: A bootstrapping device gets what it can import. A document's stored rows
    stay a chain: an insert writes exactly when the row is full, or a delta
    that does not go back on the latest row, which it names. The answer to
    [PullSnapshot] is then, one frame per row, the last full row and every row
    after it, each delta taken on the row before; the last frame alone is
    complete and holds the latest snapshot. Without a snapshot nothing is
    sent. *)
Theorem bootstrap_serves_chain doc up floor from vv blob st0 ws :
  snapshots_ok (st_db st0) -> has_doc (st_db st0) doc ->
  exists r db', insert_snapshot doc up floor from vv blob (st_db st0) = Ok (r, db')
  /\ snapshots_ok db'
  /\ (if decide (chains_onto (st_db st0) doc up from) then
        doc_snapshots db' doc = doc_snapshots (st_db st0) doc ++ [new_row (st_db st0) doc up floor from vv blob]
        /\ exists id, r = Inserted id
      else db' = st_db st0 /\ r = ChainMismatch (as_u64 <$> read_latest_up_to_seq db' doc))
  /\ forall d st, st_db st = db' -> exists frames,
     pull_snapshot d (st, ws) = (Ok tt, (st, mkWs (ws_auth ws) (ws_open ws) (ws_socket ws ++ frames)))
     /\ served db' d frames.
Proof.
  intros Hok Hdoc. rewrite insert_snapshot_cases, (doc_fk_ok _ _ Hdoc).
  assert (Hserve : forall db', snapshots_ok db' -> forall d st, st_db st = db' -> exists frames,
    pull_snapshot d (st, ws) = (Ok tt, (st, mkWs (ws_auth ws) (ws_open ws) (ws_socket ws ++ frames)))
    /\ served db' d frames).
  { intros db' Hok' d st <-. by apply pull_snapshot_serves. }
  case_decide as Hc.
  - eexists _, _. split; [reflexivity|]. assert (Hok' := landed_ok doc up floor from vv blob _ Hok Hc).
    split_and!; [done| |by eexists|by apply Hserve].
    change (base.filter (fun r => sn_doc r = doc) (db_snapshots (st_db st0) ++ [new_row (st_db st0) doc up floor from vv blob])
      = doc_snapshots (st_db st0) doc ++ [new_row (st_db st0) doc up floor from vv blob]).
    by rewrite doc_snapshots_app, filter_cons, decide_True.
  - eexists _, _. split; [reflexivity|]. split_and!; [done|done|done|by apply Hserve].
Qed.

(** A delta lands on a full row; both are served. *)
Lemma bootstrap_serves_chain_witness :
  let vv := mkBlob [] [9%N] in
  exists db1 db2,
    insert_snapshot 5 10 4 None vv (mkBlob [] [1%N]) (one_doc_db 5) = Ok (Inserted 1, db1)
    /\ insert_snapshot 5 20 12 (Some 10%N) vv (mkBlob [] [2%N]) db1 = Ok (Inserted 2, db2)
    /\ snapshots_ok db2
    /\ (pull_snapshot 5 (mkState db2 coordinator_new sessions_new [] 0, mkWs (mkAuth 1 1 1 "a") ∅ [])).2.2
       = mkWs (mkAuth 1 1 1 "a") ∅ [Snapshot 5 10 (mkBlob [] [1%N]) false; Snapshot 5 20 (mkBlob [] [2%N]) true].
Proof.
  cbv zeta. set (db1 := landed (one_doc_db 5) 5 10 4 None (mkBlob [] [9%N]) (mkBlob [] [1%N])).
  assert (Hok : snapshots_ok db1) by (apply landed_ok; [split; [constructor|constructor|done|done|constructor]|done]).
  assert (Hdoc : has_doc db1 5) by apply (proj2 (one_doc_db_ok 5)).
  destruct (bootstrap_serves_chain 5 20 12 (Some 10%N) (mkBlob [] [9%N]) (mkBlob [] [2%N])
    (mkState db1 coordinator_new sessions_new [] 0) (mkWs (mkAuth 1 1 1 "a") ∅ []) Hok Hdoc) as (r & db2 & Hi & Hok2 & _).
  exists db1, db2. vm_compute in Hi. injection Hi as <- <-. split_and!; [reflexivity|reflexivity|exact Hok2|reflexivity].
Defined.
