(* ===== verification/CompactFacts.v ===== *)
(** Compaction and the snapshot floor: deleting the rows below a snapshot's
    floor changes no answer a device can get, and the floor a snapshot is
    asked for spares every device that is behind. *)
From S2P Require Import Prelude.
From S2P Require Import Wire.
From S2P Require Import Tables.
From S2P Require Import AuthDb.
From S2P Require Import ServerDb.
From S2P Require Import Coordinator.
From S2P Require Import Sessions.
From S2P Require Import Ws.
From S2P Require Import AuthFacts.
From S2P Require Import StreamFacts.
From S2P Require Import SnapshotFacts.

(** ** Pulls after a compaction *)

Lemma pull_frames_more fuel fuel' doc cursor db fs :
  fuel <= fuel' -> pull_frames fuel doc cursor db = Some fs -> pull_frames fuel' doc cursor db = Some fs.
Proof.
  revert fuel' cursor fs. induction fuel as [|fuel IH]; intros fuel' cursor fs Hle; [done|].
  destruct fuel' as [|fuel']; [lia|]. cbn [pull_frames]. destruct (negb _); [done|].
  destruct (pull_frames fuel _ _ _) as [gs|] eqn:E; [|done].
  rewrite (IH fuel' _ gs); [done|lia|done].
Qed.

(** Where two databases hold the same rows past the cursor, they serve the
    same frames. *)
Lemma pull_frames_ext doc db db' :
  stream_ok db -> (next_seq db doc <= 2 ^ 63)%Z ->
  forall fuel cursor, rows_after db' doc (as_i64 cursor) = rows_after db doc (as_i64 cursor) ->
  pull_frames fuel doc cursor db' = pull_frames fuel doc cursor db.
Proof.
  intros Hok Hmax. induction fuel as [|fuel IH]; intros cursor Hrows; [done|]. cbn [pull_frames].
  assert (Hb : fetch_updates_batch doc cursor db' = fetch_updates_batch doc cursor db).
  { unfold fetch_updates_batch. by rewrite Hrows. }
  rewrite Hb. destruct (negb _) eqn:Em; [done|]. f_equal. apply IH. apply negb_false_iff in Em.
  destruct (fetch_next db doc cursor Hok Hmax Em) as (k & r & _ & _ & Hle & Hl & Hd). cbn zeta in *.
  rewrite Hd, <- Hrows. apply (rows_after_next db' doc (as_i64 cursor) k _ r); [done|by rewrite Hrows].
Qed.

(** The floor of the latest snapshot, where compaction stops. *)
Definition floor_of (db : Db) (doc : Uuid) : option Z := sn_floor <$> latest_row db doc.

Definition dead_row (db : Db) (doc d : Uuid) (z : Z) : Prop :=
  match floor_of db doc with Some f => d = doc /\ (z <= f)%Z | None => False end.
#[export] Instance dead_row_dec db doc d z : base.Decision (dead_row db doc d z).
Proof. unfold dead_row. destruct (floor_of db doc); apply _. Defined.

Lemma compact_rows doc db d z :
  db_updates (compact_doc doc db).2 !! (d, z)
  = if decide (dead_row db doc d z) then None else db_updates db !! (d, z).
Proof.
  unfold compact_doc, dead_row. change (sn_floor <$> latest_row db doc) with (floor_of db doc).
  case_decide as Hd; destruct (floor_of db doc) as [f|]; try done; cbn.
  - apply map_lookup_filter_None. right. intros r _ Hn. by apply Hn.
  - destruct (db_updates db !! (d, z)) as [r|] eqn:E.
    + by apply map_lookup_filter_Some.
    + apply map_lookup_filter_None. by left.
Qed.

(** The rows past a cursor that is not below the floor all stay. *)
Lemma compact_rows_after doc db d since :
  (forall f, floor_of db doc = Some f -> d = doc -> (f <= since)%Z) ->
  rows_after (compact_doc doc db).2 d since = rows_after db d since.
Proof.
  intros Hf. apply (StronglySorted_unique_strong row_le).
  - intros [z1 r1] [z2 r2] H1 H2 L1 L2. unfold row_le in *. cbn in *. assert (z1 = z2) as -> by lia.
    apply list_elem_of_filter in H1 as [_ H1%elem_of_select], H2 as [_ H2%elem_of_select].
    rewrite compact_rows in H1. case_decide; congruence.
  - apply rows_after_sorted.
  - apply rows_after_sorted.
  - apply NoDup_Permutation.
    + apply NoDup_filter, (NoDup_fmap_1 fst), NoDup_select.
    + apply NoDup_filter, (NoDup_fmap_1 fst), NoDup_select.
    + intros [z r]. unfold rows_after. rewrite !list_elem_of_filter, !elem_of_select, compact_rows. cbn.
      case_decide as Hd; [|done]. unfold dead_row in Hd. destruct (floor_of db doc) as [f|]; [|done].
      destruct Hd as [-> Hz]. specialize (Hf _ eq_refl eq_refl). split; [by intros [_ ?]|lia].
Qed.

Lemma compact_kept doc db :
  let db' := (compact_doc doc db).2 in
  db_snapshots db' = db_snapshots db /\ db_sequences db' = db_sequences db
  /\ db_last_id db' = db_last_id db /\ db_frontiers db' = db_frontiers db /\ db_auth db' = db_auth db
  /\ (stream_ok db -> stream_ok db').
Proof.
  intros db'. assert (Hsame : db_snapshots db' = db_snapshots db /\ db_sequences db' = db_sequences db
    /\ db_last_id db' = db_last_id db /\ db_frontiers db' = db_frontiers db /\ db_auth db' = db_auth db).
  { unfold db', compact_doc. by destruct (sn_floor <$> latest_row db doc). }
  destruct Hsame as (E1 & E2 & E3 & E4 & E5). split_and!; try done. intros [K1 K2 K3 K4].
  assert (Hn : forall d, next_seq db' d = next_seq db d) by (intros; unfold next_seq; by rewrite E2).
  assert (Hr : forall d z r, db_updates db' !! (d, z) = Some r -> db_updates db !! (d, z) = Some r).
  { intros d z r. unfold db'. rewrite compact_rows. by case_decide. }
  split.
  - intros d z r Hz. rewrite Hn. by eapply K1, Hr.
  - intros d z1 z2 r1 r2 H1%Hr H2%Hr. by eapply K2.
  - intros d. rewrite Hn. apply K3.
  - intros d z r. unfold db'. rewrite compact_rows. case_decide as Hd; [done|]. intros Hrow Hz. rewrite Hn in Hz.
    rewrite compact_rows, decide_False; [by eapply K4|]. unfold dead_row in *. destruct (floor_of db doc); [|done]. lia.
Qed.

Lemma latest_floor_of db doc m : Forall (fun r => i64_range (sn_floor r)) (db_snapshots db) ->
  latest_snapshot_meta doc db = Some m -> exists f, floor_of db doc = Some f /\ f = as_i64 (lm_compaction_floor_seq m).
Proof.
  unfold latest_snapshot_meta, floor_of, latest_row. intros Hr Hm.
  destruct (last (doc_snapshots db doc)) as [row|] eqn:El; [|done]. injection Hm as <-. eexists. split; [done|]. cbn.
  symmetry. apply as_i64_u64. rewrite Forall_forall in Hr. apply Hr.
  apply last_Some in El as (l & El). assert (Hin : row ∈ doc_snapshots db doc) by (rewrite El; apply elem_of_app; right; by left).
  by apply list_elem_of_filter in Hin as [_ Hin].
Qed.

(** The frames of a pull from a cursor no lower than the floor. *)
Lemma compact_pull_frames doc db d since :
  stream_ok db -> (next_seq db d <= 2 ^ 63)%Z ->
  (forall f, floor_of db doc = Some f -> d = doc -> (f <= as_i64 since)%Z) ->
  let db' := (compact_doc doc db).2 in
  pull_frames (pull_fuel d db') d since db' = pull_frames (pull_fuel d db) d since db.
Proof.
  intros Hok Hmax Hf db'. destruct (compact_kept doc db) as (_ & Eseq & _ & _ & _ & Hok'). fold db' in Eseq, Hok'. specialize (Hok' Hok).
  assert (Hmax' : (next_seq db' d <= 2 ^ 63)%Z) by (unfold next_seq in *; by rewrite Eseq).
  destruct (pull_frames_spec db' d Hok' Hmax' (pull_fuel d db') since) as (init' & us' & E' & _);
    [apply Nat.lt_succ_r, length_filter|].
  destruct (pull_frames_spec db d Hok Hmax (pull_fuel d db) since) as (init & us & E & _);
    [apply Nat.lt_succ_r, length_filter|].
  pose proof (pull_frames_ext d db db' Hok Hmax (pull_fuel d db + pull_fuel d db') since
    (compact_rows_after doc db d _ Hf)) as Hext.
  rewrite E, E'. apply (pull_frames_more _ (pull_fuel d db + pull_fuel d db')) in E, E'; [|lia..]. congruence.
Qed.

(** C10: What a client sees of a compaction: nothing. Running the compaction that an
    accepted snapshot spawned deletes only rows of its document at or below
    the floor of the latest snapshot; every pull, of any document from any
    cursor, gets the very frames it got before (below the floor still the
    same [SnapshotRequired]), so does every bootstrap, and the next sequence
    number handed out is the same. *)
Theorem compaction_invisible doc rest d since st ws :
  stream_ok (st_db st) -> snapshots_ok (st_db st) -> (next_seq (st_db st) d <= 2 ^ 63)%Z -> is_i63 since ->
  st_compactions st = doc :: rest ->
  let st' := run_compaction st in
  (let r := pull_updates d since (st, ws) in pull_updates d since (st', ws) = (r.1, (st', r.2.2)))
  /\ (let r := pull_snapshot d (st, ws) in pull_snapshot d (st', ws) = (r.1, (st', r.2.2)))
  /\ next_seq (st_db st') d = next_seq (st_db st) d
  /\ (forall z, db_updates (st_db st') !! (d, z) = if decide (dead_row (st_db st) doc d z) then None else db_updates (st_db st) !! (d, z)).
Proof.
  intros Hok Hsn Hmax H63 Ec st'. assert (Edb : st_db st' = (compact_doc doc (st_db st)).2) by (unfold st', run_compaction; by rewrite Ec).
  destruct (compact_kept doc (st_db st)) as (Esn & Eseq & _). rewrite <- Edb in Esn, Eseq.
  assert (Esnaps : forall x, doc_snapshots (st_db st') x = doc_snapshots (st_db st) x) by (intros x; unfold doc_snapshots; by rewrite Esn).
  assert (Emeta : latest_snapshot_meta d (st_db st') = latest_snapshot_meta d (st_db st)).
  { unfold latest_snapshot_meta, latest_row. by rewrite Esnaps. }
  split_and!.
  - unfold pull_updates, mbind, W_bind, get_w. cbn [fst snd]. rewrite Emeta.
    assert (Hsend : (forall f, floor_of (st_db st) doc = Some f -> d = doc -> (f <= as_i64 since)%Z) ->
      default [] (pull_frames (pull_fuel d (st_db st')) d since (st_db st'))
      = default [] (pull_frames (pull_fuel d (st_db st)) d since (st_db st))).
    { intros Hf. rewrite Edb. by rewrite compact_pull_frames. }
    destruct (latest_snapshot_meta d (st_db st)) as [m|] eqn:Em.
    + destruct (since <? lm_compaction_floor_seq m)%N eqn:Eb; [done|]. apply N.ltb_ge in Eb.
      rewrite Hsend, !send_all_spec; [done|]. intros f Hf ->.
      destruct (latest_floor_of _ _ _ (sk_floor _ Hsn) Em) as (f' & Hf' & ->). rewrite Hf in Hf'. injection Hf' as ->.
      unfold is_i63 in H63. rewrite !as_i64_small by (unfold is_i63; lia). lia.
    + rewrite Hsend, !send_all_spec; [done|]. intros f Hf ->. unfold latest_snapshot_meta, floor_of in *.
      by destruct (latest_row (st_db st) doc).
  - unfold pull_snapshot, mbind, W_bind, get_w. cbn [fst snd].
    assert (snapshot_chain d (st_db st') = snapshot_chain d (st_db st)) as -> by (unfold snapshot_chain; by rewrite Esnaps).
    destruct (snapshot_chain d (st_db st)); [by rewrite !send_all_spec|done].
  - unfold next_seq. by rewrite Eseq.
  - intros z. rewrite Edb. apply compact_rows.
Qed.

(** ** The floor a snapshot is asked for *)

Lemma foldr_min z l : foldr Z.min z l ∈ z :: l /\ forall x, x ∈ z :: l -> (foldr Z.min z l <= x)%Z.
Proof.
  induction l as [|y l [IH1 IH2]]; cbn; [split; [by left|by intros x ->%list_elem_of_singleton]|]. split.
  - destruct (Z.min_spec y (foldr Z.min z l)) as [[_ ->]|[_ ->]]; [by right; left|].
    apply elem_of_cons in IH1 as [->|IH1]; [by left|by right; right].
  - intros x Hx. rewrite !elem_of_cons in Hx.
    assert (x = y \/ x ∈ z :: l) as [->|Hx'] by (rewrite elem_of_cons; tauto); [|specialize (IH2 _ Hx')]; lia.
Qed.

Lemma sql_min_spec l m : sql_min l = Some m -> m ∈ l /\ forall x, x ∈ l -> (m <= x)%Z.
Proof. destruct l as [|z l]; [done|]. intros [= <-]. apply foldr_min. Qed.

(** A device that an active membership of the document brings. *)
Definition member_device (t : AuthTables) (doc device : Uuid) : Prop :=
  exists r, at_devices t !! device = Some r /\ member_of doc (dv_account r) t = true.

Lemma elem_of_member_devices db doc device : device ∈ member_devices db doc <-> member_device (db_auth db) doc device.
Proof.
  unfold member_devices, member_device. rewrite list_elem_of_fmap. split.
  - intros ([k r] & -> & [Hm Hin%elem_of_map_to_list]%list_elem_of_filter). by exists r.
  - intros (r & Hr & Hm). exists (device, r). split; [done|]. apply list_elem_of_filter. split; [done|].
    by apply elem_of_map_to_list.
Qed.

(** What the server knows a device to have stored: for the one that acks now,
    what it says. *)
Definition known_ack (db : Db) (doc own : Uuid) (acked : N) (device : Uuid) : Z :=
  if decide (device = own) then as_i64 acked else default 0%Z (db_frontiers db !! (device, doc)).

Definition acks_fit (db : Db) : Prop := map_Forall (fun _ z => (0 <= z < 2 ^ 63)%Z) (db_frontiers db).

Lemma known_ack_fits db doc own acked device :
  acks_fit db -> is_i63 acked -> (0 <= known_ack db doc own acked device < 2 ^ 63)%Z.
Proof.
  intros Hf Ha. unfold known_ack. case_decide; [rewrite as_i64_small by done; unfold is_i63 in Ha; lia|].
  destruct (db_frontiers db !! (device, doc)) as [z|] eqn:E; [by apply (Hf _ _ E)|cbn; lia].
Qed.

Lemma doc_horizon_spec db doc own acked :
  acks_fit db -> is_i63 acked ->
  let h := doc_horizon doc own acked db in
  (forall device, member_device (db_auth db) doc device -> (Z.of_N h <= known_ack db doc own acked device)%Z)
  /\ ((exists device, member_device (db_auth db) doc device /\ Z.of_N h = known_ack db doc own acked device) \/ h = 0%N).
Proof.
  intros Hf Ha h. unfold h, doc_horizon. fold (known_ack db doc own acked).
  destruct (sql_min (known_ack db doc own acked <$> member_devices db doc)) as [m|] eqn:Em.
  - destruct (sql_min_spec _ _ Em) as [(x & -> & Hx)%list_elem_of_fmap Hle]. cbn.
    pose proof (known_ack_fits db doc own acked x Hf Ha) as Hr.
    assert (Hm : Z.of_N (as_u64 (known_ack db doc own acked x)) = known_ack db doc own acked x).
    { unfold as_u64. rewrite Z.mod_small by lia. lia. }
    rewrite Hm. split.
    + intros d Hd. apply Hle, list_elem_of_fmap_2. by apply elem_of_member_devices.
    + left. exists x. split; [by apply elem_of_member_devices|done].
  - split; [|by right]. intros d Hd%elem_of_member_devices.
    destruct (member_devices db doc); [by apply elem_of_nil in Hd|done].
Qed.


(** ** Concrete runs *)

(** Three rows and a snapshot of them all whose floor is 2. *)
Definition snapped_db : Db := landed pulled_db 5 3 2 None (mkBlob [] [9%N]) (mkBlob [] [8%N]).

Lemma snapped_db_ok : stream_ok snapped_db /\ snapshots_ok snapped_db.
Proof.
  assert (Hok : stream_ok pulled_db) by (apply pushed_db_ok; cbn; lia). split.
  - destruct Hok as [K1 K2 K3 K4]. by split.
  - apply landed_ok; [|done]. split; [constructor|constructor|done|done|constructor].
Qed.

(** Compaction leaves row 3; a device at 2 still gets it, one at 0 is still
    sent to the snapshot. *)
Lemma compaction_invisible_witness :
  let st := mkState snapped_db coordinator_new sessions_new [5%N] 0 in
  let ws := mkWs (mkAuth 1 1 1 "a") ∅ [] in
  ws_socket (pull_updates 5 2 (run_compaction st, ws)).2.2 = [UpdatesBatch 5 [mkStored 3 (mkBlob [] [3%N])] true]
  /\ ws_socket (pull_updates 5 0 (run_compaction st, ws)).2.2 = [SnapshotRequired 5 3]
  /\ db_updates (st_db (run_compaction st)) !! (5, 2%Z)%N = None
  /\ is_Some (db_updates (st_db st) !! (5, 2%Z)%N).
Proof.
  intros st ws. destruct snapped_db_ok as [K1 K2].
  destruct (compaction_invisible 5 [] 5 2 st ws K1 K2) as (H2 & _ & _ & Hrows); [by vm_compute|by vm_compute|done|].
  destruct (compaction_invisible 5 [] 5 0 st ws K1 K2) as (H0 & _); [by vm_compute|by vm_compute|done|].
  cbn zeta in H2, H0. rewrite H2, H0, Hrows. split_and!; try by vm_compute. vm_compute. by eexists.
Defined.

(** Document 7 of accounts 1 and 2, three rows; device 20 of account 2 has
    stored two of them. *)
Definition shared_db : Db :=
  let t := match accept_invite 2 [90]%N 500 [1]%N [2]%N demo_tables with Ok r => r.2 | Err _ => auth_empty end in
  match insert_updates 7 10 [mkPush 70 (mkBlob [] [1%N]); mkPush 71 (mkBlob [] [2%N]); mkPush 72 (mkBlob [] [3%N])]
          (with_auth (fun _ => t) db_empty) with
  | Ok (_, db) => with_frontiers <[(20, 7)%N := 2%Z]> db
  | Err _ => db_empty
  end.


(** The casts let a client break this: the first ack of a device, at 2^63, is
    stored as a negative number, the least of all, which the cast back makes
    a floor above every row. *)
Example huge_ack_raises_the_floor :
  let db := with_frontiers (fun _ => ∅) shared_db in
  match advance_last_acked_seq 20 7 (2 ^ 63) db with
  | Ok db' => doc_horizon 7 10 3 db = 0%N /\ doc_horizon 7 10 3 db' = (2 ^ 63)%N
      /\ (evaluate_snapshot_decision 7 3 (mkState db' (with_config 3 100) sessions_new [] 0, mkWs (mkAuth 1 10 5 "a") ∅ [])).1
         = Ok (Issue 1 3 (2 ^ 63) None)
  | Err _ => False
  end.
Proof. vm_compute. split_and!; reflexivity. Qed.
