(* ===== verification/Routes.v ===== *)
(** The HTTP routes of the server (server/src/http): accounts and passwords,
    documents, sharing, devices. A request arrives decoded: ids parsed, tokens
    from hex, the email normalised; a token is validated against the devices
    first. The hash is a parameter, fresh ids and tokens are arguments, the
    clock is the state's. Responses are the values the bodies are built from;
    cookies and logging are left out. *)
From S2P Require Import Prelude.
From S2P Require Import Wire.
From S2P Require Import Tables.
From S2P Require Import AuthDb.
From S2P Require Import ServerDb.
From S2P Require Import Coordinator.
From S2P Require Import Sessions.
From S2P Require Import Ws.

Inductive ApiError : Type :=
  | BadRequest (e : string)
  | InvalidCredentials
  | AccountExists
  | NotFound
  | Forbidden (e : string)
  | Conflict (e : string)
  | Gone (e : string)
  | RecoveryNotEnrolled
  | RecoverySessionInvalid
  | Unauthorized
  | Internal (e : string).

(** A handler: what it answers and the state it leaves. *)
Definition R (A : Type) : Type := AppState -> result ApiError A * AppState.
#[export] Instance R_ret : MRet R := fun A a st => (Ok a, st).
#[export] Instance R_bind : MBind R := fun A B f m st =>
  match m st with (Ok a, st) => f a st | (Err e, st) => (Err e, st) end.

Definition refuse {A} (e : ApiError) : R A := fun st => (Err e, st).
Definition read_auth {A} (f : AuthTables -> A) : R A := fun st => (Ok (f (db_auth (st_db st))), st).
Definition now_millis : R Z := fun st => (Ok (Z.of_N (st_now st)), st).
Definition with_db (db : Db) (st : AppState) : AppState :=
  mkState db (st_coordinator st) (st_sessions st) (st_compactions st) (st_now st).

(** A transaction of the database: a failure becomes [e]'s answer. *)
Definition db_tx {A} (err : string -> ApiError) (f : Db -> result string (A * Db)) : R A := fun st =>
  match f (st_db st) with
  | Ok (a, db) => (Ok a, with_db db st)
  | Err e => (Err (err e), st)
  end.
Definition auth_tx {A} (err : string -> ApiError) (f : AuthTables -> result string (A * AuthTables)) : R A :=
  db_tx err (fun db => match f (db_auth db) with
                       | Ok (a, t) => Ok (a, with_auth (fun _ => t) db)
                       | Err e => Err e
                       end).
Definition auth_write {A} (f : AuthTables -> A * AuthTables) : R A := auth_tx Internal (fun t => Ok (f t)).
Definition sessions_call (f : Sessions -> nat * Sessions) : R unit := fun st =>
  (Ok tt, mkState (st_db st) (st_coordinator st) (f (st_sessions st)).2 (st_compactions st) (st_now st)).

Definition unwrap_or_refuse {A} (o : option A) (e : ApiError) : R A :=
  match o with Some a => mret a | None => refuse e end.
Definition guard_r (p : bool) (e : ApiError) : R unit := if p then mret tt else refuse e.
Definition blank (s : string) : bool := bool_decide (trim s = "").

(** Equal lengths and no differing bit. *)
Fixpoint xor_diff (a b : octets) (diff : N) : N :=
  match a, b with
  | x :: a, y :: b => xor_diff a b (N.lor diff (N.lxor x y))
  | _, _ => diff
  end.
Definition constant_time_eq (a b : octets) : bool :=
  if negb (length a =? length b) then false else (xor_diff a b 0 =? 0)%N.

Section routes.
Context (sha256 : octets -> octets).

(** ** Authentication *)

(** The extractor: an unknown token is refused, a known one touches its
    device. *)
Definition authenticate (token : octets) (ip : option string) : R DeviceAuth :=
  found ← read_auth (find_device_by_token_hash (sha256 token));
  lookup ← unwrap_or_refuse found Unauthorized;
  now ← now_millis;
  auth_write (fun t => (tt, touch_device_last_seen (dl_device lookup) ip now t)) ;;
  mret (mkAuth (dl_account lookup) (dl_device lookup) (dl_primary_doc lookup) (dl_email lookup)).

(** ** Accounts *)

Record SignupRequest : Type := mkSignup {
  sr_email : string;
  sr_master_salt : octets;
  sr_kdf : KdfParams;
  sr_auth_secret : octets;
  sr_wrapped_dek : octets;
  sr_wrapped_dek_nonce : octets;
  sr_recovery_salt : octets;
  sr_recovery_auth_secret : octets;
  sr_recovery_wrapped_dek : octets;
  sr_recovery_wrapped_dek_nonce : octets;
  sr_device_name : string;
  sr_device_kind : string;
  sr_primary_doc : option Uuid;
}.

Definition signup_error (e : string) : ApiError :=
  if decide (e = "account_exists") then AccountExists
  else if decide (e = "doc_exists") then Conflict "primary_doc_id already exists"
  else Internal e.

Definition signup (req : SignupRequest) (account device fresh_doc : Uuid) (device_token : octets) : R CreatedAccount :=
  guard_r (negb (blank (sr_device_name req))) (BadRequest "device_name is required") ;;
  guard_r (negb (blank (sr_device_kind req))) (BadRequest "device_kind is required") ;;
  now ← now_millis;
  auth_tx signup_error (create_account account device fresh_doc now (mkNewAccount (sr_email req)
    (sha256 (sr_auth_secret req)) (sr_master_salt req) (sr_kdf req) (sr_wrapped_dek req) (sr_wrapped_dek_nonce req)
    (Some (sr_recovery_salt req)) (Some (sha256 (sr_recovery_auth_secret req)))
    (Some (sr_recovery_wrapped_dek req)) (Some (sr_recovery_wrapped_dek_nonce req))
    (sr_device_name req) (sr_device_kind req) (sha256 device_token) (sr_primary_doc req))).

Definition prelogin (email : string) : R (octets * KdfParams * option octets) :=
  found ← read_auth (find_account_by_email email);
  account ← unwrap_or_refuse found NotFound;
  mret (ac_password_salt account.2, ac_kdf account.2, ac_recovery_salt account.2).

Record LoginResponse : Type := mkLogin {
  lr_account : Uuid;
  lr_primary_doc : Uuid;
  lr_memberships : list (Uuid * MemberRow);
  lr_recovery_present : bool;
  lr_device : option Uuid;
}.

(** A device is registered when one is asked for: its name and kind. *)
Definition login (email : string) (auth_secret : octets) (device : option (string * string)) (fresh_device : Uuid)
    (device_token : octets) : R LoginResponse :=
  found ← read_auth (find_account_by_email email);
  account ← unwrap_or_refuse found InvalidCredentials;
  guard_r (constant_time_eq (sha256 auth_secret) (ac_password_hash account.2)) InvalidCredentials ;;
  now ← now_millis;
  registered ← match device with
    | None => mret None
    | Some (name, kind) =>
        guard_r (negb (blank name)) (BadRequest "device.name is required") ;;
        guard_r (negb (blank kind)) (BadRequest "device.kind is required") ;;
        auth_tx Internal (fun t => let? t := create_device account.1 fresh_device name kind (sha256 device_token) now t in
                                   Ok (Some fresh_device, t))
    end;
  memberships ← read_auth (list_memberships account.1);
  mret (mkLogin account.1 (ac_primary_doc account.2) memberships
          (bool_decide (is_Some (ac_recovery_auth_hash account.2))) registered).

Definition RECOVERY_SESSION_TTL_MILLIS : Z := 15 * 60 * 1000.

Definition recover (email : string) (recovery_auth_secret session_token : octets)
    : R (Uuid * Uuid * list (Uuid * octets * octets)) :=
  found ← read_auth (find_account_by_email email);
  account ← unwrap_or_refuse found InvalidCredentials;
  hash ← unwrap_or_refuse (ac_recovery_auth_hash account.2) RecoveryNotEnrolled;
  guard_r (constant_time_eq (sha256 recovery_auth_secret) hash) InvalidCredentials ;;
  memberships ← read_auth (list_memberships account.1);
  let doc_keys := omap (fun m : Uuid * MemberRow =>
    if decide (m.1 = ac_primary_doc account.2) then
      dek ← mr_recovery_wrapped_dek m.2; nonce ← mr_recovery_wrapped_dek_nonce m.2; Some (m.1, dek, nonce)
    else None) memberships in
  guard_r (negb (bool_decide (doc_keys = [])))
    (Internal "recovery enrolled but the primary membership carries no recovery wrap") ;;
  now ← now_millis;
  auth_tx Internal (fun t => let? t := create_recovery_session account.1 (sha256 session_token) now
                                         RECOVERY_SESSION_TTL_MILLIS t in Ok (tt, t)) ;;
  mret (account.1, ac_primary_doc account.2, doc_keys).

Definition doc_keys_mismatch : ApiError := BadRequest "new_doc_keys must name exactly the account's primary doc".

Definition password_change (auth : DeviceAuth) (current_auth_secret new_auth_secret new_master_salt : octets)
    (kdf : KdfParams) (doc_keys : list DocKeyUpdate) : R unit :=
  found ← read_auth (find_account_by_id (au_account_id auth));
  account ← unwrap_or_refuse found Unauthorized;
  guard_r (constant_time_eq (sha256 current_auth_secret) (ac_password_hash account)) InvalidCredentials ;;
  out ← auth_tx Internal (update_password (au_account_id auth)
    (mkPasswordUpdate (sha256 new_auth_secret) new_master_salt kdf doc_keys));
  match out with PasswordUpdated => mret tt | DocKeysMismatch _ _ => refuse doc_keys_mismatch end.

Definition password_reset (session_token new_auth_secret new_master_salt : octets) (kdf : KdfParams)
    (doc_keys : list DocKeyUpdate) (device_name device_kind : string) (fresh_device : Uuid) (device_token : octets)
    : R (Uuid * Uuid) :=
  guard_r (negb (blank device_name)) (BadRequest "device_name is required") ;;
  guard_r (negb (blank device_kind)) (BadRequest "device_kind is required") ;;
  now ← now_millis;
  out ← auth_tx Internal (reset_password_with_recovery_session (sha256 session_token) now
    (mkPasswordUpdate (sha256 new_auth_secret) new_master_salt kdf doc_keys));
  match out with
  | SessionInvalid => refuse RecoverySessionInvalid
  | ResetKeysMismatch _ _ => refuse doc_keys_mismatch
  | PasswordReset account =>
      auth_tx Internal (fun t => let? t := create_device account fresh_device device_name device_kind
                                             (sha256 device_token) now t in Ok (tt, t)) ;;
      found ← read_auth (find_account_by_id account);
      row ← unwrap_or_refuse found (Internal "account missing after password reset");
      mret (fresh_device, ac_primary_doc row)
  end.

Definition logout (auth : DeviceAuth) : R unit :=
  db_tx Internal (fun db => Ok (revoke_device (au_account_id auth) (au_device_id auth) db)) ;; mret tt.

Fixpoint close_purged (docs : list Uuid) (device : Uuid) : R unit :=
  match docs with
  | [] => mret tt
  | doc :: docs => sessions_call (close_doc doc (Some device) "account deleted") ;; close_purged docs device
  end.
Fixpoint close_left (docs : list Uuid) (account : Uuid) : R unit :=
  match docs with
  | [] => mret tt
  | doc :: docs => sessions_call (close_for_account doc account "account deleted") ;; close_left docs account
  end.

Definition delete_account_route (auth : DeviceAuth) (current_auth_secret : octets) : R unit :=
  found ← read_auth (find_account_by_id (au_account_id auth));
  account ← unwrap_or_refuse found Unauthorized;
  guard_r (constant_time_eq (sha256 current_auth_secret) (ac_password_hash account)) InvalidCredentials ;;
  deleted ← db_tx Internal (delete_account (au_account_id auth));
  close_purged (da_purged_docs deleted) (au_device_id auth) ;;
  close_left (da_left_docs deleted) (au_account_id auth).

End routes.

(** ** Documents *)

Definition empty_octets (o : octets) : bool := bool_decide (o = []).

Definition list_docs (auth : DeviceAuth) : R (Uuid * list (Uuid * MemberRow)) :=
  memberships ← read_auth (list_memberships (au_account_id auth));
  mret (au_primary_doc_id auth, memberships).

Definition create_doc_route (auth : DeviceAuth) (dek nonce : octets) (fresh_doc : Uuid) : R Uuid :=
  guard_r (negb (empty_octets dek || empty_octets nonce)) (BadRequest "wrapped_dek is required") ;;
  now ← now_millis;
  auth_tx Internal (create_doc (au_account_id auth) fresh_doc now dek nonce).

Definition delete_doc_route (auth : DeviceAuth) (doc : Uuid) : R unit :=
  guard_r (negb (doc =? au_primary_doc_id auth)%N) (Forbidden "the primary doc cannot be deleted") ;;
  out ← db_tx Internal (delete_doc (au_account_id auth) doc);
  match out with
  | DocDeleted => sessions_call (close_doc doc (Some (au_device_id auth)) "doc deleted")
  | DocNotOwner => refuse NotFound
  end.

(** ** Sharing *)

(** [i64::try_from], [checked_mul(1000)], then the clamp. *)
Definition invite_ttl (expires_in_secs : option N) : Z :=
  match expires_in_secs with
  | None => DEFAULT_TTL_MILLIS
  | Some secs =>
      let millis := if (Z.of_N secs * 1000 <? 2 ^ 63)%Z then (Z.of_N secs * 1000)%Z else MAX_TTL_MILLIS in
      Z.max MIN_TTL_MILLIS (Z.min millis MAX_TTL_MILLIS)
  end.

Definition create_invite_route (auth : DeviceAuth) (doc : Uuid) (id dek nonce : octets) (expires_in_secs : option N)
    : R Z :=
  guard_r (negb (doc =? au_primary_doc_id auth)%N) (Forbidden "the primary doc cannot be shared") ;;
  guard_r (negb (empty_octets dek || empty_octets nonce)) (BadRequest "wrapped_dek is required") ;;
  now ← now_millis;
  out ← auth_tx Internal (create_invite (au_account_id auth) doc now (mkNewInvite id dek nonce (invite_ttl expires_in_secs)));
  match out with
  | InviteCreated expires_at => mret expires_at
  | InviteNotOwner => refuse NotFound
  | InviteDuplicate => refuse (Conflict "invite id already exists")
  end.

Definition list_invites_route (auth : DeviceAuth) (doc : Uuid) : R (list (octets * InviteRow)) :=
  rows ← read_auth (list_invites (au_account_id auth) doc);
  unwrap_or_refuse rows NotFound.

Definition revoke_invite_route (auth : DeviceAuth) (doc : Uuid) (id : octets) : R unit :=
  gone ← auth_write (revoke_invite (au_account_id auth) doc id);
  guard_r gone NotFound.

(** The first scalar of a string: a byte and its continuation bytes. *)
Fixpoint continuation (bs : list N) : list N :=
  match bs with b :: bs' => if ((128 <=? b) && (b <? 192))%N then b :: continuation bs' else [] | [] => [] end.
Definition first_char (s : string) : string :=
  match bytes s with [] => "" | b :: bs => of_bytes (b :: continuation bs) end.
Definition ELLIPSIS : string := of_bytes [226; 128; 166]%N.
Definition mask_email (email : string) : string :=
  match split_once "@" email with
  | Some (user, domain) => (first_char user ++ ELLIPSIS ++ "@" ++ domain)%string
  | None => ELLIPSIS
  end.

Definition fetch_invite_route (id : octets) : R (Uuid * octets * octets * Z * string) :=
  now ← now_millis;
  out ← read_auth (fetch_invite id now);
  match out with
  | InviteOpen doc dek nonce expires_at email => mret (doc, dek, nonce, expires_at, mask_email email)
  | InviteNotFound => refuse NotFound
  | InviteExpired => refuse (Gone "invite expired")
  | InviteConsumed => refuse (Gone "invite already used")
  end.

Definition accept_invite_route (auth : DeviceAuth) (id dek nonce : octets) : R Uuid :=
  guard_r (negb (empty_octets dek || empty_octets nonce)) (BadRequest "wrapped_dek is required") ;;
  now ← now_millis;
  out ← auth_tx Internal (accept_invite (au_account_id auth) id now dek nonce);
  match out with
  | Joined doc => mret doc
  | AcceptNotFound => refuse NotFound
  | AcceptExpired => refuse (Gone "invite expired")
  | AcceptConsumed => refuse (Gone "invite already used")
  | AlreadyMember _ => refuse (Conflict "already a member")
  end.

Definition list_members_route (auth : DeviceAuth) (doc : Uuid) : R (list (Uuid * string * MemberRole * Z)) :=
  rows ← read_auth (list_members (au_account_id auth) doc);
  unwrap_or_refuse rows NotFound.

Definition remove_member_route (auth : DeviceAuth) (doc target : Uuid) : R unit :=
  guard_r (negb (doc =? au_primary_doc_id auth)%N) (Forbidden "the primary doc has no members to remove") ;;
  now ← now_millis;
  out ← auth_write (remove_member (au_account_id auth) doc target now);
  match out with
  | MemberRemoved => sessions_call (close_for_account doc target "membership removed")
  | CallerNotMember | TargetNotMember => refuse NotFound
  | CallerNotOwner => refuse (Forbidden "only an owner can remove members")
  | SelfRemoval => refuse (Conflict "cannot remove yourself from a doc")
  | LastOwner => refuse (Conflict "cannot remove the last owner of a doc")
  end.

(** ** Devices *)

Definition list_devices_route (auth : DeviceAuth) : R (list (Uuid * DeviceRow)) :=
  read_auth (list_devices (au_account_id auth)).

Definition register_device (sha256 : octets -> octets) (auth : DeviceAuth) (name kind : string) (fresh_device : Uuid)
    (token : octets) : R Uuid :=
  guard_r (negb (blank name)) (BadRequest "name is required") ;;
  guard_r (negb (blank kind)) (BadRequest "kind is required") ;;
  now ← now_millis;
  auth_tx Internal (fun t => let? t := create_device (au_account_id auth) fresh_device name kind (sha256 token) now t in
                             Ok (fresh_device, t)).

Definition revoke_device_route (auth : DeviceAuth) (device : Uuid) : R unit :=
  removed ← db_tx Internal (fun db => Ok (revoke_device (au_account_id auth) device db));
  guard_r removed NotFound.

Definition rename_device_route (auth : DeviceAuth) (device : Uuid) (name : string) : R unit :=
  guard_r (negb (blank name)) (BadRequest "name is required") ;;
  renamed ← auth_write (rename_device (au_account_id auth) device (trim name));
  guard_r renamed NotFound.
