(* ===== verification/Server.v ===== *)
(** The running server: the shared state and the connections, as a transition
    system over requests, frames, broadcasts, hang-ups, compactions and the
    clock (server/src/http/mod.rs, server/src/sync/ws.rs). One event is one
    step: what a handler awaits in between is not interleaved here. *)
From S2P Require Import Prelude.
From S2P Require Import Wire.
From S2P Require Import Tables.
From S2P Require Import AuthDb.
From S2P Require Import ServerDb.
From S2P Require Import Coordinator.
From S2P Require Import Sessions.
From S2P Require Import Ws.
From S2P Require Import Routes.

Record Server : Type := mkServer { sv_state : AppState; sv_conns : gmap N Ws }.

Definition server_new : Server := mkServer (mkState db_empty coordinator_new sessions_new [] 0) ∅.

(** Requests without a device token. *)
Inductive PublicRequest : Type :=
  | HSignup (req : SignupRequest) (account device fresh_doc : Uuid) (device_token : octets)
  | HLogin (email : string) (auth_secret : octets) (device : option (string * string)) (fresh_device : Uuid)
      (device_token : octets)
  | HRecover (email : string) (recovery_auth_secret session_token : octets)
  | HPasswordReset (session_token new_auth_secret new_master_salt : octets) (kdf : KdfParams)
      (doc_keys : list DocKeyUpdate) (device_name device_kind : string) (fresh_device : Uuid) (device_token : octets).

(** Requests of a device. *)
Inductive DeviceRequest : Type :=
  | HLogout
  | HDeleteAccount (current_auth_secret : octets)
  | HPasswordChange (current_auth_secret new_auth_secret new_master_salt : octets) (kdf : KdfParams)
      (doc_keys : list DocKeyUpdate)
  | HCreateDoc (dek nonce : octets) (fresh_doc : Uuid)
  | HDeleteDoc (doc : Uuid)
  | HCreateInvite (doc : Uuid) (id dek nonce : octets) (expires_in_secs : option N)
  | HRevokeInvite (doc : Uuid) (id : octets)
  | HAcceptInvite (id dek nonce : octets)
  | HRemoveMember (doc target : Uuid)
  | HRegisterDevice (name kind : string) (fresh_device : Uuid) (token : octets)
  | HRevokeDevice (device : Uuid)
  | HRenameDevice (device : Uuid) (name : string).

Inductive Event : Type :=
  | Public (req : PublicRequest)
  | Authed (token : octets) (ip : option string) (req : DeviceRequest)
  | Connect (conn : N) (token : octets) (ip : option string)
  | Receive (conn : N) (frame : ClientFrame)
  | Deliver (conn : N) (doc : Uuid)
  | Hangup (conn : N)
  | Compact
  | Tick (now : N).

Section server.
Context (sha256 : octets -> octets).

Definition serve_public (req : PublicRequest) : R unit :=
  match req with
  | HSignup req account device fresh_doc token => signup sha256 req account device fresh_doc token ;; mret tt
  | HLogin email secret device fresh_device token => login sha256 email secret device fresh_device token ;; mret tt
  | HRecover email secret token => recover sha256 email secret token ;; mret tt
  | HPasswordReset token secret salt kdf keys name kind fresh_device device_token =>
      password_reset sha256 token secret salt kdf keys name kind fresh_device device_token ;; mret tt
  end.

Definition serve_device (auth : DeviceAuth) (req : DeviceRequest) : R unit :=
  match req with
  | HLogout => logout auth
  | HDeleteAccount secret => delete_account_route sha256 auth secret
  | HPasswordChange current secret salt kdf keys => password_change sha256 auth current secret salt kdf keys
  | HCreateDoc dek nonce fresh_doc => create_doc_route auth dek nonce fresh_doc ;; mret tt
  | HDeleteDoc doc => delete_doc_route auth doc
  | HCreateInvite doc id dek nonce secs => create_invite_route auth doc id dek nonce secs ;; mret tt
  | HRevokeInvite doc id => revoke_invite_route auth doc id
  | HAcceptInvite id dek nonce => accept_invite_route auth id dek nonce ;; mret tt
  | HRemoveMember doc target => remove_member_route auth doc target
  | HRegisterDevice name kind fresh_device token => register_device sha256 auth name kind fresh_device token ;; mret tt
  | HRevokeDevice device => revoke_device_route auth device
  | HRenameDevice device name => rename_device_route auth device name
  end.

Definition serve_authed (token : octets) (ip : option string) (req : DeviceRequest) : R unit :=
  auth ← authenticate sha256 token ip;
  serve_device auth req.

(** One turn of a session's loop: an error of the handler ends it. *)
Definition session_turn (conn : N) (m : W unit) (sv : Server) : Server :=
  match sv_conns sv !! conn with
  | None => sv
  | Some ws =>
      match m (sv_state sv, ws) with
      | (Ok _, (st, ws)) => mkServer st (<[conn := ws]> (sv_conns sv))
      | (Err _, (st, ws)) => mkServer (end_session false st ws) (delete conn (sv_conns sv))
      end
  end.

Definition step_server (sv : Server) (e : Event) : Server :=
  let st := sv_state sv in
  match e with
  | Public req => mkServer (serve_public req st).2 (sv_conns sv)
  | Authed token ip req => mkServer (serve_authed token ip req st).2 (sv_conns sv)
  | Connect conn token ip =>
      match sv_conns sv !! conn, authenticate sha256 token ip st with
      | None, (Ok auth, st) => mkServer st (<[conn := mkWs auth ∅ []]> (sv_conns sv))
      | _, (_, st) => mkServer st (sv_conns sv)
      end
  | Receive conn frame => session_turn conn (handle_frame frame) sv
  | Deliver conn doc => session_turn conn (forward doc) sv
  | Hangup conn =>
      match sv_conns sv !! conn with
      | Some ws => mkServer (end_session true st ws) (delete conn (sv_conns sv))
      | None => sv
      end
  | Compact => mkServer (run_compaction st) (sv_conns sv)
  | Tick now =>
      mkServer (mkState (st_db st) (st_coordinator st) (st_sessions st) (st_compactions st) (N.max now (st_now st))) (sv_conns sv)
  end.

Definition serve (events : list Event) : Server := foldl step_server server_new events.

End server.
