(* ===== verification/ServerFacts.v ===== *)
(** The server's invariant over every run: the tables are well formed, and a
    document's subscribers are its members. *)
From S2P Require Import Prelude.
From S2P Require Import Wire.
From S2P Require Import Tables.
From S2P Require Import AuthDb.
From S2P Require Import ServerDb.
From S2P Require Import Coordinator.
From S2P Require Import Sessions.
From S2P Require Import Ws.
From S2P Require Import AuthFacts.
From S2P Require Import AccountFacts.
From S2P Require Import StreamFacts.
From S2P Require Import SnapshotFacts.
From S2P Require Import CompactFacts.
From S2P Require Import Routes.
From S2P Require Import Server.

(** ** The registry only loses subscribers *)

Definition shrinks (s s' : Sessions) : Prop := forall doc x, x ∈ subs_of s' doc -> x ∈ subs_of s doc.

#[export] Instance shrinks_refl : Reflexive shrinks.
Proof. by intros s doc x. Qed.
#[export] Instance shrinks_trans : Transitive shrinks.
Proof. intros a b c H1 H2 doc x Hx. by apply H1, H2. Qed.

Lemma subs_of_insert s doc subs d :
  subs_of (set_docs (<[doc := subs]> (ss_docs s)) s) d = if decide (d = doc) then subs else subs_of s d.
Proof. unfold subs_of. cbn. case_decide; [subst; by rewrite lookup_insert_eq|by rewrite lookup_insert_ne]. Qed.

Lemma subs_of_delete s doc d : subs_of (set_docs (delete doc (ss_docs s)) s) d = if decide (d = doc) then [] else subs_of s d.
Proof. unfold subs_of. cbn. case_decide; [subst; by rewrite lookup_delete_eq|by rewrite lookup_delete_ne]. Qed.

Lemma subs_of_channels s chans d : subs_of (set_channels chans s) d = subs_of s d.
Proof. done. Qed.

Lemma subs_of_settle doc before subs s d :
  subs_of (settle doc before subs s) d = if decide (d = doc) then subs else subs_of s d.
Proof.
  unfold settle. case_decide as Hn; [by rewrite subs_of_delete, Hn|]. case_decide; [apply subs_of_insert|].
  rewrite subs_of_channels. apply subs_of_insert.
Qed.

Lemma fan_out_stays m (told : Subscriber -> bool) keep subs : forall chans x,
  x ∈ (fan_out m told keep subs chans).1.1 -> x ∈ subs /\ (told x = true -> exists sent, keep x sent = true).
Proof.
  induction subs as [|s subs IH]; intros chans x; cbn [fan_out].
  { intros Hx. by apply not_elem_of_nil in Hx. }
  destruct (told s) eqn:Et.
  - specialize (IH (try_send (su_sub_id s) m chans).2 x). destruct (fan_out _ _ _ _ _) as [[rest n] chans']. cbn in *.
    destruct (keep s _) eqn:Ek.
    + intros [->|Hx]%elem_of_cons; [split; [by left|]; intros _; by eexists|]. destruct (IH Hx). split; [by right|done].
    + intros Hx. destruct (IH Hx). split; [by right|done].
  - specialize (IH chans x). destruct (fan_out _ _ _ _ _) as [[rest n] chans']. cbn in *.
    intros [->|Hx]%elem_of_cons; [split; [by left|]; congruence|]. destruct (IH Hx). split; [by right|done].
Qed.

Lemma unsubscribe_shrinks doc id s : shrinks s (unsubscribe doc id s).
Proof.
  intros d x. unfold unsubscribe. destruct (ss_docs s !! doc) as [before|] eqn:E; [|done].
  rewrite subs_of_settle. case_decide as Hd; [|done]. subst. intros [_ Hx]%list_elem_of_filter.
  unfold subs_of. by rewrite E.
Qed.

Lemma drop_subscription_shrinks doc id s : shrinks s (drop_subscription doc id s).
Proof. apply unsubscribe_shrinks. Qed.

Lemma broadcast_shrinks doc exclude updates s : shrinks s (broadcast doc exclude updates s).2.
Proof.
  intros d x. unfold broadcast. case_decide; [done|]. destruct (ss_docs s !! doc) as [subs|] eqn:E; [|done].
  pose proof (fan_out_stays (OFrame (UpdatesBroadcast doc updates)) (fun x => negb (su_sub_id x =? exclude)%N)
    (fun _ sent => sent) subs (ss_channels s) x) as Hf. destruct (fan_out _ _ _ _ _) as [[rest n] chans]. cbn [snd fst] in *.
  rewrite subs_of_channels, subs_of_insert. case_decide as Hd; [|done]. subst. intros Hx. destruct (Hf Hx) as [Hs _].
  unfold subs_of. by rewrite E.
Qed.

Lemma close_for_account_subs doc account reason s d x :
  x ∈ subs_of (close_for_account doc account reason s).2 d ->
  x ∈ subs_of s d /\ (d = doc -> su_account_id x <> account).
Proof.
  unfold close_for_account. destruct (ss_docs s !! doc) as [before|] eqn:E.
  - pose proof (fan_out_stays (OClose (DocClosed doc reason)) (fun x => (su_account_id x =? account)%N)
      (fun _ _ => false) before (ss_channels s) x) as Hf. destruct (fan_out _ _ _ _ _) as [[rest n] chans].
    cbn [snd fst] in *. rewrite subs_of_settle. case_decide as Hd; [|done]. subst. intros Hx. destruct (Hf Hx) as [Hs Ht].
    split; [unfold subs_of; by rewrite E|]. intros _ Ha. apply N.eqb_eq in Ha. by destruct (Ht Ha).
  - cbn [snd]. intros Hx. split; [done|]. intros -> _. unfold subs_of in Hx. rewrite E in Hx. by apply not_elem_of_nil in Hx.
Qed.

Lemma close_doc_subs doc except reason s d x :
  x ∈ subs_of (close_doc doc except reason s).2 d -> x ∈ subs_of s d /\ d <> doc.
Proof.
  unfold close_doc. destruct (ss_docs s !! doc) as [subs|] eqn:E; cbn [snd].
  - rewrite subs_of_channels, subs_of_delete. case_decide; [|done]. intros Hx. by apply not_elem_of_nil in Hx.
  - intros Hx. split; [done|]. intros ->. unfold subs_of in Hx. rewrite E in Hx. by apply not_elem_of_nil in Hx.
Qed.

Lemma subscribe_subs doc device account email s d x :
  x ∈ subs_of (subscribe doc device account email s).2 d -> x ∈ subs_of s d \/ (d = doc /\ su_account_id x = account).
Proof.
  unfold subscribe. cbn [snd]. unfold subs_of at 1. cbn [ss_docs].
  destruct (decide (d = doc)) as [->|Hd]; [|rewrite lookup_insert_ne by done; by left].
  rewrite lookup_insert_eq. cbn [default]. intros [Hx| ->%list_elem_of_singleton]%elem_of_app; [by left|by right].
Qed.

Lemma drop_all_shrinks docs s : shrinks s (drop_all docs s).
Proof.
  unfold drop_all. revert s. induction docs as [|kv docs IH]; intros s; [done|]. cbn.
  etrans; [|apply IH]. apply drop_subscription_shrinks.
Qed.

(** ** The tables *)

Record db_ok (db : Db) : Prop := {
  dk_auth : auth_ok (db_auth db);
  dk_stream : stream_ok db;
  dk_snapshots : snapshots_ok db;
}.

(** No membership ends. *)
Definition members_grow (t t' : AuthTables) : Prop :=
  forall d a, member_of d a t = true -> member_of d a t' = true.
#[export] Instance members_grow_refl : Reflexive members_grow.
Proof. by intros t d a. Qed.

Lemma stream_ok_ext db db' :
  db_updates db' = db_updates db -> db_sequences db' = db_sequences db -> stream_ok db -> stream_ok db'.
Proof.
  intros E1 E2 [K1 K2 K3 K4]. assert (Hn : forall d, next_seq db' d = next_seq db d) by (intros; unfold next_seq; by rewrite E2).
  split; setoid_rewrite Hn || idtac; rewrite ?E1; try done; intros; rewrite Hn; auto.
Qed.

Lemma snapshots_ok_ext db db' :
  db_snapshots db' = db_snapshots db -> db_last_id db' = db_last_id db -> snapshots_ok db -> snapshots_ok db'.
Proof.
  intros E1 E2 [K1 K2 K3 K4 K5]. split; rewrite ?E1, ?E2; try done. intros d. unfold doc_snapshots. rewrite E1. apply K4.
Qed.

Lemma with_auth_ok db t : db_ok db -> auth_ok t -> db_ok (with_auth (fun _ => t) db).
Proof.
  intros [K1 K2 K3] Ht. split; [done|by apply (stream_ok_ext db)|by apply (snapshots_ok_ext db)].
Qed.

Lemma insert_updates_keeps doc device blobs db ins db' :
  db_ok db -> insert_updates doc device blobs db = Ok (ins, db') -> db_ok db' /\ db_auth db' = db_auth db.
Proof.
  intros [K1 K2 K3]. unfold insert_updates. case_decide; [by intros [= _ <-]|]. intros H'.
  apply insert_all_keeps in H' as (Hs & Ha & E1 & E2); [|done]. split; [|done].
  split; [by rewrite Ha|done|by apply (snapshots_ok_ext db)].
Qed.

Lemma advance_keeps device doc seq db db' :
  db_ok db -> advance_last_acked_seq device doc seq db = Ok db' -> db_ok db' /\ db_auth db' = db_auth db.
Proof.
  intros [K1 K2 K3]. unfold advance_last_acked_seq. assert (Hf : forall f, db_ok (with_frontiers f db)).
  { intros f. split; [done|by apply (stream_ok_ext db)|by apply (snapshots_ok_ext db)]. }
  destruct (db_frontiers db !! (device, doc)).
  - intros [= <-]. destruct (_ <? _)%Z; [by split|split; [by split|done]].
  - destruct (doc_fk doc db); [|done]. destruct (require _ _); [|done]. intros [= <-]. by split.
Qed.

Lemma insert_snapshot_keeps doc up floor from vv blob db r db' :
  db_ok db -> insert_snapshot doc up floor from vv blob db = Ok (r, db') -> db_ok db' /\ db_auth db' = db_auth db.
Proof.
  intros [K1 K2 K3] H'. pose proof (insert_snapshot_ok _ _ _ _ _ _ _ _ _ K3 H') as Hs. revert H'.
  rewrite insert_snapshot_cases. case_decide; [|by intros [= _ <-]]. destruct (doc_fk doc db); [|done].
  intros [= _ <-]. split; [|done]. split; [done|by apply (stream_ok_ext db)|done].
Qed.

Lemma compact_keeps doc db : db_ok db -> db_ok (compact_doc doc db).2 /\ db_auth (compact_doc doc db).2 = db_auth db.
Proof.
  intros [K1 K2 K3]. destruct (compact_kept doc db) as (E1 & _ & E2 & _ & E3 & E4). split; [|done].
  split; [by rewrite E3|by apply E4|by apply (snapshots_ok_ext db)].
Qed.

Lemma purged_rows_ok docs db db' : purged docs db db' -> stream_ok db -> stream_ok db'.
Proof.
  intros Hp [K1 K2 K3 K4]. assert (Hn : forall d, next_seq db' d = if decide (d ∈ docs) then 1%Z else next_seq db d).
  { intros d. unfold next_seq. rewrite (pg_sequences _ _ _ Hp). by case_decide. }
  split.
  - intros d s r [Hr Hd]%(dropped_some _ _ _ _ _ (pg_updates _ _ _ Hp)). cbn in Hd. rewrite Hn, decide_False by done.
    by eapply K1.
  - intros d s1 s2 r1 r2 [Hr1 _]%(dropped_some _ _ _ _ _ (pg_updates _ _ _ Hp))
      [Hr2 _]%(dropped_some _ _ _ _ _ (pg_updates _ _ _ Hp)). by eapply K2.
  - intros d. rewrite Hn. pose proof (K3 d). case_decide; lia.
  - intros d s r [Hr Hd]%(dropped_some _ _ _ _ _ (pg_updates _ _ _ Hp)). cbn in Hd. rewrite Hn, decide_False by done.
    intros [r' Hr']%(K4 _ _ _ Hr). exists r'. rewrite (pg_updates _ _ _ Hp). by rewrite decide_False.
Qed.

Lemma purged_snapshots_ok docs db db' : purged docs db db' -> snapshots_ok db -> snapshots_ok db'.
Proof.
  intros Hp [K1 K2 K3 K4 K5]. split; rewrite ?(pg_snapshots _ _ _ Hp), ?(pg_last_id _ _ _ Hp).
  - by apply StronglySorted_filter.
  - apply Forall_forall. intros r [_ Hr]%list_elem_of_filter. rewrite Forall_forall in K2. by apply K2.
  - done.
  - intros d. rewrite (doc_snapshots_purged _ _ _ d Hp). case_decide; [done|apply K4].
  - apply Forall_forall. intros r [_ Hr]%list_elem_of_filter. rewrite Forall_forall in K5. by apply K5.
Qed.

Lemma delete_doc_keeps account doc db out db' :
  db_ok db -> (forall a, ~ home (db_auth db) doc a) -> delete_doc account doc db = Ok (out, db') ->
  db_ok db' /\ (out = DocNotOwner -> db' = db)
  /\ forall d a, d <> doc -> member_of d a (db_auth db) = true -> member_of d a (db_auth db') = true.
Proof.
  intros [K1 K2 K3] Hh H'. pose proof (delete_doc_spec account doc db K1 Hh) as Hspec.
  destruct (is_active_owner doc account (db_auth db)) eqn:Eo.
  - destruct Hspec as (db2 & E & Hok & _ & Hrm & _). rewrite E in H'. injection H' as <- <-.
    assert (Hp : exists db1, purged [doc] db db1 /\ db_updates db2 = db_updates db1 /\ db_sequences db2 = db_sequences db1
      /\ db_snapshots db2 = db_snapshots db1 /\ db_last_id db2 = db_last_id db1).
    { unfold delete_doc, purge_doc_rows, delete_doc_row in E. rewrite Eo in E. cbn [negb] in E.
      destruct (require _ _); [|done]. injection E as <-. eexists. split; [apply purge_one|done]. }
    destruct Hp as (db1 & Hp & E1 & E2 & E3 & E4). split_and!; [|done|].
    + split; [done|by apply (stream_ok_ext db1), (purged_rows_ok [doc] db)|by apply (snapshots_ok_ext db1), (purged_snapshots_ok [doc] db)].
    + intros d a Hd. unfold member_of, active_role. rewrite (rm_members _ _ _ _ Hrm (d, a)).
      rewrite decide_False; [done|]. cbn. set_solver.
  - rewrite Hspec in H'. injection H' as <- <-. by split_and!.
Qed.

Lemma delete_account_keeps account db out db' :
  db_ok db -> delete_account account db = Ok (out, db') ->
  db_ok db' /\ forall d a, d ∉ da_purged_docs out -> (d ∈ da_left_docs out -> a <> account) ->
    member_of d a (db_auth db) = true -> member_of d a (db_auth db') = true.
Proof.
  intros [K1 K2 K3] H'. destruct (delete_account_spec account db K1)
    as (out2 & db2 & E & Hok & Hgone & Hpurged & Hleft & _ & Hrest & _ & db1 & Hp & E1 & E2 & E3 & E4).
  rewrite E in H'. injection H' as <- <-. split.
  - split; [done|by apply (stream_ok_ext db1), (purged_rows_ok (da_purged_docs out2) db)|].
    by apply (snapshots_ok_ext db1), (purged_snapshots_ok (da_purged_docs out2) db).
  - intros d a Hd Hl Hm. destruct (decide (a = account)) as [->|Ha].
    + exfalso. unfold member_of in Hm. apply bool_decide_eq_true in Hm as [role Hr].
      destruct role; [apply Hd, Hpurged|by apply Hl; [apply Hleft|]].
      unfold active_role in Hr. destruct (at_members (db_auth db) !! (d, account)) as [r|] eqn:Er; [|done].
      case_decide; [|done]. injection Hr as Hr. by exists r.
    + unfold member_of, active_role. destruct (Hrest d Hd) as [_ Hb]. by rewrite (Hb a Ha).
Qed.

Lemma revoke_device_keeps account device db :
  db_ok db -> db_ok (revoke_device account device db).2
  /\ at_members (db_auth (revoke_device account device db).2) = at_members (db_auth db).
Proof.
  intros [K1 K2 K3]. unfold revoke_device. destruct (owned_device _ _ _); [|done]. split; [|done]. cbn [snd].
  split; [|by apply (stream_ok_ext db)|by apply (snapshots_ok_ext db)].
  apply (side_tables_ok (db_auth db)); try done; cbn; try apply K1; [by eauto|].
  intros x r [_ Hr]%lookup_delete_Some. by apply (ao_device _ K1) in Hr.
Qed.

(** ** The state *)

Record st_ok (st : AppState) : Prop := {
  sk_db : db_ok (st_db st);
  sk_subs doc x : x ∈ subs_of (st_sessions st) doc -> member_of doc (su_account_id x) (db_auth (st_db st)) = true;
}.

Definition W_keeps {A} (m : W A) : Prop := forall st ws, st_ok st -> st_ok (m (st, ws)).2.1.

Lemma W_keeps_ret {A} (a : A) : W_keeps (mret a).
Proof. by intros st ws. Qed.
Lemma W_keeps_throw {A} e : W_keeps (@throw A e).
Proof. by intros st ws. Qed.
Lemma W_keeps_get {A} (f : AppState -> Ws -> A) : W_keeps (get_w f).
Proof. by intros st ws. Qed.
Lemma W_keeps_send f : W_keeps (send f).
Proof. by intros st ws. Qed.
Lemma W_keeps_open doc e : W_keeps (set_open doc e).
Proof. by intros st ws. Qed.
Lemma W_keeps_spawn doc : W_keeps (spawn_compaction doc).
Proof. intros st ws [K1 K2]. by split. Qed.
Lemma W_keeps_coordinator {A} (f : Coordinator -> A * Coordinator) : W_keeps (in_coordinator f).
Proof. intros st ws [K1 K2]. by split. Qed.

Lemma W_keeps_bind {A B} (m : W A) (f : A -> W B) : W_keeps m -> (forall a, W_keeps (f a)) -> W_keeps (m ≫= f).
Proof.
  intros Hm Hf st ws Hok. unfold mbind, W_bind. pose proof (Hm st ws Hok) as Hs.
  destruct (m (st, ws)) as [[a|e] [st' ws']]; [|done]. by apply Hf.
Qed.

Lemma W_keeps_sessions {A} (f : Sessions -> A * Sessions) : (forall s, shrinks s (f s).2) -> W_keeps (in_sessions f).
Proof. intros Hf st ws [K1 K2]. split; [done|]. cbn. intros doc x Hx. by apply K2, Hf. Qed.

Lemma W_keeps_tx {A} (f : Db -> result string (A * Db)) :
  (forall db a db', db_ok db -> f db = Ok (a, db') -> db_ok db' /\ db_auth db' = db_auth db) -> W_keeps (in_tx f).
Proof.
  intros Hf st ws [K1 K2]. unfold in_tx. cbn [fst snd]. destruct (f (st_db st)) as [[a db']|] eqn:E; [|done].
  destruct (Hf _ _ _ K1 E) as [Hok Ha]. split; [done|]. cbn. by rewrite Ha.
Qed.

Ltac keep := repeat first
  [ progress intros
  | apply W_keeps_ret | apply W_keeps_throw | apply W_keeps_get | apply W_keeps_send | apply W_keeps_open
  | apply W_keeps_spawn | apply W_keeps_coordinator
  | apply W_keeps_bind
  | match goal with |- W_keeps (match ?x with _ => _ end) => destruct x end
  | match goal with |- W_keeps (if ?x then _ else _) => destruct x end ].

Lemma send_all_keeps fs : W_keeps (send_all fs).
Proof. intros st ws Hok. by rewrite send_all_spec. Qed.

Lemma evaluate_keeps doc seq : W_keeps (evaluate_snapshot_decision doc seq).
Proof. unfold evaluate_snapshot_decision. keep. Qed.

Lemma issue_keeps doc d : W_keeps (issue_snapshot_request doc d).
Proof. unfold issue_snapshot_request. destruct d; keep. Qed.

(** The access check and the subscription are one step: whoever subscribes is
    a member. *)
Lemma open_doc_keeps doc : W_keeps (open_doc doc).
Proof.
  intros st ws Hok. unfold open_doc, can_open, mbind, W_bind, get_w. cbn [fst snd].
  destruct (is_member doc (au_account_id (ws_auth ws)) (st_db st)) eqn:Em.
  - unfold bind_doc. cbn [negb]. unfold mbind, W_bind, get_w. cbn [fst snd].
    destruct (ws_open ws !! doc); [done|]. destruct Hok as [K1 K2]. split; [done|]. cbn. intros d x Hx.
    apply subscribe_subs in Hx as [Hx|[-> ->]]; [by apply K2|done].
  - assert (Hk : W_keeps (bind_doc doc false)) by (unfold bind_doc; keep). by apply Hk.
Qed.

Lemma handle_frame_keeps frame : W_keeps (handle_frame frame).
Proof.
  destruct frame; cbn [handle_frame].
  - apply open_doc_keeps.
  - unfold push_updates. keep.
    + apply W_keeps_tx. apply insert_updates_keeps.
    + apply W_keeps_sessions. apply broadcast_shrinks.
    + apply issue_keeps.
  - keep; apply send_all_keeps.
  - keep.
    + apply W_keeps_tx. intros db ? db' Hok. destruct (advance_last_acked_seq _ _ _ _) eqn:E; [|done]. intros [= _ <-].
      by eapply advance_keeps.
    + apply issue_keeps.
  - unfold push_snapshot. keep. apply W_keeps_tx. intros. by eapply insert_snapshot_keeps.
  - keep; apply send_all_keeps.
Qed.

Lemma unbind_keeps doc : W_keeps (unbind_doc doc).
Proof.
  unfold unbind_doc. keep. apply W_keeps_sessions. intros s. apply drop_subscription_shrinks.
Qed.

Lemma forward_keeps doc : W_keeps (forward doc).
Proof.
  intros st ws Hok. unfold forward, poll. cbn [fst snd]. destruct (ws_open ws !! doc) as [e|]; [|done].
  destruct (ss_channels (st_sessions st) !! op_sub e) as [[|m q]|].
  - by case_decide.
  - set (st' := mkState _ _ _ _ _). assert (Hok' : st_ok st') by (destruct Hok as [K1 K2]; by split).
    destruct m; [done| |by apply unbind_keeps]. by apply (W_keeps_bind _ _ (unbind_keeps doc) (fun _ => W_keeps_send f)).
  - by case_decide.
Qed.

Lemma end_session_keeps broke st ws : st_ok st -> st_ok (end_session broke st ws).
Proof. intros [K1 K2]. split; [done|]. cbn. intros doc x Hx. apply K2. by eapply drop_all_shrinks. Qed.

Lemma run_compaction_keeps st : st_ok st -> st_ok (run_compaction st).
Proof.
  intros [K1 K2]. unfold run_compaction. destruct (st_compactions st) as [|doc rest]; [done|].
  destruct (compact_keeps doc (st_db st) K1) as [Hok Ha]. split; [done|]. cbn. by rewrite Ha.
Qed.

Lemma session_turn_keeps conn m sv : W_keeps m -> st_ok (sv_state sv) -> st_ok (sv_state (session_turn conn m sv)).
Proof.
  intros Hm Hok. unfold session_turn. destruct (sv_conns sv !! conn) as [ws|]; [|done].
  pose proof (Hm (sv_state sv) ws Hok) as Hs. destruct (m (sv_state sv, ws)) as [[a|e] [st ws']]; [done|].
  by apply end_session_keeps.
Qed.
