(* ===== verification/RouteFacts.v ===== *)
(** The server's invariant through the HTTP routes: each handler keeps the
    tables well formed and the subscribers of a document among its members. *)
From S2P Require Import Prelude.
From S2P Require Import Wire.
From S2P Require Import Tables.
From S2P Require Import AuthDb.
From S2P Require Import ServerDb.
From S2P Require Import Coordinator.
From S2P Require Import Sessions.
From S2P Require Import Ws.
From S2P Require Import AuthFacts.
From S2P Require Import AccountFacts.
From S2P Require Import StreamFacts.
From S2P Require Import SnapshotFacts.
From S2P Require Import Routes.
From S2P Require Import Server.
From S2P Require Import ServerFacts.

(** ** Handlers *)

(** The device's account as its request sees it. *)
Definition authd (auth : DeviceAuth) (st : AppState) : Prop :=
  home (db_auth (st_db st)) (au_primary_doc_id auth) (au_account_id auth).

(** A handler keeps the invariant, from states that satisfy [P]. *)
Definition R_keeps {A} (P : AppState -> Prop) (m : R A) : Prop := forall st, st_ok st -> P st -> st_ok (m st).2.
Definition pure_r {A} (m : R A) : Prop := forall st, (m st).2 = st.

Lemma R_keeps_bind {A B} P (m : R A) (f : A -> R B) :
  pure_r m -> (forall a, R_keeps P (f a)) -> R_keeps P (m ≫= f).
Proof.
  intros Hm Hf st Hok HP. unfold mbind, R_bind. pose proof (Hm st) as Hs.
  destruct (m st) as [[a|e] st']; cbn in Hs; subst; [by apply Hf|done].
Qed.

Lemma R_keeps_then {A B} P (m : R A) (f : A -> R B) :
  R_keeps P m -> (forall a, R_keeps (fun _ => True) (f a)) -> R_keeps P (m ≫= f).
Proof.
  intros Hm Hf st Hok HP. unfold mbind, R_bind. pose proof (Hm st Hok HP) as Hs.
  destruct (m st) as [[a|e] st']; cbn in Hs; [by apply Hf|done].
Qed.

Lemma R_keeps_pure {A} P (m : R A) : pure_r m -> R_keeps P m.
Proof. intros Hm st Hok _. by rewrite Hm. Qed.

Lemma R_keeps_guard {B} P p e (f : unit -> R B) : (p = true -> R_keeps P (f tt)) -> R_keeps P (guard_r p e ≫= f).
Proof. intros Hf. destruct p; [by apply Hf|]. by intros st Hok _. Qed.

Lemma pure_ret {A} (a : A) : pure_r (mret a).
Proof. done. Qed.
Lemma pure_refuse {A} e : pure_r (@refuse A e).
Proof. done. Qed.
Lemma pure_read {A} (f : AuthTables -> A) : pure_r (read_auth f).
Proof. done. Qed.
Lemma pure_now : pure_r now_millis.
Proof. done. Qed.
Lemma pure_unwrap {A} (o : option A) e : pure_r (unwrap_or_refuse o e).
Proof. by destruct o. Qed.
Lemma pure_guard p e : pure_r (guard_r p e).
Proof. by destruct p. Qed.

(** A transaction under which memberships only grow. *)
Lemma db_tx_keeps {A} (P : AppState -> Prop) err (f : Db -> result string (A * Db)) :
  (forall st a db', st_ok st -> P st -> f (st_db st) = Ok (a, db') -> db_ok db' /\ members_grow (db_auth (st_db st)) (db_auth db')) ->
  R_keeps P (db_tx err f).
Proof.
  intros Hf st Hok HP. unfold db_tx. destruct (f (st_db st)) as [[a db']|] eqn:E; [|done].
  destruct (Hf _ _ _ Hok HP E) as [Hdb Hm]. destruct Hok as [K1 K2]. split; [done|]. cbn. intros doc x Hx. by apply Hm, K2.
Qed.

Lemma auth_tx_keeps {A} (P : AppState -> Prop) err (f : AuthTables -> result string (A * AuthTables)) :
  (forall st a t', st_ok st -> P st -> f (db_auth (st_db st)) = Ok (a, t') -> auth_ok t' /\ members_grow (db_auth (st_db st)) t') ->
  R_keeps P (auth_tx err f).
Proof.
  intros Hf. apply db_tx_keeps. intros st a db' Hok HP. destruct (f (db_auth (st_db st))) as [[b t']|] eqn:E; [|done].
  intros [= -> <-]. destruct (Hf _ _ _ Hok HP E) as [Ht Hm]. split; [|done]. apply with_auth_ok; [apply Hok|done].
Qed.

Lemma members_grow_same t t' : at_members t' = at_members t -> members_grow t t'.
Proof. intros E d a. unfold member_of, active_role. by rewrite E. Qed.

Lemma members_grow_insert t t' k m :
  at_members t' = <[k := m]> (at_members t) -> active m -> members_grow t t'.
Proof.
  intros E Ha d a. unfold member_of, active_role. rewrite E. destruct (decide (k = (d, a))) as [->|Hk].
  - rewrite lookup_insert_eq, decide_True by done. intros _. apply bool_decide_eq_true. by eexists.
  - by rewrite lookup_insert_ne.
Qed.

Ltac opened := unfold insert_doc, insert_account, insert_member, insert_device, insert_invite, insert_recovery;
  let K := fresh in intros K; constraints; apply Ok_inj in K; try (injection K as _ K); subst; cbn in *.

Lemma create_account_grows account device primary now new t t' :
  create_account_rows account device primary now new t = Ok t' -> members_grow t t'.
Proof. unfold create_account_rows. opened. by eapply members_grow_insert. Qed.

Lemma create_doc_grows account doc now dek nonce t r t' :
  create_doc account doc now dek nonce t = Ok (r, t') -> members_grow t t'.
Proof. unfold create_doc. opened. by eapply members_grow_insert. Qed.

Lemma create_invite_grows account doc now new t r t' :
  create_invite account doc now new t = Ok (r, t') -> members_grow t t'.
Proof.
  unfold create_invite. destruct (negb _); [by intros [= _ <-]|]. case_bool_decide; [by intros [= _ <-]|].
  opened. by apply members_grow_same.
Qed.

Lemma accept_invite_grows account id now dek nonce t r t' :
  accept_invite account id now dek nonce t = Ok (r, t') -> members_grow t t'.
Proof.
  unfold accept_invite. destruct (at_invites t !! id) as [v|]; [|by intros [= _ <-]].
  case_bool_decide; [by intros [= _ <-]|]. destruct (_ <? _)%Z; [by intros [= _ <-]|].
  destruct (at_members t !! _) as [m|].
  - case_decide; [by intros [= _ <-]|]. opened. by eapply members_grow_insert.
  - opened. by eapply members_grow_insert.
Qed.

Lemma create_device_grows account device name kind hash now t t' :
  create_device account device name kind hash now t = Ok t' -> members_grow t t'.
Proof. unfold create_device. opened. by apply members_grow_same. Qed.

#[export] Instance members_grow_trans : Transitive members_grow.
Proof. intros a b c K1 K2 d x Hx. by apply K2, K1. Qed.

Lemma password_update_grows account u t r t' :
  auth_ok t -> apply_password_update account u t = Ok (r, t') ->
  auth_ok t' /\ members_grow t t' /\ is_Some (at_accounts t' !! account).
Proof.
  intros Hok H'. destruct (at_accounts t !! account) as [a|] eqn:Ha.
  - destruct (apply_password_update_spec account a u t Hok Ha)
      as [(dek & nonce & m & _ & Hm & Ho & Hact & E)|[_ E]]; rewrite E in H'; injection H' as <- <-.
    + split_and!; [by apply password_set_ok|by eapply members_grow_insert|]. cbn. rewrite lookup_insert_eq. by eexists.
    + split_and!; [done|done|by eexists].
  - unfold apply_password_update in H'. by rewrite Ha in H'.
Qed.

Lemma update_password_grows account u t r t' :
  auth_ok t -> update_password account u t = Ok (r, t') -> auth_ok t' /\ members_grow t t'.
Proof.
  intros Hok. unfold update_password. destruct (apply_password_update account u t) as [[o t2]|] eqn:E; [|done].
  destruct (password_update_grows _ _ _ _ _ Hok E) as (H1 & H2 & _). cbn [fst].
  destruct o; intros [= <- <-]; done.
Qed.

Lemma reset_grows hash now u t r t' :
  auth_ok t -> reset_password_with_recovery_session hash now u t = Ok (r, t') -> auth_ok t' /\ members_grow t t'.
Proof.
  intros Hok. unfold reset_password_with_recovery_session.
  destruct (at_recovery t !! hash) as [s|]; [|by intros [= _ <-]]. destruct (_ || _); [by intros [= _ <-]|].
  destruct (apply_password_update (rc_account s) u t) as [[o t2]|] eqn:E; [|done].
  destruct (password_update_grows _ _ _ _ _ Hok E) as (H1 & H2 & H3). cbn [fst snd].
  destruct o; intros [= _ <-]; [|by split]. split; [by apply recovery_ok|]. trans t2; [done|by apply members_grow_same].
Qed.

(** *** The routes *)

Create HintDb pure_r.
#[local] Hint Resolve pure_ret pure_refuse pure_read pure_now pure_unwrap pure_guard : pure_r.

Ltac rkeep := repeat first
  [ progress intros
  | apply R_keeps_pure; solve [eauto with pure_r nocore]
  | apply R_keeps_bind; [solve [eauto with pure_r nocore]|]
  | match goal with |- R_keeps _ (match ?x with _ => _ end) => destruct x end
  | match goal with |- R_keeps _ (mbind _ _) => apply R_keeps_then end ].

Section server_ok.
Context (sha256 : octets -> octets).

Lemma create_account_keeps P err account device fresh now new :
  R_keeps P (auth_tx err (create_account account device fresh now new)).
Proof.
  apply auth_tx_keeps. intros st c t' Hok _. unfold create_account.
  destruct (create_account_rows _ _ _ _ _ _) as [t2|] eqn:E; [|done]. intros [= _ <-].
  split; [by eapply create_account_ok; [apply Hok|]|by eapply create_account_grows].
Qed.

Lemma create_device_keeps {A} P err account device name kind hash now (a : A) :
  R_keeps P (auth_tx err (fun t => let? t := create_device account device name kind hash now t in Ok (a, t))).
Proof.
  apply auth_tx_keeps. intros st c t' Hok _. destruct (create_device _ _ _ _ _ _ _) as [t2|] eqn:E; [|done]. intros [= _ <-].
  split; [by eapply create_device_ok; [apply Hok|]|by eapply create_device_grows].
Qed.

Lemma serve_public_keeps req : R_keeps (fun _ => True) (serve_public sha256 req).
Proof.
  destruct req; cbn [serve_public].
  - unfold signup. rkeep. apply create_account_keeps.
  - unfold login. rkeep. apply create_device_keeps.
  - unfold recover. rkeep. apply auth_tx_keeps. intros st c t' Hok _.
    destruct (create_recovery_session _ _ _ _ _) as [t2|] eqn:E; [|done]. intros [= _ <-].
    split; [by eapply create_recovery_ok; [apply Hok|]|]. revert E. unfold create_recovery_session. opened.
    by apply members_grow_same.
  - unfold password_reset. rkeep; [|apply create_device_keeps]. apply auth_tx_keeps. intros st c t' Hok _.
    apply reset_grows. apply Hok.
Qed.

Lemma auth_write_keeps {A} P (f : AuthTables -> A * AuthTables) :
  (forall t, auth_ok t -> auth_ok (f t).2 /\ members_grow t (f t).2) -> R_keeps P (auth_write f).
Proof.
  intros Hf. apply auth_tx_keeps. intros st a t' Hok _ [= E]. destruct (Hf (db_auth (st_db st))) as [H1 H2]; [apply Hok|].
  by rewrite E in H1, H2.
Qed.

Lemma authenticate_ok token ip st :
  st_ok st ->
  let r := authenticate sha256 token ip st in
  st_ok r.2 /\ forall auth, r.1 = Ok auth -> authd auth r.2.
Proof.
  intros Hok. unfold authenticate, mbind, R_bind, read_auth, now_millis. cbn.
  destruct (find_device_by_token_hash (sha256 token) (db_auth (st_db st))) as [l|] eqn:El; [|done]. cbn.
  assert (Hhome : home (db_auth (st_db st)) (dl_primary_doc l) (dl_account l)).
  { unfold find_device_by_token_hash in El. apply head_Some_elem_of, list_elem_of_omap in El as ([d r] & _ & El).
    cbn in El. case_decide; [|done]. apply fmap_Some in El as (a & Ha & ->). by exists a. }
  pose proof (auth_write_keeps (fun _ => True) (fun t => (tt, touch_device_last_seen (dl_device l) ip (Z.of_N (st_now st)) t)))
    as Hk. unfold R_keeps in Hk.
  assert (Htouch : forall t, auth_ok t ->
    auth_ok (touch_device_last_seen (dl_device l) ip (Z.of_N (st_now st)) t)
    /\ members_grow t (touch_device_last_seen (dl_device l) ip (Z.of_N (st_now st)) t)).
  { intros t Ht. split; [by apply touch_device_ok|]. apply members_grow_same. unfold touch_device_last_seen.
    by destruct (at_devices t !! dl_device l). }
  specialize (Hk Htouch st Hok I). unfold auth_write, auth_tx, db_tx in *. cbn in *. split; [done|].
  intros auth [= <-]. unfold authd. cbn. unfold touch_device_last_seen. by destruct (at_devices _ !! _).
Qed.

(** A removed member's subscriptions go with the membership. *)
Lemma remove_member_keeps auth doc target : R_keeps (authd auth) (remove_member_route auth doc target).
Proof.
  unfold remove_member_route. apply R_keeps_bind; [apply pure_guard|]. intros _.
  apply R_keeps_bind; [apply pure_now|]. intros now st [Kd Ks] _.
  unfold auth_write, auth_tx, db_tx, mbind, R_bind.
  destruct (remove_member_ok (au_account_id auth) doc target now (db_auth (st_db st)) (dk_auth _ Kd)) as [Hok _].
  destruct (remove_member (au_account_id auth) doc target now (db_auth (st_db st))) as [out t'] eqn:E. cbn [snd] in Hok.
  assert (Hdb : db_ok (with_auth (fun _ => t') (st_db st))) by by apply with_auth_ok.
  assert (Hgrow : forall d a, (d = doc -> a <> target) -> member_of d a (db_auth (st_db st)) = true -> member_of d a t' = true).
  { intros d a Hne. unfold remove_member in E.
    repeat (first [progress case_match | case_decide]; simplify_eq; try done); unfold member_of, active_role; cbn;
      rewrite lookup_insert_ne; naive_solver. }
  assert (Hsame : out <> MemberRemoved -> t' = db_auth (st_db st)).
  { intros Ho. unfold remove_member in E. repeat (first [progress case_match | case_decide]; simplify_eq; try done). }
  destruct out; cbn; try (rewrite Hsame by done; split; [apply with_auth_ok; [done|apply Kd]|exact Ks]).
  split; [done|]. cbn. intros d x Hx. apply close_for_account_subs in Hx as [Hx Hne]. by apply Hgrow; [|apply Ks].
Qed.

Lemma delete_doc_keeps_route auth doc : R_keeps (authd auth) (delete_doc_route auth doc).
Proof.
  unfold delete_doc_route. intros st [Kd Ks] Ha. unfold mbind, R_bind, guard_r.
  destruct (doc =? au_primary_doc_id auth)%N eqn:Ed; [done|]. cbn. apply N.eqb_neq in Ed.
  unfold db_tx. destruct (delete_doc (au_account_id auth) doc (st_db st)) as [[out db']|] eqn:E; [|done].
  destruct (is_active_owner doc (au_account_id auth) (db_auth (st_db st))) eqn:Eo.
  - assert (Hh : forall a, ~ home (db_auth (st_db st)) doc a).
    { eapply owned_not_home; [apply Kd|by apply is_active_owner_spec in Eo; [|apply Kd]|exact Ha|done]. }
    destruct (delete_doc_keeps _ _ _ _ _ Kd Hh E) as (Hdb & Hsame & Hm). destruct out; cbn.
    + split; [done|]. cbn. intros d x Hx. apply close_doc_subs in Hx as [Hx Hne]. by apply Hm, Ks.
    + split; [done|]. cbn. rewrite Hsame by done. apply Ks.
  - unfold delete_doc in E. rewrite Eo in E. injection E as <- <-. by split.
Qed.

Lemma close_purged_spec docs device : forall st, let st' := (close_purged docs device st).2 in
  (close_purged docs device st).1 = Ok tt /\ st_db st' = st_db st
  /\ forall d x, x ∈ subs_of (st_sessions st') d -> x ∈ subs_of (st_sessions st) d /\ d ∉ docs.
Proof.
  induction docs as [|doc docs IH]; intros st; cbn; [split_and!; [done|done|]; intros; split; [done|]; set_solver|].
  unfold mbind, R_bind, sessions_call. cbn. set (st1 := mkState _ _ _ _ _). destruct (IH st1) as (-> & -> & H').
  split_and!; [done|done|]. intros d x Hx. destruct (H' d x Hx) as [H1 H2]. cbn in H1.
  apply close_doc_subs in H1 as [H1 H3]. split; [done|]. set_solver.
Qed.

Lemma close_left_spec docs account : forall st, let st' := (close_left docs account st).2 in
  st_db st' = st_db st
  /\ forall d x, x ∈ subs_of (st_sessions st') d -> x ∈ subs_of (st_sessions st) d /\ (d ∈ docs -> su_account_id x <> account).
Proof.
  induction docs as [|doc docs IH]; intros st; cbn; [split; [done|]; intros; split; [done|]; set_solver|].
  unfold mbind, R_bind, sessions_call. cbn. set (st1 := mkState _ _ _ _ _). destruct (IH st1) as (-> & H').
  split; [done|]. intros d x Hx. destruct (H' d x Hx) as [H1 H2]. cbn in H1.
  apply close_for_account_subs in H1 as [H1 H3]. split; [done|]. set_solver.
Qed.

Lemma delete_account_route_keeps auth secret : R_keeps (authd auth) (delete_account_route sha256 auth secret).
Proof.
  unfold delete_account_route. apply R_keeps_bind; [apply pure_read|]. intros found.
  apply R_keeps_bind; [apply pure_unwrap|]. intros account. apply R_keeps_bind; [apply pure_guard|]. intros _.
  intros st [Kd Ks] _. unfold mbind, R_bind, db_tx.
  destruct (delete_account (au_account_id auth) (st_db st)) as [[out db']|] eqn:E; [|done].
  destruct (delete_account_keeps _ _ _ _ Kd E) as [Hdb Hm]. set (st1 := with_db db' st).
  destruct (close_purged_spec (da_purged_docs out) (au_device_id auth) st1) as (H1 & H2 & H3).
  destruct (close_purged _ _ st1) as [r st2]. cbn in *. subst r.
  destruct (close_left_spec (da_left_docs out) (au_account_id auth) st2) as (H4 & H5). split.
  - by rewrite H4, H2.
  - rewrite H4, H2. cbn. intros d x Hx. destruct (H5 d x Hx) as [Hx2 Hne]. destruct (H3 d x Hx2) as [Hx1 Hnp].
    apply Hm; [done|done|]. by apply Ks.
Qed.

Lemma revoke_keeps {A} P (g : bool -> A) account device :
  R_keeps P (db_tx Internal (fun db => Ok (revoke_device account device db))).
Proof.
  apply db_tx_keeps. intros st a db' [Kd _] _ [= E].
  destruct (revoke_device_keeps account device (st_db st) Kd) as [H1 H2]. rewrite E in H1, H2.
  split; [done|by apply members_grow_same].
Qed.

Lemma serve_device_keeps auth req : R_keeps (authd auth) (serve_device sha256 auth req).
Proof.
  destruct req; cbn [serve_device].
  - unfold logout. rkeep. by apply (revoke_keeps _ id).
  - apply delete_account_route_keeps.
  - unfold password_change. rkeep. apply auth_tx_keeps. intros st c t' Hok _. apply update_password_grows. apply Hok.
  - unfold create_doc_route. rkeep. apply auth_tx_keeps. intros st c t' Hok _ E.
    split; [by eapply create_doc_ok; [apply Hok|]|by eapply create_doc_grows].
  - apply delete_doc_keeps_route.
  - unfold create_invite_route. apply (R_keeps_then _ _ (fun _ => mret tt)); [|intros _; apply R_keeps_pure, pure_ret].
    apply R_keeps_guard. intros Ed. apply negb_true_iff, N.eqb_neq in Ed.
    rkeep. apply auth_tx_keeps. intros st c t' Hok Ha E. split; [|by eapply create_invite_grows].
    eapply create_invite_ok; [apply Hok| |exact E]. intros Ho. by eapply owned_not_home; [apply Hok|..].
  - unfold revoke_invite_route. rkeep. apply auth_write_keeps. intros t Ht. split; [by apply revoke_invite_ok|].
    apply members_grow_same. unfold revoke_invite. repeat case_match; done.
  - unfold accept_invite_route. rkeep. apply auth_tx_keeps. intros st c t' Hok _ E.
    split; [by eapply accept_invite_ok; [apply Hok|]|by eapply accept_invite_grows].
  - apply remove_member_keeps.
  - unfold register_device. rkeep. apply create_device_keeps.
  - unfold revoke_device_route. rkeep. by apply (revoke_keeps _ id).
  - unfold rename_device_route. rkeep. apply auth_write_keeps. intros t Ht. split; [by apply rename_device_ok|].
    apply members_grow_same. unfold rename_device. by case_match.
Qed.

(** ** Every run *)

Lemma step_keeps sv e : st_ok (sv_state sv) -> st_ok (sv_state (step_server sha256 sv e)).
Proof.
  intros Hok. destruct e as [req|token ip req|conn token ip|conn frame|conn doc|conn| |now]; cbn [step_server sv_state].
  - by apply serve_public_keeps.
  - unfold serve_authed, mbind, R_bind. destruct (authenticate_ok token ip _ Hok) as [Hst Ha].
    destruct (authenticate sha256 token ip (sv_state sv)) as [[auth|e] st]; [|done]. cbn in *.
    apply serve_device_keeps; [done|by apply Ha].
  - destruct (authenticate_ok token ip _ Hok) as [Hst _].
    destruct (sv_conns sv !! conn); destruct (authenticate sha256 token ip (sv_state sv)) as [[auth|e] st]; done.
  - apply session_turn_keeps; [apply handle_frame_keeps|done].
  - apply session_turn_keeps; [apply forward_keeps|done].
  - destruct (sv_conns sv !! conn); [by apply end_session_keeps|done].
  - by apply run_compaction_keeps.
  - destruct Hok as [K1 K2]. by split.
Qed.

Lemma server_new_ok : st_ok (sv_state server_new).
Proof.
  split.
  - split; [apply auth_empty_ok|by split|]. split; [constructor|constructor|done|done|constructor].
  - intros doc x Hx. by apply not_elem_of_nil in Hx.
Qed.

Lemma serve_keeps events : st_ok (sv_state (serve sha256 events)).
Proof.
  unfold serve. generalize server_new_ok. generalize server_new as sv. induction events as [|e events IH]; intros sv Hok; [done|].
  cbn. apply IH. by apply step_keeps.
Qed.

(** C2: What every run keeps, whatever requests, frames, hang-ups and compactions
    come in whatever order, errors included. Only active members of a document
    receive its updates: they are the registry's subscribers. Every document
    has exactly one owner, an active one, so none is left ownerless and the
    guard against removing the last owner never fires. Nobody but its account
    is a member of a home document, whose key opens all the others, and no
    link leads to it. Sequence numbers stay below the counter, name one row per
    push and leave no gap past the first row kept, and every snapshot delta
    follows the row it was taken on. *)
Theorem server_invariant events :
  let st := sv_state (serve sha256 events) in
  let t := db_auth (st_db st) in
  (forall doc x, x ∈ subs_of (st_sessions st) doc -> is_member doc (su_account_id x) (st_db st) = true)
  /\ (forall doc, doc ∈ at_docs t -> exists a, owner t doc a /\ is_member doc a (st_db st) = true /\ forall b, owner t doc b -> b = a)
  /\ (forall caller doc target now, (remove_member caller doc target now t).1 <> LastOwner)
  /\ (forall doc a, home t doc a -> owner t doc a /\ (forall b r, at_members t !! (doc, b) = Some r -> b = a)
        /\ forall i v, at_invites t !! i = Some v -> iv_doc v <> doc)
  /\ stream_ok (st_db st) /\ forall doc, linked_from None (doc_snapshots (st_db st) doc).
Proof.
  intros st t. destruct (serve_keeps events) as [[Ha Hs Hk] Hm]. fold st in Ha, Hs, Hk, Hm. fold t in Ha. split_and!.
  - exact Hm.
  - intros doc Hd. destruct (ao_owned _ Ha _ Hd) as [a Ho]. exists a. split_and!; [done| |].
    + destruct Ho as (r & Hr & Ho). unfold is_member, member_of, active_role. fold t. rewrite Hr.
      rewrite decide_True by (by eapply (ao_active _ Ha)). apply bool_decide_eq_true. by eexists.
    + intros b Hb. by eapply (ao_one_owner _ Ha).
  - intros. by apply remove_member_ok.
  - intros doc a Hh. split_and!; [by apply (ao_home _ Ha)| |].
    + intros b r Hr. symmetry. by eapply (ao_alone _ Ha).
    + intros i v Hv <-. by eapply (ao_invite _ Ha).
  - exact Hs.
  - apply Hk.
Qed.

End server_ok.
