(* ===== verification/RevokeFacts.v ===== *)
(** Live revocation: removing a member ends what the server serves it. *)
From S2P Require Import Prelude.
From S2P Require Import Wire.
From S2P Require Import Tables.
From S2P Require Import AuthDb.
From S2P Require Import ServerDb.
From S2P Require Import Coordinator.
From S2P Require Import Sessions.
From S2P Require Import SessionFacts.
From S2P Require Import Ws.
From S2P Require Import AuthFacts.
From S2P Require Import Routes.
From S2P Require Import Server.
From S2P Require Import ServerFacts.

Lemma send_presence_other doc subs only id : forall chans, id ∉ su_sub_id <$> subs ->
  send_presence doc subs only chans !! id = chans !! id.
Proof.
  unfold send_presence. generalize (OFrame (Presence doc (present_accounts subs))) as m. intros m.
  assert (Ht : forall i (c : gmap N (list Outbound)), id <> i -> (try_send i m c).2 !! id = c !! id).
  { intros i c Hne. unfold try_send. destruct (c !! i); [|done]. destruct (_ <? _); [|done]. cbn.
    by rewrite lookup_insert_ne. }
  induction subs as [|s subs IH]; intros chans Hni; [done|]. cbn [fmap list_fmap foldl] in *.
  apply not_elem_of_cons in Hni as [Hne Hni]. rewrite (IH _ Hni). destruct only as [o|]; [|by apply Ht].
  destruct (o =? su_sub_id s)%N; [by apply Ht|done].
Qed.

(** Closing a document for an account: its subscriptions go, each told with a
    last message; everyone else's stay. *)
Lemma close_for_account_spec doc account reason s :
  NoDup (subscriber_ids doc s) ->
  roomy (su_sub_id <$> base.filter (fun x => su_account_id x = account) (subs_of s doc)) (ss_channels s) ->
  let s' := (close_for_account doc account reason s).2 in
  subs_of s' doc = base.filter (fun x => su_account_id x <> account) (subs_of s doc)
  /\ (forall d, d <> doc -> subs_of s' d = subs_of s d)
  /\ forall x, x ∈ subs_of s doc -> su_account_id x = account ->
     ss_channels s' !! su_sub_id x = (fun q => q ++ [OClose (DocClosed doc reason)]) <$> ss_channels s !! su_sub_id x.
Proof.
  unfold close_for_account, subscriber_ids. destruct (ss_docs s !! doc) as [before|] eqn:E.
  2: { unfold subs_of. rewrite E. cbn. intros _ _. split_and!; [by rewrite E|done|by intros x ?%not_elem_of_nil]. }
  rewrite (subs_of_lookup _ _ _ E). intros Hn Hr.
  pose proof (fan_out_roomy (OClose (DocClosed doc reason)) (fun x => su_account_id x =? account)%N
    (fun _ _ => false) before (ss_channels s)) as Hf.
  destruct (fan_out _ _ _ _ _) as [[rest n] chans]. cbn [fst snd] in *.
  assert (Hfilter : base.filter (fun x => Is_true (su_account_id x =? account)%N) before
    = base.filter (fun x => su_account_id x = account) before).
  { apply list_filter_iff. intros x. rewrite Is_true_true. apply N.eqb_eq. }
  rewrite Hfilter in Hf. destruct (Hf Hn Hr) as [Erest Hsent].
  assert (Hrest : rest = base.filter (fun x => su_account_id x <> account) before).
  { rewrite Erest. apply list_filter_iff. intros x. rewrite N.eqb_eq. split; [by intros K Ha; specialize (K Ha)|tauto]. }
  split_and!.
  - by rewrite subs_of_settle, decide_True, Hrest.
  - intros d Hd. by rewrite subs_of_settle, decide_False.
  - intros x Hx Ha. assert (Hgone : ss_channels (settle doc before rest (set_channels chans s)) !! su_sub_id x = chans !! su_sub_id x).
    { unfold settle. destruct (decide (rest = [])); [done|cbn].
      destruct (decide (account_set rest = account_set before)); [done|cbn]. apply send_presence_other.
      rewrite Hrest. intros (y & Ey & [Hy Hin]%list_elem_of_filter)%list_elem_of_fmap.
      assert (x = y) as ->; [|done]. apply list_elem_of_lookup in Hx as [i Hi], Hin as [j Hj].
      assert (i = j) as ->; [|congruence]. eapply (NoDup_lookup _ i j (su_sub_id x) Hn); rewrite list_lookup_fmap;
        [by rewrite Hi|by rewrite Hj, Ey]. }
    rewrite Hgone, Hsent. destruct (ss_channels s !! su_sub_id x); [|done]. cbn. rewrite decide_True; [done|].
    apply list_elem_of_fmap. exists x. split; [done|]. by apply list_elem_of_filter.
Qed.

(** C14: Removing a member revokes it. The request is refused without effect from
    the caller's own home, from one who is no member (not found) or no owner,
    for the caller itself and for one who is no member; otherwise, with room
    in the channels, the account is a member no more and all other memberships
    stand, none of its subscriptions is left and every other one is, each of
    its connections has [DocClosed] as the last message it will get for the
    document, and opening the document again ends the session with nothing
    served. *)
Theorem removal_revokes auth doc target st :
  auth_ok (db_auth (st_db st)) -> NoDup (subscriber_ids doc (st_sessions st)) ->
  roomy (su_sub_id <$> base.filter (fun x => su_account_id x = target) (subs_of (st_sessions st) doc))
    (ss_channels (st_sessions st)) ->
  let t := db_auth (st_db st) in
  let r := remove_member_route auth doc target st in
  let s' := st_sessions r.2 in
  match r.1 with
  | Ok _ => doc <> au_primary_doc_id auth /\ owner t doc (au_account_id auth) /\ target <> au_account_id auth
      /\ member_of doc target t = true
      /\ (forall d a, member_of d a (db_auth (st_db r.2)) = if decide (d = doc /\ a = target) then false else member_of d a t)
      /\ subs_of s' doc = base.filter (fun x => su_account_id x <> target) (subs_of (st_sessions st) doc)
      /\ (forall d, d <> doc -> subs_of s' d = subs_of (st_sessions st) d)
      /\ (forall x, x ∈ subs_of (st_sessions st) doc -> su_account_id x = target ->
            ss_channels s' !! su_sub_id x
            = (fun q => q ++ [OClose (DocClosed doc "membership removed")]) <$> ss_channels (st_sessions st) !! su_sub_id x)
      /\ (forall ws, au_account_id (ws_auth ws) = target ->
            handle_frame (OpenDoc doc) (r.2, ws)
            = (Err (OpenRefused doc "not a member of this doc"),
               (r.2, mkWs (ws_auth ws) (ws_open ws) (ws_socket ws ++ [DocRejected doc "not a member of this doc"]))))
  | Err e => r.2 = st /\
      (doc = au_primary_doc_id auth \/ ~ owner t doc (au_account_id auth) \/ target = au_account_id auth \/ member_of doc target t = false)
  end.
Proof.
  intros Hok Hn Hr. unfold remove_member_route, mbind, R_bind, guard_r, now_millis, auth_write, auth_tx, db_tx.
  destruct (doc =? au_primary_doc_id auth)%N eqn:Ed; [apply N.eqb_eq in Ed; cbn; by split; [|left]|].
  apply N.eqb_neq in Ed. cbn. assert (Hst : with_db (with_auth (fun _ => db_auth (st_db st)) (st_db st)) st = st).
  { destruct st as [[] ? ? ? ?]. done. }
  unfold remove_member, active_role.
  destruct (at_members (db_auth (st_db st)) !! (doc, au_account_id auth)) as [c|] eqn:Ec.
  2: { cbn. split; [done|]. right; left. intros (r & E & _). congruence. }
  case_decide as Hc.
  2: { cbn. split; [done|]. right; left. intros (r & E & Ho). rewrite Ec in E. injection E as <-. by apply (ao_active _ Hok) in Ec. }
  destruct (mr_role c) eqn:Erole.
  2: { cbn. split; [done|]. right; left. intros (r & E & Ho). congruence. }
  case_decide as Hne; [cbn; split; [done|]; right; right; by left|].
  destruct (at_members (db_auth (st_db st)) !! (doc, target)) as [m|] eqn:Em.
  2: { cbn. split; [done|]. right; right; right. unfold member_of, active_role. by rewrite Em. }
  case_decide as Hm.
  2: { cbn. split; [done|]. right; right; right. unfold member_of, active_role. by rewrite Em, decide_False. }
  assert (Hnot : mr_role m <> Owner).
  { intros Ho. apply Hne. eapply (ao_one_owner _ Hok); [exists c|exists m]; done. }
  rewrite bool_decide_false by done. cbn [andb].
  destruct (close_for_account_spec doc target "membership removed" (st_sessions st) Hn Hr) as (H1 & H2 & H3). cbn.
  split_and!; try done; [by exists c|unfold member_of, active_role; by rewrite Em, decide_True| |].
  - intros d a. unfold member_of, active_role. cbn. case_decide as Hda.
    + destruct Hda as [-> ->]. rewrite lookup_insert_eq. by rewrite decide_False.
    + rewrite lookup_insert_ne; [done|]. intros [=]. by apply Hda.
  - intros ws Hws. unfold open_doc, can_open, mbind, W_bind, get_w. cbn. rewrite Hws.
    assert (Hno : is_member doc target
      (with_auth (fun _ => with_members <[(doc, target) := mkMember (mr_role m) (mr_wrapped_dek m) (mr_wrapped_dek_nonce m)
         (mr_recovery_wrapped_dek m) (mr_recovery_wrapped_dek_nonce m) (mr_added_at m) (Some (Z.of_N (st_now st)))]>
         (db_auth (st_db st))) (st_db st)) = false).
    { unfold is_member, member_of, active_role. cbn. rewrite lookup_insert_eq. by rewrite decide_False. }
    rewrite Hno. by destruct ws.
Qed.

(** Account 1 removes account 2 from document 7, which account 2 has open. *)
Lemma removal_revokes_witness :
  exists st st', auth_ok (db_auth (st_db st)) /\ subscriber_ids 7 (st_sessions st) = [1%N; 2%N]
    /\ remove_member_route (mkAuth 1 10 5 "a") 7 2 st = (Ok tt, st')
    /\ member_of 7 2 (db_auth (st_db st')) = false
    /\ subscriber_ids 7 (st_sessions st') = [1%N]
    /\ (exists w, handle_frame (OpenDoc 7) (st', mkWs (mkAuth 2 20 6 "b") ∅ [])
          = (Err (OpenRefused 7 "not a member of this doc"), w)).
Proof.
  set (t := match accept_invite 2 [90]%N 500 [1]%N [2]%N demo_tables with Ok r => r.2 | Err _ => auth_empty end).
  set (ss := (subscribe 7 20 2 "b" (subscribe 7 10 1 "a" sessions_new).2).2).
  set (st := mkState (with_auth (fun _ => t) db_empty) coordinator_new ss [] 600).
  assert (Hok : auth_ok t).
  { unfold t. destruct (accept_invite 2 [90]%N 500 [1]%N [2]%N demo_tables) as [[o t']|] eqn:E; [|apply auth_empty_ok].
    eapply accept_invite_ok; [apply demo_tables_ok|exact E]. }
  assert (Hr : roomy (su_sub_id <$> base.filter (fun x => su_account_id x = 2%N) (subs_of ss 7)) (ss_channels ss)).
  { intros id Hid. vm_compute in Hid. apply list_elem_of_singleton in Hid as ->. eexists. split; [by vm_compute|cbn; unfold CHANNEL_CAPACITY; lia]. }
  assert (Hn : NoDup (subscriber_ids 7 ss)) by (apply (bool_decide_unpack _); by vm_compute).
  pose proof (removal_revokes (mkAuth 1 10 5 "a") 7 2 st Hok Hn Hr) as H. cbn zeta in H.
  exists st, (remove_member_route (mkAuth 1 10 5 "a") 7 2 st).2.
  assert ((remove_member_route (mkAuth 1 10 5 "a") 7 2 st).1 = Ok tt) as E by by vm_compute.
  rewrite E in H. destruct H as (_ & _ & _ & _ & Hm & Hs & _ & _ & Hopen).
  split_and!; [done|by vm_compute| | | |].
  - rewrite <- E. by destruct (remove_member_route _ _ _ _).
  - rewrite Hm. by rewrite decide_True.
  - unfold subscriber_ids. by rewrite Hs.
  - eexists. by apply (Hopen (mkWs (mkAuth 2 20 6 "b") ∅ [])).
Defined.

(** The guarantee is of whole handlers. [OpenDoc] checks access and subscribes
    in two steps; a removal that runs between them finds no subscription to
    close, and the account stays subscribed, a member no more. *)
Example open_race_outlives_removal :
  let t := match accept_invite 2 [90]%N 500 [1]%N [2]%N demo_tables with Ok r => r.2 | Err _ => auth_empty end in
  let st := mkState (with_auth (fun _ => t) db_empty) coordinator_new sessions_new [] 600 in
  let ws := mkWs (mkAuth 2 20 6 "b") ∅ [] in
  let st' := (remove_member_route (mkAuth 1 10 5 "a") 7 2 st).2 in
  let w := bind_doc 7 true (st', ws) in
  (can_open 7 (st, ws)).1 = Ok true /\ w.1 = Ok tt
  /\ is_member 7 2 (st_db w.2.1) = false /\ su_account_id <$> subs_of (st_sessions w.2.1) 7 = [2%N].
Proof. vm_compute. split_and!; reflexivity. Qed.
