(* ===== verification/CatchUp.v ===== *)
(** The client and the server together: a device that connects ends with every
    row the server has. The engine's frames go to the server's handlers and
    the frames these send come back, in order, over a connection that stays
    up. *)
From S2P Require Import Prelude.
From S2P Require Import Wire.
From S2P Require Import Crypto.
From S2P Require Import Registers.
From S2P Require Import Tables.
From S2P Require Import Storage.
From S2P Require Import SyncDoc.
From S2P Require Import Engine.
From S2P Require Import Instances.
From S2P Require Import EngineFacts.
From S2P Require Import Recovery.
From S2P Require Import AuthDb.
From S2P Require Import ServerDb.
From S2P Require Import Coordinator.
From S2P Require Import Sessions.
From S2P Require Import Ws.
From S2P Require Import AuthFacts.
From S2P Require Import StreamFacts.

(** ** The rows past a cursor are consecutive *)

Lemma seqZ_sorted k : forall m, StronglySorted Z.le (seqZ m (Z.of_nat k)).
Proof.
  induction k as [|k IH]; intros m; [constructor|]. rewrite seqZ_cons by lia.
  replace (Z.pred (Z.of_nat (S k))) with (Z.of_nat k) by lia. constructor; [apply IH|].
  apply Forall_forall. intros z Hz%elem_of_seqZ. lia.
Qed.

Lemma rows_from db doc since : stream_ok db ->
  ((since + 1 < next_seq db doc)%Z -> is_Some (db_updates db !! (doc, (since + 1)%Z))) ->
  forall k, (since + 1 + Z.of_nat k < next_seq db doc)%Z -> is_Some (db_updates db !! (doc, (since + 1 + Z.of_nat k)%Z)).
Proof.
  intros Hok Hfirst. induction k as [|k IH]; intros Hk; [rewrite Z.add_0_r; apply Hfirst; lia|].
  destruct IH as [r Hr]; [lia|]. replace (since + 1 + Z.of_nat (S k))%Z with (since + 1 + Z.of_nat k + 1)%Z by lia.
  apply (so_dense _ Hok _ _ _ Hr). lia.
Qed.

Lemma rows_after_keys db doc since : stream_ok db ->
  ((since + 1 < next_seq db doc)%Z -> is_Some (db_updates db !! (doc, (since + 1)%Z))) ->
  (rows_after db doc since).*1 = seqZ (since + 1) (next_seq db doc - 1 - since).
Proof.
  intros Hok Hfirst. apply (StronglySorted_unique Z.le).
  - pose proof (rows_after_sorted db doc since) as Hs. induction Hs as [|a l _ IH Hall]; [constructor|].
    cbn. constructor; [done|]. apply Forall_fmap. eapply Forall_impl; [exact Hall|]. done.
  - destruct (Z.le_gt_cases (next_seq db doc - 1 - since) 0) as [Hle|Hgt]; [rewrite seqZ_nil by lia; constructor|].
    rewrite <- (Z2Nat.id (next_seq db doc - 1 - since)) by lia. apply seqZ_sorted.
  - apply NoDup_Permutation; [|apply NoDup_seqZ|].
    + eapply sublist_NoDup; [apply (NoDup_select (db_updates db) doc)|]. apply fmap_sublist, sublist_filter.
    + intros z. rewrite elem_of_seqZ, list_elem_of_fmap. split.
      * intros ([z' r] & -> & [Hlt Hin%elem_of_select]%list_elem_of_filter). cbn in *. apply (so_row _ Hok) in Hin. lia.
      * intros Hz. destruct (rows_from db doc since Hok Hfirst (Z.to_nat (z - since - 1))) as [r Hr]; [lia|].
        exists (z, r). split; [done|]. apply list_elem_of_filter. split; [cbn; lia|]. apply elem_of_select.
        rewrite <- Hr. do 2 f_equal. lia.
Qed.

(** [us] are the rows [from + 1], [from + 2], ... *)
Definition consecutive (from : N) (us : list StoredBlob) : Prop :=
  forall i u, us !! i = Some u -> sb_seq u = (from + N.of_nat i + 1)%N.

Lemma consecutive_app from us vs :
  consecutive from (us ++ vs) <-> consecutive from us /\ consecutive (from + N.of_nat (length us)) vs.
Proof.
  split.
  - intros Hc. split; intros i u Hi; [apply Hc; by apply lookup_app_l_Some|].
    rewrite (Hc (length us + i) u); [lia|]. by rewrite lookup_app_r, Nat.add_comm, Nat.add_sub by lia.
  - intros [H1 H2] i u Hi. apply lookup_app_Some in Hi as [Hi|[Hle Hi]]; [by apply H1|]. rewrite (H2 _ _ Hi). lia.
Qed.

Lemma consecutive_rows db doc since : stream_ok db -> (next_seq db doc <= 2 ^ 63)%Z ->
  (Z.of_N since < next_seq db doc)%Z ->
  ((Z.of_N since + 1 < next_seq db doc)%Z -> is_Some (db_updates db !! (doc, (Z.of_N since + 1)%Z))) ->
  let us := stored_row <$> rows_after db doc (as_i64 since) in
  consecutive since us /\ (since + N.of_nat (length us))%N = as_u64 (next_seq db doc - 1).
Proof.
  intros Hok Hmax Hlt Hfirst us. assert (Hs : as_i64 since = Z.of_N since) by (apply as_i64_small; unfold is_i63; lia).
  pose proof (rows_after_keys db doc (Z.of_N since) Hok Hfirst) as Hk. unfold us. rewrite Hs. split.
  - intros i u Hi. rewrite list_lookup_fmap in Hi. destruct (rows_after _ _ _ !! i) as [[z r]|] eqn:E; [|done].
    injection Hi as <-. apply (f_equal (fun l => l !! i)) in Hk. rewrite list_lookup_fmap, E in Hk. symmetry in Hk.
    apply lookup_seqZ in Hk as [Hz Hb]. cbn in Hz |- *. subst z. rewrite as_u64_small by lia. lia.
  - apply (f_equal length) in Hk. rewrite length_fmap, length_seqZ in Hk. rewrite length_fmap, Hk, as_u64_small by lia. lia.
Qed.

(** ** What the engine does with the frames of a pull *)

Section engine_side.
Context `{Cipher, CipherOk0 : !CipherOk, Oplog, OplogOk0 : !OplogOk, Entropy} {T : Type} `{LocalStorage T}.
Implicit Types (e : Engine T) (us : list StoredBlob) (v w : VV).

(** What the log of remote rows does not touch. *)
Definition face e := (e_state e, e_doc e, e_doc_id e, e_dek e, e_outbox e, e_last_contiguous_seq e).

Lemma log_face us known e : face (efor us (log_remote known) e).2 = face e.
Proof.
  revert e. induction us as [|u us IH]; intros e; [done|]. cbn [efor]. unfold mbind, E_bind. rewrite IH.
  unfold log_remote, stored, mbind, E_bind. cbn [fst snd]. by destruct (append_remote_wal _ _ _ _) as [[[? []]|] ?].
Qed.

Lemma ingest_consecutive us : forall e, consecutive (e_last_contiguous_seq e) us ->
  (efor us (fun u => ingest_seq (T := T) (sb_seq u)) e).2
  = set_last_contiguous_seq (e_last_contiguous_seq e + N.of_nat (length us)) e.
Proof.
  induction us as [|u us IH]; intros e Hc; [cbn; rewrite N.add_0_r; by destruct e|].
  cbn [efor]. unfold mbind, E_bind. assert (Hu : sb_seq u = (e_last_contiguous_seq e + 1)%N) by (rewrite (Hc 0 u eq_refl); lia).
  assert (Hi : (ingest_seq (T := T) (sb_seq u) e).2 = set_last_contiguous_seq (e_last_contiguous_seq e + 1) e).
  { unfold ingest_seq, get_e, mbind, E_bind. cbn. by rewrite decide_True, Hu. }
  rewrite Hi, IH.
  - unfold set_last_contiguous_seq. cbn. f_equal. lia.
  - intros i u' Hi'. cbn. rewrite (Hc (S i) u' Hi'). lia.
Qed.

(** Rows taken in: the document holds them and the frontier counts them. *)
Record took e us w e' : Prop := {
  tk_state : e_state e' = e_state e;
  tk_id : e_doc_id e' = e_doc_id e;
  tk_dek : e_dek e' = e_dek e;
  tk_outbox : e_outbox e' = e_outbox e;
  tk_frontier : e_last_contiguous_seq e' = (e_last_contiguous_seq e + N.of_nat (length us))%N;
  tk_captured : captured e' = w;
  tk_rows : w ⊑v doc_oplog_vv (e_doc e');
  tk_own : doc_oplog_vv (e_doc e) ⊑v doc_oplog_vv (e_doc e');
}.

Lemma took_app e us v e1 vs w e2 : took e us v e1 -> took e1 vs w e2 -> took e (us ++ vs) w e2.
Proof.
  intros [A1 A2 A3 A4 A5 A6 A7 A8] [B1 B2 B3 B4 B5 B6 B7 B8]. split; try congruence; try done.
  - rewrite B5, A5, length_app. lia.
  - by trans (doc_oplog_vv (e_doc e1)).
Qed.

Lemma took_nil e w : delivers (e_dek e) (captured e) [] w -> captured e ⊑v doc_oplog_vv (e_doc e) -> took e [] w e.
Proof. intros Hd Hc. inversion Hd; subst. split; try done; [cbn; lia]. Qed.

Lemma apply_takes us e w :
  delivers (e_dek e) (captured e) (sb_blob <$> us) w -> captured e ⊑v doc_oplog_vv (e_doc e) ->
  consecutive (e_last_contiguous_seq e) us -> took e us w (apply_remote_updates us e).2.
Proof.
  intros Hd Hle Hc. unfold apply_remote_updates. case_decide as Hu; [subst us; by apply took_nil|].
  unfold get_e, mbind, E_bind. cbn [fst snd].
  destruct (import_delivers _ _ _ _ Hd (e_doc e) vv_default) as (vv & d' & Ei & Hp & Ho & _ & Hg); [done|done|apply vle_default|].
  unfold apply_remote_batch. rewrite Ei. unfold modify_e, mbind, E_bind. cbn [fst snd].
  set (e1 := set_server_known_vv _ _).
  set (e2 := (efor us (log_remote (vv_encode (e_server_known_vv e1))) e1).2).
  assert (Hf : face e2 = face e1) by apply log_face. unfold face in Hf.
  injection Hf as F1 F2 F3 F4 F5 F6. rewrite ingest_consecutive by (by rewrite F6).
  set (e3 := set_last_contiguous_seq _ _).
  assert (Ht : took e us w e3).
  { split; unfold captured; cbn; rewrite ?F1, ?F2, ?F3, ?F4, ?F5, ?F6; try done. }
  unfold announce_frontier, get_e, mbind, E_bind. cbn [fst snd]. destruct (_ <? _)%N; [|done].
  destruct Ht as [A1 A2 A3 A4 A5 A6 A7 A8]. by split.
Qed.

(** The frames of a connection, in order. *)
Definition receive (frames : list ServerFrame) e : Engine T := foldl (fun e f => (handle_server_bytes (Some f) e).2) e frames.

Lemma receive_batch us e : e_state e = Pulling ->
  receive [UpdatesBatch (e_doc_id e) us false] e = (apply_remote_updates us e).2.
Proof.
  intros Hs. cbn. unfold handle_server_bytes, handle_server_frame, handle_updates_batch, get_e, mbind, E_bind.
  cbn [fst snd]. rewrite Hs, decide_False by done. cbn [server_frame_doc_id]. rewrite decide_False by (intros Hn; by apply Hn).
  by rewrite Hs, decide_False by done.
Qed.

Lemma delivers_app_inv dek v bs cs w : delivers dek v (bs ++ cs) w -> exists u, delivers dek v bs u /\ delivers dek u cs w.
Proof.
  revert v. induction bs as [|b bs IH]; intros v Hd; [exists v; split; [constructor|done]|].
  inversion Hd as [|? ? e ? ? Hg Hd']; subst. destruct (IH _ Hd') as (u & Hu & Hw). exists u. split; [by econstructor|done].
Qed.

(** All batches but the last. *)
Lemma receive_batches init : forall e w, e_state e = Pulling ->
  Forall (fun f => exists us, f = UpdatesBatch (e_doc_id e) us false /\ us <> []) init ->
  delivers (e_dek e) (captured e) (sb_blob <$> concat (batch_of <$> init)) w ->
  captured e ⊑v doc_oplog_vv (e_doc e) -> consecutive (e_last_contiguous_seq e) (concat (batch_of <$> init)) ->
  took e (concat (batch_of <$> init)) w (receive init e).
Proof.
  induction init as [|f init IH]; intros e w Hs Hf Hd Hle Hc; [by apply took_nil|].
  inversion Hf as [|? ? (us & -> & _) Hf']; subst. cbn [fmap list_fmap concat batch_of] in *.
  rewrite fmap_app in Hd. apply delivers_app_inv in Hd as (u & Hu & Hw). apply consecutive_app in Hc as [Hc1 Hc2].
  pose proof (apply_takes us e u Hu Hle Hc1) as Ht.
  change (receive (UpdatesBatch (e_doc_id e) us false :: init) e)
    with (receive init (receive [UpdatesBatch (e_doc_id e) us false] e)).
  rewrite receive_batch by done. destruct (Ht) as [A1 A2 A3 A4 A5 A6 A7 A8].
  eapply took_app; [exact Ht|]. apply IH; [congruence| | | |]; rewrite ?A2, ?A3, ?A5, ?A6; try done.
Qed.

(** The engine after the last batch: it starts a push if it has one. *)
Record settled (c : N) (o : VV) e : Prop := {
  sl_frontier : e_last_contiguous_seq e = c;
  sl_oplog : doc_oplog_vv (e_doc e) = o;
  sl_state : e_state e = Idle \/ e_state e = Pushing;
  sl_event : EvPulledInitial ∈ e_events e;
}.

Lemma settled_emit c o ev : keeps (settled c o) (emit (T := T) ev).
Proof. intros e [K1 K2 K3 K4]. split; try done. cbn. apply elem_of_app. by left. Qed.
Lemma settled_error c o s : keeps (settled c o) (error (T := T) s).
Proof. apply settled_emit. Qed.
Lemma settled_draw c o {A} (f : nat -> A) : keeps (settled c o) (draw (T := T) f).
Proof. intros e [K1 K2 K3 K4]. by split. Qed.
Lemma settled_stored c o {A} (f : Uuid -> Storage.call T A) : keeps (settled c o) (stored f).
Proof. intros e [K1 K2 K3 K4]. by split. Qed.
Lemma settled_modify c o f :
  (forall e, e_last_contiguous_seq (f e) = e_last_contiguous_seq e /\ doc_oplog_vv (e_doc (f e)) = doc_oplog_vv (e_doc e)
     /\ e_state (f e) = e_state e /\ e_events (f e) = e_events e) ->
  keeps (settled c o) (modify_e (T := T) f).
Proof. intros Hf e [K1 K2 K3 K4]. destruct (Hf e) as (E1 & E2 & E3 & E4). split; cbn; congruence. Qed.
Lemma settled_go c o : keeps (settled c o) (go (T := T) Pushing).
Proof. intros e [K1 K2 K3 K4]. split; try done. by right. Qed.
Lemma settled_encode c o f : keeps (settled c o) (encode_into_outbox (T := T) f).
Proof. intros e [K1 K2 K3 K4]. by split. Qed.
#[local] Hint Resolve settled_emit settled_error settled_draw settled_stored settled_go settled_encode : keeps.
#[local] Hint Extern 1 (keeps _ (modify_e _)) => (apply settled_modify; done) : keeps.

Lemma settled_push c o : keeps (settled c o) (try_start_push (T := T)).
Proof. unfold try_start_push, start_push_record, capture_local_ops. keep. destruct a1, a2; keep. Qed.

Lemma receive_last us e w : e_state e = Pulling ->
  delivers (e_dek e) (captured e) (sb_blob <$> us) w -> captured e ⊑v doc_oplog_vv (e_doc e) ->
  consecutive (e_last_contiguous_seq e) us ->
  exists o, settled (e_last_contiguous_seq e + N.of_nat (length us)) o (receive [UpdatesBatch (e_doc_id e) us true] e)
    /\ w ⊑v o /\ doc_oplog_vv (e_doc e) ⊑v o.
Proof.
  intros Hs Hd Hle Hc. destruct (apply_takes us e w Hd Hle Hc) as [A1 A2 A3 A4 A5 A6 A7 A8].
  exists (doc_oplog_vv (e_doc (apply_remote_updates us e).2)). split; [|done].
  cbn. unfold handle_server_bytes, handle_server_frame, handle_updates_batch, get_e, mbind, E_bind.
  cbn [fst snd]. rewrite Hs, decide_False by done. cbn [server_frame_doc_id]. rewrite decide_False by (intros Hn; by apply Hn).
  rewrite Hs, decide_False by done. cbn [fst snd]. rewrite A1, Hs, bool_decide_true by done. cbn [andb].
  apply settled_push. split; cbn; try done; [by left|]. apply elem_of_app. right. by left.
Qed.

(** ** A connection *)

(** The engine's queue goes to the server's handlers, what they send comes
    back. *)
Definition exchange (x : (AppState * Ws) * Engine T) : (AppState * Ws) * Engine T :=
  let conn := foldl (fun conn f => (handle_frame f conn).2) x.1 (e_outbox x.2) in
  ((conn.1, mkWs (ws_auth conn.2) (ws_open conn.2) []), receive (ws_socket conn.2) (set_outbox [] x.2)).

Lemma open_doc_step doc st ws :
  is_member doc (au_account_id (ws_auth ws)) (st_db st) = true -> ws_open ws !! doc = None ->
  exists st' ws', handle_frame (OpenDoc doc) (st, ws) = (Ok tt, (st', ws')) /\ st_db st' = st_db st
    /\ ws_socket ws' = ws_socket ws ++ [DocOpened doc (doc_epoch doc (st_db st))] /\ is_Some (ws_open ws' !! doc).
Proof.
  intros Hm Ho. unfold handle_frame, open_doc, can_open, bind_doc, mbind, W_bind, get_w. cbn [fst snd]. rewrite Hm. cbn.
  rewrite Ho. unfold in_sessions, set_open, send. cbn. eexists _, _. split; [reflexivity|]. cbn.
  split_and!; [done|done|]. rewrite lookup_partial_alter_eq. by eexists.
Qed.

Lemma pull_step doc since st ws : is_Some (ws_open ws !! doc) ->
  handle_frame (PullUpdates doc since) (st, ws) = pull_updates doc since (st, ws).
Proof. intros [o Ho]. unfold handle_frame, require_open, mbind, W_bind, get_w. cbn [fst snd]. by rewrite Ho. Qed.

Lemma doc_opened_step epoch e : e_state e = Opening ->
  receive [DocOpened (e_doc_id e) epoch] e
  = set_outbox (e_outbox e ++ [PullUpdates (e_doc_id e) (e_last_contiguous_seq e)])
      (set_state Pulling (set_server_epoch (Some epoch) e)).
Proof.
  intros Hs. cbn. unfold handle_server_bytes, handle_server_frame, handle_doc_opened, get_e, mbind, E_bind.
  cbn [fst snd]. rewrite Hs, decide_False by done. cbn [server_frame_doc_id]. rewrite decide_False by (intros Hn; by apply Hn).
  rewrite Hs, decide_False by (intros Hn; by apply Hn). done.
Qed.

(** A pull on an open connection, from the engine's request to the last
    batch. *)
Lemma pull_round doc st ws e w :
  stream_ok (st_db st) -> (next_seq (st_db st) doc <= 2 ^ 63)%Z -> is_Some (ws_open ws !! doc) -> ws_socket ws = [] ->
  e_state e = Pulling -> e_doc_id e = doc -> captured e ⊑v doc_oplog_vv (e_doc e) ->
  let c := e_last_contiguous_seq e in
  e_outbox e = [PullUpdates doc c] ->
  (Z.of_N c < next_seq (st_db st) doc)%Z -> below_floor (st_db st) doc c = false ->
  ((Z.of_N c + 1 < next_seq (st_db st) doc)%Z -> is_Some (db_updates (st_db st) !! (doc, (Z.of_N c + 1)%Z))) ->
  delivers (e_dek e) (captured e) (sb_blob <$> (stored_row <$> rows_after (st_db st) doc (as_i64 c))) w ->
  let r := exchange ((st, ws), e) in
  r.1.1 = st /\ exists o, settled (as_u64 (next_seq (st_db st) doc - 1)) o r.2 /\ w ⊑v o /\ doc_oplog_vv (e_doc e) ⊑v o.
Proof.
  intros Hok Hmax Hopen Hsock Hs Hid Hle c Hout Hc Hfloor Hfirst Hd r.
  destruct (consecutive_rows _ _ _ Hok Hmax Hc Hfirst) as [Hcons Hlen]. cbn zeta in *.
  destruct (pull_frames_spec (st_db st) doc Hok Hmax (pull_fuel doc (st_db st)) c) as (init & us & Hp & Hi & _ & Hall);
    [apply Nat.lt_succ_r, length_filter|].
  assert (Hx : r = ((st, mkWs (ws_auth ws) (ws_open ws) []), receive (init ++ [UpdatesBatch doc us true]) (set_outbox [] e))).
  { unfold r, exchange. cbn [fst snd]. rewrite Hout. cbn [foldl]. rewrite pull_step by done.
    assert (E : pull_updates doc c (st, ws) = (Ok tt, (st, mkWs (ws_auth ws) (ws_open ws) (init ++ [UpdatesBatch doc us true])))).
    { unfold pull_updates, mbind, W_bind, get_w. cbn [fst snd]. rewrite Hp. unfold below_floor in Hfloor.
      destruct (latest_snapshot_meta doc (st_db st)); [rewrite Hfloor|]; rewrite send_all_spec, Hsock; done. }
    rewrite E. done. }
  rewrite Hx. cbn [fst snd]. split; [done|]. rewrite <- Hall in Hcons, Hlen, Hd. set (e1 := set_outbox [] e).
  rewrite fmap_app in Hd. apply delivers_app_inv in Hd as (u & Hu & Hw). apply consecutive_app in Hcons as [Hc1 Hc2].
  pose proof (receive_batches init e1 u Hs) as Ht. cbn in Ht. rewrite Hid in Ht. specialize (Ht Hi Hu Hle Hc1).
  destruct Ht as [A1 A2 A3 A4 A5 A6 A7 A8]. set (e2 := receive init e1) in *.
  destruct (receive_last us e2 w) as (o & Hset & Hwo & Hoo); [by rewrite A1| | | |].
  { rewrite A3, A6. exact Hw. } { by rewrite A6. } { rewrite A5. exact Hc2. }
  exists o. unfold receive in *. rewrite foldl_app. fold e2. rewrite A2 in Hset. cbn [e1 set_outbox e_doc_id] in Hset. rewrite Hid in Hset.
  split_and!; [|done|by trans (doc_oplog_vv (e_doc e2))].
  assert (Hn : (e_last_contiguous_seq e2 + N.of_nat (length us))%N = as_u64 (next_seq (st_db st) doc - 1)).
  { rewrite A5, <- Hlen, length_app. cbn. unfold c. lia. }
  rewrite <- Hn. exact Hset.
Qed.
End engine_side.

(** C4: Connecting catches a device up. A device whose frontier the server can
    still serve connects: in two round trips, without an error on either
    side, the engine has every row the server holds past its frontier (the
    document includes them and what it had before), its frontier is the
    server's last sequence number, the initial pull is announced, and it is
    idle or already pushing its own operations. The rows are assumed to be
    what devices push: sealed updates, each building on what precedes it. *)
Theorem connect_catches_up `{Cipher, CipherOk0 : !CipherOk, Oplog, OplogOk0 : !OplogOk, Entropy} {T : Type}
    `{LocalStorage T} doc (w : VV) st ws (e : Engine T) :
  stream_ok (st_db st) -> (next_seq (st_db st) doc <= 2 ^ 63)%Z ->
  is_member doc (au_account_id (ws_auth ws)) (st_db st) = true -> ws_open ws !! doc = None -> ws_socket ws = [] ->
  e_state e = Disconnected -> e_doc_id e = doc -> e_outbox e = [] -> captured e ⊑v doc_oplog_vv (e_doc e) ->
  let c := e_last_contiguous_seq e in
  (Z.of_N c < next_seq (st_db st) doc)%Z -> below_floor (st_db st) doc c = false ->
  ((Z.of_N c + 1 < next_seq (st_db st) doc)%Z -> is_Some (db_updates (st_db st) !! (doc, (Z.of_N c + 1)%Z))) ->
  delivers (e_dek e) (captured e) ((fun kv => ur_payload kv.2) <$> rows_after (st_db st) doc (Z.of_N c)) w ->
  let r := exchange (exchange ((st, ws), (handle_connected e).2)) in
  st_db r.1.1 = st_db st
  /\ e_last_contiguous_seq r.2 = as_u64 (next_seq (st_db st) doc - 1)
  /\ w ⊑v doc_oplog_vv (e_doc r.2) /\ doc_oplog_vv (e_doc e) ⊑v doc_oplog_vv (e_doc r.2)
  /\ (e_state r.2 = Idle \/ e_state r.2 = Pushing) /\ EvPulledInitial ∈ e_events r.2.
Proof.
  intros Hok Hmax Hm Ho Hsock Hs Hid Hout Hle c Hc Hfloor Hfirst Hd r.
  set (e1 := (handle_connected e).2).
  assert (He1 : e1 = set_outbox [OpenDoc doc] (set_events (e_events e ++ [EvConnStateChanged true]) (set_state Opening e))).
  { unfold e1, handle_connected, get_e, mbind, E_bind. cbn [fst snd]. rewrite Hs, decide_False by (intros Hn; by apply Hn).
    unfold go, emit, send_or_disconnect, encode_into_outbox, modify_e, mbind, E_bind. cbn. by rewrite Hout, Hid. }
  destruct (open_doc_step doc st ws Hm Ho) as (st' & ws' & Hopen & Hdb & Hsock' & Hin). rewrite Hsock in Hsock'.
  pose (e2 := set_outbox [PullUpdates doc c] (set_state Pulling (set_server_epoch (Some (doc_epoch doc (st_db st))) (set_outbox [] e1)))).
  assert (Hfirst_round : exchange ((st, ws), e1) = ((st', mkWs (ws_auth ws') (ws_open ws') []), e2)).
  { assert (Eo : e_outbox e1 = [OpenDoc doc]) by (by rewrite He1). unfold exchange. cbn [fst snd]. rewrite Eo. cbn [foldl].
    rewrite Hopen. cbn [fst snd]. rewrite Hsock'. cbn [app].
    pose proof (doc_opened_step (doc_epoch doc (st_db st)) (set_outbox [] e1)) as Hstep.
    assert (Ei : e_doc_id (set_outbox [] e1) = doc) by (by rewrite He1). rewrite Ei in Hstep.
    rewrite Hstep by (by rewrite He1). unfold e2. do 2 f_equal. by rewrite He1. }
  assert (Hd2 : captured e2 = captured e /\ e_dek e2 = e_dek e /\ e_last_contiguous_seq e2 = c /\ e_doc e2 = e_doc e /\ e_doc_id e2 = doc)
    by (unfold e2; rewrite He1; done).
  destruct Hd2 as (E1 & E2 & E3 & E4 & E5).
  pose proof (pull_round doc st' (mkWs (ws_auth ws') (ws_open ws') []) e2 w) as Hround. cbn zeta in Hround.
  rewrite E1, E2, E3, E4, E5, Hdb in Hround.
  destruct Hround as [Hst (o & [K1 K2 K3 K4] & Hw & Hown)]; try done.
  { rewrite <- list_fmap_compose. rewrite as_i64_small by (unfold is_i63; lia). exact Hd. }
  unfold r. fold e1. rewrite Hfirst_round, Hst. rewrite K1, K2. done.
Qed.

(** Account 1's device has operation 7 of its own and connects to document 7,
    which holds two rows of another. *)
Definition two_rows_db : Db :=
  match insert_updates 7 30 [mkPush 70 (sb_blob (witness_row 1)); mkPush 71 (sb_blob (witness_row 2))]
          (with_auth (fun _ => demo_tables) db_empty) with
  | Ok (_, db) => db
  | Err _ => db_empty
  end.
Definition offline : Engine MemInner := (handle first_edit (engine_new sync_doc_empty 7 witness_dek 0 mem_default)).2.

Lemma two_rows_db_ok : stream_ok two_rows_db.
Proof.
  unfold two_rows_db, insert_updates. case_decide; [done|]. destruct (insert_all _ _ _ _) as [[ins db]|] eqn:E; [|by split].
  apply insert_all_keeps in E as [Hok _]; [done|by split].
Qed.

Lemma connect_catches_up_witness :
  let st := mkState two_rows_db coordinator_new sessions_new [] 0 in
  let r := exchange (exchange ((st, mkWs (mkAuth 1 10 5 "a") ∅ []), (handle_connected offline).2)) in
  e_last_contiguous_seq r.2 = 2%N /\ vle ({[1%N; 2%N]} : gset N) (doc_oplog_vv (e_doc r.2))
  /\ e_state r.2 = Pushing /\ EvPulledInitial ∈ e_events r.2.
Proof.
  intros st r. assert (Hmax : (next_seq two_rows_db 7 <= 2 ^ 63)%Z) by by vm_compute.
  destruct (connect_catches_up (H0 := set_oplog) 7 ({[1%N; 2%N]} : gset N) st (mkWs (mkAuth 1 10 5 "a") ∅ []) offline
    two_rows_db_ok Hmax) as (_ & Hf & Hw & _ & Hs & He);
    [vm_compute; reflexivity ..| | |].
  - intros _. vm_compute. eexists. reflexivity.
  - assert (Hrows : (fun kv : Z * UpdateRow => ur_payload kv.2) <$> rows_after two_rows_db 7 0
      = [sb_blob (witness_row 1); sb_blob (witness_row 2)]) by (vm_compute; reflexivity).
    cbn [st st_db]. change (Z.of_N (e_last_contiguous_seq offline)) with 0%Z. rewrite Hrows.
    assert (Hg : forall n (v : gset N), good_blob (H0 := set_oplog) witness_dek v (sb_blob (witness_row n)) ({[n]} : gset N)).
    { intros n v. apply (good_sealed v ∅ {[n]}). set_solver. }
    eapply delivers_cons; [apply Hg|]. eapply delivers_cons; [apply Hg|].
    assert (Hv : vv_merge (vv_merge (captured offline) ({[1%N]} : gset N)) ({[2%N]} : gset N) = ({[1%N; 2%N]} : gset N))
      by (vm_compute; reflexivity). rewrite Hv. constructor.
  - fold r in Hf, Hw, Hs, He. split_and!; [rewrite Hf; by vm_compute|exact Hw| |exact He].
    destruct Hs as [Hs|Hs]; [|exact Hs]. exfalso. clear -Hs. vm_compute in Hs. discriminate Hs.
Defined.
