(* ===== verification/Ordering.v ===== *)
(** Comparators and the stable sort: [Ordering], [Ord::cmp], [Ordering::then]
    and [slice::sort_by] as search, place suggestions and the agenda use them. *)
From S2P Require Import Prelude.

(** ** Comparators *)

(** The laws of [Ord], on the comparators that are passed to [sort_by]. *)
Class Ordered {A} (cmp : A -> A -> comparison) : Prop := {
  ord_sym x y : cmp y x = CompOpp (cmp x y);
  ord_eq x y z : cmp x y = Eq -> cmp x z = cmp y z;
  ord_lt x y z : cmp x y = Lt -> cmp y z = Lt -> cmp x z = Lt;
}.

#[global] Hint Mode Ordered + ! : typeclass_instances.

(** [cmp] on a key, [b.cmp(&a)], and [Ordering::then]. *)
Definition cmp_on {A B} (f : A -> B) (cmp : B -> B -> comparison) (x y : A) : comparison := cmp (f x) (f y).
Definition cmp_rev {A} (cmp : A -> A -> comparison) (x y : A) : comparison := cmp y x.
Definition cmp_then {A} (c c' : A -> A -> comparison) (x y : A) : comparison :=
  match c x y with Eq => c' x y | o => o end.

#[global] Hint Opaque cmp_on cmp_rev cmp_then : typeclass_instances.

(** [Ord for str]. *)
Definition str_cmp (s t : string) : comparison :=
  if bytes_lt (bytes s) (bytes t) then Lt else if decide (s = t) then Eq else Gt.

#[export] Instance Ordered_Z : Ordered Z.compare.
Proof.
  split.
  - intros x y. apply Z.compare_antisym.
  - by intros x y z ->%Z.compare_eq_iff.
  - intros x y z. rewrite !Z.compare_lt_iff. lia.
Qed.

#[export] Instance Ordered_nat : Ordered Nat.compare.
Proof.
  split.
  - intros x y. apply Nat.compare_antisym.
  - by intros x y z ->%Nat.compare_eq_iff.
  - intros x y z. rewrite !Nat.compare_lt_iff. lia.
Qed.

Lemma bytes_lt_asym l k : bytes_lt l k = true -> bytes_lt k l = false.
Proof.
  intros H. destruct (bytes_lt k l) eqn:E; [|done]. pose proof (bytes_lt_trans _ _ _ H E) as Hx. by rewrite bytes_lt_irrefl in Hx.
Qed.

Lemma str_cmp_lt s t : str_cmp s t = Lt <-> bytes_lt (bytes s) (bytes t) = true.
Proof. unfold str_cmp. destruct (bytes_lt _ _); [done|]. by case_decide. Qed.
Lemma str_cmp_eq s t : str_cmp s t = Eq <-> s = t.
Proof.
  unfold str_cmp. destruct (bytes_lt _ _) eqn:E; [|by case_decide]. split; [done|]. intros ->. by rewrite bytes_lt_irrefl in E.
Qed.
Lemma str_cmp_refl s : str_cmp s s = Eq.
Proof. by apply str_cmp_eq. Qed.

#[export] Instance Ordered_str : Ordered str_cmp.
Proof.
  split.
  - intros s t. unfold str_cmp. destruct (bytes_lt_total (bytes s) (bytes t)) as [H|[H|H]].
    + rewrite H, (bytes_lt_asym _ _ H), decide_False; [done|]. intros ->. by rewrite bytes_lt_irrefl in H.
    + apply bytes_inj in H as ->. by rewrite !bytes_lt_irrefl, decide_True.
    + rewrite H, (bytes_lt_asym _ _ H), decide_False; [done|]. intros ->. by rewrite bytes_lt_irrefl in H.
  - by intros s t u ->%str_cmp_eq.
  - intros s t u. rewrite !str_cmp_lt. apply bytes_lt_trans.
Qed.

#[export] Instance Ordered_on {A B} (f : A -> B) cmp : Ordered cmp -> Ordered (cmp_on f cmp).
Proof.
  intros H. unfold cmp_on. split; intros.
  - apply (ord_sym (cmp := cmp)).
  - by apply (ord_eq (cmp := cmp)).
  - by eapply (ord_lt (cmp := cmp)).
Qed.

#[export] Instance Ordered_rev {A} (cmp : A -> A -> comparison) : Ordered cmp -> Ordered (cmp_rev cmp).
Proof.
  intros H. unfold cmp_rev. split; intros.
  - apply (ord_sym (cmp := cmp)).
  - rewrite (ord_sym (cmp := cmp) x z), (ord_sym (cmp := cmp) y z). f_equal. apply (ord_eq (cmp := cmp)).
    by rewrite (ord_sym (cmp := cmp)), H0.
  - by eapply (ord_lt (cmp := cmp)).
Qed.

#[export] Instance Ordered_then {A} (c c' : A -> A -> comparison) : Ordered c -> Ordered c' -> Ordered (cmp_then c c').
Proof.
  intros Hc Hc'. unfold cmp_then. split.
  - intros x y. rewrite (ord_sym (cmp := c) x y). destruct (c x y); cbn; [|done..]. apply (ord_sym (cmp := c')).
  - intros x y z. destruct (c x y) eqn:E; [|done..]. intros E'. rewrite (ord_eq (cmp := c) _ _ z E). destruct (c y z); [|done..]. by apply (ord_eq (cmp := c')).
  - intros x y z. destruct (c x y) eqn:E1; [| |done].
    + intros E1'. rewrite (ord_eq (cmp := c) _ _ z E1). destruct (c y z); [|done..]. by apply (ord_lt (cmp := c')).
    + intros _. destruct (c y z) eqn:E2; [| |done].
      * intros _. assert (E : c x z = Lt); [|by rewrite E].
        rewrite (ord_sym (cmp := c) z x), (ord_eq (cmp := c) z y x), (ord_sym (cmp := c) x y), E1; [done|]. by rewrite (ord_sym (cmp := c) y z), E2.
      * intros _. by rewrite (ord_lt (cmp := c) _ _ _ E1 E2).
Qed.

Lemma cmp_then_eq {A} (c c' : A -> A -> comparison) x y : cmp_then c c' x y = Eq <-> c x y = Eq /\ c' x y = Eq.
Proof. unfold cmp_then. destruct (c x y); naive_solver. Qed.

(** ** The stable sort *)

Section sort.
Context {A : Type} (cmp : A -> A -> comparison).

Fixpoint insert_by (x : A) (l : list A) : list A :=
  match l with
  | [] => [x]
  | y :: k => match cmp x y with Gt => y :: insert_by x k | _ => x :: l end
  end.

(** [slice::sort_by]: equal elements keep their order. *)
Fixpoint sort_by (l : list A) : list A :=
  match l with [] => [] | x :: l => insert_by x (sort_by l) end.

Definition cmp_le (x y : A) : Prop := cmp x y <> Gt.

Lemma insert_by_perm x l : insert_by x l ≡ₚ x :: l.
Proof. induction l as [|y l IH]; [done|]. cbn. destruct (cmp x y); [done..|]. rewrite IH. apply Permutation_swap. Qed.
Lemma sort_by_perm l : sort_by l ≡ₚ l.
Proof. induction l as [|x l IH]; [done|]. cbn. by rewrite insert_by_perm, IH. Qed.
Lemma elem_of_sort_by x l : x ∈ sort_by l <-> x ∈ l.
Proof. by rewrite sort_by_perm. Qed.

Context {HO : Ordered cmp}.

Lemma cmp_refl x : cmp x x = Eq.
Proof. pose proof (ord_sym (cmp := cmp) x x) as H. by destruct (cmp x x). Qed.
Lemma cmp_le_total x y : cmp_le x y \/ cmp_le y x.
Proof. unfold cmp_le. rewrite (ord_sym (cmp := cmp) x y). destruct (cmp x y); cbn; [by left..|by right]. Qed.
Lemma cmp_le_trans x y z : cmp_le x y -> cmp_le y z -> cmp_le x z.
Proof.
  unfold cmp_le. destruct (cmp x y) eqn:E1; [| |done].
  - by rewrite (ord_eq (cmp := cmp) _ _ z E1).
  - intros _. destruct (cmp y z) eqn:E2; [| |done]; intros _.
    + rewrite (ord_sym (cmp := cmp) z x), (ord_eq (cmp := cmp) z y x), (ord_sym (cmp := cmp) x y), E1; [done|]. by rewrite (ord_sym (cmp := cmp) y z), E2.
    + by rewrite (ord_lt (cmp := cmp) _ _ _ E1 E2).
Qed.

Lemma insert_by_sorted x l : StronglySorted cmp_le l -> StronglySorted cmp_le (insert_by x l).
Proof.
  induction 1 as [|y l Hl IH Hy]; [by repeat constructor|]. cbn. destruct (cmp x y) eqn:E.
  - constructor; [by constructor|]. constructor; [unfold cmp_le; by rewrite E|]. eapply Forall_impl; [exact Hy|].
    intros z. apply cmp_le_trans. unfold cmp_le. by rewrite E.
  - constructor; [by constructor|]. constructor; [unfold cmp_le; by rewrite E|]. eapply Forall_impl; [exact Hy|].
    intros z. apply cmp_le_trans. unfold cmp_le. by rewrite E.
  - constructor; [done|]. apply Forall_forall. intros z Hz. rewrite insert_by_perm in Hz. apply elem_of_cons in Hz as [->|Hz].
    + unfold cmp_le. by rewrite (ord_sym (cmp := cmp) x y), E.
    + rewrite Forall_forall in Hy. by apply Hy.
Qed.
Lemma sort_by_sorted l : StronglySorted cmp_le (sort_by l).
Proof. induction l as [|x l IH]; [constructor|]. by apply insert_by_sorted. Qed.

(** Elements that compare equal keep the order they came in. *)
Lemma insert_by_class x y l : StronglySorted cmp_le l ->
  base.filter (fun z => cmp z y = Eq) (insert_by x l) = base.filter (fun z => cmp z y = Eq) (x :: l).
Proof.
  induction 1 as [|z l Hl IH Hz]; [done|]. cbn [insert_by]. destruct (cmp x z) eqn:E; [done..|].
  rewrite !filter_cons. rewrite IH, filter_cons.
  destruct (decide (cmp z y = Eq)) as [Ez|], (decide (cmp x y = Eq)) as [Ex|]; try done.
  rewrite (ord_sym (cmp := cmp) y x), (ord_eq (cmp := cmp) y z x) in Ex by (by rewrite (ord_sym (cmp := cmp) z y), Ez). rewrite (ord_sym (cmp := cmp) x z), E in Ex. done.
Qed.
Lemma sort_by_stable y l : base.filter (fun z => cmp z y = Eq) (sort_by l) = base.filter (fun z => cmp z y = Eq) l.
Proof. induction l as [|x l IH]; [done|]. cbn [sort_by]. rewrite insert_by_class by apply sort_by_sorted. by rewrite !filter_cons, IH. Qed.

(** Without ties the order of the input is lost. *)
Lemma sorted_unique l k : StronglySorted cmp_le l -> StronglySorted cmp_le k -> l ≡ₚ k ->
  (forall x y, x ∈ l -> y ∈ l -> cmp x y = Eq -> x = y) -> l = k.
Proof.
  intros Hl. revert k. induction Hl as [|x l Hl IH Hx]; intros k Hk Hp Hties.
  - by apply Permutation_nil_l in Hp.
  - destruct Hk as [|y k Hk Hy]; [by apply Permutation_nil_r in Hp|].
    assert (Hxy : x = y).
    { assert (Hin : y ∈ x :: l) by (rewrite Hp; by left). apply elem_of_cons in Hin as [->|Hin]; [done|].
      assert (Hin' : x ∈ y :: k) by (rewrite <- Hp; by left). apply elem_of_cons in Hin' as [->|Hin']; [done|].
      rewrite Forall_forall in Hx, Hy. specialize (Hx _ Hin). specialize (Hy _ Hin'). unfold cmp_le in Hx, Hy.
      rewrite (ord_sym (cmp := cmp) x y) in Hy. apply Hties; [by left|by right|]. by destruct (cmp x y). }
    subst y. f_equal. apply IH; [done|by apply Permutation_cons_inv in Hp|]. intros a b Ha Hb. apply Hties; by right.
Qed.
Lemma sort_by_unique l k : l ≡ₚ k -> (forall x y, x ∈ l -> y ∈ l -> cmp x y = Eq -> x = y) -> sort_by l = sort_by k.
Proof.
  intros Hp Hties. apply sorted_unique; try apply sort_by_sorted; [by rewrite !sort_by_perm|].
  intros x y. rewrite !elem_of_sort_by. apply Hties.
Qed.

(** Sorted lists with the same classes, each in the same order, are equal. *)
Lemma sorted_classes l : StronglySorted cmp_le l -> forall k, StronglySorted cmp_le k ->
  (forall y, base.filter (fun z => cmp z y = Eq) l = base.filter (fun z => cmp z y = Eq) k) -> l = k.
Proof.
  induction 1 as [|x l Hl IH Hx]; intros k Hk Hf; destruct Hk as [|y k Hk Hy].
  - done.
  - specialize (Hf y). by rewrite filter_cons, decide_True in Hf by apply cmp_refl.
  - specialize (Hf x). by rewrite filter_cons, decide_True in Hf by apply cmp_refl.
  - assert (Hxk : x ∈ y :: k).
    { apply (list_elem_of_filter (fun z => cmp z x = Eq)). rewrite <- Hf. apply list_elem_of_filter. split; [apply cmp_refl|by left]. }
    assert (Hyl : y ∈ x :: l).
    { apply (list_elem_of_filter (fun z => cmp z y = Eq)). rewrite Hf. apply list_elem_of_filter. split; [apply cmp_refl|by left]. }
    assert (Hxy : cmp y x = Eq).
    { rewrite Forall_forall in Hx, Hy. apply elem_of_cons in Hxk as [->|Hxk]; [apply cmp_refl|].
      apply elem_of_cons in Hyl as [->|Hyl]; [apply cmp_refl|]. specialize (Hx _ Hyl). specialize (Hy _ Hxk). unfold cmp_le in Hx, Hy.
      rewrite (ord_sym (cmp := cmp) y x) in Hx. by destruct (cmp y x). }
    pose proof (Hf x) as E. rewrite !filter_cons, !decide_True in E by (done || apply cmp_refl). injection E as -> _. f_equal.
    apply IH; [done|]. intros w. specialize (Hf w). rewrite !filter_cons in Hf. case_decide; [by injection Hf|done].
Qed.

(** A class of a stable sort is the stable sort of the class. *)
Lemma filter_sorted (P : A -> Prop) `{forall x, Decision (P x)} (R : A -> A -> Prop) l : StronglySorted R l -> StronglySorted R (base.filter P l).
Proof.
  induction 1 as [|x l Hl IH Hx]; [constructor|]. rewrite filter_cons. case_decide; [|done]. constructor; [done|].
  rewrite Forall_forall in Hx |- *. intros y [_ Hy]%list_elem_of_filter. by apply Hx.
Qed.
Lemma filter_sort_by (P : A -> Prop) `{forall x, Decision (P x)} l : base.filter P (sort_by l) = sort_by (base.filter P l).
Proof.
  apply sorted_classes; [apply filter_sorted, sort_by_sorted|apply sort_by_sorted|].
  intros y.
  assert (Hswap : forall k : list A, base.filter (fun z => cmp z y = Eq) (base.filter P k) = base.filter P (base.filter (fun z => cmp z y = Eq) k)).
  { induction k as [|a k IH]; [done|]. rewrite !filter_cons. repeat case_decide; rewrite ?filter_cons; repeat case_decide; try done; by rewrite IH. }
  by rewrite Hswap, sort_by_stable, sort_by_stable, Hswap.
Qed.

(** Blocks that never tie with one another sort the same in any order. *)
Lemma filter_blocks_perm {K} (P : A -> Prop) `{forall x, Decision (P x)} (f : K -> list A) bs bs' : bs ≡ₚ bs' -> NoDup bs ->
  (forall a b x y, a ∈ bs -> b ∈ bs -> x ∈ f a -> y ∈ f b -> P x -> P y -> a = b) ->
  base.filter P (bs ≫= f) = base.filter P (bs' ≫= f).
Proof.
  induction 1 as [|a bs bs' Hp IH|a b bs|bs1 bs2 bs3 Hp1 IH1 Hp2 IH2]; intros Hnd Hone.
  - done.
  - apply NoDup_cons in Hnd as [_ Hnd]. cbn. rewrite !filter_app. f_equal. apply IH; [done|].
    intros c e x y Hc He. apply Hone; by right.
  - apply NoDup_cons in Hnd as [Hb _]. cbn. rewrite !filter_app, !(assoc_L (++)). f_equal.
    destruct (base.filter P (f b)) as [|x fb] eqn:Eb; [by rewrite app_nil_r|].
    destruct (base.filter P (f a)) as [|y fa] eqn:Ea; [by rewrite app_nil_r|]. exfalso.
    assert (Hx : x ∈ base.filter P (f b)) by (rewrite Eb; by left). assert (Hy : y ∈ base.filter P (f a)) by (rewrite Ea; by left).
    apply list_elem_of_filter in Hx as [Px Hx]. apply list_elem_of_filter in Hy as [Py Hy].
    assert (b = a) as -> by (apply (Hone b a x y); try done; [by left|by right; left]). apply Hb. by left.
  - rewrite IH1 by done. apply IH2; [by rewrite <- Hp1|]. intros a b x y Ha Hb. apply Hone; by rewrite Hp1.
Qed.

Lemma sort_blocks {K} (f : K -> list A) bs bs' : bs ≡ₚ bs' -> NoDup bs ->
  (forall a b x y, a ∈ bs -> b ∈ bs -> x ∈ f a -> y ∈ f b -> cmp x y = Eq -> a = b) ->
  sort_by (bs ≫= f) = sort_by (bs' ≫= f).
Proof.
  intros Hp Hnd Hone. apply sorted_classes; try apply sort_by_sorted. intros w. rewrite !sort_by_stable.
  apply filter_blocks_perm; [done|done|]. intros a b x y Ha Hb Hx Hy Ex Ey. apply (Hone a b x y); try done.
  rewrite (ord_eq (cmp := cmp) x w y Ex), (ord_sym (cmp := cmp) y w), Ey. done.
Qed.
End sort.
