(* ===== verification/Search.v ===== *)
(** The plaintext search index (core/src/search.rs) and the query path that
    brings it up to date with the document (core/src/doc.rs, [search]). *)
From S2P Require Import Prelude.
From S2P Require Import Loro.
From S2P Require Import Lifecycle.
From S2P Require Import Registers.
From S2P Require Import Projection.
From S2P Require Import Notes.
From S2P Require Import Events.
From S2P Require Import DocCore.
From S2P Require Import Ordering.

(** ** Tokens *)

(** The Unicode tables: [unicode_normalization] and the ones behind [char]. *)
Class Unicode : Type := {
  nfkd : list N -> list N;
  is_combining_mark : N -> bool;
  is_alphanumeric : N -> bool;
  to_lowercase : N -> list N;
}.

(** A token is its sequence of scalars. *)
Abbreviation token := (list N).

(** [token.starts_with(prefix)]. *)
Fixpoint starts_with (t prefix : token) : bool :=
  match prefix, t with
  | [], _ => true
  | p :: prefix, c :: t => bool_decide (c = p) && starts_with t prefix
  | _ :: _, [] => false
  end.

Section unicode.
Context `{Unicode}.

(** The tokenizer's loop: what is out, what was seen, the token being read. *)
Record Folding : Type := mkFolding {
  fo_out : list token;
  fo_seen : gset token;
  fo_cur : token;
}.

Definition flush (f : Folding) : Folding :=
  if decide (fo_cur f = []) then f
  else if decide (fo_cur f ∈ fo_seen f) then mkFolding (fo_out f) (fo_seen f) []
  else mkFolding (fo_out f ++ [fo_cur f]) ({[fo_cur f]} ∪ fo_seen f) [].

Definition fold_char (f : Folding) (c : N) : Folding :=
  if is_combining_mark c then f
  else if is_alphanumeric c then mkFolding (fo_out f) (fo_seen f) (fo_cur f ++ to_lowercase c)
  else flush f.

Definition tokenize (input : string) : list token :=
  fo_out (flush (foldl fold_char (mkFolding [] ∅ []) (nfkd (chars input)))).

(** The name filter of the pickers. *)
Definition matches_name (name query : string) : bool :=
  match tokenize query with
  | [] => true
  | wanted => forallb (fun w => existsb (fun t => starts_with t w) (tokenize name)) wanted
  end.
End unicode.

(** ** Documents of the index *)

Inductive SearchKind : Type := KItem | KList.
#[export] Instance SearchKind_eq_dec : EqDecision SearchKind.
Proof. solve_decision. Defined.

Record SearchResult : Type := mkResult {
  sr_id : string;
  sr_kind : SearchKind;
  sr_title : string;
  sr_body : option string;
  sr_list_id : option string;
  sr_lifecycle : option ItemLifecycle;
  sr_score : N;
}.

Record SearchDoc : Type := mkSearchDoc {
  sd_id : string;
  sd_kind : SearchKind;
  sd_title : string;
  sd_body : string;
  sd_list_id : option string;
  sd_lifecycle : option ItemLifecycle;
  sd_updated_at : Z;
  sd_title_tokens : gset token;
  sd_body_tokens : gset token;
  sd_context_tokens : gset token;
}.

Definition all_tokens (sd : SearchDoc) : list token :=
  elements (sd_title_tokens sd) ++ elements (sd_body_tokens sd) ++ elements (sd_context_tokens sd).

Definition lifecycle_rank (l : option ItemLifecycle) : N :=
  match l with
  | Some LInProgress => 5
  | Some LReview => 4
  | Some LTodo => 3
  | Some LBacklog => 2
  | Some LDone | Some LCancelled => 1
  | Some LBinned | None => 0
  end.

(** ** The index *)

Record Dirty : Type := mkDirty { dt_all : bool; dt_items : gset string; dt_lists : gset string }.
Definition dirty_default : Dirty := mkDirty false ∅ ∅.
Definition is_clean (dt : Dirty) : bool := negb (dt_all dt) && bool_decide (dt_items dt = ∅) && bool_decide (dt_lists dt = ∅).

Record SearchIndex : Type := mkSearchIndex {
  docs_by_id : gmap string SearchDoc;
  postings : gmap token (gset string);
  items_by_list : gmap string (gset string);
  list_names : gmap string string;
  dirty : Dirty;
}.
Definition search_index_default : SearchIndex := mkSearchIndex ∅ ∅ ∅ ∅ dirty_default.
(** [SearchIndex::new]. *)
Definition search_new : SearchIndex := mkSearchIndex ∅ ∅ ∅ ∅ (mkDirty true ∅ ∅).

Definition with_dirty (f : Dirty -> Dirty) (idx : SearchIndex) : SearchIndex :=
  mkSearchIndex (docs_by_id idx) (postings idx) (items_by_list idx) (list_names idx) (f (dirty idx)).
Definition with_names (f : gmap string string -> gmap string string) (idx : SearchIndex) : SearchIndex :=
  mkSearchIndex (docs_by_id idx) (postings idx) (items_by_list idx) (f (list_names idx)) (dirty idx).

Definition mark_all_dirty (idx : SearchIndex) : SearchIndex := with_dirty (fun _ => mkDirty true ∅ ∅) idx.

Definition mark_item (id : string) (idx : SearchIndex) : SearchIndex :=
  with_dirty (fun dt => mkDirty (dt_all dt) ({[id]} ∪ dt_items dt) (dt_lists dt)) idx.
Definition mark_list (id : string) (idx : SearchIndex) : SearchIndex :=
  with_dirty (fun dt => mkDirty (dt_all dt) (dt_items dt) ({[id]} ∪ dt_lists dt)) idx.

Definition note_event (idx : SearchIndex) (ev : AppEvent) : SearchIndex :=
  if dt_all (dirty idx) then idx
  else match ev with
  | FullResync => mark_all_dirty idx
  | ItemAdded it _ => mark_item (iv_id it) idx
  | ItemRemoved id | ItemTextChanged id _ | ItemNotesChanged id _ | ItemNotesDelta id _
  | ItemLifecycleChanged id _ _ _ _ _ _ | ItemListChanged id _ _ => mark_item id idx
  | ListAdded id _ _ _ _ | ListRemoved id | ListRenamed id _ => mark_list id idx
  | _ => idx
  end.

Definition take_dirty (idx : SearchIndex) : option Dirty * SearchIndex :=
  if is_clean (dirty idx) then (None, idx) else (Some (dirty idx), with_dirty (fun _ => dirty_default) idx).

(** A set under a key: [entry(k).or_default().insert(id)], and [remove(id)]
    that drops an emptied set. *)
Definition put_id {K} `{Countable K} (k : K) (id : string) (m : gmap K (gset string)) : gmap K (gset string) :=
  <[k := {[id]} ∪ default ∅ (m !! k)]> m.
Definition drop_id {K} `{Countable K} (k : K) (id : string) (m : gmap K (gset string)) : gmap K (gset string) :=
  match m !! k with
  | None => m
  | Some ids => let ids := ids ∖ {[id]} in if decide (ids = ∅) then delete k m else <[k := ids]> m
  end.

Definition item_ids_in_list (idx : SearchIndex) (l : string) : list string :=
  elements (default ∅ (items_by_list idx !! l)).

Definition clear (idx : SearchIndex) : SearchIndex := mkSearchIndex ∅ ∅ ∅ ∅ (dirty idx).

Definition remove (id : string) (idx : SearchIndex) : SearchIndex :=
  match docs_by_id idx !! id with
  | None => idx
  | Some sd =>
      mkSearchIndex (delete id (docs_by_id idx))
        (foldl (fun ps t => drop_id t id ps) (postings idx) (all_tokens sd))
        (match sd_list_id sd with Some l => drop_id l id (items_by_list idx) | None => items_by_list idx end)
        (list_names idx) (dirty idx)
  end.

Definition insert_doc (sd : SearchDoc) (idx : SearchIndex) : SearchIndex :=
  mkSearchIndex (<[sd_id sd := sd]> (docs_by_id idx))
    (foldl (fun ps t => put_id t (sd_id sd) ps) (postings idx) (all_tokens sd))
    (match sd_kind sd, sd_list_id sd with
     | KItem, Some l => put_id l (sd_id sd) (items_by_list idx)
     | _, _ => items_by_list idx
     end)
    (list_names idx) (dirty idx).

Definition remove_list (l : string) (idx : SearchIndex) : SearchIndex := with_names (delete l) (remove l idx).

Section index.
Context `{Unicode}.

Definition token_set (s : string) : gset token := list_to_set (tokenize s).

Definition list_doc (v : ListView) : SearchDoc :=
  mkSearchDoc (lv_id v) KList (lv_name v) "" None None (lv_created_at v) (token_set (lv_name v)) ∅ ∅.

Definition index_list (v : ListView) (idx : SearchIndex) : SearchIndex :=
  insert_doc (list_doc v) (remove (lv_id v) (with_names (<[lv_id v := lv_name v]>) idx)).

Definition item_doc (names : gmap string string) (it : ItemView) : SearchDoc :=
  mkSearchDoc (iv_id it) KItem (iv_text it) (iv_notes it)
    (if decide (iv_list_id it = "") then None else Some (iv_list_id it))
    (Some (iv_lifecycle it))
    (match iv_binned_at it with Some at_ => at_ | None => iv_lifecycle_at it end)
    (token_set (iv_text it)) (token_set (iv_notes it)) (token_set (default "" (names !! iv_list_id it))).

Definition index_item (it : ItemView) (idx : SearchIndex) : SearchIndex :=
  let idx := remove (iv_id it) idx in insert_doc (item_doc (list_names idx) it) idx.

Definition rebuild (lists : list ListView) (items : list ItemView) (idx : SearchIndex) : SearchIndex :=
  foldl (fun idx it => index_item it idx) (foldl (fun idx v => index_list v idx) (clear idx) lists) items.

(** ** Queries *)

Definition prefix_candidates (idx : SearchIndex) (prefix : token) : gset string :=
  map_fold (fun t ids out => if starts_with t prefix then ids ∪ out else out) ∅ (postings idx).

Definition intersect (a : option (gset string)) (b : gset string) : gset string :=
  match a with
  | None => b
  | Some a =>
      let '(smaller, larger) := if decide (size a <= size b) then (a, b) else (b, a) in
      base.filter (fun id => id ∈ larger) smaller
  end.

(** The documents with every exact token; [None] once there are none. *)
Fixpoint narrow (idx : SearchIndex) (exact : list token) (cands : option (gset string)) : option (option (gset string)) :=
  match exact with
  | [] => Some cands
  | t :: exact =>
      match postings idx !! t with
      | None => None
      | Some ids =>
          let cands := intersect cands ids in
          if decide (cands = ∅) then None else narrow idx exact (Some cands)
      end
  end.

Record Scored : Type := mkScored {
  sc_doc : SearchDoc;
  sc_title_exact : nat;
  sc_title_prefix : nat;
  sc_body_hits : nat;
  sc_context_hits : nat;
  sc_score : N;
}.

Definition any_starts_with (set : gset token) (prefix : token) : bool :=
  existsb (fun t => starts_with t prefix) (elements set).

Record Buckets : Type := mkBuckets { bk_exact : nat; bk_prefix : nat; bk_body : nat; bk_context : nat }.

Definition score_exact (sd : SearchDoc) (t : token) (b : Buckets) : option Buckets :=
  let '(mkBuckets e p bd c) := b in
  if decide (t ∈ sd_title_tokens sd) then Some (mkBuckets (S e) p bd c)
  else if decide (t ∈ sd_body_tokens sd) then Some (mkBuckets e p (S bd) c)
  else if decide (t ∈ sd_context_tokens sd) then Some (mkBuckets e p bd (S c))
  else None.

Definition score_final (sd : SearchDoc) (t : token) (b : Buckets) : option Buckets :=
  let '(mkBuckets e p bd c) := b in
  if decide (t ∈ sd_title_tokens sd) then Some (mkBuckets (S e) p bd c)
  else if any_starts_with (sd_title_tokens sd) t then Some (mkBuckets e (S p) bd c)
  else if bool_decide (t ∈ sd_body_tokens sd) || any_starts_with (sd_body_tokens sd) t then Some (mkBuckets e p (S bd) c)
  else if bool_decide (t ∈ sd_context_tokens sd) || any_starts_with (sd_context_tokens sd) t then Some (mkBuckets e p bd (S c))
  else None.

Fixpoint score_tokens (sd : SearchDoc) (exact : list token) (b : Buckets) : option Buckets :=
  match exact with
  | [] => Some b
  | t :: exact => b ← score_exact sd t b; score_tokens sd exact b
  end.

Definition score_doc (exact : list token) (final : token) (sd : SearchDoc) : option Scored :=
  b ← score_tokens sd exact (mkBuckets 0 0 0 0);
  b ← score_final sd final b;
  Some (mkScored sd (bk_exact b) (bk_prefix b) (bk_body b) (bk_context b)
    (N.of_nat (bk_exact b) * 10000 + N.of_nat (bk_prefix b) * 1000 + N.of_nat (bk_body b) * 100
     + N.of_nat (bk_context b) * 10 + lifecycle_rank (sd_lifecycle sd))).

Definition hit_cmp : Scored -> Scored -> comparison :=
  cmp_then (cmp_rev (cmp_on sc_title_exact Nat.compare))
  (cmp_then (cmp_rev (cmp_on sc_title_prefix Nat.compare))
  (cmp_then (cmp_rev (cmp_on sc_body_hits Nat.compare))
  (cmp_then (cmp_rev (cmp_on sc_context_hits Nat.compare))
  (cmp_then (cmp_rev (cmp_on (fun s => Z.of_N (lifecycle_rank (sd_lifecycle (sc_doc s)))) Z.compare))
  (cmp_then (cmp_rev (cmp_on (fun s => sd_updated_at (sc_doc s)) Z.compare))
     (cmp_on (fun s => sd_id (sc_doc s)) str_cmp)))))).

Definition result_of (s : Scored) : SearchResult :=
  let sd := sc_doc s in
  mkResult (sd_id sd) (sd_kind sd) (sd_title sd) (if decide (sd_body sd = "") then None else Some (sd_body sd))
    (sd_list_id sd) (sd_lifecycle sd) (sc_score s).

(** [tokens.split_last()]. *)
Definition split_last {A} (l : list A) : option (A * list A) :=
  match rev l with [] => None | x :: r => Some (x, rev r) end.

Definition query (idx : SearchIndex) (input : string) (limit : nat) : list SearchResult :=
  match split_last (tokenize input) with
  | None => []
  | Some (final, exact) =>
      match narrow idx exact None with
      | None => []
      | Some cands =>
          let finals := prefix_candidates idx final in
          if decide (finals = ∅) then []
          else
            let scored := omap (fun id => docs_by_id idx !! id ≫= score_doc exact final) (elements (intersect cands finals)) in
            result_of <$> take limit (sort_by hit_cmp scored)
      end
  end.

(** ** The document's side *)

Definition reconcile_search_item (d : Doc) (idx : SearchIndex) (item_id : string) : SearchIndex :=
  match get_item d item_id with Some it => index_item it idx | None => remove item_id idx end.

Definition reconcile_search_list (d : Doc) (idx : SearchIndex) (list_id : string) : SearchIndex :=
  let idx := match get_list_meta d list_id with Some v => index_list v idx | None => remove_list list_id idx end in
  foldl (reconcile_search_item d) idx (item_ids_in_list idx list_id).

Definition reconcile_dirty (d : Doc) (dt : Dirty) (idx : SearchIndex) : SearchIndex :=
  if dt_all dt then rebuild (all_lists d) (iter_items d) idx
  else foldl (reconcile_search_item d) (foldl (reconcile_search_list d) idx (elements (dt_lists dt))) (elements (dt_items dt)).

Definition search (d : Doc) (input : string) (limit : nat) (idx : SearchIndex) : list SearchResult * SearchIndex :=
  let '(dt, idx) := take_dirty idx in
  let idx := match dt with Some dt => reconcile_dirty d dt idx | None => idx end in
  (query idx input limit, idx).
End index.
