(* ===== verification/SearchFacts.v ===== *)
(** The search index is consistent whatever is indexed and removed, and a
    query answered from its postings is a scan of all its documents. *)
From S2P Require Import Prelude.
From S2P Require Import Loro.
From S2P Require Import Lifecycle.
From S2P Require Import Registers.
From S2P Require Import Projection.
From S2P Require Import Notes.
From S2P Require Import Events.
From S2P Require Import DocCore.
From S2P Require Import Ordering.
From S2P Require Import Search.

(** ** Sets under keys *)

Section buckets.
Context {K : Type} `{Countable K}.
Implicit Types m : gmap K (gset string).

Definition bucket (k : K) m : gset string := default ∅ (m !! k).
Definition no_empty m : Prop := forall k, m !! k <> Some ∅.

Lemma bucket_put k id m j x : x ∈ bucket j (put_id k id m) <-> (j = k /\ x = id) \/ x ∈ bucket j m.
Proof.
  unfold bucket, put_id. destruct (decide (j = k)) as [->|Hj]; [rewrite lookup_insert_eq|rewrite lookup_insert_ne by done];
    cbn; set_solver.
Qed.
Lemma no_empty_put k id m : no_empty m -> no_empty (put_id k id m).
Proof.
  intros Hm j. unfold put_id. destruct (decide (j = k)) as [->|Hj]; [rewrite lookup_insert_eq|rewrite lookup_insert_ne by done; apply Hm].
  intros [= E]. set_solver.
Qed.

Lemma bucket_drop k id m j x : x ∈ bucket j (drop_id k id m) <-> x ∈ bucket j m /\ ~ (j = k /\ x = id).
Proof.
  unfold bucket, drop_id. destruct (m !! k) as [ids|] eqn:E.
  - cbv zeta. case_decide as He.
    + destruct (decide (j = k)) as [->|Hj]; [rewrite lookup_delete_eq, E|rewrite lookup_delete_ne by done]; cbn; set_solver.
    + destruct (decide (j = k)) as [->|Hj]; [rewrite lookup_insert_eq, E|rewrite lookup_insert_ne by done]; cbn; set_solver.
  - destruct (decide (j = k)) as [->|Hj]; [rewrite E; cbn; set_solver|]. naive_solver.
Qed.
Lemma no_empty_drop k id m : no_empty m -> no_empty (drop_id k id m).
Proof.
  intros Hm j. unfold drop_id. destruct (m !! k) as [ids|] eqn:E; [|apply Hm]. cbv zeta. case_decide as He.
  - destruct (decide (j = k)) as [->|Hj]; [by rewrite lookup_delete_eq|rewrite lookup_delete_ne by done; apply Hm].
  - destruct (decide (j = k)) as [->|Hj]; [rewrite lookup_insert_eq; congruence|rewrite lookup_insert_ne by done; apply Hm].
Qed.

Lemma buckets_eq m m' : no_empty m -> no_empty m' -> (forall k x, x ∈ bucket k m <-> x ∈ bucket k m') -> m = m'.
Proof.
  intros Hm Hm' Hb. apply map_eq. intros k. unfold bucket in Hb. specialize (Hb k).
  destruct (m !! k) as [X|] eqn:E, (m' !! k) as [Y|] eqn:E'; cbn in Hb; [|exfalso..|done].
  - f_equal. set_solver.
  - apply (Hm k). rewrite E. f_equal. set_solver.
  - apply (Hm' k). rewrite E'. f_equal. set_solver.
Qed.

Lemma bucket_puts ks id x j : forall m,
  x ∈ bucket j (foldl (fun m k => put_id k id m) m ks) <-> (j ∈ ks /\ x = id) \/ x ∈ bucket j m.
Proof.
  induction ks as [|k ks IH]; intros m; cbn [foldl]; [|rewrite IH, bucket_put]; set_solver.
Qed.
Lemma no_empty_puts ks id : forall m, no_empty m -> no_empty (foldl (fun m k => put_id k id m) m ks).
Proof. induction ks as [|k ks IH]; intros m Hm; [done|]. by apply IH, no_empty_put. Qed.
Lemma bucket_drops ks id x j : forall m,
  x ∈ bucket j (foldl (fun m k => drop_id k id m) m ks) <-> x ∈ bucket j m /\ ~ (j ∈ ks /\ x = id).
Proof.
  induction ks as [|k ks IH]; intros m; cbn [foldl]; [|rewrite IH, bucket_drop]; set_solver.
Qed.
Lemma no_empty_drops ks id : forall m, no_empty m -> no_empty (foldl (fun m k => drop_id k id m) m ks).
Proof. induction ks as [|k ks IH]; intros m Hm; [done|]. by apply IH, no_empty_drop. Qed.
End buckets.

(** ** Consistency *)

(** The postings and the lists' members are the inverses of the documents. *)
Record search_wf (idx : SearchIndex) : Prop := {
  sw_id id sd : docs_by_id idx !! id = Some sd -> sd_id sd = id;
  sw_kind id sd : docs_by_id idx !! id = Some sd -> sd_kind sd = KList -> sd_list_id sd = None;
  sw_postings t id : id ∈ bucket t (postings idx) <-> exists sd, docs_by_id idx !! id = Some sd /\ t ∈ all_tokens sd;
  sw_members l id : id ∈ bucket l (items_by_list idx) <-> exists sd, docs_by_id idx !! id = Some sd /\ sd_list_id sd = Some l;
  sw_postings_ne : no_empty (postings idx);
  sw_members_ne : no_empty (items_by_list idx);
}.

(** The documents determine the rest. *)
Lemma search_wf_eq idx idx' : search_wf idx -> search_wf idx' -> docs_by_id idx = docs_by_id idx' ->
  postings idx = postings idx' /\ items_by_list idx = items_by_list idx'.
Proof.
  intros [] [] E. split; apply buckets_eq; try done; intros k x.
  - by rewrite sw_postings0, sw_postings1, E.
  - by rewrite sw_members0, sw_members1, E.
Qed.

Lemma search_wf_ext idx idx' : docs_by_id idx = docs_by_id idx' -> postings idx = postings idx' ->
  items_by_list idx = items_by_list idx' -> search_wf idx -> search_wf idx'.
Proof. intros E1 E2 E3 []. split; rewrite <- ?E1, <- ?E2, <- ?E3; done. Qed.

Lemma search_empty_wf names dt : search_wf (mkSearchIndex ∅ ∅ ∅ names dt).
Proof.
  split; cbn.
  - intros id sd. by rewrite lookup_empty.
  - intros id sd. by rewrite lookup_empty.
  - intros t id. unfold bucket. rewrite lookup_empty. cbn. setoid_rewrite lookup_empty. set_solver.
  - intros l id. unfold bucket. rewrite lookup_empty. cbn. setoid_rewrite lookup_empty. set_solver.
  - intros k. by rewrite lookup_empty.
  - intros k. by rewrite lookup_empty.
Qed.

Lemma remove_docs id idx : docs_by_id (remove id idx) = delete id (docs_by_id idx).
Proof. unfold remove. destruct (docs_by_id idx !! id) eqn:E; [done|]. by rewrite delete_id. Qed.
Lemma remove_names id idx : list_names (remove id idx) = list_names idx.
Proof. unfold remove. by destruct (docs_by_id idx !! id). Qed.
Lemma remove_dirty id idx : dirty (remove id idx) = dirty idx.
Proof. unfold remove. by destruct (docs_by_id idx !! id). Qed.

Lemma remove_wf id idx : search_wf idx -> search_wf (remove id idx).
Proof.
  intros Hwf. pose proof Hwf as [W1 W2 W3 W4 W5 W6]. unfold remove. destruct (docs_by_id idx !! id) as [sd|] eqn:E; [|done].
  assert (Hdel : forall x sd', delete id (docs_by_id idx) !! x = Some sd' <-> x <> id /\ docs_by_id idx !! x = Some sd').
  { intros x sd'. rewrite lookup_delete_Some. naive_solver. }
  split; cbn.
  - intros x sd' [_ ?]%Hdel. by apply W1.
  - intros x sd' [_ ?]%Hdel. by eapply W2.
  - intros t x. rewrite bucket_drops, W3. setoid_rewrite Hdel. split.
    + intros [(sd' & Hs & Ht) Hn]. exists sd'. split_and!; [|done..]. intros ->. apply Hn. by replace sd with sd' by congruence.
    + intros (sd' & [Hx Hs] & Ht). split; [by exists sd'|tauto].
  - intros l x. destruct (sd_list_id sd) as [l'|] eqn:El; [rewrite bucket_drop|]; rewrite W4; setoid_rewrite Hdel.
    + split.
      * intros [(sd' & Hs & Ht) Hn]. exists sd'. split_and!; [|done..]. intros ->. apply Hn. split; [congruence|done].
      * intros (sd' & [Hx Hs] & Ht). split; [by exists sd'|tauto].
    + split; [|naive_solver]. intros (sd' & Hs & Ht). exists sd'. split_and!; [|done..]. intros ->. congruence.
  - by apply no_empty_drops.
  - destruct (sd_list_id sd); [by apply no_empty_drop|done].
Qed.

Lemma insert_doc_wf sd idx : search_wf idx -> docs_by_id idx !! sd_id sd = None -> (sd_kind sd = KList -> sd_list_id sd = None) ->
  search_wf (insert_doc sd idx).
Proof.
  intros [W1 W2 W3 W4 W5 W6] Hn Hk. assert (Hins : forall x sd', <[sd_id sd := sd]> (docs_by_id idx) !! x = Some sd'
    <-> (x = sd_id sd /\ sd' = sd) \/ docs_by_id idx !! x = Some sd').
  { intros x sd'. rewrite lookup_insert_Some. split; [naive_solver|]. intros [[-> ->]|Hx]; [by left|right].
    split; [congruence|done]. }
  split; cbn.
  - intros x sd' [[-> ->]|Hx]%Hins; [done|by apply W1].
  - intros x sd' [[-> ->]|Hx]%Hins; [done|by eapply W2].
  - intros t x. rewrite bucket_puts, W3. setoid_rewrite Hins. split.
    + intros [[Ht ->]|(sd' & Hs & Ht)]; eauto.
    + intros (sd' & [[-> ->]|Hs] & Ht); [by left|right; eauto].
  - intros l x. assert (Hm : x ∈ bucket l (match sd_kind sd, sd_list_id sd with
        | KItem, Some l => put_id l (sd_id sd) (items_by_list idx) | _, _ => items_by_list idx end)
      <-> (sd_list_id sd = Some l /\ x = sd_id sd) \/ x ∈ bucket l (items_by_list idx)).
    { destruct (sd_kind sd) eqn:Ek, (sd_list_id sd) as [l'|] eqn:El; rewrite ?bucket_put; naive_solver. }
    rewrite Hm, W4. setoid_rewrite Hins. split.
    + intros [[Hl ->]|(sd' & Hs & Ht)]; eauto.
    + intros (sd' & [[-> ->]|Hs] & Ht); [by left|right; eauto].
  - by apply no_empty_puts.
  - destruct (sd_kind sd), (sd_list_id sd); [by apply no_empty_put|done..].
Qed.

Section index.
Context `{Unicode}.

Lemma index_list_wf v idx : search_wf idx -> search_wf (index_list v idx).
Proof.
  intros Hwf. apply insert_doc_wf; [|by rewrite remove_docs, lookup_delete_eq|done].
  apply remove_wf. by eapply search_wf_ext; [..|exact Hwf].
Qed.
Lemma index_item_wf it idx : search_wf idx -> search_wf (index_item it idx).
Proof. intros Hwf. apply insert_doc_wf; [by apply remove_wf|by rewrite remove_docs, lookup_delete_eq|done]. Qed.
Lemma remove_list_wf l idx : search_wf idx -> search_wf (remove_list l idx).
Proof. intros Hwf. by eapply search_wf_ext; [..|exact (remove_wf l idx Hwf)]. Qed.

Lemma foldl_wf {A} (f : SearchIndex -> A -> SearchIndex) l : (forall a idx, search_wf idx -> search_wf (f idx a)) ->
  forall idx, search_wf idx -> search_wf (foldl f idx l).
Proof. intros Hf. induction l as [|a l IH]; intros idx Hwf; [done|]. by apply IH, Hf. Qed.

Lemma rebuild_wf lists items idx : search_wf (rebuild lists items idx).
Proof.
  apply foldl_wf; [intros; by apply index_item_wf|]. apply foldl_wf; [intros; by apply index_list_wf|]. apply search_empty_wf.
Qed.

Lemma reconcile_item_wf d id idx : search_wf idx -> search_wf (reconcile_search_item d idx id).
Proof. intros Hwf. unfold reconcile_search_item. destruct (get_item d id); [by apply index_item_wf|by apply remove_wf]. Qed.
Lemma reconcile_list_wf d l idx : search_wf idx -> search_wf (reconcile_search_list d idx l).
Proof.
  intros Hwf. apply foldl_wf; [intros; by apply reconcile_item_wf|].
  destruct (get_list_meta d l); [by apply index_list_wf|by apply remove_list_wf].
Qed.
Lemma reconcile_dirty_wf d dt idx : search_wf idx -> search_wf (reconcile_dirty d dt idx).
Proof.
  intros Hwf. unfold reconcile_dirty. destruct (dt_all dt); [apply rebuild_wf|].
  apply foldl_wf; [intros; by apply reconcile_item_wf|]. apply foldl_wf; [intros; by apply reconcile_list_wf|done].
Qed.

Lemma note_event_same idx ev : docs_by_id (note_event idx ev) = docs_by_id idx /\ postings (note_event idx ev) = postings idx
  /\ items_by_list (note_event idx ev) = items_by_list idx /\ list_names (note_event idx ev) = list_names idx.
Proof. unfold note_event. destruct (dt_all (dirty idx)); [done|]. by destruct ev. Qed.

Lemma take_dirty_same idx : docs_by_id (take_dirty idx).2 = docs_by_id idx /\ postings (take_dirty idx).2 = postings idx
  /\ items_by_list (take_dirty idx).2 = items_by_list idx /\ list_names (take_dirty idx).2 = list_names idx.
Proof. unfold take_dirty. by destruct (is_clean (dirty idx)). Qed.

Lemma search_keeps_wf d input limit idx : search_wf idx -> search_wf (search d input limit idx).2.
Proof.
  intros Hwf. unfold search. destruct (take_dirty_same idx) as (E1 & E2 & E3 & _). destruct (take_dirty idx) as [dt idx'].
  cbn in *. assert (search_wf idx') by (by eapply search_wf_ext; [symmetry..|exact Hwf]).
  destruct dt; [by apply reconcile_dirty_wf|done].
Qed.

(** C32: The postings and the lists' members stay the inverses of the documents,
    with no empty set left behind, through every operation of the index: noting
    an event, taking the dirty set, indexing or forgetting one item or list,
    rebuilding, answering a search. *)
Theorem search_index_well_formed idx : search_wf idx ->
  (forall ev, search_wf (note_event idx ev))
  /\ search_wf (mark_all_dirty idx) /\ search_wf (take_dirty idx).2
  /\ (forall id, search_wf (remove id idx)) /\ (forall l, search_wf (remove_list l idx))
  /\ (forall v, search_wf (index_list v idx)) /\ (forall it, search_wf (index_item it idx))
  /\ (forall lists items, search_wf (rebuild lists items idx))
  /\ (forall d input limit, search_wf (search d input limit idx).2).
Proof.
  intros Hwf. split_and!; intros.
  - destruct (note_event_same idx ev) as (E1 & E2 & E3 & _). by eapply search_wf_ext; [symmetry..|exact Hwf].
  - by eapply search_wf_ext; [..|exact Hwf].
  - destruct (take_dirty_same idx) as (E1 & E2 & E3 & _). by eapply search_wf_ext; [symmetry..|exact Hwf].
  - by apply remove_wf.
  - by apply remove_list_wf.
  - by apply index_list_wf.
  - by apply index_item_wf.
  - by apply rebuild_wf.
  - by apply search_keeps_wf.
Qed.

(** ** A query is a scan *)

(** Every document scored, the best first. *)
Definition scan (docs : gmap string SearchDoc) (input : string) (limit : nat) : list SearchResult :=
  match split_last (tokenize input) with
  | None => []
  | Some (final, exact) => result_of <$> take limit (sort_by hit_cmp (omap (score_doc exact final) (map_to_list docs).*2))
  end.

Lemma elem_of_all_tokens sd t : t ∈ all_tokens sd <-> t ∈ sd_title_tokens sd \/ t ∈ sd_body_tokens sd \/ t ∈ sd_context_tokens sd.
Proof. unfold all_tokens. by rewrite !elem_of_app, !elem_of_elements. Qed.

Lemma score_tokens_all sd exact : forall b b', score_tokens sd exact b = Some b' -> forall t, t ∈ exact -> t ∈ all_tokens sd.
Proof.
  induction exact as [|t exact IH]; intros b b' E; [by intros ? ?%not_elem_of_nil|]. cbn in E.
  destruct (score_exact sd t b) as [b1|] eqn:E1; [|done]. intros t' [->|Ht]%elem_of_cons; [|by eapply IH].
  apply elem_of_all_tokens. unfold score_exact in E1. destruct b. repeat case_decide; [by left|right; by left|right; by right|done].
Qed.

Lemma any_starts_with_in X p : any_starts_with X p = true -> exists t, t ∈ X /\ starts_with t p = true.
Proof. intros (t & Ht & Hs)%existsb_exists. exists t. by rewrite <- elem_of_elements, list_elem_of_In. Qed.

Lemma starts_with_refl t : starts_with t t = true.
Proof. induction t as [|c t IH]; [done|]. cbn. by rewrite bool_decide_eq_true_2, IH. Qed.

Lemma score_final_prefix sd final b b' : score_final sd final b = Some b' ->
  exists t, t ∈ all_tokens sd /\ starts_with t final = true.
Proof.
  intros E. setoid_rewrite elem_of_all_tokens. unfold score_final in E. destruct b.
  assert (Hone : forall X, bool_decide (final ∈ X) || any_starts_with X final = true -> exists t, t ∈ X /\ starts_with t final = true).
  { intros X [Hx%bool_decide_eq_true|Hx]%orb_true_iff; [exists final; split; [done|apply starts_with_refl]|by apply any_starts_with_in]. }
  case_decide; [exists final; split; [by left|apply starts_with_refl]|].
  destruct (any_starts_with (sd_title_tokens sd) final) eqn:E1; [apply any_starts_with_in in E1; naive_solver|].
  destruct (bool_decide (final ∈ sd_body_tokens sd) || _) eqn:E2; [apply Hone in E2; naive_solver|].
  destruct (bool_decide (final ∈ sd_context_tokens sd) || _) eqn:E3; [apply Hone in E3; naive_solver|done].
Qed.

Lemma score_doc_inv exact final sd s : score_doc exact final sd = Some s ->
  sc_doc s = sd /\ (forall t, t ∈ exact -> t ∈ all_tokens sd) /\ exists t, t ∈ all_tokens sd /\ starts_with t final = true.
Proof.
  unfold score_doc. destruct (score_tokens sd exact _) as [b|] eqn:E1; [|done]. cbn.
  destruct (score_final sd final b) as [b'|] eqn:E2; [|done]. intros [= <-]. split_and!; [done| |].
  - by eapply score_tokens_all.
  - by eapply score_final_prefix.
Qed.

(** The candidates. *)
Definition allowed (cands : option (gset string)) (id : string) : Prop := match cands with None => True | Some X => id ∈ X end.

Lemma intersect_spec a b id : id ∈ intersect a b <-> allowed a id /\ id ∈ b.
Proof.
  destruct a as [a|]; cbn; [|tauto]. case_decide; rewrite elem_of_filter; tauto.
Qed.

Lemma narrow_spec idx exact : forall cands,
  match narrow idx exact cands with
  | Some cands' => forall id, allowed cands' id <-> allowed cands id /\ forall t, t ∈ exact -> id ∈ bucket t (postings idx)
  | None => forall id, allowed cands id -> ~ forall t, t ∈ exact -> id ∈ bucket t (postings idx)
  end.
Proof.
  induction exact as [|t exact IH]; intros cands; cbn [narrow]; [set_solver|].
  destruct (postings idx !! t) as [ids|] eqn:E.
  2: { intros id _ Hx. specialize (Hx t ltac:(by left)). unfold bucket in Hx. rewrite E in Hx. set_solver. }
  assert (Hb : forall id, id ∈ bucket t (postings idx) <-> id ∈ ids) by (intros id; unfold bucket; by rewrite E).
  assert (Hi : forall id, id ∈ intersect cands ids <-> allowed cands id /\ id ∈ bucket t (postings idx)).
  { intros id. by rewrite intersect_spec, Hb. }
  cbv zeta. case_decide as Hempty.
  - intros id Hc Hx. assert (Hin : id ∈ intersect cands ids) by (apply Hi; split; [done|apply Hx; by left]). set_solver.
  - specialize (IH (Some (intersect cands ids))). destruct (narrow idx exact _).
    + intros id. rewrite IH. cbn [allowed]. rewrite Hi. setoid_rewrite elem_of_cons. naive_solver.
    + intros id Hc Hx. apply (IH id); [cbn [allowed]; apply Hi; split; [done|apply Hx; by left]|].
      intros t' Ht. apply Hx. by right.
Qed.

Lemma prefix_candidates_spec idx p id :
  id ∈ prefix_candidates idx p <-> exists t, starts_with t p = true /\ id ∈ bucket t (postings idx).
Proof.
  unfold prefix_candidates. revert id.
  apply (map_fold_weak_ind (fun out m => forall id, id ∈ out <-> exists t, starts_with t p = true /\ id ∈ bucket t m)).
  - intros id. unfold bucket. setoid_rewrite lookup_empty. set_solver.
  - intros t ids m out Ht IH id. assert (Hone : forall t', id ∈ bucket t' (<[t := ids]> m) <-> (t' = t /\ id ∈ ids) \/ (t' <> t /\ id ∈ bucket t' m)).
    { intros t'. unfold bucket. destruct (decide (t' = t)) as [->|Hne]; [rewrite lookup_insert_eq|rewrite lookup_insert_ne by done];
        cbn; naive_solver. }
    assert (Hm : forall t', id ∈ bucket t' m -> t' <> t) by (intros t' Hin ->; unfold bucket in Hin; rewrite Ht in Hin; set_solver).
    assert (Hold : id ∈ out -> exists t', starts_with t' p = true /\ id ∈ bucket t' (<[t := ids]> m)).
    { intros (t' & Hs & Hb)%IH. exists t'. split; [done|]. apply Hone. right. split; [by apply Hm|done]. }
    destruct (starts_with t p) eqn:Es; [rewrite elem_of_union|]; split.
    + intros [Hi|Ho]; [|by apply Hold]. exists t. split; [done|]. apply Hone. by left.
    + intros (t' & Hs & [[-> Hb]|[_ Hb]]%Hone); [by left|right; apply IH; by exists t'].
    + exact Hold.
    + intros (t' & Hs & [[-> Hb]|[_ Hb]]%Hone); [congruence|apply IH; by exists t'].
Qed.

(** Scoring never gives one document two places. *)
Lemma NoDup_omap_key {A B} (f : A -> option B) (key : B -> A) l :
  (forall a b, f a = Some b -> key b = a) -> NoDup l -> NoDup (omap f l).
Proof.
  intros Hf. induction 1 as [|a l Ha Hl IH]; [constructor|]. cbn. destruct (f a) as [b|] eqn:E; [|exact IH].
  constructor; [|exact IH]. intros (a' & Ha' & E')%list_elem_of_omap. apply Ha.
  rewrite <- (Hf _ _ E), (Hf _ _ E'). exact Ha'.
Qed.

#[local] Instance hit_cmp_ordered : Ordered hit_cmp.
Proof. unfold hit_cmp. apply _. Qed.

Lemma hit_cmp_eq x y : hit_cmp x y = Eq -> sd_id (sc_doc x) = sd_id (sc_doc y).
Proof. unfold hit_cmp. rewrite !cmp_then_eq. intros (_ & _ & _ & _ & _ & _ & Hid). by apply str_cmp_eq. Qed.

Lemma scored_scan idx exact final (C : gset string) : search_wf idx ->
  (forall id sd s, docs_by_id idx !! id = Some sd -> score_doc exact final sd = Some s -> id ∈ C) ->
  sort_by hit_cmp (omap (fun id => docs_by_id idx !! id ≫= score_doc exact final) (elements C))
  = sort_by hit_cmp (omap (score_doc exact final) (map_to_list (docs_by_id idx)).*2).
Proof.
  intros Hwf HC.
  assert (Hin : forall s, s ∈ omap (fun id => docs_by_id idx !! id ≫= score_doc exact final) (elements C)
    <-> exists id sd, docs_by_id idx !! id = Some sd /\ score_doc exact final sd = Some s).
  { intros s. rewrite list_elem_of_omap. split.
    - intros (id & _ & E). destruct (docs_by_id idx !! id) as [sd|] eqn:Ed; [|done]. by exists id, sd.
    - intros (id & sd & Ed & E). exists id. rewrite elem_of_elements, Ed. split; [by eapply HC|done]. }
  apply sort_by_unique; [apply _| |].
  - apply NoDup_Permutation.
    + apply (NoDup_omap_key _ (fun s => sd_id (sc_doc s))); [|apply NoDup_elements].
      intros id s. destruct (docs_by_id idx !! id) as [sd|] eqn:Ed; [|done]. intros (-> & _)%score_doc_inv. by apply (sw_id _ Hwf).
    + apply (NoDup_omap_key _ sc_doc); [by intros sd s (-> & _)%score_doc_inv|]. apply (NoDup_fmap_1 sd_id).
      assert (E : sd_id <$> (map_to_list (docs_by_id idx)).*2 = (map_to_list (docs_by_id idx)).*1).
      { rewrite <- list_fmap_compose. apply list_fmap_ext. intros i [id sd] Hp%list_elem_of_lookup_2%elem_of_map_to_list.
        cbn. by apply (sw_id _ Hwf). }
      rewrite E. apply NoDup_fst_map_to_list.
    + intros s. rewrite Hin, list_elem_of_omap. setoid_rewrite list_elem_of_fmap. split.
      * intros (id & sd & Ed & E). exists sd. split; [|done]. exists (id, sd). split; [done|]. by apply elem_of_map_to_list.
      * intros (sd & ([id sd'] & -> & Hp%elem_of_map_to_list) & E). by exists id, sd'.
  - intros x y (id & sd & Ed & Ex)%Hin (id' & sd' & Ed' & Ey)%Hin Heq%hit_cmp_eq.
    pose proof (score_doc_inv _ _ _ _ Ex) as (Hx & _). pose proof (score_doc_inv _ _ _ _ Ey) as (Hy & _).
    rewrite Hx, Hy, (sw_id _ Hwf _ _ Ed), (sw_id _ Hwf _ _ Ed') in Heq. subst id'. rewrite Ed in Ed'. injection Ed' as <-. congruence.
Qed.

Lemma query_scan idx input limit : search_wf idx -> query idx input limit = scan (docs_by_id idx) input limit.
Proof.
  intros Hwf. unfold query, scan. destruct (split_last (tokenize input)) as [[final exact]|]; [|done].
  assert (Hneed : forall id sd s, docs_by_id idx !! id = Some sd -> score_doc exact final sd = Some s ->
    (forall t, t ∈ exact -> id ∈ bucket t (postings idx)) /\ id ∈ prefix_candidates idx final).
  { intros id sd s Ed (_ & Hex & t & Ht & Hs)%score_doc_inv. rewrite prefix_candidates_spec. setoid_rewrite (sw_postings _ Hwf).
    split; [intros t' Ht'; exists sd; split; [done|by apply Hex]|]. exists t. split; [done|]. by exists sd. }
  assert (Hnone : (forall id sd s, docs_by_id idx !! id = Some sd -> score_doc exact final sd = Some s -> False) ->
    result_of <$> take limit (sort_by hit_cmp (omap (score_doc exact final) (map_to_list (docs_by_id idx)).*2)) = []).
  { intros Hx. rewrite (elem_of_nil_inv (omap _ _)); [cbn [sort_by]; by rewrite take_nil|].
    intros s (sd & ([id sd'] & -> & Hp%elem_of_map_to_list)%list_elem_of_fmap & E)%list_elem_of_omap. by eapply Hx. }
  pose proof (narrow_spec idx exact None) as Hn. destruct (narrow idx exact None) as [cands|].
  - case_decide as He.
    + symmetry. apply Hnone. intros id sd s Ed Es. destruct (Hneed _ _ _ Ed Es) as [_ Hp]. set_solver.
    + do 2 f_equal. apply scored_scan; [done|]. intros id sd s Ed Es. destruct (Hneed _ _ _ Ed Es) as [Hex Hp].
      apply intersect_spec. split; [|done]. by apply Hn.
  - symmetry. apply Hnone. intros id sd s Ed Es. destruct (Hneed _ _ _ Ed Es) as [Hex _]. by apply (Hn id).
Qed.
End index.

(** ** A witness

    One list and one of its items, indexed under the tables of ASCII; the list
    renamed. *)
Definition ascii : Unicode := {|
  nfkd cs := cs;
  is_combining_mark _ := false;
  is_alphanumeric c := (48 <=? c)%N && (c <=? 57)%N || (65 <=? c)%N && (c <=? 90)%N || (97 <=? c)%N && (c <=? 122)%N;
  to_lowercase c := [if (65 <=? c)%N && (c <=? 90)%N then (c + 32)%N else c];
|}.

Definition home_list : ListView := mkListView "home" "Home" None None None 3.
Definition milk_item : ItemView := mkItemView "x1" "Milk" "whole" "home" Backlog 1 None None None None 1 None None None None.

#[local] Existing Instance ascii.

Lemma search_index_well_formed_witness :
  let idx := rebuild [home_list] [milk_item] search_new in
  search_wf idx /\ search_wf (index_list (mkListView "home" "House" None None None 3) idx)
  /\ docs_by_id (index_list (mkListView "home" "House" None None None 3) idx) !! "home"
     = Some (list_doc (mkListView "home" "House" None None None 3)).
Proof.
  intros idx. assert (Hwf : search_wf idx) by apply rebuild_wf. split; [exact Hwf|].
  split; [|vm_compute; reflexivity].
  destruct (search_index_well_formed idx Hwf) as (_ & _ & _ & _ & _ & H & _). apply H.
Defined.
