(* ===== verification/SearchRuns.v ===== *)
(** A search answers from the document as it is: if the events of every change
    name what the change touched, the index brought up to date on the next
    query is the one a rebuild would give.

    Runs of a document and its search index: mutations that queue their
    events, rebuilds of the projection index, and searches, in any order; and
    the mutations whose events are shown to name what they touch. *)
From S2P Require Import Prelude.
From S2P Require Import Loro.
From S2P Require Import Lifecycle.
From S2P Require Import Registers.
From S2P Require Import Projection.
From S2P Require Import Notes.
From S2P Require Import Events.
From S2P Require Import DocCore.
From S2P Require Import DocFocus.
From S2P Require Import DocItems.
From S2P Require Import DocIndex.
From S2P Require Import IndexBuild.
From S2P Require Import ItemFacts.
From S2P Require Import RegisterFacts.
From S2P Require Import DocLists.
From S2P Require Import ListFacts.
From S2P Require Import IterFacts.
From S2P Require Import Ordering.
From S2P Require Import Search.
From S2P Require Import SearchFacts.

Section fresh.
Context `{Unicode}.

(** Which ids are lists'; no id is both. *)
Variable is_list : string -> bool.
Hypothesis no_name : is_list "" = false.

(** A document whose items and lists can be read by id, each under an id of
    its kind. *)
Record searchable (d : Doc) : Prop := {
  se_index : index_wf (d_index d);
  se_named : self_named d;
  se_rows m : MapC m ∈ d_lists d -> is_Some (read_string m KEY_ID) -> is_Some (list_view m);
  se_list l v : get_list_meta d l = Some v -> is_list l = true;
  se_item x it : get_item d x = Some it -> is_list x = false;
}.

(** The document of an id, as a rebuild would index it. *)
Definition shown (d : Doc) (names : gmap string string) (id : string) : option SearchDoc :=
  if is_list id then list_doc <$> get_list_meta d id else item_doc names <$> get_item d id.

(** What the index holds apart from the ids in [R] and [I]. *)
Record agrees (d : Doc) (R I : gset string) (idx : SearchIndex) : Prop := {
  ag_wf : search_wf idx;
  ag_kind id sd : docs_by_id idx !! id = Some sd -> sd_kind sd = KList <-> is_list id = true;
  ag_names l : l ∉ R -> list_names idx !! l = lv_name <$> get_list_meta d l;
  ag_docs id : id ∉ R -> id ∉ I -> docs_by_id idx !! id = shown d (list_names idx) id;
}.

(** The index knows what it does not know. *)
Definition tracks (d : Doc) (idx : SearchIndex) : Prop :=
  search_wf idx /\ (dt_all (dirty idx) = true
    \/ ((forall l, l ∈ dt_lists (dirty idx) -> is_list l = true) /\ (forall x, x ∈ dt_items (dirty idx) -> is_list x = false)
        /\ agrees d (dt_lists (dirty idx)) (dt_items (dirty idx)) idx)).

Section doc.
Variable d : Doc.
Hypothesis Hd : searchable d.

Lemma find_list_from_id lists l : forall i j m, find_list_from lists i l = Ok (j, m) -> MapC m ∈ lists /\ read_string m KEY_ID = Some l.
Proof.
  induction lists as [|s lists IH]; intros i j m; [done|]. cbn.
  destruct s as [m'| |]; try (intros (Hin & ?)%IH; split; [by right|done]). case_decide as Hl.
  - intros [= _ <-]. split; [by left|done].
  - intros (Hin & ?)%IH. split; [by right|done].
Qed.

Lemma list_view_id m v : list_view m = Some v -> read_string m KEY_ID = Some (lv_id v).
Proof. unfold list_view. repeat case_match; try done. by intros [= <-]. Qed.

Lemma get_list_meta_id l v : get_list_meta d l = Some v -> lv_id v = l.
Proof.
  unfold get_list_meta. destruct (find_list d l) as [[j m]|] eqn:E; [|done]. apply find_list_from_id in E as [_ E].
  intros Hv%list_view_id. congruence.
Qed.

(** The first readable row of an id is the first row of that id. *)
Lemma all_lists_meta ls : (forall m, MapC m ∈ ls -> is_Some (read_string m KEY_ID) -> is_Some (list_view m)) -> forall seen i v,
  v ∈ all_lists_from ls seen <-> (lv_id v ∉ seen) /\ match find_list_from ls i (lv_id v) with Ok (_, m) => list_view m | Err _ => None end = Some v.
Proof.
  intros Hrows. induction ls as [|s ls IH]; intros seen i v; cbn; [split; [by intros ?%not_elem_of_nil|by intros [_ ?]]|].
  assert (Hrest : forall m, MapC m ∈ ls -> is_Some (read_string m KEY_ID) -> is_Some (list_view m)).
  { intros m Hm. apply Hrows. by right. }
  specialize (IH Hrest). destruct s as [m| |]; try (by apply IH). destruct (list_view m) as [w|] eqn:Ev.
  - pose proof (list_view_id _ _ Ev) as Eid. case_decide as Hs.
    + rewrite (IH seen (S i) v). split; intros [Hv Hx];
        assert (Hne : read_string m KEY_ID <> Some (lv_id v)) by (rewrite Eid; intros [= E]; by rewrite E in Hs).
      * by rewrite decide_False.
      * by rewrite decide_False in Hx.
    + rewrite elem_of_cons, (IH _ (S i) v). destruct (decide (lv_id v = lv_id w)) as [E|Hne].
      * rewrite E, (decide_True (P := read_string m KEY_ID = _)) by done. rewrite Ev. split.
        -- intros [->|[Hx _]]; [done|set_solver].
        -- intros [_ [= ->]]. by left.
      * rewrite decide_False by congruence. split.
        -- intros [->|[Hx ?]]; [done|]. split; [set_solver|done].
        -- intros [Hx ?]. right. split; [set_solver|done].
  - rewrite decide_False; [apply IH|]. intros E. destruct (Hrows m ltac:(by left)) as [? ?]; [by eexists|congruence].
Qed.

Lemma elem_of_all_lists v : v ∈ all_lists d <-> get_list_meta d (lv_id v) = Some v.
Proof.
  unfold all_lists, get_list_meta, find_list. rewrite (all_lists_meta _ (se_rows _ Hd) ∅ 0 v). split; [intros [_ E]|intros E; split; [set_solver|]].
  - destruct (find_list_from _ _ _) as [[]|]; done.
  - destruct (find_list_from _ _ _) as [[]|]; done.
Qed.

Lemma elem_of_iter_items it : it ∈ iter_items d <-> get_item d (iv_id it) = Some it.
Proof.
  change (iter_items d) with (omap (get_item d) (iter_ids d)). rewrite list_elem_of_omap. split.
  - intros (id & _ & E). by rewrite (get_item_id _ _ _ (se_named _ Hd) E).
  - intros E. exists (iv_id it). split; [|done]. apply elem_of_iter_ids; [apply Hd|].
    unfold get_item, find_item in E. destruct (ix_meta (d_index d) !! iv_id it); [by eexists|done].
Qed.

(** ** One id brought up to date *)

Lemma index_item_docs it idx : docs_by_id (index_item it idx) = <[iv_id it := item_doc (list_names idx) it]> (docs_by_id idx).
Proof. unfold index_item. cbn. rewrite remove_docs, remove_names. apply insert_delete_eq. Qed.
Lemma index_item_names it idx : list_names (index_item it idx) = list_names idx.
Proof. unfold index_item. cbn. apply remove_names. Qed.
Lemma index_list_docs v idx : docs_by_id (index_list v idx) = <[lv_id v := list_doc v]> (docs_by_id idx).
Proof. unfold index_list. cbn. rewrite remove_docs. apply insert_delete_eq. Qed.
Lemma index_list_names v idx : list_names (index_list v idx) = <[lv_id v := lv_name v]> (list_names idx).
Proof. unfold index_list. cbn. by rewrite remove_names. Qed.

Lemma reconcile_item_names x idx : list_names (reconcile_search_item d idx x) = list_names idx.
Proof. unfold reconcile_search_item. destruct (get_item d x); [apply index_item_names|apply remove_names]. Qed.

Lemma reconcile_item_docs x idx id : is_list x = false ->
  docs_by_id (reconcile_search_item d idx x) !! id = if decide (id = x) then shown d (list_names idx) x else docs_by_id idx !! id.
Proof.
  intros Hx. unfold reconcile_search_item, shown. rewrite Hx. destruct (get_item d x) as [it|] eqn:E.
  - rewrite index_item_docs, (get_item_id _ _ _ (se_named _ Hd) E). case_decide as Hid; [subst; by rewrite lookup_insert_eq|by rewrite lookup_insert_ne].
  - rewrite remove_docs. case_decide as Hid; [subst; by rewrite lookup_delete_eq|by rewrite lookup_delete_ne].
Qed.

Lemma shown_kind names id sd : shown d names id = Some sd -> sd_kind sd = KList <-> is_list id = true.
Proof.
  unfold shown. destruct (is_list id); [destruct (get_list_meta d id)|destruct (get_item d id)]; try done; cbn; by intros [= <-].
Qed.

Lemma reconcile_item_agrees R I x idx : is_list x = false -> agrees d R I idx -> agrees d R (I ∖ {[x]}) (reconcile_search_item d idx x).
Proof.
  intros Hx [A1 A2 A3 A4]. split.
  - by apply reconcile_item_wf.
  - intros id sd. rewrite reconcile_item_docs by done. case_decide; [subst; apply shown_kind|apply A2].
  - intros l. rewrite reconcile_item_names. apply A3.
  - intros id HR HI. rewrite reconcile_item_docs, reconcile_item_names by done. case_decide; [by subst|]. apply A4; set_solver.
Qed.

Lemma reconcile_items_agrees R xs : (forall x, x ∈ xs -> is_list x = false) -> forall I idx, agrees d R I idx ->
  agrees d R (I ∖ list_to_set xs) (foldl (reconcile_search_item d) idx xs).
Proof.
  induction xs as [|x xs IH]; intros Hxs I idx Ha; cbn [foldl list_to_set].
  - by rewrite difference_empty_L.
  - replace (I ∖ ({[x]} ∪ list_to_set xs)) with ((I ∖ {[x]}) ∖ list_to_set xs) by set_solver.
    apply IH; [intros y Hy; apply Hxs; by right|]. apply reconcile_item_agrees; [apply Hxs; by left|done].
Qed.

(** ** One list brought up to date *)

Definition reconcile_row (idx : SearchIndex) (l : string) : SearchIndex :=
  match get_list_meta d l with Some v => index_list v idx | None => remove_list l idx end.

Lemma reconcile_row_names l idx j :
  list_names (reconcile_row idx l) !! j = if decide (j = l) then lv_name <$> get_list_meta d l else list_names idx !! j.
Proof.
  unfold reconcile_row. destruct (get_list_meta d l) as [v|] eqn:E.
  - rewrite index_list_names, (get_list_meta_id _ _ E). case_decide; [subst; by rewrite lookup_insert_eq|by rewrite lookup_insert_ne].
  - cbn. rewrite remove_names. case_decide; [subst; by rewrite lookup_delete_eq|by rewrite lookup_delete_ne].
Qed.

Lemma reconcile_row_docs l idx id :
  docs_by_id (reconcile_row idx l) !! id = if decide (id = l) then list_doc <$> get_list_meta d l else docs_by_id idx !! id.
Proof.
  unfold reconcile_row. destruct (get_list_meta d l) as [v|] eqn:E.
  - rewrite index_list_docs, (get_list_meta_id _ _ E). case_decide; [subst; by rewrite lookup_insert_eq|by rewrite lookup_insert_ne].
  - cbn. rewrite remove_docs. case_decide; [subst; by rewrite lookup_delete_eq|by rewrite lookup_delete_ne].
Qed.

Lemma reconcile_row_wf l idx : search_wf idx -> search_wf (reconcile_row idx l).
Proof. intros Hwf. unfold reconcile_row. destruct (get_list_meta d l); [by apply index_list_wf|by apply remove_list_wf]. Qed.

Lemma item_doc_names names names' it : names !! iv_list_id it = names' !! iv_list_id it -> item_doc names it = item_doc names' it.
Proof. intros E. unfold item_doc. by rewrite E. Qed.

(** After its row, the items still to re-read are those under the list. *)
Lemma reconcile_row_agrees R I l idx : is_list l = true -> agrees d R I idx ->
  agrees d (R ∖ {[l]}) (I ∪ bucket l (items_by_list (reconcile_row idx l))) (reconcile_row idx l).
Proof.
  intros Hl [A1 A2 A3 A4]. pose proof (reconcile_row_wf l idx A1) as Hwf. split; [done| | |].
  - intros id sd. rewrite reconcile_row_docs. case_decide as Hid; [|apply A2]. subst.
    destruct (get_list_meta d l); [|done]. intros [= <-]. done.
  - intros j Hj. rewrite reconcile_row_names. case_decide; [by subst|]. apply A3. set_solver.
  - intros id HR HI. destruct (decide (id = l)) as [->|Hid].
    + rewrite reconcile_row_docs, decide_True by done. unfold shown. by rewrite Hl.
    + assert (Hdoc : docs_by_id (reconcile_row idx l) !! id = docs_by_id idx !! id) by (by rewrite reconcile_row_docs, decide_False).
      rewrite Hdoc, A4 by set_solver. unfold shown. destruct (is_list id) eqn:Eid; [done|].
      destruct (get_item d id) as [it|] eqn:Eit; [|done]. cbn. f_equal. apply item_doc_names.
      rewrite reconcile_row_names. rewrite decide_False; [done|]. intros Hlist. apply HI, elem_of_union. right.
      apply (sw_members _ Hwf). exists (item_doc (list_names idx) it). split.
      * rewrite Hdoc, A4 by set_solver. unfold shown. by rewrite Eid, Eit.
      * cbn. rewrite decide_False; [by rewrite Hlist|]. intros He. congruence.
Qed.

Lemma reconcile_list_agrees R I l idx : is_list l = true -> agrees d R I idx -> agrees d (R ∖ {[l]}) I (reconcile_search_list d idx l).
Proof.
  intros Hl Ha. pose proof (reconcile_row_agrees R I l idx Hl Ha) as Hrow. unfold reconcile_search_list. fold (reconcile_row idx l).
  set (idx1 := reconcile_row idx l) in *.
  assert (Hitems : forall x, x ∈ item_ids_in_list idx1 l -> is_list x = false).
  { intros x Hx. unfold item_ids_in_list in Hx. apply elem_of_elements in Hx. change (x ∈ bucket l (items_by_list idx1)) in Hx.
    apply (sw_members _ (ag_wf _ _ _ _ Hrow)) in Hx as (sd & Hsd & Hlist). destruct (is_list x) eqn:E; [|done].
    apply (ag_kind _ _ _ _ Hrow _ _ Hsd) in E. rewrite (sw_kind _ (ag_wf _ _ _ _ Hrow) _ _ Hsd E) in Hlist. done. }
  pose proof (reconcile_items_agrees _ _ Hitems _ _ Hrow) as [B1 B2 B3 B4]. split; try done.
  intros id HR HI. apply B4; [done|]. unfold item_ids_in_list. rewrite list_to_set_elements_L. unfold bucket. set_solver.
Qed.

Lemma reconcile_lists_agrees ls : (forall l, l ∈ ls -> is_list l = true) -> forall R I idx, agrees d R I idx ->
  agrees d (R ∖ list_to_set ls) I (foldl (reconcile_search_list d) idx ls).
Proof.
  induction ls as [|l ls IH]; intros Hls R I idx Ha; cbn [foldl list_to_set].
  - by rewrite difference_empty_L.
  - replace (R ∖ ({[l]} ∪ list_to_set ls)) with ((R ∖ {[l]}) ∖ list_to_set ls) by set_solver.
    apply IH; [intros y Hy; apply Hls; by right|]. apply reconcile_list_agrees; [apply Hls; by left|done].
Qed.

(** ** A rebuild *)

Lemma clear_rows ls : (forall l, l ∈ ls -> is_list l = true) -> forall R I idx, agrees d R I idx ->
  (forall id sd, docs_by_id idx !! id = Some sd -> sd_kind sd = KList) ->
  agrees d (R ∖ list_to_set ls) I (foldl reconcile_row idx ls).
Proof.
  induction ls as [|l ls IH]; intros Hls R I idx Ha Hk; cbn [foldl list_to_set].
  - by rewrite difference_empty_L.
  - replace (R ∖ ({[l]} ∪ list_to_set ls)) with ((R ∖ {[l]}) ∖ list_to_set ls) by set_solver.
    assert (Hk' : forall id sd, docs_by_id (reconcile_row idx l) !! id = Some sd -> sd_kind sd = KList).
    { intros id sd. rewrite reconcile_row_docs. case_decide; [|apply Hk]. destruct (get_list_meta d l); [|done]. by intros [= <-]. }
    apply IH; [intros y Hy; apply Hls; by right| |done].
    pose proof (reconcile_row_agrees R I l idx (Hls l ltac:(by left)) Ha) as [B1 B2 B3 B4]. split; try done.
    intros id HR HI. apply B4; [done|]. intros [?|Hb]%elem_of_union; [done|].
    apply (sw_members _ B1) in Hb as (sd & Hsd & Hl). by rewrite (sw_kind _ B1 _ _ Hsd (Hk' _ _ Hsd)) in Hl.
Qed.

Lemma rebuild_agrees idx : agrees d ∅ ∅ (rebuild (all_lists d) (iter_items d) idx).
Proof.
  assert (Erows : forall ls idx, (forall v, v ∈ ls -> v ∈ all_lists d) ->
    foldl (fun idx v => index_list v idx) idx ls = foldl reconcile_row idx (lv_id <$> ls)).
  { induction ls as [|v ls IH]; intros idx0 Hls; [done|]. cbn. rewrite IH by (intros; apply Hls; by right).
    f_equal. unfold reconcile_row. by rewrite (proj1 (elem_of_all_lists v)) by (apply Hls; by left). }
  assert (Eitems : forall its idx, (forall it, it ∈ its -> it ∈ iter_items d) ->
    foldl (fun idx it => index_item it idx) idx its = foldl (reconcile_search_item d) idx (iv_id <$> its)).
  { induction its as [|it its IH]; intros idx0 Hits; [done|]. cbn. rewrite IH by (intros; apply Hits; by right).
    f_equal. unfold reconcile_search_item. by rewrite (proj1 (elem_of_iter_items it)) by (apply Hits; by left). }
  unfold rebuild. rewrite Eitems, Erows by done.
  set (ls := lv_id <$> all_lists d). set (xs := iv_id <$> iter_items d).
  assert (Hls : forall l, l ∈ ls <-> is_Some (get_list_meta d l)).
  { intros l. unfold ls. rewrite list_elem_of_fmap. split.
    - intros (v & -> & Hv%elem_of_all_lists). by eexists.
    - intros [v Hv]. exists v. pose proof (get_list_meta_id _ _ Hv) as <-. split; [done|]. by apply elem_of_all_lists. }
  assert (Hxs : forall x, x ∈ xs <-> is_Some (get_item d x)).
  { intros x. unfold xs. rewrite list_elem_of_fmap. split.
    - intros (it & -> & Hit%elem_of_iter_items). by eexists.
    - intros [it Hit]. exists it. pose proof (get_item_id _ _ _ (se_named _ Hd) Hit) as <-. split; [done|]. by apply elem_of_iter_items. }
  assert (H0 : agrees d (list_to_set ls) (list_to_set xs) (clear idx)).
  { split; cbn.
    - apply search_empty_wf.
    - intros id sd. by rewrite lookup_empty.
    - intros l Hl. rewrite lookup_empty. destruct (get_list_meta d l) eqn:E; [|done]. destruct Hl.
      apply elem_of_list_to_set, Hls. by eexists.
    - intros id HR HI. rewrite lookup_empty. unfold shown. destruct (is_list id).
      + destruct (get_list_meta d id) eqn:E; [|done]. destruct HR. apply elem_of_list_to_set, Hls. by eexists.
      + destruct (get_item d id) eqn:E; [|done]. destruct HI. apply elem_of_list_to_set, Hxs. by eexists. }
  apply (clear_rows ls) in H0; [|intros l [v Hv]%Hls; by eapply (se_list _ Hd)|intros id sd; cbn; by rewrite lookup_empty].
  apply (reconcile_items_agrees _ xs) in H0; [|intros x [it Hit]%Hxs; by eapply (se_item _ Hd)].
  by rewrite !difference_diag_L in H0.
Qed.

(** Two indexes that agree with the document everywhere hold the same. *)
Lemma agrees_docs idx idx' : agrees d ∅ ∅ idx -> agrees d ∅ ∅ idx' -> docs_by_id idx = docs_by_id idx'.
Proof.
  intros [_ _ N D] [_ _ N' D']. assert (En : list_names idx = list_names idx').
  { apply map_eq. intros l. by rewrite N, N' by set_solver. }
  apply map_eq. intros id. by rewrite D, D', En by set_solver.
Qed.

Lemma reconcile_dirty_agrees idx : tracks d idx -> agrees d ∅ ∅ (reconcile_dirty d (dirty idx) (with_dirty (fun _ => dirty_default) idx)).
Proof.
  intros [Hwf [Hall|(HL & HI & Ha)]]; unfold reconcile_dirty.
  - rewrite Hall. apply rebuild_agrees.
  - destruct (dt_all (dirty idx)); [apply rebuild_agrees|].
    assert (Ha' : agrees d (dt_lists (dirty idx)) (dt_items (dirty idx)) (with_dirty (fun _ => dirty_default) idx)).
    { destruct Ha as [A1 A2 A3 A4]. split; [|exact A2|exact A3|exact A4]. by eapply search_wf_ext; [..|exact A1]. }
    apply (reconcile_lists_agrees (elements (dt_lists (dirty idx)))) in Ha'; [|intros l Hl%elem_of_elements; by apply HL].
    apply (reconcile_items_agrees _ (elements (dt_items (dirty idx)))) in Ha'; [|intros l Hl%elem_of_elements; by apply HI].
    by rewrite !list_to_set_elements_L, !difference_diag_L in Ha'.
Qed.

Lemma index_ops_dirty : (forall it idx, dirty (index_item it idx) = dirty idx) /\ (forall v idx, dirty (index_list v idx) = dirty idx)
  /\ (forall l idx, dirty (remove_list l idx) = dirty idx).
Proof.
  split_and!; intros; unfold index_item, index_list, remove_list; cbn; by rewrite remove_dirty.
Qed.

Lemma reconcile_dirty_clean dt idx : dirty (reconcile_dirty d dt idx) = dirty idx.
Proof.
  destruct index_ops_dirty as (H1 & H2 & H3).
  assert (Hf : forall {A} (f : SearchIndex -> A -> SearchIndex) l idx, (forall idx a, dirty (f idx a) = dirty idx) -> dirty (foldl f idx l) = dirty idx).
  { intros A f l. induction l as [|a l IH]; intros idx0 Hf; [done|]. cbn. by rewrite IH, Hf. }
  assert (Hitem : forall idx x, dirty (reconcile_search_item d idx x) = dirty idx).
  { intros idx0 x. unfold reconcile_search_item. destruct (get_item d x); [apply H1|apply remove_dirty]. }
  unfold reconcile_dirty. destruct (dt_all dt).
  - unfold rebuild. rewrite Hf by (intros; apply H1). by rewrite Hf by (intros; apply H2).
  - rewrite Hf by done. rewrite Hf; [done|]. intros idx0 l. unfold reconcile_search_list. rewrite Hf by done.
    destruct (get_list_meta d l); [apply H2|apply H3].
Qed.

Lemma search_agrees input limit idx : tracks d idx ->
  let idx' := (search d input limit idx).2 in
  agrees d ∅ ∅ idx' /\ dirty idx' = dirty_default /\ (search d input limit idx).1 = query idx' input limit.
Proof.
  intros Ht. unfold search, take_dirty. destruct (is_clean (dirty idx)) eqn:Ec.
  - cbn. unfold is_clean in Ec. rewrite !andb_true_iff, !bool_decide_eq_true, negb_true_iff in Ec. destruct Ec as [[Ea Ei] El].
    destruct Ht as [Hwf [Hall|(_ & _ & Ha)]]; [congruence|]. rewrite Ei, El in Ha. split_and!; [done| |done].
    destruct (dirty idx) as [a i l]. cbn in *. by subst.
  - cbn. split_and!; [by apply reconcile_dirty_agrees|by rewrite reconcile_dirty_clean|done].
Qed.
End doc.

(** ** What the events say *)

Definition noted_item (ev : AppEvent) : option string :=
  match ev with
  | ItemAdded it _ => Some (iv_id it)
  | ItemRemoved id | ItemTextChanged id _ | ItemNotesChanged id _ | ItemNotesDelta id _
  | ItemLifecycleChanged id _ _ _ _ _ _ | ItemListChanged id _ _ => Some id
  | _ => None
  end.
Definition noted_list (ev : AppEvent) : option string :=
  match ev with ListAdded id _ _ _ _ | ListRemoved id | ListRenamed id _ => Some id | _ => None end.

(** The events of a change name every item and list whose indexed part it
    touched, or resync everything. *)
Record covers (d d' : Doc) (evs : list AppEvent) : Prop := {
  co_items ev x : ev ∈ evs -> noted_item ev = Some x -> is_list x = false;
  co_lists ev l : ev ∈ evs -> noted_list ev = Some l -> is_list l = true;
  co_item x : is_list x = false -> FullResync ∈ evs
    \/ (forall names, item_doc names <$> get_item d x = item_doc names <$> get_item d' x)
    \/ exists ev, ev ∈ evs /\ noted_item ev = Some x;
  co_list l : is_list l = true -> FullResync ∈ evs
    \/ list_doc <$> get_list_meta d l = list_doc <$> get_list_meta d' l
    \/ exists ev, ev ∈ evs /\ noted_list ev = Some l;
}.

(** The dirty set after the events of a change. *)
Lemma note_all evs : forall idx, dt_all (dirty idx) = true -> dt_all (dirty (foldl note_event idx evs)) = true.
Proof. induction evs as [|ev evs IH]; intros idx Ha; [done|]. cbn. apply IH. unfold note_event. by rewrite Ha. Qed.

Lemma note_same evs : forall idx, docs_by_id (foldl note_event idx evs) = docs_by_id idx /\ postings (foldl note_event idx evs) = postings idx
  /\ items_by_list (foldl note_event idx evs) = items_by_list idx /\ list_names (foldl note_event idx evs) = list_names idx.
Proof.
  induction evs as [|ev evs IH]; intros idx; [done|]. cbn. destruct (IH (note_event idx ev)) as (-> & -> & -> & ->). apply note_event_same.
Qed.

Lemma note_dirty evs : forall idx, dt_all (dirty (foldl note_event idx evs)) = false ->
  (FullResync ∉ evs)
  /\ (forall x, x ∈ dt_items (dirty (foldl note_event idx evs)) <-> x ∈ dt_items (dirty idx) \/ exists ev, ev ∈ evs /\ noted_item ev = Some x)
  /\ (forall l, l ∈ dt_lists (dirty (foldl note_event idx evs)) <-> l ∈ dt_lists (dirty idx) \/ exists ev, ev ∈ evs /\ noted_list ev = Some l).
Proof.
  induction evs as [|ev evs IH]; intros idx Ha; cbn [foldl] in *; [set_solver|].
  destruct (IH _ Ha) as (H1 & H2 & H3). assert (Hn : dt_all (dirty (note_event idx ev)) = false).
  { destruct (dt_all (dirty (note_event idx ev))) eqn:E; [|done]. by rewrite (note_all evs _ E) in Ha. }
  assert (Hidx : dt_all (dirty idx) = false).
  { destruct (dt_all (dirty idx)) eqn:E; [|done]. unfold note_event in Hn. rewrite E in Hn. congruence. }
  assert (Hev : ev <> FullResync) by (intros ->; unfold note_event in Hn; by rewrite Hidx in Hn).
  split_and!.
  - intros [?|?]%elem_of_cons; done.
  - intros x. rewrite H2. setoid_rewrite elem_of_cons. assert (Hx : x ∈ dt_items (dirty (note_event idx ev)) <-> x ∈ dt_items (dirty idx) \/ noted_item ev = Some x).
    { unfold note_event. rewrite Hidx. destruct ev; cbn; rewrite ?elem_of_union, ?elem_of_singleton; naive_solver. }
    rewrite Hx. naive_solver.
  - intros l. rewrite H3. setoid_rewrite elem_of_cons. assert (Hx : l ∈ dt_lists (dirty (note_event idx ev)) <-> l ∈ dt_lists (dirty idx) \/ noted_list ev = Some l).
    { unfold note_event. rewrite Hidx. destruct ev; cbn; rewrite ?elem_of_union, ?elem_of_singleton; naive_solver. }
    rewrite Hx. naive_solver.
Qed.

Lemma list_doc_name v v' : list_doc v = list_doc v' -> lv_name v = lv_name v'.
Proof. unfold list_doc. by intros [=]. Qed.

Lemma note_tracks d d' evs idx : searchable d -> searchable d' -> tracks d idx -> covers d d' evs -> tracks d' (foldl note_event idx evs).
Proof.
  intros Hd Hd' [Hwf Ht] [C1 C2 C3 C4]. destruct (note_same evs idx) as (E1 & E2 & E3 & E4). split; [by eapply search_wf_ext; [symmetry..|exact Hwf]|].
  destruct (dt_all (dirty (foldl note_event idx evs))) eqn:Ea; [by left|right].
  destruct (note_dirty evs idx Ea) as (Hn & HI & HL). destruct Ht as [Hall|(K1 & K2 & [A1 A2 A3 A4])]; [by rewrite (note_all evs _ Hall) in Ea|].
  assert (Hlists : forall l, l ∉ dt_lists (dirty (foldl note_event idx evs)) -> is_list l = true ->
    (l ∉ dt_lists (dirty idx)) /\ list_doc <$> get_list_meta d l = list_doc <$> get_list_meta d' l).
  { intros l Hl Hil. rewrite HL in Hl. split; [tauto|]. destruct (C4 l Hil) as [?|[?|?]]; [done|done|tauto]. }
  split_and!.
  - intros l [Hl|(ev & Hev & Hl)]%HL; [by apply K1|by eapply C2].
  - intros x [Hx|(ev & Hev & Hx)]%HI; [by apply K2|by eapply C1].
  - assert (Hmeta : forall l, is_list l = false -> get_list_meta d l = None /\ get_list_meta d' l = None).
    { intros l Hl. split; apply eq_None_not_Some; intros [v Hv].
      - by rewrite (se_list _ Hd _ _ Hv) in Hl.
      - by rewrite (se_list _ Hd' _ _ Hv) in Hl. }
    split.
    + by eapply search_wf_ext; [symmetry..|exact Hwf].
    + intros id sd. rewrite E1. apply A2.
    + intros l Hl. rewrite E4. destruct (is_list l) eqn:El.
      * destruct (Hlists l Hl El) as [Hl0 Hm]. rewrite A3 by done.
        destruct (get_list_meta d l), (get_list_meta d' l); try done. cbn in *. f_equal. apply list_doc_name. congruence.
      * destruct (Hmeta l El) as [Hm ->]. rewrite A3, Hm; [done|]. intros Hin. apply K1 in Hin. congruence.
    + intros id HR HI'. rewrite E1, E4. destruct (is_list id) eqn:El.
      * destruct (Hlists id HR El) as [Hl0 Hm]. rewrite A4; [|done|intros Hx; apply K2 in Hx; congruence].
        unfold shown. rewrite El. exact Hm.
      * rewrite HI in HI'. rewrite A4; [|intros Hx; apply K1 in Hx; congruence|tauto]. unfold shown. rewrite El.
        destruct (C3 id El) as [?|[Hsame|?]]; [done|apply Hsame|tauto].
Qed.
End fresh.

Section runs.
Context `{Unicode}.
Variable is_list : string -> bool.

(** The document and its index, from the index of a new document on. *)
Inductive searched : Doc -> SearchIndex -> Prop :=
  | searched_new d : searchable is_list d -> searched d search_new
  | searched_change d idx d' evs : searched d idx -> searchable is_list d' -> covers is_list d d' evs ->
      searched d' (foldl note_event idx evs)
  | searched_rebuild d idx d' : searched d idx -> searchable is_list d' -> searched d' (mark_all_dirty idx)
  | searched_search d idx input limit : searched d idx -> searched d (search d input limit idx).2.

Lemma searched_tracks d idx : is_list "" = false -> searched d idx -> searchable is_list d /\ tracks is_list d idx.
Proof.
  intros Hname. induction 1 as [d Hd|d idx d' evs _ [Hd Ht] Hd' Hc|d idx d' _ [_ Ht] Hd'|d idx input limit _ [Hd Ht]].
  - split; [done|]. split; [apply search_empty_wf|by left].
  - split; [done|]. by apply (note_tracks is_list Hname d d' evs idx Hd Hd' Ht Hc).
  - split; [done|]. split; [|by left]. eapply search_wf_ext; [..|exact (proj1 Ht)]; done.
  - split; [done|]. destruct (search_agrees is_list Hname d Hd input limit idx Ht) as (Ha & Ed & _).
    split; [apply Ha|right]. rewrite Ed. split_and!; [set_solver|set_solver|exact Ha].
Qed.

(** C31: In every run, a search answers what scoring every list and item of the
    document as it is now would: the hits of a fresh rebuild's documents, each
    scored, best first. *)
Theorem search_is_current d idx input limit : is_list "" = false -> searched d idx ->
  (search d input limit idx).1 = scan (docs_by_id (rebuild (all_lists d) (iter_items d) search_new)) input limit.
Proof.
  intros Hname [Hd Ht]%searched_tracks; [|done].
  destruct (search_agrees is_list Hname d Hd input limit idx Ht) as (Ha & _ & ->).
  rewrite query_scan by apply Ha. f_equal. apply (agrees_docs is_list Hname d Hd); [done|]. by apply rebuild_agrees.
Qed.

(** ** Mutations whose events cover them *)

(** A mutation of one item that reports it. *)
Lemma item_covers d d' id evs : is_list id = false ->
  (forall x, x <> id -> get_item d' x = get_item d x) -> (forall l, get_list_meta d' l = get_list_meta d l) ->
  (forall ev, ev ∈ evs -> noted_list ev = None /\ forall x, noted_item ev = Some x -> x = id) ->
  (exists ev, ev ∈ evs /\ noted_item ev = Some id) -> covers is_list d d' evs.
Proof.
  intros Hid Hitems Hlists Hevs Hev. split.
  - by intros ev x [_ Hx]%Hevs ->%Hx.
  - intros ev l [Hn _]%Hevs. congruence.
  - intros x _. destruct (decide (x = id)) as [->|Hx]; [by right; right|]. right; left. intros names. by rewrite Hitems.
  - intros l _. right; left. by rewrite Hlists.
Qed.

(** A mutation of one list that reports it. *)
Lemma list_covers d d' id evs : is_list id = true ->
  (forall x, get_item d' x = get_item d x) -> (forall l, l <> id -> get_list_meta d' l = get_list_meta d l) ->
  (forall ev, ev ∈ evs -> noted_item ev = None /\ forall l, noted_list ev = Some l -> l = id) ->
  (exists ev, ev ∈ evs /\ noted_list ev = Some id) -> covers is_list d d' evs.
Proof.
  intros Hid Hitems Hlists Hevs Hev. split.
  - intros ev x [Hn _]%Hevs. congruence.
  - by intros ev l [_ Hl]%Hevs ->%Hl.
  - intros x _. right; left. intros names. by rewrite Hitems.
  - intros l _. destruct (decide (l = id)) as [->|Hl]; [by right; right|]. right; left. by rewrite Hlists.
Qed.

Lemma set_item_reads id map d x : x <> id -> get_item (set_item id map d) x = get_item d x.
Proof. intros Hx. unfold get_item, find_item, item_map_of. cbn. by rewrite lookup_insert_ne. Qed.

(** Rewriting a row under its own id leaves the other lists' rows first. *)
Lemma find_list_rewritten rows : forall k i m m' l, rows !! i = Some (MapC m) ->
  read_string m KEY_ID <> Some l -> read_string m' KEY_ID <> Some l ->
  find_list_from (<[i := MapC m']> rows) k l = find_list_from rows k l.
Proof.
  induction rows as [|s rows IH]; intros k i m m' l Hi Hm Hm'; [done|]. destruct i as [|i]; cbn in *.
  - injection Hi as ->. by rewrite !decide_False.
  - rewrite (IH _ i m m' l) by done. done.
Qed.

Lemma row_rewritten_reads d id i m m' l : find_list d id = Ok (i, m) -> read_string m' KEY_ID = Some id -> l <> id ->
  get_list_meta (with_lists (fun _ => <[i := MapC m']> (d_lists d)) d) l = get_list_meta d l.
Proof.
  intros [Hrow Hid]%find_list_Some Hid' Hl. unfold get_list_meta, find_list. cbn.
  rewrite (find_list_rewritten _ 0 i m m' l); [done|done|congruence|congruence].
Qed.
Lemma item_rewrite_searchable d id map evs : searchable is_list d -> is_list id = false -> read_string map KEY_ID = Some id ->
  searchable is_list (set_register id map evs d).
Proof.
  intros [H1 H2 H3 H4 H5] Hid Hmap. split; [done| |done|done|].
  - intros j m. cbn. unfold item_map_of. rewrite lookup_insert. case_decide; [subst; by intros [= <-]|]. apply H2.
  - intros x it. destruct (decide (x = id)) as [->|Hx]; [done|]. change (get_item (set_register id map evs d) x) with (get_item (set_item id map d) x).
    rewrite set_item_reads by done. apply H5.
Qed.

Lemma row_rewrite_searchable d id i m m' v evs : searchable is_list d -> find_list d id = Ok (i, m) -> list_view m' = Some v -> lv_id v = id ->
  searchable is_list (rows_write (<[i := MapC m']> (d_lists d)) evs d).
Proof.
  intros [H1 H2 H3 H4 H5] Hf Hv Hid. destruct (find_list_Some _ _ _ _ Hf) as [Hrow Hm]. split; [done|done| | |done].
  - intros m0 Hin Hs. apply list_elem_of_lookup_1 in Hin as [j Hj]. cbn in Hj. destruct (decide (i = j)) as [<-|Hij].
    + rewrite list_lookup_insert_eq in Hj by (by eapply lookup_lt_Some). injection Hj as <-. by eexists.
    + rewrite list_lookup_insert_ne in Hj by done. apply H3; [by eapply list_elem_of_lookup_2|done].
  - intros l w Hw. destruct (decide (l = id)) as [->|Hl].
    + destruct (is_list id) eqn:E; [done|]. destruct (H3 m) as [w0 Hw0]; [by eapply list_elem_of_lookup_2|by eexists|].
      rewrite <- E. apply (H4 id w0). unfold get_list_meta. by rewrite Hf.
    + apply (H4 l w). rewrite <- (row_rewritten_reads d id i m m' l Hf); [exact Hw| |done]. rewrite <- Hid. by apply list_view_id.
Qed.
End runs.

(** Editing an item's text and renaming a list. *)
Section mutations.
Context `{LoroOk} `{HostOk} `{Unicode}.
Variable is_list : string -> bool.

Lemma edit_text_covers d id old text : doc_ok d -> item_map_of (d_items d) id = Some old -> is_list id = false -> trim text <> "" ->
  let d' := (edit_item_text id text d).2 in
  exists evs, d_events d' = d_events d ++ evs /\ covers is_list d d' evs.
Proof.
  intros Hok E Hid Ht d'. subst d'. destruct (register_setters_spec d id old Hok E) as [Hedit _]. specialize (Hedit text). rewrite decide_False in Hedit by done.
  destruct Hedit as (map & evs & -> & _ & _ & _ & ->). eexists. split; [done|]. apply (item_covers _ _ _ id); [done| | | |].
  - intros x Hx. by apply (set_item_reads id map d x).
  - done.
  - intros ev ->%list_elem_of_singleton. split; [done|]. by intros x [= ->].
  - eexists. by split; [apply list_elem_of_singleton|].
Qed.

Lemma rename_list_covers d id i m v name : is_reserved_list id = false -> find_list d id = Ok (i, m) -> list_view m = Some v -> is_list id = true ->
  let d' := (rename_list id name d).2 in
  exists evs, (d' = d \/ d_events d' = d_events d ++ evs) /\ covers is_list d d' evs.
Proof.
  intros Hres Hf Hv Hid d'. subst d'. pose proof (list_registers_spec d id i m v Hres Hf Hv) as Hspec. destruct v as [lid vn icon view archived created].
  pose proof (list_view_id _ _ Hv) as Elid. destruct (find_list_Some _ _ _ _ Hf) as [_ Eid]. assert (lid = id) as -> by (cbn in Elid; congruence).
  destruct Hspec as [Hn _]. destruct (Hn name) as (m' & Hv' & [[-> _]|Hrun]); exists [ListRenamed id (trim name)].
  - split; [by left|]. apply (list_covers _ _ _ id); [done|done|done| |].
    + intros ev ->%list_elem_of_singleton. split; [done|]. by intros x [= ->].
    + eexists. by split; [apply list_elem_of_singleton|].
  - rewrite Hrun. split; [by right|]. apply (list_covers _ _ _ id); [done|done| | |].
    + intros l Hl. by apply (row_rewritten_reads d id i m m' l Hf (list_view_id _ _ Hv')).
    + intros ev ->%list_elem_of_singleton. split; [done|]. by intros x [= ->].
    + eexists. by split; [apply list_elem_of_singleton|].
Qed.
End mutations.

(** ** A concrete run

    Three lists and three items under the tables of ASCII; an item is
    reworded and a list renamed between two searches. *)
#[local] Existing Instances value_loro value_loro_ok unary_host unary_host_ok ascii.

Definition sample_is_list (id : string) : bool := bool_decide (id ∈ ["work"; "old"; "home"]).
Definition reworded : Doc := (edit_item_text "x1" " Oat milk " sample_lists).2.
Definition renamed : Doc := (rename_list "home" "Oat house" reworded).2.
Definition after_edits : SearchIndex :=
  foldl note_event (foldl note_event (search sample_lists "milk" 5 search_new).2 [ItemTextChanged "x1" "Oat milk"])
    [ListRenamed "home" "Oat house"].

Lemma sample_searchable : searchable sample_is_list sample_lists.
Proof.
  assert (Hmaps : forall id m, item_map_of (d_items sample_lists) id = Some m ->
    sample_is_list id = false /\ read_string m KEY_ID = Some id).
  { intros id m. change (d_items sample_lists) with (d_items sample_doc). unfold item_map_of.
    destruct (d_items sample_doc !! id) as [s|] eqn:Es; [|done]. pose proof (sample_items _ _ Es) as Hin.
    rewrite !elem_of_cons, elem_of_nil in Hin. intros Em.
    destruct Hin as [->|[->|[->|[]]]]; vm_compute in Es; injection Es as <-; injection Em as <-; split; by vm_compute. }
  split.
  - apply (ok_index _ sample_doc_ok).
  - intros id m Em. by apply (Hmaps id m).
  - intros m Hm Hid. exact (sample_rows_read (MapC m) Hm Hid).
  - intros l v. unfold get_list_meta. destruct (find_list sample_lists l) as [[j m]|] eqn:E; [|done].
    apply find_list_Some in E as [Hrow Hid]. intros _. destruct j as [|[|[|j]]]; cbn in Hrow; simplify_eq;
      vm_compute in Hid; injection Hid as <-; reflexivity.
  - intros x it. unfold get_item, find_item. destruct (ix_meta _ !! x); [|done]. 
    destruct (item_map_of (d_items sample_lists) x) as [m|] eqn:Em; [|done]. intros _. by apply (Hmaps x m).
Qed.

Lemma sample_lists_ok : doc_ok sample_lists.
Proof.
  destruct sample_doc_ok as [Hix Hu [Hi _]]. split; [|exact Hu|split; [exact Hi|]].
  - destruct Hix as [H1 H2 H3]. by split.
  - intros i m l Hm. unfold list_map_at in Hm. destruct i as [|[|[|i]]]; cbn in Hm; simplify_eq; vm_compute; by intros [= <-].
Qed.

Lemma reworded_covers : covers sample_is_list sample_lists reworded [ItemTextChanged "x1" "Oat milk"] /\ searchable sample_is_list reworded.
Proof.
  assert (E : reworded = set_register "x1" (map_insert KEY_TEXT (Val (LString "Oat milk")) (sample_item "x1" "milk" "p1" 1)) [ItemTextChanged "x1" "Oat milk"] sample_lists)
    by (vm_compute; reflexivity).
  split; [|rewrite E; by apply item_rewrite_searchable; [apply sample_searchable| |]].
  destruct (edit_text_covers sample_is_list sample_lists "x1" (sample_item "x1" "milk" "p1" 1) " Oat milk ") as (evs & Hevs & Hc);
    [|reflexivity|reflexivity|by vm_compute|].
  - exact sample_lists_ok.
  - fold reworded in Hevs, Hc. assert (evs = [ItemTextChanged "x1" "Oat milk"]) as <-; [|done].
    apply (app_inv_head (d_events sample_lists)). rewrite <- Hevs. vm_compute. reflexivity.
Qed.

Lemma renamed_covers : covers sample_is_list reworded renamed [ListRenamed "home" "Oat house"] /\ searchable sample_is_list renamed.
Proof.
  destruct reworded_covers as [_ Hd]. set (m := sample_row "home" "Home" 3).
  assert (Hf : find_list reworded "home" = Ok (2, m)) by (vm_compute; reflexivity).
  assert (E : renamed = rows_write (<[2 := MapC (map_insert KEY_NAME (Val (LString "Oat house")) m)]> (d_lists reworded)) [ListRenamed "home" "Oat house"] reworded)
    by (vm_compute; reflexivity).
  split.
  - destruct (rename_list_covers sample_is_list reworded "home" 2 m (mkListView "home" "Home" None None None 3) "Oat house")
      as (evs & Hevs & Hc); [reflexivity|exact Hf|reflexivity|reflexivity|]. fold renamed in Hevs, Hc.
    assert (Hq : d_events renamed = d_events reworded ++ [ListRenamed "home" "Oat house"]) by (vm_compute; reflexivity).
    assert (evs = [ListRenamed "home" "Oat house"]) as <-; [|done]. apply (app_inv_head (d_events reworded)). rewrite <- Hq.
    destruct Hevs as [Hsame|Hevs]; [|done]. exfalso. apply (f_equal d_lists) in Hsame. vm_compute in Hsame. discriminate Hsame.
  - rewrite E. eapply row_rewrite_searchable; [exact Hd|exact Hf|vm_compute; reflexivity|reflexivity].
Qed.

Lemma sample_searched : searched sample_is_list renamed after_edits.
Proof.
  destruct reworded_covers as [C1 S1], renamed_covers as [C2 S2]. pose proof sample_searchable as S0.
  unfold after_edits. apply (searched_change _ reworded); [|exact S2|exact C2].
  apply (searched_change _ sample_lists); [|exact S1|exact C1]. by apply searched_search, searched_new.
Qed.

Lemma search_is_current_witness :
  (search renamed "oat" 5 after_edits).1 = scan (docs_by_id (rebuild (all_lists renamed) (iter_items renamed) search_new)) "oat" 5
  /\ sr_title <$> (search renamed "oat" 5 after_edits).1 = ["Oat milk"; "Oat house"].
Proof.
  split; [|vm_compute; reflexivity].
  apply (search_is_current sample_is_list); [reflexivity|exact sample_searched].
Defined.
