(* ===== verification/Places.v ===== *)
(** Place suggestions (core/src/places.rs): the places on the items, folded by
    label and rounded coordinates and ranked by their newest use. *)
From Stdlib Require Import Floats.SpecFloat.
From S2P Require Import Prelude.
From S2P Require Import Loro.
From S2P Require Import Lifecycle.
From S2P Require Import Registers.
From S2P Require Import DocCore.
From S2P Require Import Ordering.
From S2P Require Import Search.

Record PlaceSuggestion : Type := mkSuggestion {
  ps_place : Place;
  ps_count : nat;
  ps_last_used : Z;
}.

(** ** Coordinates *)

(** [as i64]: saturating. *)
Definition saturate_i64 (n : Z) : Z := Z.max (- 2 ^ 63) (Z.min (2 ^ 63 - 1) n).

(** [x.round() as i64]: half away from zero; NaN is 0. *)
Definition round_i64 (d : spec_float) : Z :=
  match d with
  | S754_zero _ | S754_nan => 0
  | S754_infinity neg => if neg then - 2 ^ 63 else 2 ^ 63 - 1
  | S754_finite neg m e =>
      let n := if 0 <=? e then Z.pos m * 2 ^ e else (Z.pos m + 2 ^ (- e - 1)) / 2 ^ (- e) in
      saturate_i64 (if neg then - n else n)
  end%Z.

Definition coord_bucket (lat lon : spec_float) : Z * Z :=
  (round_i64 (SFmul 53 1024 lat (f64_of_Z 10000)), round_i64 (SFmul 53 1024 lon (f64_of_Z 10000))).

(** ** Dates as ranking keys *)

Definition days_from_civil (y m d : Z) : Z :=
  (let y := if m <=? 2 then y - 1 else y in
   let era := (if 0 <=? y then y else y - 399) ÷ 400 in
   let yoe := y - era * 400 in
   let mp := Z.rem (m + 9) 12 in
   let doy := (153 * mp + 2) ÷ 5 + d - 1 in
   let doe := yoe * 365 + yoe ÷ 4 - yoe ÷ 100 + doy in
   era * 146097 + doe - 719468)%Z.

Section str_get.
Variable bs : list N.

(** [when.get(from..to)] and [num] on it. *)
Definition is_char_boundary (i : nat) : bool :=
  match bs !! i with Some b => negb (bool_decide (N.land b 0xC0 = 0x80%N)) | None => (i =? length bs)%nat end.
Definition str_get (from to : nat) : option (list N) :=
  if is_char_boundary from && is_char_boundary to then Some (take (to - from) (drop from bs)) else None.
Definition num (s : list N) : option Z :=
  if bool_decide (s = []) || negb (forallb is_digit s) then None else Some (parse_digits 0 s).
End str_get.

Definition when_millis (when_ : string) : option Z :=
  let bs := bytes when_ in
  if (length bs <? 10)%nat then None
  else
    y ← str_get bs 0 4 ≫= num;
    m ← str_get bs 5 7 ≫= num;
    d ← str_get bs 8 10 ≫= num;
    if negb ((1 <=? m) && (m <=? 12))%Z || negb ((1 <=? d) && (d <=? 31))%Z then None
    else
      let millis := (days_from_civil y m d * 86400000)%Z in
      if (length bs =? 16)%nat then
        h ← str_get bs 11 13 ≫= num;
        min ← str_get bs 14 16 ≫= num;
        Some (millis + (h * 60 + min) * 60000)%Z
      else Some millis.

Definition use_time (item : ItemView) : Z :=
  let t := Z.max (iv_created_at item) (iv_lifecycle_at item) in
  match iv_when item ≫= when_millis with Some w => Z.max t w | None => t end.

(** ** Buckets and groups *)

Record Bucket : Type := mkBucket { bu_place : Place; bu_count : nat; bu_last_used : Z }.

Definition absorb (p : Place) (at_ : Z) (b : Bucket) : Bucket :=
  if (bu_last_used b <? at_)%Z then mkBucket p (S (bu_count b)) at_
  else mkBucket (bu_place b) (S (bu_count b)) (bu_last_used b).
Definition first_use (p : Place) (at_ : Z) : Bucket := mkBucket p 1 at_.

Record LabelGroup : Type := mkGroup { lg_coordinated : list ((Z * Z) * Bucket); lg_plain : option Bucket }.
Definition group_empty : LabelGroup := mkGroup [] None.

(** The bucket of the coordinates, absorbing the use, or a new last one. *)
Fixpoint use_at (c : Z * Z) (p : Place) (at_ : Z) (bs : list ((Z * Z) * Bucket)) : list ((Z * Z) * Bucket) :=
  match bs with
  | [] => [(c, first_use p at_)]
  | (c', b) :: bs => if decide (c' = c) then (c', absorb p at_ b) :: bs else (c', b) :: use_at c p at_ bs
  end.

Definition use_place (p : Place) (at_ : Z) (g : LabelGroup) : LabelGroup :=
  match place_lat p, place_lon p with
  | Some lat, Some lon => mkGroup (use_at (coord_bucket lat lon) p at_ (lg_coordinated g)) (lg_plain g)
  | _, _ => mkGroup (lg_coordinated g) (Some (match lg_plain g with Some b => absorb p at_ b | None => first_use p at_ end))
  end.

Definition suggestion_of (b : Bucket) : PlaceSuggestion := mkSuggestion (bu_place b) (bu_count b) (bu_last_used b).

(** [max_by_key]: the last of the greatest. *)
Fixpoint max_last {A} (key : A -> Z) (l : list A) : option nat :=
  match l with
  | [] => None
  | x :: l =>
      match max_last key l with
      | None => Some 0%nat
      | Some i => match l !! i with Some y => if (key y <? key x)%Z then Some 0%nat else Some (S i) | None => None end
      end
  end.

Definition lend (plain : Bucket) (b : Bucket) : Bucket :=
  mkBucket (bu_place b) (bu_count b + bu_count plain) (Z.max (bu_last_used b) (bu_last_used plain)).

(** The suggestions of one label. *)
Definition group_suggestions (g : LabelGroup) : list PlaceSuggestion :=
  let bs := (lg_coordinated g).*2 in
  match lg_plain g with
  | None => suggestion_of <$> bs
  | Some plain =>
      match max_last bu_last_used bs with
      | Some i => suggestion_of <$> alter (lend plain) i bs
      | None => suggestion_of plain :: (suggestion_of <$> bs)
      end
  end.

Definition rank : PlaceSuggestion -> PlaceSuggestion -> comparison :=
  cmp_then (cmp_rev (cmp_on ps_last_used Z.compare))
  (cmp_then (cmp_rev (cmp_on ps_count Nat.compare)) (cmp_on (fun s => place_label (ps_place s)) str_cmp)).

Section unicode.
Context `{Unicode}.

(** [tokenize(label).join(" ")]. *)
Fixpoint join_tokens (ts : list token) : token :=
  match ts with
  | [] => []
  | [t] => t
  | t :: ts => t ++ 32%N :: join_tokens ts
  end.
Definition fold_label (label : string) : token := join_tokens (tokenize label).

Definition place_matches (p : Place) (query : string) : bool :=
  if decide (trim query = "") then true
  else match place_address p with
  | Some addr => matches_name (place_label p +:+ " " +:+ addr) query
  | None => matches_name (place_label p) query
  end.

(** One item of the scan. *)
Definition use_item (groups : gmap token LabelGroup) (item : ItemView) : gmap token LabelGroup :=
  if iv_is_binned item then groups
  else match iv_place item with
  | None => groups
  | Some p =>
      let key := fold_label (place_label p) in
      if decide (key = []) then groups
      else <[key := use_place p (use_time item) (default group_empty (groups !! key))]> groups
  end.

Definition place_groups (items : list ItemView) : gmap token LabelGroup := foldl use_item ∅ items.

(** The suggestions of the groups as the hash map yields them. *)
Definition rank_groups (groups : list (token * LabelGroup)) (query : string) (limit : nat) : list PlaceSuggestion :=
  let out := groups ≫= (fun kg => group_suggestions kg.2) in
  let out := sort_by rank (base.filter (fun s => Is_true (place_matches (ps_place s) query)) out) in
  if (0 <? limit)%nat then take limit out else out.

Definition suggest_places (items : list ItemView) (query : string) (limit : nat) : list PlaceSuggestion :=
  rank_groups (map_to_list (place_groups items)) query limit.

Definition place_suggestions (d : Doc) (query : string) (limit : nat) : list PlaceSuggestion :=
  suggest_places (iter_items d) query limit.
End unicode.
