(* ===== verification/PlacesFacts.v ===== *)
(** Place suggestions are a function of the items alone, one per place, and
    account for every use. *)
From S2P Require Import Prelude.
From S2P Require Import Loro.
From S2P Require Import Lifecycle.
From S2P Require Import Registers.
From S2P Require Import Ordering.
From S2P Require Import Search.
From S2P Require Import SearchFacts.
From S2P Require Import Places.

(** ** One group *)

(** The uses of a label: when, and of which place. *)
Abbreviation use := (Z * Place)%type.

Definition group_of (us : list use) : LabelGroup := foldl (fun g u => use_place u.2 u.1 g) group_empty us.

Definition coords (p : Place) : option (Z * Z) :=
  match place_lat p, place_lon p with Some lat, Some lon => Some (coord_bucket lat lon) | _, _ => None end.

(** The bucket of some coordinates, or of none. *)
Definition bucket_at (g : LabelGroup) (c : option (Z * Z)) (b : Bucket) : Prop :=
  match c with Some c => (c, b) ∈ lg_coordinated g | None => lg_plain g = Some b end.

Definition plain_count (g : LabelGroup) : nat := match lg_plain g with Some b => bu_count b | None => 0 end.
Definition group_count (g : LabelGroup) : nat := sum_list (bu_count <$> (lg_coordinated g).*2) + plain_count g.

Record accounts (us : list use) (g : LabelGroup) : Prop := {
  ac_keys : NoDup (lg_coordinated g).*1;
  ac_count : group_count g = length us;
  ac_from c b : bucket_at g c b -> (bu_last_used b, bu_place b) ∈ us /\ coords (bu_place b) = c;
  ac_use u : u ∈ us -> exists b, bucket_at g (coords u.2) b /\ (u.1 <= bu_last_used b)%Z;
}.

Lemma use_at_keys c p at_ bs : (use_at c p at_ bs).*1 = if decide (c ∈ bs.*1) then bs.*1 else bs.*1 ++ [c].
Proof.
  induction bs as [|[c' b] bs IH]; [by rewrite decide_False by apply not_elem_of_nil|]. cbn [use_at]. destruct (decide (c' = c)) as [E|E]; rewrite !fmap_cons; cbn [fst].
  - subst. rewrite decide_True by by left. done.
  - rewrite IH. destruct (decide (c ∈ bs.*1)) as [Hc|Hc].
    + rewrite decide_True by by right. done.
    + rewrite decide_False; [done|]. intros [?|?]%elem_of_cons; [congruence|done].
Qed.

Lemma use_at_count c p at_ bs : sum_list (bu_count <$> (use_at c p at_ bs).*2) = S (sum_list (bu_count <$> bs.*2)).
Proof.
  induction bs as [|[c' b] bs IH]; [done|]. cbn [use_at]. destruct (decide (c' = c)); cbn; [|by rewrite IH, Nat.add_succ_r].
  unfold absorb. by destruct (_ <? _)%Z.
Qed.

(** What a use makes of the buckets: the others stay, its own absorbs it. *)
Lemma use_at_spec c p at_ bs : NoDup bs.*1 -> forall c' b',
  (c', b') ∈ use_at c p at_ bs <->
  (c' <> c /\ (c', b') ∈ bs)
  \/ c' = c /\ ((c ∉ bs.*1) /\ b' = first_use p at_ \/ exists b, (c, b) ∈ bs /\ b' = absorb p at_ b).
Proof.
  induction bs as [|[c0 b0] bs IH]; intros Hnd c' b'; cbn [use_at].
  - rewrite list_elem_of_singleton. split.
    + intros [= -> ->]. right. split; [done|]. left. split; [apply not_elem_of_nil|done].
    + intros [[_ Hin%elem_of_nil]|[-> [[_ ->]|(b & Hin%elem_of_nil & _)]]]; done.
  - rewrite fmap_cons in *. cbn [fst] in *. apply NoDup_cons in Hnd as [H0 Hnd].
    assert (Hin : forall b, (c0, b) ∉ bs) by (intros b Hb; apply H0, list_elem_of_fmap; by exists (c0, b)).
    destruct (decide (c0 = c)) as [E|E].
    + subst c0. rewrite !elem_of_cons. setoid_rewrite elem_of_cons. split.
      * intros [[= -> ->]|Hb]; [right; split; [done|]; right; exists b0; split; [by left|done]|].
        left. split; [|by right]. by intros ->; apply Hin in Hb.
      * intros [[Hne [[= -> ->]|Hb]]|[-> [[Hn _]|(b & [[= ->]|Hb] & ->)]]].
        -- done.
        -- by right.
        -- destruct Hn. by left.
        -- by left.
        -- by apply Hin in Hb.
    + rewrite !elem_of_cons, (IH Hnd). setoid_rewrite elem_of_cons. split.
      * intros [[= -> ->]|[[Hne Hb]|[-> [[Hn ->]|(b & Hb & ->)]]]].
        -- left. split; [congruence|by left].
        -- left. split; [done|by right].
        -- right. split; [done|]. left. split; [|done]. intros [?|?]; [congruence|done].
        -- right. split; [done|]. right. exists b. split; [by right|done].
      * intros [[Hne [[= -> ->]|Hb]]|[-> [[Hn ->]|(b & [[= ? ->]|Hb] & ->)]]].
        -- by left.
        -- right. by left.
        -- right. right. split; [done|]. left. split; [|done]. intros ?. apply Hn. by right.
        -- congruence.
        -- right. right. split; [done|]. right. by exists b.
Qed.

(** The bucket that absorbed a use. *)
Lemma absorb_spec p at_ b : (bu_last_used b <= bu_last_used (absorb p at_ b))%Z /\ (at_ <= bu_last_used (absorb p at_ b))%Z
  /\ ((bu_last_used (absorb p at_ b), bu_place (absorb p at_ b)) = (at_, p)
      \/ (bu_last_used (absorb p at_ b), bu_place (absorb p at_ b)) = (bu_last_used b, bu_place b)).
Proof. unfold absorb. destruct (bu_last_used b <? at_)%Z eqn:E; cbn; (split_and!; [lia|lia|]); [by left|by right]. Qed.

Lemma use_place_coords p at_ g : use_place p at_ g =
  match coords p with
  | Some c => mkGroup (use_at c p at_ (lg_coordinated g)) (lg_plain g)
  | None => mkGroup (lg_coordinated g) (Some (match lg_plain g with Some b => absorb p at_ b | None => first_use p at_ end))
  end.
Proof. unfold use_place, coords. by destruct (place_lat p), (place_lon p). Qed.

Lemma bucket_dec g c : (exists b, bucket_at g c b) \/ forall b, ~ bucket_at g c b.
Proof.
  destruct c as [c|]; cbn.
  - destruct (decide (c ∈ (lg_coordinated g).*1)) as [([c' b] & -> & Hb)%list_elem_of_fmap|Hn]; [left; by exists b|right].
    intros b Hb. apply Hn, list_elem_of_fmap. by exists (c, b).
  - destruct (lg_plain g) as [b|]; [left; by exists b|by right].
Qed.

(** The buckets after a use: its own is new or has absorbed it. *)
Lemma bucket_at_use p at_ g c b : NoDup (lg_coordinated g).*1 -> bucket_at (use_place p at_ g) c b <->
  (c <> coords p /\ bucket_at g c b)
  \/ c = coords p /\ ((forall b0, ~ bucket_at g c b0) /\ b = first_use p at_ \/ exists b0, bucket_at g c b0 /\ b = absorb p at_ b0).
Proof.
  intros Hnd. rewrite use_place_coords. destruct (coords p) as [c0|] eqn:Ec; destruct c as [c|]; cbn [bucket_at lg_coordinated lg_plain].
  - rewrite use_at_spec by done. assert (Hn : (c0 ∉ (lg_coordinated g).*1) <-> forall b0, (c0, b0) ∉ lg_coordinated g).
    { rewrite list_elem_of_fmap. split; [intros Hn b0 Hb; apply Hn; by exists (c0, b0)|intros Hn ([c1 b0] & -> & Hb); by apply (Hn b0)]. }
    rewrite Hn. destruct (decide (c = c0)) as [->|Hc]; naive_solver.
  - naive_solver.
  - naive_solver.
  - split; [|intros [[? _]|[_ [[Hn ->]|(b0 & Hb & ->)]]]].
    + intros [= <-]. right. split; [done|]. destruct (lg_plain g) as [b0|]; [right; by exists b0|by left].
    + done.
    + destruct (lg_plain g) as [b0|] eqn:E; [|done]. by destruct (Hn b0).
    + by rewrite Hb.
Qed.

Lemma use_place_accounts us g u : accounts us g -> accounts (us ++ [u]) (use_place u.2 u.1 g).
Proof.
  intros [H1 H2 H3 H4]. destruct u as [at_ p]. cbn [fst snd]. assert (Hb := fun c b => bucket_at_use p at_ g c b H1). split.
  - rewrite use_place_coords. destruct (coords p) as [c|]; [|done]. cbn. rewrite use_at_keys. case_decide; [done|].
    apply NoDup_app. split_and!; [done| |apply NoDup_singleton]. intros x Hx ->%list_elem_of_singleton. done.
  - rewrite length_app. cbn. rewrite <- H2, use_place_coords. unfold group_count, plain_count. destruct (coords p) as [c|]; cbn.
    + rewrite use_at_count. lia.
    + destruct (lg_plain g); [unfold absorb; destruct (_ <? _)%Z; cbn; lia|cbn; lia].
  - intros c b [[Hc Hin]|[-> [[_ ->]|(b0 & Hin & ->)]]]%Hb; rewrite ?elem_of_app, ?list_elem_of_singleton.
    + destruct (H3 _ _ Hin). split; [by left|done].
    + cbn. split; [by right|done].
    + destruct (H3 _ _ Hin) as [H5 H6]. destruct (absorb_spec p at_ b0) as (_ & _ & [E|E]); rewrite E; injection E as _ ->.
      * split; [by right|done].
      * split; [by left|done].
  - intros u [Hu| ->%list_elem_of_singleton]%elem_of_app.
    + destruct (H4 u Hu) as (b & Hin & Hle). destruct (decide (coords u.2 = coords p)) as [E|E].
      * exists (absorb p at_ b). rewrite Hb. split; [right; split; [done|]; right; by exists b|]. destruct (absorb_spec p at_ b); lia.
      * exists b. rewrite Hb. split; [by left|done].
    + cbn [fst snd]. destruct (bucket_dec g (coords p)) as [[b0 Hin]|Hn].
      * exists (absorb p at_ b0). rewrite Hb. split; [right; split; [done|]; right; by exists b0|]. by destruct (absorb_spec p at_ b0) as (_ & ? & _).
      * exists (first_use p at_). rewrite Hb. split; [|done]. right. split; [done|]. by left.
Qed.

Lemma group_of_accounts us : accounts us (group_of us).
Proof.
  induction us as [|u us IH] using rev_ind.
  - split; cbn; [apply NoDup_nil_2|done| |intros u Hu%elem_of_nil; done].
    intros [c|] b; cbn; [by intros Hb%elem_of_nil|done].
  - unfold group_of. rewrite foldl_snoc. by apply use_place_accounts.
Qed.

(** ** The suggestions of a group *)

Lemma max_last_spec {A} (key : A -> Z) l : match max_last key l with
  | Some i => exists y, l !! i = Some y /\ forall z, z ∈ l -> (key z <= key y)%Z
  | None => l = []
  end.
Proof.
  induction l as [|x l IH]; [done|]. cbn. destruct (max_last key l) as [i|]; [|subst l].
  - destruct IH as (y & Ey & Hy). rewrite Ey. destruct (key y <? key x)%Z eqn:E.
    + exists x. split; [done|]. intros z [->|Hz]%elem_of_cons; [lia|]. specialize (Hy z Hz). lia.
    + exists y. split; [done|]. intros z [->|Hz]%elem_of_cons; [lia|]. by apply Hy.
  - exists x. split; [done|]. intros z ->%list_elem_of_singleton. lia.
Qed.

Lemma lend_count plain (bs : list Bucket) : forall i b, bs !! i = Some b ->
  sum_list (bu_count <$> alter (lend plain) i bs) = sum_list (bu_count <$> bs) + bu_count plain.
Proof.
  induction bs as [|b0 bs IH]; intros [|i] b Hi; [done|done|cbn; lia|]. cbn in Hi |- *. rewrite (IH i b Hi). lia.
Qed.
Lemma lend_places plain (bs : list Bucket) : forall i, bu_place <$> alter (lend plain) i bs = bu_place <$> bs.
Proof. induction bs as [|b0 bs IH]; intros [|i]; [done|done|done|]. cbn. f_equal. apply IH. Qed.
Lemma elem_of_lend plain (bs : list Bucket) i b' : b' ∈ alter (lend plain) i bs <->
  exists j b, bs !! j = Some b /\ b' = if decide (j = i) then lend plain b else b.
Proof.
  rewrite list_elem_of_lookup. split.
  - intros [j Hj]. destruct (decide (j = i)) as [->|Hne].
    + rewrite list_lookup_alter_eq in Hj. destruct (bs !! i) as [b|] eqn:E; [|done]. injection Hj as <-. exists i, b. by rewrite decide_True.
    + rewrite list_lookup_alter_ne in Hj by done. exists j, b'. by rewrite decide_False.
  - intros (j & b & Hj & ->). exists j. case_decide as E; [subst; by rewrite list_lookup_alter_eq, Hj|]. by rewrite list_lookup_alter_ne.
Qed.

(** The buckets shown: the coordinated ones, the label-only one lent to the
    newest of them or, without any, alone. *)
Definition shown_buckets (g : LabelGroup) : list Bucket :=
  let bs := (lg_coordinated g).*2 in
  match lg_plain g with
  | None => bs
  | Some plain => match max_last bu_last_used bs with Some i => alter (lend plain) i bs | None => [plain] end
  end.

Lemma group_suggestions_shown g : group_suggestions g = suggestion_of <$> shown_buckets g.
Proof.
  unfold group_suggestions, shown_buckets. destruct (lg_plain g) as [plain|]; [|done].
  pose proof (max_last_spec bu_last_used (lg_coordinated g).*2) as H. destruct (max_last _ _); [done|]. by rewrite H.
Qed.

Section shown.
Variables (us : list use) (g : LabelGroup).
Hypothesis Ha : accounts us g.

Lemma coordinated_bucket b : b ∈ (lg_coordinated g).*2 <-> exists c, bucket_at g (Some c) b.
Proof. rewrite list_elem_of_fmap. split; [intros ([c b'] & -> & Hb); by exists c|intros (c & Hb); by exists (c, b)]. Qed.

Lemma shown_count : sum_list (bu_count <$> shown_buckets g) = length us.
Proof.
  rewrite <- (ac_count _ _ Ha). unfold shown_buckets, group_count, plain_count. destruct (lg_plain g) as [plain|]; [|lia].
  pose proof (max_last_spec bu_last_used (lg_coordinated g).*2) as H. destruct (max_last _ _) as [i|].
  - destruct H as (b & Hb & _). by rewrite (lend_count plain _ i b Hb).
  - rewrite H. cbn. lia.
Qed.

Lemma shown_from b : b ∈ shown_buckets g -> (exists at_, (at_, bu_place b) ∈ us) /\ exists p, (bu_last_used b, p) ∈ us.
Proof.
  assert (Hco : forall b, b ∈ (lg_coordinated g).*2 -> (bu_last_used b, bu_place b) ∈ us).
  { intros b0 (c & Hb0)%coordinated_bucket. by apply (ac_from _ _ Ha) in Hb0 as [? _]. }
  unfold shown_buckets. destruct (lg_plain g) as [plain|] eqn:Ep.
  - pose proof (ac_from _ _ Ha None plain Ep) as [Hp _]. destruct (max_last _ _) as [i|].
    + intros (j & b0 & Hj%list_elem_of_lookup_2%Hco & ->)%elem_of_lend. case_decide; [|split; by eexists].
      split; [by eexists|]. cbn. destruct (Z.max_spec (bu_last_used b0) (bu_last_used plain)) as [[_ ->]|[_ ->]]; by eexists.
    + intros ->%list_elem_of_singleton. split; by eexists.
  - intros Hb%Hco. split; by eexists.
Qed.

Lemma shown_use u : u ∈ us -> exists b, b ∈ shown_buckets g /\ (u.1 <= bu_last_used b)%Z
  /\ (coords u.2 = None \/ coords (bu_place b) = coords u.2).
Proof.
  intros (b & Hb & Hle)%(ac_use _ _ Ha). pose proof (ac_from _ _ Ha _ _ Hb) as [_ Hc]. unfold shown_buckets.
  pose proof (max_last_spec bu_last_used (lg_coordinated g).*2) as Hm.
  destruct (coords u.2) as [c|]; cbn in Hb.
  - assert (Hin : b ∈ (lg_coordinated g).*2) by (apply coordinated_bucket; by exists c).
    destruct (lg_plain g) as [plain|]; [|exists b; split_and!; [done|done|by right]].
    destruct (max_last _ _) as [i|]; [|rewrite Hm in Hin; by apply elem_of_nil in Hin].
    apply list_elem_of_lookup_1 in Hin as [j Hj]. exists (if decide (j = i) then lend plain b else b). rewrite elem_of_lend.
    split; [by exists j, b|]. case_decide; cbn; (split; [lia|by right]).
  - rewrite Hb. destruct (max_last _ _) as [i|].
    + destruct Hm as (b1 & Hb1 & _). exists (lend b b1). rewrite elem_of_lend. split; [exists i, b1; by rewrite decide_True|]. cbn. split; [lia|by left].
    + exists b. split; [by left|]. split; [done|by left].
Qed.

(** One bucket per rounded coordinates, and one without only if alone. *)
Lemma shown_distinct : NoDup ((fun b => coords (bu_place b)) <$> shown_buckets g)
  /\ (forall b, b ∈ shown_buckets g -> coords (bu_place b) = None -> shown_buckets g = [b]).
Proof.
  assert (Hkeys : (fun b => coords (bu_place b)) <$> (lg_coordinated g).*2 = Some <$> (lg_coordinated g).*1).
  { rewrite <- !list_fmap_compose. apply list_fmap_ext. intros i [c b] Hi%list_elem_of_lookup_2. cbn.
    exact (proj2 (ac_from _ _ Ha (Some c) b Hi)). }
  assert (Hnd : NoDup ((fun b => coords (bu_place b)) <$> (lg_coordinated g).*2)).
  { rewrite Hkeys. apply NoDup_fmap_2; [apply _|]. apply (ac_keys _ _ Ha). }
  assert (Hnone : forall b, b ∈ (lg_coordinated g).*2 -> coords (bu_place b) <> None).
  { intros b (c & Hb)%coordinated_bucket. by rewrite (proj2 (ac_from _ _ Ha _ _ Hb)). }
  unfold shown_buckets. destruct (lg_plain g) as [plain|]; [|split; [done|by intros b Hb%Hnone]].
  destruct (max_last _ _) as [i|].
  - split.
    + assert (E : (fun b => coords (bu_place b)) <$> alter (lend plain) i (lg_coordinated g).*2 = (fun b => coords (bu_place b)) <$> (lg_coordinated g).*2).
      { by rewrite (list_fmap_compose bu_place coords), lend_places, <- list_fmap_compose. }
      by rewrite E.
    + intros b (j & b0 & Hj%list_elem_of_lookup_2%Hnone & ->)%elem_of_lend. by case_decide.
  - split; [apply NoDup_singleton|]. by intros b ->%list_elem_of_singleton.
Qed.
End shown.

(** ** All the groups *)

Section unicode.
Context `{Unicode}.

Definition key_of (p : Place) : token := fold_label (place_label p).

(** The use an item makes of its place, if it is not binned and the label
    folds to something. *)
Definition use_of (item : ItemView) : option use :=
  if iv_is_binned item then None
  else p ← iv_place item; if decide (key_of p = []) then None else Some (use_time item, p).
Definition uses (items : list ItemView) : list use := omap use_of items.
Definition uses_at (key : token) (items : list ItemView) : list use :=
  base.filter (fun u => key_of u.2 = key) (uses items).

Lemma use_item_use groups it : use_item groups it =
  match use_of it with
  | Some u => <[key_of u.2 := use_place u.2 u.1 (default group_empty (groups !! key_of u.2))]> groups
  | None => groups
  end.
Proof. unfold use_item, use_of, key_of. destruct (iv_is_binned it); [done|]. destruct (iv_place it) as [p|]; [|done]. cbn. by case_decide. Qed.

Lemma place_groups_lookup items key : place_groups items !! key =
  if decide (uses_at key items = []) then None else Some (group_of (uses_at key items)).
Proof.
  induction items as [|it items IH] using rev_ind; [done|]. unfold place_groups in *. rewrite foldl_snoc, use_item_use.
  assert (E : uses_at key (items ++ [it]) = uses_at key items ++ match use_of it with Some u => if decide (key_of u.2 = key) then [u] else [] | None => [] end).
  { unfold uses_at, uses. rewrite omap_app, filter_app. f_equal. cbn. destruct (use_of it); [|done]. by rewrite filter_cons. }
  rewrite E. destruct (use_of it) as [u|]; [|by rewrite app_nil_r]. rewrite lookup_insert. case_decide as Hk; [|by rewrite app_nil_r].
  rewrite Hk. rewrite decide_False by (by destruct (uses_at key items)). f_equal. unfold group_of. rewrite foldl_snoc. f_equal.
  rewrite IH. case_decide as Hn; [by rewrite Hn|done].
Qed.

(** A group holds the uses of its key. *)
Lemma in_groups items kg : kg ∈ map_to_list (place_groups items) ->
  kg.2 = group_of (uses_at kg.1 items) /\ uses_at kg.1 items <> [].
Proof.
  destruct kg as [key g]. rewrite elem_of_map_to_list, place_groups_lookup. cbn. case_decide; [done|]. by intros [= <-].
Qed.

Lemma group_place items kg s : kg ∈ map_to_list (place_groups items) -> s ∈ group_suggestions kg.2 -> key_of (ps_place s) = kg.1.
Proof.
  intros [Hg _]%in_groups. rewrite group_suggestions_shown, Hg. intros (b & -> & Hb)%list_elem_of_fmap.
  apply (shown_from _ _ (group_of_accounts _)) in Hb as [[at_ Hu] _]. cbn. unfold uses_at in Hu. by apply list_elem_of_filter in Hu as [? _].
Qed.

Lemma filter_bind {A B} (P : B -> Prop) `{forall x, Decision (P x)} (f : A -> list B) l :
  base.filter P (l ≫= f) = l ≫= (fun a => base.filter P (f a)).
Proof. induction l as [|a l IH]; [done|]. cbn. by rewrite filter_app, IH. Qed.

(** The suggestions are a function of the items and their order: the hash
    map of labels may yield its groups in any order. *)
Theorem suggest_order_free items groups query limit :
  groups ≡ₚ map_to_list (place_groups items) -> rank_groups groups query limit = suggest_places items query limit.
Proof.
  intros Hp. unfold suggest_places, rank_groups. cbv zeta.
  assert (E : forall (P : PlaceSuggestion -> Prop) (HP : forall x, Decision (P x)),
    sort_by rank (base.filter P (groups ≫= (fun kg => group_suggestions kg.2)))
    = sort_by rank (base.filter P (map_to_list (place_groups items) ≫= (fun kg => group_suggestions kg.2)))).
  { intros P HP. rewrite !filter_bind. apply sort_blocks; [exact _|done| |].
    - rewrite Hp. apply NoDup_map_to_list.
    - intros kg kg' x y Hkg Hkg' [_ Hx]%list_elem_of_filter [_ Hy]%list_elem_of_filter Heq. rewrite Hp in Hkg, Hkg'.
      pose proof (group_place _ _ _ Hkg Hx) as Ex. pose proof (group_place _ _ _ Hkg' Hy) as Ey.
      assert (El : place_label (ps_place x) = place_label (ps_place y)).
      { unfold rank in Heq. rewrite !cmp_then_eq in Heq. destruct Heq as (_ & _ & Heq). by apply str_cmp_eq. }
      assert (Ekey : kg.1 = kg'.1) by (rewrite <- Ex, <- Ey; unfold key_of; by rewrite El).
      destruct kg as [k g], kg' as [k' g']. cbn in Ekey. subst k'. f_equal.
      apply elem_of_map_to_list in Hkg, Hkg'. congruence. }
  by rewrite E.
Qed.

Lemma sum_list_bump {K} (f : K -> nat) (ks : list K) `{EqDecision K} k0 : NoDup ks -> k0 ∈ ks ->
  sum_list ((fun k => f k + if decide (k = k0) then 1 else 0) <$> ks) = S (sum_list (f <$> ks)).
Proof.
  assert (Hout : forall ks, k0 ∉ ks -> sum_list ((fun k => f k + if decide (k = k0) then 1 else 0) <$> ks) = sum_list (f <$> ks)).
  { induction ks0 as [|k ks0 IH]; [done|]. intros [Hk Hin]%not_elem_of_cons. cbn. rewrite decide_False, IH by done. lia. }
  induction ks as [|k ks IH]; [by intros _ ?%elem_of_nil|]. intros [Hn Hnd]%NoDup_cons [->|Hin]%elem_of_cons; cbn.
  - rewrite decide_True, Hout by done. lia.
  - rewrite IH by done. rewrite decide_False by (by intros ->). lia.
Qed.

(** A list is as long as its classes together. *)
Lemma sum_classes {A K} `{EqDecision K} (key : A -> K) ks : NoDup ks -> forall us, (forall u, u ∈ us -> key u ∈ ks) ->
  sum_list ((fun k => length (base.filter (fun u => key u = k) us)) <$> ks) = length us.
Proof.
  intros Hnd. induction us as [|u us IH]; intros Hin.
  - induction ks as [|k ks IHk]; [done|]. cbn. apply NoDup_cons in Hnd as [_ Hnd]. apply IHk; [done|]. intros u Hu. by apply elem_of_nil in Hu.
  - change (length (u :: us)) with (S (length us)). rewrite <- IH by (intros v Hv; apply Hin; by right). rewrite <- (sum_list_bump _ ks (key u)); [|done|apply Hin; by left].
    f_equal. apply list_fmap_ext. intros i k _. rewrite filter_cons. repeat case_decide; cbn; try congruence; lia.
Qed.

Lemma sum_list_app l k : sum_list (l ++ k) = sum_list l + sum_list k.
Proof. induction l as [|n l IH]; [done|]. cbn. rewrite IH. lia. Qed.
Lemma sum_list_perm l k : l ≡ₚ k -> sum_list l = sum_list k.
Proof. induction 1; cbn; lia. Qed.

(** Every suggestion, before it is ranked. *)
Lemma suggest_all items : suggest_places items "" 0 ≡ₚ map_to_list (place_groups items) ≫= (fun kg => group_suggestions kg.2).
Proof.
  unfold suggest_places, rank_groups. cbn [Nat.ltb Nat.leb]. rewrite sort_by_perm. rewrite list_filter_all; [done|].
  intros s _. unfold place_matches. by rewrite decide_True by reflexivity.
Qed.

Lemma in_suggestions items s : s ∈ suggest_places items "" 0 <->
  exists key b, (uses_at key items <> []) /\ b ∈ shown_buckets (group_of (uses_at key items)) /\ s = suggestion_of b.
Proof.
  rewrite suggest_all, list_elem_of_bind. split.
  - intros ([key g] & Hs & Hg). apply in_groups in Hg as [Hg Hne]. cbn in Hg, Hne, Hs. subst g. rewrite group_suggestions_shown in Hs.
    apply list_elem_of_fmap in Hs as (b & -> & Hb). by exists key, b.
  - intros (key & b & Hne & Hb & ->). exists (key, group_of (uses_at key items)). split.
    + cbn. rewrite group_suggestions_shown. by apply list_elem_of_fmap_2.
    + apply elem_of_map_to_list. rewrite place_groups_lookup. by rewrite decide_False.
Qed.

Lemma shown_key items key b : b ∈ shown_buckets (group_of (uses_at key items)) -> key_of (bu_place b) = key.
Proof. intros [[at_ Hu] _]%(shown_from _ _ (group_of_accounts _)). by apply list_elem_of_filter in Hu as [? _]. Qed.

Lemma suggestions_count items : sum_list (ps_count <$> suggest_places items "" 0) = length (uses items).
Proof.
  set (ks := (map_to_list (place_groups items)).*1).
  assert (Hks : forall u, u ∈ uses items -> key_of u.2 ∈ ks).
  { intros u Hu. unfold ks. apply list_elem_of_fmap. exists (key_of u.2, group_of (uses_at (key_of u.2) items)). split; [done|].
    apply elem_of_map_to_list. rewrite place_groups_lookup. rewrite decide_False; [done|]. intros E.
    apply (elem_of_nil u). rewrite <- E. by apply list_elem_of_filter. }
  rewrite <- (sum_classes (fun u => key_of u.2) ks); [|apply NoDup_fst_map_to_list|exact Hks].
  rewrite (sum_list_perm _ (ps_count <$> (map_to_list (place_groups items) ≫= (fun kg => group_suggestions kg.2))))
    by (by rewrite suggest_all).
  subst ks. clear Hks.
  assert (Hg := in_groups items). induction (map_to_list (place_groups items)) as [|[k g] gs IH]; [done|]. cbn.
  rewrite fmap_app, sum_list_app, IH by (intros kg Hkg; apply Hg; by right). f_equal.
  destruct (Hg (k, g) ltac:(by left)) as [E _]. cbn in E. rewrite group_suggestions_shown, <- list_fmap_compose.
  change (ps_count ∘ suggestion_of) with bu_count. rewrite E. apply shown_count, group_of_accounts.
Qed.

(** C34: With nothing typed, the suggestions are ranked newest use first, one
    per folded label and rounded coordinates, a label-only one only where its
    label has no other; their counts add up to the uses, each shows the place of
    one use and the time of one, and every use is covered by a suggestion at
    least as recent, at its coordinates if it has any. *)
Theorem suggestions_account items :
  let out := suggest_places items "" 0 in
  StronglySorted (cmp_le rank) out
  /\ NoDup ((fun s => (key_of (ps_place s), coords (ps_place s))) <$> out)
  /\ sum_list (ps_count <$> out) = length (uses items)
  /\ (forall s, s ∈ out -> (exists at_, (at_, ps_place s) ∈ uses items)
      /\ exists p, (ps_last_used s, p) ∈ uses items /\ key_of p = key_of (ps_place s))
  /\ (forall s s', s ∈ out -> s' ∈ out -> key_of (ps_place s) = key_of (ps_place s') -> coords (ps_place s) = None -> s = s')
  /\ (forall u, u ∈ uses items -> exists s, s ∈ out /\ key_of (ps_place s) = key_of u.2 /\ (u.1 <= ps_last_used s)%Z
      /\ (coords u.2 = None \/ coords (ps_place s) = coords u.2)).
Proof.
  intros out. split_and!.
  - apply sort_by_sorted. apply _.
  - unfold out. rewrite suggest_all. assert (Hnd := NoDup_fst_map_to_list (place_groups items)). assert (Hg := in_groups items).
    assert (Hk := group_place items). induction (map_to_list (place_groups items)) as [|[k g] gs IH]; [apply NoDup_nil_2|].
    cbn. apply NoDup_cons in Hnd as [Hn Hnd]. rewrite fmap_app. apply NoDup_app. split_and!.
    + destruct (Hg (k, g) ltac:(by left)) as [E _]. cbn in E. rewrite group_suggestions_shown, <- list_fmap_compose, E.
      apply (NoDup_fmap_1 snd). rewrite <- list_fmap_compose. apply shown_distinct with (us := uses_at k items), group_of_accounts.
    + intros kc (s & -> & Hs)%list_elem_of_fmap (s' & E & Hs')%list_elem_of_fmap. apply list_elem_of_bind in Hs' as (kg & Hs' & Hkg).
      apply (Hk (k, g)) in Hs; [|by left]. apply (Hk kg) in Hs'; [|by right]. apply Hn, list_elem_of_fmap. exists kg. split; [|done].
      injection E as E _. by rewrite <- Hs, E.
    + apply IH; [done|intros kg Hkg; apply Hg; by right|intros kg s Hkg; apply Hk; by right].
  - apply suggestions_count.
  - intros s (key & b & _ & Hb & ->)%in_suggestions. pose proof (shown_key _ _ _ Hb) as Ekey.
    apply (shown_from _ _ (group_of_accounts _)) in Hb as [[at_ H1] [p H2]]. cbn. unfold uses_at in H1, H2.
    apply list_elem_of_filter in H1 as [_ H1], H2 as [E2 H2]. split; [by exists at_|]. exists p. split; [done|]. cbn in E2. congruence.
  - intros s s' (key & b & _ & Hb & ->)%in_suggestions (key' & b' & _ & Hb' & ->)%in_suggestions. cbn.
    rewrite (shown_key _ _ _ Hb), (shown_key _ _ _ Hb'). intros -> Hc. f_equal.
    pose proof (proj2 (shown_distinct _ _ (group_of_accounts _)) b Hb Hc) as E. rewrite E in Hb'. by apply list_elem_of_singleton in Hb'.
  - intros u Hu. assert (Hat : u ∈ uses_at (key_of u.2) items) by (by apply list_elem_of_filter).
    destruct (shown_use _ _ (group_of_accounts _) u Hat) as (b & Hb & Hle & Hc). exists (suggestion_of b). split_and!; [|by apply shown_key in Hb|done|done].
    apply in_suggestions. exists (key_of u.2), b. split_and!; [|done|done]. intros E. rewrite E in Hat. by apply elem_of_nil in Hat.
Qed.
End unicode.

(** ** A witness

    Two picks of one gym a few metres apart, a label-only use of it, and a
    home; the groups yielded last first. *)
#[local] Existing Instance ascii.

Definition placed (id : string) (at_ : Z) (p : Place) : ItemView :=
  mkItemView id id "" LIST_INBOX Backlog at_ None None None (Some p) at_ None None None None.
Definition sample_placed : list ItemView :=
  [placed "a" 1 (mkPlace "Gym" (Some (f64_of_Z (-33))) (Some (f64_of_Z 151)) None None);
   placed "b" 9 (mkPlace "gym" None None None None);
   placed "c" 2 (mkPlace "GYM" (Some (f64_of_Z (-33))) (Some (f64_of_Z 151)) None None);
   placed "d" 5 (mkPlace "Home" None None None None)].

Lemma suggest_order_free_witness :
  rank_groups (reverse (map_to_list (place_groups sample_placed))) "" 0 = suggest_places sample_placed "" 0
  /\ (fun s => (place_label (ps_place s), ps_count s, ps_last_used s)) <$> suggest_places sample_placed "" 0
     = [("GYM", 3, 9%Z); ("Home", 1, 5%Z)].
Proof.
  split; [|vm_compute; reflexivity]. apply suggest_order_free. apply reverse_Permutation.
Defined.
