(* ===== verification/Agenda.v ===== *)
(** The agenda of the command line (cli/src/commands/agenda.rs): dated items of
    one or several workspaces by day, and the events without a date. *)
From S2P Require Import Prelude.
From S2P Require Import Loro.
From S2P Require Import Lifecycle.
From S2P Require Import Registers.
From S2P Require Import Ordering.
From S2P Require Import Places.

Inductive Tone : Type := Neutral | Warning | Overdue.
#[export] Instance Tone_eq_dec : EqDecision Tone.
Proof. solve_decision. Defined.
Inductive PlacedBy : Type := ByWhen | ByDeadline.

Record Candidate : Type := mkCandidate { ca_doc_id : string; ca_name : option string }.

Record AgendaRow : Type := mkRow {
  ar_item : ItemView;
  ar_placed_by : PlacedBy;
  ar_tone : Tone;
  ar_doc : option Candidate;
}.

Record AgendaDay : Type := mkDay { ad_day : string; ad_rows : list AgendaRow }.

(** A source: the tag of its rows and its items. *)
Definition Source : Type := option Candidate * list ItemView.

(** [a < b] on strings. *)
Definition str_ltb (a b : string) : bool := bytes_lt (bytes a) (bytes b).

(** [&w[..w.len().min(10)]]: panics inside a character. *)
Definition when_slice (w : string) : option string :=
  let bs := bytes w in
  let to := Nat.min (length bs) 10 in
  if is_char_boundary bs to then Some (of_bytes (take to bs)) else None.

Record Placed : Type := mkPlaced {
  pl_day : string;
  pl_group : nat;
  pl_raw : string;
  pl_created_at : Z;
  pl_row : AgendaRow;
}.

(** One item, its [when] day at hand. *)
Definition place_dated (today horizon : string) (doc : option Candidate) (item : ItemView) (when_day : option string) : option Placed :=
  let deadline := iv_deadline item in
  match when_day, deadline with
  | None, None => None
  | _, _ =>
      if decide (iv_state item = Done) then
        match when_day with
        | None => None
        | Some day =>
            if str_ltb horizon day then None
            else Some (mkPlaced day 1 (default "" (iv_when item)) (iv_created_at item) (mkRow item ByWhen Neutral doc))
        end
      else
        let deadline_placed := (fun d => if str_ltb d today then today else d) <$> deadline in
        let '(day, by_, raw) :=
          match when_day, deadline_placed with
          | Some w, Some d => if str_ltb d w then (d, ByDeadline, default "" deadline) else (w, ByWhen, default "" (iv_when item))
          | Some w, None => (w, ByWhen, default "" (iv_when item))
          | None, Some d => (d, ByDeadline, default "" deadline)
          | None, None => ("", ByWhen, "")
          end in
        if str_ltb horizon day then None
        else
          let overdue := match deadline with Some d => str_ltb d today | None => false end in
          let tone := if overdue then Overdue else if bool_decide (deadline = Some today) then Warning else Neutral in
          let '(group, raw) := if overdue then (0, default "" deadline) else (1, raw) in
          Some (mkPlaced day group raw (iv_created_at item) (mkRow item by_ tone doc))
  end.

(** One item of the scan; [None] is the panic. *)
Definition place_item_row (today horizon : string) (doc : option Candidate) (item : ItemView) : option (option Placed) :=
  if iv_is_binned item || bool_decide (iv_state item = Cancelled) then Some None
  else
    when_day ← match iv_when item with
               | None => Some None
               | Some w => s ← when_slice w; Some (if str_ltb s today then None else Some s)
               end;
    Some (place_dated today horizon doc item when_day).

Definition tagged (sources : list Source) : list (option Candidate * ItemView) :=
  sources ≫= (fun s => pair s.1 <$> s.2).

(** [a.0.cmp(&b.0).then(a.1.cmp(&b.1)).then(a.2.cmp(&b.2)).then(a.3.cmp(&b.3))]. *)
Definition placed_cmp : Placed -> Placed -> comparison :=
  cmp_then (cmp_on pl_day str_cmp)
  (cmp_then (cmp_on pl_group Nat.compare)
  (cmp_then (cmp_on pl_raw str_cmp) (cmp_on pl_created_at Z.compare))).

(** A row joins the last day or opens its own. *)
Definition push_row (out : list AgendaDay) (p : Placed) : list AgendaDay :=
  match rev out with
  | last :: before =>
      if decide (ad_day last = pl_day p) then rev before ++ [mkDay (ad_day last) (ad_rows last ++ [pl_row p])]
      else out ++ [mkDay (pl_day p) [pl_row p]]
  | [] => [mkDay (pl_day p) [pl_row p]]
  end.

Definition group_days (today : string) (placed : list Placed) : list AgendaDay := foldl push_row [mkDay today []] placed.

Definition build_agenda_from (sources : list Source) (today horizon : string) : option (list AgendaDay) :=
  placed ← mapM (fun di => place_item_row today horizon di.1 di.2) (tagged sources);
  Some (group_days today (sort_by placed_cmp (omap id placed))).

Definition build_agenda (items : list ItemView) (today horizon : string) : option (list AgendaDay) :=
  build_agenda_from [(None, items)] today horizon.

(** ** Events without a date *)

Definition iv_is_event (i : ItemView) : bool := bool_decide (iv_list_id i = LIST_EVENTS).

Definition unscheduled (i : ItemView) : bool :=
  iv_is_event i && iv_is_open i && bool_decide (iv_when i = None) && bool_decide (iv_deadline i = None).

Definition oldest_first : ItemView -> ItemView -> comparison :=
  cmp_then (cmp_on iv_created_at Z.compare) (cmp_on iv_id str_cmp).

Definition unscheduled_events (items : list ItemView) : list ItemView :=
  sort_by oldest_first (base.filter (fun i => Is_true (unscheduled i)) items).

Definition unscheduled_from (sources : list Source) : list (option Candidate * ItemView) :=
  sort_by (cmp_on snd oldest_first) (sources ≫= (fun s => pair s.1 <$> unscheduled_events s.2)).

(** ** The groups shown *)

(** [run_all]: the workspaces not hidden. *)
Definition shown_sources (docs : list (Candidate * list ItemView)) (hidden : list string) : list Source :=
  (fun d => (Some d.1, d.2)) <$> base.filter (fun d => ca_doc_id d.1 ∉ hidden) docs.

Record RowJson : Type := mkRowJson {
  rj_id : string;
  rj_text : string;
  rj_list_id : string;
  rj_state : string;
  rj_when : option string;
  rj_duration : option Z;
  rj_deadline : option string;
  rj_place : option Place;
  rj_placed_by : option PlacedBy;
  rj_tone : Tone;
  rj_doc_id : option string;
  rj_doc_name : option string;
}.

Record DayJson : Type := mkDayJson { dj_day : option string; dj_today : bool; dj_rows : list RowJson }.

Definition row_json (r : AgendaRow) : RowJson :=
  let i := ar_item r in
  mkRowJson (iv_id i) (iv_text i) (iv_list_id i) (name (iv_state i)) (iv_when i) (iv_duration i) (iv_deadline i) (iv_place i)
    (Some (ar_placed_by r)) (ar_tone r) (ca_doc_id <$> ar_doc r) (ar_doc r ≫= ca_name).
Definition unscheduled_json (doc : option Candidate) (i : ItemView) : RowJson :=
  mkRowJson (iv_id i) (iv_text i) (iv_list_id i) (name (iv_state i)) None None None (iv_place i) None Neutral
    (ca_doc_id <$> doc) (doc ≫= ca_name).

(** The JSON of [render]: the unscheduled group after the first day. *)
Definition render_json (sources : list Source) (today horizon : string) : option (list DayJson) :=
  days ← build_agenda_from sources today horizon;
  let rows := (fun d => mkDayJson (Some (ad_day d)) (bool_decide (ad_day d = today)) (row_json <$> ad_rows d)) <$> days in
  let un := unscheduled_from sources in
  if decide (un = []) then Some rows
  else match rows with
  | [] => None
  | first :: rest => Some (first :: mkDayJson None false ((fun di => unscheduled_json di.1 di.2) <$> un) :: rest)
  end.
