(* ===== verification/AgendaFacts.v ===== *)
(** Planned dates as ranking keys (core/src/places.rs, [days_from_civil] and
    [when_millis]): days are numbered one by one along the calendar, and every
    date an item can hold ranks in the order of its text.

    The agenda shows each dated item once, on its day, the days in calendar
    order from today on. *)
From S2P Require Import Prelude.
From S2P Require Import Loro.
From S2P Require Import Lifecycle.
From S2P Require Import Registers.
From S2P Require Import Ordering.
From S2P Require Import Search.
From S2P Require Import Places.
From S2P Require Import Agenda.

Section civil.

#[local] Open Scope Z_scope.

(** ** Day numbers *)

(** Evaluate a closed term of the goal. *)
Ltac evaluate t := let v := eval vm_compute in t in change t with v.

Lemma civil_era y m d : 1 <= m <= 12 ->
  let y' := if m <=? 2 then y - 1 else y in
  days_from_civil y m d = 365 * y' + y' / 4 - y' / 100 + y' / 400 + (153 * ((m + 9) mod 12) + 2) / 5 + d - 1 - 719468.
Proof.
  intros Hm y'. unfold days_from_civil. fold y'. clearbody y'.
  assert (E : (if 0 <=? y' then y' else y' - 399) ÷ 400 = y' / 400).
  { destruct (Z.leb_spec 0 y'); [by rewrite Z.quot_div_nonneg by lia|]. Z.to_euclidean_division_equations. lia. }
  rewrite E. rewrite Z.rem_mod_nonneg, !Z.quot_div_nonneg by (Z.to_euclidean_division_equations; lia).
  set (r := (153 * _ + 2) / 5). clearbody r. clear Hm E. Z.to_euclidean_division_equations. lia.
Qed.

(** The day after, by the calendar. *)
Definition next_day (date : Z * Z * Z) : Z * Z * Z :=
  let '(y, m, d) := date in
  if d <? days_in_month y m then (y, m, d + 1) else if m <? 12 then (y, m + 1, 1) else (y + 1, 1, 1).
Definition day_number (date : Z * Z * Z) : Z := let '(y, m, d) := date in days_from_civil y m d.

Lemma leap_days y : y / 4 - y / 100 + y / 400 = (y - 1) / 4 - (y - 1) / 100 + (y - 1) / 400 + if leap y then 1 else 0.
Proof.
  unfold leap. destruct (Z.eqb_spec (y mod 4) 0), (Z.eqb_spec (y mod 100) 0), (Z.eqb_spec (y mod 400) 0); cbn;
    Z.to_euclidean_division_equations; lia.
Qed.

Lemma days_from_civil_counts y m d : 1 <= m <= 12 -> 1 <= d <= days_in_month y m ->
  day_number (next_day (y, m, d)) = day_number (y, m, d) + 1.
Proof.
  intros Hm Hd. unfold next_day, day_number.
  assert (Hdays : m = 1 \/ m = 2 \/ m = 3 \/ m = 4 \/ m = 5 \/ m = 6 \/ m = 7 \/ m = 8 \/ m = 9 \/ m = 10 \/ m = 11 \/ m = 12) by lia.
  destruct (Z.ltb_spec d (days_in_month y m)) as [Hlt|Hge]; [rewrite !civil_era by lia; lia|].
  pose proof (leap_days y) as Hl.
  repeat destruct Hdays as [->|Hdays]; try subst m; cbn [days_in_month] in Hd, Hge;
    repeat match goal with |- context [?a <? 12] => evaluate (a <? 12); cbv iota end;
    rewrite !civil_era by lia;
    repeat match goal with |- context [?a <=? 2] => evaluate (a <=? 2); cbv iota end;
    repeat match goal with |- context [(153 * ?a + 2) / 5] => evaluate ((153 * a + 2) / 5) end;
    rewrite ?Z.add_simpl_r; destruct (leap y); lia.
Qed.

Lemma days_in_month_ge y m : 28 <= days_in_month y m.
Proof. unfold days_in_month. repeat case_match; lia. Qed.

Lemma days_of_month y m d : 1 <= m <= 12 -> days_from_civil y m d = days_from_civil y m 1 + (d - 1).
Proof. intros Hm. rewrite !civil_era by done. lia. Qed.

(** The first days of the months, numbered through the years. *)
Definition month_start (k : Z) : Z := days_from_civil (k / 12) (k mod 12 + 1) 1.

Lemma month_start_of y m : 1 <= m <= 12 -> month_start (12 * y + (m - 1)) = days_from_civil y m 1.
Proof.
  intros Hm. unfold month_start. replace ((12 * y + (m - 1)) / 12) with y by (Z.to_euclidean_division_equations; lia).
  replace ((12 * y + (m - 1)) mod 12 + 1) with m by (Z.to_euclidean_division_equations; lia). done.
Qed.

Lemma month_start_next k : month_start (k + 1) = month_start k + days_in_month (k / 12) (k mod 12 + 1).
Proof.
  set (y := k / 12). set (m := k mod 12 + 1). assert (Hm : 1 <= m <= 12) by (unfold m; Z.to_euclidean_division_equations; lia).
  assert (Hk : k = 12 * y + (m - 1)) by (unfold y, m; Z.to_euclidean_division_equations; lia).
  pose proof (days_in_month_ge y m) as Hge. pose proof (days_from_civil_counts y m (days_in_month y m) Hm ltac:(lia)) as H.
  unfold next_day, day_number in H. rewrite Z.ltb_irrefl, (days_of_month y m (days_in_month y m)) in H by done.
  rewrite Hk at 2. rewrite month_start_of by done. destruct (Z.ltb_spec m 12).
  - replace (k + 1) with (12 * y + (m + 1 - 1)) by lia. rewrite month_start_of by lia. lia.
  - replace (k + 1) with (12 * (y + 1) + (1 - 1)) by lia. rewrite month_start_of by lia. lia.
Qed.

Lemma month_start_mono k k' : k < k' -> month_start k + days_in_month (k / 12) (k mod 12 + 1) <= month_start k'.
Proof.
  intros Hk. replace k' with (k + 1 + Z.of_nat (Z.to_nat (k' - k - 1))) by lia.
  induction (Z.to_nat (k' - k - 1)) as [|n IH].
  - rewrite Z.add_0_r, month_start_next. lia.
  - replace (k + 1 + Z.of_nat (S n)) with (k + 1 + Z.of_nat n + 1) by lia. rewrite month_start_next.
    pose proof (days_in_month_ge ((k + 1 + Z.of_nat n) / 12) ((k + 1 + Z.of_nat n) mod 12 + 1)). lia.
Qed.

Lemma days_increase y m d y' m' d' : real_date y m d -> real_date y' m' d' -> date_lt y m d y' m' d' ->
  days_from_civil y m d < days_from_civil y' m' d'.
Proof.
  intros (_ & Hm & Hd) (_ & Hm' & Hd') Hlt. rewrite (days_of_month y m d), (days_of_month y' m' d') by done.
  assert (Hor : (y = y' /\ m = m' /\ d < d') \/ 12 * y + (m - 1) < 12 * y' + (m' - 1)) by (unfold date_lt in Hlt; lia).
  destruct Hor as [(-> & -> & ?)|Hk]; [lia|]. apply month_start_mono in Hk. rewrite !month_start_of in Hk by done.
  replace ((12 * y + (m - 1)) / 12) with y in Hk by (Z.to_euclidean_division_equations; lia).
  replace ((12 * y + (m - 1)) mod 12 + 1) with m in Hk by (Z.to_euclidean_division_equations; lia). lia.
Qed.

(** The day number of the epoch is zero and that of the day after any
    calendar day one more, leap days included, so later dates number higher. *)
Theorem days_from_civil_calendar :
  days_from_civil 1970 1 1 = 0
  /\ (forall y m d, 1 <= m <= 12 -> 1 <= d <= days_in_month y m -> day_number (next_day (y, m, d)) = day_number (y, m, d) + 1)
  /\ (forall y m d y' m' d', real_date y m d -> real_date y' m' d' -> date_lt y m d y' m' d' ->
        day_number (y, m, d) < day_number (y', m', d')).
Proof. split_and!; [reflexivity|exact days_from_civil_counts|exact days_increase]. Qed.

(** ** Ranks *)

Lemma digit_boundary k : 0 <= k <= 9 -> bool_decide (N.land (digit_byte k) 0xC0 = 0x80%N) = false.
Proof.
  intros Hk. assert (H : k ∈ seqZ 0 10) by (apply elem_of_seqZ; lia). revert k H Hk.
  assert (Hall : Forall (fun k => bool_decide (N.land (digit_byte k) 0xC0 = 0x80%N) = false) (seqZ 0 10)) by (vm_compute; repeat constructor).
  rewrite Forall_forall in Hall. intros k Hin _. by apply Hall.
Qed.

Lemma num_pad2 n : 0 <= n <= 99 -> num (pad2 n) = Some n.
Proof.
  intros Hn. pose proof (digits2_pad (pad2 n) 0 n Hn eq_refl) as H. unfold digits in H.
  unfold num. rewrite bool_decide_eq_false_2 by done. change (take (0 + 2 - 0) (drop 0 (pad2 n))) with (pad2 n) in H. cbn [orb]. destruct (forallb is_digit (pad2 n)); [exact H|done].
Qed.
Lemma num_pad4 n : 0 <= n <= 9999 -> num (pad4 n) = Some n.
Proof.
  intros Hn. pose proof (digits4_pad (pad4 n) n Hn eq_refl) as H. unfold digits in H.
  unfold num. rewrite bool_decide_eq_false_2 by done. change (take (4 - 0) (drop 0 (pad4 n))) with (pad4 n) in H. cbn [orb]. destruct (forallb is_digit (pad4 n)); [exact H|done].
Qed.

(** A cut between ASCII bytes. *)
Lemma str_get_cut bs from to : (forall i, i = from \/ i = to -> match bs !! i with Some b => bool_decide (N.land b 0xC0 = 0x80%N) = false | None => i = length bs end) ->
  str_get bs from to = Some (take (to - from) (drop from bs)).
Proof.
  intros H. unfold str_get. assert (Hb : forall i, i = from \/ i = to -> is_char_boundary bs i = true).
  { intros i Hi. specialize (H i Hi). unfold is_char_boundary. destruct (bs !! i); [by rewrite H|by apply Nat.eqb_eq]. }
  by rewrite !Hb by tauto.
Qed.

Definition clock (t : option (Z * Z)) : list N := match t with Some (h, mi) => 84%N :: time_bytes h mi | None => [] end.
Definition minutes (t : option (Z * Z)) : Z := match t with Some (h, mi) => h * 60 + mi | None => 0 end.
Definition real_time (t : option (Z * Z)) : Prop := match t with Some (h, mi) => 0 <= h <= 23 /\ 0 <= mi <= 59 | None => True end.

Lemma when_millis_reads w y m d t : real_date y m d -> real_time t -> bytes w = date_bytes y m d ++ clock t ->
  when_millis w = Some (days_from_civil y m d * 86400000 + minutes t * 60000).
Proof.
  intros (Hy & Hm & Hd) Ht Hw. pose proof (days_in_month_le y m) as Hd31. unfold when_millis. rewrite Hw.
  set (bs := date_bytes y m d ++ clock t).
  assert (Hlen : length bs = match t with Some _ => 16 | None => 10 end%nat) by (by destruct t as [[]|]).
  assert (H04 : str_get bs 0 4 = Some (pad4 y)).
  { unfold bs. rewrite str_get_cut; [done|]. intros i [->| ->]; cbn; [apply digit_boundary; dlia|by vm_compute]. }
  assert (H57 : str_get bs 5 7 = Some (pad2 m)).
  { unfold bs. rewrite str_get_cut; [done|]. intros i [->| ->]; cbn; [apply digit_boundary; dlia|by vm_compute]. }
  assert (H8 : str_get bs 8 10 = Some (pad2 d)).
  { unfold bs. rewrite str_get_cut; [by destruct t as [[]|]|]. intros i [->| ->]; cbn; [apply digit_boundary; dlia|]. destruct t as [[]|]; [by vm_compute|done]. }
  rewrite Hlen, H04, H57, H8. cbn [mbind option_bind]. rewrite num_pad4, !num_pad2 by lia. cbn [mbind option_bind].
  rewrite (proj2 (Z.leb_le 1 m)), (proj2 (Z.leb_le m 12)), (proj2 (Z.leb_le 1 d)), (proj2 (Z.leb_le d 31)) by lia.
  destruct t as [[h mi]|]; cbn [andb negb orb Nat.ltb Nat.leb Nat.eqb]; [|cbn [minutes]; f_equal; lia]. destruct Ht as [Hh Hmi].
  assert (H11 : str_get bs 11 13 = Some (pad2 h)).
  { unfold bs. rewrite str_get_cut; [done|]. intros i [->| ->]; cbn; [apply digit_boundary; dlia|by vm_compute]. }
  assert (H14 : str_get bs 14 16 = Some (pad2 mi)).
  { unfold bs. rewrite str_get_cut; [done|]. intros i [->| ->]; cbn; [apply digit_boundary; dlia|done]. }
  rewrite H11, H14. cbn [mbind option_bind]. rewrite !num_pad2 by lia. done.
Qed.

Lemma when_bytes_split bs : when_bytes bs <-> exists y m d t, real_date y m d /\ real_time t /\ bs = date_bytes y m d ++ clock t.
Proof.
  split.
  - intros [y m d Hd|y m d h mi Hd Hh Hmi]; [exists y, m, d, None; by rewrite app_nil_r|by exists y, m, d, (Some (h, mi))].
  - intros (y & m & d & [[h mi]|] & Hd & Ht & ->); [by apply when_timed; [|apply Ht|apply Ht]|rewrite app_nil_r; by constructor].
Qed.

Lemma dated_order y m d t y' m' d' t' : real_date y m d -> real_date y' m' d' ->
  bytes_lt (date_bytes y m d ++ clock t) (date_bytes y' m' d' ++ clock t') = true ->
  date_lt y m d y' m' d' \/ (y = y' /\ m = m' /\ d = d') /\ bytes_lt (clock t) (clock t') = true.
Proof.
  intros (Hy & Hm & Hd) (Hy' & Hm' & Hd'). pose proof (days_in_month_le y m). pose proof (days_in_month_le y' m').
  unfold date_bytes, pad4, date_lt. rewrite <- !app_assoc. cbn [app]. rewrite <- !app_assoc. cbn [app].
  rewrite !bytes_lt_pad2, bytes_lt_cons_eq, bytes_lt_pad2, bytes_lt_cons_eq, bytes_lt_pad2 by dlia.
  intros [?|[? [?|[? [?|[? [?|[? ?]]]]]]]]; [left; dlia|left; dlia|left; dlia|left; dlia|right]. split; [dlia|done].
Qed.

Lemma clock_order t t' : real_time t -> real_time t' -> bytes_lt (clock t) (clock t') = true -> minutes t <= minutes t'.
Proof.
  destruct t as [[h mi]|], t' as [[h' mi']|]; cbn [clock real_time minutes]; try (intros; discriminate); [|intros; lia].
  intros [Hh Hmi] [Hh' Hmi']. unfold time_bytes. rewrite bytes_lt_cons_eq, bytes_lt_pad2, bytes_lt_cons_eq by lia.
  rewrite <- (app_nil_r (pad2 mi)), <- (app_nil_r (pad2 mi')), bytes_lt_pad2 by lia. intros [?|[? [?|[_ ?]]]]; [lia|lia|done].
Qed.

Lemma minutes_bound t : real_time t -> 0 <= minutes t < 1440.
Proof. destruct t as [[h mi]|]; cbn; lia. Qed.

(** Every planned date an item can be given ranks: its key is the instant it
    names read as UTC, and a text that sorts first never ranks later. *)
Theorem when_millis_in_text_order raw w raw' w' : parse_when raw = Ok w -> parse_when raw' = Ok w' ->
  exists a b, when_millis w = Some a /\ when_millis w' = Some b /\ (bytes_lt (bytes w) (bytes w') = true -> a <= b).
Proof.
  intros [_ (y & m & d & t & Hd & Ht & E)%when_bytes_split]%parse_when_spec [_ (y' & m' & d' & t' & Hd' & Ht' & E')%when_bytes_split]%parse_when_spec.
  exists (days_from_civil y m d * 86400000 + minutes t * 60000), (days_from_civil y' m' d' * 86400000 + minutes t' * 60000).
  split_and!; [by apply when_millis_reads|by apply when_millis_reads|]. rewrite E, E'. pose proof (minutes_bound t Ht). pose proof (minutes_bound t' Ht').
  intros [Hlt%days_increase|[(-> & -> & ->) Hc%clock_order]]%dated_order; try done; lia.
Qed.

Lemma when_millis_in_text_order_witness :
  when_millis "2024-02-29T09:30" = Some 1709199000000 /\ when_millis "2024-03-01" = Some 1709251200000
  /\ exists a b, when_millis "2024-02-29T09:30" = Some a /\ when_millis "2024-03-01" = Some b
     /\ (bytes_lt (bytes "2024-02-29T09:30") (bytes "2024-03-01") = true -> a <= b).
Proof.
  split; [vm_compute; reflexivity|]. split; [vm_compute; reflexivity|].
  apply (when_millis_in_text_order " 2024-02-29T09:30 " _ "2024-03-01" _); vm_compute; reflexivity.
Defined.

End civil.

(** ** What an entry is *)

Definition str_lt (a b : string) : Prop := str_cmp a b = Lt.

Lemma str_ltb_true a b : str_ltb a b = true <-> str_lt a b.
Proof. symmetry. apply str_cmp_lt. Qed.
Lemma str_ltb_false a b : str_ltb a b = false <-> cmp_le str_cmp b a.
Proof.
  unfold cmp_le. rewrite (ord_sym (cmp := str_cmp) a b). destruct (str_ltb a b) eqn:E.
  - apply str_ltb_true in E. unfold str_lt in E. rewrite E. by split.
  - split; [|done]. intros _. destruct (str_cmp a b) eqn:Ec; try done. apply str_ltb_true in Ec. congruence.
Qed.

(** The calendar day of a planned date. *)
Definition date_of (w : string) : string := of_bytes (take 10 (bytes w)).

Definition earlier (a b : option string) : option string :=
  match a, b with
  | Some a, Some b => Some (if str_ltb b a then b else a)
  | Some a, None => Some a
  | None, b => b
  end.
Definition not_before (today d : string) : string := if str_ltb d today then today else d.

(** The planned day counts from today on; a deadline counts unless the item is
    done, and from today on when overdue. *)
Definition planned (today : string) (i : ItemView) : option string :=
  w ← iv_when i; let s := date_of w in if str_ltb s today then None else Some s.
Definition due (today : string) (i : ItemView) : option string :=
  if decide (iv_state i = Done) then None else not_before today <$> iv_deadline i.
Definition overdue (today : string) (i : ItemView) : bool :=
  bool_decide (iv_state i <> Done) && match iv_deadline i with Some d => str_ltb d today | None => false end.

(** The entry of an item: on the earlier day within the horizon, by the planned
    date on a tie; the overdue ones in a group of their own, by deadline. *)
Definition agenda_entry (today horizon : string) (di : option Candidate * ItemView) : option Placed :=
  let '(doc, i) := di in
  if iv_is_binned i || bool_decide (iv_state i = Cancelled) then None
  else
    day ← earlier (planned today i) (due today i);
    if str_ltb horizon day then None
    else
      let by_ := if decide (planned today i = Some day) then ByWhen else ByDeadline in
      let raw := if overdue today i then iv_deadline i else match by_ with ByWhen => iv_when i | ByDeadline => iv_deadline i end in
      let tone := if overdue today i then Overdue
                  else if bool_decide (iv_state i <> Done) && bool_decide (iv_deadline i = Some today) then Warning else Neutral in
      Some (mkPlaced day (if overdue today i then 0 else 1) (default "" raw) (iv_created_at i) (mkRow i by_ tone doc)).

Definition sliceable (i : ItemView) : Prop := forall w, iv_when i = Some w -> when_slice w = Some (date_of w).

(** An accepted planned date can be cut after its day. *)
Lemma accepted_sliceable raw w : parse_when raw = Ok w -> when_slice w = Some (date_of w).
Proof.
  intros [_ (y & m & d & t & Hd & Ht & E)%when_bytes_split]%parse_when_spec. unfold when_slice, date_of. rewrite E.
  destruct t as [[h mi]|]; reflexivity.
Qed.

Lemma place_item_entry today horizon doc i : sliceable i -> place_item_row today horizon doc i = Some (agenda_entry today horizon (doc, i)).
Proof.
  intros Hs. unfold place_item_row, agenda_entry. destruct (iv_is_binned i || _); [done|].
  assert (Ew : (match iv_when i with None => Some None | Some w => s ← when_slice w; Some (if str_ltb s today then None else Some s) end)
    = Some (planned today i)).
  { unfold planned. destruct (iv_when i) as [w|] eqn:E; [|done]. by rewrite (Hs w E). }
  rewrite Ew. cbn [mbind option_bind]. f_equal. unfold place_dated, due, overdue.
  destruct (decide (iv_state i = Done)) as [Hdone|Hopen].
  - rewrite (bool_decide_eq_false_2 (iv_state i <> Done)) by tauto. destruct (planned today i) as [w|], (iv_deadline i) as [d|]; cbn; try done;
      rewrite decide_True by done; done.
  - rewrite (bool_decide_eq_true_2 (iv_state i <> Done)) by done. cbn [andb].
    destruct (planned today i) as [w|] eqn:Ep, (iv_deadline i) as [d|] eqn:Ed; cbn -[str_ltb]; try done; unfold not_before.
    + destruct (str_ltb (if str_ltb d today then today else d) w) eqn:E.
      * destruct (str_ltb horizon _); [done|]. rewrite decide_False; [by destruct (str_ltb d today)|].
        intros [= Heq]. rewrite Heq in E. apply str_ltb_true in E. unfold str_lt in E. by rewrite str_cmp_refl in E.
      * destruct (str_ltb horizon _); [done|]. rewrite decide_True by done. by destruct (str_ltb d today).
    + destruct (str_ltb horizon _); [done|]. by rewrite decide_True.
    + destruct (str_ltb horizon _); [done|]. by destruct (str_ltb d today).
Qed.

(** ** Days *)

Lemma push_row_snoc bs d p : push_row (bs ++ [d]) p =
  if decide (ad_day d = pl_day p) then bs ++ [mkDay (ad_day d) (ad_rows d ++ [pl_row p])] else bs ++ [d; mkDay (pl_day p) [pl_row p]].
Proof. unfold push_row. rewrite rev_app_distr. cbn. rewrite rev_involutive. case_decide; [done|]. by rewrite <- app_assoc. Qed.

(** The days grouped so far. *)
Record grouped (today : string) (ps : list Placed) (out : list AgendaDay) : Prop := {
  gr_first : exists rest, ad_day <$> out = today :: rest;
  gr_sorted : StronglySorted str_lt (ad_day <$> out);
  gr_rows d : d ∈ out -> ad_rows d = pl_row <$> base.filter (fun p => pl_day p = ad_day d) ps;
  gr_shown p : p ∈ ps -> pl_day p ∈ ad_day <$> out;
  gr_from day : day ∈ ad_day <$> out -> day = today \/ exists p, p ∈ ps /\ pl_day p = day;
}.

Lemma str_lt_neq a b : str_lt a b -> a <> b.
Proof. intros H ->. unfold str_lt in H. by rewrite str_cmp_refl in H. Qed.

Lemma push_row_grouped today ps out p : grouped today ps out -> (forall day, day = today \/ (exists q, q ∈ ps /\ pl_day q = day) -> cmp_le str_cmp day (pl_day p)) ->
  grouped today (ps ++ [p]) (push_row out p).
Proof.
  intros [G1 G2 G3 G4 G5] Hle. destruct out as [|d bs _] using rev_ind; [by destruct G1|].
  rewrite fmap_app in G1, G2, G4, G5. cbn in G1, G2, G4, G5. apply StronglySorted_app in G2 as (S1 & S2 & S3).
  assert (Hbs : forall e, e ∈ bs -> str_lt (ad_day e) (ad_day d)).
  { intros e He. apply S1; [by apply list_elem_of_fmap_2|by left]. }
  assert (Hd : cmp_le str_cmp (ad_day d) (pl_day p)) by (apply Hle, G5, elem_of_app; right; by left).
  assert (Hlt : forall e, e ∈ bs -> str_lt (ad_day e) (pl_day p)).
  { intros e He. specialize (Hbs e He). unfold str_lt, cmp_le in *. destruct (str_cmp (ad_day d) (pl_day p)) eqn:E; [|by eapply ord_lt|done].
    apply str_cmp_eq in E. by rewrite <- E. }
  assert (Hold : forall e, e ∈ bs ++ [d] -> ad_day e <> pl_day p -> ad_rows e = pl_row <$> base.filter (fun q => pl_day q = ad_day e) (ps ++ [p])).
  { intros e He Hne. rewrite filter_app, filter_cons, decide_False by congruence. rewrite app_nil_r. by apply G3. }
  rewrite push_row_snoc. case_decide as E.
  - assert (Edays : ad_day <$> bs ++ [mkDay (ad_day d) (ad_rows d ++ [pl_row p])] = (ad_day <$> bs) ++ [ad_day d]) by by rewrite fmap_app.
    split; rewrite ?Edays.
    + done.
    + by apply StronglySorted_app.
    + intros e [He| ->%list_elem_of_singleton]%elem_of_app.
      * apply Hold; [by apply elem_of_app; left|]. by apply str_lt_neq, Hlt.
      * cbn. rewrite filter_app, filter_cons, decide_True by done. cbn. rewrite fmap_app. rewrite (G3 d) by (apply elem_of_app; right; by left). done.
    + intros q [Hq| ->%list_elem_of_singleton]%elem_of_app; [by apply G4|]. rewrite <- E. apply elem_of_app. right. by left.
    + intros day Hday. destruct (G5 day Hday) as [?|(q & Hq & Eq)]; [by left|right]. exists q. split; [by apply elem_of_app; left|done].
  - assert (Edays : ad_day <$> bs ++ [d; mkDay (pl_day p) [pl_row p]] = ((ad_day <$> bs) ++ [ad_day d]) ++ [pl_day p])
      by (rewrite fmap_app, <- app_assoc; done).
    assert (Hnew : forall e, e ∈ bs ++ [d] -> str_lt (ad_day e) (pl_day p)).
    { intros e [He| ->%list_elem_of_singleton]%elem_of_app; [by apply Hlt|]. unfold str_lt, cmp_le in *.
      destruct (str_cmp (ad_day d) (pl_day p)) eqn:Ec; [|done|done]. by apply str_cmp_eq in Ec. }
    split; rewrite ?Edays.
    + destruct G1 as [rest G1]. exists (rest ++ [pl_day p]). by rewrite G1.
    + apply StronglySorted_app. split_and!; [|by apply StronglySorted_app|by repeat constructor].
      intros x y Hx ->%list_elem_of_singleton. replace ((ad_day <$> bs) ++ [ad_day d]) with (ad_day <$> bs ++ [d]) in Hx by by rewrite fmap_app.
      apply list_elem_of_fmap in Hx as (e & -> & He). by apply Hnew.
    + intros e He. replace (bs ++ [d; mkDay (pl_day p) [pl_row p]]) with ((bs ++ [d]) ++ [mkDay (pl_day p) [pl_row p]]) in He by by rewrite <- app_assoc.
      apply elem_of_app in He as [He| ->%list_elem_of_singleton]; [apply Hold; [done|by apply str_lt_neq, Hnew]|]. cbn.
      rewrite filter_app, filter_cons, decide_True by done. cbn. rewrite fmap_app.
      rewrite (elem_of_nil_inv (base.filter _ ps)); [done|]. intros q [Hq1 Hq2]%list_elem_of_filter. apply G4 in Hq2.
      replace ((ad_day <$> bs) ++ [ad_day d]) with (ad_day <$> bs ++ [d]) in Hq2 by by rewrite fmap_app.
      apply list_elem_of_fmap in Hq2 as (e & He1 & He2). apply (str_lt_neq (ad_day e) (pl_day p)); [by apply Hnew|congruence].
    + intros q [Hq| ->%list_elem_of_singleton]%elem_of_app; apply elem_of_app; [left; by apply G4|right; by left].
    + intros day [Hday| ->%list_elem_of_singleton]%elem_of_app.
      * destruct (G5 day Hday) as [?|(q & Hq & Eq)]; [by left|right]. exists q. split; [by apply elem_of_app; left|done].
      * right. exists p. split; [apply elem_of_app; right; by left|done].
Qed.

Lemma group_days_grouped today ps : StronglySorted (cmp_le (cmp_on pl_day str_cmp)) ps -> (forall p, p ∈ ps -> cmp_le str_cmp today (pl_day p)) ->
  grouped today ps (group_days today ps).
Proof.
  unfold group_days. induction ps as [|p ps IH] using rev_ind; intros Hs Hge.
  - split; cbn; [by exists []|by repeat constructor| | |].
    + by intros d ->%list_elem_of_singleton.
    + by intros p Hp%elem_of_nil.
    + intros day ->%list_elem_of_singleton. by left.
  - apply StronglySorted_app in Hs as (S1 & S2 & _). rewrite foldl_snoc. apply push_row_grouped.
    + apply IH; [done|]. intros q Hq. apply Hge, elem_of_app. by left.
    + intros day [->|(q & Hq & <-)]; [apply Hge, elem_of_app; right; by left|]. apply (S1 q p Hq). by left.
Qed.

(** ** The whole agenda *)

Lemma cmp_le_first {A} (c c' : A -> A -> comparison) x y : cmp_le (cmp_then c c') x y -> cmp_le c x y.
Proof. unfold cmp_le, cmp_then. by destruct (c x y). Qed.

Lemma not_before_le today d : cmp_le str_cmp today (not_before today d).
Proof. unfold not_before. destruct (str_ltb d today) eqn:E; [unfold cmp_le; by rewrite str_cmp_refl|by apply str_ltb_false]. Qed.

Lemma entry_day today horizon di p : agenda_entry today horizon di = Some p ->
  cmp_le str_cmp today (pl_day p) /\ cmp_le str_cmp (pl_day p) horizon.
Proof.
  destruct di as [doc i]. unfold agenda_entry. destruct (_ || _); [done|].
  assert (Hp : forall s, planned today i = Some s -> cmp_le str_cmp today s).
  { intros s. unfold planned. destruct (iv_when i); [|done]. cbn. destruct (str_ltb _ _) eqn:E; [done|]. intros [= <-]. by apply str_ltb_false. }
  assert (Hd : forall s, due today i = Some s -> cmp_le str_cmp today s).
  { intros s. unfold due. case_decide; [done|]. destruct (iv_deadline i); [|done]. intros [= <-]. apply not_before_le. }
  destruct (earlier (planned today i) (due today i)) as [day|] eqn:E; [|done]. cbn [mbind option_bind].
  destruct (str_ltb horizon day) eqn:Eh; [done|]. intros [= <-]. cbn. split; [|by apply str_ltb_false].
  unfold earlier in E. destruct (planned today i) as [a|], (due today i) as [b|]; try done.
  - destruct (str_ltb b a); injection E as <-; [by apply Hd|by apply Hp].
  - injection E as <-. by apply Hp.
  - injection E as <-. by apply Hd.
Qed.

Lemma StronglySorted_weaken {A} (R S : A -> A -> Prop) l : (forall x y, R x y -> S x y) -> StronglySorted R l -> StronglySorted S l.
Proof. intros H. induction 1 as [|x l _ IH Hx]; constructor; [done|]. eapply Forall_impl; [exact Hx|]. intros y. apply H. Qed.

Lemma omap_id_fmap {A B} (f : A -> option B) (l : list A) : omap id (f <$> l) = omap f l.
Proof. induction l as [|a l IH]; [done|]. cbn. destruct (f a); cbn; by rewrite IH. Qed.

(** C33: With planned dates that were accepted when written, the agenda never
    fails: its days start with today and ascend strictly, within the horizon and
    with rows after the first; each day holds, in the stable order of overdue
    first, then placing text, then creation, exactly the items whose earlier of
    planned day and deadline is that day, each once. *)
Theorem build_agenda_days sources today horizon :
  (forall di w, di ∈ tagged sources -> iv_when di.2 = Some w -> exists raw, parse_when raw = Ok w) ->
  let placed := omap (agenda_entry today horizon) (tagged sources) in
  exists days, build_agenda_from sources today horizon = Some days
  /\ (exists rest, ad_day <$> days = today :: rest) /\ StronglySorted str_lt (ad_day <$> days)
  /\ (forall d, d ∈ days -> ad_rows d = pl_row <$> sort_by placed_cmp (base.filter (fun p => pl_day p = ad_day d) placed))
  /\ (forall d, d ∈ days -> ad_day d = today \/ (ad_rows d <> [] /\ cmp_le str_cmp (ad_day d) horizon))
  /\ (forall p, p ∈ placed -> pl_day p ∈ ad_day <$> days).
Proof.
  intros Hw placed.
  assert (Hrun : mapM (fun di => place_item_row today horizon di.1 di.2) (tagged sources) = Some (agenda_entry today horizon <$> tagged sources)).
  { apply mapM_Some, Forall2_fmap_r, Forall_Forall2_diag, Forall_forall. intros [doc i] Hin. apply place_item_entry.
    intros w Ew. destruct (Hw _ w Hin Ew) as [raw Hraw]. by eapply accepted_sliceable. }
  assert (Hplaced : forall p, p ∈ sort_by placed_cmp placed -> cmp_le str_cmp today (pl_day p) /\ cmp_le str_cmp (pl_day p) horizon).
  { intros p (di & _ & Hp)%elem_of_sort_by%list_elem_of_omap. by eapply entry_day. }
  assert (Hg : grouped today (sort_by placed_cmp placed) (group_days today (sort_by placed_cmp placed))).
  { apply group_days_grouped; [|intros p Hp; by apply Hplaced]. eapply StronglySorted_weaken; [|apply sort_by_sorted; exact _].
    intros x y. apply cmp_le_first. }
  exists (group_days today (sort_by placed_cmp placed)). unfold build_agenda_from. rewrite Hrun. cbn [mbind option_bind]. rewrite omap_id_fmap.
  destruct Hg as [G1 G2 G3 G4 G5]. split_and!; [done|exact G1|exact G2| | |].
  - intros d Hd. rewrite (G3 d Hd). f_equal. by apply (filter_sort_by placed_cmp).
  - intros d Hd. destruct (G5 (ad_day d)) as [?|(p & Hp & Ep)]; [by apply list_elem_of_fmap_2|by left|right]. split.
    + rewrite (G3 d Hd). intros Hnil. apply fmap_nil_inv in Hnil. apply (elem_of_nil p). rewrite <- Hnil. by apply list_elem_of_filter.
    + rewrite <- Ep. by apply Hplaced.
  - intros p Hp. apply G4. by apply elem_of_sort_by.
Qed.

(** ** Unscheduled events *)

(** Sorting each workspace before all of them changes nothing. *)
Theorem unscheduled_from_one_sort sources :
  unscheduled_from sources
  = sort_by (cmp_on snd oldest_first) (base.filter (fun di => Is_true (unscheduled di.2)) (tagged sources)).
Proof.
  unfold unscheduled_from. apply (sorted_classes (cmp_on snd oldest_first)); try (apply sort_by_sorted; exact _).
  intros y. rewrite !(sort_by_stable (cmp_on snd oldest_first)). induction sources as [|[doc items] sources IH]; [done|].
  unfold tagged in *. cbn. rewrite !filter_app, IH. f_equal.
  assert (Hpair : forall (P : option Candidate * ItemView -> Prop) (HP : forall x, Decision (P x)) (l : list ItemView),
    base.filter P (pair doc <$> l) = pair doc <$> base.filter (fun i => P (doc, i)) l).
  { intros P HP l. induction l as [|i l IHl]; [done|]. rewrite fmap_cons, !filter_cons, IHl. by case_decide. }
  rewrite !Hpair. f_equal. apply (sort_by_stable oldest_first).
Qed.

(** ** Witnesses *)

Definition dated (id : string) (when_ deadline : option string) (created : Z) : ItemView :=
  mkItemView id id "" LIST_INBOX Backlog created deadline when_ None None created None None None None.
Definition sample_sources : list Source :=
  [(Some (mkCandidate "1" None), [dated "h-late" (Some "2026-09-12T15:00") None 1; dated "h-over" None (Some "2026-09-01") 2]);
   (Some (mkCandidate "2" (Some "Work")), [dated "w-early" (Some "2026-09-12T09:00") None 3; dated "w-today" (Some "2026-09-09") None 4])].

Definition agenda_ids (days : list AgendaDay) : list (string * list string) :=
  (fun d => (ad_day d, (fun r => iv_id (ar_item r)) <$> ad_rows d)) <$> days.

Lemma build_agenda_days_witness :
  agenda_ids <$> build_agenda_from sample_sources "2026-09-09" "2026-09-23"
    = Some [("2026-09-09", ["h-over"; "w-today"]); ("2026-09-12", ["w-early"; "h-late"])]
  /\ exists days, build_agenda_from sample_sources "2026-09-09" "2026-09-23" = Some days /\ StronglySorted str_lt (ad_day <$> days).
Proof.
  split; [vm_compute; reflexivity|].
  destruct (build_agenda_days sample_sources "2026-09-09" "2026-09-23") as (days & Hrun & _ & Hs & _).
  - intros di w Hin Hw. exists w. cbn in Hin. rewrite !elem_of_cons, elem_of_nil in Hin.
    destruct Hin as [->|[->|[->|[->|[]]]]]; cbn in Hw; try discriminate Hw; injection Hw as <-; vm_compute; reflexivity.
  - exists days. split; [exact Hrun|exact Hs].
Defined.

(** A planned date that was never validated (the register is read as it was
    written) can make the agenda fail: its tenth byte is inside a character. *)
Lemma agenda_cuts_a_character :
  build_agenda [dated "x" (Some (of_bytes ([50; 48; 50; 54; 45; 48; 57; 45; 48]%N ++ [195; 169]%N))) None 1] "2026-09-09" "2026-09-23" = None.
Proof. vm_compute. reflexivity. Qed.
