(* ===== verification/Fingerprint.v ===== *)
(** The fingerprint of a document (core/src/doc.rs, [fingerprint]): a hash over
    a serialization of its settings, lists, items and Focus. *)
From Stdlib Require Import Floats.SpecFloat.
From S2P Require Import Prelude.
From S2P Require Import Loro.
From S2P Require Import Lifecycle.
From S2P Require Import Registers.
From S2P Require Import Projection.
From S2P Require Import DocCore.
From S2P Require Import DocFocus.

(** [n.to_be_bytes()] of [w] bytes: the low [8 w] bits, the highest first. *)
Fixpoint be_bytes (w : nat) (n : Z) : list N :=
  match w with
  | O => []
  | S w => be_bytes w (n / 256) ++ [Z.to_N (n mod 256)]
  end.

(** [f64::to_bits]. *)
Definition f64_bits (d : spec_float) : Z :=
  let sign (s : bool) : Z := (if s then 2 ^ 63 else 0)%Z in
  match d with
  | S754_zero s => sign s
  | S754_infinity s => sign s + 2047 * 2 ^ 52
  | S754_nan => 2047 * 2 ^ 52 + 2 ^ 51
  | S754_finite s m e => sign s + (e + 1074) * 2 ^ 52 + Z.pos m
  end%Z.

(** [b as i64] of a u64. *)
Definition bits_i64 (b : Z) : Z := if (b <? 2 ^ 63)%Z then b else (b - 2 ^ 64)%Z.

(** [len() as u32], big-endian. *)
Definition hash_len (n : nat) : list N := be_bytes 4 (Z.of_nat n).
Definition hash_i64 (n : Z) : list N := be_bytes 8 n.
Definition hash_bool (b : bool) : list N := [if b then 1%N else 0%N].

Definition hash_str (s : string) : list N := hash_len (String.length s) ++ bytes s.
Definition hash_opt_str (v : option string) : list N :=
  match v with Some s => [1%N] ++ hash_str s | None => [0%N] end.
Definition hash_opt_i64 (v : option Z) : list N :=
  match v with Some n => [1%N] ++ hash_i64 n | None => [0%N] end.
Definition hash_opt_place (v : option Place) : list N :=
  match v with
  | Some p =>
      [1%N] ++ hash_str (place_label p) ++ hash_opt_i64 (bits_i64 ∘ f64_bits <$> place_lat p)
      ++ hash_opt_i64 (bits_i64 ∘ f64_bits <$> place_lon p) ++ hash_opt_str (place_address p) ++ hash_opt_str (place_reference p)
  | None => [0%N]
  end.

(** A counted loop. *)
Definition hash_all {A} (hash : A -> list N) (l : list A) : list N := hash_len (length l) ++ (l ≫= hash).

Definition hash_settings (s : SettingsView) : list N :=
  hash_bool (sv_show_list_counts s) ++ hash_str (default "" (sv_doc_name s))
  ++ hash_all hash_str (sv_calendar_hidden_docs s) ++ hash_bool (sv_done_amalgamate s).

Definition hash_list (l : ListView) : list N :=
  hash_str (lv_id l) ++ hash_str (lv_name l) ++ hash_opt_i64 (lv_archived_at l) ++ hash_i64 (lv_created_at l).

Definition hash_item (i : ItemView) : list N :=
  hash_str (iv_id i) ++ hash_str (iv_text i) ++ hash_str (iv_notes i) ++ hash_str (iv_list_id i)
  ++ [Z.to_N (code (iv_state i))] ++ hash_i64 (iv_lifecycle_at i)
  ++ hash_opt_str (iv_deadline i) ++ hash_opt_str (iv_when i) ++ hash_opt_i64 (iv_duration i) ++ hash_opt_place (iv_place i)
  ++ hash_i64 (iv_created_at i) ++ hash_opt_i64 (iv_started_at i) ++ hash_opt_i64 (iv_done_at i) ++ hash_opt_i64 (iv_binned_at i).

(** What the hasher is fed: S, L, I and F ahead of the parts. *)
Definition fingerprint_input (d : Doc) : list N :=
  [83%N] ++ hash_settings (get_settings d)
  ++ [76%N] ++ hash_all hash_list (all_lists d)
  ++ [73%N] ++ hash_all hash_item (iter_items d)
  ++ [70%N] ++ hash_all hash_str (focus_raw d).

Definition fingerprint (sha256 : list N -> list N) (d : Doc) : list N := sha256 (fingerprint_input d).
