(* ===== verification/FingerprintFacts.v ===== *)
(** Two documents feed the hasher the same bytes exactly when the parts it
    covers are the same. *)
From Stdlib Require Import Floats.SpecFloat.
From S2P Require Import Prelude.
From S2P Require Import Loro.
From S2P Require Import Lifecycle.
From S2P Require Import Registers.
From S2P Require Import Projection.
From S2P Require Import DocCore.
From S2P Require Import DocFocus.
From S2P Require Import DocItems.
From S2P Require Import DocLists.
From S2P Require Import DocIndex.
From S2P Require Import IndexBuild.
From S2P Require Import ListFacts.
From S2P Require Import Fingerprint.

(** ** Prefix-free encodings *)

Section codes.
Context {A : Type}.

(** What follows an encoded value determines neither it nor where it ends. *)
Definition prefix_free (P : A -> Prop) (enc : A -> list N) : Prop :=
  forall a b r r', P a -> P b -> enc a ++ r = enc b ++ r' -> a = b /\ r = r'.

Lemma prefix_free_inj P enc a b : prefix_free P enc -> P a -> P b -> enc a = enc b -> a = b.
Proof. intros H Pa Pb E. apply (H a b [] []); [done|done|by rewrite E]. Qed.

Lemma prefix_free_tag P enc c : prefix_free P enc -> prefix_free P (fun a => c :: enc a).
Proof. intros H a b r r' Pa Pb. cbn. intros [= E]. by apply H. Qed.

Lemma prefix_free_pair {B} P (enc : A -> list N) Q (enc' : B -> list N) : prefix_free P enc ->
  (forall b b' r r', Q b -> Q b' -> enc' b ++ r = enc' b' ++ r' -> b = b' /\ r = r') ->
  forall x y r r', P x.1 /\ Q x.2 -> P y.1 /\ Q y.2 -> enc x.1 ++ enc' x.2 ++ r = enc y.1 ++ enc' y.2 ++ r' -> x = y /\ r = r'.
Proof.
  intros HA HB [a b] [a' b'] r r' [Pa Qb] [Pa' Qb'] E. cbn in *.
  apply HA in E as [-> E]; [|done|done]. by apply HB in E as [-> ->].
Qed.

(** A code of one length that is injective. *)
Lemma prefix_free_fixed P enc n : (forall a, P a -> length (enc a) = n) -> (forall a b, P a -> P b -> enc a = enc b -> a = b) -> prefix_free P enc.
Proof.
  intros Hlen Hinj a b r r' Pa Pb E. apply app_inj_1 in E as [E ->]; [|by rewrite !Hlen]. split; [by apply Hinj|done].
Qed.

Definition opt (P : A -> Prop) (v : option A) : Prop := match v with Some a => P a | None => True end.
Lemma prefix_free_opt P enc : prefix_free P enc ->
  forall v w r r', opt P v -> opt P w ->
  (match v with Some a => 1%N :: enc a | None => [0%N] end) ++ r = (match w with Some a => 1%N :: enc a | None => [0%N] end) ++ r' -> v = w /\ r = r'.
Proof.
  intros H [a|] [b|] r r' Pa Pb; cbn; intros [= E]; [|done]. by apply H in E as [-> ->].
Qed.

Lemma prefix_free_iter P enc : prefix_free P enc -> forall l k r r', length l = length k -> Forall P l -> Forall P k ->
  (l ≫= enc) ++ r = (k ≫= enc) ++ r' -> l = k /\ r = r'.
Proof.
  intros H. induction l as [|a l IH]; intros [|b k] r r' Hlen Hl Hk E; try done. cbn in E. rewrite <- !app_assoc in E.
  apply Forall_cons in Hl as [Pa Hl], Hk as [Pb Hk]. apply H in E as [-> E]; [|done|done]. injection Hlen as Hlen.
  by apply IH in E as [-> ->].
Qed.
End codes.

(** ** Numbers *)

Lemma be_bytes_length w : forall n, length (be_bytes w n) = w.
Proof. induction w as [|w IH]; intros n; [done|]. cbn. rewrite length_app, IH. cbn. lia. Qed.

Lemma be_bytes_mod w : forall n m, be_bytes w n = be_bytes w m -> (n mod 256 ^ Z.of_nat w = m mod 256 ^ Z.of_nat w)%Z.
Proof.
  induction w as [|w IH]; intros n m E; [by rewrite !Z.mod_1_r|]. cbn in E. apply app_inj_2 in E as [E1 [= E2]]; [|done].
  apply IH in E1. apply Z2N.inj in E2; [|apply Z.mod_pos_bound; lia..].
  rewrite Nat2Z.inj_succ, Z.pow_succ_r by lia. rewrite !Z.rem_mul_r by lia. by rewrite E1, E2.
Qed.

Definition i64_fits (n : Z) : Prop := (- 2 ^ 63 <= n < 2 ^ 63)%Z.
Definition len_fits (n : nat) : Prop := (Z.of_nat n < 2 ^ 32)%Z.

Lemma hash_i64_code : prefix_free i64_fits hash_i64.
Proof.
  apply (prefix_free_fixed _ _ 8); [intros; apply be_bytes_length|]. unfold i64_fits. intros n m Hn Hm E%be_bytes_mod.
  change (256 ^ Z.of_nat 8)%Z with (2 ^ 64)%Z in E. Z.to_euclidean_division_equations. lia.
Qed.
Lemma hash_len_code : prefix_free len_fits hash_len.
Proof.
  apply (prefix_free_fixed _ _ 4); [intros; apply be_bytes_length|]. unfold len_fits. intros n m Hn Hm E%be_bytes_mod.
  change (256 ^ Z.of_nat 4)%Z with (2 ^ 32)%Z in E. rewrite !Z.mod_small in E by lia. lia.
Qed.
Lemma hash_bool_code : prefix_free (fun _ => True) hash_bool.
Proof. apply (prefix_free_fixed _ _ 1); [done|]. by intros [] [] _ _. Qed.
Lemma hash_state_code : prefix_free (fun _ => True) (fun s => [Z.to_N (code s)]).
Proof. apply (prefix_free_fixed _ _ 1); [done|]. by intros [] [] _ _. Qed.

(** ** Doubles *)

Lemma digits2_bound m : (2 ^ (Z.pos (digits2_pos m) - 1) <= Z.pos m < 2 ^ Z.pos (digits2_pos m))%Z.
Proof.
  induction m as [m IH|m IH|]; cbn [digits2_pos]; [| |done];
    rewrite Pos2Z.inj_succ, Z.pow_succ_r by lia; rewrite Z.sub_1_r, Z.pred_succ;
    replace (Z.pos (digits2_pos m)) with (Z.succ (Z.pos (digits2_pos m) - 1)) at 1 by lia;
    rewrite Z.pow_succ_r by lia; lia.
Qed.

Definition f64_fits (d : spec_float) : Prop := valid_binary 53 1024 d = true.

(** Below 2^53 and, unless the exponent is the least, at least 2^52. *)
Lemma valid_finite s m e : f64_fits (S754_finite s m e) -> (Z.pos m < 2 ^ 53 /\ -1074 <= e <= 971 /\ (e = -1074 \/ 2 ^ 52 <= Z.pos m))%Z.
Proof.
  unfold f64_fits, valid_binary, bounded, canonical_mantissa, fexp, emin. rewrite andb_true_iff, Z.eqb_eq, Z.leb_le. intros [Hc He].
  pose proof (digits2_bound m) as [Hlo Hhi]. set (k := Z.pos (digits2_pos m)) in *.
  assert (Hk : (k <= 53)%Z) by lia. split_and!; [|lia|lia|].
  - eapply Z.lt_le_trans; [exact Hhi|]. apply Z.pow_le_mono_r; lia.
  - destruct (decide (e = -1074)%Z) as [|Hne]; [by left|right]. replace k with 53%Z in Hlo by lia. exact Hlo.
Qed.

Lemma f64_bits_inj d d' : f64_fits d -> f64_fits d' -> f64_bits d = f64_bits d' -> d = d'.
Proof.
  intros Hd Hd'. destruct d as [s|s| |s m e], d' as [s'|s'| |s' m' e'];
    try (pose proof (valid_finite _ _ _ Hd) as (? & ? & ?)); try (pose proof (valid_finite _ _ _ Hd') as (? & ? & ?)); unfold f64_bits;
    try destruct s; try destruct s'; intros E; try done; try (exfalso; lia);
    (assert (e = e') by lia); subst e'; (assert (m = m') by lia); by subst.
Qed.

Lemma f64_bits_range d : f64_fits d -> (0 <= f64_bits d < 2 ^ 64)%Z.
Proof.
  intros Hd. destruct d as [s|s| |s m e]; try (pose proof (valid_finite _ _ _ Hd) as (? & ? & ?)); unfold f64_bits; try destruct s; lia.
Qed.

Lemma bits_i64_inj d d' : f64_fits d -> f64_fits d' -> bits_i64 (f64_bits d) = bits_i64 (f64_bits d') -> d = d'.
Proof.
  intros Hd Hd' E. apply f64_bits_inj; [done|done|]. pose proof (f64_bits_range d Hd). pose proof (f64_bits_range d' Hd').
  unfold bits_i64 in E. destruct (Z.ltb_spec (f64_bits d) (2 ^ 63)), (Z.ltb_spec (f64_bits d') (2 ^ 63)); lia.
Qed.
Lemma bits_i64_fits d : f64_fits d -> i64_fits (bits_i64 (f64_bits d)).
Proof.
  intros Hd. pose proof (f64_bits_range d Hd). unfold bits_i64, i64_fits. destruct (Z.ltb_spec (f64_bits d) (2 ^ 63)); lia.
Qed.
Lemma hash_f64_code : prefix_free f64_fits (fun d => hash_i64 (bits_i64 (f64_bits d))).
Proof.
  intros d d' r r' Hd Hd' E. apply hash_i64_code in E as [E ->]; [|by apply bits_i64_fits..]. split; [by apply bits_i64_inj|done].
Qed.

(** ** Texts, lists and the parts of a document *)

Definition str_fits (s : string) : Prop := len_fits (String.length s).

Lemma hash_str_code : prefix_free str_fits hash_str.
Proof.
  intros s t r r' Hs Ht E. unfold hash_str in E. rewrite <- !app_assoc in E. apply hash_len_code in E as [Hl E]; [|done|done].
  apply app_inj_1 in E as [E ->]; [|by rewrite !bytes_length]. split; [by apply bytes_inj|done].
Qed.

Lemma hash_all_code {A} (P : A -> Prop) hash : prefix_free P hash -> prefix_free (fun l => len_fits (length l) /\ Forall P l) (hash_all hash).
Proof.
  intros H l k r r' [Hl Pl] [Hk Pk] E. unfold hash_all in E. rewrite <- !app_assoc in E. apply hash_len_code in E as [Hlen E]; [|done|done].
  by apply (prefix_free_iter P hash H) in E.
Qed.

Lemma hash_opt_str_code : prefix_free (opt str_fits) hash_opt_str.
Proof. intros v w r r'. apply (prefix_free_opt _ _ hash_str_code). Qed.
Lemma hash_opt_i64_code : prefix_free (opt i64_fits) hash_opt_i64.
Proof. intros v w r r'. apply (prefix_free_opt _ _ hash_i64_code). Qed.
Lemma hash_opt_f64_code : prefix_free (opt f64_fits) (fun v => hash_opt_i64 (bits_i64 ∘ f64_bits <$> v)).
Proof.
  intros v w r r' Hv Hw E. apply (prefix_free_opt _ _ hash_f64_code v w r r' Hv Hw). by destruct v, w.
Qed.

Definition place_fits (p : Place) : Prop :=
  str_fits (place_label p) /\ opt f64_fits (place_lat p) /\ opt f64_fits (place_lon p) /\ opt str_fits (place_address p) /\ opt str_fits (place_reference p).

(** Peel one field off both sides. *)
Ltac peel H := rewrite <- ?app_assoc in *;
  match goal with E : _ ++ _ = _ ++ _ |- _ => let Hf := fresh "Hf" in apply H in E as [Hf E]; [|first [exact I|assumption|split; assumption]..] end.

Lemma hash_opt_place_code : prefix_free (opt place_fits) hash_opt_place.
Proof.
  assert (H : prefix_free place_fits (fun p => hash_str (place_label p) ++ hash_opt_i64 (bits_i64 ∘ f64_bits <$> place_lat p)
    ++ hash_opt_i64 (bits_i64 ∘ f64_bits <$> place_lon p) ++ hash_opt_str (place_address p) ++ hash_opt_str (place_reference p))).
  { intros [l la lo ad re] [l' la' lo' ad' re'] r r' (P1 & P2 & P3 & P4 & P5) (Q1 & Q2 & Q3 & Q4 & Q5). cbn [place_label place_lat place_lon place_address place_reference] in *.
    intros E. peel hash_str_code. peel hash_opt_f64_code. peel hash_opt_f64_code. peel hash_opt_str_code. peel hash_opt_str_code. split; [congruence|assumption]. }
  intros v w r r'. apply (prefix_free_opt _ _ H).
Qed.

Definition settings_fit (s : SettingsView) : Prop :=
  str_fits (default "" (sv_doc_name s)) /\ len_fits (length (sv_calendar_hidden_docs s)) /\ Forall str_fits (sv_calendar_hidden_docs s).
Definition list_fits (l : ListView) : Prop :=
  str_fits (lv_id l) /\ str_fits (lv_name l) /\ opt i64_fits (lv_archived_at l) /\ i64_fits (lv_created_at l).
Definition item_fits (i : ItemView) : Prop :=
  str_fits (iv_id i) /\ str_fits (iv_text i) /\ str_fits (iv_notes i) /\ str_fits (iv_list_id i) /\ i64_fits (iv_lifecycle_at i)
  /\ opt str_fits (iv_deadline i) /\ opt str_fits (iv_when i) /\ opt i64_fits (iv_duration i) /\ opt place_fits (iv_place i)
  /\ i64_fits (iv_created_at i) /\ opt i64_fits (iv_started_at i) /\ opt i64_fits (iv_done_at i) /\ opt i64_fits (iv_binned_at i).

(** What of each part is covered: all but the inbox's view, a list's icon and
    view, and who created an item; no name is the empty name. *)
Definition covered_settings (s : SettingsView) : SettingsView :=
  mkSettingsView (sv_show_list_counts s) None (Some (default "" (sv_doc_name s))) (sv_calendar_hidden_docs s) (sv_done_amalgamate s).
Definition covered_list (l : ListView) : ListView := mkListView (lv_id l) (lv_name l) None None (lv_archived_at l) (lv_created_at l).
Definition covered_item (i : ItemView) : ItemView :=
  mkItemView (iv_id i) (iv_text i) (iv_notes i) (iv_list_id i) (iv_state i) (iv_lifecycle_at i) (iv_deadline i) (iv_when i) (iv_duration i)
    (iv_place i) (iv_created_at i) None (iv_started_at i) (iv_done_at i) (iv_binned_at i).

(** Parts that encode alike are covered alike. *)
Definition codes_up_to {A} (P : A -> Prop) (cover : A -> A) (hash : A -> list N) : Prop :=
  forall a b r r', P a -> P b -> hash a ++ r = hash b ++ r' -> cover a = cover b /\ r = r'.

Lemma hash_settings_code : codes_up_to settings_fit covered_settings hash_settings.
Proof.
  intros s t r r' (P1 & P2 & P3) (Q1 & Q2 & Q3) E. unfold hash_settings in E. unfold covered_settings.
  peel hash_bool_code. peel hash_str_code. peel (hash_all_code str_fits hash_str hash_str_code). peel hash_bool_code. split; [congruence|assumption].
Qed.
Lemma hash_list_code : codes_up_to list_fits covered_list hash_list.
Proof.
  intros l k r r' (P1 & P2 & P3 & P4) (Q1 & Q2 & Q3 & Q4) E. unfold hash_list in E. unfold covered_list.
  peel hash_str_code. peel hash_str_code. peel hash_opt_i64_code. peel hash_i64_code. split; [congruence|assumption].
Qed.
Lemma hash_item_code : codes_up_to item_fits covered_item hash_item.
Proof.
  intros i j r r' (P1 & P2 & P3 & P4 & P5 & P6 & P7 & P8 & P9 & P10 & P11 & P12 & P13) (Q1 & Q2 & Q3 & Q4 & Q5 & Q6 & Q7 & Q8 & Q9 & Q10 & Q11 & Q12 & Q13) E.
  unfold hash_item in E. unfold covered_item. do 4 peel hash_str_code. peel hash_state_code. peel hash_i64_code. do 2 peel hash_opt_str_code.
  peel hash_opt_i64_code. peel hash_opt_place_code. peel hash_i64_code. do 3 peel hash_opt_i64_code. split; [f_equal; assumption|assumption].
Qed.

(** ** The document *)

(** Counted parts, up to what is covered. *)
Lemma hash_all_up_to {A} (P : A -> Prop) cover hash : codes_up_to P cover hash ->
  forall l k r r', len_fits (length l) /\ Forall P l -> len_fits (length k) /\ Forall P k ->
  hash_all hash l ++ r = hash_all hash k ++ r' -> cover <$> l = cover <$> k /\ r = r'.
Proof.
  intros H l k r r' [Hl Pl] [Hk Pk] E. unfold hash_all in E. rewrite <- !app_assoc in E. apply hash_len_code in E as [Hlen E]; [|done|done].
  clear Hl Hk. revert k r r' Hlen Pl Pk E. induction l as [|a l IH]; intros [|b k] r r' Hlen Pl Pk E; try done.
  apply Forall_cons in Pl as [Pa Pl], Pk as [Pb Pk]. cbn in E. rewrite <- !app_assoc in E. apply H in E as [Hab E]; [|done|done].
  injection Hlen as Hlen. apply IH in E as [Hlk ->]; [|done..]. split; [|done]. by rewrite !fmap_cons, Hab, Hlk.
Qed.

(** Sizes and numbers within what the encoding has room for. *)
Record doc_fits (d : Doc) : Prop := {
  df_settings : settings_fit (get_settings d);
  df_lists : len_fits (length (all_lists d)) /\ Forall list_fits (all_lists d);
  df_items : len_fits (length (iter_items d)) /\ Forall item_fits (iter_items d);
  df_focus : len_fits (length (focus_raw d)) /\ Forall str_fits (focus_raw d);
}.

(** The state the fingerprint covers: lists in their stored order, items in the
    order of their lists, Focus as it is stored. *)
Definition covered (d : Doc) : SettingsView * list ListView * list ItemView * list string :=
  (covered_settings (get_settings d), covered_list <$> all_lists d, covered_item <$> iter_items d, focus_raw d).

Lemma hash_covered_list l : hash_list (covered_list l) = hash_list l.
Proof. done. Qed.
Lemma hash_covered_item i : hash_item (covered_item i) = hash_item i.
Proof. done. Qed.

Lemma hash_all_covered {A} (cover : A -> A) hash l : (forall a, hash (cover a) = hash a) -> hash_all hash (cover <$> l) = hash_all hash l.
Proof.
  intros H. unfold hash_all. rewrite length_fmap. f_equal. induction l as [|a l IH]; [done|]. cbn. by rewrite H, IH.
Qed.

Lemma input_covered d : fingerprint_input d =
  let '(s, ls, its, fs) := covered d in
  [83%N] ++ hash_settings s ++ [76%N] ++ hash_all hash_list ls ++ [73%N] ++ hash_all hash_item its ++ [70%N] ++ hash_all hash_str fs.
Proof.
  unfold fingerprint_input, covered. rewrite (hash_all_covered covered_list hash_list _ hash_covered_list).
  by rewrite (hash_all_covered covered_item hash_item _ hash_covered_item).
Qed.

(** C35: Two documents feed the hasher the same bytes exactly when they agree on
    the settings, the lists and the items in their order, every register of them
    and the stored Focus, but for the inbox's view, the icon and view of a list
    and the creator of an item; so replicas that agree have one fingerprint, and
    ones that disagree can share it only through a collision of the hash. *)
Theorem fingerprint_exact d d' : doc_fits d -> doc_fits d' ->
  (fingerprint_input d = fingerprint_input d' <-> covered d = covered d')
  /\ forall sha256, covered d = covered d' -> fingerprint sha256 d = fingerprint sha256 d'.
Proof.
  intros [S1 L1 I1 F1] [S2 L2 I2 F2]. assert (Hsame : covered d = covered d' -> fingerprint_input d = fingerprint_input d').
  { intros E. by rewrite !input_covered, E. }
  split; [split; [|done]|intros sha256 E; unfold fingerprint; by rewrite Hsame].
  unfold fingerprint_input. intros E. apply (app_inv_head [83%N]) in E.
  apply hash_settings_code in E as [Hs E]; [|assumption..]. apply (app_inv_head [76%N]) in E.
  apply (hash_all_up_to list_fits covered_list _ hash_list_code) in E as [Hl E]; [|assumption..]. apply (app_inv_head [73%N]) in E.
  apply (hash_all_up_to item_fits covered_item _ hash_item_code) in E as [Hi E]; [|assumption..]. apply (app_inv_head [70%N]) in E.
  rewrite <- (app_nil_r (hash_all hash_str (focus_raw d))), <- (app_nil_r (hash_all hash_str (focus_raw d'))) in E.
  apply (hash_all_code str_fits hash_str hash_str_code) in E as [Hf _]; [|assumption..]. unfold covered. by rewrite Hs, Hl, Hi, Hf.
Qed.

(** ** Witnesses *)

#[local] Existing Instances value_loro unary_host.

Definition reworded_lists : Doc := (edit_item_text "x1" "oats" sample_lists).2.
Definition iconed_lists : Doc := (set_list_icon "home" "house" sample_lists).2.

(** Evaluate a list and check its members one by one. *)
Ltac fits_each l :=
  let v := eval vm_compute in l in
  replace l with v by (vm_compute; reflexivity); try (split; [vm_compute; reflexivity|]);
  repeat (apply Forall_cons; split; [vm_compute; repeat split; discriminate|]); apply Forall_nil_2.

Lemma sample_fits : doc_fits sample_lists /\ doc_fits reworded_lists.
Proof.
  split; split; try (split; [vm_compute; reflexivity|]).
  - fits_each (sv_calendar_hidden_docs (get_settings sample_lists)).
  - fits_each (all_lists sample_lists).
  - fits_each (iter_items sample_lists).
  - fits_each (focus_raw sample_lists).
  - fits_each (sv_calendar_hidden_docs (get_settings reworded_lists)).
  - fits_each (all_lists reworded_lists).
  - fits_each (iter_items reworded_lists).
  - fits_each (focus_raw reworded_lists).
Qed.

Lemma fingerprint_exact_witness :
  (fingerprint_input sample_lists = fingerprint_input reworded_lists <-> covered sample_lists = covered reworded_lists)
  /\ covered sample_lists <> covered reworded_lists.
Proof.
  split; [|vm_compute; discriminate]. destruct sample_fits as [H1 H2]. exact (proj1 (fingerprint_exact sample_lists reworded_lists H1 H2)).
Defined.

(** Replicas whose lists differ in an icon share the fingerprint. *)
Lemma fingerprint_misses_icons :
  all_lists iconed_lists <> all_lists sample_lists /\ fingerprint_input iconed_lists = fingerprint_input sample_lists.
Proof. split; [vm_compute; discriminate|vm_compute; reflexivity]. Qed.
