(* ===== verification/HostStore.v ===== *)
(** What the resident host keeps on disk beside its documents' logs
    (cli/src/storage.rs, cli/src/peer.rs): the command line's database, which
    is the shared sqlite backend with its own columns and tables, the rows a
    forgotten document loses, and the lease of a peer slot by file lock. *)
From S2P Require Import Prelude.
From S2P Require Import Wire.
From S2P Require Import Tables.
From S2P Require Import Storage.
From S2P Require Import Sqlite.

(** ** The database *)

(** The columns of [docs] that only the command line reads, by document: a
    stamp exists only with its row. And the [peer_slots] table. *)
Record CliDb : Type := mkCliDb {
  cd_db : Sqlite;
  cd_last_sync_at : gmap Uuid Z;
  cd_peer_slots : gmap N Z;
}.

Record SyncCursor : Type := mkSyncCursor { cu_last_acked : N; cu_last_sync_at : option Z }.

Definition on_db {A} (f : call Sqlite A) : call CliDb A := fun s =>
  let r := f (cd_db s) in (r.1, mkCliDb r.2 (cd_last_sync_at s) (cd_peer_slots s)).

(** The whole trait forwards to the shared backend. *)
#[export] Instance cli_storage : LocalStorage CliDb := {|
  boot id s := boot id (cd_db s);
  append_local_wal id b := on_db (append_local_wal id b);
  append_remote_wal id row vv := on_db (append_remote_wal id row vv);
  write_snapshot id cutoff b := on_db (write_snapshot id cutoff b);
  write_acked_seq id seq := on_db (write_acked_seq id seq);
  write_server_known_vv id vv := on_db (write_server_known_vv id vv);
  put_in_flight_push id p := on_db (put_in_flight_push id p);
  complete_push id pid vv := on_db (complete_push id pid vv);
|}.

Definition cli_read_sync_cursor (id : Uuid) (s : CliDb) : result StorageError SyncCursor :=
  Ok (match t_docs (cd_db s) !! id with
      | Some row => mkSyncCursor (as_u64 (dr_last_acked row)) (cd_last_sync_at s !! id)
      | None => mkSyncCursor 0 None
      end).

Definition cli_write_last_sync_at (id : Uuid) (at_millis : Z) : call CliDb unit := fun s =>
  (Ok tt, mkCliDb (ensure_doc id (cd_db s)) (<[id := at_millis]> (cd_last_sync_at s)) (cd_peer_slots s)).

(** One transaction over the four tables. *)
Definition delete_rows (id : Uuid) (db : Sqlite) : Sqlite :=
  mkSqlite (delete id (t_docs db)) (base.filter (fun kv => kv.1.1 <> id) (t_wal db))
    (delete id (t_snapshots db)) (delete id (t_in_flight db)).

Definition cli_forget_doc (id : Uuid) : call CliDb unit := fun s =>
  (Ok tt, mkCliDb (delete_rows id (cd_db s)) (delete id (cd_last_sync_at s)) (cd_peer_slots s)).

(** [INSERT OR IGNORE], then the value read back as the [u64] it was. *)
Definition cli_read_or_mint_peer_slot (slot mint : N) : call CliDb N := fun s =>
  let slots := match cd_peer_slots s !! slot with
               | Some _ => cd_peer_slots s
               | None => <[slot := as_i64 mint]> (cd_peer_slots s)
               end in
  (Ok (as_u64 (default 0%Z (slots !! slot))), mkCliDb (cd_db s) (cd_last_sync_at s) slots).

(** What the host asks of the storage beside the engine's trait. *)
Class HostStore (T : Type) : Type := {
  read_sync_cursor : Uuid -> T -> result StorageError SyncCursor;
  write_last_sync_at : Uuid -> Z -> call T unit;
  forget_rows : Uuid -> call T unit;
  read_or_mint_peer_slot : N -> N -> call T N;
}.

#[export] Instance cli_host_store : HostStore CliDb := {|
  read_sync_cursor := cli_read_sync_cursor;
  write_last_sync_at := cli_write_last_sync_at;
  forget_rows := cli_forget_doc;
  read_or_mint_peer_slot := cli_read_or_mint_peer_slot;
|}.

Definition cli_empty : CliDb := mkCliDb sqlite_empty ∅ ∅.

(** ** Forgetting a document *)

Definition same_rows (id : Uuid) (s s' : CliDb) : Prop :=
  t_docs (cd_db s') !! id = t_docs (cd_db s) !! id
  /\ (forall l, t_wal (cd_db s') !! (id, l) = t_wal (cd_db s) !! (id, l))
  /\ t_snapshots (cd_db s') !! id = t_snapshots (cd_db s) !! id
  /\ t_in_flight (cd_db s') !! id = t_in_flight (cd_db s) !! id
  /\ cd_last_sync_at s' !! id = cd_last_sync_at s !! id.

Lemma forget_rows_gone id s : same_rows id cli_empty (cli_forget_doc id s).2.
Proof.
  unfold same_rows. cbn. rewrite !lookup_delete_eq, !lookup_empty. split_and!; try done.
  intros l. rewrite lookup_empty. apply map_lookup_filter_None_2. right. intros r _ Hr. by apply Hr.
Qed.

Lemma forget_rows_other id j s : j <> id -> same_rows j s (cli_forget_doc id s).2.
Proof.
  intros Hj. unfold same_rows. cbn. rewrite !lookup_delete_ne by done. split_and!; try done.
  intros l. destruct (t_wal (cd_db s) !! (j, l)) as [r|] eqn:E.
  - by apply map_lookup_filter_Some_2.
  - apply map_lookup_filter_None_2. by left.
Qed.

(** ** Peer slots *)

Record PeerLease : Type := mkLease { ls_peer_id : N; ls_slot : N }.

(** The scan for the lowest slot whose lock file no process holds: [locked]
    are the held ones, and a scan of one more slot than those finds a free
    one. *)
Fixpoint first_free (fuel : nat) (slot : N) (locked : gset N) : N :=
  match fuel with
  | O => slot
  | S fuel => if decide (slot ∈ locked) then first_free fuel (slot + 1) locked else slot
  end.

Definition free_slot (locked : gset N) : N := first_free (S (size locked)) 0 locked.

(** [claim]: the lock is taken, then the slot's peer id read or minted; an
    error of the storage drops the lock again. *)
Definition claim {T} `{HostStore T} (mint : N) (locked : gset N) (s : T)
    : result StorageError PeerLease * gset N * T :=
  let slot := free_slot locked in
  let r := read_or_mint_peer_slot slot mint s in
  match r.1 with
  | Ok peer_id => (Ok (mkLease peer_id slot), {[slot]} ∪ locked, r.2)
  | Err e => (Err e, locked, r.2)
  end.

(** Only the slots from [slot] on matter to the scan. *)
Lemma first_free_spec fuel : forall slot locked,
  (size (base.filter (fun x => (slot <= x)%N) locked) < fuel)%nat ->
  (first_free fuel slot locked ∉ locked) /\ (slot <= first_free fuel slot locked)%N
  /\ forall x, (slot <= x < first_free fuel slot locked)%N -> x ∈ locked.
Proof.
  induction fuel as [|fuel IH]; intros slot locked Hs; [lia|]. cbn. case_decide as Hin.
  - destruct (IH (slot + 1)%N locked) as (Hf & Hle & Hb).
    + eapply Nat.lt_le_trans; [|apply Nat.lt_succ_r, Hs]. apply subset_size. split; [intros x; rewrite !elem_of_filter; intros [??]; split; [lia|done]|].
      intros Hc. assert (Hx : slot ∈ base.filter (fun x => (slot + 1 <= x)%N) locked)
        by (apply Hc; by apply elem_of_filter).
      apply elem_of_filter in Hx. lia.
    + split_and!; [done|lia|]. intros x Hx. destruct (decide (x = slot)) as [->|]; [done|]. apply Hb. lia.
  - split_and!; [done|lia|]. intros x Hx. lia.
Qed.

Lemma free_slot_spec locked : (free_slot locked ∉ locked)
  /\ forall x, (x < free_slot locked)%N -> x ∈ locked.
Proof.
  destruct (first_free_spec (S (size locked)) 0 locked) as (Hf & _ & Hb).
  - apply Nat.lt_succ_r, subseteq_size. intros x [_ Hx]%elem_of_filter. done.
  - split; [done|]. intros x Hx. apply Hb. unfold free_slot in Hx. lia.
Qed.

(** A slot keeps the peer id it was first minted. *)
Lemma peer_slot_stable slot mint mint' s : (mint < 2 ^ 64)%N -> cd_peer_slots s !! slot = None ->
  let r := cli_read_or_mint_peer_slot slot mint s in
  r.1 = Ok mint /\ (cli_read_or_mint_peer_slot slot mint' r.2).1 = Ok mint.
Proof.
  intros Hm Hs. unfold cli_read_or_mint_peer_slot. cbn. rewrite Hs. cbn. rewrite !lookup_insert_eq. cbn.
  rewrite as_u64_i64 by exact Hm. done.
Qed.
