(* ===== verification/HostSession.v ===== *)
(** The host's session (cli/src/sync.rs, cli/src/workspace.rs): every document
    of the profile behind one socket, an engine each, all on one storage
    connection and one peer lease; the every-engine operations of the host
    loop, the routing of server frames, persistence, and a document's creation,
    deletion and forgetting. *)
From S2P Require Import Prelude.
From S2P Require Import Wire.
From S2P Require Import Crypto.
From S2P Require Import Registers.
From S2P Require Import Tables.
From S2P Require Import Storage.
From S2P Require Import SyncDoc.
From S2P Require Import Engine.
From S2P Require Import HostStore.

(** ** Naming a workspace *)

Record Candidate : Type := mkCandidate { ca_doc_id : Uuid; ca_name : option string }.

(** The lists that the messages spell out are left to the text. *)
Inductive WorkspaceError : Type :=
  | NotFound (wanted : string)
  | Ambiguous (wanted : string) (ids : list Uuid).

Definition ascii_lower (b : N) : N := if ((65 <=? b) && (b <=? 90))%N then (b + 32)%N else b.
Definition eq_ignore_ascii_case (a b : string) : bool :=
  bool_decide (ascii_lower <$> bytes a = ascii_lower <$> bytes b).

Definition HOME_ALIASES : list string := ["personal"; "home"].

(** [doc_name_of] reads the settings register of a document's Loro state (the
    reader of the document files); [parse_uuid] is the uuid crate's. *)
Class HostLibs `{Oplog} : Type := {
  doc_name_of : LoroDoc -> option string;
  parse_uuid : string -> option Uuid;
}.

Definition resolve `{HostLibs} (primary : Uuid) (candidates : list Candidate) (selector : option string)
    : result WorkspaceError Uuid :=
  match selector with
  | None => Ok primary
  | Some raw =>
      let wanted := trim raw in
      if bool_decide (wanted = "") || existsb (fun a => eq_ignore_ascii_case a wanted) HOME_ALIASES then Ok primary
      else
        match (id ← parse_uuid wanted; guard (id ∈ ca_doc_id <$> candidates) ;; Some id) with
        | Some id => Ok id
        | None =>
            let named c := match ca_name c with Some n => eq_ignore_ascii_case n wanted | None => false end in
            match base.filter (fun c => named c = true) candidates with
            | [one] => Ok (ca_doc_id one)
            | [] => Err (NotFound wanted)
            | many => Err (Ambiguous wanted (ca_doc_id <$> many))
            end
        end
  end.

(** ** The profile's secrets file *)

Record Secrets : Type := mkSecrets { sec_device_token : option string; sec_docs : gmap Uuid Dek }.

(** The profile directory: its files are the operating system's. *)
Class ProfileDir (P : Type) : Type := {
  read_secrets : P -> result string Secrets;
  write_secrets : Secrets -> P -> result string unit * P;
}.

Inductive SyncError : Type :=
  | SeStorage (e : StorageError)
  | SeBoot (e : BootError)
  | SeProfile (e : string)
  | SeEngine (what : string)
  | SeNet (e : string)
  | SeLocalOnly.

(** ** The session *)

Definition SNAPSHOT_MAX_WAL_ROWS : N := 100.
Definition SNAPSHOT_MAX_WAL_BYTES : N := (4 * 1024 * 1024)%N.

Section session.
Context `{Cipher, Oplog, Entropy, !HostLibs} {T : Type} `{LocalStorage T, HostStore T} {P : Type} `{ProfileDir P}.

Record DocState : Type := mkDocState { ds_engine : Engine T; ds_last_synced_at : option Z }.

(** [ss_store] is the connection every engine shares and [ss_drawn] the draws
    of the process: both are lent to the engine that runs. *)
Record Session : Type := mkSession {
  ss_profile : P;
  ss_server_url : option string;
  ss_primary : Uuid;
  ss_docs : gmap Uuid DocState;
  ss_store : T;
  ss_drawn : nat;
  ss_peer : PeerLease;
}.
Implicit Types (s : Session).

Definition with_docs (f : gmap Uuid DocState -> gmap Uuid DocState) s : Session :=
  mkSession (ss_profile s) (ss_server_url s) (ss_primary s) (f (ss_docs s)) (ss_store s) (ss_drawn s) (ss_peer s).
Definition with_profile (p : P) s : Session :=
  mkSession p (ss_server_url s) (ss_primary s) (ss_docs s) (ss_store s) (ss_drawn s) (ss_peer s).
Definition with_store (st : T) s : Session :=
  mkSession (ss_profile s) (ss_server_url s) (ss_primary s) (ss_docs s) st (ss_drawn s) (ss_peer s).
Definition with_drawn (n : nat) s : Session :=
  mkSession (ss_profile s) (ss_server_url s) (ss_primary s) (ss_docs s) (ss_store s) n (ss_peer s).

Definition is_local_only s : bool := bool_decide (ss_server_url s = None).

(** A [BTreeMap] iterates its keys in order. *)
Definition doc_keys s : list Uuid := merge_sort N.le (elements (dom (ss_docs s))).

Definition lend s (ds : DocState) : Engine T :=
  set_drawn (ss_drawn s) (set_storage (ss_store s) (ds_engine ds)).
Definition take_back (id : Uuid) (at_ : option Z) (e : Engine T) s : Session :=
  with_docs <[id := mkDocState e at_]> (with_store (e_storage e) (with_drawn (e_drawn e) s)).

(** One call on the engine of [id]; nothing for a document not held. *)
Definition on_engine {A} (id : Uuid) (m : E A) s : option A * Session :=
  match ss_docs s !! id with
  | None => (None, s)
  | Some ds => let r := m (lend s ds) in (Some r.1, take_back id (ds_last_synced_at ds) r.2 s)
  end.

Definition doc_for (id : Uuid) s : option SyncDoc := e_doc ∘ ds_engine <$> ss_docs s !! id.

Definition doc_ids s : list Uuid := ss_primary s :: base.filter (fun id => id <> ss_primary s) (doc_keys s).

Definition candidates s : list Candidate :=
  (fun id => mkCandidate id
     (if decide (id = ss_primary s) then None else d ← doc_for id s; doc_name_of (sd_inner d))) <$> doc_ids s.

Definition session_resolve (selector : option string) s : result WorkspaceError Uuid :=
  resolve (ss_primary s) (candidates s) selector.

(** *** Every-engine operations *)

Definition each_engine (m : E unit) s : Session :=
  foldl (fun s id => (on_engine id m s).2) s (doc_keys s).

(** [?] in the loop: the engines after a failing one are not reached. *)
Fixpoint try_engines {A} (ids : list Uuid) (m : E (result StorageError A)) s : result SyncError unit * Session :=
  match ids with
  | [] => (Ok tt, s)
  | id :: ids =>
      match on_engine id m s with
      | (Some (Err e), s) => (Err (SeStorage e), s)
      | (_, s) => try_engines ids m s
      end
  end.
Definition try_each {A} (m : E (result StorageError A)) s := try_engines (doc_keys s) m s.

Definition session_connected : Session -> Session := each_engine Engine.handle_connected.
Definition session_disconnected : Session -> Session := each_engine Engine.handle_disconnected.
Definition session_timeout : Session -> Session := each_engine Engine.handle_timeout.
Definition flush_engines : Session -> Session := each_engine Engine.flush.
Definition connect_doc (id : Uuid) s : Session := (on_engine id Engine.handle_connected s).2.

Definition engine_is_idle (e : Engine T) : bool := bool_decide (e_state e = Idle).
Definition engine_is_online (e : Engine T) : bool := negb (bool_decide (e_state e = Disconnected)).

Definition engines s : list (Engine T) := ds_engine ∘ snd <$> map_to_list (ss_docs s).
Definition all_idle s : bool := forallb engine_is_idle (engines s).
Definition engine_idle (id : Uuid) s : bool :=
  match ss_docs s !! id with Some ds => engine_is_idle (ds_engine ds) | None => false end.
Definition any_unsynced_ops s : bool := existsb engine_has_unsynced_ops (engines s).

(** The Home document is always open. *)
Definition home_online s : bool :=
  match ss_docs s !! ss_primary s with Some ds => engine_is_online (ds_engine ds) | None => false end.
Definition last_synced_at s : option Z := ds ← ss_docs s !! ss_primary s; ds_last_synced_at ds.

(** Undecodable bytes ([None]) go to Home. *)
Definition route_server_bytes (frame : option ServerFrame) s : Session :=
  let target := match frame with Some f => server_frame_doc_id f | None => ss_primary s end in
  (on_engine target (Engine.handle_server_bytes frame) s).2.

Definition session_fold s : result SyncError unit * Session :=
  try_each (Engine.snapshot_if_wal_exceeds SNAPSHOT_MAX_WAL_ROWS SNAPSHOT_MAX_WAL_BYTES) s.
Definition session_force_snapshot s : result SyncError unit * Session := try_each Engine.force_snapshot s.

(** One engine's share of [persist_engine_state]. *)
Definition persist_engine : E (T := T) (result StorageError unit) :=
  r ← capture_local_ops;
  match r with
  | Err e => mret (Err e)
  | Ok _ =>
      r ← snapshot_if_wal_exceeds SNAPSHOT_MAX_WAL_ROWS SNAPSHOT_MAX_WAL_BYTES;
      match r with
      | Err e => mret (Err e)
      | Ok _ =>
          contiguous ← get_e e_last_contiguous_seq;
          notify_oplog_durable contiguous ;; mret (Ok tt)
      end
  end.
Definition persist_engine_state s : result SyncError unit * Session := try_each persist_engine s.

(** [while let Some(ev) = e.pop_event()], document by document. *)
Definition take_events : E (T := T) (list Event) := fun e => (e_events e, set_events [] e).
Fixpoint drain_engines (ids : list Uuid) s : list (Uuid * Event) * Session :=
  match ids with
  | [] => ([], s)
  | id :: ids =>
      match on_engine id take_events s with
      | (evs, s) =>
          let r := drain_engines ids s in (((fun ev => (id, ev)) <$> default [] evs) ++ r.1, r.2)
      end
  end.
Definition drain_events s : list (Uuid * Event) * Session := drain_engines (doc_keys s) s.

Definition mark_synced (id : Uuid) (now : Z) s : result SyncError unit * Session :=
  let r := write_last_sync_at id now (ss_store s) in
  let s := with_store r.2 s in
  match r.1 with
  | Err e => (Err (SeStorage e), s)
  | Ok _ => (Ok tt, with_docs (alter (fun ds => mkDocState (ds_engine ds) (Some now)) id) s)
  end.

(** *** Opening, creating, deleting, forgetting a document *)

Definition boot_doc_state (dek : Dek) (id : Uuid) s : result SyncError DocState * Session :=
  match boot_doc (ss_store s) dek id with
  | Err e => (Err (SeBoot e), s)
  | Ok (doc, meta) =>
      match read_sync_cursor id (ss_store s) with
      | Err e => (Err (SeStorage e), s)
      | Ok cursor =>
          let e := engine_new doc id dek (bm_last_acked_server_seq meta) (ss_store s) in
          let e := (seed_boot meta (set_drawn (ss_drawn s) e)).2 in
          let r := snapshot_if_wal_exceeds SNAPSHOT_MAX_WAL_ROWS SNAPSHOT_MAX_WAL_BYTES e in
          let s := with_store (e_storage r.2) (with_drawn (e_drawn r.2) s) in
          match r.1 with
          | Err e => (Err (SeStorage e), s)
          | Ok _ => (Ok (mkDocState r.2 (cu_last_sync_at cursor)), s)
          end
      end
  end.

(** The resident open: the peer slot claimed before any document exists, then
    Home and every other document there is a key for. The socket is the host
    loop's. [server_url] and [primary] are the configuration's and the account
    row's. *)
Fixpoint boot_docs (secrets : Secrets) (ids : list Uuid) s : result SyncError unit * Session :=
  match ids with
  | [] => (Ok tt, s)
  | id :: ids =>
      match sec_docs secrets !! id with
      | None => (Err (SeProfile "missing doc key"), s)
      | Some dek =>
          match boot_doc_state dek id s with
          | (Err e, s) => (Err e, s)
          | (Ok ds, s) => boot_docs secrets ids (with_docs <[id := ds]> s)
          end
      end
  end.

Definition open_resident (profile : P) (server_url : option string) (primary : Uuid) (mint : N)
    (locked : gset N) (store : T) : result SyncError (Session * gset N) :=
  match read_secrets profile with
  | Err e => Err (SeProfile e)
  | Ok secrets =>
      let '(peer, locked, store) := claim mint locked store in
      match peer with
      | Err e => Err (SeStorage e)
      | Ok peer =>
          let others := base.filter (fun id => id <> primary)
            (merge_sort N.le (elements (dom (sec_docs secrets)))) in
          match boot_docs secrets (primary :: others)
                  (mkSession profile server_url primary ∅ store 0 peer) with
          | (Err e, _) => Err e
          | (Ok _, s) => Ok (s, locked)
          end
      end
  end.

(** [server]: what the POST answered; [dek]: the key generated; [seed]: the new
    workspace ([Doc::new_with_peer]) named [name]. *)
Definition create_doc (name : string) (dek : Dek) (seed : SyncDoc) (server : result string Uuid) s
    : result SyncError Uuid * Session :=
  if decide (trim name = "") then (Err (SeEngine "a workspace needs a name"), s)
  else if is_local_only s then (Err SeLocalOnly, s)
  else
    match read_secrets (ss_profile s) with
    | Err e => (Err (SeProfile e), s)
    | Ok secrets =>
        match sec_device_token secrets, sec_docs secrets !! ss_primary s with
        | None, _ => (Err (SeProfile "no device token"), s)
        | _, None => (Err (SeProfile "no key for the home doc"), s)
        | Some _, Some home =>
            match wrap_dek home dek (nonce_at (ss_drawn s)) with
            | Err _ => (Err (SeEngine "wrap the workspace key"), with_drawn (S (ss_drawn s)) s)
            | Ok _ =>
                let s := with_drawn (S (ss_drawn s)) s in
                match server with
                | Err e => (Err (SeNet e), s)
                | Ok id =>
                    let secrets := mkSecrets (sec_device_token secrets) (<[id := dek]> (sec_docs secrets)) in
                    let w := write_secrets secrets (ss_profile s) in
                    let s := with_profile w.2 s in
                    match w.1 with
                    | Err e => (Err (SeProfile e), s)
                    | Ok _ =>
                        let r := seed_snapshot (ss_store s) dek (nonce_at (ss_drawn s)) id seed in
                        let s := with_store r.2 (with_drawn (S (ss_drawn s)) s) in
                        match r.1 with
                        | Err e => (Err (SeBoot e), s)
                        | Ok _ =>
                            match boot_doc_state dek id s with
                            | (Err e, s) => (Err e, s)
                            | (Ok ds, s) => (Ok id, with_docs <[id := ds]> s)
                            end
                        end
                    end
                end
            end
        end
    end.

Definition forget_doc (id : Uuid) s : result SyncError unit * Session :=
  if decide (id = ss_primary s) then (Err (SeEngine "refusing to forget the Home doc"), s)
  else
    let s := with_docs (delete id) s in
    match read_secrets (ss_profile s) with
    | Err e => (Err (SeProfile e), s)
    | Ok secrets =>
        let w := write_secrets (mkSecrets (sec_device_token secrets) (delete id (sec_docs secrets))) (ss_profile s) in
        let s := with_profile w.2 s in
        match w.1 with
        | Err e => (Err (SeProfile e), s)
        | Ok _ =>
            let r := forget_rows id (ss_store s) in
            (match r.1 with Ok _ => Ok tt | Err e => Err (SeStorage e) end, with_store r.2 s)
        end
    end.

(** [server]: what the DELETE answered. *)
Definition delete_doc (id : Uuid) (server : result string unit) s : result SyncError unit * Session :=
  if decide (id = ss_primary s) then (Err (SeEngine "the Personal workspace cannot be deleted"), s)
  else
    match ss_docs s !! id, ss_server_url s with
    | None, _ => (Err (SeEngine "no open workspace"), s)
    | _, None => (Err SeLocalOnly, s)
    | Some _, Some _ =>
        match read_secrets (ss_profile s) with
        | Err e => (Err (SeProfile e), s)
        | Ok secrets =>
            match sec_device_token secrets, server with
            | None, _ => (Err (SeProfile "no device token"), s)
            | _, Err e => (Err (SeNet e), s)
            | Some _, Ok _ => forget_doc id s
            end
        end
    end.
End session.
Arguments DocState {_} _.
Arguments Session {_} _ _.
