(* ===== verification/Host.v ===== *)
(** The resident host (cli/src/daemon.rs): one loop over the socket, the
    clients' commands and the timers. It owns the session, reconnects with a
    capped backoff, persists, and keeps in-process mirrors of its documents in
    step. A handler is a function of the host; the effects it cannot decide
    (what the network answers, how many frames a socket still takes, the time,
    the jitter) come with the input. The watch stream and the published status
    are left out: nothing here reads them. *)
From S2P Require Import Prelude.
From S2P Require Import Wire.
From S2P Require Import Crypto.
From S2P Require Import Registers.
From S2P Require Import Tables.
From S2P Require Import Storage.
From S2P Require Import SyncDoc.
From S2P Require Import Engine.
From S2P Require Import HostStore.
From S2P Require Import HostSession.

(** ** A document and its mirror *)

Section mirror.
Context `{Oplog}.
Implicit Types (d : SyncDoc).

(** Empty when [from] already covers the oplog. *)
Definition export_updates_after (from : VV) d : result DocError octets :=
  if vv_includes from (doc_oplog_vv d) then Ok [] else loro (export_updates from (sd_inner d)).
Definition export_snapshot_bytes d : result DocError octets := loro (export_snapshot (sd_inner d)).

(** A mirror's operations are local work here: the capture cursor stays. *)
Definition import_mirror_update (bytes : octets) d : result DocError VV * SyncDoc :=
  match loro (blob_end_vv bytes) with
  | Err e => (Err e, d)
  | Ok partial_end_vv =>
      match loro (import_with bytes (sd_inner d)) with
      | Err e => (Err e, d)
      | Ok inner => (Ok partial_end_vv, mkSyncDoc inner (sd_last_persisted_vv d))
      end
  end.

Definition import_host_update (bytes : octets) d : result DocError VV * SyncDoc :=
  match loro (blob_end_vv bytes) with
  | Err e => (Err e, d)
  | Ok partial_end_vv =>
      match loro (import_with bytes (sd_inner d)) with
      | Err e => (Err e, d)
      | Ok inner => (Ok partial_end_vv, mkSyncDoc inner (vv_merge (sd_last_persisted_vv d) partial_end_vv))
      end
  end.
End mirror.

(** ** State *)

(** [sk_room]: how many more sends succeed before the connection is lost. *)
Record Socket : Type := mkSocket { sk_sent : list ClientFrame; sk_room : option N }.

Record SyncStatus : Type := mkStatus {
  sy_online : bool;
  sy_last_synced_at : option Z;
  sy_offline_reason : option string;
  sy_local_only : bool;
  sy_pending : bool;
}.

(** What a mirror's sink was given, in order, and whether it heard the end. *)
Record Sink : Type := mkSink { si_updates : list octets; si_stopped : bool }.

Definition BACKOFF_MIN : N := 500.
Definition BACKOFF_MAX : N := 30000.
Definition HANDSHAKE_TIMEOUT : Z := 10000.

Section host.
Context `{Cipher, Oplog, Entropy, !HostLibs} {T : Type} `{LocalStorage T, HostStore T} {P : Type} `{ProfileDir P}.
Implicit Types (s : Session T P).

Record Subscriber : Type := mkSubscriber { su_doc_id : Uuid; su_last_sent : VV; su_lease : PeerLease }.

(** [h_sinks] outlive their subscriptions; [h_locked] are the slots whose lock
    files are held, by this process or another; [h_synced] the answers given
    to parked and immediate [Sync] requests. Times are in milliseconds. *)
Record Host : Type := mkHost {
  h_session : Session T P;
  h_subscribers : gmap N Subscriber;
  h_next_subscriber : N;
  h_sinks : gmap N Sink;
  h_locked : gset N;
  h_ws : option Socket;
  h_backoff : N;
  h_next_connect : Z;
  h_connected_at : option Z;
  h_awaiting_pong : bool;
  h_connecting : bool;
  h_pending_syncs : list N;
  h_synced : list (N * SyncStatus);
  h_offline_reason : option string;
  h_now : Z;
  h_jitter : N;
}.
Implicit Types (h : Host).

Definition set_session (v : Session T P) h : Host :=
  mkHost v (h_subscribers h) (h_next_subscriber h) (h_sinks h) (h_locked h) (h_ws h) (h_backoff h)
    (h_next_connect h) (h_connected_at h) (h_awaiting_pong h) (h_connecting h) (h_pending_syncs h)
    (h_synced h) (h_offline_reason h) (h_now h) (h_jitter h).
Definition set_mirrors (subs : gmap N Subscriber) (next : N) (sinks : gmap N Sink) (locked : gset N) h : Host :=
  mkHost (h_session h) subs next sinks locked (h_ws h) (h_backoff h)
    (h_next_connect h) (h_connected_at h) (h_awaiting_pong h) (h_connecting h) (h_pending_syncs h)
    (h_synced h) (h_offline_reason h) (h_now h) (h_jitter h).
Definition set_ws (v : option Socket) h : Host :=
  mkHost (h_session h) (h_subscribers h) (h_next_subscriber h) (h_sinks h) (h_locked h) v (h_backoff h)
    (h_next_connect h) (h_connected_at h) (h_awaiting_pong h) (h_connecting h) (h_pending_syncs h)
    (h_synced h) (h_offline_reason h) (h_now h) (h_jitter h).
Definition set_backoff (backoff : N) (next : Z) h : Host :=
  mkHost (h_session h) (h_subscribers h) (h_next_subscriber h) (h_sinks h) (h_locked h) (h_ws h) backoff
    next (h_connected_at h) (h_awaiting_pong h) (h_connecting h) (h_pending_syncs h)
    (h_synced h) (h_offline_reason h) (h_now h) (h_jitter h).
Definition set_link (connected_at : option Z) (awaiting_pong : bool) h : Host :=
  mkHost (h_session h) (h_subscribers h) (h_next_subscriber h) (h_sinks h) (h_locked h) (h_ws h) (h_backoff h)
    (h_next_connect h) connected_at awaiting_pong (h_connecting h) (h_pending_syncs h)
    (h_synced h) (h_offline_reason h) (h_now h) (h_jitter h).
Definition set_connecting (v : bool) h : Host :=
  mkHost (h_session h) (h_subscribers h) (h_next_subscriber h) (h_sinks h) (h_locked h) (h_ws h) (h_backoff h)
    (h_next_connect h) (h_connected_at h) (h_awaiting_pong h) v (h_pending_syncs h)
    (h_synced h) (h_offline_reason h) (h_now h) (h_jitter h).
Definition set_syncs (pending : list N) (synced : list (N * SyncStatus)) h : Host :=
  mkHost (h_session h) (h_subscribers h) (h_next_subscriber h) (h_sinks h) (h_locked h) (h_ws h) (h_backoff h)
    (h_next_connect h) (h_connected_at h) (h_awaiting_pong h) (h_connecting h) pending
    synced (h_offline_reason h) (h_now h) (h_jitter h).
Definition set_offline_reason (v : option string) h : Host :=
  mkHost (h_session h) (h_subscribers h) (h_next_subscriber h) (h_sinks h) (h_locked h) (h_ws h) (h_backoff h)
    (h_next_connect h) (h_connected_at h) (h_awaiting_pong h) (h_connecting h) (h_pending_syncs h)
    (h_synced h) v (h_now h) (h_jitter h).
Definition set_time (now : Z) (jitter : N) h : Host :=
  mkHost (h_session h) (h_subscribers h) (h_next_subscriber h) (h_sinks h) (h_locked h) (h_ws h) (h_backoff h)
    (h_next_connect h) (h_connected_at h) (h_awaiting_pong h) (h_connecting h) (h_pending_syncs h)
    (h_synced h) (h_offline_reason h) now jitter.

Definition map_session (f : Session T P -> Session T P) h : Host := set_session (f (h_session h)) h.
Definition host_local_only h : bool := is_local_only (h_session h).
Definition ws_up h : bool := bool_decide (is_Some (h_ws h)).

(** A fallible call on the session: its error is the loop's. *)
Definition run_session {A} (f : Session T P -> result SyncError A * Session T P) h : result SyncError A * Host :=
  let r := f (h_session h) in (r.1, set_session r.2 h).

(** ** Status *)

Definition is_online h : bool := ws_up h && home_online (h_session h).
Definition has_pending_work h : bool :=
  any_unsynced_ops (h_session h) || (ws_up h && negb (all_idle (h_session h))).
Definition sync_status (online : bool) h : SyncStatus :=
  mkStatus online (last_synced_at (h_session h)) (h_offline_reason h) (host_local_only h) (has_pending_work h).

Definition resolve_pending_syncs (online : bool) h : Host :=
  let sync := sync_status online h in
  set_syncs [] (h_synced h ++ ((fun tx => (tx, sync)) <$> h_pending_syncs h)) h.
Definition answer_sync (tx : N) h : Host :=
  set_syncs (h_pending_syncs h) (h_synced h ++ [(tx, sync_status (is_online h) h)]) h.

(** ** The socket *)

Definition schedule_reconnect (reason : string) h : Host :=
  let h := set_offline_reason (Some reason) h in
  set_backoff (N.min (h_backoff h * 2) BACKOFF_MAX)
    (h_now h + Z.of_N (h_backoff h) + Z.of_N (h_jitter h mod 250))%Z h.

Definition drop_socket (reason : string) h : Host :=
  let h := resolve_pending_syncs false (set_ws None h) in
  schedule_reconnect reason (set_link None false h).

(** Host-initiated: the engines are told. *)
Definition disconnect (reason : string) h : Host := drop_socket reason (map_session session_disconnected h).

Definition send_raw (sk : Socket) : option Socket :=
  match sk_room sk with
  | Some 0%N => None
  | room => Some (mkSocket (sk_sent sk) (N.pred <$> room))
  end.

(** [while let Some(bytes) = engine.pop_outbox()]: the frames left after a send
    that fails; the failing one is gone. *)
Fixpoint send_frames (fs : list ClientFrame) (sk : Socket) : bool * list ClientFrame * Socket :=
  match fs with
  | [] => (true, [], sk)
  | f :: fs =>
      match send_raw sk with
      | None => (false, fs, sk)
      | Some sk => send_frames fs (mkSocket (sk_sent sk ++ [f]) (sk_room sk))
      end
  end.

Definition take_outbox : E (T := T) (list ClientFrame) := get_e e_outbox.
Definition leave_outbox (fs : list ClientFrame) : E (T := T) unit := modify_e (set_outbox fs).

Fixpoint send_engines (ids : list Uuid) (sk : Socket) s : bool * Socket * Session T P :=
  match ids with
  | [] => (true, sk, s)
  | id :: ids =>
      let r := on_engine id take_outbox s in
      match send_frames (default [] r.1) sk with
      | (true, rest, sk) => send_engines ids sk (on_engine id (leave_outbox rest) r.2).2
      | (false, rest, sk) => (false, sk, (on_engine id (leave_outbox rest) r.2).2)
      end
  end.
Definition send_outboxes (sk : Socket) s := send_engines (doc_keys s) sk s.

(** ** Mirrors *)

(** What one subscriber is owed; [None]: its document is gone. *)
Definition offer s (sub : Subscriber) : option (Subscriber * list octets) :=
  match doc_for (su_doc_id sub) s with
  | None => None
  | Some doc =>
      let now := doc_oplog_vv doc in
      if vv_includes (su_last_sent sub) now then Some (sub, [])
      else
        match export_updates_after (su_last_sent sub) doc with
        | Ok bytes =>
            Some (mkSubscriber (su_doc_id sub) now (su_lease sub), if decide (bytes = []) then [] else [bytes])
        | Err _ => Some (sub, [])
        end
  end.

(** The subscribers do not depend on each other, so their order is free. *)
Definition fan_out h : Host :=
  let s := h_session h in
  let closed := base.filter (fun kv : N * Subscriber => offer s kv.2 = None) (h_subscribers h) in
  set_mirrors
    (omap (fun sub => fst <$> offer s sub) (h_subscribers h))
    (h_next_subscriber h)
    (map_imap (fun id sink =>
       Some (match h_subscribers h !! id with
             | None => sink
             | Some sub =>
                 match offer s sub with
                 | None => mkSink (si_updates sink) true
                 | Some (_, bs) => mkSink (si_updates sink ++ bs) (si_stopped sink)
                 end
             end)) (h_sinks h))
    (h_locked h ∖ list_to_set (ls_slot ∘ su_lease ∘ snd <$> map_to_list closed)) h.

(** ** The pump *)

(** One drained event; the closed documents to forget are collected. *)
Definition on_event (x : Host * list Uuid) (tagged : Uuid * Event) : Host * list Uuid :=
  let '(h, forget) := x in
  let '(id, event) := tagged in
  let home := ss_primary (h_session h) in
  let stamp h := (run_session (mark_synced id (h_now h)) h).2 in
  match event with
  | EvConnStateChanged _ => (h, forget)
  | EvPulledInitial =>
      let h := stamp h in
      if decide (id = home /\ h_pending_syncs h <> []) then
        (resolve_pending_syncs true (map_session flush_engines h), forget)
      else (h, forget)
  | EvPushed => (stamp h, forget)
  | EvFrontierAdvanced _ => (if engine_idle id (h_session h) then stamp h else h, forget)
  | EvPresence _ => (h, forget)
  | EvError msg => (disconnect ("engine error: " +:+ msg) h, forget)
  | EvDocClosed reason =>
      if decide (id = home) then (disconnect ("doc closed: " +:+ reason) h, forget) else (h, forget ++ [id])
  end.

Definition forget_one h (id : Uuid) : Host := (run_session (forget_doc id) h).2.

Definition act_on_events h : Host :=
  let r := drain_events (h_session h) in
  let '(h, forget) := foldl on_event (set_session r.2 h, []) r.1 in
  let h := if ws_up h && negb (home_online (h_session h)) then drop_socket "engine disconnected" h else h in
  let h := foldl forget_one h forget in
  if decide (forget = []) then h else fan_out h.

Definition pump h : Host :=
  match h_ws h with
  | None => act_on_events h
  | Some sk =>
      match send_outboxes sk (h_session h) with
      | (false, sk, s) => disconnect "send failed" (set_ws (Some sk) (set_session s h))
      | (true, sk, s) => act_on_events (set_ws (Some sk) (set_session s h))
      end
  end.

(** ** Inputs *)

Inductive WsMessage : Type :=
  | WsBinary (frame : option ServerFrame)
  | WsPong
  | WsPing
  | WsClosed
  | WsOther
  | WsError.

(** [InDoc]: a client's command, by the Loro state it leaves its document in.
    [InSubscribe]: [mint] is the peer id drawn should the slot need one.
    [InCreate] and [InDelete] carry what the server answers, and the new
    workspace's key and seed. *)
Inductive HostInput : Type :=
  | InConnectDue
  | InConnectResult (r : result string Socket)
  | InWs (m : WsMessage)
  | InSubscribe (workspace : option string) (mint : N)
  | InImport (id : N) (bytes : octets)
  | InUnsubscribe (id : N)
  | InDoc (workspace : option string) (edit : LoroDoc -> LoroDoc)
  | InSync (reply : N)
  | InReconnect
  | InCreate (name : string) (dek : Dek) (seed : SyncDoc) (server : result string Uuid)
  | InDelete (workspace : string) (server : result string unit)
  | InPersistTick
  | InPingTick.

(** ** The handlers *)

(** [MirrorError]: the loop goes on. *)
Inductive MirrorError : Type := Stopped | Failed (what : string).

Record Seed : Type := mkSeed { sd_id : N; sd_doc_id : Uuid; sd_peer_id : N; sd_snapshot : octets }.

Definition on_connect_due h : Host := if host_local_only h then h else set_connecting true h.

Definition on_connect_result (r : result string Socket) h : Host :=
  let h := set_connecting false h in
  match r with
  | Ok ws =>
      let h := set_backoff BACKOFF_MIN (h_next_connect h) (set_ws (Some ws) h) in
      let h := set_link (Some (h_now h)) false h in
      pump (set_offline_reason None (map_session session_connected h))
  | Err e => schedule_reconnect ("connect failed: " +:+ e) (resolve_pending_syncs false h)
  end.

Definition on_ws_message (m : WsMessage) h : Host :=
  match m with
  | WsBinary frame =>
      let h := map_session (route_server_bytes frame) h in
      match run_session persist_engine_state h with
      | (Err _, h) => disconnect "persist after frame" h
      | (Ok _, h) => fan_out (pump h)
      end
  | WsPong => set_link (h_connected_at h) false h
  | WsPing => h
  | WsClosed => disconnect "server closed" h
  | WsOther => disconnect "unexpected frame" h
  | WsError => disconnect "socket error" h
  end.

Definition on_subscribe (workspace : option string) (mint : N) h : result MirrorError Seed * Host :=
  match session_resolve workspace (h_session h) with
  | Err _ => (Err (Failed "workspace"), h)
  | Ok id =>
      let '(r, locked, st) := claim mint (h_locked h) (ss_store (h_session h)) in
      let h := map_session (with_store st) h in
      match r with
      | Err _ => (Err (Failed "peer lease"), h)
      | Ok lease =>
          match doc_for id (h_session h) with
          | None => (Err (Failed "resolved against open docs"), h)
          | Some doc =>
              match export_snapshot_bytes doc with
              | Err _ => (Err (Failed "snapshot"), h)
              | Ok snapshot =>
                  let n := h_next_subscriber h in
                  (Ok (mkSeed n id (ls_peer_id lease) snapshot),
                   set_mirrors (<[n := mkSubscriber id (doc_oplog_vv doc) lease]> (h_subscribers h)) (n + 1)
                     (<[n := mkSink [] false]> (h_sinks h)) locked h)
              end
          end
      end
  end.

Definition set_engine_doc (d : SyncDoc) : E (T := T) unit := modify_e (set_doc d).

(** Durable, on the wire, and to the other mirrors. *)
Definition settle h : result SyncError unit * Host :=
  match run_session persist_engine_state h with
  | (Err e, h) => (Err e, h)
  | (Ok _, h) => (Ok tt, fan_out (pump (map_session flush_engines h)))
  end.

Definition on_import (id : N) (bytes : octets) h : result SyncError (result MirrorError unit) * Host :=
  match h_subscribers h !! id with
  | None => (Ok (Err (Failed "unknown subscription")), h)
  | Some sub =>
      match doc_for (su_doc_id sub) (h_session h) with
      | None => (Ok (Err (Failed "the doc has been closed")), h)
      | Some doc =>
          match import_mirror_update bytes doc with
          | (Err _, doc) => (Ok (Err (Failed "import")), map_session (fun s => (on_engine (su_doc_id sub) (set_engine_doc doc) s).2) h)
          | (Ok imported, doc) =>
              let h := map_session (fun s => (on_engine (su_doc_id sub) (set_engine_doc doc) s).2) h in
              let sub := mkSubscriber (su_doc_id sub) (vv_merge (su_last_sent sub) imported) (su_lease sub) in
              let h := set_mirrors (<[id := sub]> (h_subscribers h)) (h_next_subscriber h) (h_sinks h) (h_locked h) h in
              match settle h with
              | (Err e, h) => (Err e, h)
              | (Ok _, h) => (Ok (Ok tt), h)
              end
          end
      end
  end.

(** The lease goes with the record; the sink hears nothing more. *)
Definition on_unsubscribe (id : N) h : Host :=
  set_mirrors (delete id (h_subscribers h)) (h_next_subscriber h) (h_sinks h)
    (match h_subscribers h !! id with
     | Some sub => h_locked h ∖ {[ls_slot (su_lease sub)]}
     | None => h_locked h
     end) h.

Definition on_doc (workspace : option string) (edit : LoroDoc -> LoroDoc) h : result SyncError unit * Host :=
  match session_resolve workspace (h_session h) with
  | Err _ => (Ok tt, h)
  | Ok id =>
      let run := modify_e (fun e => set_doc (mkSyncDoc (edit (sd_inner (e_doc e))) (sd_last_persisted_vv (e_doc e))) e) in
      settle (map_session (fun s => (on_engine id run s).2) h)
  end.

Definition on_sync (reply : N) h : result SyncError unit * Host :=
  match run_session persist_engine_state h with
  | (Err e, h) => (Err e, h)
  | (Ok _, h) =>
      (Ok tt,
       if host_local_only h then answer_sync reply h
       else if ws_up h && all_idle (h_session h) then
         answer_sync reply (pump (map_session flush_engines h))
       else
         let h := set_syncs (h_pending_syncs h ++ [reply]) (h_synced h) h in
         if negb (ws_up h) && negb (h_connecting h) then set_backoff (h_backoff h) (h_now h) h else h)
  end.

Definition on_reconnect h : Host :=
  if host_local_only h then h
  else
    let h := set_backoff BACKOFF_MIN (h_next_connect h) h in
    if ws_up h then disconnect "network changed" h
    else if h_connecting h then h else set_backoff (h_backoff h) (h_now h) h.

Definition on_create (name : string) (dek : Dek) (seed : SyncDoc) (server : result string Uuid) h
    : result SyncError unit * Host :=
  if host_local_only h then (Ok tt, h)
  else
    match run_session (create_doc name dek seed server) h with
    | (Err _, h) => (Ok tt, h)
    | (Ok id, h) => settle (if ws_up h then map_session (connect_doc id) h else h)
    end.

Definition on_delete (workspace : string) (server : result string unit) h : Host :=
  match session_resolve (Some workspace) (h_session h) with
  | Err _ => h
  | Ok id =>
      match run_session (delete_doc id server) h with
      | (Ok _, h) => fan_out h
      | (Err _, h) => h
      end
  end.

Definition on_persist_tick h : result SyncError unit * Host :=
  match run_session persist_engine_state h with
  | (Err e, h) => (Err e, h)
  | (Ok _, h) =>
      match run_session session_fold h with
      | (Err e, h) => (Err e, h)
      | (Ok _, h) =>
          let h := fan_out h in
          (Ok tt,
           if ws_up h then
             let late := match h_connected_at h with Some at_ => (HANDSHAKE_TIMEOUT <? h_now h - at_)%Z | None => false end in
             let h := if late then map_session session_timeout h else h in
             pump (map_session flush_engines h)
           else h)
      end
  end.

Definition on_ping_tick h : Host :=
  if h_awaiting_pong h then disconnect "pong timeout" h
  else
    match h_ws h with
    | None => h
    | Some sk =>
        match send_raw sk with
        | Some sk => set_link (h_connected_at h) true (set_ws (Some sk) h)
        | None => disconnect "ping failed" h
        end
    end.

(** ** The loop *)

(** The arms' guards. *)
Definition enabled (i : HostInput) h : bool :=
  match i with
  | InConnectDue => negb (ws_up h) && negb (h_connecting h) && negb (host_local_only h) && (h_next_connect h <=? h_now h)%Z
  | InConnectResult _ => h_connecting h
  | InWs _ | InPingTick => ws_up h
  | _ => true
  end.

(** An error ends the loop. *)
Definition host_step (i : HostInput) h : result SyncError unit * Host :=
  match i with
  | InConnectDue => (Ok tt, on_connect_due h)
  | InConnectResult r => (Ok tt, on_connect_result r h)
  | InWs m => (Ok tt, on_ws_message m h)
  | InSubscribe workspace mint => (Ok tt, (on_subscribe workspace mint h).2)
  | InImport id bytes =>
      match on_import id bytes h with (Ok _, h) => (Ok tt, h) | (Err e, h) => (Err e, h) end
  | InUnsubscribe id => (Ok tt, on_unsubscribe id h)
  | InDoc workspace edit => on_doc workspace edit h
  | InSync reply => on_sync reply h
  | InReconnect => (Ok tt, on_reconnect h)
  | InCreate name dek seed server => on_create name dek seed server h
  | InDelete workspace server => (Ok tt, on_delete workspace server h)
  | InPersistTick => on_persist_tick h
  | InPingTick => (Ok tt, on_ping_tick h)
  end.

Definition host_new s (locked : gset N) (now : Z) : Host :=
  mkHost s ∅ 0 ∅ locked None BACKOFF_MIN now None false false [] [] None now 0.

(** The clean exit: the mirrors hear the end, everything is made durable. *)
Definition host_exit h : result SyncError unit * Host :=
  let h := set_mirrors ∅ (h_next_subscriber h)
    (map_imap (fun id sink => Some (mkSink (si_updates sink)
       (si_stopped sink || bool_decide (is_Some (h_subscribers h !! id))))) (h_sinks h)) (h_locked h) h in
  match run_session persist_engine_state h with
  | (Err e, h) => (Err e, h)
  | (Ok _, h) => match run_session session_force_snapshot h with
                 | (Err e, h) => (Err e, h)
                 | (Ok _, h) => (Ok tt, set_ws None h)
                 end
  end.

(** A run of the loop: enabled inputs, each at its time. *)
Inductive reaches (h0 : Host) : Host -> Prop :=
  | reaches_start : reaches h0 h0
  | reaches_step h now jitter i h' :
      reaches h0 h -> enabled i (set_time now jitter h) = true ->
      host_step i (set_time now jitter h) = (Ok tt, h') -> reaches h0 h'.
End host.
Arguments Subscriber {_}.
Arguments Host {_} _ _.
