(* ===== verification/HostFacts.v ===== *)
(** What an engine tells its host about the connection: an engine that leaves
    the connected states on its own queues an [Error] or a [DocClosed] first,
    and one at rest stays at rest until it is connected. And which operations
    leave the document's operations as they are.

    The host's connection: in every run of the loop the engines agree with the
    socket. Without one no engine believes itself connected, so the next
    connect opens every document from rest; with one Home is online. And the
    reconnect delay stays within its bounds. *)
From S2P Require Import Prelude.
From S2P Require Import Wire.
From S2P Require Import Crypto.
From S2P Require Import Registers.
From S2P Require Import Tables.
From S2P Require Import Storage.
From S2P Require Import SyncDoc.
From S2P Require Import Instances.
From S2P Require Import Engine.
From S2P Require Import EngineFacts.
From S2P Require Import HostStore.
From S2P Require Import HostSession.
From S2P Require Import Host.

Definition fatal (ev : Event) : bool :=
  match ev with EvError _ | EvDocClosed _ => true | _ => false end.

Section link.
Context `{Cipher, Oplog, Entropy} {T : Type} `{LocalStorage T}.
Implicit Types (e : Engine T).

Definition off e : Prop := e_state e = Disconnected.
Definition online e : Prop := e_state e <> Disconnected.
Definition warned e : Prop := existsb fatal (e_events e) = true.
Definition told e : Prop := off e -> warned e.

Lemma warned_told e : warned e -> told e.
Proof. by intros Hw _. Qed.
Lemma online_told e : online e -> told e.
Proof. by intros Ho Hoff. Qed.

(** ** Operations that leave the state alone and only append events *)

Definition blind (I : Engine T -> Prop) : Prop := forall e e' evs,
  e_state e' = e_state e -> e_events e' = e_events e ++ evs -> I e -> I e'.

Lemma blind_off : blind off.
Proof. intros e e' evs Hs _. unfold off. congruence. Qed.
Lemma blind_online : blind online.
Proof. intros e e' evs Hs _. unfold online. congruence. Qed.
Lemma blind_warned : blind warned.
Proof. unfold warned. intros e e' evs _ -> He. by rewrite existsb_app, He. Qed.
Lemma blind_told : blind told.
Proof. intros e e' evs Hs He Ht Ho. eapply blind_warned; [done|done|]. apply Ht. unfold off in *. congruence. Qed.

Section blind.
Variables (I : Engine T -> Prop) (HI : blind I).

Ltac quiet := intros e He; apply (HI e _ []); cbn; rewrite ?app_nil_r; done.
Lemma blind_emit ev : keeps I (emit (T := T) ev).
Proof. intros e He. by apply (HI e _ [ev]). Qed.
Lemma blind_error w : keeps I (error (T := T) w).
Proof. apply blind_emit. Qed.
Lemma blind_draw {A} (f : nat -> A) : keeps I (draw (T := T) f).
Proof. quiet. Qed.
Lemma blind_stored {A} (f : Uuid -> call T A) : keeps I (stored f).
Proof. quiet. Qed.
Lemma blind_encode f : keeps I (encode_into_outbox (T := T) f).
Proof. quiet. Qed.
Lemma blind_modify f : (forall e, e_state (f e) = e_state e /\ e_events (f e) = e_events e) ->
  keeps I (modify_e (T := T) f).
Proof. intros Hf e He. destruct (Hf e) as [E1 E2]. apply (HI e _ []); cbn; rewrite ?app_nil_r; done. Qed.
#[local] Hint Resolve blind_emit blind_error blind_draw blind_stored blind_encode : keeps.
#[local] Hint Extern 1 (keeps _ (modify_e _)) => (apply blind_modify; done) : keeps.

Lemma blind_capture : keeps I (capture_local_ops (T := T)).
Proof. unfold capture_local_ops. keep. Qed.
#[local] Hint Resolve blind_capture : keeps.
Lemma blind_fold rows bytes : keeps I (snapshot_if_wal_exceeds (T := T) rows bytes).
Proof. unfold snapshot_if_wal_exceeds, write_local_snapshot. keep. Qed.
Lemma blind_notify n : keeps I (notify_oplog_durable (T := T) n).
Proof. unfold notify_oplog_durable, queue_ack_if_advanced. keep. Qed.
Lemma blind_push_record : keeps I (start_push_record (T := T)).
Proof. unfold start_push_record. keep. Qed.
Lemma blind_apply updates : keeps I (apply_remote_updates (T := T) updates).
Proof.
  unfold apply_remote_updates, log_remote, ingest_seq, announce_frontier. keep; apply keeps_efor; intros; keep.
Qed.
Lemma blind_raise n : keeps I (raise_frontier (T := T) n).
Proof. unfold raise_frontier. keep. Qed.
Lemma blind_produce base : keeps I (produce_snapshot (T := T) base).
Proof. unfold produce_snapshot. keep. Qed.
Lemma blind_request floor base : keeps I (handle_snapshot_request (T := T) floor base).
Proof. unfold handle_snapshot_request. apply keeps_bind; [apply blind_produce|]. intros a. keep. Qed.
End blind.
Create HintDb blind.
#[local] Hint Resolve blind_off blind_online blind_warned blind_told : blind.
Ltac by_blind lem := apply lem; [solve [auto with blind]|done..].
#[local] Hint Extern 1 (keeps _ (emit _)) => (apply blind_emit; solve [auto with blind]) : keeps.
#[local] Hint Extern 1 (keeps _ (error _)) => (apply blind_error; solve [auto with blind]) : keeps.
#[local] Hint Extern 1 (keeps _ (draw _)) => (apply blind_draw; solve [auto with blind]) : keeps.
#[local] Hint Extern 1 (keeps _ (stored _)) => (apply blind_stored; solve [auto with blind]) : keeps.
#[local] Hint Extern 1 (keeps _ (encode_into_outbox _)) => (apply blind_encode; solve [auto with blind]) : keeps.
#[local] Hint Extern 1 (keeps _ capture_local_ops) => (apply blind_capture; solve [auto with blind]) : keeps.
#[local] Hint Extern 1 (keeps _ (snapshot_if_wal_exceeds _ _)) => (apply blind_fold; solve [auto with blind]) : keeps.
#[local] Hint Extern 1 (keeps _ (notify_oplog_durable _)) => (apply blind_notify; solve [auto with blind]) : keeps.
#[local] Hint Extern 1 (keeps _ start_push_record) => (apply blind_push_record; solve [auto with blind]) : keeps.
#[local] Hint Extern 1 (keeps _ (apply_remote_updates _)) => (apply blind_apply; solve [auto with blind]) : keeps.
#[local] Hint Extern 1 (keeps _ (raise_frontier _)) => (apply blind_raise; solve [auto with blind]) : keeps.
#[local] Hint Extern 1 (keeps _ (handle_snapshot_request _ _)) => (apply blind_request; solve [auto with blind]) : keeps.
#[local] Hint Extern 1 (keeps _ (modify_e _)) => by_blind blind_modify : keeps.

(** ** At rest *)

Lemma off_flush : keeps off (flush (T := T)).
Proof. apply leads_get. intros st e [He Hs]. by rewrite <- Hs, He. Qed.
Lemma off_disconnected : keeps off (handle_disconnected (T := T)).
Proof. apply leads_get. intros st e [He Hs]. case_decide; [done|]. by rewrite <- Hs in *. Qed.
Lemma off_timeout : keeps off (handle_timeout (T := T)).
Proof. unfold handle_timeout. keep. Qed.
Lemma off_frame frame : keeps off (handle_server_bytes (T := T) frame).
Proof.
  apply leads_get. intros st e [He Hs]. case_decide as Hd; [|by rewrite <- Hs in *].
  revert He. apply (blind_error off blind_off).
Qed.
Lemma leads_disconnected I : leads I (handle_disconnected (T := T)) off.
Proof. apply leads_get. intros st e [He Hs]. by case_decide as Hd; [rewrite <- Hs in Hd|]. Qed.

(** ** Going offline by itself *)

Lemma warned_go s : keeps warned (go (T := T) s).
Proof. by intros e He. Qed.
Lemma warned_disconnect : keeps warned (go_disconnected (T := T)).
Proof.
  intros e He. change (existsb fatal (e_events e ++ [EvConnStateChanged false]) = true).
  by rewrite existsb_app, (He : existsb _ _ = true).
Qed.
Lemma told_go s : s <> Disconnected -> keeps told (go (T := T) s).
Proof. intros Hs e He Ho. by unfold off in Ho. Qed.
Lemma online_go s : s <> Disconnected -> keeps online (go (T := T) s).
Proof. by intros Hs e He. Qed.
#[local] Hint Resolve warned_go warned_disconnect : keeps.
#[local] Hint Extern 1 (keeps _ (go _)) => (apply told_go; discriminate) : keeps.
#[local] Hint Extern 1 (keeps _ (go _)) => (apply online_go; discriminate) : keeps.

(** The warning before the state change. *)
Lemma told_then_disconnect w : keeps told (error w ;; go_disconnected (T := T)).
Proof.
  intros e He. apply warned_told, warned_disconnect. 
  change (existsb fatal (e_events e ++ [EvError w]) = true). rewrite existsb_app. by rewrite orb_true_r.
Qed.
Lemma told_gone reason : keeps told (handle_doc_gone (T := T) reason).
Proof.
  intros e He. apply warned_told, warned_disconnect. 
  change (existsb fatal (e_events e ++ [EvDocClosed reason]) = true). rewrite existsb_app. by rewrite orb_true_r.
Qed.
#[local] Hint Resolve told_then_disconnect told_gone : keeps.

Lemma told_send f w : keeps told (send_or_disconnect (T := T) f w).
Proof. unfold send_or_disconnect. keep. Qed.
#[local] Hint Resolve told_send : keeps.
Lemma told_push : keeps told (try_start_push (T := T)).
Proof. unfold try_start_push. keep. destruct a1, a2; keep. Qed.
Lemma online_push : keeps online (try_start_push (T := T)).
Proof. unfold try_start_push. keep. destruct a1, a2; keep. Qed.
#[local] Hint Resolve told_push online_push : keeps.

Lemma told_flush : keeps told (flush (T := T)).
Proof. unfold flush. keep. Qed.
Lemma online_flush : keeps online (flush (T := T)).
Proof. unfold flush. keep. Qed.
Lemma told_timeout : keeps told (handle_timeout (T := T)).
Proof. unfold handle_timeout. keep. Qed.
Lemma told_connected : keeps told (handle_connected (T := T)).
Proof. unfold handle_connected. keep. Qed.
Lemma leads_connected I : leads I (handle_connected (T := T)) online.
Proof.
  apply leads_get. intros st e [He Hs]. case_decide as Hd; [|by unfold online; cbn].
  unfold online. cbn. by rewrite Hs.
Qed.

#[local] Hint Resolve told_flush told_timeout told_connected : keeps.
Lemma told_pull : keeps told (pull (T := T)).
Proof. unfold pull. keep. Qed.
#[local] Hint Resolve told_pull : keeps.
Lemma told_batch updates complete : keeps told (handle_updates_batch (T := T) updates complete).
Proof. unfold handle_updates_batch. keep. Qed.
Lemma told_broadcast updates : keeps told (handle_updates_broadcast (T := T) updates).
Proof. unfold handle_updates_broadcast. keep. Qed.
Lemma told_ingest n : keeps told (ingest_seq (T := T) n).
Proof. unfold ingest_seq. keep. Qed.
Lemma told_announce n : keeps told (announce_frontier (T := T) n).
Proof. unfold announce_frontier. keep. Qed.
#[local] Hint Resolve told_batch told_broadcast told_ingest told_announce : keeps.
Lemma told_ack acks : keeps told (handle_updates_ack (T := T) acks).
Proof. unfold handle_updates_ack. keep. Qed.
Lemma told_bootstrap n : keeps told (finish_bootstrap (T := T) n).
Proof. unfold finish_bootstrap. keep. Qed.
#[local] Hint Resolve told_ack told_bootstrap : keeps.
Lemma told_snapshot n b complete : keeps told (handle_snapshot (T := T) n b complete).
Proof. unfold handle_snapshot. keep. Qed.
Lemma told_required : keeps told (handle_snapshot_required (T := T)).
Proof. unfold handle_snapshot_required. keep. Qed.
Lemma told_opened n : keeps told (handle_doc_opened (T := T) n).
Proof. unfold handle_doc_opened. keep. Qed.
#[local] Hint Resolve told_snapshot told_required told_opened : keeps.

Lemma told_frame frame : keeps told (handle_server_bytes (T := T) frame).
Proof. unfold handle_server_bytes, handle_server_frame. keep. Qed.
End link.

(** ** Lifting an engine's invariant to the session *)

Section lift.
Context `{Cipher, Oplog, Entropy, !HostLibs} {T : Type} `{LocalStorage T, HostStore T} {P : Type} `{ProfileDir P}.
Implicit Types (s : Session T P) (I : Uuid -> Engine T -> Prop).

(** Insensitive to the connection and the draws it is lent. *)
Class Lendable I : Prop := lendable id e st n : I id e -> I id (set_drawn n (set_storage st e)).

Definition engines_ok I s : Prop := forall id ds, ss_docs s !! id = Some ds -> I id (ds_engine ds).

(** [home] is open. *)
Record sess_ok I (home : Uuid) s : Prop := {
  so_home : ss_primary s = home;
  so_open : is_Some (ss_docs s !! home);
  so_engines : engines_ok I s;
}.

Lemma on_engine_docs {A} id (m : E (T := T) A) s j :
  ss_docs (on_engine id m s).2 !! j
  = if decide (j = id) then (fun ds => mkDocState (m (lend s ds)).2 (ds_last_synced_at ds)) <$> ss_docs s !! id
    else ss_docs s !! j.
Proof.
  unfold on_engine. destruct (ss_docs s !! id) as [ds|] eqn:E; cbn.
  - case_decide as Hj; [subst; by rewrite lookup_insert_eq|by rewrite lookup_insert_ne].
  - case_decide as Hj; [by subst|done].
Qed.

Lemma on_engine_frame {A} id (m : E (T := T) A) s :
  ss_primary (on_engine id m s).2 = ss_primary s /\ ss_server_url (on_engine id m s).2 = ss_server_url s
  /\ dom (ss_docs (on_engine id m s).2) = dom (ss_docs s).
Proof.
  unfold on_engine. destruct (ss_docs s !! id) as [ds|] eqn:E; [|done]. split_and!; try done. cbn.
  rewrite dom_insert_L. apply elem_of_dom_2 in E. set_solver.
Qed.

(** Two invariants: what the call needs and what it leaves. *)
Lemma on_engine_leads I J `{!Lendable I} {A} id home (m : E (T := T) A) s :
  leads (I id) m (J id) -> (forall j e, j <> id -> I j e -> J j e) ->
  sess_ok I home s -> sess_ok J home (on_engine id m s).2.
Proof.
  intros Hm Hother [Hh Ho He]. destruct (on_engine_frame id m s) as (Hp & _ & Hd). split.
  - by rewrite Hp.
  - apply elem_of_dom. rewrite Hd. by apply elem_of_dom.
  - intros j ds. rewrite on_engine_docs. case_decide as Hj.
    + subst j. destruct (ss_docs s !! id) as [ds0|] eqn:E; [|done]. intros [= <-]. cbn.
      apply Hm. apply lendable. exact (He _ _ E).
    + intros E. apply Hother; [done|]. exact (He _ _ E).
Qed.

Lemma on_engine_ok I `{!Lendable I} {A} id home (m : E (T := T) A) s :
  keeps (I id) m -> sess_ok I home s -> sess_ok I home (on_engine id m s).2.
Proof. intros Hm. by apply on_engine_leads. Qed.

Lemma each_engine_ok I `{!Lendable I} home m s :
  (forall id, keeps (I id) m) -> sess_ok I home s -> sess_ok I home (each_engine m s).
Proof.
  unfold each_engine. intros Hm. generalize (doc_keys s). intros ids. revert s.
  induction ids as [|id ids IH]; intros s Hs; [done|]. cbn. apply IH. by apply on_engine_ok.
Qed.

Lemma try_each_ok I `{!Lendable I} home {A} (m : E (T := T) (result StorageError A)) s :
  (forall id, keeps (I id) m) -> sess_ok I home s -> sess_ok I home (try_each m s).2.
Proof.
  unfold try_each. intros Hm. generalize (doc_keys s). intros ids. revert s.
  induction ids as [|id ids IH]; intros s Hs; [done|]. cbn.
  pose proof (on_engine_ok I id home m s (Hm id) Hs) as Hk.
  destruct (on_engine id m s) as [[[?|?]|] s']; cbn in *; by try apply IH.
Qed.

Lemma try_each_frame {A} (m : E (T := T) (result StorageError A)) s :
  ss_server_url (try_each m s).2 = ss_server_url s.
Proof.
  unfold try_each. generalize (doc_keys s). intros ids. revert s.
  induction ids as [|id ids IH]; intros s; [done|]. cbn.
  destruct (on_engine_frame id m s) as (_ & Hk & _).
  destruct (on_engine id m s) as [[[?|?]|] s']; cbn in *; by rewrite ?IH.
Qed.

Lemma each_engine_frame m s : ss_server_url (each_engine m s) = ss_server_url s.
Proof.
  unfold each_engine. generalize (doc_keys s). intros ids. revert s.
  induction ids as [|id ids IH]; intros s; [done|]. cbn. rewrite IH.
  by destruct (on_engine_frame id m s) as (_ & Hk & _).
Qed.

(** A call that settles whichever engine it runs on. *)
Lemma elem_of_doc_keys id s : id ∈ doc_keys s <-> is_Some (ss_docs s !! id).
Proof. unfold doc_keys. by rewrite merge_sort_Permutation, elem_of_elements, elem_of_dom. Qed.

Lemma each_engine_settles J `{!Lendable J} home m s :
  (forall id, leads (fun _ => True) m (J id)) -> ss_primary s = home -> is_Some (ss_docs s !! home) ->
  sess_ok J home (each_engine m s).
Proof.
  intros Hm Hh Ho. unfold each_engine.
  assert (Hr : forall id ds, ss_docs s !! id = Some ds -> id ∉ doc_keys s -> J id (ds_engine ds)).
  { intros id ds E Hn. destruct Hn. apply elem_of_doc_keys. by rewrite E. }
  revert Hr. generalize (doc_keys s). intros ids. revert s Hh Ho.
  induction ids as [|id ids IH]; intros s Hh Ho Hr; cbn.
  - split; [done|done|]. intros j ds E. apply (Hr _ _ E). by intros []%elem_of_nil.
  - destruct (on_engine_frame id m s) as (Hp & _ & Hd). apply IH.
    + by rewrite Hp.
    + apply elem_of_dom. rewrite Hd. by apply elem_of_dom.
    + intros j ds. rewrite on_engine_docs. case_decide as Hj.
      * subst j. destruct (ss_docs s !! id) as [ds0|]; [|done]. intros [= <-] _. by apply Hm.
      * intros E Hn. apply (Hr _ _ E). by intros [->|?]%elem_of_cons.
Qed.

(** *** Operations beside the engines *)

Lemma with_store_ok I home st s : sess_ok I home s -> sess_ok I home (with_store st s).
Proof. by intros [? ? ?]. Qed.

Lemma mark_synced_ok I home id now s : sess_ok I home s -> sess_ok I home (mark_synced id now s).2.
Proof.
  intros [Hh Ho He]. unfold mark_synced. destruct (write_last_sync_at id now (ss_store s)) as [[[]|e] st]; cbn; [|done].
  split; cbn; [done| |].
  - destruct (decide (id = home)) as [->|Hi]; [rewrite lookup_alter_eq; by rewrite fmap_is_Some|by rewrite lookup_alter_ne].
  - intros j ds. cbn. destruct (decide (id = j)) as [->|Hi].
    + rewrite lookup_alter_eq. destruct (ss_docs s !! j) as [ds0|] eqn:E; [|done]. intros [= <-]. exact (He _ _ E).
    + rewrite lookup_alter_ne by done. apply He.
Qed.

Lemma mark_synced_frame id now s : ss_server_url (mark_synced id now s).2 = ss_server_url s.
Proof. unfold mark_synced. by destruct (write_last_sync_at id now (ss_store s)) as [[[]|e] st]. Qed.

Lemma forget_doc_docs id s : ss_docs (forget_doc id s).2 = ss_docs s
  \/ id <> ss_primary s /\ ss_docs (forget_doc id s).2 = delete id (ss_docs s).
Proof.
  unfold forget_doc. case_decide as Hi; [by left|right]. split; [done|].
  destruct (read_secrets _) as [secrets|e]; [|done]. by destruct (write_secrets _ _) as [[[]|e] p].
Qed.
Lemma forget_doc_frame id s : ss_primary (forget_doc id s).2 = ss_primary s
  /\ ss_server_url (forget_doc id s).2 = ss_server_url s.
Proof.
  unfold forget_doc. case_decide as Hi; [done|].
  destruct (read_secrets _) as [secrets|e]; [|done]. by destruct (write_secrets _ _) as [[[]|e] p].
Qed.
Lemma forget_doc_ok I home id s : sess_ok I home s -> sess_ok I home (forget_doc id s).2.
Proof.
  intros [Hh Ho He]. destruct (forget_doc_frame id s) as [Hp _].
  destruct (forget_doc_docs id s) as [Hd|[Hi Hd]]; split; rewrite ?Hp, ?Hd; try done.
  - intros j ds. rewrite Hd. apply He.
  - rewrite lookup_delete_ne; [done|]. by subst.
  - intros j ds. rewrite Hd. intros [_ E]%lookup_delete_Some. exact (He _ _ E).
Qed.

Lemma delete_doc_ok I home id server s : sess_ok I home s ->
  sess_ok I home (delete_doc id server s).2 /\ ss_server_url (delete_doc id server s).2 = ss_server_url s.
Proof.
  intros Hs. unfold delete_doc. case_decide; [done|].
  destruct (ss_docs s !! id); [|done]. destruct (ss_server_url s) eqn:E; [|done].
  destruct (read_secrets _) as [secrets|]; [|done]. destruct (sec_device_token secrets); [|done].
  destruct server; [|done]. split; [by apply forget_doc_ok|].
  by destruct (forget_doc_frame id s) as [_ ->].
Qed.
End lift.

(** ** The engines and the socket *)

Section link.
Context `{Cipher, Oplog, Entropy, !HostLibs} {T : Type} `{LocalStorage T, HostStore T} {P : Type} `{ProfileDir P}.
Implicit Types (s : Session T P) (h : Host T P).
Variable home : Uuid.

Definition at_rest (id : Uuid) (e : Engine T) : Prop := off e.
Definition home_on (id : Uuid) (e : Engine T) : Prop := id = home -> online e.
Definition home_told (id : Uuid) (e : Engine T) : Prop := id = home -> told e.

#[local] Instance at_rest_lendable : Lendable at_rest.
Proof. by intros ????. Qed.
#[local] Instance home_on_lendable : Lendable home_on.
Proof. by intros ????. Qed.
#[local] Instance home_told_lendable : Lendable home_told.
Proof. by intros ????. Qed.

(** No socket: nothing is connected. A socket: Home is online, or, between a
    frame and the pump after it, has said why not. *)
Definition linked h : Prop :=
  if ws_up h then sess_ok home_told home (h_session h) else sess_ok at_rest home (h_session h).
Definition solid h : Prop :=
  if ws_up h then sess_ok home_on home (h_session h) else sess_ok at_rest home (h_session h).
Definition rest h : Prop := h_ws h = None /\ sess_ok at_rest home (h_session h).

Lemma sess_weaken I J s : (forall id e, I id e -> J id e) -> sess_ok I home s -> sess_ok J home s.
Proof. intros HIJ [? ? He]. split; [done|done|]. intros id ds E. apply HIJ, (He _ _ E). Qed.
Lemma solid_linked h : solid h -> linked h.
Proof.
  unfold solid, linked. destruct (ws_up h); [|done]. apply sess_weaken. intros id e He Hi. by apply online_told, He.
Qed.
Lemma rest_solid h : rest h -> solid h.
Proof. intros [Hw Hs]. unfold solid, ws_up. by rewrite Hw. Qed.
Lemma linked_base h : linked h -> sess_ok (fun _ _ => True) home (h_session h).
Proof. unfold linked. destruct (ws_up h); by apply sess_weaken. Qed.

(** The host's own fields do not matter. *)
Definition same_link h h' : Prop := h_ws h' = h_ws h /\ h_session h' = h_session h.
Lemma solid_same h h' : same_link h h' -> solid h -> solid h'.
Proof. unfold solid, ws_up. by intros [-> ->]. Qed.
Lemma rest_same h h' : same_link h h' -> rest h -> rest h'.
Proof. unfold rest. by intros [-> ->]. Qed.

Lemma drop_rest reason h : sess_ok at_rest home (h_session h) -> rest (drop_socket reason h).
Proof. by intros Hs. Qed.
Lemma disconnect_rest reason h I : sess_ok I home (h_session h) -> rest (disconnect reason h).
Proof.
  intros [Hh Ho _]. apply drop_rest. cbn. apply (each_engine_settles at_rest); [|exact Hh|exact Ho].
  intros id. apply leads_disconnected.
Qed.

(** ** The pump *)

(** What every call of the host but the connection's own keeps. *)
Definition steady {A} (m : E (T := T) A) : Prop := keeps off m /\ keeps online m /\ keeps told m.

Lemma steady_at_rest {A} (m : E (T := T) A) id : steady m -> keeps (at_rest id) m.
Proof. by intros (? & _ & _). Qed.
Lemma steady_home_on {A} (m : E (T := T) A) id : steady m -> keeps (home_on id) m.
Proof. intros (_ & Hm & _) e He Hi. by apply Hm, He. Qed.
Lemma steady_home_told {A} (m : E (T := T) A) id : steady m -> keeps (home_told id) m.
Proof. intros (_ & _ & Hm) e He Hi. by apply Hm, He. Qed.

Lemma steady_flush : steady (flush (T := T)).
Proof. split_and!; [apply off_flush|apply online_flush|apply told_flush]. Qed.
Lemma steady_leave fs : steady (leave_outbox (T := T) fs).
Proof. by split_and!; intros e He. Qed.
Lemma steady_take : steady (take_outbox (T := T)).
Proof. by split_and!; intros e He. Qed.
Lemma steady_persist : steady (persist_engine (T := T)).
Proof.
  assert (Hb : forall I, blind I -> keeps I (persist_engine (T := T))).
  { intros I HI. unfold persist_engine. apply keeps_bind; [by apply blind_capture|]. intros [?|?]; [|apply keeps_ret].
    apply keeps_bind; [by apply blind_fold|]. intros [?|?]; [|apply keeps_ret].
    apply keeps_bind; [apply keeps_get_e|]. intros n. apply keeps_bind; [by apply blind_notify|].
    intros. apply keeps_ret. }
  split_and!; auto using blind_off, blind_online, blind_told.
Qed.

Lemma steady_keeps_in I {A} (m : E (T := T) A) id : steady m -> I = at_rest \/ I = home_on \/ I = home_told ->
  keeps (I id) m.
Proof.
  intros Hm [->|[->| ->]]; [by apply steady_at_rest|by apply steady_home_on|by apply steady_home_told].
Qed.

Lemma send_engines_ok I `{!Lendable I} ids : (forall A (m : E (T := T) A) id, steady m -> keeps (I id) m) ->
  forall sk s, sess_ok I home s -> sess_ok I home (send_engines ids sk s).2.
Proof.
  intros HI. induction ids as [|id ids IH]; intros sk s Hs; [done|]. cbn.
  assert (Hl : forall rest, sess_ok I home (on_engine id (leave_outbox rest) (on_engine id take_outbox s).2).2).
  { intros rest. apply on_engine_ok; [done|apply HI, steady_leave|].
    by apply on_engine_ok; [done|apply HI, steady_take|]. }
  destruct (send_frames _ sk) as [[[] rest] sk']; [by apply IH|by apply Hl].
Qed.

Lemma drain_ok I `{!Lendable I} ids : (forall id, keeps (I id) take_events) ->
  forall s, sess_ok I home s -> sess_ok I home (drain_engines ids s).2.
Proof.
  intros HI. induction ids as [|id ids IH]; intros s Hs; [done|]. cbn.
  pose proof (on_engine_ok I id home take_events s (HI id) Hs) as Hk.
  destruct (on_engine id take_events s) as [evs s']. by apply IH.
Qed.

(** Every queued event is drained. *)
Lemma drain_collects id ev ids : forall s ds, id ∈ ids -> ss_docs s !! id = Some ds ->
  ev ∈ e_events (ds_engine ds) -> (id, ev) ∈ (drain_engines ids s).1.
Proof.
  induction ids as [|j ids IH]; intros s ds Hid E Hev; [by apply elem_of_nil in Hid|]. cbn.
  pose proof (on_engine_docs j take_events s id) as Hd.
  destruct (on_engine j take_events s) as [evs s'] eqn:Es. cbn in *. apply elem_of_app.
  destruct (decide (id = j)) as [->|Hj].
  - left. unfold on_engine in Es. rewrite E in Es. injection Es as <- _. cbn.
    apply list_elem_of_fmap. by exists ev.
  - right. apply (IH s' ds); [|by rewrite Hd|done]. by apply elem_of_cons in Hid as [?|?].
Qed.

Definition home_fatal (x : Uuid * Event) : bool := bool_decide (x.1 = home) && fatal x.2.

(** Home is still online after the drain, or the drain says it is not. *)
Lemma drain_told s : sess_ok home_told home s ->
  existsb home_fatal (drain_events s).1 = true \/ sess_ok home_on home (drain_events s).2.
Proof.
  intros [Hh Ho He]. destruct Ho as [ds E].
  destruct (decide (e_state (ds_engine ds) = Disconnected)) as [Hd|Hd]; [left|right].
  - pose proof (He _ _ E eq_refl Hd) as Hw. unfold warned in Hw. apply existsb_exists in Hw as (ev & Hin & Hf).
    apply existsb_exists. exists (home, ev). split.
    + apply list_elem_of_In, (drain_collects home ev _ s ds); [|done|by apply list_elem_of_In].
      apply elem_of_doc_keys. by rewrite E.
    + unfold home_fatal. cbn. by rewrite bool_decide_true.
  - apply drain_ok; [apply _|by intros id e Ht|]. split; [done|by rewrite E|].
    intros id ds' E' ->. rewrite E in E'. by injection E' as <-.
Qed.

Lemma on_event_base h f x : sess_ok (fun _ _ => True) home (h_session h) ->
  sess_ok (fun _ _ => True) home (h_session (on_event (h, f) x).1).
Proof.
  intros Hs. destruct x as [id ev]. destruct ev; cbn [on_event]; try done.
  - case_decide; cbn; [|by apply mark_synced_ok].
    apply each_engine_ok; [by repeat intro|by repeat intro|by apply mark_synced_ok].
  - by apply mark_synced_ok.
  - destruct (engine_idle _ _); cbn; [by apply mark_synced_ok|done].
  - cbn. destruct (disconnect_rest ("engine error: " +:+ what) h _ Hs) as [_ Hr]. revert Hr. by apply sess_weaken.
  - case_decide; [|done]. cbn. destruct (disconnect_rest ("doc closed: " +:+ reason) h _ Hs) as [_ Hr].
    revert Hr. by apply sess_weaken.
Qed.

Lemma solid_map (f : Session T P -> Session T P) h :
  (forall I, I = at_rest \/ I = home_on -> sess_ok I home (h_session h) -> sess_ok I home (f (h_session h))) ->
  solid h -> solid (map_session f h).
Proof. unfold solid. cbn. unfold ws_up. cbn. case_bool_decide; auto. Qed.
Lemma rest_map (f : Session T P -> Session T P) h :
  (sess_ok at_rest home (h_session h) -> sess_ok at_rest home (f (h_session h))) -> rest h -> rest (map_session f h).
Proof. intros Hf [Hw Hs]. split; [done|]. by apply Hf. Qed.

Lemma flush_ok I s : I = at_rest \/ I = home_on -> sess_ok I home s -> sess_ok I home (flush_engines s).
Proof.
  intros HI. apply each_engine_ok; [destruct HI as [-> | ->]; apply _|].
  intros id. apply steady_keeps_in; [apply steady_flush|tauto].
Qed.

Lemma on_event_solid h f x : solid h -> solid (on_event (h, f) x).1.
Proof.
  intros Hs. pose proof (linked_base h (solid_linked h Hs)) as Hb.
  assert (Hstamp : forall id, solid ((run_session (mark_synced id (h_now h)) h).2)).
  { intros id. apply (solid_map (fun s => (mark_synced id (h_now h) s).2)); [|done]. intros I _. apply mark_synced_ok. }
  destruct x as [id ev]. destruct ev; cbn [on_event]; try done.
  - case_decide; cbn; [|apply Hstamp].
    eapply solid_same; [|apply (solid_map flush_engines), Hstamp]; [done|]. intros I HI. by apply flush_ok.
  - apply Hstamp.
  - destruct (engine_idle id (h_session h)); cbn; [apply Hstamp|done].
  - by apply rest_solid, (disconnect_rest _ _ _ Hb).
  - case_decide; [|done]. by apply rest_solid, (disconnect_rest _ _ _ Hb).
Qed.

Lemma on_event_down h f x : h_ws h = None -> h_ws (on_event (h, f) x).1 = None.
Proof.
  intros Hw. destruct x as [id ev]. destruct ev; cbn [on_event]; try done.
  - by case_decide.
  - by destruct (engine_idle id (h_session h)).
  - by case_decide.
Qed.

Lemma solid_down h : h_ws h = None -> solid h -> rest h.
Proof. unfold solid, rest, ws_up. by intros ->. Qed.

Lemma on_event_rest h f x : rest h -> rest (on_event (h, f) x).1.
Proof. intros Hr. apply solid_down; [by apply on_event_down; destruct Hr|]. by apply on_event_solid, rest_solid. Qed.

Lemma on_event_fatal h f x : home_fatal x = true -> sess_ok (fun _ _ => True) home (h_session h) ->
  rest (on_event (h, f) x).1.
Proof.
  intros [Hi Hf]%andb_true_iff Hb. apply bool_decide_eq_true in Hi. destruct x as [id ev]. cbn in Hi. subst id.
  destruct ev; cbn [on_event]; try done.
  - by eapply disconnect_rest.
  - case_decide as Hd; [|by destruct Hd; rewrite (so_home _ _ _ Hb)]. by eapply disconnect_rest.
Qed.

Lemma events_solid evs : forall h f, solid h -> solid (foldl on_event (h, f) evs).1.
Proof.
  induction evs as [|x evs IH]; intros h f Hs; [done|]. cbn [foldl].
  pose proof (on_event_solid h f x Hs) as Hx. destruct (on_event (h, f) x) as [h' f']. by apply IH.
Qed.
Lemma events_rest evs : forall h f, rest h -> rest (foldl on_event (h, f) evs).1.
Proof.
  induction evs as [|x evs IH]; intros h f Hs; [done|]. cbn [foldl].
  pose proof (on_event_rest h f x Hs) as Hx. destruct (on_event (h, f) x) as [h' f']. by apply IH.
Qed.
Lemma events_fatal evs : forall h f, existsb home_fatal evs = true ->
  sess_ok (fun _ _ => True) home (h_session h) -> rest (foldl on_event (h, f) evs).1.
Proof.
  induction evs as [|x evs IH]; intros h f Hf Hb; [done|]. cbn in Hf. cbn [foldl].
  pose proof (on_event_fatal h f x) as Hx. pose proof (on_event_base h f x Hb) as Hb'.
  destruct (on_event (h, f) x) as [h' f']. destruct (home_fatal x) eqn:E; [|by apply IH].
  apply events_rest. by apply Hx.
Qed.

Lemma forget_solid ids : forall h, solid h -> solid (foldl forget_one h ids).
Proof.
  induction ids as [|id ids IH]; intros h Hs; [done|]. cbn. apply IH.
  apply (solid_map (fun s => (forget_doc id s).2)); [|done]. intros I _. apply forget_doc_ok.
Qed.

Lemma fan_out_same h : same_link h (fan_out h).
Proof. done. Qed.

Lemma home_on_online s : sess_ok home_on home s -> home_online s = true.
Proof.
  intros [Hh [ds E] He]. unfold home_online. rewrite Hh, E. unfold engine_is_online.
  rewrite bool_decide_false; [done|]. by apply (He _ _ E).
Qed.

Lemma act_on_events_solid h : linked h -> solid (act_on_events h).
Proof.
  intros Hl. unfold act_on_events.
  assert (Hs : solid (foldl on_event (set_session (drain_events (h_session h)).2 h, []) (drain_events (h_session h)).1).1).
  { unfold linked in Hl. destruct (ws_up h) eqn:Ew.
    - destruct (drain_told _ Hl) as [Hf|Hon].
      + apply rest_solid, events_fatal; [done|]. cbn. apply drain_ok; [by repeat intro|by repeat intro|].
        by eapply sess_weaken, Hl.
      + apply events_solid. unfold solid. by replace (ws_up _) with true.
    - apply events_solid. unfold solid. replace (ws_up _) with false by done. cbn.
      apply drain_ok; [apply _|by intros id e He|done]. }
  destruct (foldl on_event _ _) as [h' forget]. cbn in Hs.
  assert (Hd : solid (if ws_up h' && negb (home_online (h_session h')) then drop_socket "engine disconnected" h' else h')).
  { unfold solid in Hs. destruct (ws_up h') eqn:Ew; cbn; [|unfold solid; by rewrite Ew].
    rewrite (home_on_online _ Hs). cbn. unfold solid. by rewrite Ew. }
  case_decide; [by apply forget_solid|]. eapply solid_same; [apply fan_out_same|]. by apply forget_solid.
Qed.

Lemma pump_solid h : linked h -> solid (pump h).
Proof.
  intros Hl. unfold pump. destruct (h_ws h) as [sk|] eqn:Ew; [|by apply act_on_events_solid].
  assert (Hk : sess_ok home_told home (send_outboxes sk (h_session h)).2).
  { unfold linked, ws_up in Hl. rewrite Ew in Hl.
    apply send_engines_ok; [apply _|intros A m id Hm; by apply steady_home_told|done]. }
  destruct (send_outboxes sk (h_session h)) as [[[] sk'] s]; cbn in Hk.
  - by apply act_on_events_solid.
  - apply rest_solid. by eapply disconnect_rest.
Qed.

(** ** The handlers *)

Lemma steady_blind {A} (m : E (T := T) A) : (forall I, blind I -> keeps I m) -> steady m.
Proof. intros Hm. split_and!; auto using blind_off, blind_online, blind_told. Qed.
Lemma steady_timeout : steady (handle_timeout (T := T)).
Proof.
  apply steady_blind. intros I HI. apply keeps_bind; [apply keeps_get_e|]. intros st.
  case_decide; [by apply blind_error|apply keeps_ret].
Qed.
Lemma steady_fold rows bytes : steady (snapshot_if_wal_exceeds (T := T) rows bytes).
Proof. apply steady_blind. intros I HI. by apply blind_fold. Qed.
Lemma steady_set_doc f : steady (modify_e (T := T) (fun e => set_doc (f e) e)).
Proof. apply steady_blind. intros I HI. by apply blind_modify. Qed.

(** A steady call on one engine, or on each. *)
Lemma solid_on_engine {A} id (m : E (T := T) A) h : steady m -> solid h ->
  solid (map_session (fun s => (on_engine id m s).2) h).
Proof.
  intros Hm. apply solid_map. intros I HI. apply on_engine_ok; [destruct HI as [-> | ->]; apply _|].
  apply steady_keeps_in; [done|tauto].
Qed.
Lemma solid_each m h : steady m -> solid h -> solid (map_session (each_engine m) h).
Proof.
  intros Hm. apply solid_map. intros I HI. apply each_engine_ok; [destruct HI as [-> | ->]; apply _|].
  intros id. apply steady_keeps_in; [done|tauto].
Qed.
Lemma solid_try {A} (m : E (T := T) (result StorageError A)) h : steady m -> solid h ->
  solid (run_session (try_each m) h).2.
Proof.
  intros Hm. apply (solid_map (fun s => (try_each m s).2)). intros I HI.
  apply try_each_ok; [destruct HI as [-> | ->]; apply _|]. intros id. apply steady_keeps_in; [done|tauto].
Qed.

Lemma connect_solid ws h : sess_ok (fun _ _ => True) home (h_session h) ->
  solid (on_connect_result (Ok ws) h).
Proof.
  intros [Hh Ho _]. apply pump_solid, solid_linked. unfold solid. cbn.
  apply (each_engine_settles home_on); [|exact Hh|exact Ho]. intros id e _ _. by apply (leads_connected (fun _ => True)).
Qed.

Lemma frame_linked frame h : solid h -> linked (map_session (route_server_bytes frame) h).
Proof.
  intros Hs%solid_linked. unfold linked in *. cbn. change (ws_up (map_session _ h)) with (ws_up h).
  unfold route_server_bytes. destruct (ws_up h); apply on_engine_ok; try apply _; try done.
  - intros e He Hi. by apply told_frame, He.
  - apply off_frame.
Qed.
Lemma persist_linked h : linked h -> linked (run_session persist_engine_state h).2.
Proof.
  unfold linked. cbn. change (ws_up (set_session _ h)) with (ws_up h).
  intros Hs. destruct (ws_up h); apply try_each_ok; try apply _; try done; intros id.
  - apply steady_home_told, steady_persist.
  - apply steady_at_rest, steady_persist.
Qed.

Lemma settle_solid h : solid h -> solid (settle h).2.
Proof.
  intros Hs. pose proof (solid_try persist_engine h steady_persist Hs) as Hp. unfold settle.
  change (run_session persist_engine_state h) with (run_session (try_each persist_engine) h).
  destruct (run_session _ h) as [[[]|e] h']; [|done]. cbn in *.
  eapply solid_same; [apply fan_out_same|]. apply pump_solid, solid_linked. by apply solid_each; [apply steady_flush|].
Qed.

Lemma ws_message_solid m h : solid h -> solid (on_ws_message m h).
Proof.
  intros Hs. pose proof (linked_base h (solid_linked h Hs)) as Hb.
  destruct m; cbn [on_ws_message]; try done; try (apply rest_solid; by eapply disconnect_rest).
  pose proof (persist_linked _ (frame_linked frame h Hs)) as Hl.
  destruct (run_session persist_engine_state _) as [[[]|e] h']; cbn in Hl.
  - eapply solid_same; [apply fan_out_same|]. by apply pump_solid.
  - apply rest_solid. eapply disconnect_rest. by apply linked_base.
Qed.

Lemma import_solid id bytes h : solid h -> solid (on_import id bytes h).2.
Proof.
  intros Hs. unfold on_import. destruct (h_subscribers h !! id) as [sub|]; [|done].
  destruct (doc_for _ _) as [doc|]; [|done].
  assert (Hd : forall d, solid (map_session (fun s => (on_engine (su_doc_id sub) (set_engine_doc d) s).2) h)).
  { intros d. apply solid_on_engine; [apply (steady_set_doc (fun _ => d))|done]. }
  destruct (import_mirror_update bytes doc) as [[imported|e] doc']; [|apply Hd].
  match goal with |- context [settle ?g] => assert (Hg : solid (settle g).2) by
    (apply settle_solid; eapply solid_same; [|apply (Hd doc')]; done); destruct (settle g) as [[[]|e] h'] end; done.
Qed.

Lemma subscribe_solid workspace mint h : solid h -> solid (on_subscribe workspace mint h).2.
Proof.
  intros Hs. unfold on_subscribe. destruct (session_resolve _ _) as [id|]; [|done].
  destruct (claim mint _ _) as [[r locked] st].
  assert (Hst : solid (map_session (with_store st) h)).
  { apply solid_map; [|done]. intros I _. apply with_store_ok. }
  destruct r as [lease|]; [|done]. destruct (doc_for _ _) as [doc|]; [|done].
  destruct (export_snapshot_bytes doc); done.
Qed.

Lemma doc_solid workspace edit h : solid h -> solid (on_doc workspace edit h).2.
Proof.
  intros Hs. unfold on_doc. destruct (session_resolve _ _) as [id|]; [|done].
  apply settle_solid, solid_on_engine; [|done].
  apply (steady_set_doc (fun e => mkSyncDoc (edit (sd_inner (e_doc e))) (sd_last_persisted_vv (e_doc e)))).
Qed.

Lemma sync_solid reply h : solid h -> solid (on_sync reply h).2.
Proof.
  intros Hs. pose proof (solid_try persist_engine h steady_persist Hs) as Hp. unfold on_sync.
  change (run_session persist_engine_state h) with (run_session (try_each persist_engine) h).
  destruct (run_session _ h) as [[[]|e] h']; [|done]. cbn in *.
  destruct (host_local_only h'); [done|]. destruct (ws_up h' && _).
  - apply (solid_same (pump (map_session flush_engines h'))); [done|].
    apply pump_solid, solid_linked. by apply solid_each; [apply steady_flush|].
  - by destruct (negb _ && negb _).
Qed.

Lemma reconnect_solid h : solid h -> solid (on_reconnect h).
Proof.
  intros Hs. pose proof (linked_base h (solid_linked h Hs)) as Hb. unfold on_reconnect.
  destruct (host_local_only h); [done|]. cbn. destruct (ws_up _).
  - apply rest_solid. by eapply disconnect_rest.
  - by destruct (h_connecting _).
Qed.

Lemma delete_solid workspace server h : solid h -> solid (on_delete workspace server h).
Proof.
  intros Hs. unfold on_delete. destruct (session_resolve _ _) as [id|]; [|done].
  assert (Hd : solid (run_session (delete_doc id server) h).2).
  { apply (solid_map (fun s => (delete_doc id server s).2)); [|done]. intros I _ Hk. by apply delete_doc_ok. }
  destruct (run_session (delete_doc id server) h) as [[[]|e] h']; done.
Qed.

Lemma tick_solid h : solid h -> solid (on_persist_tick h).2.
Proof.
  intros Hs. pose proof (solid_try persist_engine h steady_persist Hs) as Hp. unfold on_persist_tick.
  change (run_session persist_engine_state h) with (run_session (try_each persist_engine) h).
  destruct (run_session _ h) as [[[]|e] h1]; [|done]. cbn -[run_session] in Hp |- *.
  pose proof (solid_try _ h1 (steady_fold SNAPSHOT_MAX_WAL_ROWS SNAPSHOT_MAX_WAL_BYTES) Hp) as Hf.
  change (run_session session_fold h1) with (run_session (try_each (snapshot_if_wal_exceeds SNAPSHOT_MAX_WAL_ROWS SNAPSHOT_MAX_WAL_BYTES)) h1).
  destruct (run_session _ h1) as [[b|e] h2]; cbn in Hf |- *; [|done].
  destruct (ws_up (fan_out h2)); [|done]. apply pump_solid, solid_linked, solid_each; [apply steady_flush|].
  destruct (match h_connected_at _ with Some _ => _ | None => _ end); [|done].
  apply solid_each; [apply steady_timeout|done].
Qed.

Lemma ping_solid h : solid h -> solid (on_ping_tick h).
Proof.
  intros Hs. pose proof (linked_base h (solid_linked h Hs)) as Hb. unfold on_ping_tick.
  destruct (h_awaiting_pong h); [apply rest_solid; by eapply disconnect_rest|].
  destruct (h_ws h) as [sk|] eqn:Ew; [|done]. destruct (send_raw sk) as [sk'|].
  - revert Hs. unfold solid, ws_up. by rewrite Ew.
  - apply rest_solid. by eapply disconnect_rest.
Qed.

(** ** Documents opened *)

Definition same_base s s' : Prop :=
  ss_docs s' = ss_docs s /\ ss_primary s' = ss_primary s /\ ss_server_url s' = ss_server_url s.

Lemma seed_boot_off meta : keeps off (seed_boot (T := T) meta).
Proof.
  assert (Hm : forall f, (forall e, e_state (f e) = e_state e /\ e_events (f e) = e_events e) ->
    keeps off (modify_e (T := T) f)) by (intros; by apply blind_modify; [apply blind_off|]).
  assert (He : forall w, keeps off (error (T := T) w)) by (intros; by apply blind_error, blind_off).
  unfold seed_boot, seed_wal_stats, seed_server_known_vv, seed_in_flight_push.
  repeat first [apply keeps_bind; [|intros ?] | apply Hm; done | apply He | apply keeps_ret | case_decide
    | match goal with |- keeps _ (match ?x with _ => _ end) => destruct x end].
Qed.

Lemma boot_doc_state_spec dek id s r s' : boot_doc_state dek id s = (r, s') ->
  same_base s s' /\ forall ds, r = Ok ds -> off (ds_engine ds).
Proof.
  unfold boot_doc_state. destruct (boot_doc _ dek id) as [[doc meta]|]; [|by intros [= <- <-]].
  destruct (read_sync_cursor id _) as [cursor|]; [|by intros [= <- <-]].
  set (e := set_drawn _ _). pose proof (seed_boot_off meta e eq_refl) as Ho.
  apply (blind_fold off blind_off SNAPSHOT_MAX_WAL_ROWS SNAPSHOT_MAX_WAL_BYTES) in Ho.
  destruct (snapshot_if_wal_exceeds _ _ _) as [[b|] e']; intros [= <- <-]; split; try done.
  by intros ds [= <-].
Qed.

Lemma create_doc_spec name dek seed server s r s' : create_doc name dek seed server s = (r, s') ->
  ss_primary s' = ss_primary s /\ ss_server_url s' = ss_server_url s
  /\ match r with
     | Ok id => exists ds, off (ds_engine ds) /\ ss_docs s' = <[id := ds]> (ss_docs s)
     | Err _ => ss_docs s' = ss_docs s
     end.
Proof.
  unfold create_doc. repeat case_match; try (by intros [= <- <-]).
  - match goal with Hb : boot_doc_state _ _ _ = (Ok ?ds, _) |- _ =>
      destruct (boot_doc_state_spec _ _ _ _ _ Hb) as [(Hd & Hp & Hu) Ho]; intros [= <- <-]; cbn in *;
      split_and!; [done|done|]; exists ds; by rewrite Hd; split; [apply Ho|] end.
  - match goal with Hb : boot_doc_state _ _ _ = (Err _, _) |- _ =>
      destruct (boot_doc_state_spec _ _ _ _ _ Hb) as [(Hd & Hp & Hu) _]; by intros [= <- <-] end.
Qed.

Lemma create_solid name dek seed server h : solid h -> solid (on_create name dek seed server h).2.
Proof.
  intros Hs. unfold on_create. destruct (host_local_only h); [done|].
  unfold run_session. destruct (create_doc name dek seed server (h_session h)) as [r s'] eqn:Ec.
  destruct (create_doc_spec _ _ _ _ _ _ _ Ec) as (Hp & _ & Hr). cbn.
  assert (Hop : forall ds id, is_Some (ss_docs (h_session h) !! home) ->
    is_Some (<[id := ds]> (ss_docs (h_session h)) !! home)).
  { intros ds id Ho. destruct (decide (id = home)) as [->|]; [by rewrite lookup_insert_eq|by rewrite lookup_insert_ne]. }
  destruct r as [id|e].
  - destruct Hr as (ds & Hds & Hd). apply settle_solid.
    change (ws_up (set_session s' h)) with (ws_up h). revert Hs. unfold solid.
    destruct (ws_up h) eqn:Ew; intros [Hh Ho He].
    + change (ws_up (map_session _ _)) with (ws_up h). rewrite Ew. cbn.
      apply (on_engine_leads (fun j e => j <> id -> home_on j e)).
      * by intros j e st n.
      * intros e _ _. by apply (leads_connected (fun _ => True)).
      * intros j e Hj Hk. by apply Hk.
      * split; [by rewrite Hp|rewrite Hd; by apply Hop|]. intros j ds' E Hj. rewrite Hd in E.
        rewrite lookup_insert_ne in E by done. exact (He _ _ E).
    + change (ws_up (set_session s' h)) with (ws_up h). rewrite Ew. cbn.
      split; [by rewrite Hp|rewrite Hd; by apply Hop|]. intros j ds' E. rewrite Hd in E.
      destruct (decide (id = j)) as [->|Hj]; [rewrite lookup_insert_eq in E; by injection E as <-|].
      rewrite lookup_insert_ne in E by done. exact (He _ _ E).
  - revert Hs. unfold solid. cbn [snd h_session]. change (ws_up (set_session s' h)) with (ws_up h).
    assert (Hk : forall I, sess_ok I home (h_session h) -> sess_ok I home (h_session (set_session s' h))).
    { intros I [Hh Ho He]. split; cbn; [by rewrite Hp|by rewrite Hr|].
      intros j ds E. rewrite Hr in E. exact (He _ _ E). }
    destruct (ws_up h); apply Hk.
Qed.

Lemma step_solid i h r h' : enabled i h = true -> host_step i h = (r, h') -> solid h -> solid h'.
Proof.
  intros Hi Hstep Hs. pose proof (linked_base h (solid_linked h Hs)) as Hb.
  destruct i; cbn [host_step] in Hstep; try (injection Hstep as <- <-).
  - unfold on_connect_due. by destruct (host_local_only h).
  - destruct r0 as [ws|e]; [by apply connect_solid|done].
  - by apply ws_message_solid.
  - by apply subscribe_solid.
  - pose proof (import_solid id bytes h Hs) as Hm. destruct (on_import id bytes h) as [[?|?] ?];
      injection Hstep as <- <-; done.
  - done.
  - pose proof (doc_solid workspace edit h Hs) as Hm. by rewrite Hstep in Hm.
  - pose proof (sync_solid reply h Hs) as Hm. by rewrite Hstep in Hm.
  - by apply reconnect_solid.
  - pose proof (create_solid name dek seed server h Hs) as Hm. by rewrite Hstep in Hm.
  - by apply delete_solid.
  - pose proof (tick_solid h Hs) as Hm. by rewrite Hstep in Hm.
  - by apply ping_solid.
Qed.
End link.
