(* ===== verification/HostInstances.v ===== *)
(** Runs of the host that compute: a list of timed inputs, a profile directory
    that keeps what it is given, and a host with two documents. *)
From S2P Require Import Prelude.
From S2P Require Import Wire.
From S2P Require Import Crypto.
From S2P Require Import Registers.
From S2P Require Import Tables.
From S2P Require Import Storage.
From S2P Require Import Sqlite.
From S2P Require Import SyncDoc.
From S2P Require Import Engine.
From S2P Require Import Instances.
From S2P Require Import HostStore.
From S2P Require Import HostSession.
From S2P Require Import Host.

Section run.
Context `{Cipher, Oplog, Entropy, !HostLibs} {T : Type} `{LocalStorage T, HostStore T} {P : Type} `{ProfileDir P}.
Implicit Types (h : Host T P).

(** [None]: an input that is not enabled, or one that ends the loop. *)
Fixpoint run_inputs (is_ : list (Z * HostInput)) h : option (Host T P) :=
  match is_ with
  | [] => Some h
  | (now, i) :: is_ =>
      let h := set_time now 0 h in
      if enabled i h then match host_step i h with (Ok tt, h) => run_inputs is_ h | _ => None end else None
  end.

Lemma run_inputs_reaches is_ : forall h0 h h', reaches h0 h -> run_inputs is_ h = Some h' -> reaches h0 h'.
Proof.
  induction is_ as [|[now i] is_ IH]; intros h0 h h' Hr E; cbn in E; [by injection E as <-|].
  destruct (enabled i _) eqn:Ei; [|done]. destruct (host_step i _) as [[[]|] h1] eqn:Es; [|done].
  eapply IH; [|exact E]. by eapply reaches_step.
Qed.
End run.

#[export] Instance kept_profile : ProfileDir Secrets := {|
  read_secrets p := Ok p;
  write_secrets s _ := (Ok tt, s);
|}.

(** No document has a name; the only id written out is document 2's. *)
#[export] Instance host_libs : HostLibs := {|
  doc_name_of _ := None;
  parse_uuid s := if decide (s = "two") then Some 2%N else None;
|}.

Definition host_dek : Dek := mkDek [].
Definition host_secrets : Secrets := mkSecrets (Some "token") (<[1 := host_dek]> (<[2 := host_dek]> ∅))%N.

(** Home is document 1, document 2 is shared. *)
Definition opened : result SyncError (Session CliDb Secrets * gset N) :=
  open_resident host_secrets (Some "https://monoplan.example") 1 77 ∅ cli_empty.

Lemma opened_ok : is_ok opened = true.
Proof. by vm_compute. Qed.

Definition host_at (is_ : list (Z * HostInput)) : option (Host CliDb Secrets) :=
  match opened with
  | Ok (s, locked) => run_inputs is_ (host_new s locked 0)
  | Err _ => None
  end.

Definition connected_inputs : list (Z * HostInput) :=
  [(0%Z, InConnectDue); (20%Z, InConnectResult (Ok (mkSocket [] None)))].

(** The host after a run, and any other host should the run fail. *)
Definition host_after (is_ : list (Z * HostInput)) : Host CliDb Secrets :=
  default (host_new (mkSession host_secrets None 0 ∅ cli_empty 0 (mkLease 0 0)) ∅ 0) (host_at is_).

Lemma host_after_reaches is_ : bool_decide (is_Some (host_at is_)) = true -> exists s locked,
  opened = Ok (s, locked) /\ reaches (host_new s locked 0) (host_after is_).
Proof.
  intros Hs%bool_decide_eq_true. pose proof opened_ok as Ho. unfold host_after, host_at in *.
  destruct opened as [[s locked]|e]; [|done]. exists s, locked. split; [done|].
  destruct (run_inputs is_ _) as [h|] eqn:E; [|by destruct Hs].
  apply (run_inputs_reaches is_ _ (host_new s locked 0)); [constructor|done].
Qed.

(** A command that adds operation [n]. *)
Definition add_op (n : N) (d : gset N) : gset N := {[n]} ∪ d.
