(* ===== verification/HostLink.v ===== *)
(** The whole loop: from a host that has just opened its profile, in any run,
    the engines agree with the socket, a profile without an account stays off
    the network, and the reconnect delay keeps its bounds. *)
From S2P Require Import Prelude.
From S2P Require Import Wire.
From S2P Require Import Crypto.
From S2P Require Import Registers.
From S2P Require Import Tables.
From S2P Require Import Storage.
From S2P Require Import Sqlite.
From S2P Require Import SyncDoc.
From S2P Require Import Engine.
From S2P Require Import EngineFacts.
From S2P Require Import Instances.
From S2P Require Import HostStore.
From S2P Require Import HostSession.
From S2P Require Import Host.
From S2P Require Import HostFacts.
From S2P Require Import HostInstances.

Section frame.
Context `{Cipher, Oplog, Entropy, !HostLibs} {T : Type} `{LocalStorage T, HostStore T} {P : Type} `{ProfileDir P}.
Implicit Types (s : Session T P) (h : Host T P).

(** ** What only the connection's own inputs change *)

Definition backoff_ok h : Prop := (BACKOFF_MIN <= h_backoff h <= BACKOFF_MAX)%N.

Record hframe h h' : Prop := {
  fr_url : ss_server_url (h_session h') = ss_server_url (h_session h);
  fr_connecting : h_connecting h' = h_connecting h;
  fr_down : h_ws h = None -> h_ws h' = None;
  fr_backoff : backoff_ok h -> backoff_ok h';
}.

Lemma hframe_refl h : hframe h h.
Proof. by split. Qed.
Lemma hframe_trans h1 h2 h3 : hframe h1 h2 -> hframe h2 h3 -> hframe h1 h3.
Proof. intros [? ? ? ?] [? ? ? ?]. split; [congruence|congruence|auto|auto]. Qed.

Lemma hframe_map (f : Session T P -> Session T P) h :
  (forall s, ss_server_url (f s) = ss_server_url s) -> hframe h (map_session f h).
Proof. intros Hf. by split; cbn. Qed.
Lemma hframe_each m h : hframe h (map_session (each_engine m) h).
Proof. apply hframe_map, each_engine_frame. Qed.
Lemma hframe_one {A} id (m : E (T := T) A) h : hframe h (map_session (fun s => (on_engine id m s).2) h).
Proof. apply hframe_map. intros s. by destruct (on_engine_frame id m s) as (_ & -> & _). Qed.
Lemma hframe_try {A} (m : E (T := T) (result StorageError A)) h : hframe h (run_session (try_each m) h).2.
Proof. apply (hframe_map (fun s => (try_each m s).2)), try_each_frame. Qed.

Lemma schedule_backoff reason h : backoff_ok h -> backoff_ok (schedule_reconnect reason h).
Proof. unfold backoff_ok, schedule_reconnect, BACKOFF_MIN, BACKOFF_MAX. cbn. lia. Qed.
Lemma hframe_schedule reason h : hframe h (schedule_reconnect reason h).
Proof. split; [done|done|done|]. apply schedule_backoff. Qed.
Lemma hframe_drop reason h : hframe h (drop_socket reason h).
Proof. split; [done|done|done|]. intros Hb. by apply schedule_backoff. Qed.
Lemma hframe_disconnect reason h : hframe h (disconnect reason h).
Proof. eapply hframe_trans; [apply (hframe_each handle_disconnected)|apply hframe_drop]. Qed.
Lemma hframe_mark id now h : hframe h (run_session (mark_synced id now) h).2.
Proof. apply (hframe_map (fun s => (mark_synced id now s).2)), mark_synced_frame. Qed.

Create HintDb hframe.
#[local] Hint Resolve hframe_refl hframe_each hframe_one hframe_try hframe_disconnect hframe_drop hframe_schedule
  hframe_mark : hframe.

Lemma hframe_event h f x : hframe h (on_event (h, f) x).1.
Proof.
  destruct x as [id ev]. destruct ev; cbn [on_event]; cbn [fst]; auto with hframe.
  - case_decide; cbn [fst]; [|auto with hframe].
    eapply hframe_trans; [apply hframe_mark|]. eapply hframe_trans; [apply (hframe_each flush)|]. done.
  - destruct (engine_idle id (h_session h)); auto with hframe.
  - case_decide; cbn [fst]; auto with hframe.
Qed.
Lemma hframe_events evs : forall h f, hframe h (foldl on_event (h, f) evs).1.
Proof.
  induction evs as [|x evs IH]; intros h f; [done|]. cbn [foldl]. pose proof (hframe_event h f x) as Hx.
  destruct (on_event (h, f) x) as [h' f']. by eapply hframe_trans, IH.
Qed.
Lemma hframe_forget ids : forall h, hframe h (foldl forget_one h ids).
Proof.
  induction ids as [|id ids IH]; intros h; [done|]. cbn [foldl]. eapply hframe_trans; [|apply IH].
  apply (hframe_map (fun s => (forget_doc id s).2)). intros s. by destruct (forget_doc_frame id s).
Qed.
Lemma hframe_fan h : hframe h (fan_out h).
Proof. done. Qed.

Lemma drain_frame s : ss_server_url (drain_events s).2 = ss_server_url s.
Proof.
  unfold drain_events. generalize (doc_keys s). intros ids. revert s. induction ids as [|id ids IH]; intros s; [done|].
  cbn. destruct (on_engine_frame id take_events s) as (_ & Hk & _).
  destruct (on_engine id take_events s) as [evs s']. cbn in *. by rewrite IH.
Qed.
Lemma hframe_act h : hframe h (act_on_events h).
Proof.
  unfold act_on_events. set (h1 := set_session _ h). assert (F1 : hframe h h1) by (split; [apply drain_frame|done..]).
  pose proof (hframe_events (drain_events (h_session h)).1 h1 []) as F2.
  destruct (foldl on_event _ _) as [h2 forget]. cbn in F2.
  assert (F3 : hframe h2 (if ws_up h2 && negb (home_online (h_session h2)) then drop_socket "engine disconnected" h2 else h2)).
  { destruct (ws_up h2 && _); auto with hframe. }
  assert (F4 : hframe h (foldl forget_one (if ws_up h2 && negb (home_online (h_session h2)) then drop_socket "engine disconnected" h2 else h2) forget)).
  { eapply hframe_trans; [apply F1|]. eapply hframe_trans; [apply F2|]. eapply hframe_trans; [apply F3|]. apply hframe_forget. }
  case_decide; [done|]. eapply hframe_trans; [apply F4|apply hframe_fan].
Qed.

Lemma send_frame ids : forall sk s, ss_server_url (send_engines ids sk s).2 = ss_server_url s.
Proof.
  induction ids as [|id ids IH]; intros sk s; [done|]. cbn.
  assert (Hl : forall rest, ss_server_url (on_engine id (leave_outbox rest) (on_engine id take_outbox s).2).2 = ss_server_url s).
  { intros rest. destruct (on_engine_frame id (leave_outbox rest) (on_engine id take_outbox s).2) as (_ & -> & _).
    by destruct (on_engine_frame id take_outbox s) as (_ & -> & _). }
  destruct (send_frames _ sk) as [[[] rest] sk']; [by rewrite IH|apply Hl].
Qed.
Lemma hframe_pump h : hframe h (pump h).
Proof.
  unfold pump. destruct (h_ws h) as [sk|] eqn:Ew; [|apply hframe_act].
  pose proof (send_frame (doc_keys (h_session h)) sk (h_session h)) as Hu. fold (send_outboxes sk (h_session h)) in Hu.
  destruct (send_outboxes sk (h_session h)) as [[[] sk'] s]; cbn in Hu;
    (eapply hframe_trans; [|apply hframe_act || apply hframe_disconnect]); split; cbn; try done; by rewrite Ew.
Qed.
#[local] Hint Resolve hframe_pump hframe_fan : hframe.

Lemma hframe_settle h : hframe h (settle h).2.
Proof.
  unfold settle. pose proof (hframe_try persist_engine h) as F.
  change (run_session persist_engine_state h) with (run_session (try_each persist_engine) h).
  destruct (run_session _ h) as [[[]|e] h']; [|done]. cbn in *.
  eapply hframe_trans; [apply F|]. eapply hframe_trans; [apply (hframe_each flush)|].
  eapply hframe_trans; [apply hframe_pump|apply hframe_fan].
Qed.
#[local] Hint Resolve hframe_settle : hframe.

Lemma hframe_ws m h : hframe h (on_ws_message m h).
Proof.
  destruct m; cbn [on_ws_message]; auto with hframe; [|done].
  assert (F : hframe h (run_session persist_engine_state (map_session (route_server_bytes frame) h)).2).
  { eapply hframe_trans; [|apply (hframe_try persist_engine)]. apply hframe_map. intros s.
    unfold route_server_bytes. by destruct (on_engine_frame (match frame with Some f => server_frame_doc_id f | None => ss_primary s end)
      (Engine.handle_server_bytes frame) s) as (_ & -> & _). }
  destruct (run_session persist_engine_state _) as [[[]|e] h']; cbn in F; (eapply hframe_trans; [apply F|]);
    [|auto with hframe]. eapply hframe_trans; [apply hframe_pump|apply hframe_fan].
Qed.

Lemma hframe_subscribe workspace mint h : hframe h (on_subscribe workspace mint h).2.
Proof.
  unfold on_subscribe. destruct (session_resolve _ _) as [id|]; [|done].
  destruct (claim mint _ _) as [[[lease|] locked] st]; [|done].
  destruct (doc_for _ _) as [doc|]; [|done]. by destruct (export_snapshot_bytes doc).
Qed.

Lemma hframe_import id bytes h : hframe h (on_import id bytes h).2.
Proof.
  unfold on_import. destruct (h_subscribers h !! id) as [sub|]; [|done].
  destruct (doc_for _ _) as [doc|]; [|done].
  pose proof (fun d => hframe_one (su_doc_id sub) (set_engine_doc d) h) as Fd.
  destruct (import_mirror_update bytes doc) as [[imported|e] doc']; [|apply Fd].
  match goal with |- context [settle ?g] => pose proof (hframe_settle g) as F;
    assert (Fg : hframe h g) by (eapply hframe_trans; [apply (Fd doc')|done]);
    destruct (settle g) as [[[]|e] h'] end; by eapply hframe_trans.
Qed.

Lemma hframe_doc workspace edit h : hframe h (on_doc workspace edit h).2.
Proof.
  unfold on_doc. destruct (session_resolve _ _) as [id|]; [|done].
  eapply hframe_trans; [apply (hframe_one (A := unit))|apply hframe_settle].
Qed.

Lemma hframe_sync reply h : hframe h (on_sync reply h).2.
Proof.
  unfold on_sync. pose proof (hframe_try persist_engine h) as F.
  change (run_session persist_engine_state h) with (run_session (try_each persist_engine) h).
  destruct (run_session _ h) as [[[]|e] h']; [|done]. cbn in *. eapply hframe_trans; [apply F|].
  destruct (host_local_only h'); [done|]. destruct (ws_up h' && _).
  - eapply hframe_trans; [apply (hframe_each flush)|]. eapply hframe_trans; [apply hframe_pump|done].
  - by destruct (negb _ && negb _).
Qed.

Lemma hframe_reconnect h : hframe h (on_reconnect h).
Proof.
  assert (F : hframe h (set_backoff BACKOFF_MIN (h_next_connect h) h)).
  { by split. }
  unfold on_reconnect. destruct (host_local_only h); [done|]. cbn zeta.
  destruct (ws_up _); [eapply hframe_trans; [apply F|apply hframe_disconnect]|].
  destruct (h_connecting _); [done|]. by eapply hframe_trans; [apply F|].
Qed.

Lemma hframe_create name dek seed server h : hframe h (on_create name dek seed server h).2.
Proof.
  unfold on_create. destruct (host_local_only h); [done|]. unfold run_session.
  destruct (create_doc name dek seed server (h_session h)) as [r s'] eqn:Ec.
  destruct (create_doc_spec _ _ _ _ _ _ _ Ec) as (_ & Hu & _). cbn [fst snd].
  assert (F : hframe h (set_session s' h)) by by split.
  destruct r as [id|e]; [|done]. eapply hframe_trans; [apply F|]. eapply hframe_trans; [|apply hframe_settle].
  destruct (ws_up _); [|done]. apply (hframe_one id handle_connected).
Qed.

Lemma hframe_delete workspace server h : hframe h (on_delete workspace server h).
Proof.
  unfold on_delete. destruct (session_resolve _ _) as [id|]; [|done].
  assert (F : hframe h (run_session (delete_doc id server) h).2).
  { apply (hframe_map (fun s => (delete_doc id server s).2)). intros s. unfold delete_doc. case_decide; [done|].
    destruct (ss_docs s !! id); [|done]. destruct (ss_server_url s) eqn:E; [|done].
    destruct (read_secrets _) as [secrets|]; [|done]. destruct (sec_device_token secrets); [|done].
    destruct server; [|done]. destruct (forget_doc_frame id s) as [_ ->]. done. }
  destruct (run_session (delete_doc id server) h) as [[[]|e] h']; [|done].
  eapply hframe_trans; [apply F|apply hframe_fan].
Qed.

Lemma hframe_tick h : hframe h (on_persist_tick h).2.
Proof.
  unfold on_persist_tick. pose proof (hframe_try persist_engine h) as F1.
  change (run_session persist_engine_state h) with (run_session (try_each persist_engine) h).
  destruct (run_session _ h) as [[[]|e] h1]; [|done]. cbn -[run_session] in F1 |- *.
  eapply hframe_trans; [apply F1|].
  pose proof (hframe_try (snapshot_if_wal_exceeds SNAPSHOT_MAX_WAL_ROWS SNAPSHOT_MAX_WAL_BYTES) h1) as F2.
  change (run_session session_fold h1) with (run_session (try_each (snapshot_if_wal_exceeds SNAPSHOT_MAX_WAL_ROWS SNAPSHOT_MAX_WAL_BYTES)) h1).
  destruct (run_session _ h1) as [[b|e] h2]; cbn in F2 |- *; [|done].
  eapply hframe_trans; [apply F2|]. eapply hframe_trans; [apply hframe_fan|].
  destruct (ws_up (fan_out h2)); [|done]. eapply hframe_trans; [|apply hframe_pump].
  eapply hframe_trans; [|apply (hframe_each flush)].
  destruct (match h_connected_at _ with Some _ => _ | None => _ end); [|done]. apply (hframe_each handle_timeout).
Qed.

Lemma hframe_ping h : hframe h (on_ping_tick h).
Proof.
  unfold on_ping_tick. destruct (h_awaiting_pong h); [apply hframe_disconnect|].
  destruct (h_ws h) as [sk|] eqn:Ew; [|done]. destruct (send_raw sk) as [sk'|]; [|apply hframe_disconnect].
  split; try done. by rewrite Ew.
Qed.

Lemma hframe_step i h r h' : host_step i h = (r, h') ->
  match i with InConnectDue | InConnectResult _ => False | _ => True end -> hframe h h'.
Proof.
  intros Hs Hi. destruct i; cbn [host_step] in Hs; try done; try (injection Hs as <- <-).
  - apply hframe_ws.
  - apply hframe_subscribe.
  - pose proof (hframe_import id bytes h) as F. destruct (on_import id bytes h) as [[?|?] ?]; by injection Hs as <- <-.
  - done.
  - pose proof (hframe_doc workspace edit h) as F. by rewrite Hs in F.
  - pose proof (hframe_sync reply h) as F. by rewrite Hs in F.
  - apply hframe_reconnect.
  - pose proof (hframe_create name dek seed server h) as F. by rewrite Hs in F.
  - apply hframe_delete.
  - pose proof (hframe_tick h) as F. by rewrite Hs in F.
  - apply hframe_ping.
Qed.

(** ** Runs *)

Record attached (home : Uuid) (url : option string) h : Prop := {
  at_solid : solid home h;
  at_url : ss_server_url (h_session h) = url;
  at_backoff : backoff_ok h;
  at_connecting : h_connecting h = true -> h_ws h = None;
  at_local : url = None -> h_ws h = None /\ h_connecting h = false;
}.

Lemma attached_frame home url h h' : hframe h h' -> solid home h' -> attached home url h -> attached home url h'.
Proof.
  intros [Fu Fc Fd Fb] Hs' [Hs Hu Hb Hc Hl]. split; [done|congruence|auto| |].
  - rewrite Fc. auto.
  - intros Hn. destruct (Hl Hn) as [Hw Hk]. split; [auto|congruence].
Qed.

Lemma attached_step home url i h r h' : enabled i h = true -> host_step i h = (r, h') ->
  attached home url h -> attached home url h'.
Proof.
  intros Hi Hs Ha. pose proof (step_solid home i h r h' Hi Hs (at_solid _ _ _ Ha)) as Hsol.
  destruct (match i with InConnectDue | InConnectResult _ => true | _ => false end) eqn:Ei.
  - destruct Ha as [_ Hu Hb Hc Hl]. destruct i; try done; cbn [host_step] in Hs; injection Hs as <- <-; cbn in Hi.
    + unfold on_connect_due, host_local_only, is_local_only in *. rewrite Hu in *.
      apply andb_true_iff in Hi as [[[Hw _]%andb_true_iff Hn]%andb_true_iff _].
      unfold ws_up in Hw. apply negb_true_iff, bool_decide_eq_false, eq_None_not_Some in Hw.
      apply negb_true_iff, bool_decide_eq_false in Hn. rewrite bool_decide_false in * by done.
      by split.
    + assert (Hurl : url <> None) by (intros Hn; destruct (Hl Hn); congruence).
      destruct r0 as [ws|e].
      * match goal with Hx : solid _ ?g |- attached _ _ ?g => change g with (pump (set_offline_reason None
          (map_session session_connected (set_link (Some (h_now h)) false
            (set_backoff BACKOFF_MIN (h_next_connect h) (set_ws (Some ws) (set_connecting false h))))))) in * end.
        match goal with Hx : solid _ (pump ?g) |- _ => destruct (hframe_pump g) as [Fu Fc Fd Fb] end.
        split; [done| | | |done].
        -- rewrite Fu. cbn. unfold session_connected. by rewrite each_engine_frame.
        -- apply Fb. by split.
        -- rewrite Fc. done.
      * split; try done. by apply schedule_backoff.
  - eapply attached_frame; [|done|done]. eapply hframe_step; [done|]. by destruct i.
Qed.

Lemma reaches_attached home url h0 h : attached home url h0 -> reaches h0 h -> attached home url h.
Proof.
  intros Ha Hr. induction Hr as [|h now jitter i h' Hr IH Hi Hs]; [done|].
  eapply attached_step; [done|done|]. by destruct IH; split.
Qed.

Lemma boot_docs_spec secrets ids : forall s s', boot_docs secrets ids s = (Ok tt, s') ->
  ss_primary s' = ss_primary s /\ ss_server_url s' = ss_server_url s
  /\ (engines_ok at_rest s -> engines_ok at_rest s')
  /\ (forall id, is_Some (ss_docs s !! id) \/ id ∈ ids -> is_Some (ss_docs s' !! id)).
Proof.
  induction ids as [|id ids IH]; intros s s' Hb; cbn in Hb.
  - injection Hb as <-. split_and!; try done. intros id [?|[]%elem_of_nil]; done.
  - destruct (sec_docs secrets !! id) as [dek|]; [|done].
    destruct (boot_doc_state dek id s) as [[ds|e] s1] eqn:Ed; [|done].
    destruct (boot_doc_state_spec _ _ _ _ _ Ed) as [(Hd & Hp & Hu) Ho].
    destruct (IH _ _ Hb) as (Hp' & Hu' & Hk & Hall). cbn in *. split_and!; [congruence|congruence| |].
    + intros He. apply Hk. intros j ds' E. cbn in E. rewrite Hd in E.
      destruct (decide (id = j)) as [->|Hj]; [rewrite lookup_insert_eq in E; injection E as <-; by apply Ho|].
      rewrite lookup_insert_ne in E by done. exact (He _ _ E).
    + intros j Hj. apply Hall. destruct (decide (id = j)) as [->|Hn]; [left; by rewrite lookup_insert_eq|].
      rewrite lookup_insert_ne, Hd by done. destruct Hj as [?|Hj]; [by left|right].
      by apply elem_of_cons in Hj as [?|?].
Qed.

Lemma open_attached profile url primary mint locked store s locked' now :
  open_resident profile url primary mint locked store = Ok (s, locked') ->
  attached primary url (host_new s locked' now).
Proof.
  unfold open_resident. destruct (read_secrets profile) as [secrets|]; [|done].
  destruct (claim mint locked store) as [[[peer|] lk] st]; [|done].
  destruct (boot_docs _ _ _) as [[[]|] s1] eqn:Eb; [|done]. intros [= <- <-].
  destruct (boot_docs_spec _ _ _ _ Eb) as (Hp & Hu & Hk & Hall). cbn in *. split; try done.
  unfold solid. cbn. split; [done| |].
  - apply Hall. right. by left.
  - apply Hk. intros id ds E. cbn in E. by rewrite lookup_empty in E.
Qed.

(** C8: The engines follow the socket. In every run of the resident host, from
    the opening of its profile and whatever the network, the clients and the
    storage do: while there is no socket every engine is at rest, so that the
    next connect opens each document exactly once; while there is one, Home
    is online (an engine that drops out by itself has queued the event on
    which the host drops the socket); no connect attempt runs beside a
    socket; a profile without an account never connects; and the reconnect
    delay stays between its two bounds. *)
Theorem engines_follow_socket (profile : P) url primary mint locked (store : T) s locked' now h :
  open_resident profile url primary mint locked store = Ok (s, locked') ->
  reaches (host_new s locked' now) h ->
  (h_ws h = None -> forall id ds, ss_docs (h_session h) !! id = Some ds -> e_state (ds_engine ds) = Disconnected)
  /\ (is_Some (h_ws h) -> home_online (h_session h) = true)
  /\ (h_connecting h = true -> h_ws h = None)
  /\ (url = None -> h_ws h = None /\ h_connecting h = false)
  /\ (BACKOFF_MIN <= h_backoff h <= BACKOFF_MAX)%N.
Proof.
  intros Hopen Hr. pose proof (open_attached _ _ _ _ _ _ _ _ now Hopen) as Ha.
  destruct (reaches_attached _ _ _ _ Ha Hr) as [Hs _ Hb Hc Hl]. unfold solid, ws_up in Hs. split_and!; try done; try apply Hb.
  - intros Hw id ds E. rewrite Hw in Hs. exact (so_engines _ _ _ Hs _ _ E).
  - intros Hw. rewrite bool_decide_true in Hs by done. by eapply home_on_online.
Qed.
End frame.

(** The server refuses Home on the second socket: the engine drops out, the
    host follows, and document 2 is at rest with it. *)
Definition refused_inputs : list (Z * HostInput) :=
  connected_inputs ++ [(30%Z, InWs (WsBinary (Some (DocOpened 1 5))));
    (40%Z, InWs (WsBinary (Some (DocRejected 1 "no"))))].

Definition refused : Host CliDb Secrets := host_after refused_inputs.

Lemma engines_follow_socket_witness : exists s locked,
  opened = Ok (s, locked) /\ reaches (host_new s locked 0) refused
  /\ h_ws refused = None /\ h_backoff refused = 1000%N /\ h_next_connect refused = 540%Z
  /\ (forall id ds, ss_docs (h_session refused) !! id = Some ds -> e_state (ds_engine ds) = Disconnected)
  /\ size (ss_docs (h_session refused)) = 2.
Proof.
  destruct (host_after_reaches refused_inputs) as (s & locked & E & Hr); [by vm_compute|]. exists s, locked.
  assert (Hw : h_ws refused = None) by by vm_compute.
  split; [exact E|]. split; [exact Hr|]. split; [exact Hw|]. split; [by vm_compute|]. split; [by vm_compute|].
  split; [|by vm_compute].
  destruct (engines_follow_socket host_secrets _ _ _ _ _ s locked 0 refused E Hr) as (H1 & _). exact (H1 Hw).
Defined.

(** ** Two runs *)

(** Both documents open and idle. *)
Definition idle_inputs : list (Z * HostInput) :=
  connected_inputs ++ [(30%Z, InWs (WsBinary (Some (DocOpened 1 5)))); (30%Z, InWs (WsBinary (Some (DocOpened 2 5))));
    (31%Z, InWs (WsBinary (Some (UpdatesBatch 1 [] true)))); (31%Z, InWs (WsBinary (Some (UpdatesBatch 2 [] true))))].

(** A [Sync] that arrives while a push is on its way is parked until "the
    attempt resolves", but no attempt is under way: the push is acknowledged,
    everything is idle and sent, the ticks go on, and the request is still
    unanswered. *)
Definition parked_inputs : list (Z * HostInput) :=
  idle_inputs ++ [(40%Z, InDoc None (add_op 7)); (50%Z, InSync 9);
    (60%Z, InWs (WsBinary (Some (UpdatesAck 1 [mkAck 1004 1])))); (1060%Z, InPersistTick); (2060%Z, InPersistTick)].

Example parked_sync_unanswered : let h := host_after parked_inputs in
  h_pending_syncs h = [9%N] /\ h_synced h = [] /\ ws_up h = true
  /\ all_idle (h_session h) = true /\ any_unsynced_ops (h_session h) = false.
Proof. vm_compute. by split_and!. Qed.

(** An error of the old connection, left in an engine's queue by a send that
    failed, is drained on the next connection, which it drops. *)
Definition stale_inputs : list (Z * HostInput) :=
  [(0%Z, InDoc None (add_op 7)); (1%Z, InConnectDue); (20%Z, InConnectResult (Ok (mkSocket [] (Some 3%N))));
   (30%Z, InWs (WsBinary (Some (DocOpened 1 5))));
   (40%Z, InWs (WsBinary (Some (UpdatesBatch 1 [mkStored 1 (mkBlob [] [])] true))));
   (540%Z, InConnectDue); (560%Z, InConnectResult (Ok (mkSocket [] None)))].

Example stale_error_drops_new_socket : let h := host_after stale_inputs in
  ws_up h = false /\ h_offline_reason h = Some "engine error: apply remote blob".
Proof. vm_compute. by split. Qed.
