(* ===== verification/Desk.v ===== *)
(** The mirrors of a host's documents (core/web/src/lib.rs, the mirror engine;
    cli/src/daemon.rs, its subscriptions): a window's copy of a document, the
    updates it exports for the host and those it takes from its sink, and the
    host and its windows as one system. *)
From S2P Require Import Prelude.
From S2P Require Import Wire.
From S2P Require Import Crypto.
From S2P Require Import Registers.
From S2P Require Import Tables.
From S2P Require Import Storage.
From S2P Require Import SyncDoc.
From S2P Require Import Engine.
From S2P Require Import HostStore.
From S2P Require Import HostSession.
From S2P Require Import Host.

(** ** The mirror engine *)

Section engine.
Context `{Oplog}.

Record MirrorEngine : Type := mkMirrorEngine {
  me_doc : SyncDoc;
  me_last_sent : VV;
  me_outbox : list octets;
}.
Implicit Types (m : MirrorEngine).

(** [Doc.loadWithPeer] on the seed: the snapshot is history, nothing of it
    awaits capture. *)
Definition load_with_peer (bytes : octets) : result DocError SyncDoc :=
  let? inner := loro (import_with bytes loro_empty) in
  Ok (mark_persisted (mkSyncDoc inner (oplog_vv loro_empty))).

Definition mirror (doc : SyncDoc) : MirrorEngine := mkMirrorEngine doc (doc_oplog_vv doc) [].

Definition mirror_flush m : MirrorEngine :=
  let now := doc_oplog_vv (me_doc m) in
  if vv_includes (me_last_sent m) now then m
  else
    match export_updates_after (me_last_sent m) (me_doc m) with
    | Ok bytes => mkMirrorEngine (me_doc m) now (if decide (bytes = []) then me_outbox m else me_outbox m ++ [bytes])
    | Err _ => m
    end.

Definition take_mirror_outbox m : option octets * MirrorEngine :=
  match me_outbox m with
  | [] => (None, m)
  | bytes :: rest => (Some bytes, mkMirrorEngine (me_doc m) (me_last_sent m) rest)
  end.

Definition apply_mirror_update (bytes : octets) m : result DocError unit * MirrorEngine :=
  match import_host_update bytes (me_doc m) with
  | (Err e, doc) => (Err e, mkMirrorEngine doc (me_last_sent m) (me_outbox m))
  | (Ok range, doc) => (Ok tt, mkMirrorEngine doc (vv_merge (me_last_sent m) range) (me_outbox m))
  end.

(** All of a queue, in order; [None] as soon as one update is refused. *)
Fixpoint apply_all (queue : list octets) m : option MirrorEngine :=
  match queue with
  | [] => Some m
  | bytes :: queue =>
      match apply_mirror_update bytes m with
      | (Ok _, m) => apply_all queue m
      | (Err _, _) => None
      end
  end.

Fixpoint host_import_all (queue : list octets) (d : SyncDoc) : option SyncDoc :=
  match queue with
  | [] => Some d
  | bytes :: queue =>
      match import_mirror_update bytes d with
      | (Ok _, d) => host_import_all queue d
      | (Err _, _) => None
      end
  end.
End engine.

(** ** The host and its windows *)

Section desk.
Context `{Cipher, Oplog, Entropy, !HostLibs} {T : Type} `{LocalStorage T, HostStore T} {P : Type} `{ProfileDir P}.

(** A window by its subscription: [wi_taken] deliveries of its sink are
    imported; [wi_calls] are its imports the host has not handled, oldest
    first. *)
Record Window : Type := mkWindow { wi_engine : MirrorEngine; wi_taken : nat; wi_calls : list octets }.

Record Desk : Type := mkDesk { de_host : Host T P; de_windows : gmap N Window }.

(** Deliveries a window has not taken yet, and its updates on the way to the
    host. *)
Definition incoming (sink : Sink) (w : Window) : list octets := drop (wi_taken w) (si_updates sink).
Definition outgoing (w : Window) : list octets := wi_calls w ++ me_outbox (wi_engine w).

(** A command only adds operations, and the server's new ids are new. *)
Definition input_fits (i : HostInput) (h : Host T P) : Prop :=
  match i with
  | InSubscribe _ _ | InImport _ _ => False
  | InDoc _ edit => forall d, oplog_vv d ⊑v oplog_vv (edit d)
  | InCreate _ _ _ (Ok id) =>
      ss_docs (h_session h) !! id = None /\ forall n sub, h_subscribers h !! n = Some sub -> su_doc_id sub <> id
  | _ => True
  end.

(** The host's inputs and the windows' own steps, in any order. *)
Inductive desk_step : Desk -> Desk -> Prop :=
  | desk_host h ws now jitter i h' :
      input_fits i h -> enabled i (set_time now jitter h) = true ->
      host_step i (set_time now jitter h) = (Ok tt, h') ->
      desk_step (mkDesk h ws) (mkDesk h' ws)
  | desk_subscribe h ws now jitter workspace mint seed h' doc :
      on_subscribe workspace mint (set_time now jitter h) = (Ok seed, h') ->
      load_with_peer (sd_snapshot seed) = Ok doc ->
      desk_step (mkDesk h ws) (mkDesk h' (<[sd_id seed := mkWindow (mirror doc) 0 []]> ws))
  | desk_subscribe_fails h ws now jitter workspace mint e h' :
      on_subscribe workspace mint (set_time now jitter h) = (Err e, h') ->
      desk_step (mkDesk h ws) (mkDesk h' ws)
  | desk_import h ws now jitter id m taken bytes calls r h' :
      ws !! id = Some (mkWindow m taken (bytes :: calls)) ->
      on_import id bytes (set_time now jitter h) = (Ok r, h') ->
      desk_step (mkDesk h ws) (mkDesk h' (<[id := mkWindow m taken calls]> ws))
  | desk_edit h ws id m taken calls inner :
      ws !! id = Some (mkWindow m taken calls) -> doc_oplog_vv (me_doc m) ⊑v oplog_vv inner ->
      desk_step (mkDesk h ws)
        (mkDesk h (<[id := mkWindow (mkMirrorEngine (mkSyncDoc inner (sd_last_persisted_vv (me_doc m)))
                                       (me_last_sent m) (me_outbox m)) taken calls]> ws))
  | desk_flush h ws id m taken calls :
      ws !! id = Some (mkWindow m taken calls) ->
      desk_step (mkDesk h ws) (mkDesk h (<[id := mkWindow (mirror_flush m) taken calls]> ws))
  | desk_call h ws id m taken calls bytes m' :
      ws !! id = Some (mkWindow m taken calls) -> take_mirror_outbox m = (Some bytes, m') ->
      desk_step (mkDesk h ws) (mkDesk h (<[id := mkWindow m' taken (calls ++ [bytes])]> ws))
  | desk_take h ws id m taken calls sink bytes :
      ws !! id = Some (mkWindow m taken calls) -> h_sinks h !! id = Some sink ->
      si_updates sink !! taken = Some bytes ->
      desk_step (mkDesk h ws) (mkDesk h (<[id := mkWindow (apply_mirror_update bytes m).2 (S taken) calls]> ws)).

Inductive desk_run (d0 : Desk) : Desk -> Prop :=
  | desk_start : desk_run d0 d0
  | desk_next d d' : desk_run d0 d -> desk_step d d' -> desk_run d0 d'.
End desk.
Arguments Desk {_} _ _.
