(* ===== verification/DeskFacts.v ===== *)
(** A document never loses operations: every operation of its engine, whatever
    the server sends and the storage answers, leaves it with at least the
    operations it had; and so does every call of the session that holds it.

    A host and its windows never lose an operation to each other. Each way of
    a subscription is a queue of updates, each building on what the receiver
    holds by the time it is taken; what a side believes the other was sent is
    what the other will hold when its queue is empty. *)
From S2P Require Import Prelude.
From S2P Require Import Wire.
From S2P Require Import Crypto.
From S2P Require Import Registers.
From S2P Require Import Tables.
From S2P Require Import Storage.
From S2P Require Import SyncDoc.
From S2P Require Import Engine.
From S2P Require Import EngineFacts.
From S2P Require Import HostStore.
From S2P Require Import HostSession.
From S2P Require Import Host.
From S2P Require Import HostFacts.
From S2P Require Import Desk.

Section engine.
Context `{Cipher, Oplog, !OplogOk, Entropy} {T : Type} `{LocalStorage T}.
Variable v : VV.

Definition holds (e : Engine T) : Prop := v ⊑v doc_oplog_vv (e_doc e).

Lemma import_one_grows dek b d r d' : import_remote_blob dek b d = (r, d') -> doc_oplog_vv d ⊑v doc_oplog_vv d'.
Proof.
  unfold import_remote_blob. destruct (negb _); [intros [= <- <-]; apply vle_refl|].
  destruct (crypto _) as [plaintext|]; [|intros [= <- <-]; apply vle_refl].
  destruct (blob_end_vv plaintext) as [v'|] eqn:Ee; cbn; [|intros [= <- <-]; apply vle_refl].
  destruct (import_with plaintext (sd_inner d)) as [inner|] eqn:Ei; cbn; [|intros [= <- <-]; apply vle_refl].
  intros [= <- <-]. exact (proj1 (import_law _ _ _ _ Ei Ee)).
Qed.
Lemma import_batch_grows dek bs : forall imp d r d', import_batch dek bs imp d = (r, d') ->
  doc_oplog_vv d ⊑v doc_oplog_vv d'.
Proof.
  induction bs as [|b bs IH]; intros imp d r d'; cbn; [intros [= <- <-]; apply vle_refl|].
  destruct (import_remote_blob dek b d) as [[w|] d1] eqn:E1; intros E.
  - eapply vle_trans; [by eapply import_one_grows|by eapply IH].
  - injection E as <- <-. by eapply import_one_grows.
Qed.

Lemma holds_same e e' : sd_inner (e_doc e') = sd_inner (e_doc e) -> holds e -> holds e'.
Proof. unfold holds, doc_oplog_vv. by intros ->. Qed.
Lemma holds_modify f : (forall e, sd_inner (e_doc (f e)) = sd_inner (e_doc e)) -> keeps holds (modify_e (T := T) f).
Proof. intros Hf e. apply holds_same, Hf. Qed.
Lemma holds_emit ev : keeps holds (emit (T := T) ev).
Proof. by apply holds_modify. Qed.
Lemma holds_error w : keeps holds (error (T := T) w).
Proof. by apply holds_modify. Qed.
Lemma holds_go s : keeps holds (go (T := T) s).
Proof. by apply holds_modify. Qed.
Lemma holds_draw {A} (f : nat -> A) : keeps holds (draw (T := T) f).
Proof. by intros e. Qed.
Lemma holds_stored {A} (f : Uuid -> call T A) : keeps holds (stored f).
Proof. by intros e. Qed.
Lemma holds_encode f : keeps holds (encode_into_outbox (T := T) f).
Proof. by intros e. Qed.
Lemma holds_disconnect : keeps holds (go_disconnected (T := T)).
Proof. by intros e. Qed.
Lemma holds_send f w : keeps holds (send_or_disconnect (T := T) f w).
Proof. by intros e. Qed.
#[local] Hint Resolve holds_emit holds_error holds_go holds_draw holds_stored holds_encode holds_disconnect
  holds_send : keeps.
#[local] Hint Extern 1 (keeps _ (modify_e _)) => (apply holds_modify; done) : keeps.

Lemma holds_capture : keeps holds (capture_local_ops (T := T)).
Proof. unfold capture_local_ops. keep. Qed.
#[local] Hint Resolve holds_capture : keeps.
Lemma holds_fold rows bytes : keeps holds (snapshot_if_wal_exceeds (T := T) rows bytes).
Proof. unfold snapshot_if_wal_exceeds, write_local_snapshot. keep. Qed.
Lemma holds_notify n : keeps holds (notify_oplog_durable (T := T) n).
Proof. unfold notify_oplog_durable, queue_ack_if_advanced. keep. Qed.
Lemma holds_record : keeps holds (start_push_record (T := T)).
Proof. unfold start_push_record. keep. Qed.
#[local] Hint Resolve holds_record : keeps.
Lemma holds_push : keeps holds (try_start_push (T := T)).
Proof. unfold try_start_push. keep. destruct a1, a2; keep. Qed.
#[local] Hint Resolve holds_push : keeps.
Lemma holds_flush : keeps holds (flush (T := T)).
Proof. unfold flush. keep. Qed.
Lemma holds_connected : keeps holds (handle_connected (T := T)).
Proof. unfold handle_connected. keep. Qed.
Lemma holds_disconnected : keeps holds (handle_disconnected (T := T)).
Proof. unfold handle_disconnected. keep. Qed.
Lemma holds_timeout : keeps holds (handle_timeout (T := T)).
Proof. unfold handle_timeout. keep. Qed.

Lemma holds_persist : keeps holds (persist_engine (T := T)).
Proof.
  unfold persist_engine. apply keeps_bind; [apply holds_capture|]. intros [?|?]; [|keep].
  apply keeps_bind; [apply holds_fold|]. intros [?|?]; [|keep].
  apply keeps_bind; [keep|]. intros n. apply keeps_bind; [apply holds_notify|]. intros. keep.
Qed.

(** An import, and what follows it. *)
Lemma holds_import {A} (bs : list EncryptedBlob) (k : result DocError VV -> E (T := T) A) :
  (forall r, keeps holds (k r)) ->
  keeps holds (d ← get_e e_doc; dek ← get_e e_dek;
    (let '(r, d) := apply_remote_batch dek bs d in modify_e (set_doc d) ;; k r)).
Proof.
  intros Hk e He.
  change (holds ((let '(r, d) := apply_remote_batch (e_dek e) bs (e_doc e) in modify_e (set_doc d) ;; k r) e).2).
  destruct (apply_remote_batch (e_dek e) bs (e_doc e)) as [r d] eqn:E.
  apply (Hk r (set_doc d e)). unfold holds. cbn. eapply vle_trans; [exact He|]. by eapply import_batch_grows.
Qed.

Lemma holds_ingest n : keeps holds (ingest_seq (T := T) n).
Proof. unfold ingest_seq. keep. Qed.
Lemma holds_announce n : keeps holds (announce_frontier (T := T) n).
Proof. unfold announce_frontier. keep. Qed.
Lemma holds_log vv update : keeps holds (log_remote (T := T) vv update).
Proof. unfold log_remote. keep. Qed.
#[local] Hint Resolve holds_ingest holds_announce holds_log : keeps.
Lemma holds_apply updates : keeps holds (apply_remote_updates (T := T) updates).
Proof.
  unfold apply_remote_updates. case_decide; [keep|].
  apply (holds_import (sb_blob <$> updates) (fun r => match r with Err _ => _ | Ok _ => _ end)).
  intros [w|e]; keep; apply keeps_efor; intros; keep.
Qed.
#[local] Hint Resolve holds_apply : keeps.
Lemma holds_pull : keeps holds (pull (T := T)).
Proof. unfold pull. keep. Qed.
Lemma holds_raise n : keeps holds (raise_frontier (T := T) n).
Proof. unfold raise_frontier. keep. Qed.
#[local] Hint Resolve holds_pull holds_raise : keeps.
Lemma holds_bootstrap n : keeps holds (finish_bootstrap (T := T) n).
Proof. unfold finish_bootstrap. keep. Qed.
#[local] Hint Resolve holds_bootstrap : keeps.
Lemma holds_snapshot n b complete : keeps holds (handle_snapshot (T := T) n b complete).
Proof.
  unfold handle_snapshot. apply keeps_bind; [keep|]. intros st. case_decide; [keep|].
  apply (holds_import [b] (fun r => match r with Err _ => _ | Ok _ => _ end)). intros [w|e]; keep.
Qed.
Lemma holds_ack acks : keeps holds (handle_updates_ack (T := T) acks).
Proof. unfold handle_updates_ack. keep. Qed.
Lemma holds_batch updates complete : keeps holds (handle_updates_batch (T := T) updates complete).
Proof. unfold handle_updates_batch. keep. Qed.
Lemma holds_broadcast updates : keeps holds (handle_updates_broadcast (T := T) updates).
Proof. unfold handle_updates_broadcast. keep. Qed.
Lemma holds_required : keeps holds (handle_snapshot_required (T := T)).
Proof. unfold handle_snapshot_required. keep. Qed.
Lemma holds_opened n : keeps holds (handle_doc_opened (T := T) n).
Proof. unfold handle_doc_opened. keep. Qed.
Lemma holds_gone reason : keeps holds (handle_doc_gone (T := T) reason).
Proof. unfold handle_doc_gone. keep. Qed.
Lemma holds_produce base : keeps holds (produce_snapshot (T := T) base).
Proof. unfold produce_snapshot. keep. Qed.
#[local] Hint Resolve holds_snapshot holds_ack holds_batch holds_broadcast holds_required holds_opened holds_gone
  holds_produce : keeps.
Lemma holds_request floor base : keeps holds (handle_snapshot_request (T := T) floor base).
Proof. unfold handle_snapshot_request. keep. Qed.
#[local] Hint Resolve holds_request : keeps.
Lemma holds_frame frame : keeps holds (handle_server_bytes (T := T) frame).
Proof. unfold handle_server_bytes, handle_server_frame. keep. Qed.
End engine.

(** ** The session's documents *)

Section session.
Context `{Cipher, Oplog, !OplogOk, Entropy, !HostLibs} {T : Type} `{LocalStorage T, HostStore T} {P : Type} `{ProfileDir P}.
Implicit Types (s : Session T P).

(** Every document open afterwards was open before, with no more operations. *)
Definition grows s s' : Prop := forall id d', doc_for id s' = Some d' ->
  exists d, doc_for id s = Some d /\ doc_oplog_vv d ⊑v doc_oplog_vv d'.

Lemma grows_docs s s' : ss_docs s' = ss_docs s -> grows s s'.
Proof. unfold grows, doc_for. intros ->. intros id d' E. exists d'. split; [done|apply vle_refl]. Qed.
Lemma grows_refl s : grows s s.
Proof. by apply grows_docs. Qed.
Lemma grows_trans s1 s2 s3 : grows s1 s2 -> grows s2 s3 -> grows s1 s3.
Proof.
  intros G1 G2 id d3 E3. destruct (G2 _ _ E3) as (d2 & E2 & L2). destruct (G1 _ _ E2) as (d1 & E1 & L1).
  exists d1. split; [done|by eapply vle_trans].
Qed.

Lemma doc_on_engine {A} id (m : E (T := T) A) s j : doc_for j (on_engine id m s).2
  = if decide (j = id) then (fun ds => e_doc (m (lend s ds)).2) <$> ss_docs s !! id else doc_for j s.
Proof.
  unfold doc_for. rewrite on_engine_docs. case_decide; [|done]. subst. by destruct (ss_docs s !! id).
Qed.

Definition growing {A} (m : E (T := T) A) : Prop := forall v, keeps (holds v) m.

Lemma grows_on_engine {A} id (m : E (T := T) A) s : growing m -> grows s (on_engine id m s).2.
Proof.
  intros Hm j d'. rewrite doc_on_engine. case_decide as Hj.
  - subst j. unfold doc_for. destruct (ss_docs s !! id) as [ds|]; [|done]. intros [= <-].
    eexists. split; [done|]. apply Hm. apply vle_refl.
  - intros E. exists d'. split; [done|apply vle_refl].
Qed.
Lemma grows_each m s : growing m -> grows s (each_engine m s).
Proof.
  intros Hm. unfold each_engine. generalize (doc_keys s). intros ids. revert s.
  induction ids as [|id ids IH]; intros s; [apply grows_refl|]. cbn.
  eapply grows_trans; [by apply (grows_on_engine id m)|apply IH].
Qed.
Lemma grows_try {A} (m : E (T := T) (result StorageError A)) s : growing m -> grows s (try_each m s).2.
Proof.
  intros Hm. unfold try_each. generalize (doc_keys s). intros ids. revert s.
  induction ids as [|id ids IH]; intros s; [apply grows_refl|]. cbn.
  pose proof (grows_on_engine id m s Hm) as Hk.
  destruct (on_engine id m s) as [[[?|?]|] s']; cbn in Hk; [by eapply grows_trans, IH|done|by eapply grows_trans, IH].
Qed.
Lemma grows_mark id now s : grows s (mark_synced id now s).2.
Proof.
  unfold mark_synced. destruct (write_last_sync_at id now (ss_store s)) as [[[]|e] st]; [|by apply grows_docs].
  intros j d'. unfold doc_for. cbn. destruct (decide (id = j)) as [->|Hi].
  - rewrite lookup_alter_eq. destruct (ss_docs s !! j) as [ds|]; [|done]. intros [= <-].
    eexists. split; [done|apply vle_refl].
  - rewrite lookup_alter_ne by done. intros E. exists d'. split; [done|apply vle_refl].
Qed.
Lemma grows_forget id s : grows s (forget_doc id s).2.
Proof.
  destruct (forget_doc_docs id s) as [Hd|[_ Hd]]; [by apply grows_docs|].
  intros j d'. unfold doc_for. rewrite Hd. intros E. exists d'. split; [|apply vle_refl].
  destruct (decide (id = j)) as [->|Hi]; [by rewrite lookup_delete_eq in E|by rewrite lookup_delete_ne in E].
Qed.
Lemma grows_delete id server s : grows s (delete_doc id server s).2.
Proof.
  unfold delete_doc. case_decide; [apply grows_refl|].
  destruct (ss_docs s !! id); [|apply grows_refl]. destruct (ss_server_url s); [|apply grows_refl].
  destruct (read_secrets _) as [secrets|]; [|apply grows_refl].
  destruct (sec_device_token secrets); [|apply grows_refl]. destruct server; [apply grows_forget|apply grows_refl].
Qed.

Lemma growing_modify (f : Engine T -> Engine T) :
  (forall e, doc_oplog_vv (e_doc e) ⊑v doc_oplog_vv (e_doc (f e))) -> growing (modify_e f).
Proof. intros Hf v e He. unfold holds in *. cbn. by eapply vle_trans. Qed.
Lemma growing_set_inner (f : LoroDoc -> LoroDoc) (g : Engine T -> Engine T) :
  (forall d, oplog_vv d ⊑v oplog_vv (f d)) -> (forall e, sd_inner (e_doc (g e)) = f (sd_inner (e_doc e))) ->
  growing (modify_e g).
Proof. intros Hf Hg. apply growing_modify. intros e. unfold doc_oplog_vv. rewrite Hg. apply Hf. Qed.

Lemma grows_drain ids : forall s, grows s (drain_engines ids s).2.
Proof.
  induction ids as [|id ids IH]; intros s; [apply grows_refl|]. cbn.
  assert (G : grows s (on_engine id take_events s).2) by (apply (grows_on_engine id take_events); intros v e He; exact He).
  destruct (on_engine id take_events s) as [evs s']. by eapply grows_trans, IH.
Qed.
End session.

(** ** One way of a subscription *)

Section way.
Context `{Oplog, !OplogOk}.
Implicit Types (v w u : VV) (b : octets) (d : SyncDoc).

(** Taken in order, the updates bring a receiver at [v] to at least [w]. *)
Inductive feeds : VV -> list octets -> VV -> Prop :=
  | feeds_nil v : feeds v [] v
  | feeds_cons v b e bs w : exported b -> blob_end_vv b = Ok e -> blob_base b ⊑v v ->
      feeds (vv_merge v e) bs w -> feeds v (b :: bs) w.

Lemma merge_mono v v' e : v ⊑v v' -> vv_merge v e ⊑v vv_merge v' e.
Proof. intros Hv. apply vle_merge; [eapply vle_trans; [exact Hv|apply vle_merge_l]|apply vle_merge_r]. Qed.

Lemma feeds_grow v bs w : feeds v bs w -> forall v', v ⊑v v' -> exists w', feeds v' bs w' /\ w ⊑v w'.
Proof.
  induction 1 as [v|v b e bs w Hx He Hb Hf IH]; intros v' Hv; [by exists v'; split; [constructor|]|].
  destruct (IH (vv_merge v' e)) as (w' & Hf' & Hw); [by apply merge_mono|].
  exists w'. split; [|done]. econstructor; [done|done|by eapply vle_trans|done].
Qed.
Lemma feeds_base v bs w : feeds v bs w -> v ⊑v w.
Proof. induction 1; [apply vle_refl|]. eapply vle_trans; [apply vle_merge_l|done]. Qed.
Lemma feeds_snoc v bs w b e : feeds v bs w -> exported b -> blob_end_vv b = Ok e -> blob_base b ⊑v w ->
  feeds v (bs ++ [b]) (vv_merge w e).
Proof.
  induction 1 as [v|v b' e' bs w Hx He Hb Hf IH]; intros Hx' He' Hb'; cbn.
  - econstructor; [done|done|done|constructor].
  - econstructor; [done|done|done|by apply IH].
Qed.

(** The sender at [V] believes the other was sent [S]; [Q] is on its way; the
    receiver is at [R]. *)
Definition way (S : VV) (Q : list octets) (R V : VV) : Prop :=
  (exists u, feeds R Q u /\ S ⊑v u) /\ forall b e, b ∈ Q -> blob_end_vv b = Ok e -> e ⊑v V.

Lemma way_grow S Q R R' V V' : R ⊑v R' -> V ⊑v V' -> way S Q R V -> way S Q R' V'.
Proof.
  intros HR HV [(u & Hf & Hs) Hq]. split.
  - destruct (feeds_grow _ _ _ Hf _ HR) as (u' & Hf' & Hu). exists u'. split; [done|by eapply vle_trans].
  - intros b e Hb He. eapply vle_trans; [by eapply Hq|done].
Qed.
Lemma way_export S Q R d b : way S Q R (doc_oplog_vv d) -> export_updates S (sd_inner d) = Ok b ->
  way (doc_oplog_vv d) (Q ++ [b]) R (doc_oplog_vv d).
Proof.
  intros [(u & Hf & Hs) Hq] Hx. destruct (export_updates_law _ _ _ Hx) as (Hb & e & He & Hle & Hall & Hbase).
  split.
  - exists (vv_merge u e). split; [apply feeds_snoc; try done; by eapply vle_trans|].
    eapply vle_trans; [exact Hall|by apply merge_mono].
  - intros b' e' [Hin | ->%list_elem_of_singleton]%elem_of_app He'; [by eapply Hq|].
    rewrite He in He'. by injection He' as <-.
Qed.
Lemma way_merge S Q R V e : e ⊑v R -> way S Q R V -> way (vv_merge S e) Q R V.
Proof.
  intros He [(u & Hf & Hs) Hq]. split; [|done]. exists u. split; [done|]. apply vle_merge; [done|].
  eapply vle_trans; [exact He|by eapply feeds_base].
Qed.
Lemma way_pop S b Q R V : way S (b :: Q) R V -> exists e,
  exported b /\ blob_end_vv b = Ok e /\ blob_base b ⊑v R /\ e ⊑v V
  /\ forall R', vv_merge R e ⊑v R' -> way S Q R' V.
Proof.
  intros [(u & Hf & Hs) Hq]. inversion Hf as [|? ? e ? ? Hx He Hb Hf']; subst. exists e. split_and!; try done.
  - eapply Hq; [by left|done].
  - intros R' HR. apply (way_grow _ _ (vv_merge R e) _ V V); [done|apply vle_refl|].
    split; [by exists u|]. intros b' e' Hin. apply Hq. by right.
Qed.
Lemma way_start R V : V ⊑v R -> way V [] R V.
Proof. intros HV. split; [exists R; split; [constructor|done]|]. by intros b e ?%elem_of_nil. Qed.

(** ** Imports *)

Lemma import_base b e d inner : blob_end_vv b = Ok e -> blob_base b ⊑v doc_oplog_vv d ->
  import_with b (sd_inner d) = Ok inner -> vv_merge (doc_oplog_vv d) e ⊑v oplog_vv inner.
Proof. intros He Hb Hi. destruct (import_law _ _ _ _ Hi He) as [Hg Hr]. apply vle_merge; [done|by apply Hr]. Qed.

Lemma host_update_lands b e d : exported b -> blob_end_vv b = Ok e -> blob_base b ⊑v doc_oplog_vv d ->
  exists d', import_host_update b d = (Ok e, d') /\ vv_merge (doc_oplog_vv d) e ⊑v doc_oplog_vv d'.
Proof.
  intros Hx He Hb. destruct (import_exported b (sd_inner d) Hx) as [inner Hi]. unfold import_host_update.
  rewrite He, Hi. cbn. eexists. split; [done|]. by eapply (import_base b e d).
Qed.
Lemma mirror_update_lands b e d : exported b -> blob_end_vv b = Ok e -> blob_base b ⊑v doc_oplog_vv d ->
  exists d', import_mirror_update b d = (Ok e, d') /\ vv_merge (doc_oplog_vv d) e ⊑v doc_oplog_vv d'.
Proof.
  intros Hx He Hb. destruct (import_exported b (sd_inner d) Hx) as [inner Hi]. unfold import_mirror_update.
  rewrite He, Hi. cbn. eexists. split; [done|]. by eapply (import_base b e d).
Qed.
End way.

(** ** What the host's handlers do to its mirrors *)

Section moves.
Context `{Cipher, Oplog, !OplogOk, Entropy, !HostLibs} {T : Type} `{LocalStorage T, HostStore T} {P : Type} `{ProfileDir P}.
Implicit Types (s : Session T P) (h : Host T P).

Definition same_mirrors h h' : Prop :=
  h_subscribers h' = h_subscribers h /\ h_sinks h' = h_sinks h /\ h_next_subscriber h' = h_next_subscriber h.

(** The mirrored documents that stay open only gain operations. *)
Definition kept h h' : Prop := forall n sub d', h_subscribers h !! n = Some sub ->
  doc_for (su_doc_id sub) (h_session h') = Some d' ->
  exists d, doc_for (su_doc_id sub) (h_session h) = Some d /\ doc_oplog_vv d ⊑v doc_oplog_vv d'.

(** Any sequence of such changes and fan-outs. *)
Inductive moves : Host T P -> Host T P -> Prop :=
  | mv_keep h h' : same_mirrors h h' -> kept h h' -> moves h h'
  | mv_fan h : moves h (fan_out h)
  | mv_trans h1 h2 h3 : moves h1 h2 -> moves h2 h3 -> moves h1 h3.

Lemma grows_kept h h' : grows (h_session h) (h_session h') -> kept h h'.
Proof. intros G n sub d' _. apply G. Qed.
Lemma moves_grow h h' : same_mirrors h h' -> grows (h_session h) (h_session h') -> moves h h'.
Proof. intros. by apply mv_keep, grows_kept. Qed.
Lemma moves_same h h' : same_mirrors h h' -> h_session h' = h_session h -> moves h h'.
Proof. intros Hm E. apply moves_grow; [done|]. rewrite E. apply grows_refl. Qed.
Lemma moves_refl h : moves h h.
Proof. by apply moves_same. Qed.

Lemma moves_each m h : growing m -> moves h (map_session (each_engine m) h).
Proof. intros Hm. apply moves_grow; [done|]. by apply grows_each. Qed.
Lemma moves_one {A} id (m : E (T := T) A) h : growing m -> moves h (map_session (fun s => (on_engine id m s).2) h).
Proof. intros Hm. apply moves_grow; [done|]. by apply grows_on_engine. Qed.
Lemma moves_try {A} (m : E (T := T) (result StorageError A)) h : growing m -> moves h (run_session (try_each m) h).2.
Proof. intros Hm. apply moves_grow; [done|]. by apply grows_try. Qed.
Lemma moves_disconnect reason h : moves h (disconnect reason h).
Proof. apply moves_grow; [done|]. apply grows_each. intros v. apply holds_disconnected. Qed.
Lemma moves_drop reason h : moves h (drop_socket reason h).
Proof. by apply moves_same. Qed.
Lemma moves_mark id now h : moves h (run_session (mark_synced id now) h).2.
Proof. apply moves_grow; [done|]. apply grows_mark. Qed.
Lemma moves_flush h : moves h (map_session flush_engines h).
Proof. apply moves_each. intros v. apply holds_flush. Qed.

Create HintDb moves.
#[local] Hint Resolve moves_refl moves_disconnect moves_drop moves_mark moves_flush mv_fan : moves.

Lemma moves_event h f x : moves h (on_event (h, f) x).1.
Proof.
  destruct x as [id ev]. destruct ev; cbn [on_event]; cbn [fst]; auto with moves.
  - case_decide; cbn [fst]; [|auto with moves].
    eapply mv_trans; [apply moves_mark|]. eapply mv_trans; [apply moves_flush|]. by apply moves_same.
  - destruct (engine_idle id (h_session h)); auto with moves.
  - case_decide; cbn [fst]; auto with moves.
Qed.
Lemma moves_events evs : forall h f, moves h (foldl on_event (h, f) evs).1.
Proof.
  induction evs as [|x evs IH]; intros h f; [apply moves_refl|]. cbn [foldl]. pose proof (moves_event h f x) as Hx.
  destruct (on_event (h, f) x) as [h' f']. by eapply mv_trans, IH.
Qed.
Lemma moves_forget ids : forall h, moves h (foldl forget_one h ids).
Proof.
  induction ids as [|id ids IH]; intros h; [apply moves_refl|]. cbn [foldl]. eapply mv_trans; [|apply IH].
  apply moves_grow; [done|]. apply grows_forget.
Qed.
Lemma moves_act h : moves h (act_on_events h).
Proof.
  unfold act_on_events. set (h1 := set_session _ h).
  assert (F1 : moves h h1) by (apply moves_grow; [done|apply grows_drain]).
  pose proof (moves_events (drain_events (h_session h)).1 h1 []) as F2.
  destruct (foldl on_event _ _) as [h2 forget]. cbn in F2.
  set (h3 := if ws_up h2 && negb (home_online (h_session h2)) then drop_socket "engine disconnected" h2 else h2).
  assert (F3 : moves h2 h3) by (unfold h3; destruct (ws_up h2 && _); auto with moves).
  assert (F4 : moves h (foldl forget_one h3 forget)).
  { eapply mv_trans; [apply F1|]. eapply mv_trans; [apply F2|]. eapply mv_trans; [apply F3|]. apply moves_forget. }
  case_decide; [done|]. eapply mv_trans; [apply F4|apply mv_fan].
Qed.

Lemma grows_send ids : forall sk s, grows s (send_engines ids sk s).2.
Proof.
  induction ids as [|id ids IH]; intros sk s; [apply grows_refl|]. cbn.
  assert (Hl : forall rest, grows s (on_engine id (leave_outbox rest) (on_engine id take_outbox s).2).2).
  { intros rest. eapply grows_trans; [apply (grows_on_engine id take_outbox); by intros v e|].
    apply (grows_on_engine id (leave_outbox rest)). by intros v e. }
  destruct (send_frames _ sk) as [[[] rest] sk']; [|apply Hl]. eapply grows_trans; [apply Hl|apply IH].
Qed.
Lemma moves_pump h : moves h (pump h).
Proof.
  unfold pump. destruct (h_ws h) as [sk|]; [|apply moves_act].
  pose proof (grows_send (doc_keys (h_session h)) sk (h_session h)) as Hg. fold (send_outboxes sk (h_session h)) in Hg.
  destruct (send_outboxes sk (h_session h)) as [[[] sk'] s]; cbn in Hg;
    (eapply mv_trans; [|apply moves_act || apply moves_disconnect]); by apply moves_grow.
Qed.
#[local] Hint Resolve moves_pump : moves.

Lemma moves_persist h : moves h (run_session persist_engine_state h).2.
Proof. apply (moves_try persist_engine). intros v. apply holds_persist. Qed.
Lemma moves_settle h : moves h (settle h).2.
Proof.
  unfold settle. pose proof (moves_persist h) as F. destruct (run_session _ h) as [[[]|e] h']; [|done].
  cbn in *. eapply mv_trans; [apply F|]. eapply mv_trans; [apply moves_flush|].
  eapply mv_trans; [apply moves_pump|apply mv_fan].
Qed.

Lemma moves_ws m h : moves h (on_ws_message m h).
Proof.
  destruct m; cbn [on_ws_message]; auto with moves; [|by apply moves_same].
  assert (F : moves h (run_session persist_engine_state (map_session (route_server_bytes frame) h)).2).
  { eapply mv_trans; [|apply moves_persist]. apply moves_grow; [done|]. unfold route_server_bytes.
    apply grows_on_engine. intros v. apply holds_frame. }
  destruct (run_session persist_engine_state _) as [[[]|e] h']; cbn in F; (eapply mv_trans; [apply F|]);
    [|auto with moves]. eapply mv_trans; [apply moves_pump|apply mv_fan].
Qed.

Lemma moves_connect r h : moves h (on_connect_result r h).
Proof.
  destruct r as [ws|e]; [|by apply moves_same]. unfold on_connect_result. eapply mv_trans; [|apply moves_pump].
  apply moves_grow; [done|]. apply grows_each. intros v. apply holds_connected.
Qed.

Lemma moves_doc workspace edit h : (forall d, oplog_vv d ⊑v oplog_vv (edit d)) -> moves h (on_doc workspace edit h).2.
Proof.
  intros Hd. unfold on_doc. destruct (session_resolve _ _) as [id|]; [|apply moves_refl].
  eapply mv_trans; [|apply moves_settle]. apply (moves_one (A := unit)). by apply (growing_set_inner edit).
Qed.

Lemma moves_sync reply h : moves h (on_sync reply h).2.
Proof.
  unfold on_sync. pose proof (moves_persist h) as F. destruct (run_session _ h) as [[[]|e] h']; [|done].
  cbn in *. eapply mv_trans; [apply F|]. destruct (host_local_only h'); [by apply moves_same|].
  destruct (ws_up h' && _).
  - eapply mv_trans; [apply moves_flush|]. eapply mv_trans; [apply moves_pump|by apply moves_same].
  - destruct (negb _ && negb _); by apply moves_same.
Qed.

Lemma moves_reconnect h : moves h (on_reconnect h).
Proof.
  unfold on_reconnect. destruct (host_local_only h); [apply moves_refl|]. cbn zeta.
  destruct (ws_up _); [eapply mv_trans; [|apply moves_disconnect]; by apply moves_same|].
  destruct (h_connecting _); by apply moves_same.
Qed.

Lemma moves_create name dek seed server h :
  input_fits (InCreate name dek seed server) h -> moves h (on_create name dek seed server h).2.
Proof.
  intros Hf. unfold on_create. destruct (host_local_only h); [apply moves_refl|]. unfold run_session.
  destruct (create_doc name dek seed server (h_session h)) as [r s'] eqn:Ec.
  destruct (create_doc_spec _ _ _ _ _ _ _ Ec) as (_ & _ & Hr). cbn [fst snd].
  destruct r as [id|e]; [|by apply moves_grow; [|apply grows_docs]].
  destruct Hr as (ds & _ & Hd).
  assert (Hid : server = Ok id).
  { unfold create_doc in Ec. repeat case_match; simplify_eq; done. }
  subst server. destruct Hf as [_ Hf].
  eapply mv_trans; [|apply moves_settle]. eapply mv_trans.
  - apply (mv_keep h (set_session s' h)); [done|]. intros n sub d' E Hdoc. exists d'. split; [|apply vle_refl].
    unfold doc_for in *. cbn in Hdoc. rewrite Hd, lookup_insert_ne in Hdoc; [done|]. intros ->. by eapply Hf.
  - destruct (ws_up _); [|apply moves_refl]. apply (moves_one id handle_connected). intros v. apply holds_connected.
Qed.

Lemma moves_delete workspace server h : moves h (on_delete workspace server h).
Proof.
  unfold on_delete. destruct (session_resolve _ _) as [id|]; [|apply moves_refl].
  assert (F : moves h (run_session (delete_doc id server) h).2) by (apply moves_grow; [done|apply grows_delete]).
  destruct (run_session (delete_doc id server) h) as [[[]|e] h']; [|done].
  eapply mv_trans; [apply F|apply mv_fan].
Qed.

Lemma moves_tick h : moves h (on_persist_tick h).2.
Proof.
  unfold on_persist_tick. pose proof (moves_persist h) as F1.
  destruct (run_session _ h) as [[[]|e] h1]; [|done]. cbn -[run_session] in F1 |- *.
  eapply mv_trans; [apply F1|].
  assert (F2 : moves h1 (run_session session_fold h1).2) by (apply moves_try; intros v; apply holds_fold).
  destruct (run_session session_fold h1) as [[b|e] h2]; cbn in F2 |- *; [|done].
  eapply mv_trans; [apply F2|]. eapply mv_trans; [apply mv_fan|].
  destruct (ws_up (fan_out h2)); [|apply moves_refl]. eapply mv_trans; [|apply moves_pump].
  eapply mv_trans; [|apply moves_flush].
  destruct (match h_connected_at _ with Some _ => _ | None => _ end); [|apply moves_refl].
  apply (moves_each handle_timeout). intros v. apply holds_timeout.
Qed.

Lemma moves_ping h : moves h (on_ping_tick h).
Proof.
  unfold on_ping_tick. destruct (h_awaiting_pong h); [apply moves_disconnect|].
  destruct (h_ws h) as [sk|]; [|apply moves_refl]. destruct (send_raw sk) as [sk'|]; [|apply moves_disconnect].
  by apply moves_same.
Qed.

(** Every input but the mirrors' own. *)
Lemma moves_step i h r h' : host_step i h = (r, h') -> input_fits i h ->
  match i with InUnsubscribe _ => False | _ => True end -> moves h h'.
Proof.
  intros Hs Hf Hi. destruct i; cbn [host_step] in Hs; try done; try (injection Hs as <- <-).
  - unfold on_connect_due. destruct (host_local_only h); [apply moves_refl|by apply moves_same].
  - apply moves_connect.
  - apply moves_ws.
  - pose proof (moves_doc workspace edit h Hf) as F. by rewrite Hs in F.
  - pose proof (moves_sync reply h) as F. by rewrite Hs in F.
  - apply moves_reconnect.
  - pose proof (moves_create name dek seed server h Hf) as F. by rewrite Hs in F.
  - apply moves_delete.
  - pose proof (moves_tick h) as F. by rewrite Hs in F.
  - apply moves_ping.
Qed.
End moves.

(** ** The invariant of a desk *)

Section desk.
Context `{Cipher, Oplog, !OplogOk, Entropy, !HostLibs} {T : Type} `{LocalStorage T, HostStore T} {P : Type} `{ProfileDir P}.
Implicit Types (h : Host T P) (ws : gmap N Window).

(** Loro's: an export is never empty bytes, and a snapshot imported into an
    empty document gives the version it was taken at. *)
Definition snapshot_restores : Prop := forall d b d', export_snapshot d = Ok b ->
  import_with b loro_empty = Ok d' -> oplog_vv d' = oplog_vv d.
Definition exports_nonempty : Prop := forall b, exported b -> b <> [].
Hypothesis Hsnap : snapshot_restores.
Hypothesis Hne : exports_nonempty.

Definition window_vv (w : Window) : VV := doc_oplog_vv (me_doc (wi_engine w)).

Definition linked_mirror (sub : Subscriber) (sink : Sink) (w : Window) (d : SyncDoc) : Prop :=
  way (su_last_sent sub) (incoming sink w) (window_vv w) (doc_oplog_vv d)
  /\ way (me_last_sent (wi_engine w)) (outgoing w) (doc_oplog_vv d) (window_vv w).

Definition desk_ok h ws : Prop := forall n sub, h_subscribers h !! n = Some sub ->
  (n < h_next_subscriber h)%N /\ exists sink w, h_sinks h !! n = Some sink /\ ws !! n = Some w
  /\ wi_taken w <= length (si_updates sink)
  /\ forall d, doc_for (su_doc_id sub) (h_session h) = Some d -> linked_mirror sub sink w d.

Lemma desk_ok_keep h h' ws : same_mirrors h h' -> kept h h' -> desk_ok h ws -> desk_ok h' ws.
Proof.
  intros (Es & Ek & En) Hk Hok n sub E. rewrite Es in E. destruct (Hok n sub E) as (Hn & sink & w & E1 & E2 & Ht & Hl).
  split; [by rewrite En|]. exists sink, w. rewrite Ek. split_and!; try done. intros d' Ed.
  destruct (Hk n sub d' E Ed) as (d & Ed0 & Hg). destruct (Hl d Ed0) as [W1 W2].
  split; (eapply way_grow; [| |done]); by try apply vle_refl.
Qed.

Lemma offer_doc s sub sub' bs : offer (P := P) (T := T) s sub = Some (sub', bs) ->
  su_doc_id sub' = su_doc_id sub /\ is_Some (doc_for (su_doc_id sub) s).
Proof.
  unfold offer. destruct (doc_for _ s); [|done]. destruct (vv_includes _ _); [intros [= <- <-]; by split|].
  destruct (export_updates_after _ _); intros [= <- <-]; by split.
Qed.

Lemma offer_way s sub sub' bs d Q R : offer (P := P) (T := T) s sub = Some (sub', bs) ->
  doc_for (su_doc_id sub) s = Some d -> way (su_last_sent sub) Q R (doc_oplog_vv d) ->
  way (su_last_sent sub') (Q ++ bs) R (doc_oplog_vv d).
Proof.
  unfold offer. intros Ho Ed Hw. rewrite Ed in Ho. destruct (vv_includes _ _) eqn:Ei; [injection Ho as <- <-; by rewrite app_nil_r|].
  unfold export_updates_after in Ho. rewrite Ei in Ho. unfold loro in Ho.
  destruct (export_updates _ _) as [b|] eqn:Ex; [|injection Ho as <- <-; by rewrite app_nil_r].
  injection Ho as <- <-. cbn. rewrite decide_False; [by apply way_export with (su_last_sent sub)|].
  apply Hne. by destruct (export_updates_law _ _ _ Ex).
Qed.

Lemma desk_ok_fan h ws : desk_ok h ws -> desk_ok (fan_out h) ws.
Proof.
  intros Hok n sub' E. cbn in E. rewrite lookup_omap in E.
  destruct (h_subscribers h !! n) as [sub|] eqn:Es; [|done]. cbn in E.
  destruct (offer (h_session h) sub) as [[sub0 bs]|] eqn:Eo; [|done]. injection E as ->.
  destruct (Hok n sub Es) as (Hn & sink & w & E1 & E2 & Ht & Hl). destruct (offer_doc _ _ _ _ Eo) as [Ed _].
  split; [done|]. exists (mkSink (si_updates sink ++ bs) (si_stopped sink)), w. split_and!; try done.
  - cbn. rewrite map_lookup_imap, E1. cbn. by rewrite Es, Eo.
  - cbn. rewrite length_app. lia.
  - intros d Edoc. cbn in Edoc. rewrite Ed in Edoc. destruct (Hl d Edoc) as [W1 W2]. split; [|done].
    unfold incoming. cbn. rewrite drop_app_le by done. by eapply offer_way.
Qed.

Lemma desk_ok_moves h h' ws : moves h h' -> desk_ok h ws -> desk_ok h' ws.
Proof. induction 1; [by eapply desk_ok_keep|apply desk_ok_fan|auto]. Qed.

Lemma desk_ok_time now jitter h ws : desk_ok h ws -> desk_ok (set_time now jitter h) ws.
Proof. done. Qed.

(** *** The steps *)

Lemma desk_ok_subscribe workspace mint seed h h' ws doc : desk_ok h ws ->
  on_subscribe workspace mint h = (Ok seed, h') -> load_with_peer (sd_snapshot seed) = Ok doc ->
  desk_ok h' (<[sd_id seed := mkWindow (mirror doc) 0 []]> ws).
Proof.
  intros Hok Hs Hd. unfold on_subscribe in Hs. destruct (session_resolve _ _) as [id|]; [|done].
  destruct (claim mint _ _) as [[[lease|] locked] st]; [|done].
  destruct (doc_for id _) as [hd|] eqn:Ed; [|done].
  unfold export_snapshot_bytes in Hs. destruct (export_snapshot (sd_inner hd)) as [snap|] eqn:Ex; [|done].
  cbn in Hs. injection Hs as <- <-. cbn in *.
  unfold load_with_peer in Hd. destruct (import_with snap loro_empty) as [inner|] eqn:Ei; [|done].
  injection Hd as <-. pose proof (Hsnap _ _ _ Ex Ei) as Hvv.
  intros n sub E. cbn in E |- *. destruct (decide (n = h_next_subscriber h)) as [->|Hn].
  - rewrite lookup_insert_eq in E. injection E as <-. split; [lia|].
    eexists _, _. rewrite !lookup_insert_eq. split_and!; [done|done|cbn; lia|].
    intros d Ed'. cbn in Ed'. change (doc_for id (h_session h) = Some hd) in Ed.
    change (doc_for id (h_session h) = Some d) in Ed'. rewrite Ed in Ed'. injection Ed' as <-.
    change (doc_oplog_vv (mark_persisted (mkSyncDoc inner (oplog_vv loro_empty))) = doc_oplog_vv hd) in Hvv.
    unfold linked_mirror, window_vv, incoming, outgoing. cbn -[doc_oplog_vv mark_persisted].
    rewrite Hvv. split; apply way_start, vle_refl.
  - rewrite lookup_insert_ne in E by done. destruct (Hok n sub E) as (Hlt & sink & w & E1 & E2 & Ht & Hl).
    split; [lia|]. exists sink, w. rewrite !lookup_insert_ne by done. by split_and!.
Qed.

Lemma subscribe_fails_same workspace mint e h h' : on_subscribe workspace mint h = (Err e, h') ->
  same_mirrors h h' /\ kept h h'.
Proof.
  unfold on_subscribe. intros Hs.
  assert (K : forall st, kept h (map_session (with_store st) h)).
  { intros st n sub d' _ E. exists d'. split; [done|apply vle_refl]. }
  assert (K0 : kept h h) by (intros n sub d' _ E; exists d'; split; [done|apply vle_refl]).
  destruct (session_resolve _ _) as [id|]; [|by injection Hs as <- <-].
  destruct (claim mint _ _) as [[[lease|] locked] st]; [|by injection Hs as <- <-].
  destruct (doc_for id _) as [hd|]; [|by injection Hs as <- <-].
  by destruct (export_snapshot_bytes hd); [|injection Hs as <- <-].
Qed.

(** A window's own step leaves the host alone. *)
Lemma desk_ok_window h ws n w w' : desk_ok h ws -> ws !! n = Some w ->
  (forall sub sink, h_subscribers h !! n = Some sub -> h_sinks h !! n = Some sink ->
    wi_taken w <= length (si_updates sink) -> wi_taken w' <= length (si_updates sink)
    /\ forall d, linked_mirror sub sink w d -> linked_mirror sub sink w' d) ->
  desk_ok h (<[n := w']> ws).
Proof.
  intros Hok Ew Hw m sub E. destruct (Hok m sub E) as (Hn & sink & w0 & E1 & E2 & Ht & Hl).
  split; [done|]. destruct (decide (m = n)) as [->|Hmn].
  - rewrite Ew in E2. injection E2 as <-. destruct (Hw sub sink E E1 Ht) as [Ht' Hl'].
    exists sink, w'. rewrite lookup_insert_eq. split_and!; try done. intros d Ed. by apply Hl', Hl.
  - exists sink, w0. rewrite lookup_insert_ne by done. by split_and!.
Qed.

Lemma linked_edit sub sink m taken calls inner d : doc_oplog_vv (me_doc m) ⊑v oplog_vv inner ->
  linked_mirror sub sink (mkWindow m taken calls) d ->
  linked_mirror sub sink (mkWindow (mkMirrorEngine (mkSyncDoc inner (sd_last_persisted_vv (me_doc m)))
    (me_last_sent m) (me_outbox m)) taken calls) d.
Proof.
  intros Hg [W1 W2]. split.
  - by eapply way_grow; [| |exact W1]; [|apply vle_refl].
  - by eapply way_grow; [| |exact W2]; [apply vle_refl|].
Qed.

Lemma linked_flush sub sink m taken calls d : linked_mirror sub sink (mkWindow m taken calls) d ->
  linked_mirror sub sink (mkWindow (mirror_flush m) taken calls) d.
Proof.
  intros [W1 W2]. unfold mirror_flush. destruct (vv_includes _ _) eqn:Ei; [done|].
  unfold export_updates_after. rewrite Ei. unfold loro.
  destruct (export_updates _ _) as [b|] eqn:Ex; [|done]. rewrite decide_False by
    (apply Hne; by destruct (export_updates_law _ _ _ Ex)).
  split; [exact W1|]. unfold outgoing in *. cbn in *. rewrite app_assoc. by eapply way_export.
Qed.

Lemma linked_call sub sink m taken calls b m' d : take_mirror_outbox m = (Some b, m') ->
  linked_mirror sub sink (mkWindow m taken calls) d ->
  linked_mirror sub sink (mkWindow m' taken (calls ++ [b])) d.
Proof.
  unfold take_mirror_outbox. destruct (me_outbox m) as [|b0 rest] eqn:Eo; [done|]. intros [= <- <-] [W1 W2].
  split; [exact W1|]. unfold outgoing in *. cbn in *. rewrite Eo in W2. by rewrite <- app_assoc.
Qed.

Lemma linked_take sub sink m taken calls b d : si_updates sink !! taken = Some b ->
  linked_mirror sub sink (mkWindow m taken calls) d ->
  linked_mirror sub sink (mkWindow (apply_mirror_update b m).2 (S taken) calls) d.
Proof.
  intros Eb [W1 W2]. unfold incoming in W1. cbn in W1. rewrite (drop_S _ _ _ Eb) in W1.
  destruct (way_pop _ _ _ _ _ W1) as (e & Hx & He & Hb & HeV & Hpop).
  destruct (host_update_lands b e (me_doc m) Hx He Hb) as (d' & Hi & Hg).
  unfold apply_mirror_update. rewrite Hi. split.
  - unfold incoming, window_vv. cbn. by apply Hpop.
  - unfold outgoing, window_vv in *. cbn in *. apply way_merge; [done|].
    eapply way_grow; [apply vle_refl| |exact W2]. eapply vle_trans; [apply vle_merge_l|exact Hg].
Qed.

(** The host handles a window's import. *)
Lemma desk_ok_import n bytes r h h' ws m taken calls : desk_ok h ws ->
  ws !! n = Some (mkWindow m taken (bytes :: calls)) -> on_import n bytes h = (Ok r, h') ->
  desk_ok h' (<[n := mkWindow m taken calls]> ws).
Proof.
  intros Hok Ew Hi. unfold on_import in Hi.
  destruct (h_subscribers h !! n) as [sub|] eqn:Es.
  2:{ injection Hi as <- <-. intros j sub E. destruct (Hok j sub E) as (Hn & sink & w & E1 & E2 & Ht & Hl).
      split; [done|]. exists sink, w. rewrite lookup_insert_ne by (intros ->; congruence). by split_and!. }
  destruct (doc_for (su_doc_id sub) (h_session h)) as [d|] eqn:Ed.
  2:{ injection Hi as <- <-. intros j sub' E. destruct (Hok j sub' E) as (Hn & sink & w & E1 & E2 & Ht & Hl).
      split; [done|]. destruct (decide (j = n)) as [->|Hj].
      - rewrite Es in E. injection E as <-. rewrite Ew in E2. injection E2 as <-.
        exists sink. eexists. rewrite lookup_insert_eq. split_and!; [done|done|done|]. intros d Ed'. congruence.
      - exists sink, w. rewrite lookup_insert_ne by done. by split_and!. }
  destruct (Hok n sub Es) as (Hn & sink & w & E1 & E2 & Ht & Hl). rewrite Ew in E2. injection E2 as <-.
  destruct (Hl d Ed) as [W1 W2]. unfold outgoing in W2. cbn in W2.
  destruct (way_pop _ _ _ _ _ W2) as (e & Hx & He & Hb & HeV & Hpop).
  destruct (mirror_update_lands bytes e d Hx He Hb) as (d' & Himp & Hg). rewrite Himp in Hi.
  match type of Hi with context [settle ?g] => set (h1 := g) in Hi end.
  assert (Hok1 : desk_ok h1 (<[n := mkWindow m taken calls]> ws)).
  { assert (Hdoc : forall id, doc_for id (h_session h1) = if decide (id = su_doc_id sub) then Some d' else doc_for id (h_session h)).
    { intros id. unfold h1. cbn. rewrite (doc_on_engine (su_doc_id sub) (set_engine_doc d')).
      case_decide; [|done]. unfold doc_for in Ed. by destruct (ss_docs (h_session h) !! su_doc_id sub). }
    assert (Hgd : doc_oplog_vv d ⊑v doc_oplog_vv d') by (eapply vle_trans; [apply vle_merge_l|exact Hg]).
    intros j sub' E. cbn in E. destruct (decide (j = n)) as [->|Hj].
    - rewrite lookup_insert_eq in E. injection E as <-. split; [done|]. exists sink. eexists. rewrite lookup_insert_eq.
      split_and!; [done|done|done|]. intros d0 E0. rewrite Hdoc in E0. cbn in E0.
      rewrite decide_True in E0 by done. injection E0 as <-. split.
      + cbn. apply way_merge; [exact HeV|]. eapply way_grow; [apply vle_refl|exact Hgd|exact W1].
      + unfold outgoing. cbn. by apply Hpop.
    - rewrite lookup_insert_ne in E by done. destruct (Hok j sub' E) as (Hn' & sink' & w' & E1' & E2' & Ht' & Hl').
      split; [done|]. exists sink', w'. rewrite lookup_insert_ne by done. split_and!; [done|done|done|].
      intros d0 E0. rewrite Hdoc in E0. case_decide as Hdi; [|by apply Hl'].
      injection E0 as <-. rewrite Hdi in Hl'. destruct (Hl' d Ed) as [V1 V2].
      split; (eapply way_grow; [| |done]); by try apply vle_refl. }
  pose proof (moves_settle h1) as Hm. destruct (settle h1) as [[[]|err] h2]; [|done].
  injection Hi as <- <-. by eapply desk_ok_moves.
Qed.

Lemma desk_ok_step h ws h' ws' : desk_step (mkDesk h ws) (mkDesk h' ws') -> desk_ok h ws -> desk_ok h' ws'.
Proof.
  intros Hs Hok. inversion Hs; subst.
  - destruct (match i with InUnsubscribe _ => true | _ => false end) eqn:Ei.
    + destruct i; try done. match goal with Hx : host_step _ _ = _ |- _ => cbn in Hx; injection Hx as <- end.
      intros n sub E. cbn in E. apply lookup_delete_Some in E as [_ E]. exact (Hok n sub E).
    + eapply desk_ok_moves; [eapply moves_step; [done|by destruct i|by destruct i]|by apply desk_ok_time].
  - eapply desk_ok_subscribe; [|done|done]. exact Hok.
  - match goal with Hx : on_subscribe _ _ _ = _ |- _ => destruct (subscribe_fails_same _ _ _ _ _ Hx) end.
    eapply desk_ok_keep; [done|done|]. exact Hok.
  - eapply desk_ok_import; [|done|done]. exact Hok.
  - eapply desk_ok_window; [done|done|]. intros sub sink _ _ Ht. split; [done|]. intros d. by apply linked_edit.
  - eapply desk_ok_window; [done|done|]. intros sub sink _ _ Ht. split; [done|]. intros d. by apply linked_flush.
  - eapply desk_ok_window; [done|done|]. intros sub sink _ _ Ht. split; [done|]. intros d. by apply linked_call.
  - eapply desk_ok_window; [done|done|]. intros sub sink0 _ Ek Ht.
    match goal with Hk : h_sinks _ !! _ = Some ?k |- _ => rewrite Ek in Hk; injection Hk as -> end.
    cbn in *. split; [by eapply lookup_lt_Some|]. intros d. by apply linked_take.
Qed.
End desk.
