(* ===== verification/DeskConverges.v ===== *)
(** A window and its host agree. In any run of a host with its windows, every
    update on its way is accepted when its turn comes, and when nothing is on
    its way and neither side has anything left to send, the window and the
    host hold the same operations. *)
From S2P Require Import Prelude.
From S2P Require Import Wire.
From S2P Require Import Crypto.
From S2P Require Import Registers.
From S2P Require Import Tables.
From S2P Require Import Storage.
From S2P Require Import SyncDoc.
From S2P Require Import Engine.
From S2P Require Import Instances.
From S2P Require Import HostStore.
From S2P Require Import HostSession.
From S2P Require Import Host.
From S2P Require Import HostInstances.
From S2P Require Import Desk.
From S2P Require Import DeskFacts.

Section queues.
Context `{Oplog, !OplogOk}.

Lemma apply_all_way S Q V : forall m, way S Q (doc_oplog_vv (me_doc m)) V ->
  exists m', apply_all Q m = Some m' /\ S ⊑v doc_oplog_vv (me_doc m').
Proof.
  induction Q as [|b Q IH]; intros m Hw.
  - destruct Hw as [(u & Hf & Hs) _]. inversion Hf; subst. by exists m.
  - destruct (way_pop _ _ _ _ _ Hw) as (e & Hx & He & Hb & _ & Hpop).
    destruct (host_update_lands b e (me_doc m) Hx He Hb) as (d' & Hi & Hg).
    cbn. unfold apply_mirror_update. rewrite Hi. apply IH. by apply Hpop.
Qed.

Lemma host_import_way S Q V : forall d, way S Q (doc_oplog_vv d) V ->
  exists d', host_import_all Q d = Some d' /\ S ⊑v doc_oplog_vv d'.
Proof.
  induction Q as [|b Q IH]; intros d Hw.
  - destruct Hw as [(u & Hf & Hs) _]. inversion Hf; subst. by exists d.
  - destruct (way_pop _ _ _ _ _ Hw) as (e & Hx & He & Hb & _ & Hpop).
    destruct (mirror_update_lands b e d Hx He Hb) as (d' & Hi & Hg).
    cbn. rewrite Hi. apply IH. by apply Hpop.
Qed.
End queues.

Section desk.
Context `{Cipher, Oplog, !OplogOk, Entropy, !HostLibs} {T : Type} `{LocalStorage T, HostStore T} {P : Type} `{ProfileDir P}.
Implicit Types (h : Host T P).

Lemma desk_run_ok h0 (d : Desk T P) : snapshot_restores -> exports_nonempty -> h_subscribers h0 = ∅ ->
  desk_run (mkDesk h0 ∅) d -> desk_ok (de_host d) (de_windows d).
Proof.
  intros Hsnap Hne Hs0 Hr. induction Hr as [|[h ws] [h' ws'] Hr IH Hs].
  - intros n sub E. cbn in E. by rewrite Hs0, lookup_empty in E.
  - cbn in *. by eapply desk_ok_step.
Qed.

(** C7: A window converges with its host. In every run of the host (any frames,
    commands, ticks, drops and reconnects, any storage) with any windows that
    edit, flush, call and take at their own pace, a live subscription whose
    document is open has its sink and its window, and: every delivery still to
    be taken imports in its turn, and brings the window all that the host
    believes it sent; every update of the window still on its way imports at
    the host in its turn, and brings it all that the window believes it sent;
    and once both queues are empty and neither side has operations beyond what
    it sent, the window and the host's document have the same version. *)
Theorem mirrors_converge (h0 h : Host T P) ws n sub d :
  snapshot_restores -> exports_nonempty -> h_subscribers h0 = ∅ ->
  desk_run (mkDesk h0 ∅) (mkDesk h ws) ->
  h_subscribers h !! n = Some sub -> doc_for (su_doc_id sub) (h_session h) = Some d ->
  exists sink w, h_sinks h !! n = Some sink /\ ws !! n = Some w
  /\ (exists m, apply_all (incoming sink w) (wi_engine w) = Some m
       /\ su_last_sent sub ⊑v doc_oplog_vv (me_doc m))
  /\ (exists d', host_import_all (outgoing w) d = Some d' /\ me_last_sent (wi_engine w) ⊑v doc_oplog_vv d')
  /\ (incoming sink w = [] -> outgoing w = [] ->
      vv_includes (su_last_sent sub) (doc_oplog_vv d) = true ->
      vv_includes (me_last_sent (wi_engine w)) (doc_oplog_vv (me_doc (wi_engine w))) = true ->
      doc_oplog_vv (me_doc (wi_engine w)) = doc_oplog_vv d).
Proof.
  intros Hsnap Hne Hs0 Hr Es Ed. pose proof (desk_run_ok h0 _ Hsnap Hne Hs0 Hr) as Hok. cbn in Hok.
  destruct (Hok n sub Es) as (_ & sink & w & E1 & E2 & _ & Hl). destruct (Hl d Ed) as [W1 W2].
  exists sink, w. split; [done|]. split; [done|].
  destruct (apply_all_way _ _ _ (wi_engine w) W1) as (m & Hm & Hs).
  destruct (host_import_way _ _ _ d W2) as (d' & Hd & Hs').
  split; [by exists m|]. split; [by exists d'|]. intros Ei Eo I1 I2.
  rewrite Ei in Hm. injection Hm as <-. rewrite Eo in Hd. injection Hd as <-.
  apply vle_antisym; by eapply vle_trans.
Qed.

(** The steps of a run, computed. *)
Lemma desk_then_host (d0 : Desk T P) h ws now i : desk_run d0 (mkDesk h ws) ->
  input_fits i h -> enabled i (set_time now 0 h) = true -> is_ok (host_step i (set_time now 0 h)).1 = true ->
  desk_run d0 (mkDesk (host_step i (set_time now 0 h)).2 ws).
Proof.
  intros Hr Hf He Hk. eapply desk_next; [exact Hr|]. eapply (desk_host _ _ now 0); [done|done|].
  destruct (host_step i _) as [[[]|] h']; done.
Qed.
End desk.

(** ** A window beside a command *)

Lemma set_snapshot_restores : snapshot_restores.
Proof.
  intros d b d' [= <-]. cbn -[blob_parse blob_encode]. unfold ops_import. rewrite blob_parse_encode. cbn.
  intros [= <-]. case_decide; set_solver.
Qed.
Lemma set_exports_nonempty : exports_nonempty.
Proof. by intros b (base & ops & ->). Qed.

Lemma add_op_grows n (d : gset N) : (d : VV) ⊑v add_op n d.
Proof. apply set_vle. unfold add_op. set_solver. Qed.

Definition fresh_host : Host CliDb Secrets := host_after [].

(** The window subscribes to Home; a command adds operation 7 while the window
    adds 8; each reaches the other. *)
Definition subscribed : result MirrorError Seed * Host CliDb Secrets := on_subscribe None 5 (set_time 0 0 fresh_host).
Definition seed_of (r : result MirrorError Seed) : Seed := match r with Ok s => s | Err _ => mkSeed 9 0 0 [] end.
Definition seeded : SyncDoc :=
  match load_with_peer (sd_snapshot (seed_of subscribed.1)) with Ok d => d | Err _ => sync_doc_empty end.
Definition commanded : Host CliDb Secrets := (host_step (InDoc None (add_op 7)) (set_time 1 0 subscribed.2)).2.
Definition typed : MirrorEngine :=
  let m := mirror seeded in
  mkMirrorEngine (mkSyncDoc (add_op 8 (sd_inner (me_doc m))) (sd_last_persisted_vv (me_doc m)))
    (me_last_sent m) (me_outbox m).
Definition edited : MirrorEngine := mirror_flush typed.
Definition called : octets * MirrorEngine :=
  let r := take_mirror_outbox edited in (default [] r.1, r.2).
Definition imported : Host CliDb Secrets := (on_import 0 called.1 (set_time 2 0 commanded)).2.
Definition delivered : octets := default [] (h_sinks imported !! 0%N ≫= (fun s => si_updates s !! 0)).
Definition taken : MirrorEngine := (apply_mirror_update delivered called.2).2.

Definition last_window : Window := mkWindow taken 1 [].
Definition last_windows : gmap N Window := <[0%N := last_window]> ∅.

Lemma agreed_run : desk_run (mkDesk fresh_host ∅) (mkDesk imported last_windows).
Proof.
  assert (R1 : desk_run (mkDesk fresh_host ∅) (mkDesk subscribed.2 (<[0%N := mkWindow (mirror seeded) 0 []]> ∅))).
  { eapply desk_next; [constructor|]. apply (desk_subscribe _ _ 0 0 None 5 (seed_of subscribed.1)).
    - assert (Hk : is_ok subscribed.1 = true) by (vm_compute; reflexivity). revert Hk. unfold subscribed.
      by destruct (on_subscribe _ _ _) as [[seed|e] h].
    - assert (Hk : is_ok (load_with_peer (sd_snapshot (seed_of subscribed.1))) = true) by (vm_compute; reflexivity).
      revert Hk. unfold seeded. by destruct (load_with_peer _) as [d|e]. }
  assert (R2 : desk_run (mkDesk fresh_host ∅) (mkDesk commanded (<[0%N := mkWindow (mirror seeded) 0 []]> ∅))).
  { apply desk_then_host; [exact R1| |vm_compute; reflexivity|vm_compute; reflexivity].
    intros d. apply add_op_grows. }
  assert (R3 : desk_run (mkDesk fresh_host ∅) (mkDesk commanded (<[0%N := mkWindow edited 0 []]> ∅))).
  { assert (R : desk_run (mkDesk fresh_host ∅) (mkDesk commanded (<[0%N := mkWindow typed 0 []]> ∅))).
    { eapply desk_next; [exact R2|]. rewrite <- (insert_insert_eq ∅ 0%N (mkWindow typed 0 []) (mkWindow (mirror seeded) 0 [])).
      apply (desk_edit _ _ 0%N (mirror seeded) 0 [] (add_op 8 (sd_inner (me_doc (mirror seeded))))).
      - by rewrite lookup_insert_eq.
      - apply add_op_grows. }
    eapply desk_next; [exact R|]. rewrite <- (insert_insert_eq ∅ 0%N (mkWindow edited 0 []) (mkWindow typed 0 [])).
    apply (desk_flush commanded _ 0%N typed 0 []). by rewrite lookup_insert_eq. }
  assert (R4 : desk_run (mkDesk fresh_host ∅) (mkDesk commanded (<[0%N := mkWindow called.2 0 [called.1]]> ∅))).
  { eapply desk_next; [exact R3|]. rewrite <- (insert_insert_eq ∅ 0%N (mkWindow called.2 0 [called.1]) (mkWindow edited 0 [])).
    apply (desk_call _ _ 0%N edited 0 [] called.1 called.2).
    - by rewrite lookup_insert_eq.
    - assert (Hk : bool_decide (is_Some (take_mirror_outbox edited).1) = true) by (vm_compute; reflexivity).
      apply bool_decide_eq_true in Hk. unfold called. destruct (take_mirror_outbox edited) as [[b|] m]; [done|by destruct Hk]. }
  assert (R5 : desk_run (mkDesk fresh_host ∅) (mkDesk imported (<[0%N := mkWindow called.2 0 []]> ∅))).
  { eapply desk_next; [exact R4|]. rewrite <- (insert_insert_eq ∅ 0%N (mkWindow called.2 0 []) (mkWindow called.2 0 [called.1])).
    apply (desk_import _ _ 2 0 0%N called.2 0 called.1 [] (Ok tt) imported).
    - by rewrite lookup_insert_eq.
    - assert (Hk : match (on_import 0 called.1 (set_time 2 0 commanded)).1 with Ok (Ok _) => true | _ => false end = true)
        by (vm_compute; reflexivity).
      revert Hk. unfold imported. by destruct (on_import _ _ _) as [[[[]|]|] h]. }
  eapply desk_next; [exact R5|]. unfold last_windows, last_window.
  assert (Hk : bool_decide (is_Some (h_sinks imported !! 0%N ≫= fun s => si_updates s !! 0)) = true) by (vm_compute; reflexivity).
  apply bool_decide_eq_true in Hk. destruct (h_sinks imported !! 0%N) as [sink|] eqn:Ek; [|by destruct Hk].
  cbn in Hk. destruct Hk as [b Eb].
  assert (Hb : delivered = b) by (unfold delivered; rewrite Ek; cbn; by rewrite Eb).
  rewrite <- (insert_insert_eq ∅ 0%N (mkWindow taken 1 []) (mkWindow called.2 0 [])).
  apply (desk_take imported _ 0%N called.2 0 [] sink delivered); [by rewrite lookup_insert_eq|exact Ek|by rewrite Hb].
Qed.

(** Mirror 0 at the end: nothing on its way, nothing left to send, and the two
    operations. *)
Definition agreed (h : Host CliDb Secrets) (w : Window) : bool :=
  match h_subscribers h !! 0%N, h_sinks h !! 0%N with
  | Some sub, Some sink =>
      match doc_for (su_doc_id sub) (h_session h) with
      | Some d =>
          bool_decide (incoming sink w = []) && bool_decide (outgoing w = [])
          && vv_includes (su_last_sent sub) (doc_oplog_vv d)
          && vv_includes (me_last_sent (wi_engine w)) (doc_oplog_vv (me_doc (wi_engine w)))
          && bool_decide (elements (doc_oplog_vv d : gset N) = [8; 7]%N)
      | None => false
      end
  | _, _ => false
  end.

Lemma agreed_parts h w : agreed h w = true -> exists sub d sink,
  h_subscribers h !! 0%N = Some sub /\ doc_for (su_doc_id sub) (h_session h) = Some d
  /\ h_sinks h !! 0%N = Some sink /\ incoming sink w = [] /\ outgoing w = []
  /\ vv_includes (su_last_sent sub) (doc_oplog_vv d) = true
  /\ vv_includes (me_last_sent (wi_engine w)) (doc_oplog_vv (me_doc (wi_engine w))) = true
  /\ elements (doc_oplog_vv d : gset N) = [8; 7]%N.
Proof.
  unfold agreed. destruct (h_subscribers h !! 0%N) as [sub|]; [|done].
  destruct (h_sinks h !! 0%N) as [sink|]; [|done]. destruct (doc_for _ _) as [d|] eqn:Ed; [|done].
  rewrite !andb_true_iff, !bool_decide_eq_true. intros ((((Hi & Ho) & I1) & I2) & Hl).
  by exists sub, d, sink.
Qed.

Lemma imported_agreed : agreed imported last_window = true.
Proof. vm_compute. reflexivity. Qed.
Lemma last_window_at : last_windows !! 0%N = Some last_window.
Proof. apply lookup_insert_eq. Qed.
Lemma fresh_unsubscribed : h_subscribers fresh_host = ∅.
Proof. apply map_size_empty_inv, Nat.eqb_eq. vm_compute. reflexivity. Qed.

Lemma mirrors_converge_witness : exists sub d,
  h_subscribers imported !! 0%N = Some sub /\ doc_for (su_doc_id sub) (h_session imported) = Some d
  /\ doc_oplog_vv (me_doc (wi_engine last_window)) = doc_oplog_vv d /\ elements (doc_oplog_vv d : gset N) = [8; 7]%N.
Proof.
  destruct (agreed_parts imported last_window imported_agreed) as (sub & d & sink0 & Es & Ed & Ek0 & Hi & Ho & I1 & I2 & Hl).
  destruct (mirrors_converge fresh_host imported last_windows 0%N sub d set_snapshot_restores set_exports_nonempty
    fresh_unsubscribed agreed_run Es Ed) as (sink & w & Ek & Ew & _ & _ & Heq).
  rewrite last_window_at in Ew. apply (inj Some) in Ew. destruct Ew.
  rewrite Ek0 in Ek. apply (inj Some) in Ek. destruct Ek.
  exists sub, d. split; [exact Es|]. split; [exact Ed|]. split; [|exact Hl].
  exact (Heq Hi Ho I1 I2).
Defined.
